(* ===== verification/_CoqProject ===== *)
-Q . S2P
Prelude.v
Sorting.v
Bytes.v
Base.v
StoreKeys.v
Command.v
AccountDiff.v
Account.v
Coinbase.v
Precomputed.v
Signed.v
LedgerDiff.v
Ledger.v
Supply.v
BlockOrder.v
InternalCommand.v
Discovery.v
Rose.v
Branch.v
Pruning.v
WitnessTree.v
Growth.v
Frontier.v
ColumnFamilies.v
Db.v
Events.v
Codes.v
BlockCodes.v
Schema.v
BlockIndex.v
Usernames.v
ZkappStore.v
InternalStore.v
CommandStore.v
Canonicity.v
Reorg.v
SnarkStore.v
SnarkLists.v
ProverFees.v
BestLedger.v
StagedStore.v
BlockStore.v
BestTip.v
Staking.v
StakingStore.v
BinProt.v
Parser.v
Pipeline.v
FrontierDb.v
Server.v
Genesis.v
Ingest.v
Blocks.v
Queries.v
