(* ===== verification/Prelude.v ===== *)
(** * A verification development of the Mina indexer

    The indexer reads the blocks of the Mina blockchain from files, selects the canonical chain, computes from each
    block the changes it makes to accounts, keeps the tree of recent blocks and their best tip in memory, and keeps
    blocks, commands, SNARK work, ledgers and what follows from the best chain in an ordered key-value database.
    This library models that program (src/rust/src) as executable definitions and proves what makes it correct.

    ** Parts of the program and the files that model them

    Foundations.
    - Prelude: outcomes of fallible code, machine integers, loops with fuel, lists and automation shared by all files.
    - Sorting: sorting with a comparison that may panic or not be an order ([slice::sort_by]).
    - Bytes: strings and byte strings as Rust sees them, UTF-8, integers in bytes, the order of keys, slices.
    - Base (base, ledger/hash.rs, ledger/token, command/signed/txn_hash.rs, constants.rs): amounts, nonces, keys, hashes, tokens.
    - StoreKeys (utility/store): every constructor and splitter of the keys of the database.

    Blocks and what they change.
    - Command (command/mod.rs, mina_blocks/v2), Signed (command/signed/mod.rs): user commands of both block versions.
    - Precomputed (block/precomputed/mod.rs): what is read from a block.
    - AccountDiff (ledger/diff/account.rs), Coinbase (ledger/coinbase.rs), LedgerDiff (ledger/diff/mod.rs): the changes
      of one account, and of a block.
    - Account (ledger/account), Ledger (ledger/mod.rs), Supply: accounts and ledgers, applying and undoing changes; the
      MINA in a ledger.
    - Genesis (ledger/genesis.rs): genesis ledgers and protocol constants.
    - InternalCommand (command/internal/mod.rs): coinbases and fee transfers of a block.
    - BinProt (protocol/bin_prot): the binary format of commands of the first chain.

    Chains.
    - BlockOrder (block/mod.rs): which of two blocks is better, names of block files.
    - Discovery (canonicity/canonical_chain_discovery.rs): the canonical chain among block files.
    - Rose, Branch, Pruning (state/branch.rs): trees; branches of the witness tree, extended, merged and pruned.
    - WitnessTree, Growth, Frontier (state/mod.rs): the handler that adds a block to the witness tree, dangling
      branches, best tip and canonical root, the invariant of the state.

    The database.
    - ColumnFamilies, Db (store/column_families_impl.rs, the speedb crate), Events (event, store/event_store_impl.rs).
    - Codes, BlockCodes: codes of the stored data, for the examples.
    - Schema: the types of the stored values, and lists kept as a counter and numbered entries.
    - BlockIndex, BlockStore (store/block_store_impl.rs), Usernames, ZkappStore, InternalStore, CommandStore,
      SnarkStore with SnarkLists and ProverFees, Canonicity, Reorg, BestLedger, StagedStore (store/*_store_impl.rs): the stores.
    - BestTip: the invariant that ties the stores to the chain of the best tip.
    - Staking, StakingStore (ledger/staking, store/staking_ledger_store_impl.rs): staking ledgers and delegations.

    The running program.
    - Parser (block/parser.rs): the files of a directory in the order of their ingestion.
    - Pipeline (state/mod.rs): the state of the indexer over its database: ingestion, the block pipeline, recovery from
      an existing database.
    - Ingest: what [add_block] writes, put together with the invariant of the best tip: the ingestion of a chain of blocks.
    - Server (server.rs, unix_socket_server.rs): the tasks that share the state, and the lock around it.
    - Queries (unix_socket_server.rs, client.rs, store/version_store_impl.rs): the answers to the queries of clients.

    ** How they interact

    [Parser] hands blocks to [Pipeline.block_pipeline].  It adds the block to the store ([BlockStore.add_block], which
    calls the stores of commands, internal commands and SNARK work and stores [LedgerDiff.from_precomputed] of the
    block), adds it to the witness tree ([WitnessTree.add_block_to_witness_tree], which uses [Branch] and [BlockOrder]),
    and, when the best tip moved, calls [BlockStore.set_best_block]: [Canonicity.reorg_blocks] finds the blocks to unapply and to apply,
    and the canonicity store, the best ledger, user names, SNARK fees and counts follow.
    [BestLedger] hands each account diff to [Account.apply_account_diff], as [Ledger] does for ledgers in memory;
    [StagedStore] computes the ledger of any block from the closest one stored and the diffs between.
    The blocks [Discovery] finds canonical are added without the witness tree ([Pipeline.ingest_loop]).
    [Queries.handle_connection] answers clients from the same stores.

    ** Conventions

    - A definition keeps the name of the Rust function it models; a prefix tells apart functions of the same name
      ([ledger_apply_diff] is [Ledger::_apply_diff]).
    - A fallible function returns [res A]: a value [Ok], an error [Err] that the caller can handle, or [Panic] for
      expect, unwrap, assert! and indexing.  The functions of the database also return the database, or the batch of
      writes they add; a loop that might not end returns an [option], [None] when its fuel is used up.
    - Integers are [Z] kept at their width: [wrap32], [wrap64] for the arithmetic of the release build, clamping where
      the code says saturating.
    - A [HashMap] or [HashSet] is a [gmap] or [gset]; where the code iterates over one, the order is a parameter that
      may be any permutation of the entries ([HashMapIter], [UsernameIter], [ProverIter], [DiffIter], [LedgerIter],
      [StakingIter], [DelegatesIter]), so that theorems hold for every order.  A [BTreeMap] is a list by increasing key.
    - Code outside the repository is an interface, a class of operations with the laws its documentation states, and
      the theorems hold for every instance of it: the database ([Speedb], [SpeedbSpec]: an ordered map per column
      family), JSON ([Json], [JsonSpec]: what is written is read back), trees ([IdTree], [IdTreeSpec]), sorting
      ([SortBy]), decimal numbers ([Decimal]), hashes ([TxnHasher], [Blake2b], base58check), files ([BlockFiles],
      [BlockDisk], [ClientFiles]).  [LedgerDb] is the interface between the witness tree and the database.  Each class has an instance
      in the library, used by the witnesses.
    - The typing of the database ([Schema.well_typed]) is the invariant under which no reader panics.  What an operation
      leaves alone is stated by the families and keys it writes ([writes_in], [kept]).

    ** Fuel

    Discovery needs one iteration per file in each of its two loops; printing an integer 20 digits, the length of
    the largest u64; [reorg_blocks], [walk_to_account] and [walk_to_ledger] one step per block of the chains they walk,
    and the theorems give this number; reading until the parser is at its end one step per file.

    ** What the theorems show

    - Money: applying a block to a well-formed ledger succeeds and the total grows by exactly the coinbase; each account
      pays and earns exactly its fees; internal commands move exactly the fees due; a genesis ledger has the accounts
      of its file and their balances.
    - Ledgers: applying a block is, account by account, the application of the account's own diffs; applying then
      undoing is the identity under stated conditions, which are necessary; no well-formed block makes the diffs panic.
    - Chains: the block comparison is the longest-chain rule with its tie breaks; discovery ends, puts each file in one
      result and returns a longest chain; branches stay well formed when extended, merged and pruned and lose no block;
      the handler of the witness tree never fails and keeps the invariant of the state under every sequence of blocks.
    - Database: adding a block never fails on a typed store and keeps it typed; blocks, commands, internal commands,
      SNARK work, events, staged and staking ledgers are read back as they were written and do not disturb others.
    - Composition: when the best tip moves, all stores follow the chain of the new tip; the best and the staged
      ledgers refine the ledgers in memory; staking delegations are the sums over the accounts.
    - Ingestion: every block file is ingested once; the loop over the canonical blocks of the start ends and leaves all
      stores at the end of their chain and the witness tree rooted there; the tasks of the server never block each other while the version of
      the blocks stays the same.
    - Queries: after the ingestion, the best chain is answered with the blocks of the files, down to the start and the
      number of blocks asked for.
    - Where the code does not do what it means to, the theorem states what it does: unapply_forward_keeps_nonce,
      staged_account_mixes_tokens, zkapp_state_routed_to_mina, nested_calls_dropped, amount_reported,
      minimum_balance_overstates, block_cmp_not_an_order, discovery_threshold_zero, best_tip_is_worst_leaf,
      no_username_from_base58_memo, arrival_order_strands_blocks, higher_tip_skips_heights, created_accounts_remain,
      snark_work_at_one_height_lost, unapplied_snark_fees_are_added, ledgers_of_two_chains_clash,
      bin_prot_lossy, initial_ledger_incomplete, version_change_blocks_server, failing_query_ends_server,
      transactions_ignore_range.

    ** What is not modelled

    The HTTP and GraphQL interfaces and the command line only read the stores or parse arguments, and
    answer with data of types generated by macros; the text of the answers to clients is left out too.  The serialization types of the first chain and the proof systems are data
    declarations and curve arithmetic of other crates.  JSON, compression, hashing, files, processes, sockets and the
    watcher of the directories are interfaces or left out, as are progress reports, the summary of the state and
    the writing of CSV files.  Of bin_prot, floats, maps and the reader of untyped values are left out. *)

From stdpp Require Export base tactics list strings gmap sorting.
From Stdlib Require Export ZArith Lia.

Open Scope Z_scope.

(** * Outcomes of fallible code

    A Rust function that returns [anyhow::Result] has three observable
    outcomes: a value, an error that the caller may propagate with [?] or
    handle, and a panic ([expect], [unwrap], [assert!], an index out of range)
    that unwinds the thread.  The message carried by an error is dropped. *)

Inductive res (A : Type) : Type :=
| Ok (a : A)
| Err
| Panic.
Arguments Ok {A} a.
Arguments Err {A}.
Arguments Panic {A}.

Global Instance res_ret : MRet res := @Ok.
Global Instance res_bind : MBind res := fun A B f m =>
  match m with Ok a => f a | Err => Err | Panic => Panic end.
Global Instance res_fmap : FMap res := fun A B f m =>
  match m with Ok a => Ok (f a) | Err => Err | Panic => Panic end.

Global Instance res_eq_dec `{EqDecision A} : EqDecision (res A).
Proof. solve_decision. Defined.

(** [Result::expect] / [Result::unwrap]: an error becomes a panic. *)
Definition expect {A} (m : res A) : res A :=
  match m with Ok a => Ok a | _ => Panic end.

(** [Option::expect] / [Option::unwrap]. *)
Definition expect_some {A} (o : option A) : res A :=
  match o with Some a => Ok a | None => Panic end.

(** [anyhow::bail!] unless the test holds. *)
Definition ensure (b : bool) : res unit := if b then Ok tt else Err.

(** [assert!]. *)
Definition rust_assert (b : bool) : res unit := if b then Ok tt else Panic.

(** A loop over a sequence whose body may fail: the first failure ends it. *)
Fixpoint foldM {A B} (f : A -> B -> res A) (a : A) (l : list B) : res A :=
  match l with
  | [] => Ok a
  | b :: l => a' ← f a b; foldM f a' l
  end.

Lemma foldM_app {A B} (f : A -> B -> res A) a l1 l2 :
  foldM f a (l1 ++ l2) = (a' ← foldM f a l1; foldM f a' l2).
Proof.
  revert a; induction l1 as [|b l1 IH]; intros a; simpl; [done|].
  destruct (f a b) as [a'| |]; simpl; [apply IH|done|done].
Qed.

(** An invariant kept by every successful iteration holds at the end. *)
Lemma foldM_inv {A B} (P : A -> Prop) (f : A -> B -> res A) l a a' :
  (forall a b a', b ∈ l -> P a -> f a b = Ok a' -> P a') ->
  P a -> foldM f a l = Ok a' -> P a'.
Proof.
  revert a; induction l as [|b l IH]; intros a Hf Ha; simpl.
  - intros [= <-]; done.
  - destruct (f a b) as [a1| |] eqn:E; simpl; [|done|done].
    apply IH; [|eapply Hf; eauto; by left].
    intros; eapply Hf; eauto; by right.
Qed.

(** A loop whose body never fails is a fold. *)
Lemma foldM_total {A B} (f : A -> B -> res A) (g : A -> B -> A) l a :
  (forall a b, f a b = Ok (g a b)) -> foldM f a l = Ok (fold_left g l a).
Proof.
  intros H; revert a; induction l as [|b l IH]; intros a; simpl; [done|].
  rewrite H; simpl; apply IH.
Qed.

(** * Machine integers

    A [w]-bit unsigned integer is a [Z] in [0, 2^w).  The [+], [-] and [*] of
    the production build (release profile, no overflow checks) wrap; the
    [saturating_*] methods clamp. *)

Definition U32_MAX : Z := 4294967295.
Definition U64_MAX : Z := 18446744073709551615.

Definition u32 (z : Z) : Prop := 0 <= z <= U32_MAX.
Definition u64 (z : Z) : Prop := 0 <= z <= U64_MAX.

Global Instance u32_dec z : Decision (u32 z).
Proof. unfold u32; apply _. Defined.
Global Instance u64_dec z : Decision (u64 z).
Proof. unfold u64; apply _. Defined.

Definition wrap32 (z : Z) : Z := z mod 4294967296.
Definition wrap64 (z : Z) : Z := z mod 18446744073709551616.

Definition saturating_add32 (a b : Z) : Z := Z.min U32_MAX (a + b).
Definition saturating_add64 (a b : Z) : Z := Z.min U64_MAX (a + b).
Definition saturating_sub (a b : Z) : Z := Z.max 0 (a - b).

(** [x as i64] for a [u64], and [x as u64] for an [i64]. *)
Definition as_i64 (z : Z) : Z :=
  let u := wrap64 z in if u <? 9223372036854775808 then u else u - 18446744073709551616.

Lemma wrap64_range z : u64 (wrap64 z).
Proof. unfold u64, wrap64, U64_MAX; pose proof (Z.mod_pos_bound z 18446744073709551616); lia. Qed.
Lemma wrap32_range z : u32 (wrap32 z).
Proof. unfold u32, wrap32, U32_MAX; pose proof (Z.mod_pos_bound z 4294967296); lia. Qed.
Lemma wrap64_id z : u64 z -> wrap64 z = z.
Proof. unfold u64, wrap64, U64_MAX; intros; apply Z.mod_small; lia. Qed.
Lemma wrap32_id z : u32 z -> wrap32 z = z.
Proof. unfold u32, wrap32, U32_MAX; intros; apply Z.mod_small; lia. Qed.
Lemma wrap64_add_l a b : wrap64 (wrap64 a + b) = wrap64 (a + b).
Proof. unfold wrap64; apply Zplus_mod_idemp_l. Qed.
Lemma wrap64_add_r a b : wrap64 (a + wrap64 b) = wrap64 (a + b).
Proof. unfold wrap64; apply Zplus_mod_idemp_r. Qed.

Create HintDb indexer.
#[export] Hint Resolve wrap64_range wrap32_range : indexer.
Create Rewrite HintDb indexer_rw.
#[export] Hint Rewrite wrap64_add_l wrap64_add_r : indexer_rw.

(** Unfold the integer ranges and call [lia]. *)
Ltac ints := unfold u32, u64, saturating_sub, saturating_add32, saturating_add64,
  U32_MAX, U64_MAX in *; lia.

(** Inversion of a computation that returned a value: one equation per step. *)
Lemma bind_Ok {A B} (m : res A) (f : A -> res B) b :
  (a ← m; f a) = Ok b -> exists a, m = Ok a /\ f a = Ok b.
Proof. destruct m as [a| |]; simpl; [eauto|done|done]. Qed.

Ltac inv_ok H :=
  let a := fresh "v" in let E := fresh "E" in
  apply bind_Ok in H as (a & E & H).

(** [mapM] over [res] succeeds exactly when every call does. *)
Lemma mapM_res_Ok {A B} (f : A -> res B) l k :
  mapM f l = Ok k <-> Forall2 (fun a b => f a = Ok b) l k.
Proof.
  revert k; induction l as [|a l IH]; intros k; simpl.
  - split; [intros [= <-]; constructor|by inversion 1].
  - split.
    + intros H. inv_ok H. inv_ok H. injection H as <-. constructor; [done|by apply IH].
    + inversion 1 as [|? b ? k' Hb Hk]; subst. rewrite Hb. simpl.
      apply IH in Hk. by rewrite Hk.
Qed.

Lemma mapM_res_total {A B} (f : A -> res B) l :
  Forall (fun a => exists b, f a = Ok b) l -> exists k, mapM f l = Ok k.
Proof.
  induction 1 as [|a l [b Hb] _ [k IH]]; [by exists []|].
  exists (b :: k). simpl. rewrite Hb. simpl. by rewrite IH.
Qed.

Lemma length_omap_le {A B} (f : A -> option B) (l : list A) : (length (omap f l) <= length l)%nat.
Proof. induction l as [|a l IH]; [done|]. cbn [omap list_omap length]. destruct (f a); cbn [length]; lia. Qed.
Lemma list_omap_fmap {A B C} (f : B -> option C) (g : A -> B) (l : list A) : omap f (g <$> l) = omap (fun a => f (g a)) l.
Proof. induction l as [|a l IH]; [done|]. cbn [fmap list_fmap omap list_omap]. rewrite IH. done. Qed.
Lemma mapM_res_ext {A B} (f g : A -> res B) l : (forall x, x ∈ l -> f x = g x) -> mapM f l = mapM g l.
Proof.
  induction l as [|x l IH]; intros E; [done|]. cbn [mapM]. rewrite E by set_solver. destruct (g x); [|done..].
  cbn [mbind res_bind]. by rewrite IH by set_solver.
Qed.

(** Filters whose tests agree on the elements of the list. *)
Lemma filter_ext_elem {A} (P Q : A -> Prop) `{forall a, Decision (P a), forall a, Decision (Q a)}
    (l : list A) :
  (forall a, a ∈ l -> P a <-> Q a) -> filter P l = filter Q l.
Proof.
  induction l as [|a l IH]; intros HPQ; [done|]. rewrite !filter_cons.
  rewrite IH by (intros; apply HPQ; by right).
  destruct (decide (P a)) as [Hp|Hp], (decide (Q a)) as [Hq|Hq]; try done;
    exfalso; revert Hp Hq; rewrite HPQ by (by left); tauto.
Qed.

(** The elements of a list with their positions ([enumerate] of an iterator). *)
Definition enumerate {A} (l : list A) : list (nat * A) := zip (seq 0 (length l)) l.

(** * Loops

    A [while] loop: [body] answers [None] when the condition is false.  The
    result is [None] when the fuel runs out first. *)
Fixpoint while {S} (fuel : nat) (body : S -> option (res S)) (s : S) : option (res S) :=
  match body s with
  | None => Some (Ok s)
  | Some r =>
    match fuel with
    | O => None
    | Datatypes.S fuel =>
      match r with Ok s' => while fuel body s' | Err => Some Err | Panic => Some Panic end
    end
  end.

(** A loop with an invariant, indexed by a measure that every iteration decreases,
    ends in a state that satisfies the invariant and fails the condition. *)
Lemma while_total {S} (Inv : nat -> S -> Prop) (body : S -> option (res S)) :
  (forall n s, Inv n s ->
     match body s with
     | None => True
     | Some r => exists s' n', r = Ok s' /\ (n' < n)%nat /\ Inv n' s'
     end) ->
  forall fuel n s, Inv n s -> (n <= fuel)%nat ->
  exists s' n', while fuel body s = Some (Ok s') /\ Inv n' s' /\ body s' = None.
Proof.
  intros Hb. induction fuel as [|fuel IH]; intros n s Hs Hn;
    specialize (Hb n s Hs); simpl; destruct (body s) as [r|] eqn:E; try by eauto.
  - destruct Hb as (? & ? & _ & ? & _). lia.
  - destruct Hb as (s' & n' & -> & Hlt & Hi). apply (IH n'); [done|lia].
Qed.

(** More fuel does not change the outcome. *)
Lemma while_fuel_mono {S} (body : S -> option (res S)) fuel fuel' s r :
  while fuel body s = Some r -> (fuel <= fuel')%nat -> while fuel' body s = Some r.
Proof.
  revert fuel' s. induction fuel as [|fuel IH]; intros [|fuel'] s; simpl;
    destruct (body s) as [[]|]; intros ? ?; try done; try lia. apply IH; [done|lia].
Qed.

Lemma filter_all {A} (P : A -> Prop) `{forall a, Decision (P a)} (l : list A) :
  Forall P l -> filter P l = l.
Proof. induction 1; [done|]. rewrite filter_cons_True by done. by f_equal. Qed.
Lemma filter_none {A} (P : A -> Prop) `{forall a, Decision (P a)} (l : list A) :
  Forall (fun a => ~ P a) l -> filter P l = [].
Proof. induction 1; [done|]. by rewrite filter_cons_False. Qed.

Lemma elem_of_concat {A} (a : A) (ls : list (list A)) :
  a ∈ concat ls <-> exists l, l ∈ ls /\ a ∈ l.
Proof. induction ls as [|l ls IH]; simpl; set_solver. Qed.

(** Distinct images determine the elements. *)
Lemma NoDup_fmap_eq {A B} (f : A -> B) (l : list A) x y :
  NoDup (f <$> l) -> x ∈ l -> y ∈ l -> f x = f y -> x = y.
Proof.
  induction l as [|z l IH]; [by intros _ ?%elem_of_nil|]. csimpl.
  intros [Hz Hl]%NoDup_cons [->|Hx]%elem_of_cons [->|Hy]%elem_of_cons E; auto.
  - exfalso. apply Hz. rewrite E. by apply list_elem_of_fmap_2.
  - exfalso. apply Hz. rewrite <- E. by apply list_elem_of_fmap_2.
Qed.

(** [slice::sort_by] for a consistent comparison: a stable sort. *)
Section SortBy.
Context {A : Type} (le : A -> A -> bool).

Fixpoint insert_by (x : A) (l : list A) : list A :=
  match l with
  | [] => [x]
  | y :: l' => if le x y then x :: l else y :: insert_by x l'
  end.
Definition sort_by (l : list A) : list A := foldr insert_by [] l.

Lemma sort_by_perm l : sort_by l ≡ₚ l.
Proof.
  induction l as [|x l IH]; [done|]. simpl. rewrite <- IH at 2. fold (sort_by l).
  generalize (sort_by l) as k. induction k as [|y k IHk]; simpl; [done|].
  destruct (le x y); [done|]. rewrite IHk. apply Permutation_swap.
Qed.

Lemma sort_by_head l :
  (forall x y, x ∈ l -> y ∈ l -> le x y = true \/ le y x = true) ->
  (forall x y z, x ∈ l -> y ∈ l -> z ∈ l -> le x y = true -> le y z = true -> le x z = true) ->
  match head (sort_by l) with
  | None => l = []
  | Some m => m ∈ l /\ forall y, y ∈ l -> y = m \/ le m y = true
  end.
Proof.
  induction l as [|x l IH]; intros Htot Htr; [done|]. simpl.
  assert (match head (sort_by l) with
    | None => l = [] | Some m => m ∈ l /\ forall y, y ∈ l -> y = m \/ le m y = true end) as Hl.
  { apply IH; intros; [apply Htot|eapply Htr; [..|eassumption|eassumption]]; by right. }
  fold (sort_by l). destruct (sort_by l) as [|m s]; simpl in *.
  { subst. split; [left|]. intros y [->|Hy]%elem_of_cons; [by left|by apply elem_of_nil in Hy]. }
  destruct Hl as [Hm Hl]. destruct (le x m) eqn:E; simpl.
  - split; [left|]. intros y [->|Hy]%elem_of_cons; [by left|]. right.
    destruct (Hl y Hy) as [->|Hmy]; [done|]. apply (Htr x m y); [by left|by right|by right|done|done].
  - split; [by right|]. intros y [->|Hy]%elem_of_cons; [|auto]. right.
    destruct (Htot x m); [by left|by right|congruence|done].
Qed.
End SortBy.
