(* ===== verification/Sorting.v ===== *)
(** Sorting a slice with a comparison that may panic, and that need not be an order ([slice::sort] and [sort_by] of the
    standard library): the result is then some permutation, or a panic. *)

From S2P Require Import Prelude.

(** A comparison that is a strict total order on the elements of a list. *)
Record ordered_by {A} (f : A -> A -> comparison) (l : list A) : Prop := {
  ord_trans a b c : a ∈ l -> b ∈ l -> c ∈ l -> f a b = Lt -> f b c = Lt -> f a c = Lt;
  ord_asym a b : a ∈ l -> b ∈ l -> f a b = Lt -> f b a <> Lt;
  ord_total a b : a ∈ l -> b ∈ l -> a = b \/ f a b = Lt \/ f b a = Lt
}.

Definition not_after {A} (f : A -> A -> comparison) (a b : A) : Prop := f b a <> Lt.

Class SortBy (A : Type) := {
  sort_by : (A -> A -> res comparison) -> list A -> res (list A);
  sort_perm cmp l l' : sort_by cmp l = Ok l' -> l' ≡ₚ l;
  sort_sorted cmp f l :
    (forall a b, a ∈ l -> b ∈ l -> cmp a b = Ok (f a b)) -> ordered_by f l ->
    exists l', sort_by cmp l = Ok l' /\ StronglySorted (not_after f) l'
}.

(** * Insertion sort *)

Section Insertion.
Context {A : Type} (cmp : A -> A -> res comparison).

Fixpoint insert_by (a : A) (l : list A) : res (list A) :=
  match l with
  | [] => Ok [a]
  | b :: l => o ← cmp b a;
              match o with Lt => l' ← insert_by a l; Ok (b :: l') | _ => Ok (a :: b :: l) end
  end.
Fixpoint insertion_sort (l : list A) : res (list A) :=
  match l with [] => Ok [] | a :: l => l' ← insertion_sort l; insert_by a l' end.

Lemma insert_by_perm a l l' : insert_by a l = Ok l' -> l' ≡ₚ a :: l.
Proof.
  revert l'. induction l as [|b l IH]; intros l'; cbn [insert_by]; [by intros [= <-]|].
  destruct (cmp b a) as [[]| |]; cbn [mbind res_bind]; try done; [by intros [= <-]| |by intros [= <-]].
  destruct (insert_by a l) as [k| |]; [|done|done]. cbn [mbind res_bind]. intros [= <-]. rewrite (IH k) by done.
  apply Permutation_swap.
Qed.
Lemma insertion_sort_perm l l' : insertion_sort l = Ok l' -> l' ≡ₚ l.
Proof.
  revert l'. induction l as [|a l IH]; intros l'; cbn [insertion_sort]; [by intros [= <-]|].
  destruct (insertion_sort l) as [k| |]; [|done|done]. cbn [mbind res_bind]. intros E%insert_by_perm. rewrite E. by rewrite (IH k).
Qed.

Context (f : A -> A -> comparison) (s : list A).
Hypothesis cmp_f : forall a b, a ∈ s -> b ∈ s -> cmp a b = Ok (f a b).
Hypothesis ordered : ordered_by f s.

Lemma insert_by_sorted a l :
  a ∈ s -> Forall (fun x => x ∈ s) l -> StronglySorted (not_after f) l ->
  exists l', insert_by a l = Ok l' /\ StronglySorted (not_after f) l'.
Proof.
  intros Ha Hl Hs. induction Hs as [|b l Hs IH Hb]; cbn [insert_by]; [exists [a]; split; [done|by repeat constructor]|].
  apply Forall_cons in Hl as [HPb Hl]. rewrite cmp_f by done. cbn [mbind res_bind].
  destruct (decide (f b a = Lt)) as [Hlt|Hge].
  - rewrite Hlt. destruct (IH Hl) as (l' & E & Hs'). rewrite E. cbn [mbind res_bind]. exists (b :: l'). split; [done|].
    constructor; [done|]. apply Forall_forall. intros y Hy. rewrite (insert_by_perm _ _ _ E) in Hy.
    apply elem_of_cons in Hy as [->|Hy]; [by apply (ord_asym f s)|]. rewrite Forall_forall in Hb. by apply Hb.
  - exists (a :: b :: l). split; [by destruct (f b a)|]. constructor; [by constructor|]. constructor; [done|].
    rewrite Forall_forall in Hb, Hl |- *. intros x Hx Hxa. apply (Hb x Hx).
    destruct (ord_total f s ordered a b Ha HPb) as [->|[Hab|Hba]]; [done|by apply (ord_trans f s ordered x a b); auto|done].
Qed.
Lemma insertion_sort_sorted l :
  Forall (fun x => x ∈ s) l -> exists l', insertion_sort l = Ok l' /\ StronglySorted (not_after f) l'.
Proof.
  induction 1 as [|a l Ha Hl (k & E & Hs)]; [exists []; split; [done|constructor]|]. cbn [insertion_sort]. rewrite E. cbn [mbind res_bind].
  apply insert_by_sorted; [done| |done]. apply Forall_forall. intros x Hx. rewrite (insertion_sort_perm _ _ E) in Hx.
  rewrite Forall_forall in Hl. by apply Hl.
Qed.
End Insertion.

(** Short slices are sorted by insertion. *)
Definition insertion_sort_by (A : Type) : SortBy A.
Proof.
  refine {| sort_by cmp l := insertion_sort cmp l |}.
  - intros cmp l l'. apply insertion_sort_perm.
  - intros cmp f l Hc Ho. apply (insertion_sort_sorted cmp f l Hc Ho). by apply Forall_forall.
Defined.

(** * Lists that are sorted *)

(** A sorted list in which the elements with a property come last. *)
Lemma sorted_split {A} (R : A -> A -> Prop) (Q : A -> bool) l :
  StronglySorted R l -> (forall a b, R a b -> R b a -> False) ->
  (forall a b, a ∈ l -> b ∈ l -> Q a = true -> Q b = false -> R b a) ->
  l = List.filter (fun a => negb (Q a)) l ++ List.filter Q l.
Proof.
  intros Hs Has. induction Hs as [|a l Hs IH Ha]; intros HQ; [done|]. cbn [List.filter].
  destruct (Q a) eqn:Ea; cbn [negb].
  - assert (forall b, b ∈ l -> Q b = true) as Hall.
    { intros b Hb. destruct (Q b) eqn:Eb; [done|]. rewrite Forall_forall in Ha. exfalso. eapply (Has a b); [by apply Ha|].
      apply HQ; [by left|by right|done|done]. }
    assert (List.filter (fun b => negb (Q b)) l = [] /\ List.filter Q l = l) as [-> ->]; [|done]. clear -Hall.
    induction l as [|b l IH]; [done|]. cbn [List.filter]. rewrite (Hall b) by (by left). cbn [negb].
    destruct IH as [-> ->]; [intros c Hc; apply Hall; by right|done].
  - cbn [app]. f_equal. apply IH. intros x y Hx Hy. apply HQ; by right.
Qed.
Lemma sorted_filter {A} (R : A -> A -> Prop) (P : A -> bool) l : StronglySorted R l -> StronglySorted R (List.filter P l).
Proof.
  induction 1 as [|a l Hs IH Ha]; [constructor|]. cbn [List.filter]. destruct (P a); [|done]. constructor; [done|].
  rewrite Forall_forall in *. intros b Hb%list_elem_of_In. apply filter_In in Hb as [Hb _]. by apply Ha, list_elem_of_In.
Qed.
