(* ===== verification/Bytes.v ===== *)
(** Byte strings: big- and little-endian integers, lexicographic order of
    keys, Rust strings as byte sequences and the UTF-8 check of
    [String::from_utf8], slices that panic out of range, and the fill of a
    fixed-size zeroed buffer by consecutive [copy_from_slice] calls (the shape
    of every database key of the indexer). *)

From S2P Require Import Prelude.

(** * Integers as bytes *)

Definition byte_ok (b : Z) : Prop := 0 <= b < 256.

(** [to_be_bytes] of an [n]-byte integer. *)
Fixpoint be_bytes (n : nat) (z : Z) : list Z :=
  match n with
  | O => []
  | S n => (z / 256 ^ Z.of_nat n) mod 256 :: be_bytes n z
  end.

(** [to_le_bytes]. *)
Fixpoint le_bytes (n : nat) (z : Z) : list Z :=
  match n with
  | O => []
  | S n => z mod 256 :: le_bytes n (z / 256)
  end.

(** [from_be_bytes] and [from_le_bytes], for any number of bytes. *)
Definition of_be_bytes (l : list Z) : Z := fold_left (fun acc b => acc * 256 + b) l 0.
Fixpoint of_le_bytes (l : list Z) : Z :=
  match l with [] => 0 | b :: l => b + 256 * of_le_bytes l end.

Lemma pow256_pos n : 0 < 256 ^ Z.of_nat n.
Proof. apply Z.pow_pos_nonneg; lia. Qed.

Lemma pow256_S n : 256 ^ Z.of_nat (S n) = 256 * 256 ^ Z.of_nat n.
Proof. rewrite Nat2Z.inj_succ, Z.pow_succ_r; lia. Qed.

Lemma length_be_bytes n z : length (be_bytes n z) = n.
Proof. induction n; simpl; auto. Qed.

Lemma length_le_bytes n z : length (le_bytes n z) = n.
Proof. revert z; induction n; intros; simpl; auto. Qed.

Lemma be_bytes_ok n z : Forall byte_ok (be_bytes n z).
Proof.
  induction n; simpl; constructor; [|done].
  apply Z.mod_pos_bound; lia.
Qed.

Lemma le_bytes_ok n z : Forall byte_ok (le_bytes n z).
Proof.
  revert z; induction n; intros; simpl; constructor; [|done].
  apply Z.mod_pos_bound; lia.
Qed.

(** The leading byte and the rest of an integer of [n+1] bytes. *)
Lemma mod_pow256_S n z :
  z mod 256 ^ Z.of_nat (S n) =
    ((z / 256 ^ Z.of_nat n) mod 256) * 256 ^ Z.of_nat n + z mod 256 ^ Z.of_nat n.
Proof.
  rewrite pow256_S, (Z.mul_comm 256), Z.rem_mul_r by (pose proof (pow256_pos n); lia).
  lia.
Qed.

Lemma fold_be_bytes n z acc :
  fold_left (fun acc b => acc * 256 + b) (be_bytes n z) acc =
    acc * 256 ^ Z.of_nat n + z mod 256 ^ Z.of_nat n.
Proof.
  revert acc; induction n as [|n IH]; intros acc; cbn [be_bytes fold_left].
  - rewrite Z.mod_1_r; simpl; lia.
  - rewrite IH, mod_pow256_S, pow256_S; lia.
Qed.

Lemma of_be_bytes_be_bytes n z : of_be_bytes (be_bytes n z) = z mod 256 ^ Z.of_nat n.
Proof. unfold of_be_bytes; rewrite fold_be_bytes; lia. Qed.

Lemma of_le_bytes_le_bytes n z : of_le_bytes (le_bytes n z) = z mod 256 ^ Z.of_nat n.
Proof.
  revert z; induction n as [|n IH]; intros z; cbn [le_bytes of_le_bytes].
  - by rewrite Z.mod_1_r.
  - rewrite IH, pow256_S, Z.rem_mul_r by (pose proof (pow256_pos n); lia). done.
Qed.

Lemma be_bytes_inj n a b :
  0 <= a < 256 ^ Z.of_nat n -> 0 <= b < 256 ^ Z.of_nat n ->
  be_bytes n a = be_bytes n b -> a = b.
Proof.
  intros Ha Hb E. apply (f_equal of_be_bytes) in E.
  by rewrite !of_be_bytes_be_bytes, !Z.mod_small in E by done.
Qed.

(** * Lexicographic order, the order in which the database iterates keys *)

Fixpoint lex_compare (a b : list Z) : comparison :=
  match a, b with
  | [], [] => Eq
  | [], _ :: _ => Lt
  | _ :: _, [] => Gt
  | x :: a, y :: b => match x ?= y with Eq => lex_compare a b | c => c end
  end.

(** The first non-equal outcome decides. *)
Definition then_with (c1 c2 : comparison) : comparison :=
  match c1 with Eq => c2 | _ => c1 end.

Lemma lex_compare_refl a : lex_compare a a = Eq.
Proof. induction a; simpl; [done|]. by rewrite Z.compare_refl. Qed.

Lemma lex_compare_eq a b : lex_compare a b = Eq <-> a = b.
Proof.
  split; [|intros ->; apply lex_compare_refl].
  revert b; induction a as [|x a IH]; intros [|y b]; simpl; try done.
  destruct (x ?= y) eqn:E; try done.
  apply Z.compare_eq in E as ->. intros H%IH; congruence.
Qed.

Lemma lex_compare_antisym a b : lex_compare b a = CompOpp (lex_compare a b).
Proof.
  revert b; induction a as [|x a IH]; intros [|y b]; simpl; try done.
  rewrite Z.compare_antisym. destruct (x ?= y); simpl; auto.
Qed.

Lemma lex_compare_trans_lt a b c :
  lex_compare a b = Lt -> lex_compare b c = Lt -> lex_compare a c = Lt.
Proof.
  revert b c; induction a as [|x a IH]; intros [|y b] [|z c]; simpl; try done.
  destruct (Z.compare_spec x y), (Z.compare_spec y z); try done; subst; intros.
  - rewrite Z.compare_refl; eauto.
  - by destruct (Z.compare_spec y z); try lia.
  - by destruct (Z.compare_spec x z); try lia.
  - by destruct (Z.compare_spec x z); try lia.
Qed.

(** Equal-length prefixes are compared first. *)
Lemma lex_compare_app a b x y :
  length a = length b ->
  lex_compare (a ++ x) (b ++ y) = then_with (lex_compare a b) (lex_compare x y).
Proof.
  revert b; induction a as [|u a IH]; intros [|v b] H; simpl in *; try done.
  injection H as H. destruct (u ?= v); simpl; auto.
Qed.

(** Big-endian bytes are ordered as the integers they encode. *)
Lemma lex_compare_be_mod n a b :
  lex_compare (be_bytes n a) (be_bytes n b) =
    (a mod 256 ^ Z.of_nat n ?= b mod 256 ^ Z.of_nat n).
Proof.
  induction n as [|n IH]; cbn [be_bytes lex_compare].
  - by rewrite !Z.mod_1_r.
  - rewrite IH, (mod_pow256_S n a), (mod_pow256_S n b).
    pose proof (pow256_pos n) as Hp.
    pose proof (Z.mod_pos_bound a _ Hp); pose proof (Z.mod_pos_bound b _ Hp).
    set (p := 256 ^ Z.of_nat n) in *.
    set (ha := (a / p) mod 256); set (hb := (b / p) mod 256).
    destruct (Z.compare_spec ha hb) as [->|Hlt|Hgt].
    + by rewrite Z.add_compare_mono_l.
    + symmetry; apply Z.compare_lt_iff; nia.
    + symmetry; apply Z.compare_gt_iff; nia.
Qed.

Lemma lex_compare_be n a b :
  0 <= a < 256 ^ Z.of_nat n -> 0 <= b < 256 ^ Z.of_nat n ->
  lex_compare (be_bytes n a) (be_bytes n b) = (a ?= b).
Proof. intros. by rewrite lex_compare_be_mod, !Z.mod_small. Qed.

(** * Rust strings

    A [String] is a sequence of bytes that is valid UTF-8; [str::len],
    [str::starts_with] and the derived [Ord] work on the bytes. *)

Definition as_bytes (s : string) : list Z :=
  (fun c => Z.of_N (Ascii.N_of_ascii c)) <$> String.list_ascii_of_string s.

Definition string_of_bytes (l : list Z) : string :=
  String.string_of_list_ascii ((fun b => Ascii.ascii_of_N (Z.to_N b)) <$> l).

Definition str_len (s : string) : nat := length (as_bytes s).

Fixpoint list_prefix (p l : list Z) : bool :=
  match p, l with
  | [], _ => true
  | _ :: _, [] => false
  | x :: p, y :: l => (x =? y) && list_prefix p l
  end.

Definition starts_with (s p : string) : bool := list_prefix (as_bytes p) (as_bytes s).

Definition str_compare (s t : string) : comparison := lex_compare (as_bytes s) (as_bytes t).

Definition in_range (lo hi b : Z) : bool := (lo <=? b) && (b <=? hi).

(** Well-formed UTF-8 (Unicode, table 3-7), as [core::str::from_utf8] checks it. *)
Fixpoint utf8_valid (l : list Z) : bool :=
  match l with
  | [] => true
  | b0 :: l0 =>
    if in_range 0 127 b0 then utf8_valid l0 else
    match l0 with
    | [] => false
    | b1 :: l1 =>
      if in_range 194 223 b0 then in_range 128 191 b1 && utf8_valid l1 else
      match l1 with
      | [] => false
      | b2 :: l2 =>
        if (b0 =? 224) && in_range 160 191 b1 ||
           in_range 225 236 b0 && in_range 128 191 b1 ||
           (b0 =? 237) && in_range 128 159 b1 ||
           in_range 238 239 b0 && in_range 128 191 b1
        then in_range 128 191 b2 && utf8_valid l2 else
        match l2 with
        | [] => false
        | b3 :: l3 =>
          ((b0 =? 240) && in_range 144 191 b1 ||
           in_range 241 243 b0 && in_range 128 191 b1 ||
           (b0 =? 244) && in_range 128 143 b1) &&
          in_range 128 191 b2 && in_range 128 191 b3 && utf8_valid l3
        end
      end
    end
  end.

(** [String::from_utf8]. *)
Definition from_utf8 (l : list Z) : res string :=
  if utf8_valid l then Ok (string_of_bytes l) else Err.

(** The invariant of the type [String]. *)
Definition rust_string (s : string) : bool := utf8_valid (as_bytes s).

(** The first [n] characters ([chars().take(n)]): the width of a character is
    given by its leading byte. *)
Definition char_width (b : Z) : nat :=
  if b <? 128 then 1 else if b <? 224 then 2 else if b <? 240 then 3 else 4.

Fixpoint take_chars (n : nat) (l : list Z) : list Z :=
  match n, l with
  | S n, b :: _ => take (char_width b) l ++ take_chars n (drop (char_width b) l)
  | _, _ => []
  end.

Lemma string_of_bytes_as_bytes s : string_of_bytes (as_bytes s) = s.
Proof.
  unfold string_of_bytes, as_bytes. rewrite <- list_fmap_compose.
  rewrite (list_fmap_ext _ id).
  - rewrite list_fmap_id. apply String.string_of_list_ascii_of_string.
  - intros i c _; simpl. by rewrite N2Z.id, Ascii.ascii_N_embedding.
Qed.

Lemma as_bytes_string_of_bytes l : Forall byte_ok l -> as_bytes (string_of_bytes l) = l.
Proof.
  intros H. unfold string_of_bytes, as_bytes.
  rewrite String.list_ascii_of_string_of_list_ascii, <- list_fmap_compose.
  rewrite <- (list_fmap_id l) at 2. apply list_fmap_ext.
  intros i b Hb; simpl. eapply Forall_lookup_1 in H; [|done]. unfold byte_ok in H.
  rewrite Ascii.N_ascii_embedding by lia. simpl. lia.
Qed.

Lemma as_bytes_ok s : Forall byte_ok (as_bytes s).
Proof.
  unfold as_bytes; apply Forall_fmap, Forall_forall; intros c _; simpl.
  pose proof (Ascii.N_ascii_bounded c); unfold byte_ok; lia.
Qed.

Lemma as_bytes_inj s t : as_bytes s = as_bytes t -> s = t.
Proof.
  intros E. by rewrite <- (string_of_bytes_as_bytes s), E, string_of_bytes_as_bytes.
Qed.

Lemma from_utf8_as_bytes s : rust_string s = true -> from_utf8 (as_bytes s) = Ok s.
Proof.
  unfold rust_string, from_utf8. intros ->. by rewrite string_of_bytes_as_bytes.
Qed.

Lemma from_utf8_Ok l s : Forall byte_ok l -> from_utf8 l = Ok s -> as_bytes s = l.
Proof.
  unfold from_utf8; destruct (utf8_valid l); [|done].
  intros ? [= <-]. by apply as_bytes_string_of_bytes.
Qed.

Lemma from_utf8_not_panic l : from_utf8 l <> Panic.
Proof. unfold from_utf8; by destruct (utf8_valid l). Qed.

Lemma utf8_valid_ascii l :
  Forall (fun b => 0 <= b < 128) l -> utf8_valid l = true.
Proof.
  induction 1 as [|b l Hb _ IH]; cbn [utf8_valid]; [done|].
  replace (in_range 0 127 b) with true; [done|].
  unfold in_range; symmetry; apply andb_true_iff; split; apply Z.leb_le; lia.
Qed.

Lemma str_compare_eq s t : str_compare s t = Eq <-> s = t.
Proof.
  unfold str_compare; rewrite lex_compare_eq; split; [apply as_bytes_inj|by intros ->].
Qed.

(** * Slices *)

(** [&l[n..]] and [&l[..n]]: out of range panics. *)
Definition slice_from (n : nat) (l : list Z) : res (list Z) :=
  if decide (n <= length l)%nat then Ok (drop n l) else Panic.
Definition slice_to (n : nat) (l : list Z) : res (list Z) :=
  if decide (n <= length l)%nat then Ok (take n l) else Panic.

(** [buf[off..][..len].copy_from_slice(src)]: the slice must be in range and
    [src] must have exactly its length. *)
Definition copy_at (buf : list Z) (off len : nat) (src : list Z) : res (list Z) :=
  if decide (off + len <= length buf)%nat then
    if decide (length src = len) then Ok (take off buf ++ src ++ drop (off + len) buf)
    else Panic
  else Panic.

(** Consecutive fields copied one after the other into a buffer. *)
Fixpoint copy_fields (buf : list Z) (off : nat) (fields : list (nat * list Z)) : res (list Z) :=
  match fields with
  | [] => Ok buf
  | (len, src) :: fields =>
    buf' ← copy_at buf off len src; copy_fields buf' (off + len) fields
  end.

(** [let mut key = [0; L1 + .. + Ln]; key[..L1].copy_from_slice(..); ..] *)
Definition build_key (fields : list (nat * list Z)) : res (list Z) :=
  copy_fields (replicate (sum_list (fields.*1)) 0) 0 fields.

Definition fields_ok (fields : list (nat * list Z)) : Prop :=
  Forall (fun f => length f.2 = f.1) fields.

Lemma copy_fields_ok buf pre rest fields :
  fields_ok fields ->
  buf = pre ++ rest -> length rest = sum_list (fields.*1) ->
  copy_fields buf (length pre) fields = Ok (pre ++ concat (fields.*2)).
Proof.
  intros H; revert buf pre rest.
  induction H as [|[len src] fields Hlen Hf IH]; intros buf pre rest -> Hrest.
  - csimpl in *. destruct rest; [|done]. by rewrite app_nil_r.
  - csimpl in *. unfold copy_at.
    rewrite decide_True by (rewrite length_app; lia).
    rewrite decide_True by done. simpl.
    rewrite take_app_length, <- drop_drop, drop_app_length.
    rewrite <- Hlen, <- length_app, app_assoc.
    rewrite (IH _ (pre ++ src) (drop (length src) rest)); [by rewrite <- app_assoc|done|].
    rewrite length_drop; lia.
Qed.

(** A key whose fields have their declared lengths is their concatenation. *)
Lemma build_key_ok fields :
  fields_ok fields -> build_key fields = Ok (concat (fields.*2)).
Proof.
  intros H. unfold build_key.
  rewrite (copy_fields_ok _ [] (replicate (sum_list (fields.*1)) 0)); auto.
  by rewrite length_replicate.
Qed.

(** A field of another length panics, whatever the others are. *)
Lemma build_key_panic fields : ~ fields_ok fields -> build_key fields = Panic.
Proof.
  unfold build_key. generalize 0%nat as off.
  generalize (replicate (sum_list (fields.*1)) 0) as buf. intros buf off.
  revert buf off; induction fields as [|[len src] fields IH]; intros buf off H.
  - destruct H; constructor.
  - simpl. unfold copy_at. case_decide; [|done]. case_decide as Hl; [|done].
    simpl. apply IH. intros Hf; apply H. by constructor.
Qed.

Lemma lex_le_trans a b c :
  lex_compare a b <> Gt -> lex_compare b c <> Gt -> lex_compare a c <> Gt.
Proof.
  destruct (lex_compare a b) eqn:E1; [apply lex_compare_eq in E1; by subst| |done].
  destruct (lex_compare b c) eqn:E2; [apply lex_compare_eq in E2; subst; congruence| |done].
  by rewrite (lex_compare_trans_lt _ _ _ E1 E2).
Qed.
