(* ===== verification/Base.v ===== *)
(** Base types of the indexer (src/rust/src/base, ledger/hash.rs,
    ledger/token, command/signed/txn_hash.rs, constants.rs): amounts and
    nonces with their overflow behaviour, decimal (de)serialisation of the
    numeric newtypes, and the base58 identifiers with their validity checks and
    byte conversions. *)

From S2P Require Import Prelude Bytes.

(** * Constants *)

Definition MINA_SCALE : Z := 1000000000.
Definition MAINNET_ACCOUNT_CREATION_FEE : Z := 1000000000.
Definition MAINNET_COINBASE_REWARD : Z := 720000000000.
Definition MAINNET_GENESIS_TIMESTAMP : Z := 1615939200000.
Definition MAINNET_BLOCK_SLOT_TIME_MILLIS : Z := 180000.
Definition MAINNET_CANONICAL_THRESHOLD : Z := 10.
Definition MAINNET_EPOCH_SLOT_COUNT : Z := 7140.
Definition MINA_TOKEN_ID : Z := 1.
Definition MINA_TOKEN_ADDRESS : string := "wSHV2S4qX9jFsLjQo8r1BsMLH2ZRKsZx6EJd1sbozGPieEC4Jf".
Definition MAINNET_GENESIS_HASH : string :=
  "3NKeMoncuHab5ScarV5ViyF16cJPT4taWNSaTLS64Dp67wuXigPZ".
Definition HARDFORK_GENESIS_HASH : string :=
  "3NK4BpDSekaqsG6tx8Nse2zJchRft2JpnbvMiog55WCr5xJZaKeP".

(** [millis as u64 - MAINNET_GENESIS_TIMESTAMP] wraps before genesis; the
    quotient is truncated to [u32]. *)
Definition millis_to_global_slot (millis : Z) : Z :=
  let millis_since_genesis := wrap64 (wrap64 millis - MAINNET_GENESIS_TIMESTAMP) in
  wrap32 (millis_since_genesis / MAINNET_BLOCK_SLOT_TIME_MILLIS).

(** * [Amount(u64)] *)

Notation Amount := Z (only parsing).

Definition amount_new (amount : Z) : Amount := wrap64 (amount * MINA_SCALE).
Definition amount_add (a b : Amount) : Amount := wrap64 (a + b).
Definition amount_add_u64 (a : Amount) (rhs : Z) : Amount := wrap64 (a + rhs).
Definition amount_add_i64 (a : Amount) (rhs : Z) : Amount := wrap64 (a + wrap64 rhs).
Definition amount_sub (a b : Amount) : Amount := saturating_sub a b.
Definition amount_sub_u64 (a : Amount) (rhs : Z) : Amount := amount_sub a rhs.
Definition amount_add_assign (a b : Amount) : Amount := wrap64 (a + b).

(** * [Nonce(u32)] *)

Notation Nonce := Z (only parsing).

Definition nonce_add_u32 (n : Nonce) (other : Z) : Nonce := saturating_add32 n other.
Definition nonce_sub_u32 (n : Nonce) (other : Z) : Nonce := saturating_sub n other.
Definition nonce_add_i32 (n : Nonce) (other : Z) : Nonce :=
  let abs := Z.abs other in
  if other >? 0 then saturating_add32 n abs else saturating_sub n abs.

(** * Decimal text of unsigned integers

    [Display] prints without leading zeros, [str::parse] accepts an optional
    [+] and rejects the empty string, a lone sign, a non-digit and a value
    above the type's maximum. *)

Fixpoint digits (fuel : nat) (z : Z) (acc : list Z) : list Z :=
  match fuel with
  | O => acc
  | S fuel =>
    let acc' := (48 + z mod 10) :: acc in
    if z / 10 =? 0 then acc' else digits fuel (z / 10) acc'
  end.

(** Twenty digits are enough for a [u64]. *)
Definition print_uint (z : Z) : string := string_of_bytes (digits 20 z []).

Definition push_digit (max acc b : Z) : res Z :=
  if in_range 48 57 b then
    let v := acc * 10 + (b - 48) in if v <=? max then Ok v else Err
  else Err.

Definition parse_uint (max : Z) (s : string) : res Z :=
  match as_bytes s with
  | [] => Err
  | [b] => if (b =? 43) || (b =? 45) then Err else foldM (push_digit max) 0 [b]
  | b :: l => if b =? 43 then foldM (push_digit max) 0 l
              else foldM (push_digit max) 0 (b :: l)
  end.

(** [FromStr] of the newtypes over [u32] and [u64]; [Numeric<T>] unwraps. *)
Definition nonce_from_str (s : string) : res Nonce := parse_uint U32_MAX s.
Definition blockchain_length_from_str (s : string) : res Z := parse_uint U32_MAX s.
Definition scheduled_time_from_str (s : string) : res Z := parse_uint U64_MAX s.
Definition token_id_from_str (s : string) : res Z := parse_uint U64_MAX s.
Definition numeric_from_str (max : Z) (s : string) : res Z := expect (parse_uint max s).

(** * Identifiers *)

Record PublicKey := mkPk { pk_str : string }.
Record StateHash := mkSh { sh_str : string }.
Record LedgerHash := mkLh { lh_str : string }.
Record TokenAddress := mkToken { token_str : string }.
Record TokenSymbol := mkSymbol { symbol_str : string }.

Global Instance PublicKey_eq_dec : EqDecision PublicKey.
Proof. solve_decision. Defined.
Global Instance StateHash_eq_dec : EqDecision StateHash.
Proof. solve_decision. Defined.
Global Instance LedgerHash_eq_dec : EqDecision LedgerHash.
Proof. solve_decision. Defined.
Global Instance TokenAddress_eq_dec : EqDecision TokenAddress.
Proof. solve_decision. Defined.
Global Instance TokenSymbol_eq_dec : EqDecision TokenSymbol.
Proof. solve_decision. Defined.
Global Instance PublicKey_countable : Countable PublicKey.
Proof. refine (inj_countable' pk_str mkPk _). by intros []. Defined.
Global Instance StateHash_countable : Countable StateHash.
Proof. refine (inj_countable' sh_str mkSh _). by intros []. Defined.
Global Instance TokenAddress_countable : Countable TokenAddress.
Proof. refine (inj_countable' token_str mkToken _). by intros []. Defined.

Definition PublicKey_LEN : nat := 55.
Definition PublicKey_PREFIX : string := "B62q".
Definition StateHash_LEN : nat := 52.
Definition StateHash_PREFIX : string := "3N".
Definition LedgerHash_LEN : nat := 51.
Definition LedgerHash_PREFIX : list string := ["jx"; "jw"; "jy"; "jz"].
Definition TokenAddress_LEN : nat := 50.

Definition pk_compare (a b : PublicKey) : comparison := str_compare (pk_str a) (pk_str b).
Definition token_compare (a b : TokenAddress) : comparison :=
  str_compare (token_str a) (token_str b).

(** [PublicKey] *)

Definition pk_is_valid (pk : string) : bool :=
  starts_with pk PublicKey_PREFIX && bool_decide (str_len pk = PublicKey_LEN).

Definition pk_to_bytes (pk : PublicKey) : res (list Z) :=
  build_key [(PublicKey_LEN, as_bytes (pk_str pk))].

Definition pk_from_bytes (bytes : list Z) : res PublicKey :=
  s ← from_utf8 bytes;
  if pk_is_valid s then Ok (mkPk s) else Err.

Definition pk_from_str (s : string) : res PublicKey :=
  if pk_is_valid s then Ok (mkPk s) else Err.

Definition pk_upper_bound : PublicKey :=
  mkPk "B62qZZZZZZZZZZZZZZZZZZZZZZZZZZZZZZZZZZZZZZZZZZZZZZZZZZZ".
Definition pk_lower_bound : PublicKey :=
  mkPk "B62q000000000000000000000000000000000000000000000000000".
Definition pk_default : PublicKey :=
  mkPk "B62qDEFAULTDEFAULTDEFAULTDEFAULTDEFAULTDEFAULTDEFAULTPK".

(** [StateHash] *)

Definition sh_is_valid (s : string) : bool :=
  starts_with s StateHash_PREFIX && bool_decide (str_len s = StateHash_LEN).

Definition sh_to_bytes (h : StateHash) : res (list Z) :=
  build_key [(StateHash_LEN, as_bytes (sh_str h))].

Definition sh_from_bytes (bytes : list Z) : res StateHash :=
  s ← from_utf8 bytes;
  if sh_is_valid s then Ok (mkSh s) else Err.

Definition sh_from_bytes_or_panic (bytes : list Z) : res StateHash :=
  expect (sh_from_bytes bytes).

Definition sh_from_str (s : string) : res StateHash :=
  if sh_is_valid s then Ok (mkSh s) else Err.

Definition sh_default : StateHash :=
  mkSh "3NLDEFAULTDEFAULTDEFAULTDEFAULTDEFAULTDEFAULTDEFAULT".

(** [LedgerHash]: one of four two-character prefixes. *)

Definition lh_is_valid (s : string) : bool :=
  let prefix := string_of_bytes (take_chars 2 (as_bytes s)) in
  bool_decide (str_len s = LedgerHash_LEN) && bool_decide (prefix ∈ LedgerHash_PREFIX).

Definition lh_new (s : string) : res LedgerHash :=
  if lh_is_valid s then Ok (mkLh s) else Err.

Definition lh_from_bytes (bytes : list Z) : res LedgerHash :=
  s ← from_utf8 bytes; lh_new s.

Definition lh_from_str (s : string) : res LedgerHash :=
  if lh_is_valid s then Ok (mkLh s) else Err.

Definition lh_default : LedgerHash :=
  mkLh "jxDEFAULTDEFAULTDEFAULTDEFAULTDEFAULTDEFAULTDEFAULT".

(** [TokenAddress]: only the length is checked by [new]. *)

Definition token_new (token : string) : option TokenAddress :=
  if bool_decide (str_len token = TokenAddress_LEN) then Some (mkToken token) else None.

Definition token_from_bytes (bytes : list Z) : res TokenAddress := mkToken <$> from_utf8 bytes.

Definition token_from_str (s : string) : res TokenAddress :=
  match token_new s with Some t => Ok t | None => Err end.

Definition token_upper_bound : list Z := replicate TokenAddress_LEN 255.

Definition token_default : TokenAddress := mkToken MINA_TOKEN_ADDRESS.

Definition symbol_default : TokenSymbol := mkSymbol "MINA".

(** * [TxnHash] *)

Inductive TxnHash :=
| TxnHashV1 (s : string)
| TxnHashV2 (s : string).

Global Instance TxnHash_eq_dec : EqDecision TxnHash.
Proof. solve_decision. Defined.

Definition TxnHash_V1_LEN : nat := 53.
Definition TxnHash_V1_PREFIX : string := "Ckp".
Definition TxnHash_V2_LEN : nat := 52.
Definition TxnHash_V2_PREFIX : string := "5J".

Definition txn_ref_inner (t : TxnHash) : string :=
  match t with TxnHashV1 s | TxnHashV2 s => s end.

Definition txn_is_valid_v1 (s : string) : bool :=
  starts_with s TxnHash_V1_PREFIX && bool_decide (str_len s = TxnHash_V1_LEN).

Definition txn_is_valid_v2 (s : string) : bool :=
  starts_with s TxnHash_V2_PREFIX && bool_decide (str_len s = TxnHash_V2_LEN).

Definition txn_new (s : string) : res TxnHash :=
  if txn_is_valid_v1 s then Ok (TxnHashV1 s)
  else if txn_is_valid_v2 s then Ok (TxnHashV2 s)
  else Err.

Definition txn_is_valid (t : TxnHash) : bool :=
  match t with TxnHashV1 s => txn_is_valid_v1 s | TxnHashV2 s => txn_is_valid_v2 s end.

(** [Vec::remove] panics out of range. *)
Definition vec_remove (i : nat) (l : list Z) : res (list Z) :=
  if decide (i < length l)%nat then Ok (take i l ++ drop (S i) l) else Panic.

Definition txn_from_bytes (bytes : list Z) : res TxnHash :=
  if list_prefix (as_bytes TxnHash_V2_PREFIX) bytes then
    bytes ← vec_remove TxnHash_V2_LEN bytes;
    s ← from_utf8 bytes; txn_new s
  else s ← from_utf8 bytes; txn_new s.

Definition txn_right_pad_v2 (t : TxnHash) : res (list Z) :=
  match t with
  | TxnHashV1 s => build_key [(TxnHash_V1_LEN, as_bytes s)]
  | TxnHashV2 s => build_key [(TxnHash_V2_LEN, as_bytes s); (1%nat, [0])]
  end.

(** * [TokenId] and its base58check address

    [bs58] is a third-party crate: its encoder and decoder with checksum are
    parameters. *)

Section TokenId.
Context (bs58_encode_check : Z -> list Z -> string)
        (bs58_decode_check : Z -> string -> option (list Z)).

Definition TOKEN_ID_KEY : Z := 28.

Definition token_of_id (id : Z) : TokenAddress :=
  let big_int := le_bytes 8 id ++ replicate 24 0 in
  mkToken (bs58_encode_check TOKEN_ID_KEY big_int).

(** The decoded bytes start with the version byte, which is dropped. *)
Definition id_of_token (t : TokenAddress) : res Z :=
  big_int ← expect_some (bs58_decode_check TOKEN_ID_KEY (token_str t));
  le ← slice_to 9 big_int;
  le ← slice_from 1 le;
  Ok (of_le_bytes le).

(** Documented behaviour of the crate: a checked payload decodes to the
    version byte followed by the payload. *)
Hypothesis decode_encode : forall v payload,
  bs58_decode_check v (bs58_encode_check v payload) = Some (v :: payload).

Lemma id_of_token_of_id id : u64 id -> id_of_token (token_of_id id) = Ok id.
Proof.
  intros Hid. unfold id_of_token, token_of_id; cbn [token_str].
  rewrite decode_encode. cbn [expect_some mbind res_bind].
  unfold slice_to, slice_from.
  assert (Hlen : length (TOKEN_ID_KEY :: le_bytes 8 id ++ replicate 24 0) = 33%nat).
  { cbn [length]. by rewrite length_app, length_le_bytes. }
  rewrite decide_True by lia. cbn [mbind res_bind].
  rewrite decide_True by (rewrite length_take; lia).
  cbn [mbind res_bind].
  change (drop 1 (take 9 (TOKEN_ID_KEY :: le_bytes 8 id ++ replicate 24 0)))
    with (take 8 (le_bytes 8 id ++ replicate 24 0)).
  rewrite take_app_length' by (by rewrite length_le_bytes).
  rewrite of_le_bytes_le_bytes, Z.mod_small; [done|]. simpl. ints.
Qed.
End TokenId.

(** * Amounts and nonces *)

Lemma amount_add_range a b : u64 (amount_add a b).
Proof. apply wrap64_range. Qed.

Lemma amount_sub_range a b : u64 a -> 0 <= b -> u64 (amount_sub a b).
Proof. unfold amount_sub; ints. Qed.

Lemma amount_add_exact a b : u64 a -> u64 b -> a + b <= U64_MAX -> amount_add a b = a + b.
Proof. intros; apply wrap64_id; ints. Qed.

Lemma amount_sub_exact a b : b <= a -> amount_sub a b = a - b.
Proof. unfold amount_sub; ints. Qed.

Lemma amount_add_sub a b :
  u64 a -> u64 b -> a + b <= U64_MAX -> amount_sub (amount_add a b) b = a.
Proof. intros. rewrite amount_add_exact, amount_sub_exact by ints. lia. Qed.

Lemma amount_sub_add a b :
  u64 a -> u64 b -> b <= a -> amount_add (amount_sub a b) b = a.
Proof. intros. rewrite amount_sub_exact, amount_add_exact by ints. lia. Qed.

Lemma nonce_add_range n k : u32 n -> u32 k -> u32 (nonce_add_u32 n k).
Proof. unfold nonce_add_u32; ints. Qed.

Lemma nonce_sub_range n k : u32 n -> 0 <= k -> u32 (nonce_sub_u32 n k).
Proof. unfold nonce_sub_u32; ints. Qed.

Lemma nonce_add_sub n : 0 <= n < U32_MAX -> nonce_sub_u32 (nonce_add_u32 n 1) 1 = n.
Proof. unfold nonce_sub_u32, nonce_add_u32; ints. Qed.

#[export] Hint Resolve amount_add_range amount_sub_range nonce_add_range nonce_sub_range
  : indexer.

(** * Decimal round trip *)

Lemma push_digit_digit max acc d :
  0 <= d < 10 -> acc * 10 + d <= max -> push_digit max acc (48 + d) = Ok (acc * 10 + d).
Proof.
  intros Hd Hm. unfold push_digit, in_range.
  replace (48 <=? 48 + d) with true by (symmetry; apply Z.leb_le; lia).
  replace (48 + d <=? 57) with true by (symmetry; apply Z.leb_le; lia).
  simpl. replace (48 + d - 48) with d by lia.
  by replace (acc * 10 + d <=? max) with true by (symmetry; apply Z.leb_le; lia).
Qed.

(** Reading the digits of [z] after [acc] continues from [z]. *)
Lemma foldM_digits max fuel z acc :
  0 <= z < 10 ^ Z.of_nat fuel -> (0 < fuel)%nat -> z <= max ->
  foldM (push_digit max) 0 (digits fuel z acc) = foldM (push_digit max) z acc.
Proof.
  revert z acc; induction fuel as [|fuel IH]; intros z acc Hz Hf Hm; [lia|].
  cbn [digits].
  assert (Hd : 0 <= z mod 10 < 10) by (apply Z.mod_pos_bound; lia).
  assert (Hq : z = z / 10 * 10 + z mod 10) by (pose proof (Z.div_mod z 10); lia).
  assert (Hq0 : 0 <= z / 10) by (apply Z.div_pos; lia).
  destruct (Z.eqb_spec (z / 10) 0) as [E|E].
  - cbn [foldM]. rewrite push_digit_digit by lia. cbn. f_equal; lia.
  - rewrite Nat2Z.inj_succ, Z.pow_succ_r in Hz by lia.
    rewrite IH; [|split; [lia|apply Z.div_lt_upper_bound; lia]|destruct fuel; simpl in *; lia|lia].
    cbn [foldM]. rewrite push_digit_digit by lia. cbn. f_equal; lia.
Qed.

Lemma digits_cons fuel z acc :
  0 <= z -> (0 < fuel)%nat ->
  exists d l, digits fuel z acc = d :: l /\ 48 <= d <= 57.
Proof.
  revert z acc; induction fuel as [|fuel IH]; intros z acc Hz Hf; [lia|].
  cbn [digits]. assert (Hd : 0 <= z mod 10 < 10) by (apply Z.mod_pos_bound; lia).
  destruct (z / 10 =? 0); [eexists _, _; split; [done|lia]|].
  destruct fuel; [eexists _, _; split; [done|lia]|].
  apply IH; [apply Z.div_pos; lia|lia].
Qed.

Lemma digits_ok fuel z acc :
  Forall byte_ok acc -> 0 <= z -> Forall byte_ok (digits fuel z acc).
Proof.
  revert z acc; induction fuel as [|fuel IH]; intros z acc Ha Hz; cbn [digits]; [done|].
  assert (Hd : 0 <= z mod 10 < 10) by (apply Z.mod_pos_bound; lia).
  assert (Forall byte_ok ((48 + z mod 10) :: acc)) by (constructor; [unfold byte_ok; lia|done]).
  destruct (z / 10 =? 0); [done|]. apply IH; [done|apply Z.div_pos; lia].
Qed.

Lemma parse_uint_digit max d l s :
  as_bytes s = d :: l -> 48 <= d <= 57 ->
  parse_uint max s = foldM (push_digit max) 0 (d :: l).
Proof.
  intros E Hd. unfold parse_uint. rewrite E.
  destruct (Z.eqb_spec d 43), (Z.eqb_spec d 45); try lia. by destruct l.
Qed.

(** Printing then parsing a machine integer gives it back. *)
Lemma parse_print_uint max z :
  0 <= z <= max -> max <= U64_MAX -> parse_uint max (print_uint z) = Ok z.
Proof.
  intros Hz Hmax.
  destruct (digits_cons 20 z [] ltac:(lia) ltac:(lia)) as (d & l & E & Hd).
  assert (Hb : as_bytes (print_uint z) = digits 20 z []).
  { apply as_bytes_string_of_bytes, digits_ok; [constructor|lia]. }
  rewrite (parse_uint_digit _ d l) by (try rewrite Hb; done).
  rewrite <- E, foldM_digits; [done|split; [lia|]|lia|lia].
  simpl. ints.
Qed.

(** What [str::parse] accepts never exceeds the maximum of the type. *)
Lemma foldM_push_digit_bound max l z z' :
  0 <= z <= max -> foldM (push_digit max) z l = Ok z' -> 0 <= z' <= max.
Proof.
  intros Hz. apply (foldM_inv (fun z => 0 <= z <= max)); [|done].
  intros a b a' _ Ha. unfold push_digit, in_range.
  destruct (Z.leb_spec 48 b), (Z.leb_spec b 57); simpl; try done.
  destruct (Z.leb_spec (a * 10 + (b - 48)) max); [|done]. intros [= <-]; lia.
Qed.

Lemma parse_uint_bound max s z : 0 <= max -> parse_uint max s = Ok z -> 0 <= z <= max.
Proof.
  intros Hm. unfold parse_uint.
  destruct (as_bytes s) as [|b [|b' l]]; [done| |].
  - destruct (_ || _); [done|]. apply foldM_push_digit_bound; lia.
  - destruct (b =? 43); apply foldM_push_digit_bound; lia.
Qed.

(** * Identifiers and bytes *)

Lemma str_len_bytes s : str_len s = length (as_bytes s).
Proof. done. Qed.

Lemma pk_is_valid_len s : pk_is_valid s = true -> length (as_bytes s) = PublicKey_LEN.
Proof. intros [_ H%bool_decide_eq_true]%andb_true_iff; done. Qed.

Lemma sh_is_valid_len s : sh_is_valid s = true -> length (as_bytes s) = StateHash_LEN.
Proof. intros [_ H%bool_decide_eq_true]%andb_true_iff; done. Qed.

Lemma lh_is_valid_len s : lh_is_valid s = true -> length (as_bytes s) = LedgerHash_LEN.
Proof. intros [H%bool_decide_eq_true _]%andb_true_iff; done. Qed.

#[export] Hint Resolve pk_is_valid_len sh_is_valid_len lh_is_valid_len : indexer.

(** A key of a single field. *)
Lemma build_key_single n l : length l = n -> build_key [(n, l)] = Ok l.
Proof.
  intros H. rewrite build_key_ok by (repeat constructor; done). simpl. by rewrite app_nil_r.
Qed.

(** A public key, state hash or ledger hash that its own check accepts and that
    is a Rust string: what every function below relies on. *)
Definition pk_wf (pk : PublicKey) : Prop :=
  pk_is_valid (pk_str pk) = true /\ rust_string (pk_str pk) = true.
Definition sh_wf (h : StateHash) : Prop :=
  sh_is_valid (sh_str h) = true /\ rust_string (sh_str h) = true.
Definition lh_wf (h : LedgerHash) : Prop :=
  lh_is_valid (lh_str h) = true /\ rust_string (lh_str h) = true.
Definition token_wf (t : TokenAddress) : Prop :=
  str_len (token_str t) = TokenAddress_LEN /\ rust_string (token_str t) = true.
Definition txn_wf (t : TxnHash) : Prop :=
  txn_is_valid t = true /\ rust_string (txn_ref_inner t) = true.

Lemma pk_wf_len pk : pk_wf pk -> length (as_bytes (pk_str pk)) = PublicKey_LEN.
Proof. intros [? _]; auto with indexer. Qed.
Lemma sh_wf_len h : sh_wf h -> length (as_bytes (sh_str h)) = StateHash_LEN.
Proof. intros [? _]; auto with indexer. Qed.
Lemma lh_wf_len h : lh_wf h -> length (as_bytes (lh_str h)) = LedgerHash_LEN.
Proof. intros [? _]; auto with indexer. Qed.
Lemma token_wf_len t : token_wf t -> length (as_bytes (token_str t)) = TokenAddress_LEN.
Proof. by intros [? _]. Qed.

#[export] Hint Resolve pk_wf_len sh_wf_len lh_wf_len token_wf_len : indexer.

Lemma pk_from_bytes_as_bytes pk : pk_wf pk -> pk_from_bytes (as_bytes (pk_str pk)) = Ok pk.
Proof.
  intros [Hv Hs]. unfold pk_from_bytes. rewrite from_utf8_as_bytes by done.
  simpl. rewrite Hv. by destruct pk.
Qed.

Lemma sh_from_bytes_as_bytes h : sh_wf h -> sh_from_bytes (as_bytes (sh_str h)) = Ok h.
Proof.
  intros [Hv Hs]. unfold sh_from_bytes. rewrite from_utf8_as_bytes by done.
  simpl. rewrite Hv. by destruct h.
Qed.

Lemma lh_from_bytes_as_bytes h : lh_wf h -> lh_from_bytes (as_bytes (lh_str h)) = Ok h.
Proof.
  intros [Hv Hs]. unfold lh_from_bytes, lh_new. rewrite from_utf8_as_bytes by done.
  simpl. rewrite Hv. by destruct h.
Qed.

Lemma token_from_bytes_as_bytes t :
  token_wf t -> token_from_bytes (as_bytes (token_str t)) = Ok t.
Proof.
  intros [Hv Hs]. unfold token_from_bytes. rewrite from_utf8_as_bytes by done. by destruct t.
Qed.

Lemma pk_to_bytes_wf pk : pk_wf pk -> pk_to_bytes pk = Ok (as_bytes (pk_str pk)).
Proof. intros. apply build_key_single; auto with indexer. Qed.

Lemma sh_to_bytes_wf h : sh_wf h -> sh_to_bytes h = Ok (as_bytes (sh_str h)).
Proof. intros. apply build_key_single; auto with indexer. Qed.

(** Bytes accepted by [from_bytes] are those of a well-formed key, and are given
    back by [to_bytes]. *)
Lemma pk_from_bytes_wf bytes pk :
  Forall byte_ok bytes -> pk_from_bytes bytes = Ok pk ->
  pk_wf pk /\ as_bytes (pk_str pk) = bytes.
Proof.
  unfold pk_from_bytes. intros Hb. destruct (from_utf8 bytes) as [s| |] eqn:E; try done.
  cbn. destruct (pk_is_valid s) eqn:Hv; [|done]. intros [= <-]; simpl.
  pose proof (from_utf8_Ok _ _ Hb E) as <-. split; [split; [done|]|done].
  unfold from_utf8 in E. unfold rust_string; simpl. by destruct (utf8_valid (as_bytes s)).
Qed.

Lemma txn_new_valid t : txn_is_valid t = true -> txn_new (txn_ref_inner t) = Ok t.
Proof.
  destruct t as [s|s]; simpl; unfold txn_new; intros H.
  - by rewrite H.
  - destruct (txn_is_valid_v1 s) eqn:H1; [|by rewrite H].
    apply andb_true_iff in H as [_ H%bool_decide_eq_true].
    apply andb_true_iff in H1 as [_ H1%bool_decide_eq_true].
    rewrite H in H1. discriminate.
Qed.

Lemma list_prefix_length p l : list_prefix p l = true -> (length p <= length l)%nat.
Proof.
  revert l; induction p as [|x p IH]; intros [|y l]; simpl; try done; [lia|].
  intros [_ H%IH]%andb_true_iff; lia.
Qed.

Lemma list_prefix_take p l : list_prefix p l = true -> take (length p) l = p.
Proof.
  revert l; induction p as [|x p IH]; intros [|y l]; simpl; try done.
  intros [->%Z.eqb_eq ->%IH]%andb_true_iff; done.
Qed.

Lemma list_prefix_app p l l' : list_prefix p l = true -> list_prefix p (l ++ l') = true.
Proof.
  revert l; induction p as [|x p IH]; intros [|y l]; simpl; try done.
  intros [-> ->%IH]%andb_true_iff; done.
Qed.

(** A v1 hash does not start with the v2 prefix. *)
Lemma txn_v1_not_v2_prefix s :
  txn_is_valid_v1 s = true -> list_prefix (as_bytes TxnHash_V2_PREFIX) (as_bytes s) = false.
Proof.
  intros [Hp _]%andb_true_iff. unfold starts_with in Hp.
  destruct (list_prefix (as_bytes TxnHash_V2_PREFIX) (as_bytes s)) eqn:E; [|done].
  apply list_prefix_take in E, Hp.
  destruct (as_bytes s) as [|b l]; [done|]. injection Hp as ->. injection E as E _. discriminate.
Qed.

Lemma txn_right_pad_v2_wf t :
  txn_wf t ->
  txn_right_pad_v2 t = Ok (as_bytes (txn_ref_inner t) ++
                           match t with TxnHashV1 _ => [] | TxnHashV2 _ => [0] end).
Proof.
  intros [Hv _]; destruct t as [s|s]; simpl in *;
    apply andb_true_iff in Hv as [_ Hl%bool_decide_eq_true].
  - rewrite app_nil_r. by apply build_key_single.
  - by rewrite build_key_ok by (repeat constructor; done).
Qed.

Lemma txn_right_pad_length t bytes :
  txn_wf t -> txn_right_pad_v2 t = Ok bytes -> length bytes = TxnHash_V1_LEN.
Proof.
  intros Hw. rewrite txn_right_pad_v2_wf by done. intros [= <-].
  destruct Hw as [Hv _]; destruct t as [s|s]; simpl in Hv;
    apply andb_true_iff in Hv as [_ Hl%bool_decide_eq_true];
    rewrite length_app; cbn [txn_ref_inner length];
    rewrite <- str_len_bytes, Hl; reflexivity.
Qed.

(** Padding a hash to the v1 length and reading it back. *)
Lemma txn_from_bytes_pad t bytes :
  txn_wf t -> txn_right_pad_v2 t = Ok bytes -> txn_from_bytes bytes = Ok t.
Proof.
  intros Hw. rewrite txn_right_pad_v2_wf by done. intros [= <-].
  destruct Hw as [Hv Hs]. unfold txn_from_bytes. destruct t as [s|s]; cbn [txn_ref_inner] in *.
  - rewrite app_nil_r, txn_v1_not_v2_prefix, from_utf8_as_bytes by done.
    cbn. apply (txn_new_valid (TxnHashV1 s)); done.
  - pose proof Hv as [Hp Hl%bool_decide_eq_true]%andb_true_iff.
    rewrite list_prefix_app by done. unfold vec_remove.
    rewrite decide_True by (rewrite length_app, <- str_len_bytes, Hl; unfold TxnHash_V2_LEN; simpl; lia).
    cbn [mbind res_bind].
    rewrite take_app_length' by (by rewrite <- Hl).
    rewrite drop_ge by (rewrite length_app, <- str_len_bytes, Hl; unfold TxnHash_V2_LEN; simpl; lia).
    rewrite app_nil_r, from_utf8_as_bytes by done.
    cbn. apply (txn_new_valid (TxnHashV2 s)); done.
Qed.
