(* ===== verification/StoreKeys.v ===== *)
(** Database keys (src/rust/src/utility/store): every key is a fixed-size
    buffer filled by consecutive fields, integers in big endian, so that the
    lexicographic order of the store is the order of the fields; the
    [split_*] and [*_of_key] functions read the fields back. *)

From S2P Require Import Prelude Bytes Base.

Definition U32_LEN : nat := 4.
Definition U64_LEN : nat := 8.
Definition I64_LEN : nat := 8.

(** * Fields *)

Definition u32_be (z : Z) : list Z := be_bytes U32_LEN z.
Definition u64_be (z : Z) : list Z := be_bytes U64_LEN z.

Definition f_u32 (z : Z) : nat * list Z := (U32_LEN, u32_be z).
Definition f_u64 (z : Z) : nat * list Z := (U64_LEN, u64_be z).
Definition f_pk (pk : PublicKey) : nat * list Z := (PublicKey_LEN, as_bytes (pk_str pk)).
Definition f_sh (h : StateHash) : nat * list Z := (StateHash_LEN, as_bytes (sh_str h)).
Definition f_lh (h : LedgerHash) : nat * list Z := (LedgerHash_LEN, as_bytes (lh_str h)).
Definition f_token (t : TokenAddress) : nat * list Z :=
  (TokenAddress_LEN, as_bytes (token_str t)).

(** * common.rs *)

Definition u32_from_be_bytes (l : list Z) : res Z :=
  if bool_decide (length l <> U32_LEN) then Err else Ok (of_be_bytes l).

Definition u64_from_be_bytes (l : list Z) : res Z :=
  if bool_decide (length l <> U64_LEN) then Err else Ok (of_be_bytes l).

Definition i64_from_be_bytes (l : list Z) : res Z :=
  if bool_decide (length l <> I64_LEN) then Err else Ok (as_i64 (of_be_bytes l)).

Definition from_be_bytes (l : list Z) : res Z :=
  _ ← rust_assert (bool_decide (length l = U32_LEN)); Ok (of_be_bytes l).

Definition token_pk_key (token : TokenAddress) (pk : PublicKey) : res (list Z) :=
  build_key [f_token token; f_pk pk].

Definition token_pk_index_key (token : TokenAddress) (pk : PublicKey) (index : Z)
  : res (list Z) := build_key [f_token token; f_pk pk; f_u32 index].

Definition block_index_key (state_hash : StateHash) (index : Z) : res (list Z) :=
  build_key [f_sh state_hash; f_u32 index].

Definition pk_index_key (pk : PublicKey) (index : Z) : res (list Z) :=
  build_key [f_pk pk; f_u32 index].

(** [key.len() - StateHash::LEN] wraps below zero and the slice then panics. *)
Definition state_hash_suffix (key : list Z) : res StateHash :=
  if decide (StateHash_LEN <= length key)%nat then
    l ← slice_from (length key - StateHash_LEN) key; sh_from_bytes l
  else Panic.

Definition block_u32_prefix_from_key (key : list Z) : res Z :=
  l ← slice_to U32_LEN key; u32_from_be_bytes l.

Definition u32_prefix_key (prefix : Z) (pk : PublicKey) : res (list Z) :=
  build_key [f_u32 prefix; f_pk pk].

Definition u64_prefix_key (prefix : Z) (pk : PublicKey) : res (list Z) :=
  build_key [f_u64 prefix; f_pk pk].

Definition pk_key_prefix (key : list Z) : res PublicKey :=
  _ ← rust_assert (bool_decide (PublicKey_LEN <= length key)%nat);
  l ← slice_to PublicKey_LEN key; expect (pk_from_bytes l).

Definition balance_key_prefix (key : list Z) : res Z :=
  l ← slice_to U64_LEN key; expect (u64_from_be_bytes l).

Definition pk_txn_sort_key_sort (key : list Z) : res Z :=
  l ← slice_from PublicKey_LEN key; l ← slice_to U32_LEN l; expect (u32_from_be_bytes l).

(** * block.rs (the block is given by the fields the keys use) *)

Definition block_height_key (blockchain_length : Z) (state_hash : StateHash) : res (list Z) :=
  build_key [f_u32 blockchain_length; f_sh state_hash].

Definition block_global_slot_key (global_slot : Z) (state_hash : StateHash) : res (list Z) :=
  build_key [f_u32 global_slot; f_sh state_hash].

Definition pk_block_sort_key (pk : PublicKey) (sort_value : Z) (state_hash : StateHash)
  : res (list Z) := build_key [f_pk pk; f_u32 sort_value; f_sh state_hash].

Definition block_num_key (prefix num : Z) : res (list Z) := build_key [f_u32 prefix; f_u32 num].

Definition epoch_pk_key (epoch : Z) (pk : PublicKey) : res (list Z) :=
  build_key [f_u32 epoch; f_pk pk].

Definition epoch_pk_num_key (epoch : Z) (pk : PublicKey) (num : Z) : res (list Z) :=
  build_key [f_u32 epoch; f_pk pk; f_u32 num].

Definition epoch_block_num_key (epoch num : Z) (pk : PublicKey) : res (list Z) :=
  build_key [f_u32 epoch; f_u32 num; f_pk pk].

(** * snarks.rs *)

Definition snark_epoch_key (epoch : Z) (pk : PublicKey) : res (list Z) :=
  build_key [f_u32 epoch; f_pk pk].

Definition snark_fee_sort_key (fee u32_sort : Z) (pk : PublicKey) (state_hash : StateHash)
    (index : Z) : res (list Z) :=
  build_key [f_u64 fee; f_u32 u32_sort; f_pk pk; f_sh state_hash; f_u32 index].

Definition snark_prover_sort_key (prover : PublicKey) (u32_sort index : Z) : res (list Z) :=
  build_key [f_pk prover; f_u32 u32_sort; f_u32 index].

Definition snark_fee_epoch_sort_key (epoch fee : Z) (prover : PublicKey) : res (list Z) :=
  build_key [f_u32 epoch; f_u64 fee; f_pk prover].

(** * command/internal.rs *)

Definition internal_commmand_block_key (state_hash : StateHash) (index : Z) : res (list Z) :=
  build_key [f_sh state_hash; f_u32 index].

Definition internal_commmand_pk_key (pk : PublicKey) (index : Z) : res (list Z) :=
  build_key [f_pk pk; f_u32 index].

Definition internal_commmand_sort_key (prefix : Z) (state_hash : StateHash) (index : Z)
  : res (list Z) := build_key [f_u32 prefix; f_sh state_hash; f_u32 index].

Definition internal_commmand_pk_sort_key (pk : PublicKey) (sort : Z) (state_hash : StateHash)
    (index kind : Z) : res (list Z) :=
  build_key [f_pk pk; f_u32 sort; f_sh state_hash; f_u32 index; (1%nat, [kind])].

Definition internal_command_pk_key (pk : PublicKey) (index : Z) : res (list Z) :=
  build_key [f_pk pk; f_u32 index].

Definition internal_command_pk_sort_key_state_hash (key : list Z) : res StateHash :=
  l ← slice_from (PublicKey_LEN + U32_LEN) key; l ← slice_to StateHash_LEN l;
  expect (sh_from_bytes l).

Definition internal_command_pk_sort_key_index (key : list Z) : res Z :=
  l ← slice_from PublicKey_LEN key; l ← slice_from U32_LEN l; l ← slice_from StateHash_LEN l;
  l ← slice_to U32_LEN l; expect (u32_from_be_bytes l).

Definition internal_command_pk_sort_key_kind (key : list Z) : res Z :=
  expect_some (key !! (PublicKey_LEN + U32_LEN + StateHash_LEN + U32_LEN)%nat).

(** * command/user.rs *)

Definition txn_sort_key (prefix : Z) (txn_hash : TxnHash) (state_hash : StateHash)
  : res (list Z) :=
  t ← txn_right_pad_v2 txn_hash;
  build_key [f_u32 prefix; (TxnHash_V1_LEN, t); f_sh state_hash].

Definition pk_txn_sort_key (pk : PublicKey) (sort nonce : Z) (txn_hash : TxnHash)
    (state_hash : StateHash) : res (list Z) :=
  t ← txn_right_pad_v2 txn_hash;
  build_key [f_pk pk; f_u32 sort; f_u32 nonce; (TxnHash_V1_LEN, t); f_sh state_hash].

Definition pk_txn_sort_key_prefix (pk : PublicKey) (sort : Z) : res (list Z) :=
  build_key [f_pk pk; f_u32 sort].

Definition pk_txn_sort_key_nonce (key : list Z) : res Z :=
  l ← slice_from PublicKey_LEN key; l ← slice_from U32_LEN l; l ← slice_to U32_LEN l;
  expect (u32_from_be_bytes l).

Definition txn_hash_of_key (key : list Z) : res TxnHash :=
  l ← slice_from PublicKey_LEN key; l ← slice_from U32_LEN l; l ← slice_from U32_LEN l;
  l ← slice_to TxnHash_V1_LEN l; expect (txn_from_bytes l).

Definition pk_txn_sort_key_state_hash (key : list Z) : res StateHash :=
  expect (state_hash_suffix key).

Definition txn_block_key (txn_hash : TxnHash) (state_hash : StateHash) : res (list Z) :=
  t ← txn_right_pad_v2 txn_hash; build_key [(TxnHash_V1_LEN, t); f_sh state_hash].

Definition user_commands_iterator_u32_prefix (key : list Z) : res Z :=
  l ← slice_to U32_LEN key; expect (u32_from_be_bytes l).

Definition user_commands_iterator_txn_hash (key : list Z) : res TxnHash :=
  l ← slice_from U32_LEN key; l ← slice_to TxnHash_V1_LEN l; txn_from_bytes l.

Definition user_commands_iterator_state_hash (key : list Z) : res StateHash :=
  l ← slice_from U32_LEN key; l ← slice_from TxnHash_V1_LEN l; sh_from_bytes l.

(** * ledger/best.rs, ledger/staged.rs, ledger/staking.rs *)

Definition best_account_key (token : TokenAddress) (pk : PublicKey) : res (list Z) :=
  build_key [f_token token; f_pk pk].

Definition best_account_sort_key (token : TokenAddress) (balance : Z) (pk : PublicKey)
  : res (list Z) := build_key [f_token token; f_u64 balance; f_pk pk].

Definition split_best_account_sort_key (key : list Z)
  : res (option (TokenAddress * Z * PublicKey)) :=
  if bool_decide (length key = TokenAddress_LEN + U64_LEN + PublicKey_LEN)%nat then
    l ← slice_to TokenAddress_LEN key; token ← expect (token_from_bytes l);
    l ← slice_from TokenAddress_LEN key; balance ← balance_key_prefix l;
    l ← slice_from U64_LEN l; pk ← pk_key_prefix l;
    Ok (Some (token, balance, pk))
  else Ok None.

Definition staged_account_key (state_hash : StateHash) (token : TokenAddress) (pk : PublicKey)
  : res (list Z) := build_key [f_sh state_hash; f_token token; f_pk pk].

Definition staged_account_balance_sort_key (state_hash : StateHash) (token : TokenAddress)
    (balance : Z) (pk : PublicKey) : res (list Z) :=
  build_key [f_sh state_hash; f_token token; f_u64 balance; f_pk pk].

Definition split_staged_account_balance_sort_key (key : list Z)
  : res (option (StateHash * TokenAddress * Z * PublicKey)) :=
  if bool_decide (length key = StateHash_LEN + TokenAddress_LEN + U64_LEN + PublicKey_LEN)%nat
  then
    l ← slice_to StateHash_LEN key; state_hash ← expect (sh_from_bytes l);
    r ← slice_from StateHash_LEN key;
    l ← slice_to TokenAddress_LEN r; token ← expect (token_from_bytes l);
    r ← slice_from TokenAddress_LEN r; balance ← balance_key_prefix r;
    r ← slice_from U64_LEN r; pk ← pk_key_prefix r;
    Ok (Some (state_hash, token, balance, pk))
  else Ok None.

Definition split_staking_ledger_epoch_key (key : list Z) : res (StateHash * Z * LedgerHash) :=
  if bool_decide (length key = StateHash_LEN + U32_LEN + LedgerHash_LEN)%nat then
    l ← slice_to StateHash_LEN key; genesis_state_hash ← sh_from_bytes l;
    r ← slice_from StateHash_LEN key;
    l ← slice_to U32_LEN r; epoch ← u32_from_be_bytes l;
    r ← slice_from U32_LEN r; ledger_hash ← lh_from_bytes r;
    Ok (genesis_state_hash, epoch, ledger_hash)
  else Err.

Definition split_staking_ledger_sort_key (key : list Z) : res (Z * Z * PublicKey) :=
  if bool_decide (length key = U32_LEN + U64_LEN + PublicKey_LEN)%nat then
    l ← slice_to U32_LEN key; epoch ← u32_from_be_bytes l;
    r ← slice_from U32_LEN key; balance_or_stake ← balance_key_prefix r;
    r ← slice_from U64_LEN r; pk ← pk_key_prefix r;
    Ok (epoch, balance_or_stake, pk)
  else Err.

Definition staking_ledger_sort_key (epoch amount : Z) (pk : PublicKey) : res (list Z) :=
  build_key [f_u32 epoch; f_u64 amount; f_pk pk].

Definition staking_ledger_account_key (genesis_state_hash : StateHash) (epoch : Z)
    (ledger_hash : LedgerHash) (pk : PublicKey) : res (list Z) :=
  build_key [f_sh genesis_state_hash; f_u32 epoch; f_lh ledger_hash; f_pk pk].

Definition staking_ledger_epoch_key_prefix (genesis_state_hash : StateHash) (epoch : Z)
  : res (list Z) := build_key [f_sh genesis_state_hash; f_u32 epoch].

Definition staking_ledger_epoch_key (genesis_state_hash : StateHash) (epoch : Z)
    (ledger_hash : LedgerHash) : res (list Z) :=
  p ← staking_ledger_epoch_key_prefix genesis_state_hash epoch;
  build_key [((StateHash_LEN + U32_LEN)%nat, p); f_lh ledger_hash].

(** * zkapp/actions.rs and zkapp/events.rs *)

Definition zkapp_actions_key (token : TokenAddress) (pk : PublicKey) (index : Z)
  : res (list Z) := token_pk_index_key token pk index.
Definition zkapp_actions_pk_num_key (token : TokenAddress) (pk : PublicKey) : res (list Z) :=
  token_pk_key token pk.
Definition zkapp_events_key (token : TokenAddress) (pk : PublicKey) (index : Z)
  : res (list Z) := token_pk_index_key token pk index.
Definition zkapp_events_pk_num_key (token : TokenAddress) (pk : PublicKey) : res (list Z) :=
  token_pk_key token pk.

(** * Reading consecutive fields back *)

Lemma slice_to_app n a l : length a = n -> slice_to n (a ++ l) = Ok a.
Proof.
  intros <-. unfold slice_to. rewrite decide_True by (rewrite length_app; lia).
  by rewrite take_app_length.
Qed.

Lemma slice_to_all n a : length a = n -> slice_to n a = Ok a.
Proof. intros <-. unfold slice_to. rewrite decide_True by lia. by rewrite take_ge by lia. Qed.

Lemma slice_from_app n a l : length a = n -> slice_from n (a ++ l) = Ok l.
Proof.
  intros <-. unfold slice_from. rewrite decide_True by (rewrite length_app; lia).
  by rewrite drop_app_length.
Qed.

Lemma length_u32_be z : length (u32_be z) = U32_LEN.
Proof. apply length_be_bytes. Qed.
Lemma length_u64_be z : length (u64_be z) = U64_LEN.
Proof. apply length_be_bytes. Qed.

#[export] Hint Resolve length_u32_be length_u64_be : indexer.

Lemma u32_from_be_bytes_be z : u32 z -> u32_from_be_bytes (u32_be z) = Ok z.
Proof.
  intros. unfold u32_from_be_bytes. rewrite length_u32_be, bool_decide_eq_false_2 by auto.
  unfold u32_be, U32_LEN. rewrite of_be_bytes_be_bytes, Z.mod_small; [done|]. simpl; ints.
Qed.

Lemma u64_from_be_bytes_be z : u64 z -> u64_from_be_bytes (u64_be z) = Ok z.
Proof.
  intros. unfold u64_from_be_bytes. rewrite length_u64_be, bool_decide_eq_false_2 by auto.
  unfold u64_be, U64_LEN. rewrite of_be_bytes_be_bytes, Z.mod_small; [done|]. simpl; ints.
Qed.

(** [i64] values are stored by their two's complement bytes. *)
Lemma i64_from_be_bytes_be z :
  -9223372036854775808 <= z < 9223372036854775808 ->
  i64_from_be_bytes (be_bytes I64_LEN (wrap64 z)) = Ok z.
Proof.
  intros Hz. unfold i64_from_be_bytes. rewrite length_be_bytes, bool_decide_eq_false_2 by auto.
  rewrite of_be_bytes_be_bytes. unfold I64_LEN.
  pose proof (wrap64_range z) as Hw. rewrite Z.mod_small by (simpl; ints).
  unfold as_i64. rewrite (wrap64_id (wrap64 z)) by done. unfold wrap64.
  destruct (Z_lt_le_dec z 0).
  - rewrite <- (Z.mod_unique_pos z 18446744073709551616 (-1) (z + 18446744073709551616)) by lia.
    destruct (Z.ltb_spec (z + 18446744073709551616) 9223372036854775808); [lia|].
    f_equal; lia.
  - rewrite Z.mod_small by lia.
    by destruct (Z.ltb_spec z 9223372036854775808); [|lia].
Qed.

Lemma balance_key_prefix_be z l : u64 z -> balance_key_prefix (u64_be z ++ l) = Ok z.
Proof.
  intros. unfold balance_key_prefix. rewrite slice_to_app by apply length_u64_be. cbn [mbind res_bind].
  by rewrite u64_from_be_bytes_be.
Qed.

Lemma pk_key_prefix_app pk l : pk_wf pk -> pk_key_prefix (as_bytes (pk_str pk) ++ l) = Ok pk.
Proof.
  intros Hw. unfold pk_key_prefix. pose proof (pk_wf_len _ Hw) as Hl.
  rewrite bool_decide_eq_true_2 by (rewrite length_app; lia). cbn [rust_assert mbind res_bind].
  rewrite slice_to_app by done. cbn [mbind res_bind]. by rewrite pk_from_bytes_as_bytes.
Qed.

Lemma pk_key_prefix_all pk : pk_wf pk -> pk_key_prefix (as_bytes (pk_str pk)) = Ok pk.
Proof. intros. rewrite <- (app_nil_r (as_bytes _)). by apply pk_key_prefix_app. Qed.

Lemma state_hash_suffix_app l h :
  sh_wf h -> state_hash_suffix (l ++ as_bytes (sh_str h)) = Ok h.
Proof.
  intros Hw. unfold state_hash_suffix. pose proof (sh_wf_len _ Hw) as Hl.
  rewrite length_app, Hl. rewrite decide_True by lia.
  replace (length l + StateHash_LEN - StateHash_LEN)%nat with (length l) by lia.
  rewrite slice_from_app by done. cbn [mbind res_bind]. by apply sh_from_bytes_as_bytes.
Qed.

(** The shape of a built key, and the automation to read it. *)

Lemma fields_ok_nil : fields_ok [].
Proof. constructor. Qed.
Lemma fields_ok_cons n l fs : length l = n -> fields_ok fs -> fields_ok ((n, l) :: fs).
Proof. by constructor. Qed.
#[export] Hint Resolve fields_ok_nil fields_ok_cons : indexer.

(** Side conditions: lengths of fields. *)
Ltac keylen := eauto 12 with indexer.

(** Expose the concatenation behind a key built from well-formed fields. *)
Ltac unfold_key :=
  rewrite ?build_key_ok by (unfold f_u32, f_u64, f_pk, f_sh, f_lh, f_token; keylen);
  unfold f_u32, f_u64, f_pk, f_sh, f_lh, f_token; cbn [fmap list_fmap snd concat];
  rewrite ?app_nil_r.

(** Run a reader over a concatenation of fields. *)
Ltac read_key :=
  repeat first
    [ rewrite slice_to_app by keylen
    | rewrite slice_from_app by keylen
    | rewrite slice_to_all by keylen
    | rewrite u32_from_be_bytes_be by done
    | rewrite u64_from_be_bytes_be by done
    | rewrite balance_key_prefix_be by done
    | rewrite pk_key_prefix_app by done
    | rewrite pk_key_prefix_all by done
    | rewrite pk_from_bytes_as_bytes by done
    | rewrite sh_from_bytes_as_bytes by done
    | rewrite lh_from_bytes_as_bytes by done
    | rewrite token_from_bytes_as_bytes by done
    | progress cbn [mbind res_bind expect fmap res_fmap] ].

(** * Order of keys *)

Lemma lex_u32 a b x y :
  u32 a -> u32 b ->
  lex_compare (u32_be a ++ x) (u32_be b ++ y) = then_with (a ?= b) (lex_compare x y).
Proof.
  intros. rewrite lex_compare_app by (by rewrite !length_u32_be).
  unfold u32_be, U32_LEN. rewrite lex_compare_be; [done| |]; simpl; ints.
Qed.

Lemma lex_u64 a b x y :
  u64 a -> u64 b ->
  lex_compare (u64_be a ++ x) (u64_be b ++ y) = then_with (a ?= b) (lex_compare x y).
Proof.
  intros. rewrite lex_compare_app by (by rewrite !length_u64_be).
  unfold u64_be, U64_LEN. rewrite lex_compare_be; [done| |]; simpl; ints.
Qed.

Lemma lex_pk a b x y :
  pk_wf a -> pk_wf b ->
  lex_compare (as_bytes (pk_str a) ++ x) (as_bytes (pk_str b) ++ y) =
    then_with (pk_compare a b) (lex_compare x y).
Proof. intros. by rewrite lex_compare_app by (by rewrite !pk_wf_len). Qed.

Lemma lex_token a b x y :
  token_wf a -> token_wf b ->
  lex_compare (as_bytes (token_str a) ++ x) (as_bytes (token_str b) ++ y) =
    then_with (token_compare a b) (lex_compare x y).
Proof. intros. by rewrite lex_compare_app by (by rewrite !token_wf_len). Qed.

Lemma lex_pk_end a b :
  lex_compare (as_bytes (pk_str a)) (as_bytes (pk_str b)) = pk_compare a b.
Proof. done. Qed.

Ltac lex_key :=
  repeat first [ rewrite lex_u32 by done | rewrite lex_u64 by done
               | rewrite lex_pk by done | rewrite lex_token by done ].

(** * What the keys promise *)

(** a sender/receiver transaction key built from well-formed parts (v1 or
    v2 hash) exists, has the declared fixed length, starts with the range
    prefix used to scan a public key's transactions, and each of the five
    readers gives back exactly the part that was written. *)
Theorem pk_txn_sort_key_roundtrip pk sort nonce txn_hash state_hash :
  pk_wf pk -> u32 sort -> u32 nonce -> txn_wf txn_hash -> sh_wf state_hash ->
  exists key prefix rest,
    pk_txn_sort_key pk sort nonce txn_hash state_hash = Ok key /\
    length key = (PublicKey_LEN + U32_LEN + U32_LEN + TxnHash_V1_LEN + StateHash_LEN)%nat /\
    pk_txn_sort_key_prefix pk sort = Ok prefix /\ key = prefix ++ rest /\
    pk_key_prefix key = Ok pk /\
    pk_txn_sort_key_sort key = Ok sort /\
    pk_txn_sort_key_nonce key = Ok nonce /\
    txn_hash_of_key key = Ok txn_hash /\
    pk_txn_sort_key_state_hash key = Ok state_hash.
Proof.
  intros Hpk Hs Hn Ht Hh.
  pose proof (txn_right_pad_v2_wf _ Ht) as Epad. set (t := as_bytes _ ++ _) in Epad.
  pose proof (txn_right_pad_length _ _ Ht Epad) as Hlt.
  unfold pk_txn_sort_key, pk_txn_sort_key_prefix. rewrite Epad. cbn [mbind res_bind].
  unfold_key. rewrite (app_assoc (as_bytes (pk_str pk)) (u32_be sort)).
  eexists _, _, _. split_and!; [done| |done|done|..]; rewrite <- ?app_assoc.
  - rewrite !length_app, (pk_wf_len pk), (sh_wf_len state_hash), Hlt, !length_u32_be by done.
    reflexivity.
  - by read_key.
  - unfold pk_txn_sort_key_sort; by read_key.
  - unfold pk_txn_sort_key_nonce; by read_key.
  - unfold txn_hash_of_key; read_key. by rewrite (txn_from_bytes_pad _ _ Ht Epad).
  - unfold pk_txn_sort_key_state_hash.
    rewrite !app_assoc, state_hash_suffix_app by done. done.
Qed.

Definition pk_example : PublicKey :=
  mkPk "B62qrRvo5wngd5WA1dgXkQpCdQMRDndusmjfWXWT1LgsSFFdBS9RCsV".
Definition txn_v2_example : TxnHash :=
  TxnHashV2 "5JBOGUSBOGUSBOGUSBOGUSBOGUSBOGUSBOGUSBOGUSBOGUSBOGUS".

Lemma pk_txn_sort_key_roundtrip_witness :
  exists key prefix rest,
    pk_txn_sort_key pk_example 500 7 txn_v2_example sh_default = Ok key /\
    length key = (PublicKey_LEN + U32_LEN + U32_LEN + TxnHash_V1_LEN + StateHash_LEN)%nat /\
    pk_txn_sort_key_prefix pk_example 500 = Ok prefix /\ key = prefix ++ rest /\
    pk_key_prefix key = Ok pk_example /\
    pk_txn_sort_key_sort key = Ok 500 /\
    pk_txn_sort_key_nonce key = Ok 7 /\
    txn_hash_of_key key = Ok txn_v2_example /\
    pk_txn_sort_key_state_hash key = Ok sh_default.
Proof.
  apply (pk_txn_sort_key_roundtrip pk_example 500 7 txn_v2_example sh_default);
    first [split; vm_compute; reflexivity | unfold u32, U32_MAX; lia].
Defined.

(** the store iterates a public key's transactions by sort value (height or
    slot), then nonce, whatever hashes follow: keys with the same public key
    compare as the pair (sort value, nonce) does when it differs. *)
Theorem pk_txn_sort_key_order pk s1 n1 t1 h1 s2 n2 t2 h2 k1 k2 :
  pk_wf pk -> u32 s1 -> u32 n1 -> u32 s2 -> u32 n2 ->
  pk_txn_sort_key pk s1 n1 t1 h1 = Ok k1 -> pk_txn_sort_key pk s2 n2 t2 h2 = Ok k2 ->
  (s1, n1) <> (s2, n2) ->
  lex_compare k1 k2 = then_with (s1 ?= s2) (n1 ?= n2).
Proof.
  intros Hpk Hs1 Hn1 Hs2 Hn2 E1 E2 Hne. unfold pk_txn_sort_key in E1, E2.
  destruct (txn_right_pad_v2 t1) as [b1| |], (txn_right_pad_v2 t2) as [b2| |]; try done.
  cbn [mbind res_bind] in E1, E2.
  assert (Hf : forall fs k, build_key fs = Ok k -> k = concat (fs.*2)).
  { intros fs k. destruct (decide (Forall (fun f : nat * list Z => length f.2 = f.1) fs)).
    - by rewrite build_key_ok by done; intros [= <-].
    - by rewrite build_key_panic by done. }
  apply Hf in E1 as ->. apply Hf in E2 as ->.
  unfold f_u32, f_pk, f_sh; cbn [fmap list_fmap snd concat]. lex_key.
  unfold pk_compare at 1. rewrite (proj2 (str_compare_eq _ _) eq_refl). cbn [then_with].
  destruct (Z.compare_spec s1 s2) as [->| |]; cbn [then_with]; [|done|done].
  destruct (Z.compare_spec n1 n2) as [->| |]; [|done|done]. congruence.
Qed.

Lemma pk_txn_sort_key_order_witness :
  exists k1 k2,
    pk_txn_sort_key pk_example 500 7 txn_v2_example sh_default = Ok k1 /\
    pk_txn_sort_key pk_example 256 9 txn_v2_example sh_default = Ok k2 /\
    lex_compare k1 k2 = then_with (500 ?= 256) (7 ?= 9).
Proof.
  eexists _, _. split; [vm_compute; reflexivity|]. split; [vm_compute; reflexivity|].
  eapply (pk_txn_sort_key_order pk_example 500 7 txn_v2_example sh_default
            256 9 txn_v2_example sh_default);
    first [split; vm_compute; reflexivity | unfold u32, U32_MAX; lia
          | vm_compute; reflexivity | discriminate].
Defined.

(** the three account-balance sort keys (best ledger, staged ledger, staking
    ledger) and the staking epoch key are inverted by their [split_*]
    functions. *)
Theorem account_sort_keys_split state_hash ledger_hash token epoch balance pk :
  sh_wf state_hash -> lh_wf ledger_hash -> token_wf token -> u32 epoch -> u64 balance ->
  pk_wf pk ->
  (k ← best_account_sort_key token balance pk; split_best_account_sort_key k)
    = Ok (Some (token, balance, pk)) /\
  (k ← staged_account_balance_sort_key state_hash token balance pk;
   split_staged_account_balance_sort_key k) = Ok (Some (state_hash, token, balance, pk)) /\
  (k ← staking_ledger_sort_key epoch balance pk; split_staking_ledger_sort_key k)
    = Ok (epoch, balance, pk) /\
  (k ← staking_ledger_epoch_key state_hash epoch ledger_hash; split_staking_ledger_epoch_key k)
    = Ok (state_hash, epoch, ledger_hash).
Proof.
  intros Hh Hl Ht He Hb Hpk.
  split_and!; unfold best_account_sort_key, staged_account_balance_sort_key,
    staking_ledger_sort_key, staking_ledger_epoch_key, staking_ledger_epoch_key_prefix;
    unfold_key; cbn [mbind res_bind];
    try (rewrite build_key_ok by
           (apply fields_ok_cons;
            [by rewrite length_app, length_u32_be, (sh_wf_len state_hash) by done
            |unfold f_lh; keylen]);
         unfold f_lh; cbn [fmap list_fmap snd concat]; rewrite app_nil_r, <- app_assoc;
         cbn [mbind res_bind]);
    unfold split_best_account_sort_key, split_staged_account_balance_sort_key,
      split_staking_ledger_sort_key, split_staking_ledger_epoch_key;
    (rewrite bool_decide_eq_true_2 by
       (rewrite !length_app, ?length_u32_be, ?length_u64_be, ?(pk_wf_len pk),
          ?(sh_wf_len state_hash), ?(token_wf_len token), ?(lh_wf_len ledger_hash) by done;
        reflexivity)); by read_key.
Qed.

Lemma account_sort_keys_split_witness :
  (k ← best_account_sort_key token_default 1440000000000 pk_example;
   split_best_account_sort_key k) = Ok (Some (token_default, 1440000000000, pk_example)) /\
  (k ← staged_account_balance_sort_key sh_default token_default 1440000000000 pk_example;
   split_staged_account_balance_sort_key k)
    = Ok (Some (sh_default, token_default, 1440000000000, pk_example)) /\
  (k ← staking_ledger_sort_key 42 1440000000000 pk_example; split_staking_ledger_sort_key k)
    = Ok (42, 1440000000000, pk_example) /\
  (k ← staking_ledger_epoch_key sh_default 42 lh_default; split_staking_ledger_epoch_key k)
    = Ok (sh_default, 42, lh_default).
Proof.
  apply (account_sort_keys_split sh_default lh_default token_default 42 1440000000000 pk_example);
    first [split; vm_compute; reflexivity | unfold u32, U32_MAX; lia
          | unfold u64, U64_MAX; lia].
Defined.

(** iterating the balance-sorted keys of one token (best ledger) or of one
    epoch (staking ledger) in key order is iterating accounts by balance, ties
    broken by public key; the epoch comes first in the staking keys. *)
Theorem balance_sort_key_order token e1 e2 b1 b2 p1 p2 :
  token_wf token -> u32 e1 -> u32 e2 -> u64 b1 -> u64 b2 -> pk_wf p1 -> pk_wf p2 ->
  exists k1 k2 s1 s2,
    best_account_sort_key token b1 p1 = Ok k1 /\ best_account_sort_key token b2 p2 = Ok k2 /\
    lex_compare k1 k2 = then_with (b1 ?= b2) (pk_compare p1 p2) /\
    staking_ledger_sort_key e1 b1 p1 = Ok s1 /\ staking_ledger_sort_key e2 b2 p2 = Ok s2 /\
    lex_compare s1 s2 = then_with (e1 ?= e2) (then_with (b1 ?= b2) (pk_compare p1 p2)).
Proof.
  intros Ht He1 He2 Hb1 Hb2 Hp1 Hp2.
  unfold best_account_sort_key, staking_ledger_sort_key. unfold_key.
  eexists _, _, _, _. split_and!; [done|done| |done|done|]; lex_key; [|done].
  unfold token_compare. by rewrite (proj2 (str_compare_eq _ _) eq_refl).
Qed.

Lemma balance_sort_key_order_witness :
  exists k1 k2 s1 s2,
    best_account_sort_key token_default 720000000000 pk_example = Ok k1 /\
    best_account_sort_key token_default 255 pk_default = Ok k2 /\
    lex_compare k1 k2 =
      then_with (720000000000 ?= 255) (pk_compare pk_example pk_default) /\
    staking_ledger_sort_key 41 720000000000 pk_example = Ok s1 /\
    staking_ledger_sort_key 42 255 pk_default = Ok s2 /\
    lex_compare s1 s2 = then_with (41 ?= 42)
      (then_with (720000000000 ?= 255) (pk_compare pk_example pk_default)).
Proof.
  apply (balance_sort_key_order token_default 41 42 720000000000 255 pk_example pk_default);
    first [split; vm_compute; reflexivity | unfold u32, U32_MAX; lia
          | unfold u64, U64_MAX; lia].
Defined.

(** a key function never writes a truncated or shifted key: it succeeds
    exactly when every variable-length field has its declared length, and
    panics otherwise (an invalid public key or token address cannot corrupt the
    ordering of the store). *)
Theorem best_account_sort_key_total token balance pk :
  (exists k, best_account_sort_key token balance pk = Ok k) /\
    str_len (token_str token) = TokenAddress_LEN /\ str_len (pk_str pk) = PublicKey_LEN \/
  best_account_sort_key token balance pk = Panic /\
    ~ (str_len (token_str token) = TokenAddress_LEN /\ str_len (pk_str pk) = PublicKey_LEN).
Proof.
  unfold best_account_sort_key.
  destruct (decide (str_len (token_str token) = TokenAddress_LEN /\
                    str_len (pk_str pk) = PublicKey_LEN)) as [[Ht Hp]|Hn].
  - left. split; [|done]. eexists. apply build_key_ok. repeat constructor; done.
  - right. split; [|done]. apply build_key_panic. intros H. apply Hn.
    apply Forall_cons in H as [Ht H]. apply Forall_cons in H as [_ H].
    apply Forall_cons in H as [Hp _]. done.
Qed.

(** [PublicKey::upper_bound] is not an upper bound: base58 has lower-case
    letters, and an ordinary mainnet public key sorts after it (the lower bound
    is one, for keys over the base58 alphabet, whose smallest letter is [1]). *)
Theorem pk_upper_bound_not_maximal :
  pk_wf pk_upper_bound /\ pk_wf pk_example /\
  pk_compare pk_example pk_upper_bound = Gt /\ pk_compare pk_lower_bound pk_example = Lt.
Proof. unfold pk_wf. split_and!; vm_compute; reflexivity. Qed.
