(* ===== verification/Command.v ===== *)
(** User commands of both block versions (src/rust/src/command/mod.rs and the
    zkapp data of src/rust/src/mina_blocks/v2): the pre-hardfork (V1) and
    post-hardfork (V2) representations, the accessors of the trait
    [UserCommandWithStatusT], the version-independent [Command], and memos.
    The version wrappers ([.t]) are erased and V1 curve points are given by
    their base58 address. *)

From S2P Require Import Prelude Bytes Base.

(** * Account permissions, timing and zkapp data *)

Inductive Permission := PNone | PEither | PProof | PSignature | PImpossible.

Record Permissions := mkPermissions {
  edit_state : Permission;
  access : Permission;
  send : Permission;
  receive : Permission;
  set_delegate : Permission;
  set_permissions : Permission;
  set_verification_key : Permission * string;
  set_zkapp_uri : Permission;
  edit_action_state : Permission;
  set_token_symbol : Permission;
  increment_nonce_perm : Permission;
  set_voting_for : Permission;
  set_timing : Permission
}.

Record Timing := mkTiming {
  cliff_time : Z;
  vesting_period : Z;
  cliff_amount : Z;
  vesting_increment : Z;
  initial_minimum_balance : Z
}.

Record VerificationKey := mkVk { vk_data : string; vk_hash : string }.

Global Instance Permission_eq_dec : EqDecision Permission.
Proof. solve_decision. Defined.
Global Instance Permissions_eq_dec : EqDecision Permissions.
Proof. solve_decision. Defined.
Global Instance Timing_eq_dec : EqDecision Timing.
Proof. solve_decision. Defined.
Global Instance VerificationKey_eq_dec : EqDecision VerificationKey.
Proof. solve_decision. Defined.

Definition ZKAPP_STATE_FIELD_ELEMENTS_NUM : nat := 8.

(** 32 bytes in hexadecimal: 64 digits after [0x]; the conversions assert it. *)
Definition hex32 (s : string) : bool :=
  starts_with s "0x" && bool_decide (str_len s = 66%nat).

Definition app_state_from (s : string) : res string :=
  _ ← rust_assert (hex32 s); Ok s.
Definition action_state_from (s : string) : res string :=
  _ ← rust_assert (hex32 s); Ok s.
Definition zkapp_event_from (s : string) : res string :=
  _ ← rust_assert (hex32 s); Ok s.

Definition app_state_default : string :=
  "0x0000000000000000000000000000000000000000000000000000000000000000".
Definition action_state_default : string :=
  "0x3772BC5435B957F81F86F752E93F2E29E886AC24580B3D1EC879C1DAD26965F9".

Record ZkappAccount := mkZkappAccount {
  app_state : list string;
  action_state : list string;
  verification_key : VerificationKey;
  proved_state : bool;
  zkapp_uri : string;
  zkapp_version : Z;
  last_action_slot : Z
}.

Global Instance ZkappAccount_eq_dec : EqDecision ZkappAccount.
Proof. solve_decision. Defined.

Definition zkapp_from_proved_state (proved : bool) : ZkappAccount :=
  {| app_state := replicate ZKAPP_STATE_FIELD_ELEMENTS_NUM app_state_default;
     action_state := replicate 5 action_state_default;
     verification_key := mkVk "" "";
     proved_state := proved;
     zkapp_uri := "";
     zkapp_version := 0;
     last_action_slot := 0 |}.

(** * Zkapp commands *)

Inductive SupplyAdjustmentSign := Pos | Neg.

(** [UpdateKind] and its typed variants: keep the field or set it. *)
Inductive Update_ (A : Type) := Keep | Set_ (a : A).
Arguments Keep {A}.
Arguments Set_ {A} a.

Definition update_to_option {A} (u : Update_ A) : option A :=
  match u with Keep => None | Set_ a => Some a end.

Inductive Authorization :=
| NoneGiven | AEither | Proof_ | AProof | Signature_ | ASignature.

Record Update := mkUpdate {
  u_app_state : list (Update_ string);
  u_delegate : Update_ string;
  u_verification_key : Update_ VerificationKey;
  u_permissions : Update_ Permissions;
  u_zkapp_uri : Update_ string;
  u_token_symbol : Update_ string;
  u_timing : Update_ Timing;
  u_voting_for : Update_ string
}.

Record AccountUpdateBody := mkBody {
  b_public_key : PublicKey;
  b_token_id : TokenAddress;
  b_update : Update;
  b_magnitude : Z;
  b_sgn : SupplyAdjustmentSign;
  b_increment_nonce : bool;
  b_events : list (list string);
  b_actions : list (list string);
  b_implicit_account_creation_fee : bool;
  b_authorization_kind : Authorization
}.

(** An account update with the account updates it calls. *)
Unset Elimination Schemes.
Inductive Elt := mkElt (body : AccountUpdateBody) (calls : list Elt).
Set Elimination Schemes.

Definition elt_body (e : Elt) : AccountUpdateBody := let (b, _) := e in b.
Definition elt_calls (e : Elt) : list Elt := let (_, c) := e in c.

Record ZkappCommandData := mkZkappCommand {
  zk_memo : string;
  zk_fee_payer_pk : PublicKey;
  zk_fee : Z;
  zk_nonce : Nonce;
  zk_account_updates : list Elt;
  (** the remaining fields, only hashed and displayed *)
  zk_rest : string
}.

(** * Signed commands, statuses and the two command versions *)

Record PayloadCommon := mkCommon {
  c_fee : Z;
  c_fee_payer_pk : PublicKey;
  (** [i32] in V1, converted with [as u32] *)
  c_nonce : Z;
  c_memo : list Z;
  (** valid until, fee token, signature and the remaining fields, only hashed and displayed *)
  c_rest : string
}.

Inductive BodyV1 :=
| PaymentV1 (source_pk receiver_pk : PublicKey) (amount : Z)
| SetDelegateV1 (delegator new_delegate : PublicKey).

Inductive BodyV2 :=
| PaymentV2 (receiver_pk : PublicKey) (amount : Z)
| StakeDelegationV2 (new_delegate : PublicKey).

Inductive UserCommandDataV2 :=
| SignedCommandData (common : PayloadCommon) (body : BodyV2) (signer : PublicKey)
| ZkappData (z : ZkappCommandData).

Record AuxiliaryData := mkAux {
  fee_payer_account_creation_fee : option Z;
  receiver_account_creation_fee : option Z;
  aux_created_token : option Z
}.

Record BalanceData := mkBal {
  bal_fee_payer : option Z;
  bal_source : option Z;
  bal_receiver : option Z
}.

Inductive CommandStatusData :=
| Applied (auxiliary_data : option AuxiliaryData) (balance_data : option BalanceData)
| Failed (balance_data : option BalanceData).

Inductive UserCommandWithStatus :=
| UCV1 (common : PayloadCommon) (body : BodyV1) (signer : PublicKey)
       (status : CommandStatusData)
| UCV2 (data : UserCommandDataV2) (status : CommandStatusData).

(** [CommandStatusData] *)

Definition status_is_applied (s : CommandStatusData) : bool :=
  match s with Applied _ _ => true | Failed _ => false end.
Definition status_balance_data (s : CommandStatusData) : option BalanceData :=
  match s with Applied _ b => b | Failed _ => None end.
Definition status_auxiliary_data (s : CommandStatusData) : option AuxiliaryData :=
  match s with Applied a _ => a | Failed _ => None end.
Definition status_fee_payer_balance (s : CommandStatusData) : option Z :=
  b ← status_balance_data s; bal_fee_payer b.
Definition status_receiver_balance (s : CommandStatusData) : option Z :=
  b ← status_balance_data s; bal_receiver b.
Definition status_source_balance (s : CommandStatusData) : option Z :=
  b ← status_balance_data s; bal_source b.
Definition status_fee_payer_account_creation_fee_paid (s : CommandStatusData) : option Z :=
  a ← status_auxiliary_data s; fee_payer_account_creation_fee a.
Definition status_receiver_account_creation_fee_paid (s : CommandStatusData) : option Z :=
  a ← status_auxiliary_data s; receiver_account_creation_fee a.
Definition status_created_token (s : CommandStatusData) : option Z :=
  a ← status_auxiliary_data s; aux_created_token a.

(** * The version-independent command *)

Record Payment := mkPayment {
  p_source : PublicKey;
  p_nonce : Nonce;
  p_amount : Amount;
  p_receiver : PublicKey;
  p_is_new_receiver_account : bool
}.

Record Delegation := mkDelegation {
  d_delegator : PublicKey;
  d_nonce : Nonce;
  d_delegate : PublicKey
}.

Inductive Command :=
| CPayment (p : Payment)
| CDelegation (d : Delegation)
| CZkapp (z : ZkappCommandData).

(** * [impl UserCommandWithStatusT for UserCommandWithStatus] *)

Definition status_data (c : UserCommandWithStatus) : CommandStatusData :=
  match c with UCV1 _ _ _ s => s | UCV2 _ s => s end.

Definition is_applied (c : UserCommandWithStatus) : bool := status_is_applied (status_data c).

Definition is_zkapp_command (c : UserCommandWithStatus) : bool :=
  match c with UCV2 (ZkappData _) _ => true | _ => false end.

Definition receiver_account_creation_fee_paid (c : UserCommandWithStatus) : bool :=
  match status_receiver_account_creation_fee_paid (status_data c) with
  | Some _ => true | None => false end.

Definition sender (c : UserCommandWithStatus) : PublicKey :=
  match c with
  | UCV1 _ (PaymentV1 source_pk _ _) _ _ => source_pk
  | UCV1 _ (SetDelegateV1 delegator _) _ _ => delegator
  | UCV2 (SignedCommandData common _ _) _ => c_fee_payer_pk common
  | UCV2 (ZkappData z) _ => zk_fee_payer_pk z
  end.

Definition receiver (c : UserCommandWithStatus) : list PublicKey :=
  match c with
  | UCV1 _ (PaymentV1 _ receiver_pk _) _ _ => [receiver_pk]
  | UCV1 _ (SetDelegateV1 _ new_delegate) _ _ => [new_delegate]
  | UCV2 (SignedCommandData _ (PaymentV2 receiver_pk _) _) _ => [receiver_pk]
  | UCV2 (SignedCommandData _ (StakeDelegationV2 new_delegate) _) _ => [new_delegate]
  | UCV2 (ZkappData z) _ => (fun e => b_public_key (elt_body e)) <$> zk_account_updates z
  end.

Definition fee_payer_pk (c : UserCommandWithStatus) : PublicKey :=
  match c with
  | UCV1 common _ _ _ => c_fee_payer_pk common
  | UCV2 (SignedCommandData common _ _) _ => c_fee_payer_pk common
  | UCV2 (ZkappData z) _ => zk_fee_payer_pk z
  end.

Definition fee (c : UserCommandWithStatus) : Z :=
  match c with
  | UCV1 common _ _ _ => c_fee common
  | UCV2 (SignedCommandData common _ _) _ => c_fee common
  | UCV2 (ZkappData z) _ => zk_fee z
  end.

Definition nonce_of (c : UserCommandWithStatus) : Nonce :=
  match c with
  | UCV1 common _ _ _ => wrap32 (c_nonce common)
  | UCV2 (SignedCommandData common _ _) _ => c_nonce common
  | UCV2 (ZkappData z) _ => zk_nonce z
  end.

Definition amount (c : UserCommandWithStatus) : Z :=
  match c with
  | UCV1 common _ _ _ => c_fee common
  | UCV2 (SignedCommandData _ (PaymentV2 _ amt) _) _ => amt
  | UCV2 (SignedCommandData _ (StakeDelegationV2 _) _) _ => 0
  | UCV2 (ZkappData _) _ => 0
  end.

Definition signer (c : UserCommandWithStatus) : PublicKey :=
  match c with
  | UCV1 _ _ signer _ => signer
  | UCV2 (SignedCommandData _ _ signer) _ => signer
  | UCV2 (ZkappData z) _ => zk_fee_payer_pk z
  end.

Definition to_command (c : UserCommandWithStatus) : Command :=
  match c with
  | UCV1 _ (PaymentV1 source_pk receiver_pk amt) _ _ =>
    CPayment {| p_source := source_pk; p_receiver := receiver_pk; p_nonce := nonce_of c;
                p_amount := amt;
                p_is_new_receiver_account := receiver_account_creation_fee_paid c |}
  | UCV1 _ (SetDelegateV1 delegator new_delegate) _ _ =>
    CDelegation {| d_delegator := delegator; d_delegate := new_delegate;
                   d_nonce := nonce_of c |}
  | UCV2 (SignedCommandData _ (PaymentV2 receiver_pk amt) _) _ =>
    CPayment {| p_nonce := nonce_of c; p_amount := amt; p_source := fee_payer_pk c;
                p_receiver := receiver_pk;
                p_is_new_receiver_account := receiver_account_creation_fee_paid c |}
  | UCV2 (SignedCommandData _ (StakeDelegationV2 new_delegate) _) _ =>
    CDelegation {| d_nonce := nonce_of c; d_delegator := sender c;
                   d_delegate := new_delegate |}
  | UCV2 (ZkappData z) _ => CZkapp z
  end.

(** * Memos *)

(** [&encoded[2..(encoded[1] as usize + 2).min(encoded.len())]] *)
Definition decode_memo (encoded : list Z) : res string :=
  len ← expect_some (encoded !! 1%nat);
  let stop := Nat.min (Z.to_nat len + 2) (length encoded) in
  if decide (2 <= stop)%nat then
    Ok (match from_utf8 (drop 2 (take stop encoded)) with Ok s => s | _ => "" end)
  else Panic.

(** Length byte (truncated to [u8]) and version byte in front. *)
Definition encode_memo (value : string) : list Z :=
  let bytes := as_bytes value in
  1 :: (Z.of_nat (length bytes) mod 256) :: bytes.

Definition memo (c : UserCommandWithStatus) : res string :=
  match c with
  | UCV1 common _ _ _ => decode_memo (c_memo common)
  | UCV2 (SignedCommandData common _ _) _ => decode_memo (c_memo common)
  | UCV2 (ZkappData z) _ => decode_memo (as_bytes (zk_memo z))
  end.

(** The conversion written out a second time inside [Command::from_precomputed]. *)
Definition command_of_precomputed (c : UserCommandWithStatus) : Command :=
  match c with
  | UCV1 _ (PaymentV1 source receiver amt) _ _ =>
    CPayment {| p_source := source; p_receiver := receiver; p_nonce := nonce_of c;
                p_amount := amt;
                p_is_new_receiver_account := receiver_account_creation_fee_paid c |}
  | UCV1 _ (SetDelegateV1 delegator new_delegate) _ _ =>
    CDelegation {| d_delegate := new_delegate; d_delegator := delegator;
                   d_nonce := nonce_of c |}
  | UCV2 (SignedCommandData _ (PaymentV2 receiver amt) _) _ =>
    CPayment {| p_source := fee_payer_pk c; p_receiver := receiver; p_amount := amt;
                p_nonce := nonce_of c;
                p_is_new_receiver_account := receiver_account_creation_fee_paid c |}
  | UCV2 (SignedCommandData _ (StakeDelegationV2 delegate) _) _ =>
    CDelegation {| d_nonce := nonce_of c; d_delegate := delegate; d_delegator := sender c |}
  | UCV2 (ZkappData z) _ => CZkapp z
  end.

(** [Command::from_precomputed]: the applied commands of a block, in order. *)
Definition commands_from_precomputed (cmds : list UserCommandWithStatus) : list Command :=
  command_of_precomputed <$> filter (fun c => is_applied c = true) cmds.

(** [Command::nonce]; zkapp commands hit a [todo!]. *)
Definition command_nonce (c : Command) : res Nonce :=
  match c with
  | CDelegation d => Ok (d_nonce d)
  | CPayment p => Ok (p_nonce p)
  | CZkapp _ => Panic
  end.

(** * Properties *)

Lemma command_of_precomputed_to_command c : command_of_precomputed c = to_command c.
Proof. by destruct c as [? [] ? ?|[? [] ?|] ?]. Qed.

(** the two conversions of the code agree, and the version-independent
    command carries exactly the sender, receivers and nonce that the accessors
    report, for every command of either block version. *)
Theorem to_command_faithful (cmds : list UserCommandWithStatus) :
  commands_from_precomputed cmds = to_command <$> filter (fun c => is_applied c = true) cmds /\
  Forall (fun c =>
    match to_command c with
    | CPayment p => p_source p = sender c /\ receiver c = [p_receiver p] /\
                    p_nonce p = nonce_of c
    | CDelegation d => d_delegator d = sender c /\ receiver c = [d_delegate d] /\
                       d_nonce d = nonce_of c
    | CZkapp z => zk_fee_payer_pk z = sender c /\ zk_nonce z = nonce_of c /\
                  is_zkapp_command c = true
    end) cmds.
Proof.
  split.
  - unfold commands_from_precomputed. apply list_fmap_ext.
    intros; apply command_of_precomputed_to_command.
  - apply Forall_forall. intros c _. by destruct c as [? [] ? ?|[? [] ?|] ?].
Qed.

(** What is read back is the text up to its length modulo 256. *)
Lemma decode_memo_encode value :
  decode_memo (encode_memo value) =
    Ok (match from_utf8 (take (str_len value mod 256) (as_bytes value)) with
        | Ok s => s | _ => "" end).
Proof.
  unfold decode_memo, encode_memo. cbn [lookup list_lookup expect_some mbind res_bind].
  change (length (as_bytes value)) with (str_len value).
  assert (Hz : Z.to_nat (Z.of_nat (str_len value) mod 256) = (str_len value mod 256)%nat)
    by (rewrite <- (Nat2Z.inj_mod _ 256); apply Nat2Z.id).
  rewrite Hz. cbn [length]. change (length (as_bytes value)) with (str_len value).
  pose proof (Nat.Div0.mod_le (str_len value) 256) as Hle.
  set (m := (str_len value mod 256)%nat) in *.
  rewrite Nat.min_l by lia. rewrite decide_True by lia.
  replace (m + 2)%nat with (S (S m)) by lia. reflexivity.
Qed.

(** a memo of at most 255 bytes is decoded back from its encoding; of a
    longer one, whose length byte wraps, only the first [len mod 256] bytes
    are read. *)
Theorem memo_roundtrip value :
  decode_memo (encode_memo value) =
    Ok (match from_utf8 (take (str_len value mod 256) (as_bytes value)) with
        | Ok s => s | _ => "" end) /\
  (rust_string value = true -> (str_len value < 256)%nat ->
   decode_memo (encode_memo value) = Ok value).
Proof.
  split; [apply decode_memo_encode|]. intros Hs Hl. rewrite decode_memo_encode.
  rewrite Nat.mod_small, take_ge by (done || unfold str_len in *; lia).
  by rewrite from_utf8_as_bytes.
Qed.

Lemma memo_roundtrip_witness :
  (str_len "Name: granola" < 256)%nat /\
  decode_memo (encode_memo "Name: granola") = Ok "Name: granola".
Proof.
  split; [vm_compute; lia|].
  apply (proj2 (memo_roundtrip "Name: granola")); [reflexivity|vm_compute; lia].
Defined.

(** The amount a command reports against the amount its payment moves: they agree for
    post-hardfork payments, while a pre-hardfork command always reports its fee,
    also for a delegation, which moves nothing. *)
Theorem amount_reported c :
  match c with
  | UCV1 common _ _ _ => amount c = c_fee common
  | UCV2 _ _ => amount c = match to_command c with CPayment p => p_amount p | _ => 0 end
  end.
Proof. by destruct c as [? [] ? ?|[? [] ?|] ?]. Qed.

(** post-hardfork memos are base58 text but are decoded as if they were the
    raw bytes: the memo of an empty post-hardfork memo is a piece of its base58
    text. *)
Theorem memo_v2_not_decoded pk signer rest status :
  memo (UCV2 (SignedCommandData
          (mkCommon 0 pk 0 (as_bytes "E4YM2vTHhWEg66xpj52JErHUBU4pZ1yageL4TVDDpTTSsv8mK6YaH") rest)
          (StakeDelegationV2 pk) signer) status)
  = Ok "YM2vTHhWEg66xpj52JErHUBU4pZ1yageL4TVDDpTTSsv8mK6YaH".
Proof. vm_compute; reflexivity. Qed.
