(* ===== verification/AccountDiff.v ===== *)
(** Account diffs (src/rust/src/ledger/diff/account.rs): the changes a block
    makes to accounts, how they are computed from user commands, transaction
    fees and SNARK work, and the expansion of an aggregated zkapp diff. *)

From S2P Require Import Prelude Bytes Base Command.

(** * Data *)

(** [Debit] carries the new nonce for a user command, [None] for an internal one. *)
Inductive UpdateType := Debit (nonce : option Nonce) | Credit.

Record PaymentDiff := mkPaymentDiff {
  update_type : UpdateType;
  pd_public_key : PublicKey;
  pd_amount : Amount;
  pd_token : TokenAddress
}.

Record DelegationDiff := mkDelegationDiff {
  dd_nonce : Nonce;
  delegator : PublicKey;
  delegate_to : PublicKey
}.

Record ZkappStateDiff := mkZkappStateDiff {
  sd_token : TokenAddress; sd_public_key : PublicKey; sd_proved_state : bool;
  sd_diffs : list (option string) }.
Record ZkappVerificationKeyDiff := mkZkappVkDiff {
  vd_token : TokenAddress; vd_public_key : PublicKey; vd_proved_state : bool;
  vd_verification_key : VerificationKey }.
Record ZkappPermissionsDiff := mkZkappPermDiff {
  pmd_token : TokenAddress; pmd_public_key : PublicKey; pmd_permissions : Permissions }.
Record ZkappUriDiff := mkZkappUriDiff {
  ud_token : TokenAddress; ud_public_key : PublicKey; ud_proved_state : bool;
  ud_zkapp_uri : string }.
Record ZkappTokenSymbolDiff := mkZkappSymbolDiff {
  tsd_token : TokenAddress; tsd_public_key : PublicKey; tsd_token_symbol : TokenSymbol }.
Record ZkappTimingDiff := mkZkappTimingDiff {
  td_token : TokenAddress; td_public_key : PublicKey; td_timing : Timing }.
Record ZkappVotingForDiff := mkZkappVotingDiff {
  vfd_token : TokenAddress; vfd_public_key : PublicKey; vfd_voting_for : StateHash }.
Record ZkappActionsDiff := mkZkappActionsDiff {
  ad_token : TokenAddress; ad_public_key : PublicKey; ad_proved_state : bool;
  ad_actions : list string }.
Record ZkappEventsDiff := mkZkappEventsDiff {
  ed_token : TokenAddress; ed_public_key : PublicKey; ed_events : list string }.
Record ZkappIncrementNonce := mkZkappIncrementNonce {
  ind_public_key : PublicKey; ind_token : TokenAddress }.
Record ZkappAccountCreationFee := mkZkappCreationFee {
  cfd_public_key : PublicKey; cfd_token : TokenAddress; cfd_amount : Amount }.
Record CoinbaseDiff := mkCoinbaseDiff { cd_public_key : PublicKey; cd_amount : Amount }.
Record FailedTransactionNonceDiff := mkFailedDiff {
  fd_public_key : PublicKey; fd_nonce : Nonce }.

Inductive ZkappPaymentDiff :=
| ZPayment (d : PaymentDiff)
| ZIncrementNonce (d : ZkappIncrementNonce)
| ZAccountCreationFee (d : ZkappAccountCreationFee).

Record ZkappDiff := mkZkappDiff {
  zd_nonce : Nonce;
  zd_token : TokenAddress;
  zd_public_key : PublicKey;
  zd_increment_nonce : bool;
  zd_payment_diffs : list ZkappPaymentDiff;
  zd_proved_state : bool;
  zd_app_state_diff : list (option string);
  zd_delegate : option PublicKey;
  zd_verification_key : option VerificationKey;
  zd_permissions : option Permissions;
  zd_zkapp_uri : option string;
  zd_token_symbol : option TokenSymbol;
  zd_timing : option Timing;
  zd_voting_for : option StateHash;
  zd_actions : list string;
  zd_events : list string
}.

Inductive AccountDiff :=
| DPayment (d : PaymentDiff)
| DDelegation (d : DelegationDiff)
| DCoinbase (d : CoinbaseDiff)
| DFeeTransfer (d : PaymentDiff)
| DFeeTransferViaCoinbase (d : PaymentDiff)
| DFailedTransactionNonce (d : FailedTransactionNonceDiff)
| DZkapp (d : ZkappDiff)
| DZkappState (d : ZkappStateDiff)
| DZkappPermissions (d : ZkappPermissionsDiff)
| DZkappVerificationKey (d : ZkappVerificationKeyDiff)
| DZkappUri (d : ZkappUriDiff)
| DZkappTokenSymbol (d : ZkappTokenSymbolDiff)
| DZkappTiming (d : ZkappTimingDiff)
| DZkappVotingFor (d : ZkappVotingForDiff)
| DZkappActions (d : ZkappActionsDiff)
| DZkappEvents (d : ZkappEventsDiff)
| DZkappIncrementNonce (d : ZkappIncrementNonce)
| DZkappAccountCreationFee (d : ZkappAccountCreationFee).

Global Instance UpdateType_eq_dec : EqDecision UpdateType.
Proof. solve_decision. Defined.
Global Instance PaymentDiff_eq_dec : EqDecision PaymentDiff.
Proof. solve_decision. Defined.

(** * Accessors *)

(** Only payments carry their token; every other diff reports MINA. *)
Definition token_address (d : AccountDiff) : TokenAddress :=
  match d with DPayment d => pd_token d | _ => token_default end.

Definition public_key (d : AccountDiff) : PublicKey :=
  match d with
  | DPayment d | DFeeTransfer d | DFeeTransferViaCoinbase d => pd_public_key d
  | DDelegation d => delegator d
  | DCoinbase d => cd_public_key d
  | DFailedTransactionNonce d => fd_public_key d
  | DZkapp d => zd_public_key d
  | DZkappState d => sd_public_key d
  | DZkappPermissions d => pmd_public_key d
  | DZkappVerificationKey d => vd_public_key d
  | DZkappUri d => ud_public_key d
  | DZkappTokenSymbol d => tsd_public_key d
  | DZkappTiming d => td_public_key d
  | DZkappVotingFor d => vfd_public_key d
  | DZkappActions d => ad_public_key d
  | DZkappEvents d => ed_public_key d
  | DZkappIncrementNonce d => ind_public_key d
  | DZkappAccountCreationFee d => cfd_public_key d
  end.

(** Signed change of balance; the zkapp diffs are [unreachable!]. *)
Definition diff_amount (d : AccountDiff) : res Z :=
  match d with
  | DDelegation _ | DFailedTransactionNonce _ => Ok 0
  | DCoinbase d => Ok (as_i64 (cd_amount d))
  | DFeeTransfer d | DFeeTransferViaCoinbase d | DPayment d =>
    match update_type d with
    | Credit => Ok (as_i64 (pd_amount d))
    | Debit _ => Ok (as_i64 (0 - as_i64 (pd_amount d)))
    end
  | DZkappAccountCreationFee d => Ok (as_i64 (cfd_amount d))
  | _ => Panic
  end.

(** * Zkapp commands *)

Definition update_type_of_sign (s : SupplyAdjustmentSign) : UpdateType :=
  match s with Neg => Debit None | Pos => Credit end.

Definition is_debit (u : UpdateType) : bool := match u with Debit _ => true | _ => false end.

Definition is_proof (a : Authorization) : bool :=
  match a with AProof | Proof_ => true | _ => false end.

(** Payments of one account update: the fee payer pays the account creation, a
    zero balance change may increment the nonce, a non-zero one is a payment. *)
Definition elt_payment_diffs (fee_payer : PublicKey) (nonce : Nonce) (b : AccountUpdateBody)
  : list ZkappPaymentDiff :=
  let amount := b_magnitude b in
  let update_type :=
    let u := update_type_of_sign (b_sgn b) in
    if is_debit u then Debit (Some (nonce_add_u32 nonce 1)) else u in
  (if b_implicit_account_creation_fee b then
     [ZPayment (mkPaymentDiff (Debit (Some (nonce_add_u32 nonce 1))) fee_payer amount
                  (b_token_id b))]
   else []) ++
  (if b_increment_nonce b && (amount =? 0) then
     [ZIncrementNonce (mkZkappIncrementNonce (b_public_key b) (b_token_id b))]
   else []) ++
  (if negb (amount =? 0) then
     [ZPayment (mkPaymentDiff update_type (b_public_key b) amount (b_token_id b))]
   else []).

(** [impl From<(PublicKey, Nonce, &Elt)> for AccountDiff]: only the first list
    of actions and of events is kept. *)
Definition diff_of_elt (fee_payer : PublicKey) (nonce : Nonce) (e : Elt) : res AccountDiff :=
  let b := elt_body e in
  let u := b_update b in
  actions ← mapM action_state_from (default [] (head (b_actions b)));
  events ← mapM zkapp_event_from (default [] (head (b_events b)));
  app_state_diff ← mapM (fun u => match u with
                                  | Keep => Ok None
                                  | Set_ s => Some <$> app_state_from s
                                  end) (u_app_state u);
  Ok (DZkapp {|
    zd_nonce := nonce_add_u32 nonce 1;
    zd_token := b_token_id b;
    zd_public_key := b_public_key b;
    zd_increment_nonce := b_increment_nonce b;
    zd_payment_diffs := elt_payment_diffs fee_payer nonce b;
    zd_proved_state := is_proof (b_authorization_kind b);
    zd_app_state_diff := app_state_diff;
    zd_delegate := mkPk <$> update_to_option (u_delegate u);
    zd_verification_key := update_to_option (u_verification_key u);
    zd_permissions := update_to_option (u_permissions u);
    zd_zkapp_uri := update_to_option (u_zkapp_uri u);
    zd_token_symbol := mkSymbol <$> update_to_option (u_token_symbol u);
    zd_timing := update_to_option (u_timing u);
    zd_voting_for := mkSh <$> update_to_option (u_voting_for u);
    zd_actions := actions;
    zd_events := events |}).

(** [AccountDiff::from_command]: an account update and its direct calls. *)
Definition from_command (command : Command) : res (list (list AccountDiff)) :=
  match command with
  | CPayment p =>
    Ok [[DPayment (mkPaymentDiff Credit (p_receiver p) (p_amount p) token_default);
         DPayment (mkPaymentDiff (Debit (Some (nonce_add_u32 (p_nonce p) 1))) (p_source p)
                     (p_amount p) token_default)]]
  | CDelegation d =>
    Ok [[DDelegation (mkDelegationDiff (nonce_add_u32 (d_nonce d) 1) (d_delegator d)
                        (d_delegate d))]]
  | CZkapp z =>
    mapM (fun update =>
            mapM (diff_of_elt (zk_fee_payer_pk z) (zk_nonce z)) (update :: elt_calls update))
         (zk_account_updates z)
  end.

(** * Expansion of an aggregated zkapp diff *)

Definition expand_payment_diff (d : ZkappPaymentDiff) : AccountDiff :=
  match d with
  | ZPayment d => DPayment d
  | ZIncrementNonce d => DZkappIncrementNonce d
  | ZAccountCreationFee d => DZkappAccountCreationFee d
  end.

Definition expand_app_state_diff (z : ZkappDiff) : list AccountDiff :=
  if forallb (fun s => match s with None => true | Some _ => false end) (zd_app_state_diff z)
  then []
  else [DZkappState (mkZkappStateDiff (zd_token z) (zd_public_key z) (zd_proved_state z)
                       (zd_app_state_diff z))].

Definition expand_delegate_diff (z : ZkappDiff) : list AccountDiff :=
  match zd_delegate z with
  | Some d => [DDelegation (mkDelegationDiff (zd_nonce z) (zd_public_key z) d)]
  | None => [] end.

Definition expand_verification_key_diff (z : ZkappDiff) : list AccountDiff :=
  match zd_verification_key z with
  | Some vk => [DZkappVerificationKey
                  (mkZkappVkDiff (zd_token z) (zd_public_key z) (zd_proved_state z) vk)]
  | None => [] end.

Definition expand_permissions_diff (z : ZkappDiff) : list AccountDiff :=
  match zd_permissions z with
  | Some p => [DZkappPermissions (mkZkappPermDiff (zd_token z) (zd_public_key z) p)]
  | None => [] end.

Definition expand_uri_diff (z : ZkappDiff) : list AccountDiff :=
  match zd_zkapp_uri z with
  | Some u => [DZkappUri
                 (mkZkappUriDiff (zd_token z) (zd_public_key z) (zd_proved_state z) u)]
  | None => [] end.

Definition expand_symbol_diff (z : ZkappDiff) : list AccountDiff :=
  match zd_token_symbol z with
  | Some s => [DZkappTokenSymbol (mkZkappSymbolDiff (zd_token z) (zd_public_key z) s)]
  | None => [] end.

Definition expand_timing_diff (z : ZkappDiff) : list AccountDiff :=
  match zd_timing z with
  | Some t => [DZkappTiming (mkZkappTimingDiff (zd_token z) (zd_public_key z) t)]
  | None => [] end.

Definition expand_voting_for_diff (z : ZkappDiff) : list AccountDiff :=
  match zd_voting_for z with
  | Some h => [DZkappVotingFor (mkZkappVotingDiff (zd_token z) (zd_public_key z) h)]
  | None => [] end.

Definition expand_actions_diff (z : ZkappDiff) : list AccountDiff :=
  match zd_actions z with
  | [] => []
  | l => [DZkappActions
            (mkZkappActionsDiff (zd_token z) (zd_public_key z) (zd_proved_state z) l)]
  end.

Definition expand_events_diff (z : ZkappDiff) : list AccountDiff :=
  match zd_events z with
  | [] => []
  | l => [DZkappEvents (mkZkappEventsDiff (zd_token z) (zd_public_key z) l)]
  end.

(** [ZkappDiff::expand]: payments first, then one diff per changed field. *)
Definition zkapp_expand (z : ZkappDiff) : list AccountDiff :=
  (expand_payment_diff <$> zd_payment_diffs z) ++
  expand_app_state_diff z ++ expand_delegate_diff z ++ expand_verification_key_diff z ++
  expand_permissions_diff z ++ expand_uri_diff z ++ expand_symbol_diff z ++
  expand_timing_diff z ++ expand_voting_for_diff z ++ expand_actions_diff z ++
  expand_events_diff z.

Definition expand_diff (d : AccountDiff) : list AccountDiff :=
  match d with DZkapp z => zkapp_expand z | _ => [d] end.

Definition expand (diffs : list (list AccountDiff)) : list (list AccountDiff) :=
  (fun l => l ≫= expand_diff) <$> diffs.

(** [PaymentDiff::from_account_diff] and [PaymentDiff::unapply]. *)

Definition payments_of_diff (d : AccountDiff) : list PaymentDiff :=
  match d with
  | DZkapp z => omap (fun d => match d with ZPayment d => Some d | _ => None end)
                     (zd_payment_diffs z)
  | DPayment d | DFeeTransfer d | DFeeTransferViaCoinbase d => [d]
  | DCoinbase d => [mkPaymentDiff Credit (cd_public_key d) (cd_amount d) token_default]
  | _ => []
  end.

Definition payment_diff_unapply (d : PaymentDiff) : PaymentDiff :=
  if bool_decide (update_type d = Credit)
  then mkPaymentDiff (Debit None) (pd_public_key d) (pd_amount d) (pd_token d)
  else mkPaymentDiff Credit (pd_public_key d) (pd_amount d) (pd_token d).

(** * Fees

    The fee maps are [HashMap]s, whose iteration order is unspecified: an
    iterator is any function that lists the entries in some order. *)

Class HashMapIter := {
  hm_iter : gmap PublicKey Z -> list (PublicKey * Z);
  hm_iter_perm m : hm_iter m ≡ₚ map_to_list m
}.

Global Instance sorted_iter : HashMapIter.
Proof. by exists map_to_list. Defined.

(** [fee_map.entry(pk).and_modify(|acc| *acc += fee).or_insert(fee)] *)
Definition fee_map_add (m : gmap PublicKey Z) (e : PublicKey * Z) : gmap PublicKey Z :=
  <[e.1 := match m !! e.1 with Some acc => wrap64 (acc + e.2) | None => e.2 end]> m.

Definition fee_map (l : list (PublicKey * Z)) : gmap PublicKey Z := fold_left fee_map_add l ∅.

(** A fee transfer credits one account and debits another. *)
Definition fee_transfer_pair (to from : PublicKey) (fee : Z) : list AccountDiff :=
  [DFeeTransfer (mkPaymentDiff Credit to fee token_default);
   DFeeTransfer (mkPaymentDiff (Debit None) from fee token_default)].

(** Pairs for the non-zero entries. *)
Definition fee_pairs (pair : PublicKey -> Z -> list AccountDiff) (es : list (PublicKey * Z))
  : list (list AccountDiff) :=
  es ≫= fun e => if e.2 >? 0 then [pair e.1 e.2] else [].

Record SnarkWorkSummary := mkSnark { snark_fee : Amount; snark_prover : PublicKey }.

Section Fees.
Context `{HashMapIter}.

Definition transaction_fees (coinbase_receiver : PublicKey)
    (user_cmds : list UserCommandWithStatus) : list (list AccountDiff) :=
  fee_pairs (fun pk fee => fee_transfer_pair coinbase_receiver pk fee)
    (hm_iter (fee_map ((fun c => (fee_payer_pk c, fee c)) <$> user_cmds))).

Definition from_transaction_fees (coinbase_receiver : PublicKey)
    (pre post : list UserCommandWithStatus) : list (list AccountDiff) :=
  transaction_fees coinbase_receiver pre ++ transaction_fees coinbase_receiver post.

Definition from_snark_fees (coinbase_receiver : PublicKey) (snarks : list SnarkWorkSummary)
  : list (list AccountDiff) :=
  fee_pairs (fun prover fee => fee_transfer_pair prover coinbase_receiver fee)
    (hm_iter (fee_map ((fun s => (snark_prover s, snark_fee s)) <$> snarks))).

Definition from_block_fees (coinbase_receiver : PublicKey)
    (pre post : list UserCommandWithStatus) (snarks : list SnarkWorkSummary)
  : list (list AccountDiff) :=
  from_transaction_fees coinbase_receiver pre post ++
  from_snark_fees coinbase_receiver snarks.
End Fees.

(** [AccountDiff::from]: the diffs of one transaction given by its parties. *)
Inductive AccountDiffType :=
| TPayment (nonce : Nonce)
| TDelegation (nonce : Nonce)
| TCoinbase
| TFeeTransfer
| TFeeTransferViaCoinbase
| TZkapp (token : TokenAddress) (nonce : Nonce).

Definition credit_debit (mk : PaymentDiff -> AccountDiff) (sender receiver : string)
    (nonce : option Nonce) (amount : Z) : list AccountDiff :=
  [mk (mkPaymentDiff Credit (mkPk receiver) amount token_default);
   mk (mkPaymentDiff (Debit nonce) (mkPk sender) amount token_default)].

Definition diff_from (sender receiver : string) (t : AccountDiffType) (amount : Z)
  : list (list AccountDiff) :=
  match t with
  | TPayment nonce => [credit_debit DPayment sender receiver (Some nonce) amount]
  | TDelegation nonce =>
    [[DDelegation (mkDelegationDiff nonce (mkPk receiver) (mkPk sender))]]
  | TCoinbase => [[DCoinbase (mkCoinbaseDiff (mkPk sender) amount)]]
  | TFeeTransfer => [credit_debit DFeeTransfer sender receiver None amount]
  | TFeeTransferViaCoinbase =>
    [credit_debit DFeeTransferViaCoinbase sender receiver None amount]
  | TZkapp token nonce =>
    [[DZkapp {|
      zd_nonce := nonce; zd_token := token; zd_public_key := mkPk sender;
      zd_increment_nonce := false;
      zd_payment_diffs :=
        [ZPayment (mkPaymentDiff Credit (mkPk receiver) amount token);
         ZPayment (mkPaymentDiff (Debit (Some nonce)) (mkPk sender) amount token)];
      zd_proved_state := false;
      zd_app_state_diff := replicate ZKAPP_STATE_FIELD_ELEMENTS_NUM None;
      zd_delegate := None; zd_verification_key := None; zd_permissions := None;
      zd_zkapp_uri := None; zd_token_symbol := None; zd_timing := None;
      zd_voting_for := None; zd_actions := []; zd_events := [] |}]]
  end.

(** * Sums over the fee maps *)

Definition sumZ (l : list Z) : Z := foldr Z.add 0 l.

Lemma sumZ_cons x l : sumZ (x :: l) = x + sumZ l.
Proof. done. Qed.

Lemma sumZ_app l1 l2 : sumZ (l1 ++ l2) = sumZ l1 + sumZ l2.
Proof. induction l1; simpl; lia. Qed.

Lemma sumZ_perm l1 l2 : l1 ≡ₚ l2 -> sumZ l1 = sumZ l2.
Proof. induction 1; simpl; lia. Qed.

Lemma sumZ_nonneg l : Forall (fun x => 0 <= x) l -> 0 <= sumZ l.
Proof. induction 1; simpl; lia. Qed.

(** Sum of the entries, each weighted by its key. *)
Definition wsum (f : PublicKey -> Z) (es : list (PublicKey * Z)) : Z :=
  sumZ ((fun e => f e.1 * e.2) <$> es).

Definition one : PublicKey -> Z := fun _ => 1.
(** Weight 1 for the entries whose key is sent to [pk]. *)
Definition sent_to (g : PublicKey -> PublicKey) (pk : PublicKey) : PublicKey -> Z :=
  fun k => if bool_decide (g k = pk) then 1 else 0.

Lemma wsum_app f e1 e2 : wsum f (e1 ++ e2) = wsum f e1 + wsum f e2.
Proof. unfold wsum. by rewrite fmap_app, sumZ_app. Qed.

Lemma wsum_perm f e1 e2 : e1 ≡ₚ e2 -> wsum f e1 = wsum f e2.
Proof. intros H. unfold wsum. by rewrite (sumZ_perm _ _ (fmap_Permutation _ _ _ H)). Qed.

Lemma wsum_one_nonneg es : Forall (fun e => 0 <= e.2) es -> 0 <= wsum one es.
Proof.
  intros H. apply sumZ_nonneg, Forall_fmap. eapply Forall_impl; [apply H|].
  intros []; unfold one; simpl; lia.
Qed.

Definition map_wsum (f : PublicKey -> Z) (m : gmap PublicKey Z) : Z := wsum f (map_to_list m).

Lemma map_wsum_insert_None f m k v :
  m !! k = None -> map_wsum f (<[k:=v]> m) = f k * v + map_wsum f m.
Proof.
  intros Hk. unfold map_wsum. by rewrite (wsum_perm _ _ _ (map_to_list_insert m k v Hk)).
Qed.

Lemma map_wsum_insert_Some f m k v w :
  m !! k = Some w -> map_wsum f (<[k:=v]> m) = f k * (v - w) + map_wsum f m.
Proof.
  intros Hk. rewrite <- insert_delete_eq, map_wsum_insert_None by apply lookup_delete_eq.
  rewrite <- (insert_id m k w Hk) at 2. rewrite <- (insert_delete_eq m).
  rewrite map_wsum_insert_None by apply lookup_delete_eq. lia.
Qed.

Definition nonneg_map (m : gmap PublicKey Z) : Prop := map_Forall (fun _ v => 0 <= v) m.

Lemma nonneg_map_list m : nonneg_map m -> Forall (fun e => 0 <= e.2) (map_to_list m).
Proof.
  intros Hm. apply Forall_forall. intros [i w] Hi%elem_of_map_to_list. by eapply Hm.
Qed.

Lemma map_wsum_lookup m k v : nonneg_map m -> m !! k = Some v -> v <= map_wsum one m.
Proof.
  intros Hm Hk. rewrite <- (insert_id m k v Hk), <- insert_delete_eq.
  rewrite map_wsum_insert_None by apply lookup_delete_eq.
  enough (0 <= map_wsum one (delete k m)) by (unfold one in *; lia).
  apply wsum_one_nonneg, nonneg_map_list. intros i w [_ Hi]%lookup_delete_Some. by eapply Hm.
Qed.

Lemma fee_map_add_wsum m e :
  0 <= e.2 -> nonneg_map m -> map_wsum one m + e.2 <= U64_MAX ->
  nonneg_map (fee_map_add m e) /\
  forall f, map_wsum f (fee_map_add m e) = map_wsum f m + f e.1 * e.2.
Proof.
  destruct e as [k v]; simpl. intros Hv Hm Hs. unfold fee_map_add; simpl.
  destruct (m !! k) as [w|] eqn:E.
  - pose proof (map_wsum_lookup m k w Hm E). pose proof (Hm _ _ E).
    rewrite wrap64_id by (simpl in *; ints). split.
    + apply map_Forall_insert_2; [simpl in *; lia|done].
    + intros f. rewrite (map_wsum_insert_Some f m k _ w) by done. lia.
  - split; [by apply map_Forall_insert_2|].
    intros f. rewrite map_wsum_insert_None by done. lia.
Qed.

(** While the total stays in range no addition wraps: any weighted sum over the
    map is the weighted sum over the entries. *)
Lemma fee_map_wsum l m :
  Forall (fun e => 0 <= e.2) l -> nonneg_map m ->
  map_wsum one m + wsum one l <= U64_MAX ->
  nonneg_map (fold_left fee_map_add l m) /\
  forall f, map_wsum f (fold_left fee_map_add l m) = map_wsum f m + wsum f l.
Proof.
  intros Hl; revert m; induction Hl as [|e l Hv Hl IH]; intros m Hm Hs; csimpl in *.
  { split; [done|]. intros f. unfold wsum; simpl; lia. }
  pose proof (wsum_one_nonneg l Hl).
  assert (forall f, wsum f (e :: l) = f e.1 * e.2 + wsum f l) as Hc by done.
  rewrite Hc in Hs. unfold one at 2 in Hs.
  destruct (fee_map_add_wsum m e) as [Hm' Hs']; [done|done|lia|].
  destruct (IH (fee_map_add m e) Hm') as [Hm2 Hs2].
  { rewrite Hs'. unfold one at 2. lia. }
  split; [done|]. intros f. rewrite Hs2, Hs', Hc. lia.
Qed.

(** * Amounts credited to and debited from an account *)

Definition paid (credit : bool) (pk : PublicKey) (p : PaymentDiff) : Z :=
  if bool_decide (pd_public_key p = pk) && Bool.eqb (negb (is_debit (update_type p))) credit
  then pd_amount p else 0.

Definition credited (pk : PublicKey) (diffs : list (list AccountDiff)) : Z :=
  sumZ (paid true pk <$> (concat diffs ≫= payments_of_diff)).
Definition debited (pk : PublicKey) (diffs : list (list AccountDiff)) : Z :=
  sumZ (paid false pk <$> (concat diffs ≫= payments_of_diff)).

Lemma credited_app pk d1 d2 : credited pk (d1 ++ d2) = credited pk d1 + credited pk d2.
Proof. unfold credited. by rewrite concat_app, bind_app, fmap_app, sumZ_app. Qed.
Lemma debited_app pk d1 d2 : debited pk (d1 ++ d2) = debited pk d1 + debited pk d2.
Proof. unfold debited. by rewrite concat_app, bind_app, fmap_app, sumZ_app. Qed.

Lemma fee_pairs_paid (to_ from_ : PublicKey -> PublicKey) es pk :
  Forall (fun e => 0 <= e.2) es ->
  let diffs := fee_pairs (fun k fee => fee_transfer_pair (to_ k) (from_ k) fee) es in
  credited pk diffs = wsum (sent_to to_ pk) es /\ debited pk diffs = wsum (sent_to from_ pk) es.
Proof.
  induction 1 as [|[k v] es Hv _ [IHc IHd]]; [done|]. unfold fee_pairs in *. csimpl in *.
  rewrite credited_app, debited_app, IHc, IHd.
  unfold wsum, sent_to; csimpl.
  destruct (Z.gtb_spec v 0); unfold credited, debited, paid; simpl;
    repeat case_bool_decide; simpl; lia.
Qed.

Section FeeTotals.
Context `{HashMapIter}.

(** Fees aggregated in a map and paid by pairs, as entries. *)
Lemma fee_map_pairs_paid (to_ from_ : PublicKey -> PublicKey) l pk :
  Forall (fun e => 0 <= e.2) l -> wsum one l <= U64_MAX ->
  let diffs := fee_pairs (fun k fee => fee_transfer_pair (to_ k) (from_ k) fee)
                 (hm_iter (fee_map l)) in
  credited pk diffs = wsum (sent_to to_ pk) l /\ debited pk diffs = wsum (sent_to from_ pk) l.
Proof.
  intros Hl Hs diffs. subst diffs.
  destruct (fee_map_wsum l ∅ Hl) as [Hn Hw].
  { apply map_Forall_empty. }
  { unfold map_wsum. by rewrite map_to_list_empty. }
  destruct (fee_pairs_paid to_ from_ (hm_iter (fee_map l)) pk) as [-> ->].
  { unfold fee_map. rewrite hm_iter_perm. by apply nonneg_map_list. }
  unfold fee_map. rewrite !(wsum_perm _ _ _ (hm_iter_perm _)).
  fold (map_wsum (sent_to to_ pk) (fold_left fee_map_add l ∅)).
  fold (map_wsum (sent_to from_ pk) (fold_left fee_map_add l ∅)).
  rewrite !Hw. unfold map_wsum. by rewrite map_to_list_empty.
Qed.
End FeeTotals.

(** * Fees of a block, per account *)

(** Fees a user pays, and fees a prover earns. *)
Definition user_fees (cmds : list UserCommandWithStatus) : list (PublicKey * Z) :=
  (fun c => (fee_payer_pk c, fee c)) <$> cmds.
Definition prover_fees (snarks : list SnarkWorkSummary) : list (PublicKey * Z) :=
  (fun s => (snark_prover s, snark_fee s)) <$> snarks.

(** C20: Fees of a block, account by account, whatever the iteration order of the
    hash maps: each account is debited exactly the fees of the commands it pays
    for, the coinbase receiver is credited all of them, each prover is credited
    exactly the fees of its SNARK work and the coinbase receiver pays for all of
    it, as long as the fees of each phase fit 64 bits. *)
Theorem block_fees_per_account `{HashMapIter} (receiver pk : PublicKey)
    (pre post : list UserCommandWithStatus) (snarks : list SnarkWorkSummary) :
  Forall (fun e => 0 <= e.2) (user_fees pre) -> wsum one (user_fees pre) <= U64_MAX ->
  Forall (fun e => 0 <= e.2) (user_fees post) -> wsum one (user_fees post) <= U64_MAX ->
  Forall (fun e => 0 <= e.2) (prover_fees snarks) -> wsum one (prover_fees snarks) <= U64_MAX ->
  let diffs := from_block_fees receiver pre post snarks in
  let users := user_fees pre ++ user_fees post in
  credited pk diffs =
    wsum (sent_to (fun _ => receiver) pk) users + wsum (sent_to id pk) (prover_fees snarks) /\
  debited pk diffs =
    wsum (sent_to id pk) users + wsum (sent_to (fun _ => receiver) pk) (prover_fees snarks).
Proof.
  intros Hpre Spre Hpost Spost Hsn Ssn. unfold from_block_fees, from_transaction_fees.
  simpl. rewrite !credited_app, !debited_app, !wsum_app.
  pose proof (fee_map_pairs_paid (fun _ => receiver) id (user_fees pre) pk Hpre Spre) as [C1 D1].
  pose proof (fee_map_pairs_paid (fun _ => receiver) id (user_fees post) pk Hpost Spost)
    as [C2 D2].
  pose proof (fee_map_pairs_paid id (fun _ => receiver) (prover_fees snarks) pk Hsn Ssn)
    as [C3 D3].
  unfold transaction_fees, from_snark_fees.
  by rewrite <- C1, <- C2, <- C3, <- D1, <- D2, <- D3.
Qed.

(** * Expansion *)

Definition is_aggregated (d : AccountDiff) : bool :=
  match d with DZkapp _ => true | _ => false end.

Ltac expand_field :=
  unfold expand_app_state_diff, expand_delegate_diff, expand_verification_key_diff,
    expand_permissions_diff, expand_uri_diff, expand_symbol_diff, expand_timing_diff,
    expand_voting_for_diff, expand_actions_diff, expand_events_diff;
  repeat case_match; repeat constructor.

Lemma zkapp_expand_flat z : Forall (fun d => is_aggregated d = false) (zkapp_expand z).
Proof.
  unfold zkapp_expand. repeat apply Forall_app_2; [|expand_field..].
  apply Forall_fmap, Forall_forall. by intros [] _.
Qed.

Lemma zkapp_expand_payments z :
  zkapp_expand z ≫= payments_of_diff = payments_of_diff (DZkapp z).
Proof.
  unfold zkapp_expand. rewrite !bind_app.
  assert (forall l, (expand_payment_diff <$> l) ≫= payments_of_diff
    = omap (fun d => match d with ZPayment d => Some d | _ => None end) l) as ->.
  { intros l. induction l as [|[] l IH]; csimpl; by rewrite ?IH. }
  simpl. rewrite <- (app_nil_r (omap _ _)) at 2. f_equal.
  repeat (apply app_nil; split); expand_field.
Qed.

(** The payments of each transaction. *)
Definition txn_payments (diffs : list (list AccountDiff)) : list (list PaymentDiff) :=
  (fun txn => txn ≫= payments_of_diff) <$> diffs.

Lemma expand_keeps_payments diffs : txn_payments (expand diffs) = txn_payments diffs.
Proof.
  unfold txn_payments, expand. rewrite <- list_fmap_compose.
  apply list_fmap_ext; intros _ txn _; simpl.
  induction txn as [|d txn IH]; [done|]. csimpl. rewrite bind_app, IH. f_equal.
  destruct d; try done. apply zkapp_expand_payments.
Qed.

(** Expanding the diffs of a block keeps its transactions apart, leaves no
    aggregated zkapp diff behind (the case [apply_account_diff] cannot handle),
    keeps every payment of every transaction in order, and is idempotent. *)
Theorem expand_flat (diffs : list (list AccountDiff)) :
  length (expand diffs) = length diffs /\
  Forall (Forall (fun d => is_aggregated d = false)) (expand diffs) /\
  txn_payments (expand diffs) = txn_payments diffs /\
  expand (expand diffs) = expand diffs.
Proof.
  assert (forall txn, Forall (fun d => is_aggregated d = false) (txn ≫= expand_diff)) as Hf.
  { intros txn. apply Forall_bind, Forall_forall. intros d _.
    destruct d; try (by repeat constructor). apply zkapp_expand_flat. }
  split; [apply length_fmap|].
  split; [apply Forall_fmap, Forall_forall; intros txn _; apply Hf|].
  split; [apply expand_keeps_payments|].
  unfold expand. rewrite <- list_fmap_compose. apply list_fmap_ext; intros _ txn _; simpl.
  specialize (Hf txn). induction Hf as [|d l Hd _ IH]; [done|].
  csimpl. rewrite IH. by destruct d.
Qed.

(** * Net payments *)

Definition signed_amount (p : PaymentDiff) : Z :=
  if is_debit (update_type p) then - pd_amount p else pd_amount p.

(** What a list of transactions adds to the sum of all balances. *)
Definition net (diffs : list (list AccountDiff)) : Z :=
  sumZ ((fun ps => sumZ (signed_amount <$> ps)) <$> txn_payments diffs).

Lemma net_app d1 d2 : net (d1 ++ d2) = net d1 + net d2.
Proof. unfold net, txn_payments. by rewrite !fmap_app, sumZ_app. Qed.

Lemma net_fee_pairs (to_ from_ : PublicKey -> PublicKey) es :
  net (fee_pairs (fun k fee => fee_transfer_pair (to_ k) (from_ k) fee) es) = 0.
Proof.
  induction es as [|[k v] es IH]; [done|]. unfold fee_pairs in *. csimpl. rewrite net_app, IH.
  destruct (v >? 0); [|done]. unfold net; simpl. unfold signed_amount; simpl; lia.
Qed.

(** Fees only move money. *)
Lemma net_block_fees `{HashMapIter} receiver pre post snarks :
  net (from_block_fees receiver pre post snarks) = 0.
Proof.
  unfold from_block_fees, from_transaction_fees, transaction_fees, from_snark_fees.
  rewrite !net_app. pose proof (net_fee_pairs (fun _ => receiver) id) as Hu.
  pose proof (net_fee_pairs id (fun _ => receiver)) as Hs. unfold id in *.
  by rewrite !Hu, Hs.
Qed.

(** So do payments and delegations; zkapp commands may mint tokens. *)
Lemma net_from_command c diffs :
  match c with CZkapp _ => False | _ => True end -> from_command c = Ok diffs -> net diffs = 0.
Proof.
  destruct c; [| |done]; intros _ [= <-]; unfold net; simpl; [|done].
  unfold signed_amount; simpl; lia.
Qed.

Definition alice : PublicKey := mkPk "B62qre3erTHfzQckNuibViWQGyyKwZseztqrjPZBv6SQF384Rg6ESAy".
Definition bob : PublicKey := mkPk "B62qjYanmV7y9njVeH5UHkz3GYBm7xKir1rAnoY4KsEYUGLMiU45FSM".
Definition carol : PublicKey := mkPk "B62qs2YyNuo1LbNo5sbhPByDDAB7NZiLbqSLtHR4Vns5eZPYuJXgbHj".

Definition payment_example (from to : PublicKey) (fee nonce amount : Z) : UserCommandWithStatus :=
  UCV2 (SignedCommandData (mkCommon fee from nonce [] "") (PaymentV2 to amount) from)
    (Applied None None).

Lemma block_fees_per_account_witness :
  let diffs := from_block_fees carol
    [payment_example alice bob 10 0 500; payment_example alice bob 5 1 500]
    [payment_example bob alice 7 0 100] [mkSnark 3 alice; mkSnark 0 bob; mkSnark 4 alice] in
  credited carol diffs = 22 /\ debited carol diffs = 7.
Proof.
  intros diffs.
  assert (credited carol diffs = 22 + 0 /\ debited carol diffs = 0 + 7) as H.
  { apply (block_fees_per_account carol carol
      [payment_example alice bob 10 0 500; payment_example alice bob 5 1 500]
      [payment_example bob alice 7 0 100] [mkSnark 3 alice; mkSnark 0 bob; mkSnark 4 alice]);
      first [by repeat constructor; simpl; lia | vm_compute; discriminate]. }
  exact H.
Defined.

(** An update and its direct calls, without what those call. *)
Definition prune (e : Elt) : Elt :=
  mkElt (elt_body e) ((fun c => mkElt (elt_body c) []) <$> elt_calls e).

Lemma mapM_res_fmap {A B C} (f : B -> res C) (g : A -> B) l :
  mapM f (g <$> l) = mapM (fun a => f (g a)) l.
Proof.
  induction l as [|a l IH]; [done|]. rewrite fmap_cons. simpl.
  destruct (f (g a)); [|done..]. simpl in *. by rewrite <- IH.
Qed.

Lemma diff_of_elt_body fp n e calls : diff_of_elt fp n (mkElt (elt_body e) calls) = diff_of_elt fp n e.
Proof. by destruct e. Qed.

(** The diffs of a zkapp command are computed from each account update and its
    direct calls only: account updates nested two or more levels deep have no
    effect on any account. *)
Theorem nested_calls_dropped memo payer fee nonce (updates : list Elt) rest :
  from_command (CZkapp (mkZkappCommand memo payer fee nonce updates rest)) =
  from_command (CZkapp (mkZkappCommand memo payer fee nonce (prune <$> updates) rest)).
Proof.
  simpl. rewrite mapM_res_fmap. apply mapM_res_ext. intros e _.
  change (prune e :: elt_calls (prune e)) with
    (prune e :: ((fun c => mkElt (elt_body c) []) <$> elt_calls e)).
  csimpl. rewrite mapM_res_fmap. unfold prune at 1. rewrite diff_of_elt_body.
  by rewrite (mapM_res_ext (fun a => diff_of_elt payer nonce (mkElt (elt_body a) []))
    (diff_of_elt payer nonce)) by (intros; apply diff_of_elt_body).
Qed.
