(* ===== verification/Account.v ===== *)
(** Accounts (src/rust/src/ledger/account/mod.rs): the account record, every
    operation that applies or unapplies an account diff, the time-locked
    balance, and the order on accounts.  [Self { field, ..self }] is written with
    one setter per field. *)

From S2P Require Import Prelude Bytes Base Command AccountDiff.

(** * Data *)

Record Account := mkAccount {
  acct_public_key : PublicKey;
  acct_balance : Amount;
  acct_delegate : PublicKey;
  acct_genesis : bool;
  acct_nonce : option Nonce;
  acct_token : option TokenAddress;
  acct_receipt_chain_hash : option string;
  acct_voting_for : option StateHash;
  acct_permissions : option Permissions;
  acct_timing : option Timing;
  acct_token_symbol : option TokenSymbol;
  acct_zkapp : option ZkappAccount;
  acct_username : option string
}.

Global Instance Account_eq_dec : EqDecision Account.
Proof. solve_decision. Defined.

Definition with_balance (f : Amount -> Amount) (a : Account) : Account :=
  let '(mkAccount pk b d g n t r v p ti s z u) := a in mkAccount pk (f b) d g n t r v p ti s z u.
Definition with_delegate (d : PublicKey) (a : Account) : Account :=
  let '(mkAccount pk b _ g n t r v p ti s z u) := a in mkAccount pk b d g n t r v p ti s z u.
Definition with_nonce (n : option Nonce) (a : Account) : Account :=
  let '(mkAccount pk b d g _ t r v p ti s z u) := a in mkAccount pk b d g n t r v p ti s z u.
Definition with_voting_for (v : option StateHash) (a : Account) : Account :=
  let '(mkAccount pk b d g n t r _ p ti s z u) := a in mkAccount pk b d g n t r v p ti s z u.
Definition with_permissions (p : option Permissions) (a : Account) : Account :=
  let '(mkAccount pk b d g n t r v _ ti s z u) := a in mkAccount pk b d g n t r v p ti s z u.
Definition with_timing (ti : option Timing) (a : Account) : Account :=
  let '(mkAccount pk b d g n t r v p _ s z u) := a in mkAccount pk b d g n t r v p ti s z u.
Definition with_token_symbol (s : option TokenSymbol) (a : Account) : Account :=
  let '(mkAccount pk b d g n t r v p ti _ z u) := a in mkAccount pk b d g n t r v p ti s z u.
Definition with_zkapp (z : option ZkappAccount) (a : Account) : Account :=
  let '(mkAccount pk b d g n t r v p ti s _ u) := a in mkAccount pk b d g n t r v p ti s z u.
Definition with_username (u : option string) (a : Account) : Account :=
  let '(mkAccount pk b d g n t r v p ti s z _) := a in mkAccount pk b d g n t r v p ti s z u.

Definition account_default : Account :=
  mkAccount pk_default 0 pk_default false None None None None None None None None None.

(** [Account::empty]: the account delegates to itself. *)
Definition account_empty (pk : PublicKey) (token : TokenAddress) : Account :=
  mkAccount pk 0 pk false None (Some token) None None None None None None None.

(** * Views *)

Definition is_zkapp_account (a : Account) : bool :=
  match acct_zkapp a with Some _ => true | None => false end.

Definition display (a : Account) : Account :=
  with_balance (fun b => amount_sub_u64 b MAINNET_ACCOUNT_CREATION_FEE) a.

(** Time-locked balance at a slot; [u32] division panics on a zero divisor and
    the product of [u64]s wraps. *)
Definition current_minimum_balance (a : Account) (curr_global_slot : Z) : res Z :=
  match acct_timing a with
  | None => Ok 0
  | Some t =>
    if curr_global_slot <? cliff_time t then Ok (initial_minimum_balance t)
    else
      _ ← rust_assert (negb (vesting_period t =? 0));
      Ok (saturating_sub (initial_minimum_balance t)
            (wrap64 ((curr_global_slot - cliff_time t) / vesting_period t
                     * vesting_increment t)))
  end.

(** [Ord]: by balance, then by public key. *)
Definition account_cmp (a b : Account) : comparison :=
  match acct_balance a ?= acct_balance b with
  | Eq => pk_compare (acct_public_key a) (acct_public_key b)
  | c => c
  end.

(** [From<GenesisBlock>]: the account of the genesis block creator. *)
Definition account_of_genesis (block_creator : PublicKey) : Account :=
  mkAccount block_creator 1000 block_creator true None None None None None None None None None.

Definition set_username (a : Account) (username : string) : res Account :=
  Ok (with_username (Some username) a).

(** * Applying diffs *)

Definition coinbase (a : Account) (amount : Amount) : Account :=
  with_balance (fun b => amount_add b amount) a.
Definition coinbase_unapply (a : Account) (d : CoinbaseDiff) : Account :=
  with_balance (fun b => amount_sub b (cd_amount d)) a.

Definition option_or {A} (a b : option A) : option A :=
  match a with Some _ => a | None => b end.

Definition debit (a : Account) (amount : Amount) (nonce : option Nonce) : Account :=
  with_nonce (option_or nonce (acct_nonce a)) (with_balance (fun b => amount_sub b amount) a).
Definition credit (a : Account) (amount : Amount) : Account :=
  with_balance (fun b => amount_add b amount) a.

Definition payment (a : Account) (d : PaymentDiff) : Account :=
  match update_type d with
  | Credit => credit a (pd_amount d)
  | Debit nonce => debit a (pd_amount d) nonce
  end.

Definition nonce_unapply (current : option Nonce) (nonce : Nonce) : option Nonce :=
  if bool_decide (current = Some 0) then None else Some (nonce_sub_u32 nonce 1).

Definition payment_unapply (a : Account) (d : PaymentDiff) : Account :=
  match update_type d with
  | Credit => with_balance (fun b => amount_sub b (pd_amount d)) a
  | Debit nonce =>
    with_nonce (match nonce with
                | None => acct_nonce a
                | Some n => nonce_unapply (acct_nonce a) n
                end)
      (with_balance (fun b => amount_add b (pd_amount d)) a)
  end.

Definition delegation (a : Account) (delegate : PublicKey) (updated_nonce : Nonce) : Account :=
  with_nonce (Some updated_nonce) (with_delegate delegate a).
Definition delegation_unapply (a : Account) (d : DelegationDiff) : Account :=
  with_nonce (nonce_unapply (acct_nonce a) (dd_nonce d))
    (with_delegate (acct_public_key a) a).

Definition failed_transaction (a : Account) (updated_nonce : Nonce) : Account :=
  with_nonce (Some updated_nonce) a.
Definition failed_transaction_unapply (a : Account) (d : FailedTransactionNonceDiff) : Account :=
  with_nonce (if fd_nonce d >? 0 then Some (nonce_sub_u32 (fd_nonce d) 1) else None) a.

(** ** Zkapp diffs

    [checks] only logs a mismatch of public key or token, so it has no effect. *)

Definition zkapp_of (a : Account) (proved : bool) : ZkappAccount :=
  default (zkapp_from_proved_state proved) (acct_zkapp a).

Definition set_proved (proved : bool) (z : ZkappAccount) : ZkappAccount :=
  if proved then
    mkZkappAccount (app_state z) (action_state z) (verification_key z) true (zkapp_uri z)
      (zkapp_version z) (last_action_slot z)
  else z.

(** [array[i] = v]: out of range panics. *)
Definition array_set {A} (i : nat) (v : A) (l : list A) : res (list A) :=
  if decide (i < length l)%nat then Ok (<[i := v]> l) else Panic.

Definition set_app_state (st : list string) (e : nat * option string) : res (list string) :=
  match e.2 with Some v => array_set e.1 v st | None => Ok st end.

Definition zkapp_state (a : Account) (d : ZkappStateDiff) : res Account :=
  let z := zkapp_of a (sd_proved_state d) in
  st ← foldM set_app_state (app_state z) (enumerate (sd_diffs d));
  Ok (with_zkapp (Some (set_proved (sd_proved_state d)
    (mkZkappAccount st (action_state z) (verification_key z) (proved_state z) (zkapp_uri z)
       (zkapp_version z) (last_action_slot z)))) a).

Definition zkapp_verification_key (a : Account) (d : ZkappVerificationKeyDiff) : Account :=
  let z := zkapp_of a (vd_proved_state d) in
  with_zkapp (Some (set_proved (vd_proved_state d)
    (mkZkappAccount (app_state z) (action_state z) (vd_verification_key d) (proved_state z)
       (zkapp_uri z) (zkapp_version z) (last_action_slot z)))) a.

Definition zkapp_permissions (a : Account) (d : ZkappPermissionsDiff) : Account :=
  with_permissions (Some (pmd_permissions d)) a.

Definition zkapp_uri_apply (a : Account) (d : ZkappUriDiff) : Account :=
  let z := zkapp_of a (ud_proved_state d) in
  with_zkapp (Some (set_proved (ud_proved_state d)
    (mkZkappAccount (app_state z) (action_state z) (verification_key z) (proved_state z)
       (ud_zkapp_uri d) (zkapp_version z) (last_action_slot z)))) a.

Definition zkapp_token_symbol (a : Account) (d : ZkappTokenSymbolDiff) : Account :=
  with_token_symbol (Some (tsd_token_symbol d)) a.

Definition zkapp_timing (a : Account) (d : ZkappTimingDiff) : Account :=
  with_timing (Some (td_timing d)) a.

Definition zkapp_voting_for (a : Account) (d : ZkappVotingForDiff) : Account :=
  with_voting_for (Some (vfd_voting_for d)) a.

(** [action_state[idx % n]]: the remainder by zero panics. *)
Definition set_action_state (n : nat) (st : list string) (e : nat * string)
  : res (list string) :=
  if decide (n = 0%nat) then Panic else array_set (e.1 mod n) e.2 st.

Definition zkapp_actions (a : Account) (d : ZkappActionsDiff) : res Account :=
  let z := zkapp_of a (ad_proved_state d) in
  st ← foldM (set_action_state (length (action_state z))) (action_state z)
         (enumerate (ad_actions d));
  Ok (with_zkapp (Some (set_proved (ad_proved_state d)
    (mkZkappAccount (app_state z) st (verification_key z) (proved_state z) (zkapp_uri z)
       (zkapp_version z) (last_action_slot z)))) a).

Definition zkapp_events (a : Account) (d : ZkappEventsDiff) : Account := a.

Definition zkapp_nonce (a : Account) (d : ZkappIncrementNonce) : Account :=
  with_nonce (Some (nonce_add_u32 (default 0 (acct_nonce a)) 1)) a.

Definition zkapp_account_creation (a : Account) (d : ZkappAccountCreationFee) : res Account :=
  _ ← rust_assert (cfd_amount d =? MAINNET_ACCOUNT_CREATION_FEE);
  Ok (with_balance (fun b => amount_add b (cfd_amount d)) a).

Definition apply_account_diff (a : Account) (d : AccountDiff) : res Account :=
  match d with
  | DPayment d | DFeeTransfer d | DFeeTransferViaCoinbase d => Ok (payment a d)
  | DDelegation d =>
    _ ← rust_assert (bool_decide (acct_public_key a = delegator d));
    Ok (delegation a (delegate_to d) (dd_nonce d))
  | DCoinbase d => Ok (coinbase a (cd_amount d))
  | DFailedTransactionNonce d => Ok (failed_transaction a (fd_nonce d))
  | DZkappState d => zkapp_state a d
  | DZkappPermissions d => Ok (zkapp_permissions a d)
  | DZkappVerificationKey d => Ok (zkapp_verification_key a d)
  | DZkappUri d => Ok (zkapp_uri_apply a d)
  | DZkappTokenSymbol d => Ok (zkapp_token_symbol a d)
  | DZkappTiming d => Ok (zkapp_timing a d)
  | DZkappVotingFor d => Ok (zkapp_voting_for a d)
  | DZkappActions d => zkapp_actions a d
  | DZkappEvents d => Ok (zkapp_events a d)
  | DZkappIncrementNonce d => Ok (zkapp_nonce a d)
  | DZkappAccountCreationFee d => zkapp_account_creation a d
  | DZkapp _ => Panic
  end.

(** [None] when the account is removed; zkapp diffs are not unapplied. *)
Definition unapply_account_diff (a : Account) (d : AccountDiff) (remove : bool)
  : res (option Account) :=
  if remove then Ok None else
  match d with
  | DPayment d | DFeeTransfer d | DFeeTransferViaCoinbase d => Ok (Some (payment_unapply a d))
  | DDelegation d => Ok (Some (delegation_unapply a d))
  | DCoinbase d => Ok (Some (coinbase_unapply a d))
  | DFailedTransactionNonce d => Ok (Some (failed_transaction_unapply a d))
  | DZkapp _ => Panic
  | _ => Ok (Some a)
  end.

(** * Well-formedness

    What the Rust types guarantee: widths of integers and lengths of arrays. *)

Definition zkapp_wf (z : ZkappAccount) : Prop :=
  length (app_state z) = ZKAPP_STATE_FIELD_ELEMENTS_NUM /\ length (action_state z) = 5%nat.

Definition account_wf (a : Account) : Prop :=
  u64 (acct_balance a) /\ from_option u32 True (acct_nonce a) /\
  from_option zkapp_wf True (acct_zkapp a).

Definition update_type_wf (u : UpdateType) : Prop :=
  match u with Debit (Some n) => u32 n | _ => True end.

Definition diff_wf (d : AccountDiff) : Prop :=
  match d with
  | DPayment d | DFeeTransfer d | DFeeTransferViaCoinbase d =>
    u64 (pd_amount d) /\ update_type_wf (update_type d)
  | DDelegation d => u32 (dd_nonce d)
  | DCoinbase d => u64 (cd_amount d)
  | DFailedTransactionNonce d => u32 (fd_nonce d)
  | DZkappState d => length (sd_diffs d) = ZKAPP_STATE_FIELD_ELEMENTS_NUM
  | DZkappAccountCreationFee d => u64 (cfd_amount d)
  | _ => True
  end.

(** The assertions of [apply_account_diff]. *)
Definition applicable (a : Account) (d : AccountDiff) : bool :=
  match d with
  | DDelegation d => bool_decide (acct_public_key a = delegator d)
  | DZkappAccountCreationFee d => cfd_amount d =? MAINNET_ACCOUNT_CREATION_FEE
  | DZkapp _ => false
  | _ => true
  end.

(** * Lemmas *)

Lemma zkapp_of_wf a proved : account_wf a -> zkapp_wf (zkapp_of a proved).
Proof. intros (_ & _ & Hz). unfold zkapp_of. by destruct (acct_zkapp a). Qed.

Lemma set_proved_wf proved z : zkapp_wf z -> zkapp_wf (set_proved proved z).
Proof. by destruct proved. Qed.

(** Indices produced by [enumerate] are in range of the list. *)
Lemma enumerate_lt {A} (l : list A) e : e ∈ enumerate l -> (e.1 < length l)%nat.
Proof.
  destruct e as [i x]. intros H%elem_of_zip_l. apply elem_of_seq in H. simpl. lia.
Qed.

(** A loop that writes in-range cells of an array succeeds and keeps its length. *)
Lemma foldM_array {A B} (f : list A -> B -> res (list A)) l st n :
  (forall st e, e ∈ l -> length st = n -> exists st', f st e = Ok st' /\ length st' = n) ->
  length st = n -> exists st', foldM f st l = Ok st' /\ length st' = n.
Proof.
  revert st; induction l as [|e l IH]; intros st Hf Hst; [by exists st|].
  destruct (Hf st e) as (st' & E & Hst'); [left|done|].
  simpl. rewrite E. simpl. apply IH; [|done]. intros; apply Hf; [by right|done].
Qed.

Lemma array_set_ok {A} i (v : A) l n :
  (i < n)%nat -> length l = n -> exists l', array_set i v l = Ok l' /\ length l' = n.
Proof.
  intros Hi Hl. unfold array_set. rewrite decide_True by lia.
  exists (<[i:=v]> l). by rewrite length_insert.
Qed.

Lemma zkapp_state_ok a d :
  account_wf a -> length (sd_diffs d) = ZKAPP_STATE_FIELD_ELEMENTS_NUM ->
  exists z, zkapp_state a d = Ok (with_zkapp (Some z) a) /\ zkapp_wf z.
Proof.
  intros Ha Hd. unfold zkapp_state.
  destruct (zkapp_of_wf a (sd_proved_state d) Ha) as [Hz1 Hz2].
  destruct (foldM_array set_app_state (enumerate (sd_diffs d))
    (app_state (zkapp_of a (sd_proved_state d))) ZKAPP_STATE_FIELD_ELEMENTS_NUM)
    as (st & -> & Hst); [|done|].
  - intros st [i [v|]] Hi%enumerate_lt Hst; unfold set_app_state; simpl in *; [|by eauto].
    apply array_set_ok; [lia|done].
  - eexists; split; [done|]. by apply set_proved_wf.
Qed.

Lemma zkapp_actions_ok a d :
  account_wf a -> exists z, zkapp_actions a d = Ok (with_zkapp (Some z) a) /\ zkapp_wf z.
Proof.
  intros Ha. unfold zkapp_actions.
  destruct (zkapp_of_wf a (ad_proved_state d) Ha) as [Hz1 Hz2]. rewrite Hz2.
  destruct (foldM_array (set_action_state 5) (enumerate (ad_actions d))
    (action_state (zkapp_of a (ad_proved_state d))) 5) as (st & -> & Hst); [|done|].
  - intros st [i v] _ Hst. unfold set_action_state; simpl. apply array_set_ok; [|done].
    pose proof (Nat.mod_upper_bound i 5). simpl in *; lia.
  - eexists; split; [done|]. by apply set_proved_wf.
Qed.

Lemma with_zkapp_wf a z : account_wf a -> zkapp_wf z -> account_wf (with_zkapp (Some z) a).
Proof. intros (?&?&?) ?. by destruct a. Qed.

Lemma with_nonce_wf a n : account_wf a -> u32 n -> account_wf (with_nonce (Some n) a).
Proof. intros (?&?&?) ?. by destruct a. Qed.

Lemma with_balance_wf a f :
  account_wf a -> (forall b, u64 b -> u64 (f b)) -> account_wf (with_balance f a).
Proof. intros (?&?&?) ?. destruct a. split; [simpl; auto|done]. Qed.

#[export] Hint Resolve with_zkapp_wf with_nonce_wf with_balance_wf zkapp_of_wf
  set_proved_wf : indexer.

Lemma payment_wf a d :
  account_wf a -> u64 (pd_amount d) /\ update_type_wf (update_type d) -> account_wf (payment a d).
Proof.
  intros Ha [Hd Hu]. unfold payment, credit, debit. destruct (update_type d) as [[n|]|]; simpl in *.
  - apply with_nonce_wf; [|done]. apply with_balance_wf; [done|].
    intros. apply amount_sub_range; unfold u64 in *; lia.
  - replace (with_nonce _ _) with (with_balance (fun b => amount_sub b (pd_amount d)) a)
      by (by destruct a). apply with_balance_wf; [done|].
    intros. apply amount_sub_range; unfold u64 in *; lia.
  - eauto with indexer.
Qed.

(** * Properties *)

Lemma apply_account_diff_ok a d :
  account_wf a -> diff_wf d -> applicable a d = true ->
  exists a', apply_account_diff a d = Ok a' /\ account_wf a' /\
    acct_public_key a' = acct_public_key a /\ acct_token a' = acct_token a.
Proof.
  intros Ha Hd. destruct d as [p|dl|c|p|p|f| |st|pm|vk|ur|sy|ti|vo|ac|ev|i|cf]; simpl in *;
    intros Happ.
  all: try (eexists; split; [done|]; split; [|by destruct a];
            first [by destruct a | done]).
  all: try (exists (payment a p); split; [done|]; split; [by apply payment_wf|];
            unfold payment; destruct (update_type p); by destruct a).
  - rewrite Happ. eexists; split; [done|]. split; [|by destruct a].
    unfold delegation. apply with_nonce_wf; [|done]. by destruct a.
  - eexists; split; [done|]. split; [|by destruct a]. unfold coinbase. auto with indexer.
  - eexists; split; [done|]. split; [|by destruct a]. by apply with_nonce_wf.
  - destruct (zkapp_state_ok a st Ha Hd) as (z & -> & Hz).
    eexists; split; [done|]. split; [auto with indexer|by destruct a].
  - eexists; split; [done|]. split; [|by destruct a].
    apply with_zkapp_wf, set_proved_wf; [done|]. by apply (zkapp_of_wf a).
  - eexists; split; [done|]. split; [|by destruct a].
    apply with_zkapp_wf, set_proved_wf; [done|]. by apply (zkapp_of_wf a).
  - destruct (zkapp_actions_ok a ac Ha) as (z & -> & Hz).
    eexists; split; [done|]. split; [auto with indexer|by destruct a].
  - eexists; split; [done|]. split; [|by destruct a]. apply with_nonce_wf; [done|].
    apply nonce_add_range; [|ints]. destruct Ha as (_ & Hn & _).
    destruct (acct_nonce a); simpl in *; [done|ints].
  - unfold zkapp_account_creation. rewrite Happ. simpl.
    eexists; split; [done|]. split; [auto with indexer|by destruct a].
Qed.

(** C39: An account diff of the widths the types guarantee either applies, giving an
    account of the same key and token that is again well formed, or violates
    one of the assertions (a delegation of another account, a creation fee other
    than the protocol's, an unexpanded zkapp diff) and panics; no array access
    or remainder of the zkapp updates can fail. *)
Theorem apply_account_diff_safe a d :
  account_wf a -> diff_wf d ->
  if applicable a d
  then exists a', apply_account_diff a d = Ok a' /\ account_wf a' /\
         acct_public_key a' = acct_public_key a /\ acct_token a' = acct_token a
  else apply_account_diff a d = Panic.
Proof.
  intros Ha Hd. destruct (applicable a d) eqn:E; [by apply apply_account_diff_ok|].
  destruct d; try discriminate E; simpl in *; unfold zkapp_account_creation; by rewrite ?E.
Qed.

(** ** Undoing a diff *)

(** The nonce before a transaction that set it to [n]. *)
Definition prev_nonce (n : Nonce) : option Nonce := if n =? 0 then None else Some (n - 1).

(** When exactly undoing a diff restores the account it was applied to. *)
Definition reversible (a : Account) (d : AccountDiff) : Prop :=
  match d with
  | DPayment p | DFeeTransfer p | DFeeTransferViaCoinbase p =>
    match update_type p with
    | Credit => acct_balance a + pd_amount p <= U64_MAX
    | Debit n => pd_amount p <= acct_balance a /\
                 from_option (fun n => acct_nonce a = prev_nonce n) True n
    end
  | DDelegation p => acct_nonce a = prev_nonce (dd_nonce p) /\
                     acct_delegate a = acct_public_key a
  | DCoinbase p => acct_balance a + cd_amount p <= U64_MAX
  | DFailedTransactionNonce p => acct_nonce a = prev_nonce (fd_nonce p)
  | _ => apply_account_diff a d = Ok a
  end.

Lemma credit_debit_id b amt :
  u64 b -> u64 amt -> amount_sub (amount_add b amt) amt = b <-> b + amt <= U64_MAX.
Proof.
  intros Hb Ha. split; [|intros; by apply amount_add_sub].
  intros E. destruct (decide (b + amt <= U64_MAX)) as [|Hn]; [done|].
  unfold amount_sub, amount_add, wrap64 in E.
  rewrite <- (Z_mod_plus_full _ (-1)), Z.mod_small in E by ints. ints.
Qed.

Lemma debit_credit_id b amt :
  u64 b -> u64 amt -> amount_add (amount_sub b amt) amt = b <-> amt <= b.
Proof.
  intros Hb Ha. split; [|intros; by apply amount_sub_add].
  intros E. destruct (decide (amt <= b)) as [|Hn]; [done|].
  unfold amount_sub, amount_add in E. rewrite wrap64_id in E by ints. ints.
Qed.

Lemma nonce_unapply_prev n : u32 n -> nonce_unapply (Some n) n = prev_nonce n.
Proof.
  intros Hn. unfold nonce_unapply, prev_nonce, nonce_sub_u32.
  case_bool_decide; destruct (Z.eqb_spec n 0); try (done || congruence). f_equal. ints.
Qed.

Lemma payment_unapply_payment a p :
  account_wf a -> u64 (pd_amount p) /\ update_type_wf (update_type p) ->
  payment_unapply (payment a p) p = a <->
  match update_type p with
  | Credit => acct_balance a + pd_amount p <= U64_MAX
  | Debit n => pd_amount p <= acct_balance a /\
               from_option (fun n => acct_nonce a = prev_nonce n) True n
  end.
Proof.
  intros (Hb & _ & _) [Hp Hu]. unfold payment, payment_unapply.
  destruct a as [pk b dl g n t r v pm ti s z u]; simpl in *.
  destruct (update_type p) as [[m|]|]; simpl in *.
  - rewrite nonce_unapply_prev by done. rewrite <- debit_credit_id by done.
    split; [intros [= E1 E2]; split; [done|congruence]|intros [E1 E2]; congruence].
  - rewrite <- debit_credit_id by done.
    split; [intros [= E]; split; [exact E|done]|intros [E _]; congruence].
  - rewrite <- credit_debit_id by done.
    split; [intros [= E]; exact E|intros E; congruence].
Qed.

Lemma unapply_apply_exact a d a' :
  account_wf a -> diff_wf d -> apply_account_diff a d = Ok a' ->
  unapply_account_diff a' d false = Ok (Some a) <-> reversible a d.
Proof.
  intros Ha Hd E.
  assert (forall x : Account, Ok (Some x) = Ok (Some a) <-> x = a) as Hinj
    by (intros; split; congruence).
  assert (forall x : Account, Ok x = Ok a <-> x = a) as Hinj' by (intros; split; congruence).
  destruct d; try (simpl in *; injection E as <-; rewrite Hinj; by apply payment_unapply_payment);
    try (unfold reversible; rewrite E, Hinj'; simpl; rewrite Hinj; done).
  - simpl in *. case_bool_decide; [|done]. injection E as <-. rewrite Hinj.
    destruct a; unfold delegation, delegation_unapply; simpl in *.
    rewrite nonce_unapply_prev by done.
    split; [intros [= E1 E2]; split; congruence|intros [E1 E2]; congruence].
  - simpl in *. injection E as <-. rewrite Hinj. destruct Ha as (Hb & _ & _).
    rewrite <- credit_debit_id by done. destruct a; unfold coinbase, coinbase_unapply; simpl.
    split; [intros [= E]; exact E|intros E; congruence].
  - simpl in *. injection E as <-. rewrite Hinj.
    destruct a; unfold failed_transaction, failed_transaction_unapply, prev_nonce; simpl.
    destruct (Z.gtb_spec (fd_nonce d) 0), (Z.eqb_spec (fd_nonce d) 0); try ints;
      unfold nonce_sub_u32, saturating_sub.
    + rewrite Z.max_r by lia. split; [intros [= E]|intros E]; congruence.
    + split; [intros [= E]|intros E]; congruence.
  - discriminate E.
Qed.

(** C21: Undoing a diff right after applying it restores the account exactly when
    the diff is [reversible]: no balance wrapped or was clamped at zero, the nonce was the
    predecessor of the one the transaction set, a delegator delegated to itself,
    and a zkapp diff changed nothing.  (A debit beyond the balance, a first
    transaction of an account without nonce, and a re-delegation are not restored.) *)
Theorem unapply_apply_iff a d a' :
  account_wf a -> diff_wf d -> apply_account_diff a d = Ok a' ->
  unapply_account_diff a' d false = Ok (Some a) <-> reversible a d.
Proof. apply unapply_apply_exact. Qed.

Definition account_example : Account :=
  with_nonce (Some 4) (with_balance (fun _ => 1000) (account_empty alice token_default)).

Lemma apply_account_diff_safe_witness :
  exists a', apply_account_diff account_example
    (DPayment (mkPaymentDiff (Debit (Some 5)) alice 300 token_default)) = Ok a' /\
  acct_balance a' = 700 /\ account_wf a'.
Proof.
  destruct (apply_account_diff_safe account_example
    (DPayment (mkPaymentDiff (Debit (Some 5)) alice 300 token_default)))
    as (a' & E & Hwf & _); [vm_compute; repeat split; discriminate..|].
  exists a'. split; [exact E|]. split; [|exact Hwf]. by injection E as <-.
Defined.

(** A payment is undone, a second delegation is not. *)
Lemma unapply_apply_iff_witness :
  let pay := DPayment (mkPaymentDiff (Debit (Some 5)) alice 300 token_default) in
  let del := DDelegation (mkDelegationDiff 5 alice carol) in
  (exists a', apply_account_diff account_example pay = Ok a' /\
     unapply_account_diff a' pay false = Ok (Some account_example)) /\
  (exists a', apply_account_diff (with_delegate bob account_example) del = Ok a' /\
     unapply_account_diff a' del false <> Ok (Some (with_delegate bob account_example))).
Proof.
  intros pay del. split; eexists; (split; [reflexivity|]).
  - refine (proj2 (unapply_apply_iff account_example pay _ _ _ eq_refl) _);
      vm_compute; repeat split; discriminate.
  - intros H. refine (_ (proj1 (unapply_apply_iff (with_delegate bob account_example) del _ _ _
      eq_refl) H)); [intros [_ Hd]; vm_compute in Hd; discriminate
      |vm_compute; repeat split; discriminate..].
Defined.

(** ** Time-locked balance *)

(** The documented schedule: [cliff_amount] is released at the cliff, then one
    increment per vesting period. *)
Definition documented_minimum_balance (t : Timing) (slot : Z) : Z :=
  if slot <? cliff_time t then initial_minimum_balance t
  else Z.max 0 (initial_minimum_balance t - cliff_amount t
                - (slot - cliff_time t) / vesting_period t * vesting_increment t).

(** C40: The time-locked balance of an account with a schedule whose vesting period is positive, at a slot by which the vested amount fits
    64 bits, is computed without a panic: it is the initial minimum before the cliff, and from the cliff on what is left of
    it after one increment for each whole period since.  It does not grow over time, and against the documented schedule it is
    never less and exceeds it by at most [cliff_amount], which the code never releases: the two agree exactly before the
    cliff, when that amount is zero and when nothing is left to vest.  With a period of zero the code panics from the cliff on. *)
Theorem minimum_balance_vesting a t slot :
  acct_timing a = Some t -> 0 <= initial_minimum_balance t -> 0 <= vesting_increment t -> 0 <= vesting_period t -> 0 <= cliff_amount t ->
  (slot - cliff_time t) / vesting_period t * vesting_increment t <= U64_MAX ->
  (vesting_period t = 0 -> cliff_time t <= slot -> current_minimum_balance a slot = Panic) /\
  (0 < vesting_period t -> exists m, current_minimum_balance a slot = Ok m /\
    (slot < cliff_time t -> m = initial_minimum_balance t) /\
    (cliff_time t <= slot ->
      m = Z.max 0 (initial_minimum_balance t - (slot - cliff_time t) / vesting_period t * vesting_increment t)) /\
    (forall s, s <= slot -> exists m', current_minimum_balance a s = Ok m' /\ m <= m' <= initial_minimum_balance t) /\
    documented_minimum_balance t slot <= m <= documented_minimum_balance t slot + cliff_amount t /\
    (m = documented_minimum_balance t slot <-> slot < cliff_time t \/ cliff_amount t = 0 \/ m = 0)).
Proof.
  intros Ht Hi Hv Hp Hc Hf. unfold current_minimum_balance, documented_minimum_balance. rewrite Ht. split.
  { intros -> Hs. by destruct (Z.ltb_spec slot (cliff_time t)); [lia|]. }
  intros Hp'. replace (vesting_period t =? 0) with false by lia. cbn [negb rust_assert mbind res_bind].
  set (q s := (s - cliff_time t) / vesting_period t) in *. fold (q slot) in Hf.
  assert (forall s, cliff_time t <= s -> s <= slot ->
    wrap64 (q s * vesting_increment t) = q s * vesting_increment t /\ 0 <= q s * vesting_increment t <= q slot * vesting_increment t) as Hq.
  { intros s Hcs Hle. assert (0 <= q s) by (apply Z.div_pos; lia). assert (q s <= q slot) by (apply Z.div_le_mono; lia).
    rewrite wrap64_id by (unfold u64; nia). nia. }
  destruct (Z.ltb_spec slot (cliff_time t)) as [Hs|Hs].
  - eexists. split; [done|]. split_and!; try lia. intros s Hle. destruct (Z.ltb_spec s (cliff_time t)); [|lia]. eexists. split; [done|lia].
  - destruct (Hq slot) as (E & Hq0 & _); [lia..|]. fold (q slot). rewrite E. unfold saturating_sub. eexists. split; [done|]. split_and!; try lia.
    intros s Hle. destruct (Z.ltb_spec s (cliff_time t)); [eexists; split; [done|lia]|]. destruct (Hq s) as (Es & Hq1 & Hq2); [lia..|].
    fold (q s). rewrite Es. eexists. split; [done|lia].
Qed.

Definition vesting_example : Account :=
  with_timing (Some (mkTiming 100 10 400 50 1000)) account_example.

(** Five increments of 50 are vested, the 400 of the cliff are not. *)
Lemma minimum_balance_vesting_witness :
  current_minimum_balance vesting_example 155 = Ok 750 /\ documented_minimum_balance (mkTiming 100 10 400 50 1000) 155 = 350.
Proof.
  destruct (minimum_balance_vesting vesting_example (mkTiming 100 10 400 50 1000) 155) as [_ H];
    [vm_compute; first [reflexivity|discriminate]..|].
  destruct H as (m & E & _ & Hm & _); [vm_compute; reflexivity|]. split; [|vm_compute; reflexivity].
  rewrite E, Hm by (vm_compute; discriminate). vm_compute. reflexivity.
Defined.
