(* ===== verification/Coinbase.v ===== *)
(** Coinbases (src/rust/src/ledger/coinbase.rs): the coinbase of a block, its fee
    transfers, and the account diffs and internal command it stands for. *)

From S2P Require Import Prelude Bytes Base Command AccountDiff.

(** * Data *)

Record CoinbaseFeeTransfer := mkFeeTransfer { ft_receiver_pk : PublicKey; ft_fee : Z }.

Inductive CoinbaseKind :=
| CBZero
| CBOne (ft : option CoinbaseFeeTransfer)
| CBTwo (fst snd : option CoinbaseFeeTransfer).

Record Coinbase := mkCoinbase {
  cb_kind : CoinbaseKind;
  cb_receiver : PublicKey;
  cb_supercharge : bool;
  cb_is_new_account : bool;
  cb_receiver_balance : option Z
}.

Global Instance CoinbaseFeeTransfer_eq_dec : EqDecision CoinbaseFeeTransfer.
Proof. solve_decision. Defined.
Global Instance CoinbaseKind_eq_dec : EqDecision CoinbaseKind.
Proof. solve_decision. Defined.

(** The coinbase of a staged ledger diff, in the two block versions. *)
Inductive CoinbaseV1 :=
| V1None
| V1Coinbase (ft : option CoinbaseFeeTransfer)
| V1CoinbaseAndFeeTransferViaCoinbase (fst snd : option CoinbaseFeeTransfer).

Inductive CoinbaseV2 :=
| V2Zero
| V2One (ft : option CoinbaseFeeTransfer)
| V2Two (two : option (CoinbaseFeeTransfer * option CoinbaseFeeTransfer)).

Definition kind_of_v1 (c : CoinbaseV1) : CoinbaseKind :=
  match c with
  | V1None => CBZero
  | V1Coinbase ft => CBOne ft
  | V1CoinbaseAndFeeTransferViaCoinbase fst snd => CBTwo fst snd
  end.

Definition kind_of_v2 (c : CoinbaseV2) : CoinbaseKind :=
  match c with
  | V2Zero => CBZero
  | V2One one => CBOne one
  | V2Two None => CBTwo None None
  | V2Two (Some (fst, snd)) => CBTwo (Some fst) snd
  end.

(** * The derived order, used to pick the coinbase of a block *)

Definition ft_compare (a b : CoinbaseFeeTransfer) : comparison :=
  match pk_compare (ft_receiver_pk a) (ft_receiver_pk b) with
  | Eq => ft_fee a ?= ft_fee b
  | c => c
  end.

Definition option_compare {A} (cmp : A -> A -> comparison) (a b : option A) : comparison :=
  match a, b with
  | None, None => Eq
  | None, Some _ => Lt
  | Some _, None => Gt
  | Some a, Some b => cmp a b
  end.

Definition kind_compare (a b : CoinbaseKind) : comparison :=
  match a, b with
  | CBZero, CBZero => Eq
  | CBZero, _ => Lt
  | CBOne _, CBZero => Gt
  | CBOne a, CBOne b => option_compare ft_compare a b
  | CBOne _, CBTwo _ _ => Lt
  | CBTwo a1 a2, CBTwo b1 b2 =>
    match option_compare ft_compare a1 b1 with
    | Eq => option_compare ft_compare a2 b2
    | c => c
    end
  | CBTwo _ _, _ => Gt
  end.

(** [Iterator::max]: the last of the maximal elements. *)
Definition max_kind (l : list CoinbaseKind) : option CoinbaseKind :=
  match l with
  | [] => None
  | k :: l => Some (fold_left (fun m k => match kind_compare m k with Gt => m | _ => k end) l k)
  end.

(** * Operations *)

Definition coinbase_amount (c : Coinbase) : Z :=
  if cb_supercharge c then 2 * MAINNET_COINBASE_REWARD else MAINNET_COINBASE_REWARD.

Definition get_transfers (c : Coinbase) : list CoinbaseFeeTransfer :=
  omap id (match cb_kind c with
           | CBZero => []
           | CBOne coinbase => [coinbase]
           | CBTwo coinbase via => [coinbase; via]
           end).

Definition create_payment_diffs (c : Coinbase) (t : CoinbaseFeeTransfer) : list PaymentDiff :=
  [mkPaymentDiff Credit (ft_receiver_pk t) (ft_fee t) token_default;
   mkPaymentDiff (Debit None) (cb_receiver c) (ft_fee t) token_default].

Definition fee_transfer (c : Coinbase) : list (list PaymentDiff) :=
  create_payment_diffs c <$> get_transfers c.

Definition is_coinbase_applied (c : Coinbase) : bool :=
  match cb_kind c with CBZero => false | _ => true end.

Definition has_fee_transfer (c : Coinbase) : bool :=
  match get_transfers c with [] => false | _ => true end.

(** The test of [find]: a fee transfer pair equal to the first coinbase transfer. *)
Definition is_transfer (ft : list (list PaymentDiff)) (txn : list AccountDiff) : res bool :=
  match txn with
  | [DFeeTransfer credit; DFeeTransfer debit] =>
    t ← expect_some (ft !! 0%nat);
    t0 ← expect_some (t !! 0%nat);
    if bool_decide (t0 = credit) then
      t1 ← expect_some (t !! 1%nat); Ok (bool_decide (t1 = debit))
    else Ok false
  | _ => Ok false
  end.

(** The first such pair is turned into a transfer via coinbase. *)
Fixpoint coinbase_mut (ft : list (list PaymentDiff)) (diffs : list (list AccountDiff))
  : res (list (list AccountDiff)) :=
  match diffs with
  | [] => Ok []
  | txn :: diffs =>
    found ← is_transfer ft txn;
    if (found : bool) then
      t ← expect_some (ft !! 0%nat);
      t0 ← expect_some (t !! 0%nat);
      t1 ← expect_some (t !! 1%nat);
      Ok ([DFeeTransferViaCoinbase t0; DFeeTransferViaCoinbase t1] :: diffs)
    else
      rest ← coinbase_mut ft diffs; Ok (txn :: rest)
  end.

Definition account_diffs_coinbase_mut (c : Coinbase) (diffs : list (list AccountDiff))
  : res (list (list AccountDiff)) :=
  coinbase_mut (fee_transfer c) diffs.

(** [AccountDiff::from_coinbase] *)
Definition from_coinbase (c : Coinbase) : list (list AccountDiff) :=
  [DCoinbase (mkCoinbaseDiff (cb_receiver c) (coinbase_amount c))] ::
  (map (map DFeeTransferViaCoinbase) (fee_transfer c)).

Definition as_account_diff (c : Coinbase) : list (list AccountDiff) :=
  if is_coinbase_applied c then from_coinbase c else [].

(** The internal command of a coinbase: receiver and amount. *)
Definition as_internal_cmd (c : Coinbase) : PublicKey * Z :=
  (cb_receiver c,
   if cb_supercharge c then 2 * MAINNET_COINBASE_REWARD else MAINNET_COINBASE_REWARD).

(** * Properties *)

Lemma has_fee_transfer_first c :
  has_fee_transfer c = true ->
  exists t rest, fee_transfer c = create_payment_diffs c t :: rest.
Proof.
  unfold has_fee_transfer, fee_transfer. destruct (get_transfers c) as [|t l]; [done|].
  intros _. by exists t, (create_payment_diffs c <$> l).
Qed.

Lemma coinbase_mut_spec t0 t1 rest diffs :
  exists diffs', coinbase_mut ([t0; t1] :: rest) diffs = Ok diffs' /\
    Forall2 (fun d d' => d' = d \/
      (d = [DFeeTransfer t0; DFeeTransfer t1] /\
       d' = [DFeeTransferViaCoinbase t0; DFeeTransferViaCoinbase t1])) diffs diffs'.
Proof.
  induction diffs as [|txn diffs (diffs' & IH & HF)]; [by exists []|].
  assert (exists b, is_transfer ([t0; t1] :: rest) txn = Ok b /\
            (b = true -> txn = [DFeeTransfer t0; DFeeTransfer t1])) as (b & Eb & Hb).
  { unfold is_transfer. repeat case_match; try (by exists false). simplify_eq/=.
    case_bool_decide; [|by exists false]. eexists; split; [done|].
    intros ?%bool_decide_eq_true. by subst. }
  cbn [coinbase_mut]. rewrite Eb. cbn [mbind res_bind]. destruct b.
  - eexists; split; [reflexivity|]. constructor; [right; by rewrite Hb|].
    apply Forall_Forall2_diag, Forall_forall. by left.
  - rewrite IH. eexists; split; [reflexivity|]. constructor; [by left|done].
Qed.

Lemma coinbase_mut_payments c diffs :
  has_fee_transfer c = true ->
  exists diffs', account_diffs_coinbase_mut c diffs = Ok diffs' /\
    txn_payments diffs' = txn_payments diffs.
Proof.
  intros (t & rest & E)%has_fee_transfer_first. unfold account_diffs_coinbase_mut.
  rewrite E. unfold create_payment_diffs.
  edestruct (coinbase_mut_spec) as (diffs' & -> & HF). exists diffs'. split; [done|].
  unfold txn_payments. clear E.
  induction HF as [|d d' l l' [->|[-> ->]] _ IH]; csimpl; [done|by f_equal|].
  by f_equal.
Qed.

(** Marking the fee transfer of a coinbase as paid via the coinbase cannot panic
    when the coinbase has one, keeps the number of transactions, and moves
    no money: every transaction keeps exactly its payments. *)
Theorem coinbase_mut_keeps_payments c diffs :
  has_fee_transfer c = true ->
  exists diffs', account_diffs_coinbase_mut c diffs = Ok diffs' /\
    length diffs' = length diffs /\ txn_payments diffs' = txn_payments diffs.
Proof.
  intros (diffs' & E & Hp)%(coinbase_mut_payments c diffs). exists diffs'. split_and!; [done| |done].
  apply (f_equal length) in Hp. unfold txn_payments in Hp. by rewrite !length_fmap in Hp.
Qed.

Definition coinbase_example : Coinbase :=
  mkCoinbase (CBOne (Some (mkFeeTransfer bob 1000))) alice false false None.

Lemma coinbase_mut_keeps_payments_witness :
  exists diffs', account_diffs_coinbase_mut coinbase_example
      [fee_transfer_pair carol alice 7; fee_transfer_pair bob alice 1000] = Ok diffs' /\
    length diffs' = 2%nat.
Proof.
  destruct (coinbase_mut_keeps_payments coinbase_example
    [fee_transfer_pair carol alice 7; fee_transfer_pair bob alice 1000] eq_refl)
    as (d & E & L & _). exists d. by split.
Defined.
