(* ===== verification/Precomputed.v ===== *)
(** Precomputed blocks (src/rust/src/block/precomputed/mod.rs): the parts of a
    block of either version that the ledger is computed from, and the accessors over them.
    The protocol state is the record of the values its accessors return; version
    wrappers ([.t]) are erased. *)

From S2P Require Import Prelude Bytes Base Command AccountDiff Account Coinbase.

(** * Data *)

Inductive InternalCommandBalanceData :=
| IBCoinbase (coinbase_receiver_balance : Z)
| IBFeeTransfer (receiver1_balance : Z) (receiver2_balance : option Z).

Record DiffV1 := mkDiffV1 {
  dv1_completed_works : list SnarkWorkSummary;
  dv1_commands : list UserCommandWithStatus;
  dv1_coinbase : CoinbaseV1;
  dv1_internal_command_balances : list InternalCommandBalanceData
}.

Record DiffV2 := mkDiffV2 {
  dv2_completed_works : list SnarkWorkSummary;
  dv2_commands : list UserCommandWithStatus;
  dv2_coinbase : CoinbaseV2
}.

(** An account touched by a block, as post-hardfork blocks list it. *)
Record AccountAccessedV2 := mkAccessed {
  aa_balance : Z;
  aa_nonce : Nonce;
  aa_public_key : PublicKey;
  aa_receipt_chain_hash : string;
  aa_delegate : option PublicKey;
  aa_token_id : TokenAddress;
  aa_token_symbol : TokenSymbol;
  aa_voting_for : string;
  aa_permissions : Permissions;
  aa_timing : option Timing;
  aa_zkapp : option ZkappAccount
}.

Record BlockHeader := mkHeader {
  bh_network : string;
  bh_state_hash : StateHash;
  bh_blockchain_length : Z;
  bh_scheduled_time : Z;
  bh_previous_state_hash : StateHash;
  bh_staged_ledger_hash : LedgerHash;
  bh_genesis_state_hash : StateHash;
  bh_timestamp : Z;
  bh_total_currency : Z;
  bh_block_creator : PublicKey;
  bh_block_stake_winner : PublicKey;
  bh_coinbase_receiver : PublicKey;
  bh_supercharge_coinbase : bool;
  bh_global_slot_since_genesis : Z;
  bh_epoch_count : Z;
  bh_last_vrf_output : list Z
}.

Inductive PrecomputedBlock :=
| PcbV1 (h : BlockHeader) (pre : DiffV1) (post : option DiffV1)
| PcbV2 (h : BlockHeader) (diff : list (option DiffV2))
        (accounts_accessed : list (Z * AccountAccessedV2))
        (accounts_created : list ((PublicKey * TokenAddress) * string)).

Definition header (b : PrecomputedBlock) : BlockHeader :=
  match b with PcbV1 h _ _ => h | PcbV2 h _ _ _ => h end.

Definition state_hash (b : PrecomputedBlock) : StateHash := bh_state_hash (header b).
Definition blockchain_length (b : PrecomputedBlock) : Z := bh_blockchain_length (header b).
Definition previous_state_hash (b : PrecomputedBlock) : StateHash :=
  bh_previous_state_hash (header b).
Definition staged_ledger_hash (b : PrecomputedBlock) : LedgerHash :=
  bh_staged_ledger_hash (header b).
Definition block_creator (b : PrecomputedBlock) : PublicKey := bh_block_creator (header b).
Definition block_stake_winner (b : PrecomputedBlock) : PublicKey :=
  bh_block_stake_winner (header b).
Definition coinbase_receiver (b : PrecomputedBlock) : PublicKey :=
  bh_coinbase_receiver (header b).
Definition supercharge_coinbase (b : PrecomputedBlock) : bool :=
  bh_supercharge_coinbase (header b).

(** * Staged ledger diff *)

Definition commands_pre_diff (b : PrecomputedBlock) : res (list UserCommandWithStatus) :=
  match b with
  | PcbV1 _ pre _ => Ok (dv1_commands pre)
  | PcbV2 _ diff _ _ =>
    d ← expect_some (diff !! 0%nat); Ok (from_option dv2_commands [] d)
  end.

Definition commands_post_diff (b : PrecomputedBlock) : res (list UserCommandWithStatus) :=
  match b with
  | PcbV1 _ _ post => Ok (from_option dv1_commands [] post)
  | PcbV2 _ diff _ _ =>
    d ← expect_some (diff !! 1%nat); Ok (from_option dv2_commands [] d)
  end.

Definition commands (b : PrecomputedBlock) : res (list UserCommandWithStatus) :=
  pre ← commands_pre_diff b; post ← commands_post_diff b; Ok (pre ++ post).

Definition completed_works_pre_diff (b : PrecomputedBlock) : res (list SnarkWorkSummary) :=
  match b with
  | PcbV1 _ pre _ => Ok (dv1_completed_works pre)
  | PcbV2 _ diff _ _ =>
    d ← expect_some (diff !! 0%nat); d ← expect_some d; Ok (dv2_completed_works d)
  end.

Definition completed_works_post_diff (b : PrecomputedBlock)
  : res (option (list SnarkWorkSummary)) :=
  match b with
  | PcbV1 _ _ post => Ok (option_map dv1_completed_works post)
  | PcbV2 _ diff _ _ =>
    d ← expect_some (diff !! 1%nat); Ok (option_map dv2_completed_works d)
  end.

Definition completed_works (b : PrecomputedBlock) : res (list SnarkWorkSummary) :=
  post ← completed_works_post_diff b; pre ← completed_works_pre_diff b;
  Ok (default [] post ++ pre).

(** [Iterator::sum] of [u64]s wraps. *)
Definition sum64 (l : list Z) : Z := fold_left (fun acc x => wrap64 (acc + x)) l 0.

Definition tx_fees (b : PrecomputedBlock) : res Z :=
  cmds ← commands b; Ok (sum64 (fee <$> cmds)).
Definition snark_fees (b : PrecomputedBlock) : res Z :=
  works ← completed_works b; Ok (sum64 (snark_fee <$> works)).

Definition pre_diff_coinbase (b : PrecomputedBlock) : res CoinbaseKind :=
  match b with
  | PcbV1 _ pre _ => Ok (kind_of_v1 (dv1_coinbase pre))
  | PcbV2 _ diff _ _ =>
    d ← expect_some (diff !! 0%nat); d ← expect_some d; Ok (kind_of_v2 (dv2_coinbase d))
  end.

Definition post_diff_coinbase (b : PrecomputedBlock) : res (option CoinbaseKind) :=
  match b with
  | PcbV1 _ _ post => Ok (option_map (fun d => kind_of_v1 (dv1_coinbase d)) post)
  | PcbV2 _ diff _ _ =>
    d ← expect_some (diff !! 1%nat); Ok (option_map (fun d => kind_of_v2 (dv2_coinbase d)) d)
  end.

(** The balance of the first coinbase among the internal commands of the pre-diff. *)
Definition coinbase_receiver_balance (b : PrecomputedBlock) : option Z :=
  match b with
  | PcbV1 _ pre _ =>
    head (omap (fun i => match i with IBCoinbase bal => Some bal | _ => None end)
            (dv1_internal_command_balances pre))
  | PcbV2 _ _ _ _ => None
  end.

Definition internal_command_balances (b : PrecomputedBlock) : list InternalCommandBalanceData :=
  match b with
  | PcbV1 _ pre _ => dv1_internal_command_balances pre
  | PcbV2 _ _ _ _ => []
  end.

Definition fee_transfer_balances (b : PrecomputedBlock) : list (Z * option Z) :=
  omap (fun i => match i with IBFeeTransfer r1 r2 => Some (r1, r2) | _ => None end)
    (internal_command_balances b).

(** [CoinbaseKind::from_precomputed] *)
Definition kinds_from_precomputed (b : PrecomputedBlock) : res (list CoinbaseKind) :=
  pre ← pre_diff_coinbase b; post ← post_diff_coinbase b;
  Ok (pre :: match post with Some k => [k] | None => [] end).

(** [From<(u64, v2::AccountAccessed)>] *)
Definition account_of_accessed (a : AccountAccessedV2) : Account :=
  {| acct_public_key := aa_public_key a;
     acct_balance := aa_balance a;
     acct_nonce := Some (aa_nonce a);
     acct_delegate := default (aa_public_key a) (aa_delegate a);
     acct_genesis := false;
     acct_token := Some (aa_token_id a);
     acct_token_symbol := Some (aa_token_symbol a);
     acct_receipt_chain_hash := Some (aa_receipt_chain_hash a);
     acct_voting_for := Some (mkSh (aa_voting_for a));
     acct_permissions := Some (aa_permissions a);
     acct_timing := aa_timing a;
     acct_zkapp := aa_zkapp a;
     acct_username := None |}.

Definition accounts_accessed_of (b : PrecomputedBlock) : list (Account * Z) :=
  match b with
  | PcbV1 _ _ _ => []
  | PcbV2 _ _ accessed _ => (fun e => (account_of_accessed e.2, e.1)) <$> accessed
  end.

(** * Accounts created

    [Amount::from_str] parses a decimal with the [rust_decimal] crate, scales it to
    nanomina and converts it to [u64]. *)

Class Decimal := { decimal_scaled : string -> res (option Z) }.

Record AccountCreated := mkCreated {
  ac_public_key : PublicKey;
  ac_token : TokenAddress;
  ac_creation_fee : Amount
}.

Notation NewBalances := (gmap PublicKey (gmap TokenAddress Z)).

Section Created.
Context `{Decimal}.

Definition amount_from_str (s : string) : res Amount :=
  amt ← decimal_scaled s; expect_some amt.

Definition account_created_from (c : (PublicKey * TokenAddress) * string) : res AccountCreated :=
  fee ← expect (amount_from_str c.2); Ok (mkCreated c.1.1 c.1.2 fee).

Definition accounts_created_v2 (b : PrecomputedBlock) : res (list AccountCreated) :=
  match b with
  | PcbV1 _ _ _ => Ok []
  | PcbV2 _ _ _ created => mapM account_created_from created
  end.

(** Accounts a pre-hardfork command creates: its fee payer, or else its receiver. *)
Definition created_by_command (m : NewBalances) (cmd : UserCommandWithStatus)
  : res NewBalances :=
  let status := status_data cmd in
  match status_fee_payer_account_creation_fee_paid status with
  | Some _ =>
    Ok (<[fee_payer_pk cmd :=
           {[ token_default := default 0 (status_fee_payer_balance status) ]}]> m)
  | None =>
    match status_receiver_account_creation_fee_paid status with
    | Some _ =>
      rcv ← expect_some (head (receiver cmd));
      Ok (<[rcv := {[ token_default := default 0 (status_receiver_balance status) ]}]> m)
    | None => Ok m
    end
  end.

Definition created_v2 (m : NewBalances) (c : AccountCreated) : NewBalances :=
  <[ac_public_key c := <[ac_token c := ac_creation_fee c]>
      (default ∅ (m !! ac_public_key c))]> m.

(** A coinbase receiver whose balance is one reward less the creation fee is new. *)
Definition new_coinbase_balance (bal : Z) : bool :=
  (bal =? MAINNET_COINBASE_REWARD - MAINNET_ACCOUNT_CREATION_FEE) ||
  (bal =? 2 * MAINNET_COINBASE_REWARD - MAINNET_ACCOUNT_CREATION_FEE).

Definition accounts_created (b : PrecomputedBlock) : res (NewBalances * option PublicKey) :=
  let '(balances, new_receiver) :=
    match coinbase_receiver_balance b with
    | Some bal =>
      if new_coinbase_balance bal
      then ({[ coinbase_receiver b := {[ token_default := bal ]} ]}, Some (coinbase_receiver b))
      else (∅, None)
    | None => (∅, None)
    end in
  balances ← match b with
             | PcbV1 _ _ _ => cmds ← commands b; foldM created_by_command balances cmds
             | PcbV2 _ _ _ _ =>
               created ← accounts_created_v2 b; Ok (fold_left created_v2 created balances)
             end;
  Ok (balances, new_receiver).

(** [Coinbase::from_precomputed] *)
Definition coinbase_from_precomputed (b : PrecomputedBlock) : res Coinbase :=
  kinds ← kinds_from_precomputed b;
  kind ← expect_some (max_kind kinds);
  created ← accounts_created b;
  Ok (mkCoinbase kind (coinbase_receiver b) (supercharge_coinbase b)
        (match created.2 with Some _ => true | None => false end)
        (coinbase_receiver_balance b)).
End Created.

(** * Public keys *)

(** The derived order on public keys, and [sort] of a hash set. *)
Definition pk_le (a b : PublicKey) : Prop := pk_compare a b <> Gt.
Global Instance pk_le_dec : RelDecision pk_le.
Proof. intros a b. unfold pk_le. solve_decision. Defined.

Definition sort_pks (s : gset PublicKey) : list PublicKey := merge_sort pk_le (elements s).

Definition command_pks (c : UserCommandWithStatus) : list PublicKey :=
  [sender c; fee_payer_pk c; signer c] ++ receiver c.

Definition consensus_public_keys (b : PrecomputedBlock) : gset PublicKey :=
  {[ block_creator b; coinbase_receiver b; block_stake_winner b ]}.

(** [add_keys] *)
Definition add_keys (s : gset PublicKey) (pks : list PublicKey) : gset PublicKey :=
  s ∪ list_to_set pks.

Definition all_command_public_keys (b : PrecomputedBlock) : res (list PublicKey) :=
  cmds ← commands b;
  Ok (sort_pks (fold_left (fun s c => add_keys s (command_pks c)) cmds
                  (consensus_public_keys b))).

Definition prover_keys (b : PrecomputedBlock) : res (list PublicKey) :=
  works ← completed_works b;
  Ok (sort_pks (fold_left (fun s w => s ∪ {[snark_prover w]}) works (consensus_public_keys b))).

Definition active_public_keys `{Decimal} (b : PrecomputedBlock) : res (list PublicKey) :=
  coinbase ← coinbase_from_precomputed b;
  cmds ← commands b;
  let keys : gset PublicKey := {[ block_creator b; block_stake_winner b ]} in
  let keys := if is_coinbase_applied coinbase then keys ∪ {[ coinbase_receiver b ]} else keys in
  Ok (sort_pks (fold_left (fun s c => add_keys s (command_pks c))
                  (filter (fun c => is_applied c = true) cmds) keys)).

Definition all_public_keys (b : PrecomputedBlock) : res (list PublicKey) :=
  cmds ← all_command_public_keys b;
  provers ← prover_keys b;
  Ok (sort_pks (add_keys (list_to_set cmds) provers)).

(** * Usernames *)

Definition MINA_EXPLORER_NAME_SERVICE_ADDRESS : string :=
  "B62qjzJvc59DdG9ahht9rwxkEz7GedKuUMsnaVTuXFUeANKqfBeWpRE".
Definition MINA_SEARCH_NAME_SERVICE_ADDRESS : string :=
  "B62qjMINASEARCHMINASEARCHMINASEARCHMINASEARCHMINASEARCH".
Definition NAME_SERVICE_MEMO_PREFIX : string := "Name: ".

Definition is_name_service (pk : PublicKey) : bool :=
  String.eqb (pk_str pk) MINA_EXPLORER_NAME_SERVICE_ADDRESS ||
  String.eqb (pk_str pk) MINA_SEARCH_NAME_SERVICE_ADDRESS.

Definition username_of_command (updates : gmap PublicKey string) (c : UserCommandWithStatus)
  : res (gmap PublicKey string) :=
  if is_applied c then
    rcv ← expect_some (head (receiver c));
    m ← memo c;
    Ok (if starts_with m NAME_SERVICE_MEMO_PREFIX && is_name_service rcv
        then <[sender c := string_of_bytes (drop (str_len NAME_SERVICE_MEMO_PREFIX) (as_bytes m))]>
               updates
        else updates)
  else Ok updates.

Definition username_updates (b : PrecomputedBlock) : res (gmap PublicKey string) :=
  cmds ← commands b; foldM username_of_command ∅ cmds.

(** * Properties *)

Lemma pk_compare_antisym a b : pk_compare b a = CompOpp (pk_compare a b).
Proof. apply lex_compare_antisym. Qed.

Lemma pk_compare_eq a b : pk_compare a b = Eq <-> a = b.
Proof.
  unfold pk_compare. rewrite str_compare_eq. destruct a, b; simpl. split; congruence.
Qed.

Global Instance pk_le_total : Total pk_le.
Proof.
  intros a b. unfold pk_le. rewrite (pk_compare_antisym a b).
  destruct (pk_compare a b); simpl; auto.
Qed.

Global Instance pk_le_trans : Transitive pk_le.
Proof. intros a b c. unfold pk_le, pk_compare, str_compare. apply lex_le_trans. Qed.

Global Instance pk_le_antisymm : AntiSymm (=) pk_le.
Proof.
  intros a b Hab Hba. unfold pk_le in *. rewrite (pk_compare_antisym a b) in Hba.
  destruct (pk_compare a b) eqn:E; simpl in *; [by apply pk_compare_eq|done|done].
Qed.

(** Sorting the keys of a set: sorted, without duplicates, the same keys. *)
Lemma sort_pks_spec s :
  StronglySorted pk_le (sort_pks s) /\ NoDup (sort_pks s) /\ forall pk, pk ∈ sort_pks s <-> pk ∈ s.
Proof.
  unfold sort_pks. split; [apply (StronglySorted_merge_sort pk_le)|].
  pose proof (merge_sort_Permutation pk_le (elements s)) as Hp.
  split; [rewrite Hp; apply NoDup_elements|]. intros pk. by rewrite Hp, elem_of_elements.
Qed.

Lemma elem_of_fold_keys {A} (f : A -> list PublicKey) l s pk :
  pk ∈ fold_left (fun s c => add_keys s (f c)) l s <->
  pk ∈ s \/ exists c, c ∈ l /\ pk ∈ f c.
Proof.
  revert s; induction l as [|c l IH]; intros s; simpl.
  - split; [by left|]. intros [?|(?&?%elem_of_nil&_)]; done.
  - rewrite IH. unfold add_keys. rewrite elem_of_union, elem_of_list_to_set.
    setoid_rewrite elem_of_cons. naive_solver.
Qed.

(** The active public keys of a block are sorted and distinct, and are exactly the
    block creator, the stake winner, the coinbase receiver when the coinbase is
    applied, and the sender, fee payer, signer and receivers of each applied
    command. *)
Theorem active_public_keys_spec `{Decimal} b coinbase cmds :
  coinbase_from_precomputed b = Ok coinbase -> commands b = Ok cmds ->
  exists pks, active_public_keys b = Ok pks /\ StronglySorted pk_le pks /\ NoDup pks /\
    forall pk, pk ∈ pks <->
      pk = block_creator b \/ pk = block_stake_winner b \/
      (pk = coinbase_receiver b /\ is_coinbase_applied coinbase = true) \/
      exists c, c ∈ cmds /\ is_applied c = true /\ pk ∈ command_pks c.
Proof.
  intros E1 E2. unfold active_public_keys. rewrite E1, E2. cbn [mbind res_bind].
  eexists. split; [reflexivity|].
  destruct (sort_pks_spec (fold_left (fun s c => add_keys s (command_pks c))
    (filter (fun c => is_applied c = true) cmds)
    (if is_coinbase_applied coinbase
     then {[block_creator b; block_stake_winner b]} ∪ {[coinbase_receiver b]}
     else {[block_creator b; block_stake_winner b]}))) as (Hs & Hn & Hm).
  split; [exact Hs|]. split; [exact Hn|]. intros pk. rewrite Hm, elem_of_fold_keys.
  setoid_rewrite list_elem_of_filter.
  destruct (is_coinbase_applied coinbase); set_solver.
Qed.

(** Whole amounts of MINA, as one possible decimal parser. *)
Definition whole_decimal : Decimal :=
  {| decimal_scaled s := z ← parse_uint U32_MAX s; Ok (Some (z * MINA_SCALE)) |}.

Definition header_example : BlockHeader :=
  mkHeader "mainnet" sh_default 2 0 sh_default lh_default sh_default 0 0 alice bob carol false 0 0 [].

Definition block_example : PrecomputedBlock :=
  PcbV2 header_example
    [Some (mkDiffV2 [mkSnark 3 bob] [payment_example alice bob 10 0 500] (V2One None)); None]
    [] [((bob, token_default), "1")].

Lemma active_public_keys_spec_witness :
  exists pks, @active_public_keys whole_decimal block_example = Ok pks /\
    NoDup pks /\ (carol ∈ pks).
Proof.
  destruct (@active_public_keys_spec whole_decimal block_example
    (mkCoinbase (CBOne None) carol false false None) [payment_example alice bob 10 0 500])
    as (pks & E & _ & Hn & Hm); [vm_compute; reflexivity..|].
  exists pks. split; [exact E|]. split; [exact Hn|]. apply Hm. right; right; left. by split.
Defined.

(** The username a command sets, if any. *)
Definition name_update (c : UserCommandWithStatus) : option (PublicKey * string) :=
  if is_applied c then
    match head (receiver c), memo c with
    | Some rcv, Ok m =>
      if starts_with m NAME_SERVICE_MEMO_PREFIX && is_name_service rcv
      then Some (sender c, string_of_bytes (drop 6 (as_bytes m))) else None
    | _, _ => None
    end
  else None.

(** The username updates of a block: when every applied command has a receiver and
    a readable memo, the result maps each sender to the name in its last applied
    name-service command; an applied command without receivers (a zkapp command
    with no account updates) makes the whole computation panic. *)
Theorem username_updates_last_wins b cmds :
  commands b = Ok cmds ->
  (Forall (fun c => is_applied c = true -> receiver c <> [] /\ exists m, memo c = Ok m) cmds ->
   username_updates b = Ok (list_to_map (reverse (omap name_update cmds)))) /\
  (forall l1 c l2, cmds = l1 ++ c :: l2 ->
     Forall (fun c => is_applied c = true -> receiver c <> [] /\ exists m, memo c = Ok m) l1 ->
     is_applied c = true -> receiver c = [] -> username_updates b = Panic).
Proof.
  intros E. unfold username_updates. rewrite E. cbn [mbind res_bind]. clear E.
  assert (forall l, Forall (fun c => is_applied c = true ->
              receiver c <> [] /\ exists m, memo c = Ok m) l ->
            forall acc, foldM username_of_command (list_to_map acc) l =
              Ok (list_to_map (reverse (omap name_update l) ++ acc))) as Hf.
  { induction 1 as [|c l Hc _ IH]; intros acc; [done|]. simpl.
    assert (username_of_command (list_to_map acc) c =
      Ok (list_to_map (match name_update c with Some e => e :: acc | None => acc end))) as ->.
    { unfold username_of_command, name_update. destruct (is_applied c); [|done].
      destruct Hc as [Hr [m ->]]; [done|]. destruct (receiver c) as [|r rs]; [done|].
      cbn [head expect_some mbind res_bind]. by destruct (_ && _). }
    cbn [mbind res_bind]. rewrite IH. do 2 f_equal. destruct (name_update c); [|done].
    by rewrite reverse_cons, <- app_assoc. }
  split.
  - intros HF. rewrite <- (list_to_map_nil (K:=PublicKey) (M:=gmap PublicKey)) at 1.
    rewrite Hf by done. by rewrite app_nil_r.
  - intros l1 c l2 -> HF Ha Hr. rewrite foldM_app.
    rewrite <- (list_to_map_nil (K:=PublicKey) (M:=gmap PublicKey)) at 1.
    rewrite Hf by done. cbn [mbind res_bind foldM].
    assert (forall m, username_of_command m c = Panic) as ->; [|done].
    intros m. unfold username_of_command. by rewrite Ha, Hr.
Qed.

Lemma username_updates_last_wins_witness :
  let c nonce name := UCV1 (mkCommon 1 alice nonce (encode_memo name) "")
    (PaymentV1 alice (mkPk MINA_SEARCH_NAME_SERVICE_ADDRESS) 1) alice (Applied None None) in
  username_updates (PcbV1 header_example
    (mkDiffV1 [] [c 0 "Name: al"; c 1 "hello"; c 2 "Name: alice"] V1None []) None) =
  Ok (<[alice := "alice"]> (<[alice := "al"]> ∅)).
Proof.
  intros c.
  refine (proj1 (username_updates_last_wins (PcbV1 header_example
    (mkDiffV1 [] [c 0 "Name: al"; c 1 "hello"; c 2 "Name: alice"] V1None []) None)
    [c 0 "Name: al"; c 1 "hello"; c 2 "Name: alice"] eq_refl) _).
  repeat constructor; try discriminate; eexists; vm_compute; reflexivity.
Defined.

Lemma list_prefix_elem p l x : list_prefix p l = true -> x ∈ p -> x ∈ l.
Proof.
  intros Hp Hx. rewrite <- (list_prefix_take p l Hp) in Hx.
  rewrite <- (take_drop (length p) l). apply elem_of_app. by left.
Qed.

Lemma decode_memo_bytes encoded m :
  Forall byte_ok encoded -> decode_memo encoded = Ok m ->
  forall x, x ∈ as_bytes m -> x ∈ encoded.
Proof.
  intros Hok. unfold decode_memo. destruct (encoded !! 1%nat) as [len|]; [|done].
  cbn [expect_some mbind res_bind]. destruct (decide _); [|done]. intros [= <-] x Hx.
  set (piece := drop 2 (take _ encoded)) in *.
  destruct (from_utf8 piece) as [s| |] eqn:E; [|by apply elem_of_nil in Hx..].
  apply from_utf8_Ok in E; [|by apply Forall_drop, Forall_take]. rewrite E in Hx.
  apply (subseteq_drop 2) in Hx. by apply subseteq_take in Hx.
Qed.

(** A post-hardfork memo is stored as base58 text, whose alphabet has no colon (byte 58),
    and is not decoded before the name-service prefix is looked for: no
    post-hardfork signed command can set a username. *)
Theorem no_username_from_base58_memo updates common body sgn status :
  Forall byte_ok (c_memo common) -> 58 ∉ c_memo common ->
  let c := UCV2 (SignedCommandData common body sgn) status in
  forall updates', username_of_command updates c = Ok updates' -> updates' = updates.
Proof.
  intros Hok Hcolon c updates'. unfold username_of_command.
  destruct (is_applied c); [|by intros [= <-]].
  destruct (expect_some (head (receiver c))) as [rcv| |]; [|done..]. cbn [mbind res_bind].
  destruct (memo c) as [m| |] eqn:Em; [|done..]. cbn [mbind res_bind].
  destruct (starts_with m NAME_SERVICE_MEMO_PREFIX) eqn:Ep; [|by intros [= <-]].
  destruct Hcolon. apply (decode_memo_bytes _ m); [done|exact Em|].
  apply (list_prefix_elem _ _ _ Ep). vm_compute. set_solver.
Qed.

Lemma no_username_from_base58_memo_witness :
  let c := UCV2 (SignedCommandData (mkCommon 1 alice 0
      (as_bytes "E4YM2vTHhWEg66xpj52JErHUBU4pZ1yageL4TVDDpTTSsv8mK6YaH") "")
      (PaymentV2 (mkPk MINA_SEARCH_NAME_SERVICE_ADDRESS) 1) alice) (Applied None None) in
  username_of_command ∅ c = Ok ∅.
Proof.
  intros c. destruct (username_of_command ∅ c) as [u| |] eqn:E;
    [|vm_compute in E; discriminate..]. f_equal.
  apply (no_username_from_base58_memo ∅ (mkCommon 1 alice 0
    (as_bytes "E4YM2vTHhWEg66xpj52JErHUBU4pZ1yageL4TVDDpTTSsv8mK6YaH") "")
    (PaymentV2 (mkPk MINA_SEARCH_NAME_SERVICE_ADDRESS) 1) alice (Applied None None)).
  - apply as_bytes_ok.
  - apply (bool_decide_eq_true_1 (58 ∉ as_bytes _)). vm_compute. reflexivity.
  - exact E.
Defined.
