(* ===== verification/Signed.v ===== *)
(** Signed commands (src/rust/src/command/signed/mod.rs): a user command without its status, its accessors, its conversion to a
    version-independent command and its form in the store.  The hash of a command is an interface: it is computed by the
    blake2 and bs58 crates over the binary form of a pre-hardfork command, and by an external program for a post-hardfork one. *)

From S2P Require Import Prelude Bytes Base Command AccountDiff Coinbase Precomputed.

Inductive SignedCommand :=
| SCV1 (common : PayloadCommon) (body : BodyV1) (signer : PublicKey)
| SCV2 (data : UserCommandDataV2).

Inductive CommandType := TPayment | TDelegation | TZkapp.

(** [From<UserCommandWithStatus>] *)
Definition signed_of (c : UserCommandWithStatus) : SignedCommand :=
  match c with
  | UCV1 common body signer _ => SCV1 common body signer
  | UCV2 data _ => SCV2 data
  end.

(** * Accessors *)

Definition signed_fee (c : SignedCommand) : Z :=
  match c with
  | SCV1 common _ _ | SCV2 (SignedCommandData common _ _) => c_fee common
  | SCV2 (ZkappData z) => zk_fee z
  end.

Definition signed_fee_payer_pk (c : SignedCommand) : PublicKey :=
  match c with
  | SCV1 common _ _ | SCV2 (SignedCommandData common _ _) => c_fee_payer_pk common
  | SCV2 (ZkappData z) => zk_fee_payer_pk z
  end.

Definition signed_nonce (c : SignedCommand) : Nonce :=
  match c with
  | SCV1 common _ _ => wrap32 (c_nonce common)
  | SCV2 (SignedCommandData common _ _) => c_nonce common
  | SCV2 (ZkappData z) => zk_nonce z
  end.

Definition signed_memo (c : SignedCommand) : res string :=
  decode_memo (match c with
               | SCV1 common _ _ | SCV2 (SignedCommandData common _ _) => c_memo common
               | SCV2 (ZkappData z) => as_bytes (zk_memo z)
               end).

Definition signed_amount (c : SignedCommand) : Z :=
  match c with
  | SCV1 _ (PaymentV1 _ _ amount) _ | SCV2 (SignedCommandData _ (PaymentV2 _ amount) _) => amount
  | _ => 0
  end.

Definition signed_receiver_pk (c : SignedCommand) : list PublicKey :=
  match c with
  | SCV1 _ (PaymentV1 _ receiver_pk _) _ => [receiver_pk]
  | SCV1 _ (SetDelegateV1 _ new_delegate) _ => [new_delegate]
  | SCV2 (SignedCommandData _ (PaymentV2 receiver_pk _) _) => [receiver_pk]
  | SCV2 (SignedCommandData _ (StakeDelegationV2 new_delegate) _) => [new_delegate]
  | SCV2 (ZkappData z) => (fun e => b_public_key (elt_body e)) <$> zk_account_updates z
  end.

Definition signed_source_pk (c : SignedCommand) : PublicKey :=
  match c with
  | SCV1 _ (PaymentV1 source_pk _ _) _ => source_pk
  | SCV1 _ (SetDelegateV1 delegator _) _ => delegator
  | SCV2 _ => signed_fee_payer_pk c
  end.

Definition signed_signer (c : SignedCommand) : PublicKey :=
  match c with
  | SCV1 _ _ signer | SCV2 (SignedCommandData _ _ signer) => signer
  | SCV2 (ZkappData z) => zk_fee_payer_pk z
  end.

Definition signed_kind (c : SignedCommand) : CommandType :=
  match c with
  | SCV1 _ (PaymentV1 _ _ _) _ | SCV2 (SignedCommandData _ (PaymentV2 _ _) _) => TPayment
  | SCV1 _ (SetDelegateV1 _ _) _ | SCV2 (SignedCommandData _ (StakeDelegationV2 _) _) => TDelegation
  | SCV2 (ZkappData _) => TZkapp
  end.
Definition is_delegation (c : SignedCommand) : bool :=
  match signed_kind c with TDelegation => true | _ => false end.

(** [SignedCommand::all_command_public_keys] and [contains_public_key] *)
Definition signed_public_keys (c : SignedCommand) : list PublicKey :=
  signed_receiver_pk c ++ [signed_source_pk c; signed_fee_payer_pk c; signed_signer c].
Definition contains_public_key (c : UserCommandWithStatus) (pk : PublicKey) : bool :=
  bool_decide (pk ∈ signed_public_keys (signed_of c)).

(** * Conversions *)

Record SignedCommandWithCreationData := mkSignedCreation {
  signed_command : SignedCommand;
  is_new_receiver_account : bool
}.

(** [SignedCommand::from_precomputed] *)
Definition signed_from_precomputed (b : PrecomputedBlock) : res (list SignedCommandWithCreationData) :=
  cmds ← commands b;
  Ok (map (fun c => mkSignedCreation (signed_of c) (receiver_account_creation_fee_paid c)) cmds).

(** [From<SignedCommandWithCreationData> for Command] *)
Definition command_of_signed (value : SignedCommandWithCreationData) : res Command :=
  let c := signed_command value in
  match c with
  | SCV1 _ (PaymentV1 source_pk receiver_pk amount) _ =>
    Ok (CPayment {| p_source := source_pk; p_receiver := receiver_pk; p_amount := amount; p_nonce := signed_nonce c;
                    p_is_new_receiver_account := is_new_receiver_account value |})
  | SCV1 _ (SetDelegateV1 delegator new_delegate) _ =>
    Ok (CDelegation {| d_delegate := new_delegate; d_delegator := delegator; d_nonce := signed_nonce c |})
  | SCV2 (SignedCommandData _ (PaymentV2 _ _) _) =>
    receiver ← expect_some (head (signed_receiver_pk c));
    Ok (CPayment {| p_nonce := signed_nonce c; p_source := signed_fee_payer_pk c; p_amount := signed_amount c;
                    p_receiver := receiver; p_is_new_receiver_account := is_new_receiver_account value |})
  | SCV2 (SignedCommandData _ (StakeDelegationV2 new_delegate) _) =>
    Ok (CDelegation {| d_nonce := signed_nonce c; d_delegator := signed_source_pk c; d_delegate := new_delegate |})
  | SCV2 (ZkappData z) => Ok (CZkapp z)
  end.

(** * The command in the store *)

Class TxnHasher := { hash_signed_command : SignedCommand -> res TxnHash }.

Record SignedCommandWithData := mkSignedData {
  sc_command : SignedCommand;
  sc_state_hash : StateHash;
  sc_status : CommandStatusData;
  sc_tx_hash : TxnHash;
  sc_blockchain_length : Z;
  sc_date_time : Z;
  sc_nonce : Nonce;
  sc_global_slot_since_genesis : Z
}.

(** [SignedCommandWithData::from] *)
Definition signed_with_data `{TxnHasher} (c : UserCommandWithStatus) (state_hash : string) (blockchain_length date_time slot : Z)
  : res SignedCommandWithData :=
  let command := signed_of c in
  tx_hash ← expect (hash_signed_command command);
  Ok (mkSignedData command (mkSh state_hash) (status_data c) tx_hash blockchain_length date_time (signed_nonce command) slot).

(** * Properties *)

(** The command of a signed command is that of the user command, and the keys, fee, nonce and memo of the two agree; so do
    the amounts of post-hardfork commands. *)
Theorem signed_command_agrees c :
  command_of_signed (mkSignedCreation (signed_of c) (receiver_account_creation_fee_paid c)) = Ok (to_command c) /\
  signed_fee (signed_of c) = fee c /\ signed_nonce (signed_of c) = nonce_of c /\ signed_memo (signed_of c) = memo c /\
  signed_source_pk (signed_of c) = sender c /\ signed_receiver_pk (signed_of c) = receiver c /\
  signed_fee_payer_pk (signed_of c) = fee_payer_pk c /\ signed_signer (signed_of c) = signer c /\
  signed_amount (signed_of c) = match c with
                                | UCV1 _ (PaymentV1 _ _ amount) _ _ => amount
                                | UCV1 _ (SetDelegateV1 _ _) _ _ => 0
                                | UCV2 _ _ => amount c
                                end.
Proof. by destruct c as [? [] ? ?|[? [] ?|] ?]. Qed.

(** A public key is one of a command when it is its sender, a receiver, its fee payer or its signer. *)
Lemma contains_public_key_spec c pk :
  contains_public_key c pk = true <-> pk ∈ [sender c; fee_payer_pk c; signer c] ++ receiver c.
Proof.
  unfold contains_public_key, signed_public_keys. rewrite bool_decide_eq_true.
  destruct (signed_command_agrees c) as (_ & _ & _ & _ & -> & -> & -> & -> & _). set_solver.
Qed.
