(* ===== verification/LedgerDiff.v ===== *)
(** Ledger diffs (src/rust/src/ledger/diff/mod.rs): what a block changes in the
    ledger, computed from a precomputed block, and the composition of the diffs
    of consecutive blocks. *)

From S2P Require Import Prelude Bytes Base Command AccountDiff Account Coinbase Precomputed.

(** * Data *)

Record LedgerDiff := mkLedgerDiff {
  ld_blockchain_length : Z;
  ld_state_hash : StateHash;
  ld_staged_ledger_hash : LedgerHash;
  ld_new_coinbase_receiver : option PublicKey;
  ld_public_keys_seen : list PublicKey;
  ld_new_pk_balances : NewBalances;
  ld_account_diffs : list (list AccountDiff)
}.

Definition ledger_diff_default : LedgerDiff :=
  mkLedgerDiff 0 sh_default lh_default None [] ∅ [].

Definition with_account_diffs (diffs : list (list AccountDiff)) (d : LedgerDiff) : LedgerDiff :=
  mkLedgerDiff (ld_blockchain_length d) (ld_state_hash d) (ld_staged_ledger_hash d)
    (ld_new_coinbase_receiver d) (ld_public_keys_seen d) (ld_new_pk_balances d) diffs.

(** * Composition *)

Definition push_new_keys (seen : list PublicKey) (keys : list PublicKey) : list PublicKey :=
  fold_left (fun seen pk => if bool_decide (pk ∈ seen) then seen else seen ++ [pk]) keys seen.

Definition ledger_diff_append (self other : LedgerDiff) : LedgerDiff :=
  {| ld_public_keys_seen := push_new_keys (ld_public_keys_seen self) (ld_public_keys_seen other);
     ld_account_diffs := ld_account_diffs self ++ ld_account_diffs other;
     ld_state_hash := ld_state_hash other;
     ld_staged_ledger_hash := ld_staged_ledger_hash other;
     ld_blockchain_length := ld_blockchain_length other;
     ld_new_coinbase_receiver := ld_new_coinbase_receiver other;
     (* the entries of [other] replace those of [self] *)
     ld_new_pk_balances := ld_new_pk_balances other ∪ ld_new_pk_balances self |}.

Definition append_vec (diffs : list LedgerDiff) : LedgerDiff :=
  fold_left ledger_diff_append diffs ledger_diff_default.

(** [LedgerDiff::from] *)
Definition diffs_from (value : list (string * string * AccountDiffType * Z))
  : list (list AccountDiff) :=
  value ≫= fun '(s, r, t, a) => diff_from s r t a.

(** * From a block *)

(** The diffs of a command: those of its effects when applied, its nonce otherwise. *)
Definition command_diffs (c : UserCommandWithStatus) : res (list (list AccountDiff)) :=
  if is_applied c then from_command (to_command c)
  else Ok [[DFailedTransactionNonce
              (mkFailedDiff (sender c) (nonce_add_u32 (nonce_of c) 1))]].

(** Zkapp diffs name the token accounts a zkapp command touches. *)
Definition zkapp_account (d : AccountDiff) : list (PublicKey * TokenAddress) :=
  match d with
  | DPayment _ | DDelegation _ | DCoinbase _ | DFeeTransfer _ | DFeeTransferViaCoinbase _
  | DFailedTransactionNonce _ => []
  | _ => [(public_key d, token_address d)]
  end.

(** The derived order on creation fees: public key, token, amount. *)
Definition creation_compare (a b : ZkappAccountCreationFee) : comparison :=
  match pk_compare (cfd_public_key a) (cfd_public_key b) with
  | Eq => match token_compare (cfd_token a) (cfd_token b) with
          | Eq => cfd_amount a ?= cfd_amount b
          | c => c
          end
  | c => c
  end.
Definition creation_le (a b : ZkappAccountCreationFee) : Prop := creation_compare a b <> Gt.
Global Instance creation_le_dec : RelDecision creation_le.
Proof. intros a b. unfold creation_le. solve_decision. Defined.

Definition creation_fees (created : gmap (PublicKey * TokenAddress) Z)
    (keys : list (PublicKey * TokenAddress)) : res (list ZkappAccountCreationFee) :=
  mapM (fun key => amount ← expect_some (created !! key);
                   Ok (mkZkappCreationFee key.1 key.2 amount)) keys.

Section FromBlock.
Context `{Decimal} `{HashMapIter}.

Definition from_precomputed_unexpanded (b : PrecomputedBlock) : res LedgerDiff :=
  pre ← commands_pre_diff b;
  post ← commands_post_diff b;
  snarks ← completed_works b;
  let fees := from_block_fees (coinbase_receiver b) pre post snarks in
  cmds ← commands b;
  txns ← mapM command_diffs cmds;
  coinbase ← coinbase_from_precomputed b;
  fees ← (if has_fee_transfer coinbase then account_diffs_coinbase_mut coinbase fees
          else Ok fees);
  reward ← (if is_coinbase_applied coinbase then
              first ← expect_some (as_account_diff coinbase !! 0%nat); Ok [first]
            else Ok []);
  created ← accounts_created b;
  seen ← active_public_keys b;
  Ok {| ld_account_diffs := concat txns ++ reward ++ fees;
        ld_new_pk_balances := created.1;
        ld_new_coinbase_receiver := created.2;
        ld_state_hash := state_hash b;
        ld_blockchain_length := blockchain_length b;
        ld_staged_ledger_hash := staged_ledger_hash b;
        ld_public_keys_seen := seen |}.

(** Expanded diffs, after the creation fees of the accounts the zkapp commands create.
    The two hash sets are sets, their intersection is listed and sorted. *)
Definition from_precomputed (b : PrecomputedBlock) : res LedgerDiff :=
  unexpanded ← from_precomputed_unexpanded b;
  let account_diffs := expand (ld_account_diffs unexpanded) in
  created ← accounts_created_v2 b;
  let all_created : gmap (PublicKey * TokenAddress) Z :=
    fold_left (fun m c => <[(ac_public_key c, ac_token c) := ac_creation_fee c]> m) created ∅ in
  let zkapp_accounts : gset (PublicKey * TokenAddress) :=
    list_to_set (concat account_diffs ≫= zkapp_account) in
  fees ← creation_fees all_created (elements (dom all_created ∩ zkapp_accounts));
  let fees := merge_sort creation_le fees in
  Ok (with_account_diffs
        (match fees with
         | [] => account_diffs
         | _ => (DZkappAccountCreationFee <$> fees) :: account_diffs
         end) unexpanded).
End FromBlock.

(** * Properties *)

Lemma net_concat txns :
  Forall (fun d => net d = 0) txns -> net (concat txns) = 0.
Proof. induction 1 as [|d l Hd _ IH]; [done|]. simpl. rewrite net_app. lia. Qed.

Lemma command_diffs_net c diffs :
  is_zkapp_command c = false \/ is_applied c = false -> command_diffs c = Ok diffs -> net diffs = 0.
Proof.
  unfold command_diffs. intros [Hz|Ha]; [|rewrite Ha; by intros [= <-]].
  destruct (is_applied c); [|by intros [= <-]]. apply net_from_command.
  by destruct c as [? [] ? ?|[? [] ?|] ?].
Qed.

Lemma net_payments d1 d2 : txn_payments d1 = txn_payments d2 -> net d1 = net d2.
Proof. unfold net. by intros ->. Qed.

Lemma coinbase_reward_net coinbase reward :
  (if is_coinbase_applied coinbase then
     first ← expect_some (as_account_diff coinbase !! 0%nat); Ok [first]
   else Ok []) = Ok reward ->
  net reward = if is_coinbase_applied coinbase then coinbase_amount coinbase else 0.
Proof.
  unfold as_account_diff. destruct (is_coinbase_applied coinbase); intros [= <-]; [|done].
  unfold net; simpl. unfold signed_amount; simpl. lia.
Qed.

Section Blocks.
Context `{Decimal} `{HashMapIter}.

(** The net payments of the diffs of a block before expansion. *)
Lemma unexpanded_net b d coinbase cmds :
  from_precomputed_unexpanded b = Ok d ->
  coinbase_from_precomputed b = Ok coinbase -> commands b = Ok cmds ->
  Forall (fun c => is_zkapp_command c = false \/ is_applied c = false) cmds ->
  net (ld_account_diffs d) =
    if is_coinbase_applied coinbase then coinbase_amount coinbase else 0.
Proof.
  intros E Hc Hm Hz. unfold from_precomputed_unexpanded in E. rewrite Hc, Hm in E.
  do 3 inv_ok E. cbn [mbind res_bind] in E. inv_ok E. cbn [mbind res_bind] in E.
  do 2 inv_ok E. rename E3 into Htx, E4 into Hfees, E5 into Hrew. do 2 inv_ok E. injection E as <-. simpl.
  rewrite !net_app, (net_concat v2), (coinbase_reward_net _ _ Hrew).
  - assert (net v3 = 0); [|lia].
    destruct (has_fee_transfer coinbase) eqn:Hft.
    + destruct (coinbase_mut_payments coinbase
        (from_block_fees (coinbase_receiver b) v v0 v1) Hft) as (diffs' & E' & Hp).
      rewrite E' in Hfees. injection Hfees as <-.
      rewrite (net_payments _ _ Hp). apply net_block_fees.
    + injection Hfees as <-. apply net_block_fees.
  - apply mapM_res_Ok in Htx. clear -Htx Hz. induction Htx; [constructor|].
    apply Forall_cons in Hz as [? ?]. constructor; [by eapply command_diffs_net|auto].
Qed.

Lemma from_precomputed_payments b d u :
  from_precomputed b = Ok d -> from_precomputed_unexpanded b = Ok u ->
  net (ld_account_diffs d) = net (ld_account_diffs u).
Proof.
  intros E Hu. unfold from_precomputed in E. rewrite Hu in E. cbn [mbind res_bind] in E.
  do 2 inv_ok E. injection E as <-. simpl.
  rewrite <- (net_payments _ _ (expand_keeps_payments (ld_account_diffs u))).
  destruct (merge_sort creation_le v0) as [|f l]; [done|].
  unfold net, txn_payments. csimpl. generalize l. clear. induction l as [|f' l IH]; [done|].
  simpl in *. done.
Qed.
End Blocks.

(** A block without applied zkapp commands only moves money and mints its coinbase:
    over all its account diffs, credits exceed debits by exactly the coinbase
    reward (twice as much when supercharged), or by nothing when no coinbase is applied. *)
Theorem block_mints_coinbase `{Decimal} `{HashMapIter} b d coinbase cmds :
  from_precomputed b = Ok d ->
  coinbase_from_precomputed b = Ok coinbase -> commands b = Ok cmds ->
  Forall (fun c => is_zkapp_command c = false \/ is_applied c = false) cmds ->
  net (ld_account_diffs d) =
    if is_coinbase_applied coinbase then coinbase_amount coinbase else 0.
Proof.
  intros E Hc Hm Hz. destruct (from_precomputed_unexpanded b) as [u| |] eqn:Hu.
  - rewrite (from_precomputed_payments b d u E Hu). by eapply unexpanded_net.
  - unfold from_precomputed in E. by rewrite Hu in E.
  - unfold from_precomputed in E. by rewrite Hu in E.
Qed.

Lemma block_mints_coinbase_witness :
  exists d, @from_precomputed whole_decimal _ block_example = Ok d /\
    net (ld_account_diffs d) = 720000000000.
Proof.
  destruct (@from_precomputed whole_decimal _ block_example) as [d| |] eqn:E;
    [|vm_compute in E; discriminate..].
  exists d. split; [reflexivity|].
  apply (@block_mints_coinbase whole_decimal _ block_example d
    (mkCoinbase (CBOne None) carol false false None) [payment_example alice bob 10 0 500]);
    [exact E|vm_compute; reflexivity..|].
  repeat constructor.
Defined.

(** ** Totality *)

(** What an account update must hold for its hexadecimal fields to be accepted. *)
Definition elt_ok (e : Elt) : bool :=
  let b := elt_body e in
  forallb hex32 (default [] (head (b_actions b))) &&
  forallb hex32 (default [] (head (b_events b))) &&
  forallb (fun u => match u with Keep => true | Set_ s => hex32 s end) (u_app_state (b_update b)).

Definition command_ok (c : UserCommandWithStatus) : bool :=
  match to_command c with
  | CZkapp z => forallb (fun e => forallb elt_ok (e :: elt_calls e)) (zk_account_updates z)
  | _ => true
  end.

Definition is_v1_command (c : UserCommandWithStatus) : bool :=
  match c with UCV1 _ _ _ _ => true | _ => false end.

(** Blocks as the types and the protocol guarantee them: a pre-hardfork block holds
    pre-hardfork commands; a post-hardfork block has a pre-diff, an optional
    post-diff and creation fees that are decimals in range. *)
Definition block_wf `{Decimal} (b : PrecomputedBlock) : Prop :=
  match b with
  | PcbV1 _ pre post =>
    forallb is_v1_command (dv1_commands pre ++ from_option dv1_commands [] post) = true
  | PcbV2 _ diff _ created =>
    exists d post, diff = [Some d; post] /\
      forallb command_ok (dv2_commands d ++ from_option dv2_commands [] post) = true /\
      Forall (fun c => exists fee, amount_from_str c.2 = Ok fee) created
  end.

Lemma mapM_hex32 (f : string -> res string) l :
  (forall s, hex32 s = true -> f s = Ok s) -> forallb hex32 l = true -> mapM f l = Ok l.
Proof.
  intros Hf. induction l as [|s l IH]; [done|]. simpl.
  intros [Hs Hl]%andb_true_iff. rewrite Hf by done. simpl. by rewrite IH.
Qed.

Lemma hex32_asserts s :
  hex32 s = true ->
  app_state_from s = Ok s /\ action_state_from s = Ok s /\ zkapp_event_from s = Ok s.
Proof. intros Hs. unfold app_state_from, action_state_from, zkapp_event_from. by rewrite Hs. Qed.

Lemma diff_of_elt_total fp n e : elt_ok e = true -> exists d, diff_of_elt fp n e = Ok d.
Proof.
  unfold elt_ok, diff_of_elt. intros [[Ha He]%andb_true_iff Hs]%andb_true_iff.
  rewrite (mapM_hex32 action_state_from) by (done || intros; by apply hex32_asserts).
  rewrite (mapM_hex32 zkapp_event_from) by (done || intros; by apply hex32_asserts).
  cbn [mbind res_bind].
  match goal with |- context [mapM ?f ?l] => destruct (mapM_res_total f l) as [k ->] end;
    [|eexists; reflexivity].
  apply Forall_forall. intros u Hu. rewrite forallb_forall in Hs.
  specialize (Hs u). rewrite <- list_elem_of_In in Hs. specialize (Hs Hu).
  destruct u as [|s]; [by eexists|]. destruct (hex32_asserts s Hs) as (-> & _). by eexists.
Qed.

Lemma forallb_Forall {A} (f : A -> bool) l : forallb f l = true -> Forall (fun a => f a = true) l.
Proof.
  induction l; simpl; [constructor|]. intros [? ?]%andb_true_iff. constructor; auto.
Qed.

Lemma command_diffs_total c : command_ok c = true -> exists diffs, command_diffs c = Ok diffs.
Proof.
  unfold command_ok, command_diffs. destruct (is_applied c); [|by eexists].
  destruct (to_command c) as [p|d|z]; intros Hz; [by eexists..|]. simpl.
  apply mapM_res_total. apply forallb_Forall in Hz.
  eapply Forall_impl; [exact Hz|]. intros e He%forallb_Forall.
  apply (mapM_res_total (diff_of_elt (zk_fee_payer_pk z) (zk_nonce z)) (e :: elt_calls e)).
  eapply Forall_impl; [exact He|]. intros. by apply diff_of_elt_total.
Qed.

Lemma command_ok_v1 c : is_v1_command c = true -> command_ok c = true.
Proof. by destruct c as [? [] ? ?|]. Qed.

Lemma foldM_created_total m cmds :
  forallb is_v1_command cmds = true -> exists m', foldM created_by_command m cmds = Ok m'.
Proof.
  revert m; induction cmds as [|c cmds IH]; intros m; simpl; [by eexists|].
  intros [Hc Hl]%andb_true_iff.
  assert (exists m', created_by_command m c = Ok m') as [m' ->]; [|by apply IH].
  unfold created_by_command. repeat case_match; try by eexists.
  destruct c as [? [] ? ?|]; [by eexists..|done].
Qed.

Section Totality.
Context `{Decimal} `{HashMapIter}.

Lemma account_created_from_total created :
  Forall (fun c => exists fee, amount_from_str c.2 = Ok fee) created ->
  exists k, mapM account_created_from created = Ok k.
Proof.
  intros Hc. apply mapM_res_total. eapply Forall_impl; [exact Hc|].
  intros c [fee E]. unfold account_created_from. rewrite E. by eexists.
Qed.

(** The parts of a well-formed block. *)
Lemma block_wf_parts b :
  block_wf b -> exists pre post works kinds created created2,
    commands_pre_diff b = Ok pre /\ commands_post_diff b = Ok post /\
    completed_works b = Ok works /\ kinds_from_precomputed b = Ok kinds /\ kinds <> [] /\
    accounts_created b = Ok created /\ accounts_created_v2 b = Ok created2 /\
    forallb command_ok (pre ++ post) = true.
Proof.
  destruct b as [h pre post|h diff acc created]; simpl.
  - intros Hv.
    assert (exists c, accounts_created (PcbV1 h pre post) = Ok c) as [c Hc].
    { unfold accounts_created, commands. cbn [commands_pre_diff commands_post_diff mbind res_bind].
      case_match. edestruct (foldM_created_total) as [m' ->]; [exact Hv|]. by eexists. }
    do 6 eexists. split_and!; try reflexivity; [done|exact Hc|].
    apply forallb_Forall in Hv. apply forallb_forall. intros x Hx%list_elem_of_In.
    apply command_ok_v1. by eapply Forall_forall in Hv.
  - intros (d & post & -> & Hcmd & Hfee).
    destruct (account_created_from_total created Hfee) as [k Hk].
    assert (exists c, accounts_created (PcbV2 h [Some d; post] acc created) = Ok c) as [c Hc].
    { unfold accounts_created. simpl. rewrite Hk. by eexists. }
    do 6 eexists. split_and!; try reflexivity; [done|exact Hc|exact Hk|exact Hcmd].
Qed.
End Totality.

Lemma creation_fees_total (created : gmap (PublicKey * TokenAddress) Z) s :
  s ⊆ dom created -> exists fees, creation_fees created (elements s) = Ok fees.
Proof.
  intros Hs. apply mapM_res_total, Forall_forall. intros key Hk%elem_of_elements%Hs.
  apply elem_of_dom in Hk as [amount ->]. by eexists.
Qed.

Lemma max_kind_some l : l <> [] -> exists k, max_kind l = Some k.
Proof. destruct l; [done|]. by eexists. Qed.

(** The diff of a block, and what it carries of it. *)
Lemma from_precomputed_total `{Decimal} `{HashMapIter} b :
  block_wf b ->
  exists d, from_precomputed b = Ok d /\ ld_state_hash d = state_hash b /\
    ld_staged_ledger_hash d = staged_ledger_hash b /\
    ld_blockchain_length d = blockchain_length b.
Proof.
  intros (pre & post & works & kinds & created & created2 &
          Epre & Epost & Ew & Ek & Hk & Ec & Ec2 & Hok)%block_wf_parts.
  assert (commands b = Ok (pre ++ post)) as Ecmd by (unfold commands; by rewrite Epre, Epost).
  destruct (max_kind_some kinds Hk) as [kind Em].
  destruct (mapM_res_total command_diffs (pre ++ post)) as [txns Et].
  { apply forallb_Forall in Hok. eapply Forall_impl; [exact Hok|]. apply command_diffs_total. }
  assert (exists coinbase, coinbase_from_precomputed b = Ok coinbase) as [coinbase Ecb].
  { unfold coinbase_from_precomputed. rewrite Ek. cbn [mbind res_bind].
    rewrite Em. cbn [expect_some mbind res_bind]. rewrite Ec. by eexists. }
  unfold from_precomputed, from_precomputed_unexpanded, active_public_keys.
  rewrite Epre, Epost, Ew, Ecmd, Ecb, Ec, Ec2. cbn [mbind res_bind]. rewrite Et.
  cbn [mbind res_bind].
  match goal with |- context [if has_fee_transfer coinbase then ?m else Ok ?f] =>
    assert (exists fees, (if has_fee_transfer coinbase then m else Ok f) = Ok fees) as [fees ->]
  end.
  { destruct (has_fee_transfer coinbase) eqn:Hft; [|by eexists].
    edestruct (coinbase_mut_payments coinbase) as (fees & -> & _); [done|by eexists]. }
  cbn [mbind res_bind].
  match goal with |- context [if is_coinbase_applied coinbase then ?m else Ok []] =>
    assert (exists r, (if is_coinbase_applied coinbase then m else Ok []) = Ok r) as [r ->]
  end.
  { unfold as_account_diff. destruct (is_coinbase_applied coinbase); by eexists. }
  cbn [mbind res_bind ld_account_diffs].
  edestruct creation_fees_total as [cf ->]; [by apply intersection_subseteq_l|].
  cbn [mbind res_bind]. by eexists.
Qed.

(** C22: Every well-formed block has a ledger diff: none of the accesses, conversions and
    [expect]s on the way can panic, and the diff carries the block's own hashes and length. *)
Theorem ledger_diff_total `{Decimal} `{HashMapIter} b :
  block_wf b ->
  exists d, from_precomputed b = Ok d /\ ld_state_hash d = state_hash b /\
    ld_staged_ledger_hash d = staged_ledger_hash b /\
    ld_blockchain_length d = blockchain_length b.
Proof. apply from_precomputed_total. Qed.

Lemma ledger_diff_total_witness :
  exists d, @from_precomputed whole_decimal _ block_example = Ok d /\
    ld_blockchain_length d = 2.
Proof.
  destruct (@ledger_diff_total whole_decimal _ block_example) as (d & E & _ & _ & Hl).
  - do 2 eexists. split; [reflexivity|]. split; [vm_compute; reflexivity|].
    repeat constructor. eexists. vm_compute. reflexivity.
  - exists d. by split.
Defined.

(** ** Appending *)

Lemma push_new_keys_spec seen keys :
  (forall pk, pk ∈ push_new_keys seen keys <-> pk ∈ seen \/ pk ∈ keys) /\
  (NoDup seen -> NoDup (push_new_keys seen keys)).
Proof.
  unfold push_new_keys. revert seen; induction keys as [|k keys IH]; intros seen; simpl.
  - split; [|done]. intros pk. rewrite elem_of_nil. tauto.
  - case_bool_decide as Hk.
    + destruct (IH seen) as [H1 H2]. split; [|done]. intros pk. rewrite H1, elem_of_cons.
      naive_solver.
    + destruct (IH (seen ++ [k])) as [H1 H2]. split.
      * intros pk. rewrite H1, elem_of_app, !elem_of_cons, elem_of_nil. tauto.
      * intros Hn. apply H2, NoDup_app. split; [done|].
        split; [|apply NoDup_singleton]. intros x Hx ->%list_elem_of_singleton. done.
Qed.

Lemma append_vec_snoc ds d : append_vec (ds ++ [d]) = ledger_diff_append (append_vec ds) d.
Proof. unfold append_vec. by rewrite fold_left_app. Qed.

(** Composing the diffs of consecutive blocks: the account diffs are concatenated in
    order, the keys seen are those of all blocks without repetition, the new
    balances of a key are those of the last block that created it, and hashes,
    length and new coinbase receiver are the last block's. *)
Theorem append_vec_spec (ds : list LedgerDiff) (d : LedgerDiff) :
  let r := append_vec (ds ++ [d]) in
  ld_account_diffs r = concat (ld_account_diffs <$> (ds ++ [d])) /\
  NoDup (ld_public_keys_seen r) /\
  (forall pk, pk ∈ ld_public_keys_seen r <->
     exists d', d' ∈ ds ++ [d] /\ pk ∈ ld_public_keys_seen d') /\
  (forall pk, ld_new_pk_balances r !! pk =
     head (omap (fun d' => ld_new_pk_balances d' !! pk) (reverse (ds ++ [d])))) /\
  ld_state_hash r = ld_state_hash d /\ ld_staged_ledger_hash r = ld_staged_ledger_hash d /\
  ld_blockchain_length r = ld_blockchain_length d /\
  ld_new_coinbase_receiver r = ld_new_coinbase_receiver d.
Proof.
  assert (forall l,
    ld_account_diffs (append_vec l) = concat (ld_account_diffs <$> l) /\
    NoDup (ld_public_keys_seen (append_vec l)) /\
    (forall pk, pk ∈ ld_public_keys_seen (append_vec l) <->
       exists d', d' ∈ l /\ pk ∈ ld_public_keys_seen d') /\
    (forall pk, ld_new_pk_balances (append_vec l) !! pk =
       head (omap (fun d' => ld_new_pk_balances d' !! pk) (reverse l)))) as Hall.
  { induction l as [|x l (IH1 & IH2 & IH3 & IH4)] using rev_ind.
    - split_and!; [done|constructor| |done]. intros pk. simpl. rewrite elem_of_nil.
      split; [done|]. intros (? & ?%elem_of_nil & _). done.
    - rewrite append_vec_snoc. simpl.
      destruct (push_new_keys_spec (ld_public_keys_seen (append_vec l)) (ld_public_keys_seen x))
        as [Hm Hn].
      split_and!.
      + rewrite IH1, fmap_app, concat_app. csimpl. by rewrite app_nil_r.
      + by apply Hn.
      + intros pk. rewrite Hm, IH3. setoid_rewrite elem_of_app.
        setoid_rewrite list_elem_of_singleton. naive_solver.
      + intros pk. rewrite reverse_snoc. csimpl.
        etransitivity; [apply lookup_union|]. rewrite IH4.
        destruct (ld_new_pk_balances x !! pk) as [y|];
          by destruct (omap (fun d' => ld_new_pk_balances d' !! pk) (reverse l)). }
  intros r. destruct (Hall (ds ++ [d])) as (H1 & H2 & H3 & H4).
  split_and!; try done; unfold r; by rewrite append_vec_snoc.
Qed.
