(* ===== verification/Ledger.v ===== *)
(** Ledgers (src/rust/src/ledger/mod.rs): the accounts of every token ([Ledger])
    and of one token ([TokenLedger]), and the application of ledger diffs to
    them.  The one-field structs are identified with the hash map they hold. *)

From S2P Require Import Prelude Bytes Base Command AccountDiff Account Coinbase Precomputed LedgerDiff.

Notation TokenLedger := (gmap PublicKey Account).
Notation Ledger := (gmap TokenAddress (gmap PublicKey Account)).

(** * [Ledger] *)

Definition from_mina_ledger (l : TokenLedger) : Ledger := {[ token_default := l ]}.

Definition get_token_ledger (l : Ledger) (token : TokenAddress) : option TokenLedger := l !! token.

Definition get_account (l : Ledger) (pk : PublicKey) (token : TokenAddress) : option Account :=
  tl ← get_token_ledger l token; tl !! pk.

(** The account is stored under its own public key. *)
Definition insert_account (l : Ledger) (a : Account) (token : TokenAddress) : Ledger :=
  match l !! token with
  | Some tl => <[token := <[acct_public_key a := a]> tl]> l
  | None => <[token := {[ acct_public_key a := a ]}]> l
  end.

Definition remove_account (l : Ledger) (pk : PublicKey) (token : TokenAddress) : Ledger :=
  alter (delete pk) token l.

(** [_apply_account_diff]: the account, or an empty one, is taken out, updated and
    put back. *)
Definition ledger_apply_account_diff (l : Ledger) (d : AccountDiff) : res Ledger :=
  let pk := public_key d in
  let token := token_address d in
  let account := default (account_empty pk token) (get_account l pk token) in
  account ← apply_account_diff account d;
  Ok (insert_account (remove_account l pk token) account token).

(** [_apply_diff] and [apply_diff] *)
Definition ledger_apply_diff (l : Ledger) (diff : LedgerDiff) : res Ledger :=
  foldM ledger_apply_account_diff l (concat (ld_account_diffs diff)).

Definition apply_diff_from_precomputed `{Decimal} `{HashMapIter} (l : Ledger)
    (b : PrecomputedBlock) : res Ledger :=
  diff ← from_precomputed b; ledger_apply_diff l diff.

(** One step of [_unapply_diff]; the steps run in the order of application. *)
Definition ledger_unapply_account_diff (new_pks : NewBalances) (l : Ledger) (d : AccountDiff)
  : res Ledger :=
  let pk := public_key d in
  let token := token_address d in
  let after := default (account_empty pk token) (get_account l pk token) in
  let l := remove_account l pk token in
  account ← unapply_account_diff after d (bool_decide (is_Some (new_pks !! pk)));
  Ok (match account with
      | Some account => alter (fun tl => <[pk := account]> tl) token l
      | None => remove_account l pk token
      end).

Definition ledger_unapply_diff (l : Ledger) (diff : LedgerDiff) : res Ledger :=
  foldM (ledger_unapply_account_diff (ld_new_pk_balances diff)) l
    (concat (ld_account_diffs diff)).

(** Sum of the time-locked balances of the timed accounts. *)
Definition token_time_locked_amount (l : TokenLedger) (curr_global_slot : Z) : res Z :=
  amounts ← mapM (fun a => current_minimum_balance a curr_global_slot)
              (filter (fun a => is_Some (acct_timing a)) (map_to_list l).*2);
  Ok (sum64 amounts).

Definition time_locked_amount (l : Ledger) (curr_global_slot : Z) : res Z :=
  mina_ledger ← expect_some (l !! token_default);
  token_time_locked_amount mina_ledger curr_global_slot.

(** [PartialEq]: the token ledgers (accounts) of either side are compared. *)
Definition token_ledger_eq (l1 l2 : TokenLedger) : bool :=
  forallb (fun pk => bool_decide (l1 !! pk = l2 !! pk)) ((map_to_list l1).*1) &&
  forallb (fun pk => bool_decide (l1 !! pk = l2 !! pk)) ((map_to_list l2).*1).

Definition option_eqb {A} (eqb : A -> A -> bool) (a b : option A) : bool :=
  match a, b with
  | Some a, Some b => eqb a b
  | None, None => true
  | _, _ => false
  end.

Definition ledger_eq (l1 l2 : Ledger) : bool :=
  forallb (fun t => option_eqb token_ledger_eq (l1 !! t) (l2 !! t)) ((map_to_list l1).*1) &&
  forallb (fun t => option_eqb token_ledger_eq (l1 !! t) (l2 !! t)) ((map_to_list l2).*1).

(** * [TokenLedger] *)

Definition token_ledger_apply_account_diff (l : TokenLedger) (d : AccountDiff)
  : res TokenLedger :=
  let pk := public_key d in
  let account := default (account_empty pk (token_address d)) (l !! pk) in
  account ← apply_account_diff account d;
  Ok (<[pk := account]> (delete pk l)).

Definition token_ledger_apply_diff (l : TokenLedger) (diff : LedgerDiff) : res TokenLedger :=
  foldM token_ledger_apply_account_diff l (concat (ld_account_diffs diff)).

Definition token_ledger_unapply_account_diff (new_pks : NewBalances) (l : TokenLedger)
    (d : AccountDiff) : res TokenLedger :=
  let pk := public_key d in
  let after := default (account_empty pk (token_address d)) (l !! pk) in
  let l := delete pk l in
  account ← unapply_account_diff after d (bool_decide (is_Some (new_pks !! pk)));
  Ok (match account with
      | Some account => <[pk := account]> l
      | None => delete pk l
      end).

Definition token_ledger_unapply_diff (l : TokenLedger) (diff : LedgerDiff) : res TokenLedger :=
  foldM (token_ledger_unapply_account_diff (ld_new_pk_balances diff)) l
    (concat (ld_account_diffs diff)).

(** [Ledger::from] and [TokenLedger::from]: accounts given by key, balance, nonce
    and delegate. *)
Definition account_from (e : string * Z * option Z * option string) : Account :=
  let '(pubkey, balance, nonce, delegation) := e in
  let pk := mkPk pubkey in
  mkAccount pk balance (default pk (mkPk <$> delegation)) false nonce None None None None None
    None None None.

Definition token_ledger_from (value : list (string * Z * option Z * option string))
  : TokenLedger :=
  fold_left (fun l e => <[acct_public_key (account_from e) := account_from e]> l) value ∅.

Definition ledger_from (value : list (string * Z * option Z * option string)) : Ledger :=
  from_mina_ledger (token_ledger_from value).

(** * [Account::apply_ledger_diff]: the diffs of one public key *)

Definition account_apply_ledger_diff (a : Account) (diff : LedgerDiff) : res Account :=
  let pk := acct_public_key a in
  foldM (fun acct d => if bool_decide (public_key d = pk) then apply_account_diff acct d
                       else Ok acct) a (concat (ld_account_diffs diff)).

(** * Lemmas *)

(** Accounts are well formed and stored under their public key. *)
Definition ledger_wf (l : Ledger) : Prop :=
  forall pk token a, get_account l pk token = Some a -> acct_public_key a = pk /\ account_wf a.

(** Diffs the blocks produce: expanded, and with the protocol's creation fee. *)
Definition diff_ok (d : AccountDiff) : Prop :=
  diff_wf d /\
  match d with
  | DZkapp _ => False
  | DZkappAccountCreationFee c => cfd_amount c = MAINNET_ACCOUNT_CREATION_FEE
  | _ => True
  end.

Definition key_of (d : AccountDiff) : PublicKey * TokenAddress := (public_key d, token_address d).

(** The account a diff applies to. *)
Definition account_or_empty (l : Ledger) (pk : PublicKey) (token : TokenAddress) : Account :=
  default (account_empty pk token) (get_account l pk token).

Lemma account_empty_wf pk token : account_wf (account_empty pk token).
Proof. repeat split; simpl; try done. Qed.

Lemma account_or_empty_wf l pk token :
  ledger_wf l -> acct_public_key (account_or_empty l pk token) = pk /\
                 account_wf (account_or_empty l pk token).
Proof.
  intros Hl. unfold account_or_empty. destruct (get_account l pk token) as [a|] eqn:E; simpl.
  - by eapply Hl.
  - split; [done|apply account_empty_wf].
Qed.

Lemma diff_ok_applicable a d : acct_public_key a = public_key d -> diff_ok d -> applicable a d = true.
Proof.
  intros Hpk [_ Hd]. destruct d; try done; simpl in *.
  - by apply bool_decide_eq_true.
  - by apply Z.eqb_eq.
Qed.

Lemma get_account_put l a token pk' token' :
  get_account (insert_account (remove_account l (acct_public_key a) token) a token) pk' token' =
  if decide ((pk', token') = (acct_public_key a, token)) then Some a
  else get_account l pk' token'.
Proof.
  unfold get_account, get_token_ledger, insert_account, remove_account.
  set (pk := acct_public_key a). rewrite lookup_alter_eq.
  destruct (decide ((pk', token') = (pk, token))) as [[= -> ->]|Hne].
  - destruct (l !! token); simpl; rewrite lookup_insert_eq; simpl;
      [by rewrite lookup_insert_eq|by rewrite lookup_singleton_eq].
  - destruct (decide (token' = token)) as [->|Ht].
    + assert (pk <> pk') by congruence.
      destruct (l !! token) as [tl|]; simpl; rewrite lookup_insert_eq; simpl;
        [by rewrite lookup_insert_ne, lookup_delete_ne|by rewrite lookup_singleton_ne].
    + destruct (l !! token) as [tl|]; simpl;
        by rewrite lookup_insert_ne, lookup_alter_ne by done.
Qed.

(** One diff succeeds on a well-formed ledger, updates its account and no other. *)
Lemma ledger_apply_account_diff_ok l d :
  ledger_wf l -> diff_ok d ->
  exists a l', apply_account_diff (account_or_empty l (public_key d) (token_address d)) d = Ok a /\
    ledger_apply_account_diff l d = Ok l' /\ ledger_wf l' /\
    forall pk token, get_account l' pk token =
      if decide ((pk, token) = key_of d) then Some a else get_account l pk token.
Proof.
  intros Hl Hd. destruct (account_or_empty_wf l (public_key d) (token_address d) Hl) as [Hpk Hwf].
  destruct (apply_account_diff_ok _ d Hwf (proj1 Hd)) as (a & E & Ha & Hpka & _).
  { by apply diff_ok_applicable. }
  assert (acct_public_key a = public_key d) as Hk by congruence.
  unfold ledger_apply_account_diff. fold (account_or_empty l (public_key d) (token_address d)).
  rewrite E. do 2 eexists. split; [done|]. split; [reflexivity|].
  rewrite <- Hk.
  split.
  - intros pk token a'. rewrite get_account_put. destruct (decide _) as [[= -> ->]|].
    + intros [= <-]. done.
    + apply Hl.
  - intros pk token. rewrite get_account_put. unfold key_of. by rewrite Hk.
Qed.

(** The diffs of one token account, in order. *)
Definition diffs_of (pk : PublicKey) (token : TokenAddress) (ds : list AccountDiff)
  : list AccountDiff :=
  filter (fun d => key_of d = (pk, token)) ds.

(** A loop over diffs is, account by account, the loop over the account's diffs. *)
Lemma foldM_ledger_ok ds l :
  ledger_wf l -> Forall diff_ok ds ->
  exists l', foldM ledger_apply_account_diff l ds = Ok l' /\ ledger_wf l' /\
    forall pk token,
      foldM apply_account_diff (account_or_empty l pk token) (diffs_of pk token ds) =
        Ok (account_or_empty l' pk token) /\
      (diffs_of pk token ds = [] -> get_account l' pk token = get_account l pk token) /\
      (diffs_of pk token ds <> [] ->
         get_account l' pk token = Some (account_or_empty l' pk token)).
Proof.
  intros Hl Hds. revert l Hl. induction Hds as [|d ds Hd _ IH]; intros l Hl; [by exists l|].
  destruct (ledger_apply_account_diff_ok l d Hl Hd) as (a & l1 & Ea & El1 & Hl1 & Hget).
  destruct (IH l1 Hl1) as (l' & E' & Hl' & Hspec). exists l'. simpl. rewrite El1.
  split; [done|]. split; [done|]. intros pk token. destruct (Hspec pk token) as (H1 & H2 & H3).
  unfold diffs_of. rewrite filter_cons. destruct (decide (key_of d = (pk, token))) as [Hk|Hk].
  - assert (get_account l1 pk token = Some a) as Hg
      by (rewrite Hget; by rewrite decide_True).
    injection Hk as <- <-. simpl. rewrite Ea. simpl.
    assert (account_or_empty l1 (public_key d) (token_address d) = a) as Ha1
      by (unfold account_or_empty; by rewrite Hg).
    rewrite Ha1 in H1. split; [done|]. split; [done|]. intros _.
    destruct (decide (diffs_of (public_key d) (token_address d) ds = [])) as [Hn|Hn]; [|by auto].
    rewrite (H2 Hn), Hg. unfold account_or_empty. by rewrite (H2 Hn), Hg.
  - assert (get_account l1 pk token = get_account l pk token) as Hg
      by (rewrite Hget; by rewrite decide_False).
    unfold account_or_empty in H1 at 1. rewrite Hg in H1.
    fold (account_or_empty l pk token) in H1. rewrite Hg in H2. done.
Qed.

(** C18: Applying a ledger diff to a well-formed ledger succeeds, keeps it well formed, and
    is, account by account, the application of the account's own diffs in
    order, starting from the stored account or from an empty one; token accounts
    without a diff are left as they are. *)
Theorem ledger_apply_refines_accounts l diff :
  ledger_wf l -> Forall diff_ok (concat (ld_account_diffs diff)) ->
  exists l', ledger_apply_diff l diff = Ok l' /\ ledger_wf l' /\
    forall pk token,
      let mine := diffs_of pk token (concat (ld_account_diffs diff)) in
      foldM apply_account_diff (account_or_empty l pk token) mine =
        Ok (account_or_empty l' pk token) /\
      (mine = [] -> get_account l' pk token = get_account l pk token) /\
      (mine <> [] -> get_account l' pk token = Some (account_or_empty l' pk token)).
Proof. intros. by apply foldM_ledger_ok. Qed.

(** ** One token *)

Lemma from_mina_apply_account_diff tl d :
  ledger_wf (from_mina_ledger tl) -> diff_ok d -> token_address d = token_default ->
  exists tl', token_ledger_apply_account_diff tl d = Ok tl' /\
    ledger_apply_account_diff (from_mina_ledger tl) d = Ok (from_mina_ledger tl').
Proof.
  intros Hl Hd Ht.
  destruct (ledger_apply_account_diff_ok _ d Hl Hd) as (a & l1 & Ea & El1 & Hl1 & _).
  destruct (account_or_empty_wf (from_mina_ledger tl) (public_key d) (token_address d) Hl)
    as [Hpk Hwf].
  destruct (apply_account_diff_ok _ d Hwf (proj1 Hd)) as (a' & E & _ & Hpka & _).
  { by apply diff_ok_applicable. }
  rewrite Ea in E. injection E as <-.
  unfold ledger_apply_account_diff, token_ledger_apply_account_diff in *.
  unfold account_or_empty, get_account, get_token_ledger, from_mina_ledger in *. rewrite Ht in *.
  rewrite lookup_singleton_eq in *. cbn [mbind option_bind] in *. rewrite Ea.
  eexists. split; [reflexivity|]. cbn [mbind res_bind]. f_equal.
  unfold insert_account, remove_account. rewrite lookup_alter_eq, lookup_singleton_eq.
  cbn [fmap option_fmap option_map]. rewrite alter_singleton_eq, insert_singleton_eq.
  do 2 f_equal. congruence.
Qed.

(** The ledger of all tokens and the ledger of one token agree: on diffs of the MINA
    token, applying to the full ledger made of a MINA ledger gives the full
    ledger made of the result of applying to the MINA ledger. *)
Theorem token_ledger_refines_ledger tl diff :
  ledger_wf (from_mina_ledger tl) -> Forall diff_ok (concat (ld_account_diffs diff)) ->
  Forall (fun d => token_address d = token_default) (concat (ld_account_diffs diff)) ->
  exists tl', token_ledger_apply_diff tl diff = Ok tl' /\
    ledger_apply_diff (from_mina_ledger tl) diff = Ok (from_mina_ledger tl').
Proof.
  unfold token_ledger_apply_diff, ledger_apply_diff.
  intros Hl Hds. revert tl Hl. induction Hds as [|d ds Hd _ IH]; intros tl Hl Ht; [by exists tl|].
  apply Forall_cons in Ht as [Ht Hts].
  destruct (from_mina_apply_account_diff tl d Hl Hd Ht) as (tl1 & E1 & E2).
  simpl. rewrite E1, E2. cbn [mbind res_bind]. apply IH; [|done].
  destruct (ledger_apply_account_diff_ok _ d Hl Hd) as (a & l1 & _ & E & Hl1 & _).
  rewrite E2 in E. by injection E as <-.
Qed.

(** ** Equality *)

Lemma forallb_keys {K A B} `{Countable K} (m1 : gmap K A) (m2 : gmap K B) (f : K -> bool) :
  forallb f ((map_to_list m1).*1) && forallb f ((map_to_list m2).*1) = true <->
  forall k, is_Some (m1 !! k) \/ is_Some (m2 !! k) -> f k = true.
Proof.
  assert (forall C (m : gmap K C),
    forallb f ((map_to_list m).*1) = true <-> forall k, is_Some (m !! k) -> f k = true) as Hm.
  { intros C m. rewrite forallb_forall. split; intros Hf k.
    - intros [x Hx]. apply Hf, list_elem_of_In, list_elem_of_fmap.
      exists (k, x). split; [done|by apply elem_of_map_to_list].
    - intros ([k' x] & -> & Hx)%list_elem_of_In%list_elem_of_fmap. apply Hf.
      apply elem_of_map_to_list in Hx. by eexists. }
  rewrite andb_true_iff, !Hm. naive_solver.
Qed.

Lemma token_ledger_eq_iff l1 l2 : token_ledger_eq l1 l2 = true <-> l1 = l2.
Proof.
  unfold token_ledger_eq. rewrite forallb_keys. setoid_rewrite bool_decide_eq_true.
  split; [|by intros ->]. intros Hk. apply map_eq. intros pk.
  destruct (l1 !! pk) eqn:E1, (l2 !! pk) eqn:E2; try done; rewrite <- E1, <- E2; apply Hk; eauto.
Qed.

(** The equality of ledgers, which walks the keys of both sides and compares the two
    lookups, holds exactly when the ledgers have the same token accounts. *)
Theorem ledger_eq_correct l1 l2 : ledger_eq l1 l2 = true <-> l1 = l2.
Proof.
  unfold ledger_eq. rewrite forallb_keys.
  assert (forall o1 o2, option_eqb token_ledger_eq o1 o2 = true <-> o1 = o2) as Ho.
  { intros [x|] [y|]; simpl; try (split; congruence). rewrite token_ledger_eq_iff.
    split; congruence. }
  setoid_rewrite Ho. split; [|by intros ->]. intros Hk. apply map_eq. intros t.
  destruct (l1 !! t) eqn:E1, (l2 !! t) eqn:E2; try done; rewrite <- E1, <- E2; apply Hk; eauto.
Qed.

Definition ledger_example : Ledger :=
  from_mina_ledger (token_ledger_from
    [(pk_str alice, 1000, Some 4, None); (pk_str bob, 50, None, Some (pk_str carol))]).

Definition payments_example (token : TokenAddress) : LedgerDiff :=
  with_account_diffs
    [[DPayment (mkPaymentDiff Credit bob 300 token);
      DPayment (mkPaymentDiff (Debit (Some 5)) alice 300 token)];
     [DPayment (mkPaymentDiff Credit carol 100 token);
      DPayment (mkPaymentDiff (Debit (Some 6)) alice 100 token)]] ledger_diff_default.

(** Well-formedness of a concrete ledger, by computation. *)
Definition account_wfb (a : Account) : bool :=
  bool_decide (u64 (acct_balance a)) &&
  match acct_nonce a with Some n => bool_decide (u32 n) | None => true end &&
  match acct_zkapp a with
  | Some z => (length (app_state z) =? 8)%nat && (length (action_state z) =? 5)%nat
  | None => true
  end.
Definition ledger_wfb (l : Ledger) : bool :=
  forallb (fun e : TokenAddress * TokenLedger =>
    forallb (fun e' : PublicKey * Account =>
      bool_decide (acct_public_key e'.2 = e'.1) && account_wfb e'.2) (map_to_list e.2))
    (map_to_list l).

Lemma ledger_wfb_wf l : ledger_wfb l = true -> ledger_wf l.
Proof.
  unfold ledger_wfb. intros Hl pk token a Ha. unfold get_account, get_token_ledger in Ha.
  destruct (l !! token) as [tl|] eqn:Et; [|done]. simpl in Ha.
  apply forallb_Forall in Hl. rewrite Forall_forall in Hl.
  specialize (Hl (token, tl)). rewrite elem_of_map_to_list in Hl. specialize (Hl Et).
  apply forallb_Forall in Hl. rewrite Forall_forall in Hl.
  specialize (Hl (pk, a)). rewrite elem_of_map_to_list in Hl. specialize (Hl Ha). simpl in Hl.
  apply andb_true_iff in Hl as [Hpk%bool_decide_eq_true Hwf]. split; [done|].
  unfold account_wfb in Hwf. rewrite !andb_true_iff, bool_decide_eq_true in Hwf.
  destruct Hwf as [[Hb Hn] Hz]. split; [done|]. split.
  - destruct (acct_nonce a); [by apply bool_decide_eq_true in Hn|done].
  - destruct (acct_zkapp a); [|done].
    apply andb_true_iff in Hz as [H1%Nat.eqb_eq H2%Nat.eqb_eq]. by split.
Qed.

(** The same for diffs. *)
Definition update_type_wfb (u : UpdateType) : bool :=
  match u with Debit (Some n) => bool_decide (u32 n) | _ => true end.
Definition diff_okb (d : AccountDiff) : bool :=
  match d with
  | DPayment d | DFeeTransfer d | DFeeTransferViaCoinbase d =>
    bool_decide (u64 (pd_amount d)) && update_type_wfb (update_type d)
  | DDelegation d => bool_decide (u32 (dd_nonce d))
  | DCoinbase d => bool_decide (u64 (cd_amount d))
  | DFailedTransactionNonce d => bool_decide (u32 (fd_nonce d))
  | DZkappState d => (length (sd_diffs d) =? ZKAPP_STATE_FIELD_ELEMENTS_NUM)%nat
  | DZkappAccountCreationFee d =>
    bool_decide (u64 (cfd_amount d)) && (cfd_amount d =? MAINNET_ACCOUNT_CREATION_FEE)
  | DZkapp _ => false
  | _ => true
  end.

Lemma update_type_wfb_wf u : update_type_wfb u = true -> update_type_wf u.
Proof. destruct u as [[n|]|]; [|done..]. by intros ?%bool_decide_eq_true. Qed.

Lemma diffs_okb_ok ds : forallb diff_okb ds = true -> Forall diff_ok ds.
Proof.
  intros H%forallb_Forall. eapply Forall_impl; [exact H|]. clear.
  intros d Hd. destruct d; simpl in *; try (by split).
  all: try (by apply bool_decide_eq_true in Hd; split).
  all: try (apply andb_true_iff in Hd as [H1%bool_decide_eq_true H2];
            split; [split; [done|by apply update_type_wfb_wf]|done]).
  - split; [by apply Nat.eqb_eq|done].
  - apply andb_true_iff in Hd as [H1%bool_decide_eq_true H2%Z.eqb_eq]. by split.
Qed.

Lemma ledger_apply_refines_accounts_witness :
  exists l', ledger_apply_diff ledger_example (payments_example token_default) = Ok l' /\
    get_account l' alice token_default =
      Some (with_nonce (Some 6) (with_balance (fun _ => 600)
             (account_from (pk_str alice, 1000, Some 4, None)))).
Proof.
  destruct (ledger_apply_refines_accounts ledger_example (payments_example token_default))
    as (l' & E & _ & Hs).
  - apply ledger_wfb_wf. vm_compute. reflexivity.
  - apply diffs_okb_ok. vm_compute. reflexivity.
  - exists l'. split; [exact E|]. destruct (Hs alice token_default) as (H1 & _ & H3).
    rewrite H3 by (vm_compute; discriminate). f_equal.
    apply (f_equal (fun r => match r with Ok a => a | _ => account_default end)) in H1.
    simpl in H1. rewrite <- H1. vm_compute. reflexivity.
Defined.

Lemma token_ledger_refines_ledger_witness :
  exists tl', ledger_apply_diff ledger_example (payments_example token_default) =
    Ok (from_mina_ledger tl').
Proof.
  destruct (token_ledger_refines_ledger (token_ledger_from
    [(pk_str alice, 1000, Some 4, None); (pk_str bob, 50, None, Some (pk_str carol))])
    (payments_example token_default)) as (tl' & _ & E).
  - apply ledger_wfb_wf. vm_compute. reflexivity.
  - apply diffs_okb_ok. vm_compute. reflexivity.
  - repeat constructor.
  - exists tl'. exact E.
Defined.

(** ** Accounts of one key, whatever the token *)

Lemma foldM_filter {A} (f : A -> AccountDiff -> res A) (P : AccountDiff -> Prop)
    `{forall d, Decision (P d)} a ds :
  foldM (fun a d => if bool_decide (P d) then f a d else Ok a) a ds = foldM f a (filter P ds).
Proof.
  revert a; induction ds as [|d ds IH]; intros a; [done|]. rewrite filter_cons. simpl.
  destruct (decide (P d)).
  - rewrite bool_decide_true by done. simpl. destruct (f a d); simpl; [apply IH|done|done].
  - rewrite bool_decide_false by done. simpl. apply IH.
Qed.

(** [Account::apply_ledger_diff], which rebuilds a staged account from the diffs of
    later blocks, selects diffs by public key alone.  It agrees with the
    application to the ledger when every diff of the key is of the account's
    token, but a payment of another token is added to the account's own balance, which
    the ledger leaves unchanged. *)
Theorem staged_account_mixes_tokens l pk token :
  ledger_wf l ->
  (forall diff, Forall diff_ok (concat (ld_account_diffs diff)) ->
     Forall (fun d => public_key d = pk -> token_address d = token)
       (concat (ld_account_diffs diff)) ->
     exists l', ledger_apply_diff l diff = Ok l' /\
       account_apply_ledger_diff (account_or_empty l pk token) diff =
         Ok (account_or_empty l' pk token)) /\
  (forall a p, get_account l pk token = Some a -> pd_public_key p = pk -> pd_token p <> token ->
     diff_ok (DPayment p) ->
     let diff := with_account_diffs [[DPayment p]] ledger_diff_default in
     exists l', ledger_apply_diff l diff = Ok l' /\ get_account l' pk token = Some a /\
       account_apply_ledger_diff a diff = Ok (payment a p)).
Proof.
  intros Hl. unfold ledger_apply_diff, account_apply_ledger_diff. split.
  - intros diff Hd Ht.
    destruct (foldM_ledger_ok (concat (ld_account_diffs diff)) l Hl Hd) as (l' & E & _ & Hs).
    exists l'. split; [done|]. destruct (Hs pk token) as (H1 & _ & _). rewrite <- H1.
    destruct (account_or_empty_wf l pk token Hl) as [-> _].
    rewrite (foldM_filter apply_account_diff (fun d => public_key d = pk)). f_equal.
    unfold diffs_of. apply filter_ext_elem. intros d Hin. unfold key_of.
    rewrite Forall_forall in Ht. specialize (Ht d Hin). naive_solver.
  - intros a p Ha <- Ht Hd. cbn [ld_account_diffs with_account_diffs concat app].
    destruct (foldM_ledger_ok [DPayment p] l Hl) as (l' & E & _ & Hs);
      [by apply Forall_singleton|].
    exists l'. split; [exact E|]. destruct (Hs (pd_public_key p) token) as (_ & H2 & _).
    split.
    + rewrite H2; [done|]. unfold diffs_of. rewrite filter_cons_False; [done|].
      unfold key_of; simpl. congruence.
    + destruct (Hl _ _ _ Ha) as [-> _]. simpl. by rewrite bool_decide_true.
Qed.

Definition custom_token : TokenAddress :=
  mkToken "xosVXFFDvDiKvHSDAaHvrTSRtoa5Graf2J7LM5Smb4GNTrT2Hn".

Lemma staged_account_mixes_tokens_witness :
  let p := mkPaymentDiff Credit alice 7 custom_token in
  let diff := with_account_diffs [[DPayment p]] ledger_diff_default in
  exists l' a, ledger_apply_diff ledger_example diff = Ok l' /\
    get_account l' alice token_default = Some a /\ acct_balance a = 1000 /\
    account_apply_ledger_diff a diff = Ok (with_balance (fun _ => 1007) a).
Proof.
  intros p diff.
  destruct (staged_account_mixes_tokens ledger_example alice token_default) as [_ H2].
  { apply ledger_wfb_wf. vm_compute. reflexivity. }
  destruct (H2 (account_from (pk_str alice, 1000, Some 4, None)) p) as (l' & E & Hg & Ea);
    [vm_compute; reflexivity|reflexivity|discriminate|by vm_compute; repeat split; discriminate|].
  exists l', (account_from (pk_str alice, 1000, Some 4, None)). by rewrite Hg.
Defined.

(** A zkapp diff names a token account, but is routed by [token_address], which
    answers MINA for it: the token account it names is left unchanged and the
    MINA account of the same key is given the app state. *)
Theorem zkapp_state_routed_to_mina l (d : ZkappStateDiff) :
  ledger_wf l -> length (sd_diffs d) = ZKAPP_STATE_FIELD_ELEMENTS_NUM ->
  sd_token d <> token_default ->
  exists l' a, ledger_apply_account_diff l (DZkappState d) = Ok l' /\
    get_account l' (sd_public_key d) (sd_token d) = get_account l (sd_public_key d) (sd_token d) /\
    get_account l' (sd_public_key d) token_default = Some a /\ is_zkapp_account a = true.
Proof.
  intros Hl Hd Ht.
  destruct (ledger_apply_account_diff_ok l (DZkappState d) Hl) as (a & l' & Ea & El & _ & Hg);
    [by split|].
  exists l', a. split; [done|]. rewrite !Hg. unfold key_of; simpl in *.
  rewrite decide_False, decide_True by congruence. split; [done|]. split; [done|].
  destruct (account_or_empty_wf l (sd_public_key d) token_default Hl) as [_ Hwf].
  destruct (zkapp_state_ok _ d Hwf Hd) as (z & Ez & _). rewrite Ez in Ea.
  injection Ea as <-. by destruct (account_or_empty l (sd_public_key d) token_default).
Qed.

Lemma zkapp_state_routed_to_mina_witness :
  exists l' a, ledger_apply_account_diff ledger_example (DZkappState
      (mkZkappStateDiff custom_token alice true (replicate 8 (Some app_state_default)))) = Ok l' /\
    get_account l' alice custom_token = None /\
    get_account l' alice token_default = Some a /\ is_zkapp_account a = true.
Proof.
  apply (zkapp_state_routed_to_mina ledger_example
    (mkZkappStateDiff custom_token alice true (replicate 8 (Some app_state_default)))).
  - apply ledger_wfb_wf. vm_compute. reflexivity.
  - reflexivity.
  - discriminate.
Defined.

(** * Undoing a ledger diff *)

(** Undoing one diff of an existing account that is not removed. *)
Lemma ledger_unapply_account_diff_ok new_pks l d after a :
  get_account l (public_key d) (token_address d) = Some after ->
  new_pks !! public_key d = None -> unapply_account_diff after d false = Ok (Some a) ->
  exists l', ledger_unapply_account_diff new_pks l d = Ok l' /\
    forall pk token, get_account l' pk token =
      if decide ((pk, token) = key_of d) then Some a else get_account l pk token.
Proof.
  intros Hg Hn Hu. unfold ledger_unapply_account_diff. rewrite Hg, Hn.
  rewrite bool_decide_false by (by intros [? ?]). cbn [from_option id]. rewrite Hu.
  eexists. split; [reflexivity|]. intros pk token. unfold key_of.
  unfold get_account, get_token_ledger, remove_account in *.
  destruct (l !! token_address d) as [tl|] eqn:Et; [|done].
  destruct (decide (token = token_address d)) as [->|Ht].
  - rewrite lookup_alter_eq, lookup_alter_eq, Et. simpl.
    destruct (decide (pk = public_key d)) as [->|Hpk].
    + by rewrite lookup_insert_eq, decide_True.
    + rewrite lookup_insert_ne, lookup_delete_ne by done.
      by rewrite decide_False by congruence.
  - rewrite !lookup_alter_ne by done. by rewrite decide_False by congruence.
Qed.

(** Undoing diffs of distinct accounts, each of which is undone to [old]. *)
Lemma foldM_unapply_ok new_pks ds l old :
  NoDup (key_of <$> ds) ->
  Forall (fun d => new_pks !! public_key d = None /\ exists after,
    get_account l (public_key d) (token_address d) = Some after /\
    unapply_account_diff after d false = Ok (Some (old d))) ds ->
  exists l', foldM (ledger_unapply_account_diff new_pks) l ds = Ok l' /\
    (forall d, d ∈ ds -> get_account l' (public_key d) (token_address d) = Some (old d)) /\
    (forall pk token, (pk, token) ∉ key_of <$> ds ->
       get_account l' pk token = get_account l pk token).
Proof.
  revert l; induction ds as [|d ds IH]; intros l Hnd Hds.
  { exists l. split; [done|]. split; [by intros d ?%elem_of_nil|done]. }
  rewrite fmap_cons in *. apply NoDup_cons in Hnd as [Hnotin Hnd].
  apply Forall_cons in Hds as [(Hn & after & Hg & Hu) Hds].
  destruct (ledger_unapply_account_diff_ok new_pks l d after (old d) Hg Hn Hu)
    as (l1 & E1 & Hg1).
  destruct (IH l1 Hnd) as (l' & E' & Hin & Hout).
  { apply Forall_forall. intros d' Hd'. rewrite Forall_forall in Hds.
    destruct (Hds d' Hd') as (Hn' & after' & Hg' & Hu'). split; [done|]. exists after'.
    split; [|done]. rewrite Hg1, decide_False; [done|].
    intros Hk. apply Hnotin. rewrite <- Hk. by apply (list_elem_of_fmap_2 key_of). }
  exists l'. simpl. rewrite E1. split; [exact E'|]. split.
  - intros d' [->|Hd']%elem_of_cons; [|by apply Hin].
    rewrite Hout by done. by rewrite Hg1, decide_True.
  - intros pk token Hk. rewrite not_elem_of_cons in Hk. destruct Hk as [Hne Hk].
    rewrite Hout by done. by rewrite Hg1, decide_False.
Qed.

Lemma diffs_of_single ds d :
  NoDup (key_of <$> ds) -> d ∈ ds -> diffs_of (public_key d) (token_address d) ds = [d].
Proof.
  unfold diffs_of. induction ds as [|d' ds IH]; [by intros _ ?%elem_of_nil|].
  rewrite fmap_cons. intros [Hnotin Hnd]%NoDup_cons [->|Hin]%elem_of_cons.
  - rewrite filter_cons_True by done. f_equal.
    clear IH Hnd. induction ds as [|d0 ds IH]; [done|].
    rewrite fmap_cons, not_elem_of_cons in Hnotin. destruct Hnotin as [Hne Hnotin].
    rewrite filter_cons_False; [by apply IH|]. intros Hk. apply Hne. by rewrite Hk.
  - rewrite filter_cons_False; [by apply IH|]. intros Hk. apply Hnotin.
    replace (key_of d') with (key_of d) by done. by apply (list_elem_of_fmap_2 key_of).
Qed.

(** Undoing a ledger diff right after applying it restores every account, when the
    diffs are of distinct existing accounts, each reversible on its account,
    and none of the keys is new in the block. *)
Theorem ledger_unapply_apply l diff :
  ledger_wf l ->
  let ds := concat (ld_account_diffs diff) in
  Forall diff_ok ds -> NoDup (key_of <$> ds) ->
  Forall (fun d => ld_new_pk_balances diff !! public_key d = None /\
    exists a, get_account l (public_key d) (token_address d) = Some a /\ reversible a d) ds ->
  exists l1 l2, ledger_apply_diff l diff = Ok l1 /\ ledger_unapply_diff l1 diff = Ok l2 /\
    forall pk token, get_account l2 pk token = get_account l pk token.
Proof.
  intros Hl ds Hok Hnd Hrev. destruct (foldM_ledger_ok ds l Hl Hok) as (l1 & E1 & Hl1 & Hs).
  exists l1.
  set (old d := account_or_empty l (public_key d) (token_address d)).
  destruct (foldM_unapply_ok (ld_new_pk_balances diff) ds l1 old Hnd) as (l2 & E2 & Hin & Hout).
  - apply Forall_forall. intros d Hd. rewrite Forall_forall in Hrev, Hok.
    destruct (Hrev d Hd) as (Hn & a & Ha & Hr). split; [done|].
    destruct (Hs (public_key d) (token_address d)) as (H1 & _ & H3).
    rewrite (diffs_of_single ds d Hnd Hd) in H1, H3.
    exists (account_or_empty l1 (public_key d) (token_address d)). split; [by apply H3|].
    assert (old d = a) as -> by (unfold old, account_or_empty; by rewrite Ha).
    unfold account_or_empty in H1 at 1. rewrite Ha in H1. cbn [from_option id] in H1.
    simpl in H1. destruct (apply_account_diff a d) as [a'| |] eqn:Ea; [|done..].
    injection H1 as <-. apply unapply_apply_exact; [by apply (Hl _ _ _ Ha)|apply Hok, Hd|done|done].
  - exists l2. split; [done|]. split; [done|]. intros pk token.
    destruct (decide ((pk, token) ∈ key_of <$> ds)) as [(d & Hk & Hd)%list_elem_of_fmap|Hk].
    + injection Hk as -> ->. rewrite Hin by done. rewrite Forall_forall in Hrev.
      destruct (Hrev d Hd) as (_ & a & Ha & _). unfold old, account_or_empty. by rewrite Ha.
    + rewrite Hout by done. apply Hs. unfold diffs_of.
      clear -Hk. induction ds as [|d ds IH]; [done|].
      rewrite fmap_cons, not_elem_of_cons in Hk. destruct Hk as [Hne Hk].
      rewrite filter_cons_False; [by apply IH|]. congruence.
Qed.

Lemma ledger_unapply_apply_witness :
  let diff := with_account_diffs
    [[DPayment (mkPaymentDiff Credit bob 300 token_default);
      DPayment (mkPaymentDiff (Debit (Some 5)) alice 300 token_default)]] ledger_diff_default in
  exists l1 l2, ledger_apply_diff ledger_example diff = Ok l1 /\ ledger_unapply_diff l1 diff = Ok l2 /\
    forall pk token, get_account l2 pk token = get_account ledger_example pk token.
Proof.
  intros diff. apply (ledger_unapply_apply ledger_example diff).
  - apply ledger_wfb_wf. vm_compute. reflexivity.
  - apply diffs_okb_ok. vm_compute. reflexivity.
  - apply (bool_decide_eq_true_1 (NoDup _)). vm_compute. reflexivity.
  - apply Forall_cons. split; [|apply Forall_cons; split; [|constructor]];
      (split; [reflexivity|]); eexists; (split; [vm_compute; reflexivity|]);
      vm_compute; repeat split; discriminate.
Defined.

(** Diffs are undone in the order in which they were applied: after undoing a block with
    two payments of one account, its balance is restored but its nonce is the one
    between the two payments. *)
Theorem unapply_forward_keeps_nonce :
  let alice_before := account_from (pk_str alice, 1000, Some 4, None) in
  get_account ledger_example alice token_default = Some alice_before /\
  (l1 ← ledger_apply_diff ledger_example (payments_example token_default);
   l2 ← ledger_unapply_diff l1 (payments_example token_default);
   Ok (get_account l2 alice token_default)) = Ok (Some (with_nonce (Some 5) alice_before)).
Proof. split; vm_compute; reflexivity. Qed.
