(* ===== verification/Supply.v ===== *)
(** The supply of MINA: the total held by the accounts of a ledger and how applying
    blocks changes it. *)

From S2P Require Import Prelude Bytes Base Command AccountDiff Account Coinbase Precomputed LedgerDiff Ledger.

(** * Total supply *)

(** The MINA held by all accounts. *)
Definition mina_balances (l : Ledger) : gmap PublicKey Z :=
  acct_balance <$> default ∅ (l !! token_default).
Definition mina_total (l : Ledger) : Z := map_wsum one (mina_balances l).

(** What a diff adds to the balance of its account. *)
Definition delta (d : AccountDiff) : Z :=
  sumZ (signed_amount <$> payments_of_diff d) +
  match d with DZkappAccountCreationFee c => cfd_amount c | _ => 0 end.
Definition mina_delta (d : AccountDiff) : Z :=
  if bool_decide (token_address d = token_default) then delta d else 0.

(** The balance neither wraps nor is clamped at zero. *)
Definition exact (a : Account) (d : AccountDiff) : bool :=
  (0 <=? acct_balance a + delta d) && (acct_balance a + delta d <=? U64_MAX).

(** So for every diff of a sequence. *)
Fixpoint exact_run (l : Ledger) (ds : list AccountDiff) : bool :=
  match ds with
  | [] => true
  | d :: ds =>
    exact (account_or_empty l (public_key d) (token_address d)) d &&
    match ledger_apply_account_diff l d with Ok l' => exact_run l' ds | _ => true end
  end.

Lemma amount_sub_neg b amt : 0 <= b + - amt -> amount_sub b amt = b - amt.
Proof. intros. apply amount_sub_exact. lia. Qed.

Lemma acct_balance_with_nonce n a : acct_balance (with_nonce n a) = acct_balance a.
Proof. by destruct a. Qed.
Lemma acct_balance_with_balance f a : acct_balance (with_balance f a) = f (acct_balance a).
Proof. by destruct a. Qed.
#[export] Hint Rewrite acct_balance_with_nonce acct_balance_with_balance : indexer_rw.

(** Without wrapping or clamping, a diff changes the balance by its [delta]. *)
Lemma apply_account_diff_balance a d a' :
  u64 (acct_balance a) -> diff_ok d -> exact a d = true -> apply_account_diff a d = Ok a' ->
  acct_balance a' = acct_balance a + delta d.
Proof.
  intros Hb [Hwf Hd] Hex E. unfold exact in Hex.
  apply andb_true_iff in Hex as [H1%Z.leb_le H2%Z.leb_le]. unfold delta in *.
  assert (forall p, u64 (pd_amount p) /\ update_type_wf (update_type p) ->
    0 <= acct_balance a + signed_amount p -> acct_balance a + signed_amount p <= U64_MAX ->
    acct_balance (payment a p) = acct_balance a + signed_amount p) as Hpay.
  { intros p [Hp _] Hlo Hhi. unfold payment, credit, debit, signed_amount in *.
    destruct (update_type p); simpl in *; autorewrite with indexer_rw;
      [rewrite amount_sub_exact; lia|by apply amount_add_exact]. }
  destruct d; simpl in *; try done;
    try (injection E as <-; rewrite !Z.add_0_r in *; by apply Hpay);
    try (injection E as <-; destruct a; simpl; lia).
  - case_bool_decide; [|done]. injection E as <-. unfold delegation.
    autorewrite with indexer_rw. destruct a; simpl. lia.
  - injection E as <-. unfold coinbase, signed_amount in *. simpl in *.
    autorewrite with indexer_rw. rewrite amount_add_exact; ints.
  - unfold zkapp_state in E. destruct (foldM _ _ _); simpl in E; [|done..].
    injection E as <-. destruct a; simpl; lia.
  - unfold zkapp_actions in E. destruct (foldM _ _ _); simpl in E; [|done..].
    injection E as <-. destruct a; simpl; lia.
  - unfold zkapp_account_creation in E. rewrite Hd in *. simpl in E. injection E as <-.
    autorewrite with indexer_rw. rewrite amount_add_exact; ints.
Qed.

Lemma mina_total_put l a token :
  mina_total (insert_account (remove_account l (acct_public_key a) token) a token) =
  if bool_decide (token = token_default) then
    mina_total l - from_option acct_balance 0 (get_account l (acct_public_key a) token)
      + acct_balance a
  else mina_total l.
Proof.
  unfold mina_total, mina_balances, insert_account, remove_account, get_account, get_token_ledger.
  set (pk := acct_public_key a). rewrite lookup_alter_eq.
  case_bool_decide as Ht; [subst token|].
  - destruct (l !! token_default) as [tl|] eqn:E; simpl; rewrite lookup_insert_eq; simpl.
    + rewrite fmap_insert, fmap_delete.
      rewrite map_wsum_insert_None by apply lookup_delete_eq. unfold one at 1.
      destruct (tl !! pk) as [b|] eqn:Eb; simpl.
      * assert ((acct_balance <$> tl) !! pk = Some (acct_balance b)) as Hb
          by (by rewrite lookup_fmap, Eb).
        rewrite <- (insert_id _ pk _ Hb) at 2. rewrite <- (insert_delete_eq (acct_balance <$> tl)).
        rewrite map_wsum_insert_None by apply lookup_delete_eq. unfold one at 2. lia.
      * rewrite delete_id by (by rewrite lookup_fmap, Eb). lia.
    + rewrite map_fmap_singleton, fmap_empty. unfold map_wsum.
      rewrite map_to_list_singleton, map_to_list_empty. unfold wsum, one; simpl. lia.
  - destruct (l !! token) as [tl|]; simpl;
      by rewrite lookup_insert_ne, lookup_alter_ne by done.
Qed.

Lemma account_or_empty_balance l pk token :
  acct_balance (account_or_empty l pk token) =
  from_option acct_balance 0 (get_account l pk token).
Proof. unfold account_or_empty. by destruct (get_account l pk token). Qed.

Lemma exact_run_total l ds :
  ledger_wf l -> Forall diff_ok ds -> exact_run l ds = true ->
  exists l', foldM ledger_apply_account_diff l ds = Ok l' /\
    mina_total l' = mina_total l + sumZ (mina_delta <$> ds).
Proof.
  intros Hl Hds. revert l Hl. induction Hds as [|d ds Hd _ IH]; intros l Hl Hex.
  { exists l. split; [done|]. simpl; lia. }
  simpl in Hex. apply andb_true_iff in Hex as [Hex Hrun].
  destruct (ledger_apply_account_diff_ok l d Hl Hd) as (a & l1 & Ea & El1 & Hl1 & _).
  rewrite El1 in Hrun. destruct (IH l1 Hl1 Hrun) as (l' & E' & Ht).
  exists l'. csimpl. rewrite El1. split; [exact E'|]. rewrite Ht.
  enough (mina_total l1 = mina_total l + mina_delta d) by lia.
  destruct (account_or_empty_wf l (public_key d) (token_address d) Hl) as [Hpk Hwf].
  pose proof (apply_account_diff_balance _ d a (proj1 Hwf) Hd Hex Ea) as Hbal.
  destruct (apply_account_diff_ok _ d Hwf (proj1 Hd)) as (a' & Ea' & _ & Hpka & _);
    [by apply diff_ok_applicable|]. rewrite Ea in Ea'. injection Ea' as <-.
  assert (acct_public_key a = public_key d) as Hk by congruence.
  unfold ledger_apply_account_diff in El1.
  fold (account_or_empty l (public_key d) (token_address d)) in El1.
  rewrite Ea in El1. injection El1 as <-. rewrite <- Hk, mina_total_put, Hk.
  unfold mina_delta. rewrite account_or_empty_balance in Hbal. case_bool_decide; lia.
Qed.

(** ** Blocks without applied zkapp commands *)

(** Diffs of MINA payments, delegations, coinbases and failed commands. *)
Definition basic (d : AccountDiff) : bool :=
  match d with
  | DPayment p | DFeeTransfer p | DFeeTransferViaCoinbase p =>
    bool_decide (pd_token p = token_default)
  | DDelegation _ | DCoinbase _ | DFailedTransactionNonce _ => true
  | _ => false
  end.
Definition all_basic (diffs : list (list AccountDiff)) : Prop :=
  Forall (fun d => basic d = true) (concat diffs).

Lemma all_basic_app d1 d2 : all_basic d1 -> all_basic d2 -> all_basic (d1 ++ d2).
Proof. unfold all_basic. rewrite concat_app. apply Forall_app_2. Qed.

Lemma all_basic_concat l : Forall all_basic l -> all_basic (concat l).
Proof. induction 1; simpl; [constructor|by apply all_basic_app]. Qed.

Lemma fee_pairs_basic (to_ from_ : PublicKey -> PublicKey) es :
  all_basic (fee_pairs (fun k fee => fee_transfer_pair (to_ k) (from_ k) fee) es).
Proof.
  induction es as [|[k v] es IH]; [constructor|]. unfold fee_pairs in *. csimpl.
  apply all_basic_app; [|done]. destruct (v >? 0); repeat constructor.
Qed.

Lemma block_fees_basic `{HashMapIter} receiver pre post snarks :
  all_basic (from_block_fees receiver pre post snarks).
Proof.
  unfold from_block_fees, from_transaction_fees, transaction_fees, from_snark_fees.
  pose proof (fee_pairs_basic (fun _ => receiver) id) as Hu.
  pose proof (fee_pairs_basic id (fun _ => receiver)) as Hs. unfold id in *.
  auto using all_basic_app.
Qed.

Lemma coinbase_mut_basic c diffs diffs' :
  has_fee_transfer c = true -> account_diffs_coinbase_mut c diffs = Ok diffs' ->
  all_basic diffs -> all_basic diffs'.
Proof.
  intros (t & rest & E)%has_fee_transfer_first. unfold account_diffs_coinbase_mut. rewrite E.
  unfold create_payment_diffs. intros Em.
  edestruct (coinbase_mut_spec) as (ds & Eds & HF). rewrite Eds in Em. injection Em as <-.
  clear E Eds. induction HF as [|d d' l l' Hd _ IH]; [done|]. unfold all_basic in *. simpl.
  rewrite !Forall_app. intros [H1 H2]. split; [|by apply IH].
  destruct Hd as [->|[-> ->]]; [done|]. by repeat constructor.
Qed.

Lemma command_diffs_basic c diffs :
  is_zkapp_command c = false \/ is_applied c = false -> command_diffs c = Ok diffs ->
  all_basic diffs.
Proof.
  unfold command_diffs. intros [Hz|Ha].
  - destruct (is_applied c); [|intros [= <-]; repeat constructor].
    destruct c as [? [] ? ?|[? [] ?|] ?]; try done; intros [= <-]; repeat constructor.
  - rewrite Ha. intros [= <-]. repeat constructor.
Qed.

Lemma expand_basic diffs : all_basic diffs -> expand diffs = diffs.
Proof.
  unfold all_basic, expand. induction diffs as [|txn diffs IH]; [done|].
  rewrite fmap_cons. cbn [concat]. rewrite Forall_app. intros [Ht Hd]. rewrite IH by done.
  f_equal. clear -Ht. induction Ht as [|d l Hd _ IH]; [done|]. csimpl. rewrite IH. by destruct d.
Qed.

Lemma basic_no_zkapp_account diffs : all_basic diffs -> concat diffs ≫= zkapp_account = [].
Proof.
  unfold all_basic. induction 1 as [|d l Hd _ IH]; [done|]. csimpl. rewrite IH. by destruct d.
Qed.

(** On basic diffs the sum of the changes of all balances is the net payment. *)
Lemma basic_net diffs : all_basic diffs -> sumZ (mina_delta <$> concat diffs) = net diffs.
Proof.
  unfold all_basic, net, txn_payments. induction diffs as [|txn diffs IH]; [done|].
  rewrite !fmap_cons. cbn [concat]. rewrite Forall_app, fmap_app, sumZ_app. intros [Ht Hd]. rewrite IH by done.
  change (sumZ (?x :: ?l)) with (x + sumZ l). f_equal. clear -Ht.
  induction Ht as [|d l Hd _ IH]; [done|]. csimpl. rewrite fmap_app, sumZ_app, <- IH. f_equal.
  unfold mina_delta, delta.
  destruct d; simpl in *; try done; apply bool_decide_eq_true in Hd || idtac;
    rewrite ?bool_decide_true by done; lia.
Qed.

Section Blocks.
Context `{Decimal} `{HashMapIter}.

Lemma unexpanded_basic b u cmds :
  from_precomputed_unexpanded b = Ok u -> commands b = Ok cmds ->
  Forall (fun c => is_zkapp_command c = false \/ is_applied c = false) cmds ->
  all_basic (ld_account_diffs u).
Proof.
  intros E Hm Hz. unfold from_precomputed_unexpanded in E. rewrite Hm in E.
  do 3 inv_ok E. cbn [mbind res_bind] in E. do 4 inv_ok E.
  rename E3 into Htx, E5 into Hfees, E6 into Hrew. do 2 inv_ok E. injection E as <-. simpl.
  apply all_basic_app; [|apply all_basic_app].
  - apply all_basic_concat. apply mapM_res_Ok in Htx. clear -Htx Hz.
    induction Htx; [constructor|]. apply Forall_cons in Hz as [? ?].
    constructor; [by eapply command_diffs_basic|auto].
  - unfold as_account_diff in Hrew. destruct (is_coinbase_applied v3);
      injection Hrew as <-; repeat constructor.
  - destruct (has_fee_transfer v3) eqn:Hft.
    + eapply coinbase_mut_basic; [done|exact Hfees|apply block_fees_basic].
    + injection Hfees as <-. apply block_fees_basic.
Qed.

(** Nothing to expand, and no account created by a zkapp command. *)
Lemma from_precomputed_basic b d cmds :
  from_precomputed b = Ok d -> commands b = Ok cmds ->
  Forall (fun c => is_zkapp_command c = false \/ is_applied c = false) cmds ->
  all_basic (ld_account_diffs d).
Proof.
  intros E Hm Hz. unfold from_precomputed in E. inv_ok E.
  pose proof (unexpanded_basic b v cmds E0 Hm Hz) as Hb. inv_ok E. inv_ok E.
  rewrite expand_basic in E, E2 by done. rewrite basic_no_zkapp_account in E2 by done.
  simpl in E2. rewrite intersection_empty_r_L, elements_empty in E2. injection E2 as <-.
  by injection E as <-.
Qed.
End Blocks.

(** C5: Supply: applying a block without applied zkapp commands, whose expanded diffs are well formed, to a
    well-formed ledger succeeds and the MINA held by all accounts grows by exactly the coinbase, or stays the same
    without one, provided that no balance falls below zero or exceeds 64 bits on the way: the code clamps a balance at
    zero, which creates MINA. *)
Theorem supply_grows_by_coinbase `{Decimal} `{HashMapIter} l b d coinbase cmds :
  ledger_wf l -> from_precomputed b = Ok d ->
  coinbase_from_precomputed b = Ok coinbase -> commands b = Ok cmds ->
  Forall (fun c => is_zkapp_command c = false \/ is_applied c = false) cmds ->
  Forall diff_ok (concat (ld_account_diffs d)) ->
  exact_run l (concat (ld_account_diffs d)) = true ->
  exists l', apply_diff_from_precomputed l b = Ok l' /\
    mina_total l' = mina_total l +
      (if is_coinbase_applied coinbase then coinbase_amount coinbase else 0).
Proof.
  intros Hl Ed Ec Em Hz Hok Hex. unfold apply_diff_from_precomputed, ledger_apply_diff.
  rewrite Ed. cbn [mbind res_bind].
  destruct (exact_run_total l _ Hl Hok Hex) as (l' & E & Ht). exists l'. split; [exact E|].
  rewrite Ht, basic_net by (by eapply from_precomputed_basic). f_equal.
  pose proof Ed as Eu. unfold from_precomputed in Eu. inv_ok Eu.
  rewrite (from_precomputed_payments b d v Ed E0). by eapply unexpanded_net.
Qed.

Definition block_example_diff : LedgerDiff :=
  match @from_precomputed whole_decimal _ block_example with
  | Ok d => d | _ => ledger_diff_default end.

Lemma supply_grows_by_coinbase_witness :
  exists l', @apply_diff_from_precomputed whole_decimal _ ledger_example block_example = Ok l' /\
    mina_total l' = 1050 + 720000000000.
Proof.
  apply (@supply_grows_by_coinbase whole_decimal _ ledger_example block_example
    block_example_diff (mkCoinbase (CBOne None) carol false false None)
    [payment_example alice bob 10 0 500]).
  - apply ledger_wfb_wf. vm_compute. reflexivity.
  - vm_compute. reflexivity.
  - vm_compute. reflexivity.
  - reflexivity.
  - repeat constructor.
  - apply diffs_okb_ok. vm_compute. reflexivity.
  - vm_compute. reflexivity.
Defined.
