(* ===== verification/BlockOrder.v ===== *)
(** Blocks as the state tracks them (src/rust/src/block/mod.rs): the summary of a
    precomputed block, the comparison that chooses between chains, and the block
    file names.  Blake2b is a parameter. *)

From S2P Require Import Prelude Bytes Base Command AccountDiff Account Coinbase Precomputed.

(** * Data *)

Record Block := mkBlock {
  blk_parent_hash : StateHash;
  blk_state_hash : StateHash;
  blk_height : Z;
  blk_blockchain_length : Z;
  blk_genesis_state_hash : StateHash;
  blk_global_slot_since_genesis : Z;
  blk_hash_last_vrf_output : list Z
}.

Inductive PcbVersion := V1 | V2.
Global Instance PcbVersion_eq_dec : EqDecision PcbVersion.
Proof. solve_decision. Defined.

Record BlockComparison := mkComparison {
  cmp_state_hash : StateHash;
  cmp_blockchain_length : Z;
  cmp_hash_last_vrf_output : list Z;
  cmp_version : PcbVersion
}.

Definition version (b : PrecomputedBlock) : PcbVersion :=
  match b with PcbV1 _ _ _ => V1 | PcbV2 _ _ _ _ => V2 end.

Class Blake2b := { hex_digest : list Z -> list Z }.

Section FromPrecomputed.
Context `{Blake2b}.

(** Digested for pre-hardfork blocks, as it is for post-hardfork ones. *)
Definition hash_last_vrf_output (b : PrecomputedBlock) : list Z :=
  match b with
  | PcbV1 h _ _ => hex_digest (bh_last_vrf_output h)
  | PcbV2 h _ _ _ => bh_last_vrf_output h
  end.

Definition block_from_precomputed (b : PrecomputedBlock) (height : Z) : Block :=
  {| blk_height := height;
     blk_state_hash := state_hash b;
     blk_parent_hash := previous_state_hash b;
     blk_blockchain_length := blockchain_length b;
     blk_hash_last_vrf_output := hash_last_vrf_output b;
     blk_global_slot_since_genesis := bh_global_slot_since_genesis (header b);
     blk_genesis_state_hash := bh_genesis_state_hash (header b) |}.

(** [From<PrecomputedBlock> for Block] *)
Definition block_of (b : PrecomputedBlock) : Block :=
  block_from_precomputed b (saturating_sub (blockchain_length b) 1).

Definition comparison_of (b : PrecomputedBlock) : BlockComparison :=
  mkComparison (state_hash b) (blockchain_length b) (hash_last_vrf_output b) (version b).
End FromPrecomputed.

(** * Comparison: [Less] means better *)

(** The [match] shared by the two [cmp]: longer, then greater VRF output, then greater hash. *)
Definition better (len1 len2 : Z) (vrf1 vrf2 : list Z) (h1 h2 : StateHash) : comparison :=
  match (len1 ?= len2), lex_compare vrf1 vrf2, str_compare (sh_str h1) (sh_str h2) with
  | Gt, _, _ | Eq, Gt, _ | Eq, Eq, Gt => Lt
  | _, _, _ => Gt
  end.

Definition block_cmp (a b : Block) : comparison :=
  if String.eqb (sh_str (blk_genesis_state_hash a)) HARDFORK_GENESIS_HASH &&
     String.eqb (sh_str (blk_genesis_state_hash b)) MAINNET_GENESIS_HASH
  then Lt
  else better (blk_blockchain_length a) (blk_blockchain_length b)
         (blk_hash_last_vrf_output a) (blk_hash_last_vrf_output b)
         (blk_state_hash a) (blk_state_hash b).

Definition block_comparison_cmp (a b : BlockComparison) : comparison :=
  if bool_decide (cmp_version a = V2) && bool_decide (cmp_version b = V1) then Lt
  else better (cmp_blockchain_length a) (cmp_blockchain_length b)
         (cmp_hash_last_vrf_output a) (cmp_hash_last_vrf_output b)
         (cmp_state_hash a) (cmp_state_hash b).

(** * File names: {network}-{block height}-{state hash} *)

(** [str::split]: the pieces between separators. *)
Fixpoint split_on (sep : Z) (l : list Z) : list (list Z) :=
  match l with
  | [] => [[]]
  | b :: l =>
    if b =? sep then [] :: split_on sep l
    else match split_on sep l with
         | piece :: pieces => (b :: piece) :: pieces
         | [] => [[b]]
         end
  end.

Definition dash : Z := 45.
Definition dot : Z := 46.

(** Height and hash of a file stem. *)
Definition extract_height_and_hash (stem : string) : res (Z * string) :=
  match split_on dash (as_bytes stem) with
  | _ :: height :: hash :: _ =>
    height ← expect (parse_uint U32_MAX (string_of_bytes height));
    hash ← expect_some (head (split_on dot hash));
    Ok (height, string_of_bytes hash)
  | _ => Panic
  end.

Definition extract_block_height (stem : string) : res Z := fst <$> extract_height_and_hash stem.
Definition extract_state_hash (stem : string) : res string := snd <$> extract_height_and_hash stem.

(** [str::find] of a byte: what is before and after its first occurrence. *)
Fixpoint find_byte (sep : Z) (l : list Z) : option (list Z * list Z) :=
  match l with
  | [] => None
  | b :: l =>
    if b =? sep then Some ([], l)
    else match find_byte sep l with
         | Some (before, after) => Some (b :: before, after)
         | None => None
         end
  end.

(** The network is kept as its name. *)
Definition extract_network_height_hash (stem : string) : res (string * Z * StateHash) :=
  r1 ← expect_some (find_byte dash (as_bytes stem));
  r2 ← expect_some (find_byte dash r1.2);
  height ← expect (parse_uint U32_MAX (string_of_bytes r2.1));
  Ok (string_of_bytes r1.1, height, mkSh (string_of_bytes r2.2)).

(** [is_valid_block_file]: the extension and stem of a path. *)
Definition is_valid_block_file (ext stem : option string) : bool :=
  match ext with
  | Some ext =>
    String.eqb ext "json" &&
    match stem with
    | Some stem =>
      match split_on dash (as_bytes stem) with
      | [_; epoch; hash] =>
        match parse_uint U32_MAX (string_of_bytes epoch) with
        | Ok _ => sh_is_valid (string_of_bytes hash)
        | _ => false
        end
      | _ => false
      end
    | None => false
    end
  | None => false
  end.

(** The order of block files: by height, then by hash. *)
Definition file_compare (a b : Z * string) : comparison :=
  match a.1 ?= b.1 with Eq => str_compare a.2 b.2 | c => c end.

(** * Lemmas *)

Lemma better_Lt l1 l2 v1 v2 h1 h2 :
  better l1 l2 v1 v2 h1 h2 = Lt <->
  l2 < l1 \/ (l1 = l2 /\ (lex_compare v1 v2 = Gt \/
                          (v1 = v2 /\ str_compare (sh_str h1) (sh_str h2) = Gt))).
Proof.
  unfold better. destruct (Z.compare_spec l1 l2) as [->|Hl|Hl].
  - destruct (lex_compare v1 v2) eqn:Ev.
    + apply lex_compare_eq in Ev. subst.
      destruct (str_compare (sh_str h1) (sh_str h2)); split; intros; try done; try naive_solver lia.
    + split; [done|]. intros [?|(_ & [?|[-> _]])]; [lia|done|].
      by rewrite lex_compare_refl in Ev.
    + split; [|done]. intros _. right. auto.
  - split; [done|]. intros [?|[? _]]; lia.
  - split; [|done]. intros _. by left.
Qed.

Lemma better_Gt l1 l2 v1 v2 h1 h2 :
  better l1 l2 v1 v2 h1 h2 = Gt <-> better l1 l2 v1 v2 h1 h2 <> Lt.
Proof.
  unfold better. destruct (l1 ?= l2), (lex_compare v1 v2), (str_compare (sh_str h1) (sh_str h2));
    split; congruence.
Qed.

Lemma lex_compare_Gt_Lt a b : lex_compare a b = Gt <-> lex_compare b a = Lt.
Proof. rewrite (lex_compare_antisym a b). destruct (lex_compare a b); simpl; split; congruence. Qed.

Lemma str_compare_Gt_Lt s t : str_compare s t = Gt <-> str_compare t s = Lt.
Proof. apply lex_compare_Gt_Lt. Qed.

Lemma better_trans l1 l2 l3 v1 v2 v3 h1 h2 h3 :
  better l1 l2 v1 v2 h1 h2 = Lt -> better l2 l3 v2 v3 h2 h3 = Lt ->
  better l1 l3 v1 v3 h1 h3 = Lt.
Proof.
  rewrite !better_Lt, !lex_compare_Gt_Lt, !str_compare_Gt_Lt.
  intros [H12|[-> H12]] [H23|[-> H23]]; [left; lia|left; lia|left; lia|right].
  split; [done|]. destruct H12 as [H12|[-> H12]], H23 as [H23|[-> H23]].
  - left. by eapply lex_compare_trans_lt.
  - by left.
  - by left.
  - right. split; [done|]. unfold str_compare in *. by eapply lex_compare_trans_lt.
Qed.

Lemma better_asym l1 l2 v1 v2 h1 h2 :
  better l1 l2 v1 v2 h1 h2 = Lt -> better l2 l1 v2 v1 h2 h1 = Gt.
Proof.
  rewrite better_Gt. intros H12 H21. pose proof (better_trans _ _ _ _ _ _ _ _ _ H12 H21) as H.
  revert H. rewrite better_Lt, lex_compare_refl. unfold str_compare. rewrite lex_compare_refl.
  intros [?|[_ [?|[_ ?]]]]; [lia|done|done].
Qed.

Lemma better_total l1 l2 v1 v2 h1 h2 :
  h1 <> h2 -> better l1 l2 v1 v2 h1 h2 = Lt \/ better l2 l1 v2 v1 h2 h1 = Lt.
Proof.
  intros Hh. rewrite !better_Lt, (lex_compare_antisym v1 v2).
  unfold str_compare. rewrite (lex_compare_antisym (as_bytes (sh_str h1)) (as_bytes (sh_str h2))).
  destruct (Z.lt_total l1 l2) as [?|[->|?]]; [by right; left| |by left; left].
  destruct (lex_compare v1 v2) eqn:Ev; simpl; [|by right; right; auto|by left; right; auto].
  apply lex_compare_eq in Ev. subst.
  destruct (lex_compare (as_bytes (sh_str h1)) (as_bytes (sh_str h2))) eqn:Eh; simpl.
  - destruct Hh. apply lex_compare_eq, as_bytes_inj in Eh. destruct h1, h2; simpl in *; congruence.
  - right; right. auto.
  - left; right. auto.
Qed.

(** * Properties *)

Lemma block_cmp_same_era a b :
  blk_genesis_state_hash a = blk_genesis_state_hash b ->
  block_cmp a b = better (blk_blockchain_length a) (blk_blockchain_length b)
    (blk_hash_last_vrf_output a) (blk_hash_last_vrf_output b) (blk_state_hash a) (blk_state_hash b).
Proof.
  intros E. unfold block_cmp. rewrite E.
  destruct (String.eqb_spec (sh_str (blk_genesis_state_hash b)) HARDFORK_GENESIS_HASH) as [->|];
    done.
Qed.

(** C36: Chain selection among the blocks of one era (same genesis): a block is better exactly
    when its chain is longer, or as long with a greater VRF output, or then with
    a greater state hash; this is a strict total order on blocks of
    different hashes (asymmetric, transitive, total), as sorting and taking the minimum need. *)
Theorem block_cmp_selects_longer_chain a b c :
  blk_genesis_state_hash a = blk_genesis_state_hash b ->
  blk_genesis_state_hash b = blk_genesis_state_hash c ->
  (block_cmp a b = Lt <->
     blk_blockchain_length b < blk_blockchain_length a \/
     (blk_blockchain_length a = blk_blockchain_length b /\
      (lex_compare (blk_hash_last_vrf_output a) (blk_hash_last_vrf_output b) = Gt \/
       (blk_hash_last_vrf_output a = blk_hash_last_vrf_output b /\
        str_compare (sh_str (blk_state_hash a)) (sh_str (blk_state_hash b)) = Gt)))) /\
  (block_cmp a b = Lt -> block_cmp b a = Gt) /\
  (block_cmp a b = Lt -> block_cmp b c = Lt -> block_cmp a c = Lt) /\
  (blk_state_hash a <> blk_state_hash b -> block_cmp a b = Lt \/ block_cmp b a = Lt).
Proof.
  intros Hab Hbc. rewrite !block_cmp_same_era by congruence.
  split; [apply better_Lt|]. split; [apply better_asym|]. split; [apply better_trans|].
  apply better_total.
Qed.

Definition block_example1 (hash : string) (len : Z) (genesis : string) : Block :=
  mkBlock sh_default (mkSh hash) (len - 1) len (mkSh genesis) 0 [].

Lemma block_cmp_selects_longer_chain_witness :
  block_cmp (block_example1 "3Nb" 5 MAINNET_GENESIS_HASH)
            (block_example1 "3Na" 4 MAINNET_GENESIS_HASH) = Lt.
Proof.
  refine (proj2 (proj1 (block_cmp_selects_longer_chain
    (block_example1 "3Nb" 5 MAINNET_GENESIS_HASH)
    (block_example1 "3Na" 4 MAINNET_GENESIS_HASH) (block_example1 "3Na" 4 MAINNET_GENESIS_HASH)
    eq_refl eq_refl)) _). left. vm_compute. reflexivity.
Defined.

(** The comparison is not the order [Ord] promises: no block is equal to itself, and of a
    post-hardfork block and a longer pre-hardfork one each is better than the other,
    for [Block] and for [BlockComparison] alike. *)
Theorem block_cmp_not_an_order :
  (forall b, block_cmp b b = Gt) /\ (forall c, block_comparison_cmp c c = Gt) /\
  (forall a b, blk_genesis_state_hash a = mkSh HARDFORK_GENESIS_HASH ->
     blk_genesis_state_hash b = mkSh MAINNET_GENESIS_HASH ->
     blk_blockchain_length a < blk_blockchain_length b ->
     block_cmp a b = Lt /\ block_cmp b a = Lt) /\
  (forall a b, cmp_version a = V2 -> cmp_version b = V1 ->
     cmp_blockchain_length a < cmp_blockchain_length b ->
     block_comparison_cmp a b = Lt /\ block_comparison_cmp b a = Lt).
Proof.
  assert (forall l v h, better l l v v h h = Gt) as Hrefl.
  { intros. rewrite better_Gt, better_Lt, lex_compare_refl. unfold str_compare.
    rewrite lex_compare_refl. intros [?|[_ [?|[_ ?]]]]; [lia|done|done]. }
  split_and!.
  - intros b. rewrite block_cmp_same_era by done. apply Hrefl.
  - intros c. unfold block_comparison_cmp. destruct (cmp_version c); apply Hrefl.
  - intros a b Ha Hb Hl. unfold block_cmp. rewrite Ha, Hb. simpl. split; [done|].
    apply better_Lt. by left.
  - intros a b Ha Hb Hl. unfold block_comparison_cmp. rewrite Ha, Hb. simpl. split; [done|].
    apply better_Lt. by left.
Qed.

(** ** File names *)

Lemma split_on_app sep a b :
  sep ∉ a -> split_on sep (a ++ sep :: b) = a :: split_on sep b.
Proof.
  induction a as [|x a IH]; intros Ha; simpl.
  - by rewrite Z.eqb_refl.
  - apply not_elem_of_cons in Ha as [Hx Ha]. rewrite IH by done.
    destruct (Z.eqb_spec x sep); [congruence|done].
Qed.

Lemma split_on_none sep a : sep ∉ a -> split_on sep a = [a].
Proof.
  induction a as [|x a IH]; intros Ha; [done|]. simpl.
  apply not_elem_of_cons in Ha as [Hx Ha]. rewrite IH by done.
  destruct (Z.eqb_spec x sep); [congruence|done].
Qed.

Lemma find_byte_app sep a b : sep ∉ a -> find_byte sep (a ++ sep :: b) = Some (a, b).
Proof.
  induction a as [|x a IH]; intros Ha; simpl.
  - by rewrite Z.eqb_refl.
  - apply not_elem_of_cons in Ha as [Hx Ha]. rewrite IH by done.
    destruct (Z.eqb_spec x sep); [congruence|done].
Qed.

Lemma digits_are_digits fuel z acc :
  Forall (fun d => 48 <= d <= 57) acc -> 0 <= z ->
  Forall (fun d => 48 <= d <= 57) (digits fuel z acc).
Proof.
  revert z acc; induction fuel as [|fuel IH]; intros z acc Ha Hz; cbn [digits]; [done|].
  assert (0 <= z mod 10 < 10) by (apply Z.mod_pos_bound; lia).
  assert (Forall (fun d => 48 <= d <= 57) ((48 + z mod 10) :: acc)) by (constructor; [lia|done]).
  destruct (z / 10 =? 0); [done|]. apply IH; [done|apply Z.div_pos; lia].
Qed.

Lemma as_bytes_app s t : as_bytes (s +:+ t) = as_bytes s ++ as_bytes t.
Proof.
  unfold as_bytes. rewrite <- fmap_app. f_equal.
  induction s as [|c s IH]; [done|]. simpl. by rewrite IH.
Qed.

(** The stem of a block file name. *)
Definition block_file_stem (network : string) (height : Z) (hash : string) : string :=
  network +:+ "-" +:+ print_uint height +:+ "-" +:+ hash.

Lemma block_file_stem_bytes network height hash :
  0 <= height ->
  as_bytes (block_file_stem network height hash) =
    as_bytes network ++ dash :: digits 20 height [] ++ dash :: as_bytes hash.
Proof.
  intros Hh. unfold block_file_stem. rewrite !as_bytes_app.
  unfold print_uint. rewrite as_bytes_string_of_bytes; [done|].
  apply digits_ok; [constructor|done].
Qed.

(** The name of a block file determines the block: for a network name without dash and a
    valid state hash, the three extraction functions recover the network, height
    and hash from the stem, and the file is recognised as a block file. *)
Theorem block_file_name_roundtrip network height hash :
  dash ∉ as_bytes network -> u32 height ->
  sh_is_valid hash = true -> dash ∉ as_bytes hash -> dot ∉ as_bytes hash ->
  let stem := block_file_stem network height hash in
  extract_network_height_hash stem = Ok (network, height, mkSh hash) /\
  extract_height_and_hash stem = Ok (height, hash) /\
  is_valid_block_file (Some "json") (Some stem) = true.
Proof.
  intros Hn Hh Hv Hd Hdot stem.
  assert (0 <= height) as H0 by (unfold u32 in Hh; lia).
  assert (dash ∉ digits 20 height []) as Hdig.
  { intros Hin. pose proof (digits_are_digits 20 height [] ltac:(constructor) H0) as HF.
    rewrite Forall_forall in HF. specialize (HF _ Hin). unfold dash in HF. lia. }
  assert (string_of_bytes (digits 20 height []) = print_uint height) as Hp by done.
  assert (parse_uint U32_MAX (print_uint height) = Ok height) as Hparse.
  { apply parse_print_uint; unfold u32 in Hh; ints. }
  unfold extract_network_height_hash, extract_height_and_hash, is_valid_block_file, stem.
  rewrite block_file_stem_bytes by done. rewrite !find_byte_app, !split_on_app by done.
  cbn [expect_some mbind res_bind fst snd].
  rewrite !find_byte_app, (split_on_none dash) by done.
  cbn [expect_some mbind res_bind fst snd].
  rewrite Hp, Hparse, (split_on_none dot) by done. simpl.
  rewrite !string_of_bytes_as_bytes. done.
Qed.

Lemma block_file_name_roundtrip_witness :
  extract_network_height_hash (block_file_stem "mainnet" 359605
      "3NKMBzGM1pySPanKkLdxjnUS9mZ88oCeanq3Nhxs8QTWU7zSdKgH") =
    Ok ("mainnet", 359605, mkSh "3NKMBzGM1pySPanKkLdxjnUS9mZ88oCeanq3Nhxs8QTWU7zSdKgH").
Proof.
  apply (block_file_name_roundtrip "mainnet" 359605
    "3NKMBzGM1pySPanKkLdxjnUS9mZ88oCeanq3Nhxs8QTWU7zSdKgH").
  - apply (bool_decide_eq_true_1 (dash ∉ _)). vm_compute. reflexivity.
  - vm_compute. split; discriminate.
  - vm_compute. reflexivity.
  - apply (bool_decide_eq_true_1 (dash ∉ _)). vm_compute. reflexivity.
  - apply (bool_decide_eq_true_1 (dot ∉ _)). vm_compute. reflexivity.
Defined.

Lemma block_cmp_not_an_order_witness :
  block_cmp (block_example1 "3Nb" 4 HARDFORK_GENESIS_HASH)
            (block_example1 "3Na" 5 MAINNET_GENESIS_HASH) = Lt /\
  block_cmp (block_example1 "3Na" 5 MAINNET_GENESIS_HASH)
            (block_example1 "3Nb" 4 HARDFORK_GENESIS_HASH) = Lt.
Proof.
  destruct block_cmp_not_an_order as (_ & _ & H & _).
  apply H; [reflexivity|reflexivity|simpl; lia].
Defined.
