(* ===== verification/InternalCommand.v ===== *)
(** Internal commands (src/rust/src/command/internal/mod.rs): coinbases and fee
    transfers, derived from the fee diffs of a block and aggregated, first by
    sender and receiver, then by receiver for the store. *)

From S2P Require Import Prelude Bytes Base Command AccountDiff Account Coinbase Precomputed LedgerDiff.

(** * Data *)

Inductive InternalCommand :=
| ICoinbase (receiver : PublicKey) (amount : Z)
| IFeeTransfer (sender receiver : PublicKey) (amount : Z)
| IFeeTransferViaCoinbase (sender receiver : PublicKey) (amount : Z).

Inductive DbInternalCommand :=
| DbCoinbase (amount : Z) (receiver : PublicKey)
| DbFeeTransfer (amount : Z) (receiver : PublicKey)
| DbFeeTransferViaCoinbase (amount : Z) (receiver : PublicKey).

(** [From<InternalCommand>] *)
Definition db_of_internal (c : InternalCommand) : DbInternalCommand :=
  match c with
  | ICoinbase receiver amount => DbCoinbase amount receiver
  | IFeeTransfer _ receiver amount => DbFeeTransfer amount receiver
  | IFeeTransferViaCoinbase _ receiver amount => DbFeeTransferViaCoinbase amount receiver
  end.

(** * [InternalCommand::from_precomputed] *)

(** Add to the first transfer of the same parties, or push a new one. *)
Fixpoint add_fee_transfer (cmds : list InternalCommand) (sender receiver : PublicKey)
    (credit debit : Z) : list InternalCommand :=
  match cmds with
  | [] => [IFeeTransfer sender receiver debit]
  | IFeeTransfer s r amount :: cmds' =>
    if bool_decide (s = sender) && bool_decide (r = receiver)
    then IFeeTransfer s r (wrap64 (amount + credit)) :: cmds'
    else IFeeTransfer s r amount :: add_fee_transfer cmds' sender receiver credit debit
  | c :: cmds' => c :: add_fee_transfer cmds' sender receiver credit debit
  end.

(** The body of the loop over the fee diffs. *)
Definition internal_step (cmds : list InternalCommand) (txn : list AccountDiff)
  : res (list InternalCommand) :=
  match txn with
  | [credit; debit] =>
    d ← diff_amount debit;
    c ← diff_amount credit;
    if negb (as_i64 (d + c) =? 0) then Panic else
    match credit, debit with
    | DFeeTransfer to, DFeeTransfer from =>
      Ok (add_fee_transfer cmds (pd_public_key from) (pd_public_key to) (pd_amount to)
            (pd_amount from))
    | DFeeTransferViaCoinbase to, DFeeTransferViaCoinbase from =>
      Ok (cmds ++ [IFeeTransferViaCoinbase (pd_public_key from) (pd_public_key to)
                     (pd_amount from)])
    | _, _ => Panic
    end
  | [DCoinbase coinbase] => Ok (cmds ++ [ICoinbase (cd_public_key coinbase) (cd_amount coinbase)])
  | _ => Panic
  end.

Section FromBlock.
Context `{Decimal} `{HashMapIter}.

Definition internal_from_precomputed (b : PrecomputedBlock) : res (list InternalCommand) :=
  pre ← commands_pre_diff b;
  post ← commands_post_diff b;
  snarks ← completed_works b;
  let fees := from_block_fees (coinbase_receiver b) pre post snarks in
  coinbase ← coinbase_from_precomputed b;
  fees ← (if has_fee_transfer coinbase then account_diffs_coinbase_mut coinbase fees
          else Ok fees);
  cmds ← foldM internal_step [] fees;
  Ok (if is_coinbase_applied coinbase
      then ICoinbase (as_internal_cmd coinbase).1 (as_internal_cmd coinbase).2 :: cmds
      else cmds).

(** * [DbInternalCommand::from_precomputed] *)

Record DbParts := mkParts {
  dp_coinbase : option DbInternalCommand;
  (** amount by receiver *)
  dp_fee_transfers : gmap PublicKey Z;
  (** by sender: receiver of the first transfer, amount *)
  dp_via_coinbase : gmap PublicKey (PublicKey * Z)
}.

Definition db_step (p : DbParts) (c : InternalCommand) : DbParts :=
  match c with
  | ICoinbase _ _ => mkParts (Some (db_of_internal c)) (dp_fee_transfers p) (dp_via_coinbase p)
  | IFeeTransfer _ receiver amt =>
    mkParts (dp_coinbase p) (fee_map_add (dp_fee_transfers p) (receiver, amt))
      (dp_via_coinbase p)
  | IFeeTransferViaCoinbase sender receiver amt =>
    mkParts (dp_coinbase p) (dp_fee_transfers p)
      (<[sender := match dp_via_coinbase p !! sender with
                   | Some (r, amount) => (r, wrap64 (amount + amt))
                   | None => (receiver, amt)
                   end]> (dp_via_coinbase p))
  end.

(** The derived order within one kind: amount, then receiver. *)
Definition entry_compare (a b : PublicKey * Z) : comparison :=
  match a.2 ?= b.2 with Eq => pk_compare a.1 b.1 | c => c end.
Definition entry_le (a b : PublicKey * Z) : Prop := entry_compare a b <> Gt.
Global Instance entry_le_dec : RelDecision entry_le.
Proof. intros a b. unfold entry_le. solve_decision. Defined.

Definition db_commands (p : DbParts) : list DbInternalCommand :=
  match dp_coinbase p with Some c => [c] | None => [] end ++
  ((fun e => DbFeeTransferViaCoinbase e.2 e.1) <$>
     merge_sort entry_le ((map_to_list (dp_via_coinbase p)).*2)) ++
  ((fun e => DbFeeTransfer e.2 e.1) <$> merge_sort entry_le (map_to_list (dp_fee_transfers p))).

Definition db_from_internal (cmds : list InternalCommand) : list DbInternalCommand :=
  db_commands (fold_left db_step cmds (mkParts None ∅ ∅)).

Definition db_from_precomputed (b : PrecomputedBlock) : res (list DbInternalCommand) :=
  cmds ← internal_from_precomputed b; Ok (db_from_internal cmds).
End FromBlock.

(** * With metadata *)

Inductive InternalCommandKind := KCoinbase | KFeeTransfer | KFeeTransferViaCoinbase.

Record CommandData := mkCommandData {
  icd_receiver : PublicKey;
  icd_amount : Z;
  icd_state_hash : StateHash;
  icd_kind : InternalCommandKind;
  icd_date_time : Z;
  icd_block_height : Z
}.

Inductive DbInternalCommandWithData :=
| WFeeTransfer (d : CommandData)
| WCoinbase (d : CommandData).

Definition from_internal_cmd (c : DbInternalCommand) (state_hash : StateHash)
    (block_height date_time : Z) : DbInternalCommandWithData :=
  match c with
  | DbCoinbase amount receiver =>
    WCoinbase (mkCommandData receiver amount state_hash KCoinbase date_time block_height)
  | DbFeeTransfer amount receiver =>
    WFeeTransfer (mkCommandData receiver amount state_hash KFeeTransfer date_time block_height)
  | DbFeeTransferViaCoinbase amount receiver =>
    WFeeTransfer
      (mkCommandData receiver amount state_hash KFeeTransferViaCoinbase date_time block_height)
  end.

Definition with_data_from_precomputed `{Decimal} `{HashMapIter} (b : PrecomputedBlock)
  : res (list DbInternalCommandWithData) :=
  cmds ← db_from_precomputed b;
  Ok (map (fun c => from_internal_cmd c (state_hash b) (blockchain_length b)
                      (as_i64 (bh_timestamp (header b)))) cmds).

Definition recipient (c : DbInternalCommandWithData) : PublicKey :=
  match c with WFeeTransfer d | WCoinbase d => icd_receiver d end.
Definition contains_pk (c : DbInternalCommandWithData) (pk : PublicKey) : bool :=
  bool_decide (pk = recipient c).
Definition kind (c : DbInternalCommandWithData) : Z :=
  match c with WCoinbase _ => 1 | WFeeTransfer _ => 0 end.

(** * Lemmas *)

(** A fee transaction: sender, receiver and amount. *)
Definition fee_txn (txn : list AccountDiff) : option (PublicKey * PublicKey * Z) :=
  match txn with
  | [DFeeTransfer to; DFeeTransfer from]
  | [DFeeTransferViaCoinbase to; DFeeTransferViaCoinbase from] =>
    if negb (is_debit (update_type to)) && is_debit (update_type from) &&
       (pd_amount to =? pd_amount from) && (0 <=? pd_amount from)
    then Some (pd_public_key from, pd_public_key to, pd_amount from) else None
  | _ => None
  end.

Definition between (s r f t : PublicKey) (amount : Z) : Z :=
  if bool_decide (f = s) && bool_decide (t = r) then amount else 0.

(** The amount that moves from [s] to [r]. *)
Definition moved (s r : PublicKey) (txn : list AccountDiff) : Z :=
  match fee_txn txn with Some (f, t, a) => between s r f t a | None => 0 end.
Definition cmd_moved (s r : PublicKey) (c : InternalCommand) : Z :=
  match c with
  | IFeeTransfer f t a | IFeeTransferViaCoinbase f t a => between s r f t a
  | ICoinbase _ _ => 0
  end.
Definition transferred (s r : PublicKey) (cmds : list InternalCommand) : Z :=
  sumZ (cmd_moved s r <$> cmds).

Definition cmd_amount (c : InternalCommand) : Z :=
  match c with
  | IFeeTransfer _ _ a | IFeeTransferViaCoinbase _ _ a | ICoinbase _ a => a
  end.
Definition total_amount (cmds : list InternalCommand) : Z := sumZ (cmd_amount <$> cmds).
Definition nonneg_cmds (cmds : list InternalCommand) : Prop :=
  Forall (fun c => 0 <= cmd_amount c) cmds.

Lemma total_amount_nonneg cmds : nonneg_cmds cmds -> 0 <= total_amount cmds.
Proof. intros H. by apply sumZ_nonneg, Forall_fmap. Qed.

Lemma wrap64_as_i64 z : wrap64 (as_i64 z) = wrap64 z.
Proof.
  unfold as_i64. destruct (wrap64 z <? _); unfold wrap64.
  - apply Zmod_mod.
  - rewrite Zminus_mod, Zmod_mod, Z_mod_same_full, Z.sub_0_r. apply Zmod_mod.
Qed.

(** A credit and a debit of the same amount sum up to zero, also at the edge of [i64]. *)
Lemma signed_amounts_cancel a : as_i64 (as_i64 (0 - as_i64 a) + as_i64 a) = 0.
Proof.
  assert (wrap64 (as_i64 (0 - as_i64 a) + as_i64 a) = 0) as E.
  { rewrite <- wrap64_add_l, wrap64_as_i64, wrap64_add_l. by rewrite Z.sub_0_l, Z.add_opp_diag_l. }
  unfold as_i64 at 1. by rewrite E.
Qed.

Lemma add_fee_transfer_spec cmds f t a :
  nonneg_cmds cmds -> 0 <= a -> total_amount cmds + a <= U64_MAX ->
  let cmds' := add_fee_transfer cmds f t a a in
  nonneg_cmds cmds' /\ total_amount cmds' = total_amount cmds + a /\
  forall s r, transferred s r cmds' = transferred s r cmds + between s r f t a.
Proof.
  unfold total_amount, transferred, nonneg_cmds.
  intros Hn Ha. induction Hn as [|c cmds Hc Hn IH]; intros Hb.
  { csimpl in *. split; [by repeat constructor|]. split; [lia|]. intros. simpl. lia. }
  rewrite fmap_cons in Hb. cbn [sumZ foldr] in Hb.
  fold (sumZ (cmd_amount <$> cmds)) in Hb.
  pose proof (total_amount_nonneg cmds Hn) as Htot. unfold total_amount in Htot.
  destruct IH as (IH1 & IH2 & IH3); [lia|].
  destruct c as [rc amt|s0 r0 amt|s0 r0 amt]; cbn [add_fee_transfer cmd_amount] in *;
    try (split; [by constructor|]; csimpl; rewrite IH2; split; [lia|];
         intros s r; rewrite IH3; lia).
  case_bool_decide as Hs; case_bool_decide as Hr; cbn [andb];
    try (split; [by constructor|]; csimpl; rewrite IH2; split; [lia|];
         intros s r; rewrite IH3; lia).
  subst. rewrite wrap64_id by (unfold u64; lia).
  split; [constructor; [simpl; lia|done]|]. csimpl. split; [lia|].
  intros s r. unfold between. destruct (_ && _); lia.
Qed.

Lemma internal_step_spec cmds txn f t a :
  fee_txn txn = Some (f, t, a) ->
  nonneg_cmds cmds -> total_amount cmds + a <= U64_MAX ->
  exists cmds', internal_step cmds txn = Ok cmds' /\ nonneg_cmds cmds' /\
    total_amount cmds' = total_amount cmds + a /\
    forall s r, transferred s r cmds' = transferred s r cmds + between s r f t a.
Proof.
  intros Hf Hn Hb.
  assert (exists to from, pd_amount to = pd_amount from /\ 0 <= pd_amount from /\
    is_debit (update_type to) = false /\ is_debit (update_type from) = true /\
    (f, t, a) = (pd_public_key from, pd_public_key to, pd_amount from) /\
    (txn = [DFeeTransfer to; DFeeTransfer from] \/
     txn = [DFeeTransferViaCoinbase to; DFeeTransferViaCoinbase from]))
    as (to & from & Ha & H0 & Hto & Hfrom & [= -> -> ->] & Htxn).
  { unfold fee_txn in Hf. repeat case_match; try done; simplify_eq/=;
      repeat match goal with H : _ && _ = true |- _ => apply andb_true_iff in H as [? ?] end;
      do 2 eexists; split_and!; try by (apply Z.eqb_eq || apply Z.leb_le || apply negb_true_iff).
    all: auto. }
  assert (as_i64 (as_i64 (0 - as_i64 (pd_amount from)) + as_i64 (pd_amount to)) =? 0 = true)
    as Hz by (by rewrite Ha, signed_amounts_cancel).
  destruct Htxn as [-> | ->]; unfold internal_step, diff_amount;
    destruct (update_type to); try done; destruct (update_type from); try done;
    cbn [mbind res_bind]; rewrite Hz; cbn [negb].
  - rewrite Ha. eexists. split; [done|]. by apply add_fee_transfer_spec.
  - eexists. split; [done|]. unfold nonneg_cmds, total_amount, transferred.
    rewrite Forall_app. split; [split; [done|by repeat constructor]|].
    rewrite fmap_app, sumZ_app. csimpl. split; [lia|]. intros s r.
    rewrite fmap_app, sumZ_app. csimpl. lia.
Qed.

Lemma foldM_internal_spec txns cmds :
  Forall (fun txn => is_Some (fee_txn txn)) txns -> nonneg_cmds cmds ->
  total_amount cmds + sumZ ((fun txn => from_option snd 0 (fee_txn txn)) <$> txns) <= U64_MAX ->
  exists cmds', foldM internal_step cmds txns = Ok cmds' /\ nonneg_cmds cmds' /\
    forall s r, transferred s r cmds' = transferred s r cmds + sumZ (moved s r <$> txns).
Proof.
  intros Ht. revert cmds. induction Ht as [|txn txns [[[f t] a] Hf] Hts IH]; intros cmds Hn Hb.
  { exists cmds. split; [done|]. split; [done|]. intros. simpl. lia. }
  csimpl in *. rewrite Hf in Hb. cbn [from_option snd] in Hb.
  assert (0 <= sumZ ((fun txn => from_option snd 0 (fee_txn txn)) <$> txns)) as H0.
  { apply sumZ_nonneg, Forall_fmap. eapply Forall_impl; [exact Hts|]. clear.
    intros txn [[[f t] a] Hf]. simpl. rewrite Hf. simpl. unfold fee_txn in Hf.
    repeat case_match; simplify_eq/=;
      repeat match goal with H : _ && _ = true |- _ => apply andb_true_iff in H as [? ?] end;
      by apply Z.leb_le. }
  destruct (internal_step_spec cmds txn f t a Hf Hn) as (c1 & E1 & Hn1 & Ht1 & Hm1); [lia|].
  destruct (IH c1 Hn1) as (c2 & E2 & Hn2 & Hm2); [lia|].
  exists c2. rewrite E1. split; [done|]. split; [done|]. intros s r.
  rewrite Hm2, Hm1. unfold moved at 2. rewrite Hf. lia.
Qed.

Definition pays (s r : PublicKey) (from_ to_ : PublicKey -> PublicKey) (k : PublicKey) : Z :=
  if bool_decide (from_ k = s) && bool_decide (to_ k = r) then 1 else 0.

Lemma fee_pairs_txns (to_ from_ : PublicKey -> PublicKey) es :
  Forall (fun e => 0 <= e.2) es ->
  let txns := fee_pairs (fun k fee => fee_transfer_pair (to_ k) (from_ k) fee) es in
  Forall (fun txn => is_Some (fee_txn txn)) txns /\
  sumZ ((fun txn => from_option snd 0 (fee_txn txn)) <$> txns) = wsum one es /\
  forall s r, sumZ (moved s r <$> txns) = wsum (pays s r from_ to_) es.
Proof.
  induction 1 as [|[k v] es Hv _ (IH1 & IH2 & IH3)]; [done|]. unfold fee_pairs in *. csimpl in *.
  assert (forall f, wsum f ((k, v) :: es) = f k * v + wsum f es) as Hw by done.
  rewrite !Hw. unfold one at 1.
  assert (0 < v -> fee_txn (fee_transfer_pair (to_ k) (from_ k) v) = Some (from_ k, to_ k, v)) as Hf.
  { intros. unfold fee_txn, fee_transfer_pair. simpl. rewrite Z.eqb_refl.
    by replace (0 <=? v) with true by lia. }
  destruct (Z.gtb_spec v 0) as [Hp|Hp]; cbn [app].
  - specialize (Hf Hp). split; [by constructor|].
    rewrite fmap_cons, sumZ_cons, Hf, IH2. split; [simpl; lia|].
    intros s r. rewrite fmap_cons, sumZ_cons, Hw, IH3. unfold moved. rewrite Hf. unfold between, pays.
    destruct (_ && _); lia.
  - split; [done|]. rewrite IH2. split; [lia|]. intros s r. rewrite Hw, IH3.
    assert (v = 0) as -> by lia. lia.
Qed.

Section Fees.
Context `{HashMapIter}.

Lemma fee_map_txns (to_ from_ : PublicKey -> PublicKey) l :
  Forall (fun e => 0 <= e.2) l -> wsum one l <= U64_MAX ->
  let txns := fee_pairs (fun k fee => fee_transfer_pair (to_ k) (from_ k) fee)
                (hm_iter (fee_map l)) in
  Forall (fun txn => is_Some (fee_txn txn)) txns /\
  sumZ ((fun txn => from_option snd 0 (fee_txn txn)) <$> txns) = wsum one l /\
  forall s r, sumZ (moved s r <$> txns) = wsum (pays s r from_ to_) l.
Proof.
  intros Hl Hs txns. subst txns.
  destruct (fee_map_wsum l ∅ Hl) as [Hn Hw].
  { apply map_Forall_empty. }
  { unfold map_wsum. by rewrite map_to_list_empty. }
  assert (forall f, wsum f (hm_iter (fee_map l)) = wsum f l) as Hf.
  { intros f. rewrite (wsum_perm _ _ _ (hm_iter_perm _)).
    fold (map_wsum f (fee_map l)). unfold fee_map. rewrite Hw. unfold map_wsum.
    by rewrite map_to_list_empty. }
  destruct (fee_pairs_txns to_ from_ (hm_iter (fee_map l))) as (H1 & H2 & H3).
  { unfold fee_map. rewrite hm_iter_perm. by apply nonneg_map_list. }
  split; [done|]. rewrite H2, Hf. split; [done|]. intros s r. by rewrite H3, Hf.
Qed.

(** The fee transactions of a block, by sender and receiver. *)
Lemma block_fees_txns receiver pre post snarks :
  Forall (fun e => 0 <= e.2) (user_fees pre ++ user_fees post) ->
  Forall (fun e => 0 <= e.2) (prover_fees snarks) ->
  wsum one (user_fees pre ++ user_fees post) + wsum one (prover_fees snarks) <= U64_MAX ->
  let txns := from_block_fees receiver pre post snarks in
  Forall (fun txn => is_Some (fee_txn txn)) txns /\
  sumZ ((fun txn => from_option snd 0 (fee_txn txn)) <$> txns) <= U64_MAX /\
  forall s r, sumZ (moved s r <$> txns) =
    wsum (pays s r id (fun _ => receiver)) (user_fees pre ++ user_fees post) +
    wsum (pays s r (fun _ => receiver) id) (prover_fees snarks).
Proof.
  intros [Hpre Hpost]%Forall_app Hsn Hb txns. subst txns. rewrite wsum_app in Hb.
  pose proof (wsum_one_nonneg _ Hpre). pose proof (wsum_one_nonneg _ Hpost).
  pose proof (wsum_one_nonneg _ Hsn).
  destruct (fee_map_txns (fun _ => receiver) id _ Hpre) as (A1 & A2 & A3); [lia|].
  destruct (fee_map_txns (fun _ => receiver) id _ Hpost) as (B1 & B2 & B3); [lia|].
  destruct (fee_map_txns id (fun _ => receiver) _ Hsn) as (C1 & C2 & C3); [lia|].
  unfold from_block_fees, from_transaction_fees, transaction_fees, from_snark_fees.
  fold (user_fees pre) (user_fees post) (prover_fees snarks).
  unfold id in *. rewrite !Forall_app. split; [by split_and!|].
  rewrite !fmap_app, !sumZ_app, A2, B2, C2. split; [lia|]. intros s r.
  rewrite !fmap_app, !sumZ_app, A3, B3, C3, wsum_app. lia.
Qed.
End Fees.

Lemma coinbase_mut_fee_txn c diffs diffs' :
  has_fee_transfer c = true -> account_diffs_coinbase_mut c diffs = Ok diffs' ->
  Forall2 (fun d d' => fee_txn d' = fee_txn d) diffs diffs'.
Proof.
  intros (t & rest & E)%has_fee_transfer_first. unfold account_diffs_coinbase_mut. rewrite E.
  unfold create_payment_diffs. intros Em.
  edestruct (coinbase_mut_spec) as (ds & Eds & HF). rewrite Eds in Em. injection Em as <-.
  eapply Forall2_impl; [exact HF|]. by intros d d' [->|[-> ->]].
Qed.

(** * Properties *)

(** C35: The internal commands of a block: they can always be computed (every pair of diffs
    balances, also when the amounts do not fit a signed integer, and has one of the expected
    shapes), start with the coinbase when one is applied, and move from each
    sender to each receiver exactly the fees due: user fees to the coinbase
    receiver and SNARK fees from it to the provers, when the fees of the block fit 64 bits. *)
Theorem internal_commands_move_fees `{Decimal} `{HashMapIter} b pre post snarks coinbase :
  commands_pre_diff b = Ok pre -> commands_post_diff b = Ok post ->
  completed_works b = Ok snarks -> coinbase_from_precomputed b = Ok coinbase ->
  Forall (fun e => 0 <= e.2) (user_fees pre ++ user_fees post) ->
  Forall (fun e => 0 <= e.2) (prover_fees snarks) ->
  wsum one (user_fees pre ++ user_fees post) + wsum one (prover_fees snarks) <= U64_MAX ->
  let receiver := coinbase_receiver b in
  exists cmds, internal_from_precomputed b = Ok cmds /\
    (is_coinbase_applied coinbase = true ->
       head cmds = Some (ICoinbase (cb_receiver coinbase) (coinbase_amount coinbase))) /\
    forall s r, transferred s r cmds =
      wsum (pays s r id (fun _ => receiver)) (user_fees pre ++ user_fees post) +
      wsum (pays s r (fun _ => receiver) id) (prover_fees snarks).
Proof.
  intros Epre Epost Ew Ec Hu Hs Hb receiver.
  destruct (block_fees_txns receiver pre post snarks Hu Hs Hb) as (H1 & H2 & H3).
  unfold internal_from_precomputed. rewrite Epre, Epost, Ew, Ec. cbn [mbind res_bind].
  fold receiver. set (fees := from_block_fees receiver pre post snarks) in *.
  assert (exists fees', (if has_fee_transfer coinbase then account_diffs_coinbase_mut coinbase fees
            else Ok fees) = Ok fees' /\ Forall2 (fun d d' => fee_txn d' = fee_txn d) fees fees')
    as (fees' & -> & HF).
  { destruct (has_fee_transfer coinbase) eqn:Hft.
    - destruct (coinbase_mut_payments coinbase fees Hft) as (fees' & E & _).
      exists fees'. split; [done|]. by eapply coinbase_mut_fee_txn.
    - exists fees. split; [done|]. by apply Forall_Forall2_diag, Forall_forall. }
  cbn [mbind res_bind].
  assert (fee_txn <$> fees' = fee_txn <$> fees) as Hmap.
  { clear -HF. induction HF; csimpl; [done|]. by f_equal. }
  assert (forall f : option (PublicKey * PublicKey * Z) -> Z,
    (fun txn => f (fee_txn txn)) <$> fees' = (fun txn => f (fee_txn txn)) <$> fees) as Hmapf.
  { intros f. pose proof (f_equal (fmap f) Hmap) as Hc. by rewrite <- !list_fmap_compose in Hc. }
  destruct (foldM_internal_spec fees' []) as (cmds & Ef & _ & Hm).
  { clear -H1 HF. induction HF as [|d d' l l' E _ IH]; [constructor|].
    apply Forall_cons in H1 as [? ?]. constructor; [by rewrite E|auto]. }
  { constructor. }
  { rewrite (Hmapf (from_option snd 0)). exact H2. }
  rewrite Ef. cbn [mbind res_bind]. eexists. split; [reflexivity|]. split.
  - intros Ha. rewrite Ha. done.
  - intros s r. rewrite <- H3.
    assert (transferred s r cmds = sumZ (moved s r <$> fees)) as <-.
    { rewrite Hm. change (transferred s r []) with 0. rewrite Z.add_0_l. f_equal.
      apply (Hmapf (fun o => match o with Some (f, t, a) => between s r f t a | None => 0 end)). }
    destruct (is_coinbase_applied coinbase); [|done]. unfold transferred. csimpl. lia.
Qed.

Lemma internal_commands_move_fees_witness :
  exists cmds, @internal_from_precomputed whole_decimal _ block_example = Ok cmds /\
    transferred alice carol cmds = 10 /\ transferred carol bob cmds = 3.
Proof.
  destruct (@internal_commands_move_fees whole_decimal _ block_example
    [payment_example alice bob 10 0 500] [] [mkSnark 3 bob]
    (mkCoinbase (CBOne None) carol false false None)) as (cmds & E & _ & Hm).
  - reflexivity.
  - reflexivity.
  - reflexivity.
  - vm_compute. reflexivity.
  - repeat constructor; simpl; lia.
  - repeat constructor; simpl; lia.
  - vm_compute. discriminate.
  - exists cmds. split; [exact E|]. rewrite !Hm. split; vm_compute; reflexivity.
Defined.

(** ** The aggregated commands of the store *)

Definition db_amount_to (r : PublicKey) (c : DbInternalCommand) : Z :=
  match c with DbFeeTransfer a t => if bool_decide (t = r) then a else 0 | _ => 0 end.
Definition fee_transfer_entry (c : InternalCommand) : option (PublicKey * Z) :=
  match c with IFeeTransfer _ t a => Some (t, a) | _ => None end.

Lemma db_fold_fee_transfers cmds p :
  dp_fee_transfers (fold_left db_step cmds p) =
  fold_left fee_map_add (omap fee_transfer_entry cmds) (dp_fee_transfers p).
Proof.
  revert p. induction cmds as [|c cmds IH]; intros p; [done|]. simpl. rewrite IH. by destruct c.
Qed.

Lemma entries_wsum r (es : list (PublicKey * Z)) :
  sumZ (db_amount_to r <$> ((fun e => DbFeeTransfer e.2 e.1) <$> es)) = wsum (sent_to id r) es.
Proof.
  rewrite <- list_fmap_compose. unfold wsum. f_equal. apply list_fmap_ext. intros _ [k v] _.
  unfold sent_to, id; simpl. case_bool_decide; lia.
Qed.

Global Instance entry_le_total : Total entry_le.
Proof.
  intros [k1 v1] [k2 v2]. unfold entry_le, entry_compare; simpl.
  rewrite (Z.compare_antisym v1 v2), (pk_compare_antisym k1 k2).
  destruct (v1 ?= v2), (pk_compare k1 k2); simpl; auto.
Qed.

Global Instance entry_le_trans : Transitive entry_le.
Proof.
  intros [k1 v1] [k2 v2] [k3 v3]. unfold entry_le, entry_compare; simpl.
  destruct (Z.compare_spec v1 v2), (Z.compare_spec v2 v3); subst; intros H1 H2; try done.
  - rewrite Z.compare_refl. by apply (pk_le_trans _ k2).
  - rewrite (proj2 (Z.compare_lt_iff _ _)) by done. done.
  - rewrite (proj2 (Z.compare_lt_iff _ _)) by done. done.
  - rewrite (proj2 (Z.compare_lt_iff v1 v3)) by lia. done.
Qed.

Definition not_fee_transfer (c : DbInternalCommand) : Prop :=
  match c with DbFeeTransfer _ _ => False | _ => True end.

Lemma db_fold_coinbase cmds p :
  from_option not_fee_transfer True (dp_coinbase p) ->
  from_option not_fee_transfer True (dp_coinbase (fold_left db_step cmds p)).
Proof.
  revert p. induction cmds as [|c cmds IH]; intros p Hp; [done|]. simpl. apply IH. by destruct c.
Qed.

Lemma not_fee_transfer_amount r cs :
  Forall not_fee_transfer cs -> sumZ (db_amount_to r <$> cs) = 0.
Proof.
  induction 1 as [|c cs Hc _ IH]; [done|]. rewrite fmap_cons, sumZ_cons, IH. by destruct c.
Qed.

(** The internal commands kept in the store: the coinbase and the transfers via the coinbase
    come first; the other fee transfers are sorted by amount and
    receiver, name each receiver once, and give each receiver exactly what
    the fee transfers between the parties give it, as long as the total fits 64 bits. *)
Theorem db_internal_commands_by_receiver cmds :
  nonneg_cmds cmds -> wsum one (omap fee_transfer_entry cmds) <= U64_MAX ->
  exists first es, db_from_internal cmds = first ++ ((fun e => DbFeeTransfer e.2 e.1) <$> es) /\
    Forall not_fee_transfer first /\
    StronglySorted entry_le es /\ NoDup es.*1 /\
    forall r, sumZ (db_amount_to r <$> db_from_internal cmds) =
      wsum (sent_to id r) (omap fee_transfer_entry cmds).
Proof.
  intros Hn Hb. unfold db_from_internal, db_commands. rewrite db_fold_fee_transfers.
  pose proof (db_fold_coinbase cmds (mkParts None ∅ ∅) I) as Hcb. cbn [dp_fee_transfers].
  set (p := fold_left db_step cmds _) in *. set (l := omap fee_transfer_entry cmds) in *.
  assert (Forall (fun e => 0 <= e.2) l) as Hne.
  { clear -Hn. induction Hn as [|[] cs Hc _ IH]; csimpl; try done. by constructor. }
  destruct (fee_map_wsum l ∅ Hne) as [_ Hw].
  { apply map_Forall_empty. }
  { unfold map_wsum. by rewrite map_to_list_empty. }
  fold (fee_map l) in *. rewrite app_assoc.
  set (es := merge_sort entry_le (map_to_list (fee_map l))).
  assert (es ≡ₚ map_to_list (fee_map l)) as Hp by apply merge_sort_Permutation.
  match goal with |- context [?a ++ (_ <$> es)] => set (first := a) end.
  assert (Forall not_fee_transfer first) as Hf.
  { apply Forall_app. split; [|by apply Forall_fmap, Forall_forall].
    destruct (dp_coinbase p); by repeat constructor. }
  exists first, es. split; [done|]. split; [done|].
  split; [by apply (StronglySorted_merge_sort entry_le)|].
  split; [rewrite Hp; apply NoDup_fst_map_to_list|].
  intros r. rewrite fmap_app, sumZ_app, (not_fee_transfer_amount _ _ Hf), entries_wsum.
  rewrite (wsum_perm _ _ _ Hp). fold (map_wsum (sent_to id r) (fee_map l)).
  unfold fee_map. rewrite Hw. unfold map_wsum. by rewrite map_to_list_empty.
Qed.

Lemma db_internal_commands_by_receiver_witness :
  sumZ (db_amount_to carol <$> db_from_internal
    [ICoinbase carol 720; IFeeTransfer alice carol 10; IFeeTransfer bob carol 5;
     IFeeTransfer carol bob 3]) = 15.
Proof.
  destruct (db_internal_commands_by_receiver
    [ICoinbase carol 720; IFeeTransfer alice carol 10; IFeeTransfer bob carol 5;
     IFeeTransfer carol bob 3]) as (first & es & _ & _ & _ & _ & H).
  - repeat constructor; simpl; lia.
  - vm_compute. discriminate.
  - rewrite H. vm_compute. reflexivity.
Defined.
