(* ===== verification/Discovery.v ===== *)
(** Canonical chain discovery among block files
    (src/rust/src/canonicity/canonical_chain_discovery.rs), with the scan of a file's
    head for its parent hash (src/rust/src/block/previous_state_hash.rs,
    genesis_state_hash.rs).  The [BTreeMap] of paths by height is a list of
    entries by increasing height, the [VecDeque] and the [Vec]s are lists. *)

From S2P Require Import Prelude Bytes Base BlockOrder.

(** * Block files *)

(** The path of a file with an extension. *)
Record Path := mkPath { path_dir : string; path_stem : string; path_ext : string }.
Global Instance Path_eq_dec : EqDecision Path.
Proof. solve_decision. Defined.

(** What is read from the disk: the first bytes of a file, up to the given
    number, or an error if the file cannot be opened or is not text. *)
Class BlockFiles := { read_head : nat -> Path -> res (list Z) }.

(** [str::find] of a string: what follows its first occurrence. *)
Fixpoint find_after (key l : list Z) : option (list Z) :=
  if bool_decide (take (length key) l = key) then Some (drop (length key) l)
  else match l with [] => None | _ :: l => find_after key l end.

Definition quote : Z := 34.
Definition quoted (s : string) : list Z := [quote] ++ as_bytes s ++ [quote].

(** A slice of text must end at the start of a character. *)
Definition is_char_boundary (l : list Z) (i : nat) : bool :=
  match l !! i with Some b => negb ((128 <=? b) && (b <=? 191)) | None => true end.

(** The hash in quotes after the key. *)
Definition hash_after_key (key : string) (buffer : list Z) : res StateHash :=
  match find_after (quoted key) buffer with
  | Some rest =>
    match find_byte quote rest with
    | Some (_, rest) =>
      if (StateHash_LEN <=? length rest)%nat then
        if is_char_boundary rest StateHash_LEN
        then Ok (mkSh (string_of_bytes (take StateHash_LEN rest))) else Panic
      else Err
    | None => Err
    end
  | None => Err
  end.

Section Files.
Context `{BlockFiles}.

Definition previous_state_hash_from_path (p : Path) : res StateHash :=
  buffer ← read_head 200 p; hash_after_key "previous_state_hash" buffer.
Definition genesis_state_hash_from_path (p : Path) : res StateHash :=
  buffer ← read_head 400 p; hash_after_key "genesis_state_hash" buffer.

(** * Paths by height *)

Definition TreeMap : Type := list (Z * list Path).

(** [entry(height).or_default().push(path)] *)
Fixpoint tree_push (h : Z) (p : Path) (t : TreeMap) : TreeMap :=
  match t with
  | [] => [(h, [p])]
  | (k, ps) :: t' =>
    match h ?= k with
    | Lt => (h, [p]) :: t
    | Eq => (k, ps ++ [p]) :: t'
    | Gt => (k, ps) :: tree_push h p t'
    end
  end.

Fixpoint tree_get (h : Z) (t : TreeMap) : option (list Path) :=
  match t with
  | [] => None
  | (k, ps) :: t => if k =? h then Some ps else tree_get h t
  end.

(** Replace the paths at a height, through [get_mut]. *)
Definition tree_set (h : Z) (ps : list Path) (t : TreeMap) : TreeMap :=
  map (fun e => if e.1 =? h then (e.1, ps) else e) t.

(** [split_off]: the entries below the height, and the others. *)
Definition tree_split_off (h : Z) (t : TreeMap) : TreeMap * TreeMap :=
  (filter (fun e => e.1 < h) t, filter (fun e => ~ e.1 < h) t).

Definition tree_paths (t : TreeMap) : list Path := concat (t.*2).

(** * Discovery *)

Definition path_height (p : Path) : res Z := extract_block_height (path_stem p).
Definition path_hash (p : Path) : res string := extract_state_hash (path_stem p).
Definition path_height_and_hash (p : Path) : res (Z * string) :=
  extract_height_and_hash (path_stem p).

(** The state of the search for the best tip. *)
Record Search := mkSearch {
  parent_hash_map : gmap string string;
  search_tip : option Path;
  queue : list Path
}.

(** A path at the next height joins the queue when its parent is the candidate. *)
Definition visit_next_tip (state_hash : string) (s : Search) (next : Path) : res Search :=
  match previous_state_hash_from_path next with
  | Ok prev =>
    if String.eqb (sh_str prev) state_hash then
      h ← path_hash next;
      Ok (mkSearch (<[h := state_hash]> (parent_hash_map s)) (Some next) (queue s ++ [next]))
    else Ok s
  | Err => Ok s
  | Panic => Panic
  end.

(** [log_progress] divides by the reporting frequency. *)
Definition log_progress (reporting_freq : Z) : res unit :=
  rust_assert (negb (reporting_freq =? 0)).

Definition visit_candidate (t : TreeMap) (reporting_freq : Z) (s : Search)
  : option (res Search) :=
  match queue s with
  | [] => None
  | candidate :: q => Some (
      _ ← path_height candidate;
      _ ← log_progress reporting_freq;
      hh ← path_height_and_hash candidate;
      let s := mkSearch (parent_hash_map s) (search_tip s) q in
      match tree_get (wrap32 (hh.1 + 1)) t with
      | Some next_tips => foldM (visit_next_tip hh.2) s next_tips
      | None => Ok s
      end)
  end.

Definition search_roots (t : TreeMap) : Search :=
  let roots := match t with (_, roots) :: _ => roots | [] => [] end in
  mkSearch ∅ (last roots) roots.

(** The best tip and the parents found on the way. *)
Definition find_best_tip (fuel : nat) (t : TreeMap) (reporting_freq : Z)
  : option (res (Path * gmap string string)) :=
  match while fuel (visit_candidate t reporting_freq) (search_roots t) with
  | Some (Ok s) =>
    Some (tip ← expect_some (search_tip s); _ ← path_height tip; Ok (tip, parent_hash_map s))
  | Some Err => Some Err
  | Some Panic => Some Panic
  | None => None
  end.

(** The walk back from the best tip. *)
Record Walk := mkWalk {
  walk_tree : TreeMap;
  branch : list Path;
  next_height : Z;
  opt_parent_state_hash : option string
}.

(** The first path with the given hash, and its index. *)
Fixpoint find_hash (hash : string) (ps : list Path) : res (option (nat * Path)) :=
  match ps with
  | [] => Ok None
  | p :: ps =>
    h ← path_hash p;
    if String.eqb h hash then Ok (Some (0%nat, p))
    else r ← find_hash hash ps;
         Ok (match r with Some (i, q) => Some (S i, q) | None => None end)
  end.

Definition walk_step (parents : gmap string string) (w : Walk) : option (res Walk) :=
  match opt_parent_state_hash w with
  | None => None
  | Some parent_state_hash => Some (
      paths ← expect_some (tree_get (next_height w) (walk_tree w));
      found ← find_hash parent_state_hash paths;
      match found with
      | Some (i, path) =>
        h ← path_hash path;
        Ok (mkWalk (tree_set (next_height w) (delete i paths) (walk_tree w))
              (branch w ++ [path]) (wrap32 (next_height w - 1)) (parents !! h))
      | None => Ok w
      end)
  end.

Definition canonical_branch_from_best_tip (fuel : nat) (t : TreeMap)
    (parents : gmap string string) (best_tip : Path)
  : option (res (TreeMap * list Path)) :=
  match path_height_and_hash best_tip with
  | Ok (height, state_hash) =>
    match while fuel (walk_step parents)
            (mkWalk t [best_tip] (wrap32 (height - 1)) (parents !! state_hash)) with
    | Some (Ok w) => Some (Ok (walk_tree w, reverse (branch w)))
    | Some Err => Some Err
    | Some Panic => Some Panic
    | None => None
    end
  | Err => Some Err
  | Panic => Some Panic
  end.

Definition file_le (a b : (Z * string) * Path) : Prop := file_compare a.1 b.1 <> Gt.
Global Instance file_le_dec : RelDecision file_le.
Proof. intros a b. unfold file_le. solve_decision. Defined.

Definition sort_by_height_and_lexicographical_order (ps : list Path) : res (list Path) :=
  keyed ← mapM (fun p => hh ← path_height_and_hash p; Ok (hh, p)) ps;
  Ok ((merge_sort file_le keyed).*2).

(** The canonical branch, the remaining tree and the recent paths. *)
Definition split_off_recent_paths (canonical_branch : list Path) (t : TreeMap)
    (canonical_threshold : Z) : res (list Path * TreeMap * list Path) :=
  let split_index := (length canonical_branch - Z.to_nat canonical_threshold)%nat in
  split_height ← match canonical_branch !! split_index with
                 | Some p => path_height p
                 | None => Ok 0
                 end;
  let recent_paths := drop split_index canonical_branch in
  let trees := tree_split_off split_height t in
  recent ← sort_by_height_and_lexicographical_order
             (recent_paths ++ filter (fun p => p ∉ recent_paths) (tree_paths trees.2));
  Ok (take split_index canonical_branch, trees.1, recent).

(** [get_orphaned_paths] empties the tree. *)
Definition get_orphaned_paths (t : TreeMap) : TreeMap * list Path := ([], tree_paths t).

Definition discovery (fuel : nat) (canonical_threshold reporting_freq : Z) (paths : list Path)
  : option (res (list Path * list Path * list Path)) :=
  match paths with
  | [] => Some (Ok ([], [], []))
  | _ =>
    match foldM (fun t p => h ← path_height p; Ok (tree_push h p t)) [] paths with
    | Ok tree =>
      match find_best_tip fuel tree reporting_freq with
      | Some (Ok (best_tip, parents)) =>
        match canonical_branch_from_best_tip fuel tree parents best_tip with
        | Some (Ok (tree, canonical_branch)) => Some (
            r ← split_off_recent_paths canonical_branch tree canonical_threshold;
            let '(canonical, tree, recent) := r in
            let '(tree, orphaned) := get_orphaned_paths tree in
            _ ← rust_assert (bool_decide (length tree = 0%nat));
            Ok (canonical, recent, orphaned))
        | Some Err => Some Err
        | Some Panic => Some Panic
        | None => None
        end
      | Some Err => Some Err
      | Some Panic => Some Panic
      | None => None
      end
    | Err => Some Err
    | Panic => Some Panic
    end
  end.
End Files.

(** * An example: three generations, a fork and a block without its parent *)

Definition example_hash (c : string) : string :=
  let five := (c ++ c ++ c ++ c ++ c)%string in
  let ten := (five ++ five)%string in ("3N" ++ ten ++ ten ++ ten ++ ten ++ ten)%string.
Definition example_path (height c : string) : Path :=
  mkPath "blocks" ("mainnet-" ++ height ++ "-" ++ example_hash c) "json".
Definition example_head (parent : string) : list Z :=
  as_bytes "{" ++ quoted "protocol_state" ++ as_bytes ":{" ++ quoted "previous_state_hash" ++
  as_bytes ":" ++ quoted (example_hash parent) ++ as_bytes "," .
Definition example_parents : list (Path * string) :=
  [(example_path "1" "a", "z"); (example_path "2" "b", "a"); (example_path "2" "c", "a");
   (example_path "3" "d", "b"); (example_path "3" "e", "y"); (example_path "4" "f", "d")].
Definition example_paths : list Path := example_parents.*1.
Definition example_files : BlockFiles :=
  {| read_head n p := match list_find (fun e => e.1 = p) example_parents with
                      | Some (_, (_, parent)) => Ok (take n (example_head parent))
                      | None => Err
                      end |}.

(** * Lemmas *)

Definition height_of (p : Path) : Z :=
  match path_height_and_hash p with Ok (h, _) => h | _ => 0 end.
Definition hash_of (p : Path) : string :=
  match path_height_and_hash p with Ok (_, s) => s | _ => EmptyString end.

(** The name of the path has a height, not the greatest one, and a hash. *)
Definition well_named (p : Path) : Prop :=
  match path_height_and_hash p with Ok (h, _) => 0 <= h < U32_MAX | _ => False end.
Global Instance well_named_dec p : Decision (well_named p).
Proof. unfold well_named. destruct (path_height_and_hash p) as [[]| |]; apply _. Defined.

Lemma well_named_eq p : well_named p ->
  path_height_and_hash p = Ok (height_of p, hash_of p) /\ path_height p = Ok (height_of p) /\
  path_hash p = Ok (hash_of p) /\ 0 <= height_of p < U32_MAX.
Proof.
  unfold well_named, height_of, hash_of, path_height, path_hash, extract_block_height,
    extract_state_hash. fold (path_height_and_hash p).
  destruct (path_height_and_hash p) as [[h s]| |]; done.
Qed.

(** ** Trees *)

Definition tree_ok (t : TreeMap) : Prop :=
  StronglySorted Z.lt t.*1 /\ Forall (fun e => Forall (fun p => height_of p = e.1) e.2) t.

Lemma tree_ok_cons k ps t : tree_ok ((k, ps) :: t) <->
  Forall (Z.lt k) t.*1 /\ Forall (fun p => height_of p = k) ps /\ tree_ok t.
Proof.
  unfold tree_ok. csimpl. rewrite Forall_cons. split.
  - intros [Hs [Hp Ht]]. inversion Hs; subst. done.
  - intros (? & ? & ? & ?). split; [by constructor|done].
Qed.

Lemma tree_paths_cons k ps t : tree_paths ((k, ps) :: t) = ps ++ tree_paths t.
Proof. done. Qed.

Lemma tree_paths_above k t p :
  tree_ok t -> Forall (Z.lt k) t.*1 -> p ∈ tree_paths t -> k < height_of p.
Proof.
  induction t as [|[k' ps] t IH]; [by intros _ _ ?%elem_of_nil|].
  rewrite tree_ok_cons, tree_paths_cons, elem_of_app. csimpl. rewrite Forall_cons.
  intros (_ & Hps & Ht) [Hk Hks] [Hp|Hp]; [|by apply IH].
  rewrite Forall_forall in Hps. by rewrite (Hps p Hp).
Qed.

Lemma tree_push_spec p t :
  tree_ok t ->
  tree_ok (tree_push (height_of p) p t) /\
  tree_paths (tree_push (height_of p) p t) ≡ₚ p :: tree_paths t /\
  (forall k, k < height_of p -> Forall (Z.lt k) t.*1 ->
     Forall (Z.lt k) (tree_push (height_of p) p t).*1).
Proof.
  induction t as [|[k ps] t IH]; intros Ht; cbn [tree_push].
  { split; [rewrite tree_ok_cons; by repeat constructor|]. split; [done|].
    intros. by constructor. }
  pose proof Ht as (Hk & Hps & Ht')%tree_ok_cons.
  destruct (Z.compare_spec (height_of p) k) as [<-|Hlt|Hgt].
  - rewrite tree_ok_cons, !tree_paths_cons, Forall_app.
    split; [split_and!; [done|done|by repeat constructor|done]|]. split; [|done]. by rewrite <- Permutation_cons_append.
  - rewrite tree_ok_cons. split.
    { split; [|split; [by repeat constructor|done]]. csimpl. constructor; [done|].
      eapply Forall_impl; [exact Hk|]. simpl. lia. }
    split; [done|]. intros k' Hk' [? ?]%Forall_cons. by repeat constructor.
  - destruct (IH Ht') as (H1 & H2 & H3). rewrite tree_ok_cons, !tree_paths_cons, H2.
    split; [auto|]. split; [by rewrite Permutation_middle|].
    intros k' Hk'. csimpl. rewrite !Forall_cons. naive_solver.
Qed.

(** The paths at a height. *)
Lemma tree_get_filter h t :
  tree_ok t -> default [] (tree_get h t) = filter (fun p => height_of p = h) (tree_paths t).
Proof.
  induction t as [|[k ps] t IH]; [done|]. intros Ht. pose proof Ht as (Hk & Hps & Ht')%tree_ok_cons.
  rewrite tree_paths_cons, filter_app. cbn [tree_get]. destruct (Z.eqb_spec k h) as [->|Hne].
  - rewrite (filter_all _ ps), (filter_none _ (tree_paths t)), app_nil_r; [done| |done].
    apply Forall_forall. intros p Hp. pose proof (tree_paths_above _ _ _ Ht' Hk Hp). lia.
  - rewrite (filter_none _ ps); [by apply IH|].
    eapply Forall_impl; [exact Hps|]. simpl. lia.
Qed.

Lemma tree_set_below h ps t : Forall (Z.lt h) t.*1 -> tree_set h ps t = t.
Proof.
  unfold tree_set. induction t as [|[k qs] t IH]; csimpl; [done|].
  intros [? ?]%Forall_cons. rewrite IH by done. by destruct (Z.eqb_spec k h); [lia|].
Qed.

(** Taking a path out of the tree. *)
Lemma tree_set_spec h p ps ps' t :
  tree_ok t -> tree_get h t = Some ps -> ps ≡ₚ p :: ps' ->
  tree_ok (tree_set h ps' t) /\ tree_paths t ≡ₚ p :: tree_paths (tree_set h ps' t) /\
  (tree_set h ps' t).*1 = t.*1.
Proof.
  induction t as [|[k qs] t IH]; [done|]. intros Ht Hget Hp.
  pose proof Ht as (Hk & Hps & Ht')%tree_ok_cons. cbn [tree_get] in Hget.
  unfold tree_set. csimpl. fold (tree_set h ps' t). destruct (Z.eqb_spec k h) as [->|Hne].
  - injection Hget as ->. rewrite tree_set_below by done.
    rewrite tree_ok_cons, !tree_paths_cons, Hp. split; [|done].
    rewrite Hp, Forall_cons in Hps. naive_solver.
  - destruct (IH Ht' Hget Hp) as (H1 & H2 & H3).
    rewrite tree_ok_cons, !tree_paths_cons, H2, H3. split; [done|]. split; [|done].
    by rewrite Permutation_middle.
Qed.

Lemma tree_split_perm h t :
  tree_paths t ≡ₚ tree_paths (tree_split_off h t).1 ++ tree_paths (tree_split_off h t).2.
Proof.
  unfold tree_split_off, tree_paths, TreeMap in *. cbn [fst snd].
  induction t as [|e t IH]; [done|]. rewrite !filter_cons. do 2 destruct (decide _); try lia; csimpl; rewrite IH.
  - by rewrite app_assoc.
  - by rewrite (app_assoc _ e.2), (Permutation_app_comm _ e.2), app_assoc.
Qed.

Lemma tree_split_recent h t p :
  tree_ok t -> p ∈ tree_paths (tree_split_off h t).2 <-> p ∈ tree_paths t /\ h <= height_of p.
Proof.
  intros [_ Ht]. unfold tree_split_off, tree_paths. cbn [snd].
  rewrite !elem_of_concat. setoid_rewrite list_elem_of_fmap. rewrite Forall_forall in Ht.
  setoid_rewrite Forall_forall in Ht. setoid_rewrite list_elem_of_filter. split.
  - intros (ps & (e & -> & Hh & He) & Hp). rewrite (Ht e He p Hp). split; [eauto|lia].
  - intros [(ps & (e & -> & He) & Hp) Hh]. rewrite (Ht e He p Hp) in Hh.
    exists e.2. split; [|done]. exists e. split_and!; [done|lia|done].
Qed.

(** ** The search for the best tip *)

Section Search.
Context `{BlockFiles}.

(** The file of [p] names [q] as its parent, one height below. *)
Definition child_of (q p : Path) : Prop :=
  height_of p = height_of q + 1 /\
  match previous_state_hash_from_path p with Ok prev => sh_str prev = hash_of q | _ => False end.
Global Instance child_of_dec q p : Decision (child_of q p).
Proof.
  unfold child_of. apply and_dec; [apply _|].
  destruct (previous_state_hash_from_path p); apply _.
Defined.

Definition readable (p : Path) : Prop := previous_state_hash_from_path p <> Panic.
Global Instance readable_dec p : Decision (readable p).
Proof. unfold readable. apply _. Defined.

(** Distinct blocks with well-formed names. *)
Definition block_paths (paths : list Path) : Prop :=
  Forall well_named paths /\ Forall readable paths /\ NoDup (hash_of <$> paths).
Global Instance block_paths_dec paths : Decision (block_paths paths).
Proof. unfold block_paths. apply _. Defined.

(** Reachable from a path of the least height. *)
Inductive connected (paths : list Path) : Path -> Prop :=
| connected_root p :
    p ∈ paths -> Forall (fun q => height_of p <= height_of q) paths -> connected paths p
| connected_child q p : connected paths q -> p ∈ paths -> child_of q p -> connected paths p.

Variable paths : list Path.
Hypothesis Hpaths : block_paths paths.

Lemma paths_named p : p ∈ paths -> well_named p.
Proof. destruct Hpaths as [Hn _]. rewrite Forall_forall in Hn. apply Hn. Qed.

Lemma hash_of_inj p q : p ∈ paths -> q ∈ paths -> hash_of p = hash_of q -> p = q.
Proof. destruct Hpaths as (_ & _ & Hd). by apply NoDup_fmap_eq. Qed.

Lemma paths_nodup : NoDup paths.
Proof. destruct Hpaths as (_ & _ & Hd). by eapply NoDup_fmap_1. Qed.

Definition add_parents (c : Path) (l : list Path) (m : gmap string string) : gmap string string :=
  fold_left (fun m p => <[hash_of p := hash_of c]> m) l m.

Lemma add_parents_lookup c l m x :
  l ⊆ paths -> x ∈ paths ->
  add_parents c l m !! hash_of x = if decide (x ∈ l) then Some (hash_of c) else m !! hash_of x.
Proof.
  unfold add_parents. revert m. induction l as [|p l IH]; intros m Hl Hx; [done|]. simpl.
  rewrite IH by set_solver. destruct (decide (x ∈ l)) as [Hi|Hi].
  { by rewrite decide_True by set_solver. }
  destruct (decide (x = p)) as [->|Hne].
  - rewrite decide_True by set_solver. by rewrite lookup_insert_eq.
  - rewrite decide_False by set_solver. rewrite lookup_insert_ne; [done|].
    intros E. apply Hne. symmetry. apply hash_of_inj; set_solver.
Qed.

(** One round of the search appends the children of the candidate. *)
Lemma visit_children c l s :
  l ⊆ paths -> Forall (fun p => height_of p = height_of c + 1) l ->
  let ch := filter (child_of c) l in
  foldM (visit_next_tip (hash_of c)) s l =
  Ok (mkSearch (add_parents c ch (parent_hash_map s))
        (match last ch with Some p => Some p | None => search_tip s end) (queue s ++ ch)).
Proof.
  revert s. induction l as [|p l IH]; intros s Hl Hh; simpl.
  { rewrite app_nil_r. by destruct s. }
  apply Forall_cons in Hh as [Hp Hh].
  assert (p ∈ paths) as Hpp by set_solver.
  destruct (well_named_eq p (paths_named p Hpp)) as (_ & _ & Hhash & _).
  assert (visit_next_tip (hash_of c) s p = Ok
    (if decide (child_of c p)
     then mkSearch (<[hash_of p := hash_of c]> (parent_hash_map s)) (Some p) (queue s ++ [p])
     else s)) as ->.
  { unfold visit_next_tip. destruct Hpaths as (_ & Hr & _).
    rewrite Forall_forall in Hr. specialize (Hr p Hpp). unfold readable in Hr.
    destruct (decide (child_of c p)) as [Hc|Hc]; unfold child_of in Hc;
      destruct (previous_state_hash_from_path p) as [prev| |]; try done; try tauto.
    - destruct Hc as [_ ->]. by rewrite String.eqb_refl, Hhash.
    - destruct (String.eqb_spec (sh_str prev) (hash_of c)); [tauto|done]. }
  cbn [mbind res_bind]. rewrite IH; [|by intros x Hx; apply Hl; right|done]. rewrite filter_cons.
  destruct (decide (child_of c p)); [|done]. cbn [parent_hash_map search_tip queue].
  rewrite <- app_assoc. cbn [app]. do 2 f_equal.
  rewrite last_cons. by destruct (last _).
Qed.

Definition height_le (p q : Path) : Prop := height_of p <= height_of q.
Definition is_root (p : Path) : Prop := p ∈ paths /\ Forall (height_le p) paths.

(** The invariant of the search: [P] holds the candidates visited. *)
Record searched (P : list Path) (s : Search) : Prop := {
  sr_nodup : NoDup (P ++ queue s);
  sr_paths : P ++ queue s ⊆ paths;
  sr_tip : search_tip s = last (P ++ queue s);
  sr_sorted : StronglySorted height_le (P ++ queue s);
  sr_window c q x : queue s = c :: q -> x ∈ P ++ queue s -> height_of x <= height_of c + 1;
  sr_closed p x : p ∈ P -> x ∈ paths -> child_of p x -> x ∈ P ++ queue s;
  sr_roots p : is_root p -> p ∈ P ++ queue s;
  sr_parents x : x ∈ P ++ queue s ->
    (is_root x /\ parent_hash_map s !! hash_of x = None) \/
    (exists p, p ∈ P /\ child_of p x /\ parent_hash_map s !! hash_of x = Some (hash_of p))
}.

Lemma child_of_unique p q x : p ∈ paths -> q ∈ paths -> child_of p x -> child_of q x -> p = q.
Proof.
  intros Hp Hq [_ Hpx] [_ Hqx]. apply hash_of_inj; [done..|].
  destruct (previous_state_hash_from_path x); [congruence|done..].
Qed.

Lemma root_not_child p x : p ∈ paths -> child_of p x -> ~ is_root x.
Proof.
  intros Hp [Hh _] [_ Hr]. rewrite Forall_forall in Hr. specialize (Hr p Hp).
  unfold height_le in Hr. lia.
Qed.

Lemma StronglySorted_app_const (l k : list Path) h :
  StronglySorted height_le l -> Forall (fun p => height_of p <= h) l ->
  Forall (fun p => height_of p = h) k -> StronglySorted height_le (l ++ k).
Proof.
  intros Hl Hb Hk. rewrite Forall_forall in Hk. induction Hl as [|x l Hl IH Hx]; simpl.
  - induction k as [|y k IH]; constructor; [apply IH; intros; apply Hk; by right|].
    apply Forall_forall. intros z Hz. unfold height_le. rewrite !Hk by set_solver. lia.
  - apply Forall_cons in Hb as [Hb1 Hb2]. constructor; [by apply IH|].
    apply Forall_app. split; [done|]. apply Forall_forall. intros z Hz.
    unfold height_le. by rewrite (Hk z Hz).
Qed.

(** Visiting the candidate at the front of the queue keeps the invariant. *)
Lemma searched_step P s c q ch :
  searched P s -> queue s = c :: q -> NoDup ch ->
  (forall x, x ∈ ch <-> x ∈ paths /\ child_of c x) ->
  searched (P ++ [c]) (mkSearch (add_parents c ch (parent_hash_map s))
    (match last ch with Some p => Some p | None => search_tip s end) (q ++ ch)).
Proof.
  intros [Hnd Hsub Htip Hsort Hwin Hcl Hroots Hpar] Hq Hndc Hch.
  assert ((P ++ [c]) ++ q ++ ch = (P ++ queue s) ++ ch) as E.
  { rewrite Hq, <- !app_assoc. done. }
  assert (c ∈ P ++ queue s) as Hc by (rewrite Hq; set_solver).
  assert (c ∉ P) as HcP.
  { rewrite Hq in Hnd. apply NoDup_app in Hnd as (_ & Hd & _). intros HP. apply (Hd c HP). left. }
  assert (forall x, x ∈ ch -> x ∉ P ++ queue s) as Hnew.
  { intros x [Hx Hcx]%Hch Hin. destruct (Hpar x Hin) as [[Hr _]|(p & Hp & Hpx & _)].
    - by apply (root_not_child c x); auto.
    - assert (p = c) as -> by (apply (child_of_unique p c x); set_solver). done. }
  assert (ch ⊆ paths) as Hchp by (intros x [? _]%Hch; done).
  split; cbn [queue search_tip parent_hash_map]; rewrite ?E.
  - apply NoDup_app. split; [done|]. split; [|done]. intros x Hx Hx'. by apply (Hnew x).
  - set_solver.
  - rewrite last_app, Htip. by destruct (last ch).
  - apply (StronglySorted_app_const _ _ (height_of c + 1)); [done| |].
    + apply Forall_forall. intros x Hx. by apply (Hwin c q).
    + apply Forall_forall. by intros x [_ [? _]]%Hch.
  - intros c' q' x Hq' Hx.
    assert (height_of c <= height_of c') as Hcc.
    { assert (c' ∈ q ++ ch) as [Hc'|Hc']%elem_of_app by (rewrite Hq'; left).
      - clear -Hsort Hq Hc'. rewrite Hq in Hsort. apply StronglySorted_app_1_r in Hsort as Hs.
        inversion Hs as [|? ? _ Hf]; subst. rewrite Forall_forall in Hf. by apply Hf.
      - apply Hch in Hc' as [_ [? _]]. lia. }
    apply elem_of_app in Hx as [Hx|Hx].
    + pose proof (Hwin c q x Hq Hx). lia.
    + apply Hch in Hx as [_ [? _]]. lia.
  - intros p x [Hp|Hp]%elem_of_app Hx Hpx; apply elem_of_app.
    + left. by apply (Hcl p).
    + apply list_elem_of_singleton in Hp as ->. right. by apply Hch.
  - intros p Hp. apply elem_of_app. left. by apply Hroots.
  - intros x Hx. rewrite add_parents_lookup by set_solver.
    destruct (decide (x ∈ ch)) as [Hin|Hin].
    + right. exists c. split; [set_solver|]. split; [by apply Hch|done].
    + apply elem_of_app in Hx as [Hx|Hx]; [|done].
      destruct (Hpar x Hx) as [?|(p & Hp & ?)]; [by left|]. right. exists p. set_solver.
Qed.

Variables (tree : TreeMap) (reporting_freq : Z).
Hypothesis Hfreq : reporting_freq <> 0.
Hypothesis Htree : tree_ok tree.
Hypothesis Hperm : tree_paths tree ≡ₚ paths.

Lemma visit_candidate_eq c q s :
  queue s = c :: q -> c ∈ paths ->
  let ch := filter (child_of c) (default [] (tree_get (height_of c + 1) tree)) in
  visit_candidate tree reporting_freq s =
  Some (Ok (mkSearch (add_parents c ch (parent_hash_map s))
    (match last ch with Some p => Some p | None => search_tip s end) (q ++ ch))).
Proof.
  intros Hq Hc. unfold visit_candidate. rewrite Hq.
  destruct (well_named_eq c (paths_named c Hc)) as (-> & -> & _ & Hh). cbn [mbind res_bind].
  unfold log_progress. destruct (Z.eqb_spec reporting_freq 0); [done|]. cbn.
  rewrite wrap32_id by ints.
  pose proof (tree_get_filter (height_of c + 1) tree Htree) as Hget.
  destruct (tree_get (height_of c + 1) tree) as [next|]; simpl in Hget |- *.
  - subst next. rewrite visit_children; [done| |].
    + intros x [_ Hx]%list_elem_of_filter. by rewrite <- Hperm.
    + apply Forall_forall. by intros x [? _]%list_elem_of_filter.
  - by rewrite app_nil_r.
Qed.

Lemma children_spec c x :
  x ∈ filter (child_of c) (default [] (tree_get (height_of c + 1) tree)) <->
  x ∈ paths /\ child_of c x.
Proof.
  rewrite tree_get_filter, !list_elem_of_filter, Hperm by done. unfold child_of. naive_solver.
Qed.

Lemma searched_roots k roots rest :
  tree = (k, roots) :: rest -> roots <> [] -> searched [] (search_roots tree).
Proof.
  intros -> Hne. pose proof Htree as (Hk & Hr & Hrest)%tree_ok_cons.
  rewrite tree_paths_cons in Hperm. pose proof paths_nodup as Hnd. rewrite <- Hperm in Hnd.
  assert (roots ⊆ paths) as Hsub by (intros x Hx; rewrite <- Hperm; set_solver).
  rewrite Forall_forall in Hr.
  assert (forall x, x ∈ paths -> k <= height_of x) as Hmin.
  { intros x. rewrite <- Hperm, elem_of_app. intros [Hx|Hx]; [by rewrite Hr|].
    pose proof (tree_paths_above _ _ _ Hrest Hk Hx). lia. }
  split; cbn [search_roots queue search_tip parent_hash_map app]; try done.
  - by apply NoDup_app in Hnd as (? & _).
  - apply (StronglySorted_app_const [] _ k); [constructor..|]. by apply Forall_forall.
  - intros c q x -> Hx. rewrite (Hr x Hx), (Hr c) by left. lia.
  - by intros p x Hp%elem_of_nil.
  - intros p [Hp Hl]. destruct roots as [|r roots]; [done|].
    rewrite Forall_forall in Hl. specialize (Hl r). unfold height_le in Hl.
    rewrite (Hr r) in Hl by left. rewrite <- Hperm in Hp. apply elem_of_app in Hp as [Hp|Hp]; [done|].
    pose proof (tree_paths_above _ _ _ Hrest Hk Hp). assert (height_of p <= k) by (apply Hl; set_solver). lia.
  - intros x Hx. left. split; [|done]. split; [by apply Hsub|].
    apply Forall_forall. intros y Hy. unfold height_le. rewrite (Hr x Hx). by apply Hmin.
Qed.

Lemma find_best_tip_spec fuel k roots rest :
  tree = (k, roots) :: rest -> roots <> [] -> (length paths <= fuel)%nat ->
  exists P tip parents, find_best_tip fuel tree reporting_freq = Some (Ok (tip, parents)) /\
    searched P (mkSearch parents (Some tip) []).
Proof.
  intros Et Hne Hfuel. pose proof (searched_roots _ _ _ Et Hne) as H0.
  destruct (while_total (fun n s => search_tip s <> None /\
      exists P, searched P s /\ n = (length paths - length P)%nat)
    (visit_candidate tree reporting_freq)) with (fuel := fuel) (n := length paths)
    (s := search_roots tree) as (s & _ & Ew & (Htip & P & HP & _) & Hend).
  - intros n s (Htip & P & HP & ->). destruct (queue s) as [|c q] eqn:Hq.
    { unfold visit_candidate. by rewrite Hq. }
    assert (c ∈ paths) as Hc.
    { apply (sr_paths _ _ HP). rewrite Hq. set_solver. }
    rewrite (visit_candidate_eq c q s Hq Hc). eexists _, _. split; [done|].
    split; [|split; [by case_match|exists (P ++ [c]); split; [|done]]].
    + assert (length (P ++ queue s) <= length paths)%nat as Hlen.
      { apply submseteq_length, NoDup_submseteq; [apply HP|apply HP]. }
      rewrite Hq in Hlen. rewrite !length_app in *. simpl in *. lia.
    + apply (searched_step P s c q); [done|done| |apply children_spec].
      apply NoDup_filter. rewrite tree_get_filter by done. apply NoDup_filter.
      rewrite Hperm. apply paths_nodup.
  - split; [|exists []; split; [done|simpl; lia]]. rewrite (sr_tip _ _ H0), Et. simpl.
    by destruct roots as [|r roots]; [|rewrite last_cons; case_match].
  - done.
  - assert (queue s = []) as Hq.
    { unfold visit_candidate in Hend. by destruct (queue s). }
    destruct (search_tip s) as [tip|] eqn:Et'; [|done].
    exists P, tip, (parent_hash_map s). unfold find_best_tip. rewrite Ew, Et'. cbn.
    assert (tip ∈ paths) as Hin.
    { apply (sr_paths _ _ HP). pose proof (sr_tip _ _ HP) as E. rewrite Et' in E. symmetry in E.
      apply last_Some in E as [l' ->]. set_solver. }
    destruct (well_named_eq tip (paths_named tip Hin)) as (_ & -> & _). split; [done|].
    destruct s as [m t q]. simpl in *. by subst.
Qed.

(** The tip found is the highest of the blocks connected to a root. *)
Lemma searched_connected P tip parents x :
  searched P (mkSearch parents (Some tip) []) -> connected paths x -> x ∈ P /\ height_of x <= height_of tip.
Proof.
  intros HP Hx. assert (x ∈ P) as Hin.
  { rewrite <- (app_nil_r P). induction Hx as [p Hp Hr|q p _ IH Hp Hqp].
    - by apply (sr_roots _ _ HP).
    - apply (sr_closed _ _ HP q); [|done|done]. by rewrite app_nil_r in IH. }
  split; [done|]. pose proof (sr_tip _ _ HP) as E. pose proof (sr_sorted _ _ HP) as Hs. simpl in *.
  rewrite app_nil_r in *. symmetry in E. apply last_Some in E as [l ->].
  apply elem_of_app in Hin as [Hin|Hin%list_elem_of_singleton]; [|by subst].
  apply (StronglySorted_app_1_elem_of _ _ _ _ _ Hs Hin). set_solver.
Qed.

(** ** The walk back to a root *)

(** Each block is the parent of the next. *)
Fixpoint chain (l : list Path) : Prop :=
  match l with
  | [] => True
  | p :: l => match l with q :: _ => child_of p q | [] => True end /\ chain l
  end.

Variables (P : list Path) (tip : Path) (parents : gmap string string).
Hypothesis HP : searched P (mkSearch parents (Some tip) []).

Lemma visited_path x : x ∈ P -> x ∈ paths.
Proof. intros Hx. apply (sr_paths _ _ HP). simpl. by rewrite app_nil_r. Qed.

Lemma visited_parent x : x ∈ P ->
  (is_root x /\ parents !! hash_of x = None) \/
  (exists p, p ∈ P /\ child_of p x /\ parents !! hash_of x = Some (hash_of p)).
Proof. intros Hx. apply (sr_parents _ _ HP). simpl. by rewrite app_nil_r. Qed.

Lemma tip_visited : tip ∈ P.
Proof.
  pose proof (sr_tip _ _ HP) as E. simpl in E. rewrite app_nil_r in E. symmetry in E.
  apply last_Some in E as [l ->]. set_solver.
Qed.

Lemma find_hash_spec p ps :
  ps ⊆ paths -> p ∈ ps ->
  exists i, find_hash (hash_of p) ps = Ok (Some (i, p)) /\ ps !! i = Some p.
Proof.
  induction ps as [|q ps IH]; intros Hps Hp; [by apply elem_of_nil in Hp|]. simpl.
  assert (q ∈ paths) as Hq by (apply Hps; left).
  destruct (well_named_eq q (paths_named q Hq)) as (_ & _ & -> & _). cbn [mbind res_bind].
  destruct (String.eqb_spec (hash_of q) (hash_of p)) as [E|E].
  - exists 0%nat. rewrite (hash_of_inj q p); auto.
  - apply elem_of_cons in Hp as [->|Hp]; [done|].
    destruct IH as (i & -> & Hi); [by intros x Hx; apply Hps; right|done|].
    by exists (S i).
Qed.

Record walked (x : Path) (w : Walk) : Prop := {
  wk_last : last (branch w) = Some x;
  wk_visited : x ∈ P;
  wk_height : next_height w = wrap32 (height_of x - 1);
  wk_parent : opt_parent_state_hash w = parents !! hash_of x;
  wk_chain : chain (reverse (branch w));
  wk_above : Forall (height_le x) (branch w);
  wk_tip : head (branch w) = Some tip;
  wk_tree : tree_ok (walk_tree w);
  wk_perm : tree_paths (walk_tree w) ++ tail (branch w) ≡ₚ paths
}.

Lemma walked_start : walked tip (mkWalk tree [tip] (wrap32 (height_of tip - 1)) (parents !! hash_of tip)).
Proof.
  split; simpl; try done.
  - apply tip_visited.
  - constructor; [unfold height_le; lia|constructor].
  - by rewrite app_nil_r.
Qed.

Lemma walked_step x w :
  walked x w ->
  match walk_step parents w with
  | None => is_root x
  | Some r => exists p w', r = Ok w' /\ walked p w' /\
      (length (tree_paths (walk_tree w')) < length (tree_paths (walk_tree w)))%nat
  end.
Proof.
  intros [Hlast Hx Hh Hpar Hch Hab Htip Ht Hpw]. unfold walk_step. rewrite Hpar.
  destruct (visited_parent x Hx) as [[Hr ->]|(p & Hp & Hpx & ->)]; [done|].
  pose proof (visited_path p Hp) as Hpp. pose proof (well_named_eq p (paths_named p Hpp)) as (_ & _ & Hhash & Hhp).
  pose proof Hpx as [Hhx _].
  assert (next_height w = height_of p) as Hnh.
  { rewrite Hh, Hhx, Z.add_simpl_r. apply wrap32_id. ints. }
  assert (p ∈ tree_paths (walk_tree w)) as Hin.
  { assert (p ∈ tree_paths (walk_tree w) ++ tail (branch w)) as [?|Hb]%elem_of_app by (by rewrite Hpw);
      [done|].
    rewrite Forall_forall in Hab. assert (height_le x p) as Hle.
    { apply Hab. destruct (branch w); simpl in *; set_solver. }
    unfold height_le in Hle. lia. }
  rewrite Hnh. pose proof (tree_get_filter (height_of p) _ Ht) as Hget.
  assert (p ∈ filter (fun q => height_of q = height_of p) (tree_paths (walk_tree w))) as Hin'
    by (by apply list_elem_of_filter).
  destruct (tree_get (height_of p) (walk_tree w)) as [ps|] eqn:Eg; simpl in Hget;
    rewrite <- Hget in Hin'; [|by apply elem_of_nil in Hin'].
  destruct (find_hash_spec p ps) as (i & Efind & Hi); [|done|].
  { rewrite Hget. intros y [_ Hy]%list_elem_of_filter. rewrite <- Hpw. set_solver. }
  exists p. eexists. cbn [expect_some mbind res_bind]. rewrite Efind. cbn [mbind res_bind].
  rewrite Hhash. cbn [mbind res_bind]. split; [done|].
  pose proof (delete_Permutation ps i p Hi) as Hdel.
  destruct (tree_set_spec _ _ _ _ _ Ht Eg Hdel) as (H1 & H2 & _).
  split; [|cbn [walk_tree]; rewrite H2; simpl; lia].
  split; cbn [walk_tree branch next_height opt_parent_state_hash]; try done.
  - by rewrite last_snoc.
  - rewrite reverse_snoc. split; [|done].
    apply last_Some in Hlast as [b Eb]. by rewrite Eb, reverse_snoc.
  - apply Forall_app. split; [|constructor; [unfold height_le; lia|constructor]].
    eapply Forall_impl; [exact Hab|]. unfold height_le. simpl. lia.
  - by destruct (branch w).
  - rewrite <- Hpw, H2. destruct (branch w) as [|y b]; [done|]. simpl.
    by rewrite <- Permutation_cons_append, <- Permutation_middle.
Qed.

Lemma canonical_branch_spec fuel :
  (length paths <= fuel)%nat ->
  exists t br, canonical_branch_from_best_tip fuel tree parents tip = Some (Ok (t, reverse br)) /\
    tree_ok t /\ chain (reverse br) /\ head br = Some tip /\
    (exists r, last br = Some r /\ is_root r) /\ tree_paths t ++ tail br ≡ₚ paths.
Proof.
  intros Hfuel. unfold canonical_branch_from_best_tip.
  destruct (well_named_eq tip (paths_named _ (visited_path _ tip_visited))) as (-> & _).
  destruct (while_total (fun n w => exists x, walked x w /\ n = length (tree_paths (walk_tree w)))
    (walk_step parents)) with (fuel := fuel) (n := length paths)
    (s := mkWalk tree [tip] (wrap32 (height_of tip - 1)) (parents !! hash_of tip))
    as (w & _ & Ew & (x & Hw & _) & Hend).
  - intros n w (x & Hw & ->). pose proof (walked_step x w Hw) as Hs.
    destruct (walk_step parents w); [|done]. destruct Hs as (p & w' & -> & Hw' & Hlt). eauto 10.
  - exists tip. split; [apply walked_start|]. simpl. by rewrite Hperm.
  - done.
  - rewrite Ew. exists (walk_tree w), (branch w). split; [done|].
    pose proof (walked_step x w Hw) as Hs. rewrite Hend in Hs.
    split_and!; try apply Hw. exists x. split; [apply Hw|done].
Qed.
End Search.

(** ** Sorting and splitting *)

Definition path_le (p q : Path) : Prop :=
  file_compare (height_of p, hash_of p) (height_of q, hash_of q) <> Gt.

Global Instance file_le_total : Total file_le.
Proof.
  intros [[h1 s1] p1] [[h2 s2] p2]. unfold file_le, file_compare, str_compare; simpl.
  rewrite (Z.compare_antisym h1 h2), (lex_compare_antisym (as_bytes s1) (as_bytes s2)).
  destruct (h1 ?= h2), (lex_compare (as_bytes s1) (as_bytes s2)); simpl; auto.
Qed.

Global Instance file_le_trans : Transitive file_le.
Proof.
  intros [[h1 s1] p1] [[h2 s2] p2] [[h3 s3] p3]. unfold file_le, file_compare; simpl.
  destruct (Z.compare_spec h1 h2), (Z.compare_spec h2 h3); subst; intros H1 H2; try done.
  - rewrite Z.compare_refl. by apply (lex_le_trans _ (as_bytes s2)).
  - by rewrite (proj2 (Z.compare_lt_iff _ _)).
  - by rewrite (proj2 (Z.compare_lt_iff _ _)).
  - by rewrite (proj2 (Z.compare_lt_iff h1 h3)) by lia.
Qed.

Lemma sort_paths_spec ps :
  Forall well_named ps ->
  exists ps', sort_by_height_and_lexicographical_order ps = Ok ps' /\ ps' ≡ₚ ps /\
    StronglySorted path_le ps'.
Proof.
  intros Hps. unfold sort_by_height_and_lexicographical_order.
  assert (mapM (fun p => hh ← path_height_and_hash p; Ok (hh, p)) ps =
    Ok ((fun p => ((height_of p, hash_of p), p)) <$> ps)) as ->.
  { apply mapM_res_Ok, Forall2_fmap_r, Forall_Forall2_diag. eapply Forall_impl; [exact Hps|].
    intros p Hp. simpl. destruct (well_named_eq p Hp) as (-> & _). done. }
  cbn [mbind res_bind]. set (keyed := _ <$> ps). eexists. split; [done|].
  pose proof (merge_sort_Permutation file_le keyed) as Hperm. split.
  { rewrite Hperm. unfold keyed. rewrite <- list_fmap_compose. by rewrite list_fmap_id. }
  pose proof (StronglySorted_merge_sort file_le keyed) as Hs.
  assert (Forall (fun e => e.1 = (height_of e.2, hash_of e.2)) (merge_sort file_le keyed)) as Hk.
  { rewrite Hperm. apply Forall_fmap, Forall_forall. done. }
  clear Hperm. induction Hs as [|e l Hs IH Hf]; [constructor|]. apply Forall_cons in Hk as [He Hk].
  csimpl. constructor; [auto|]. apply Forall_fmap. rewrite Forall_forall in *.
  intros e' He'. specialize (Hf e' He'). unfold file_le in Hf. simpl.
  unfold path_le. rewrite (Hk e' He'), He in Hf. done.
Qed.

Lemma tree_build_spec paths :
  Forall well_named paths ->
  exists t, foldM (fun t p => h ← path_height p; Ok (tree_push h p t)) [] paths = Ok t /\
    tree_ok t /\ tree_paths t ≡ₚ paths /\ Forall (fun e => e.2 <> []) t.
Proof.
  intros Hp.
  assert (forall t, tree_ok t -> Forall (fun e => e.2 <> []) t ->
    exists t', foldM (fun t p => h ← path_height p; Ok (tree_push h p t)) t paths = Ok t' /\
      tree_ok t' /\ tree_paths t' ≡ₚ tree_paths t ++ paths /\ Forall (fun e => e.2 <> []) t') as Hg.
  { induction Hp as [|p paths Hp _ IH]; intros t Ht Hne.
    { exists t. rewrite app_nil_r. done. }
    simpl. destruct (well_named_eq p Hp) as (_ & -> & _). cbn [mbind res_bind].
    destruct (tree_push_spec p t Ht) as (H1 & H2 & _).
    destruct (IH (tree_push (height_of p) p t)) as (t' & E & Ht' & Hperm & Hne'); [done| |].
    { clear -Hne. induction Hne as [|[k ps] t Hk Ht IH]; simpl; [by constructor|].
      destruct (height_of p ?= k); constructor; try done; [by destruct ps|by constructor]. }
    exists t'. split; [done|]. split; [done|]. split; [|done].
    by rewrite Hperm, H2, <- Permutation_middle. }
  destruct (Hg []) as (t & ? & ? & ? & ?); [by split; constructor|constructor|]. by exists t.
Qed.

(** Only the tip is both in the tree and among the recent paths. *)
Lemma filter_tip (l recent : list Path) tip :
  NoDup l -> tip ∈ l -> (forall p, p ∈ l -> p ∈ recent <-> p = tip) ->
  l ≡ₚ tip :: filter (fun p => p ∉ recent) l.
Proof.
  intros Hnd Hin Hr. apply NoDup_Permutation; [done| |].
  - constructor; [|by apply NoDup_filter]. rewrite list_elem_of_filter. naive_solver.
  - intros p. rewrite elem_of_cons, list_elem_of_filter. split.
    + intros Hp. destruct (decide (p = tip)); [by left|]. right. split; [|done]. by rewrite Hr.
    + intros [->|[_ ?]]; done.
Qed.

Section Outcome.
Context `{BlockFiles}.

Definition height_lt (p q : Path) : Prop := height_of p < height_of q.

Lemma chain_sorted l : chain l -> StronglySorted height_lt l.
Proof.
  induction l as [|p l IH]; [constructor|]. intros [Hp Hl]. specialize (IH Hl).
  constructor; [done|]. destruct l as [|q l]; [constructor|]. destruct Hp as [Hh _].
  apply StronglySorted_cons in IH as [Hq _]. unfold height_lt in *.
  constructor; [lia|]. eapply Forall_impl; [exact Hq|]. simpl. lia.
Qed.

(** Where the branch is split: everything from there on is at least as high, the tip included. *)
Lemma branch_split b tip threshold :
  chain (b ++ [tip]) -> 0 < threshold ->
  let branch := b ++ [tip] in
  let idx := (length branch - Z.to_nat threshold)%nat in
  exists p0, branch !! idx = Some p0 /\ tip ∈ drop idx branch /\
    (forall q, q ∈ drop idx branch -> height_of p0 <= height_of q) /\
    (forall x, x ∈ b -> height_of x < height_of tip).
Proof.
  intros Hch Hth branch idx. pose proof (chain_sorted _ Hch) as Hsort. fold branch in Hsort.
  assert (length branch = S (length b)) as Hlen.
  { unfold branch. rewrite length_app. simpl. lia. }
  assert (exists p, branch !! idx = Some p) as [p0 Hp0] by (apply lookup_lt_is_Some_2; lia).
  exists p0. split; [done|]. split.
  { unfold branch. rewrite drop_app_le by lia. set_solver. }
  split; [|intros x Hx; apply (StronglySorted_app_1_elem_of height_lt b [tip]); [done|done|set_solver]].
  rewrite <- (take_drop idx branch) in Hsort. apply StronglySorted_app_1_r in Hsort.
  pose proof (drop_S _ _ _ Hp0) as Hdrop. rewrite Hdrop in Hsort |- *.
  apply StronglySorted_cons in Hsort as [Hf _]. rewrite Forall_forall in Hf.
  unfold height_lt in Hf. intros q [->|Hq]%elem_of_cons; [lia|]. specialize (Hf q Hq). lia.
Qed.

(** The tip is the one recent block of the branch that is still in the tree. *)
Lemma recent_tree_perm t b tip (recent : list Path) h :
  tree_ok t -> NoDup (tree_paths t ++ b) -> tip ∈ tree_paths t -> tip ∈ recent ->
  recent ⊆ b ++ [tip] -> h <= height_of tip ->
  tree_paths (tree_split_off h t).2 ≡ₚ
  tip :: filter (fun p => p ∉ recent) (tree_paths (tree_split_off h t).2).
Proof.
  intros Ht (Hnd & Hdisj & _)%NoDup_app Htip Hr Hsub Hh. apply filter_tip.
  - rewrite (tree_split_perm h t) in Hnd. by apply NoDup_app in Hnd as (_ & _ & ?).
  - by apply tree_split_recent.
  - intros p [Hp _]%tree_split_recent; [|done]. split; [|by intros ->].
    intros [Hb|Hb]%Hsub%elem_of_app; [by destruct (Hdisj p Hp)|].
    by apply list_elem_of_singleton in Hb.
Qed.

Lemma tree_split_below h t p :
  tree_ok t -> p ∈ tree_paths (tree_split_off h t).1 -> height_of p < h.
Proof.
  intros [_ Ht]. unfold tree_split_off, tree_paths. cbn [fst]. rewrite elem_of_concat.
  setoid_rewrite list_elem_of_fmap. setoid_rewrite list_elem_of_filter.
  intros (ps & (e & -> & Hh & He) & Hp). rewrite Forall_forall in Ht. specialize (Ht e He).
  rewrite Forall_forall in Ht. by rewrite (Ht p Hp).
Qed.

(** The paths kept after the split: a beginning of the branch, the recent paths above, and the
    rest of the tree below. *)
Lemma split_recent_spec paths t b tip threshold :
  block_paths paths -> tree_ok t -> chain (b ++ [tip]) -> tip ∈ paths ->
  tree_paths t ++ b ≡ₚ paths -> 0 < threshold ->
  let branch := b ++ [tip] in
  let idx := (length branch - Z.to_nat threshold)%nat in
  exists t' recent, split_off_recent_paths branch t threshold = Ok (take idx branch, t', recent) /\
    drop idx branch ⊆ recent /\ StronglySorted path_le recent /\
    take idx branch ++ recent ++ tree_paths t' ≡ₚ paths /\
    (forall p q, p ∈ tree_paths t' -> q ∈ recent -> height_of p < height_of q).
Proof.
  intros Hpaths Ht Hch Htip Hperm Hth branch idx.
  destruct (branch_split b tip threshold Hch Hth) as (p0 & Hp0 & Htipd & Habove & Hbelow).
  fold branch idx in Hp0, Htipd, Habove.
  assert (branch ⊆ paths) as Hbp.
  { intros x [Hx|Hx]%elem_of_app; [|apply list_elem_of_singleton in Hx; by subst].
    rewrite <- Hperm. set_solver. }
  assert (tip ∈ tree_paths t) as Htipt.
  { rewrite <- Hperm in Htip. apply elem_of_app in Htip as [?|Hb]; [done|].
    specialize (Hbelow tip Hb). lia. }
  assert (drop idx branch ⊆ branch) as Hdb.
  { intros x Hx. rewrite <- (take_drop idx branch). set_solver. }
  pose proof (recent_tree_perm t b tip (drop idx branch) (height_of p0) Ht) as Hrest.
  rewrite Hperm in Hrest. specialize (Hrest (paths_nodup _ Hpaths) Htipt Htipd Hdb (Habove _ Htipd)).
  pose proof (tree_split_perm (height_of p0) t) as Hsplit.
  unfold split_off_recent_paths. fold idx. rewrite Hp0.
  destruct (well_named_eq p0) as (_ & -> & _).
  { apply (paths_named paths Hpaths), Hbp. by eapply list_elem_of_lookup_2. }
  cbn [mbind res_bind]. set (trees := tree_split_off (height_of p0) t) in *.
  set (rest := filter (fun p => p ∉ drop idx branch) (tree_paths trees.2)) in *.
  destruct (sort_paths_spec (drop idx branch ++ rest)) as (recent & -> & Hrecent & Hrs).
  { apply Forall_forall. intros p [Hp|Hp]%elem_of_app; apply (paths_named paths Hpaths); [by apply Hbp, Hdb|].
    apply list_elem_of_filter in Hp as [_ Hp]. rewrite <- Hperm, Hsplit. set_solver. }
  exists trees.1, recent. split; [done|].
  split; [intros x Hx; rewrite Hrecent; set_solver|]. split; [done|]. split.
  - rewrite Hrecent, !app_assoc, take_drop, <- Hperm, Hsplit, Hrest. unfold branch.
    etransitivity; [|apply Permutation_app_comm]. rewrite <- !app_assoc.
    apply Permutation_app_head, (Permutation_app_comm (tip :: rest)).
  - intros p q Hp%tree_split_below Hq; [|done]. rewrite Hrecent in Hq.
    apply elem_of_app in Hq as [Hq|Hq]; [specialize (Habove q Hq); lia|].
    apply list_elem_of_filter in Hq as [_ Hq]. apply tree_split_recent in Hq as [_ Hq]; [lia|done].
Qed.

(** The branch leads from a block of the least height to the highest block connected to one. *)
Definition best_chain (paths branch : list Path) : Prop :=
  chain branch /\ (exists r, head branch = Some r /\ is_root paths r) /\
  exists tip, last branch = Some tip /\
    forall x, connected paths x -> height_of x <= height_of tip.

(** The two loops end with the best chain; all of it but the tip is out of the tree. *)
Lemma discovery_branch paths reporting_freq fuel :
  block_paths paths -> paths <> [] -> reporting_freq <> 0 -> (length paths <= fuel)%nat ->
  exists t b tip, best_chain paths (b ++ [tip]) /\ tree_ok t /\ tip ∈ paths /\
    tree_paths t ++ b ≡ₚ paths /\
    forall threshold, discovery fuel threshold reporting_freq paths = Some (
      r ← split_off_recent_paths (b ++ [tip]) t threshold;
      let '(canonical, tree, recent) := r in Ok (canonical, recent, tree_paths tree)).
Proof.
  intros Hp Hne Hf Hfuel.
  destruct (tree_build_spec paths) as (tree & Etree & Ht & Hperm & Hfull); [apply Hp|].
  assert (exists k roots rest, tree = (k, roots) :: rest /\ roots <> []) as (k & roots & rest & Er & Hr).
  { destruct Hfull as [|[k roots] rest]; [|by eauto].
    by apply Permutation_nil in Hperm. }
  destruct (find_best_tip_spec paths Hp tree reporting_freq Hf Ht Hperm fuel k roots rest Er Hr Hfuel)
    as (P & tip & parents & Etip & HP).
  destruct (canonical_branch_spec paths Hp tree reporting_freq Hf Ht Hperm P tip parents HP fuel Hfuel)
    as (t & br & Ebr & Ht' & Hch & Hhd & (r & Hlast & Hroot) & Hperm').
  destruct br as [|tip' b]; [done|]. injection Hhd as ->.
  exists t, (reverse b), tip. rewrite <- reverse_cons.
  split; [split; [done|split; [exists r; by rewrite head_reverse|]]|split_and!; try done].
  - exists tip. rewrite last_reverse. split; [done|]. intros x Hx.
    apply (searched_connected paths Hp tree reporting_freq Hf Ht Hperm P tip parents x HP Hx).
  - apply (visited_path paths P tip parents HP).
    by apply (tip_visited paths Hp tree reporting_freq Hf Ht Hperm P tip parents).
  - rewrite <- Hperm'. simpl. by rewrite reverse_Permutation.
  - intros threshold. unfold discovery. destruct paths; [done|]. rewrite Etree, Etip, Ebr.
    by destruct (split_off_recent_paths _ _ _) as [[[]]| |].
Qed.

Lemma discovery_spec paths threshold reporting_freq fuel :
  block_paths paths -> paths <> [] -> reporting_freq <> 0 -> 0 < threshold ->
  (length paths <= fuel)%nat ->
  exists branch canonical recent orphaned,
    discovery fuel threshold reporting_freq paths = Some (Ok (canonical, recent, orphaned)) /\
    best_chain paths branch /\
    canonical = take (length branch - Z.to_nat threshold) branch /\
    drop (length branch - Z.to_nat threshold) branch ⊆ recent /\
    StronglySorted path_le recent /\ canonical ++ recent ++ orphaned ≡ₚ paths /\
    (forall p q, p ∈ orphaned -> q ∈ recent -> height_of p < height_of q).
Proof.
  intros Hp Hne Hf Hth Hfuel.
  destruct (discovery_branch paths reporting_freq fuel Hp Hne Hf Hfuel)
    as (t & b & tip & Hbest & Ht & Htip & Hperm & E).
  destruct (split_recent_spec paths t b tip threshold) as (t' & recent & Es & ?);
    [done|done|apply Hbest|done..|].
  rewrite E, Es. exists (b ++ [tip]). do 3 eexists. split; [done|]. naive_solver.
Qed.

(** * Properties *)

(** C24: Canonical chain discovery with a positive threshold and a reporting frequency that is not zero ends, without a panic, on
    files of distinct blocks with well-formed names: fuel for as many iterations as there are files is enough for both of
    its loops, every file is in exactly one of the three results, and the recent ones are in order of height and hash and all
    above the orphaned ones.  (At threshold 0 the best tip is in two results, see [discovery_threshold_zero].) *)
Theorem discovery_partition paths threshold reporting_freq fuel :
  block_paths paths -> reporting_freq <> 0 -> 0 < threshold -> (length paths <= fuel)%nat ->
  exists canonical recent orphaned,
    discovery fuel threshold reporting_freq paths = Some (Ok (canonical, recent, orphaned)) /\
    canonical ++ recent ++ orphaned ≡ₚ paths /\ StronglySorted path_le recent /\
    (forall p q, p ∈ orphaned -> q ∈ recent -> height_of p < height_of q).
Proof.
  intros Hp Hf Hth Hfuel. destruct paths as [|p paths].
  { exists [], [], []. split_and!; [done|done|constructor|set_solver]. }
  destruct (discovery_spec (p :: paths) threshold reporting_freq fuel)
    as (br & c & r & o & E & _ & _ & _ & ? & ? & ?); try done. eauto 10.
Qed.

(** C23: The canonical blocks found at a positive threshold are a longest chain: there is a chain of files, each naming the
    hash of the one before as its parent, one height above, from a file of the least
    height to a file as high as any that such chains reach; the canonical result is
    that chain without its last [threshold] blocks, which are among the recent ones. *)
Theorem discovery_finds_best_chain paths threshold reporting_freq fuel :
  block_paths paths -> paths <> [] -> reporting_freq <> 0 -> 0 < threshold ->
  (length paths <= fuel)%nat ->
  exists branch canonical recent orphaned,
    discovery fuel threshold reporting_freq paths = Some (Ok (canonical, recent, orphaned)) /\
    best_chain paths branch /\
    canonical = take (length branch - Z.to_nat threshold) branch /\
    drop (length branch - Z.to_nat threshold) branch ⊆ recent.
Proof.
  intros Hp Hne Hf Hth Hfuel.
  destruct (discovery_spec paths threshold reporting_freq fuel)
    as (br & c & r & o & E & ? & ? & ? & _); try done. eauto 10.
Qed.

(** With a threshold of zero, every canonical block is deep and every block outside the
    canonical branch is recent; the best tip, which is never taken out of the tree, is in both results. *)
Theorem discovery_threshold_zero paths reporting_freq fuel :
  block_paths paths -> paths <> [] -> reporting_freq <> 0 -> (length paths <= fuel)%nat ->
  exists tip canonical recent,
    discovery fuel 0 reporting_freq paths = Some (Ok (canonical, recent, [])) /\
    best_chain paths canonical /\ tip ∈ canonical /\ tip ∈ recent /\
    canonical ++ recent ≡ₚ tip :: paths.
Proof.
  intros Hp Hne Hf Hfuel.
  destruct (discovery_branch paths reporting_freq fuel Hp Hne Hf Hfuel)
    as (t & b & tip & Hbest & Ht & Htip & Hperm & E). rewrite E.
  assert (forall p, p ∈ paths -> 0 <= height_of p) as Hpos.
  { intros p Hin. by apply (well_named_eq p (paths_named paths Hp p Hin)). }
  pose proof (tree_split_perm 0 t) as Hsplit.
  assert (tree_paths (tree_split_off 0 t).1 = []) as Et.
  { apply elem_of_nil_inv. intros p Hin. pose proof (tree_split_below 0 t p Ht Hin).
    assert (0 <= height_of p); [|lia]. apply Hpos. rewrite <- Hperm, Hsplit. set_solver. }
  rewrite Et in Hsplit. cbn [app] in Hsplit.
  destruct (sort_paths_spec (tree_paths (tree_split_off 0 t).2)) as (recent & Es & Hr & _).
  { apply Forall_forall. intros p Hin. apply (paths_named paths Hp). rewrite <- Hperm, Hsplit.
    set_solver. }
  unfold split_off_recent_paths. rewrite Nat.sub_0_r, lookup_ge_None_2, drop_all, take_ge by done.
  cbn [mbind res_bind app]. rewrite filter_all, Es by (apply Forall_forall; set_solver).
  cbn [mbind res_bind]. rewrite Et. exists tip, (b ++ [tip]), recent. split; [done|].
  split; [done|]. split; [set_solver|].
  assert (tip ∈ tree_paths t) as Htt.
  { rewrite <- Hperm in Htip. apply elem_of_app in Htip as [?|Hb]; [done|]. exfalso.
    pose proof (chain_sorted _ (proj1 Hbest)) as Hs.
    assert (height_lt tip tip) as Hlt
      by (apply (StronglySorted_app_1_elem_of _ _ _ _ _ Hs Hb); set_solver).
    unfold height_lt in Hlt. lia. }
  split; [by rewrite Hr, <- Hsplit|]. rewrite Hr, <- Hsplit, <- Hperm.
  rewrite <- Permutation_cons_append. simpl. f_equiv. apply Permutation_app_comm.
Qed.
End Outcome.

Lemma example_block_paths : @block_paths example_files example_paths.
Proof. apply (bool_decide_unpack _). vm_compute. exact I. Qed.

Lemma discovery_partition_witness :
  exists canonical recent orphaned,
    @discovery example_files 6 2 1000 example_paths = Some (Ok (canonical, recent, orphaned)) /\
    canonical ++ recent ++ orphaned ≡ₚ example_paths.
Proof.
  destruct (@discovery_partition example_files example_paths 2 1000 6) as (c & r & o & E & Hp & _).
  - exact example_block_paths.
  - discriminate.
  - lia.
  - vm_compute. reflexivity.
  - exists c, r, o. split; [exact E|exact Hp].
Defined.

Lemma discovery_finds_best_chain_witness :
  exists branch canonical recent orphaned,
    @discovery example_files 6 2 1000 example_paths = Some (Ok (canonical, recent, orphaned)) /\
    canonical = take (length branch - 2) branch.
Proof.
  destruct (@discovery_finds_best_chain example_files example_paths 2 1000 6)
    as (b & c & r & o & E & _ & Hc & _).
  - exact example_block_paths.
  - discriminate.
  - discriminate.
  - lia.
  - vm_compute. reflexivity.
  - exists b, c, r, o. split; [exact E|exact Hc].
Defined.

Lemma find_after_first key pre rest :
  (forall i, (i < length pre)%nat -> take (length key) (drop i (pre ++ key ++ rest)) <> key) ->
  find_after key (pre ++ key ++ rest) = Some rest.
Proof.
  induction pre as [|b pre IH]; intros Hfirst; simpl.
  - unfold find_after. destruct (key ++ rest) eqn:E; rewrite <- E;
      by rewrite take_app_length, drop_app_length, bool_decide_true.
  - rewrite bool_decide_false by (apply (Hfirst 0%nat); simpl; lia).
    apply IH. intros i Hi. apply (Hfirst (S i)). simpl. lia.
Qed.

(** The scan of a file's head finds the hash of the parent: the 52 bytes in quotes after the first
    occurrence of the key, when no other quote lies between them and a character ends there. *)
Theorem hash_after_key_found key pre mid hash post :
  let buffer := pre ++ quoted key ++ mid ++ quote :: as_bytes hash ++ quote :: post in
  (forall i, (i < length pre)%nat -> take (length (quoted key)) (drop i buffer) <> quoted key) ->
  quote ∉ mid -> length (as_bytes hash) = StateHash_LEN ->
  hash_after_key key buffer = Ok (mkSh hash).
Proof.
  intros buffer Hfirst Hmid Hlen. unfold hash_after_key, buffer.
  rewrite find_after_first, find_byte_app by done. rewrite length_app, Hlen.
  replace (StateHash_LEN <=? _)%nat with true by (symmetry; apply Nat.leb_le; lia).
  unfold is_char_boundary. rewrite <- Hlen.
  rewrite lookup_app_r, Nat.sub_diag, take_app_length by done. cbn.
  by rewrite string_of_bytes_as_bytes.
Qed.

Lemma hash_after_key_found_witness :
  hash_after_key "previous_state_hash" (example_head "b") = Ok (mkSh (example_hash "b")).
Proof.
  apply (hash_after_key_found "previous_state_hash"
    (as_bytes "{" ++ quoted "protocol_state" ++ as_bytes ":{") (as_bytes ":") (example_hash "b")
    (as_bytes ",")).
  - intros i Hi E. assert (i < 19)%nat as Hi' by exact Hi. clear Hi.
    do 19 (destruct i as [|i]; [vm_compute in E; discriminate E|]). lia.
  - vm_compute. set_solver.
  - reflexivity.
Defined.

Lemma discovery_threshold_zero_witness :
  exists tip canonical recent,
    @discovery example_files 6 0 1000 example_paths = Some (Ok (canonical, recent, [])) /\
    tip ∈ canonical /\ tip ∈ recent.
Proof.
  destruct (@discovery_threshold_zero example_files example_paths 1000 6)
    as (tip & c & r & E & _ & Hc & Hr & _).
  - exact example_block_paths.
  - discriminate.
  - discriminate.
  - vm_compute. reflexivity.
  - exists tip, c, r. split; [exact E|]. split; [exact Hc|exact Hr].
Defined.
