(* ===== verification/Rose.v ===== *)
(** Finite trees with ordered children: the contents of the trees kept by the id_tree
    crate.  Subtrees in depth-first and in level order, insertion of a child,
    relabelling, removal of a subtree, ancestors. *)

From S2P Require Import Prelude.

Inductive rose (A : Type) : Type := Rose (label : A) (children : list (rose A)).
Arguments Rose {A} label children.

Section Rose.
Context {A : Type}.
Implicit Types (r : rose A) (l : list (rose A)).

Definition label r : A := match r with Rose a _ => a end.
Definition children r : list (rose A) := match r with Rose _ cs => cs end.

Lemma rose_children_ind (P : rose A -> Prop) :
  (forall a cs, Forall P cs -> P (Rose a cs)) -> forall r, P r.
Proof.
  intros HP. fix IH 1. intros [a cs]. apply HP.
  induction cs as [|c cs IHcs]; constructor; [apply IH|apply IHcs].
Qed.

(** All subtrees, depth first; the nodes are their labels. *)
Fixpoint subtrees r : list (rose A) :=
  match r with Rose _ cs => r :: concat (map subtrees cs) end.
Definition nodes r : list A := label <$> subtrees r.

Fixpoint rose_height r : nat :=
  match r with Rose _ cs => S (foldr Nat.max 0%nat (map rose_height cs)) end.

(** [n] levels of a forest, each from left to right. *)
Fixpoint bfs (n : nat) (l : list (rose A)) : list (rose A) :=
  match n with O => [] | S n => l ++ bfs n (l ≫= children) end.
Definition level_order r : list (rose A) := bfs (rose_height r) [r].

Definition forest_height l : nat := foldr Nat.max 0%nat (map rose_height l).

(** Nearest ancestor first. *)
Section Find.
Context (here : A -> bool).
Fixpoint ancestors r : option (list A) :=
  match r with
  | Rose a cs =>
    if here a then Some []
    else match foldr (fun o o' => match o with Some l => Some l | None => o' end) None
                 (map ancestors cs) with
         | Some l => Some (l ++ [a])
         | None => None
         end
  end.

(** A new last child for each node that passes the test. *)
Fixpoint add_child (n : A) r : rose A :=
  match r with
  | Rose a cs => Rose a (map (add_child n) cs ++ if here a then [Rose n []] else [])
  end.

(** Without the subtrees, other than the whole tree, whose label passes the test. *)
Fixpoint prune r : rose A :=
  match r with
  | Rose a cs => Rose a (concat (map (fun c => if here (label c) then [] else [prune c]) cs))
  end.
End Find.

Fixpoint rose_map (f : A -> A) r : rose A :=
  match r with Rose a cs => Rose (f a) (map (rose_map f) cs) end.

(** ** Subtrees and nodes *)

Lemma subtrees_Rose a cs : subtrees (Rose a cs) = Rose a cs :: (cs ≫= subtrees).
Proof. simpl. f_equal. induction cs as [|c cs IH]; [done|]. simpl. by rewrite IH. Qed.

Lemma subtrees_root r : r ∈ subtrees r.
Proof. destruct r. rewrite subtrees_Rose. left. Qed.

Lemma nodes_Rose a cs : nodes (Rose a cs) = a :: (cs ≫= nodes).
Proof.
  unfold nodes. rewrite subtrees_Rose. csimpl. f_equal.
  induction cs as [|c cs IH]; [done|]. csimpl. by rewrite fmap_app, IH.
Qed.

Lemma nodes_subtree r n : n ∈ nodes r <-> exists s, s ∈ subtrees r /\ label s = n.
Proof. unfold nodes. rewrite list_elem_of_fmap. naive_solver. Qed.

Lemma subtrees_trans r s u : s ∈ subtrees r -> u ∈ subtrees s -> u ∈ subtrees r.
Proof.
  induction r as [a cs IH] using rose_children_ind. rewrite subtrees_Rose.
  intros [->|Hs]%elem_of_cons Hu; [by rewrite <- subtrees_Rose|]. right.
  apply list_elem_of_bind in Hs as (c & Hs & Hc). apply list_elem_of_bind. exists c.
  rewrite Forall_forall in IH. eauto.
Qed.

Lemma child_subtree s c : c ∈ children s -> c ∈ subtrees s.
Proof.
  destruct s as [a cs]. cbn [children]. intros Hc. rewrite subtrees_Rose. right.
  apply list_elem_of_bind. exists c. split; [apply subtrees_root|done].
Qed.

(** ** Level order *)

Lemma forest_height_le l n :
  (forest_height l <= n)%nat <-> Forall (fun r => (rose_height r <= n)%nat) l.
Proof.
  unfold forest_height. induction l as [|r l IH]; simpl; [split; [constructor|lia]|].
  rewrite Forall_cons, <- IH. lia.
Qed.

Lemma forest_height_children l n :
  (forest_height l <= S n)%nat -> (forest_height (l ≫= children) <= n)%nat.
Proof.
  rewrite !forest_height_le, !Forall_forall. intros Hl c (r & Hc & Hr)%list_elem_of_bind.
  specialize (Hl r Hr). destruct r as [a cs]. simpl in *.
  assert (forest_height cs <= n)%nat as Hcs by (unfold forest_height; lia).
  rewrite forest_height_le, Forall_forall in Hcs. by apply Hcs.
Qed.

Lemma bfs_enough l n m :
  (forest_height l <= n)%nat -> (forest_height l <= m)%nat -> bfs n l = bfs m l.
Proof.
  assert (forall l, (forest_height l <= 0)%nat -> l = []) as Hnil.
  { intros [|[] ?]; [done|]. unfold forest_height; simpl. lia. }
  assert (forall k, bfs k [] = []) as Hbfs by (induction k; done).
  revert l m. induction n as [|n IH]; intros l m Hn Hm.
  { rewrite (Hnil l Hn). by rewrite !Hbfs. }
  destruct m as [|m]; [rewrite (Hnil l Hm); by rewrite !Hbfs|]. simpl. f_equal.
  apply IH; by apply forest_height_children.
Qed.

Lemma bfs_children n l : bfs n l ≫= children = bfs n (l ≫= children).
Proof.
  revert l. induction n as [|n IH]; intros l; simpl; [done|]. by rewrite bind_app, IH.
Qed.

(** The root, then the children of every node in turn. *)
Lemma level_order_unfold r : level_order r = r :: (level_order r ≫= children).
Proof.
  unfold level_order. rewrite bfs_children. destruct r as [a cs].
  change ([Rose a cs] ≫= children) with (cs ++ []). rewrite app_nil_r.
  cbn [rose_height bfs]. change ([Rose a cs] ≫= children) with (cs ++ []). rewrite app_nil_r.
  cbn [app]. f_equal. fold (forest_height cs).
  apply (bfs_enough cs (forest_height cs) (S (forest_height cs))); lia.
Qed.

Lemma bind_subtrees l : l ≫= subtrees ≡ₚ l ++ ((l ≫= children) ≫= subtrees).
Proof.
  induction l as [|[a cs] l IH]; [done|]. rewrite !bind_cons, bind_app, subtrees_Rose.
  cbn [children app]. f_equiv. rewrite IH, !app_assoc. f_equiv. apply Permutation_app_comm.
Qed.

Lemma bfs_perm n l : (forest_height l <= n)%nat -> bfs n l ≡ₚ l ≫= subtrees.
Proof.
  revert l. induction n as [|n IH]; intros l Hl; simpl.
  - destruct l as [|[] l]; [done|]. unfold forest_height in Hl. simpl in Hl. lia.
  - rewrite IH by by apply forest_height_children. by rewrite <- bind_subtrees.
Qed.

Lemma level_order_perm r : level_order r ≡ₚ subtrees r.
Proof.
  unfold level_order. rewrite bfs_perm; [csimpl; by rewrite app_nil_r|].
  unfold forest_height. simpl. lia.
Qed.

(** ** Operations *)

Lemma nodes_rose_map f r : nodes (rose_map f r) = f <$> nodes r.
Proof.
  induction r as [a cs IH] using rose_children_ind. cbn [rose_map].
  rewrite !nodes_Rose, fmap_cons. f_equal.
  induction IH as [|c cs Hc _ IHcs]; [done|]. cbn [map].
  by rewrite !bind_cons, fmap_app, Hc, IHcs.
Qed.

Lemma rose_map_height f r : rose_height (rose_map f r) = rose_height r.
Proof.
  induction r as [a cs IH] using rose_children_ind. simpl. f_equal.
  induction IH as [|c cs Hc _ IHcs]; [done|]. simpl. by rewrite Hc, IHcs.
Qed.

Lemma nodes_add_child here n r :
  nodes (add_child here n r) ≡ₚ
  ((fun _ => n) <$> filter (fun a => here a = true) (nodes r)) ++ nodes r.
Proof.
  induction r as [a cs IH] using rose_children_ind. cbn [add_child].
  rewrite !nodes_Rose, bind_app, filter_cons.
  assert (map (add_child here n) cs ≫= nodes ≡ₚ
    ((fun _ => n) <$> filter (fun a => here a = true) (cs ≫= nodes)) ++ (cs ≫= nodes)) as ->.
  { induction IH as [|c cs Hc _ IHcs]; [done|]. cbn [map].
    rewrite !bind_cons, filter_app, fmap_app, Hc, IHcs, <- !app_assoc. f_equiv.
    rewrite !app_assoc. f_equiv. apply Permutation_app_comm. }
  destruct (here a) eqn:E.
  - rewrite decide_True by done. rewrite fmap_cons. cbn [app].
    change ([Rose n []] ≫= nodes) with [n]. rewrite <- Permutation_cons_append, <- Permutation_middle.
    apply Permutation_swap.
  - rewrite decide_False by done. rewrite app_nil_r. by rewrite Permutation_middle.
Qed.

Lemma rose_height_pos r : (0 < rose_height r)%nat.
Proof. destruct r. simpl. lia. Qed.

Lemma add_child_height here n r : (rose_height (add_child here n r) <= S (rose_height r))%nat.
Proof.
  induction r as [a cs IH] using rose_children_ind. cbn [add_child rose_height].
  fold (forest_height cs). apply le_n_S.
  fold (forest_height (map (add_child here n) cs ++ if here a then [Rose n []] else [])).
  apply forest_height_le. apply Forall_app. split;
    [|destruct (here a); [constructor; [simpl; lia|constructor]|constructor]].
  pose proof (proj1 (forest_height_le cs (forest_height cs)) (le_n _)) as Hh.
  apply Forall_fmap. rewrite Forall_forall in *. intros c Hc. simpl.
  specialize (IH c Hc). specialize (Hh c Hc). lia.
Qed.

Lemma rose_map_ext f g r : (forall n, n ∈ nodes r -> f n = g n) -> rose_map f r = rose_map g r.
Proof.
  induction r as [a cs IH] using rose_children_ind. intros Hfg. cbn [rose_map].
  rewrite nodes_Rose in Hfg. f_equal; [apply Hfg; left|].
  apply map_ext_in. intros c Hc%list_elem_of_In. rewrite Forall_forall in IH.
  apply IH; [done|]. intros n Hn. apply Hfg. right. apply list_elem_of_bind. eauto.
Qed.

Lemma rose_map_map f g r : rose_map f (rose_map g r) = rose_map (fun n => f (g n)) r.
Proof.
  induction r as [a cs IH] using rose_children_ind. cbn [rose_map]. f_equal.
  rewrite map_map. apply map_ext_in. intros c Hc%list_elem_of_In. rewrite Forall_forall in IH. auto.
Qed.

Lemma rose_map_id r : rose_map (fun n => n) r = r.
Proof.
  induction r as [a cs IH] using rose_children_ind. cbn [rose_map]. f_equal.
  rewrite <- (map_id cs) at 2. apply map_ext_in. intros c Hc%list_elem_of_In.
  rewrite Forall_forall in IH. auto.
Qed.

Lemma label_rose_map f r : label (rose_map f r) = f (label r).
Proof. by destruct r. Qed.

Lemma bfs_parent_first n l before s after :
  bfs n l = before ++ s :: after -> s ∈ l \/ s ∈ before ≫= children.
Proof.
  revert l before. induction n as [|n IH]; intros l before; simpl; [by destruct before|].
  intros E. symmetry in E. apply app_eq_app in E as (k & [[-> E]|[-> E]]).
  - destruct (IH _ _ (eq_sym (eq_sym E))) as [Hs|Hs].
    + right. rewrite bind_app. set_solver.
    + right. rewrite bind_app. set_solver.
  - destruct k as [|x k]; simpl in E.
    + destruct (IH (before ≫= children) []) as [Hs|Hs]; [|by right; rewrite app_nil_r in *|by apply elem_of_nil in Hs].
      rewrite app_nil_r in E. by rewrite <- E.
    + injection E as -> E. left. set_solver.
Qed.

(** In level order, a node comes after its parent. *)
Lemma level_order_parent_first r before s after :
  level_order r = before ++ s :: after -> s = r \/ s ∈ before ≫= children.
Proof. intros [Hs|Hs]%bfs_parent_first; [left; set_solver|by right]. Qed.

Lemma nodes_prune here r : sublist (nodes (prune here r)) (nodes r).
Proof.
  induction r as [a cs IH] using rose_children_ind. cbn [prune]. rewrite !nodes_Rose.
  apply sublist_skip. induction IH as [|c cs Hc _ IHcs]; [done|]. cbn [map concat].
  rewrite bind_app, bind_cons. apply sublist_app; [|done].
  destruct (here (label c)); [apply sublist_nil_l|]. csimpl. by rewrite app_nil_r.
Qed.
End Rose.
