(* ===== verification/Branch.v ===== *)
(** Branches of the witness tree (src/rust/src/state/branch.rs): trees of block
    summaries, extended forward by a block whose parent they hold, backward by
    the parent of their root, and by other branches.  The tree itself is the id_tree
    crate, an interface with the laws its documentation states. *)

From S2P Require Import Prelude Bytes Base Command AccountDiff Account Coinbase Precomputed BlockOrder Rose.

(** * The tree of the id_tree crate *)

Class IdTree := {
  NodeId : Type;
  NodeId_eq_dec :: EqDecision NodeId;
  NodeId_countable :: Countable NodeId;
  Tree : Type;
  tree_new : Tree;
  (** [insert] with [AsRoot]; an existing root becomes a child *)
  insert_as_root : Block -> Tree -> res (NodeId * Tree);
  (** [insert] with [UnderNode]; the node is the last child *)
  insert_under : Block -> NodeId -> Tree -> res (NodeId * Tree);
  root_node_id : Tree -> option NodeId;
  node_data : Tree -> NodeId -> res Block;
  (** assignment through [get_mut] *)
  replace_data : NodeId -> Block -> Tree -> res Tree;
  children_ids : Tree -> NodeId -> res (list NodeId);
  traverse_level_order_ids : Tree -> NodeId -> res (list NodeId);
  traverse_post_order : Tree -> NodeId -> res (list Block);
  ancestor_ids : Tree -> NodeId -> res (list NodeId);
  tree_height : Tree -> nat;
  (** [remove_node] with [DropChildren] and [OrphanChildren] *)
  remove_drop_children : NodeId -> Tree -> res Tree;
  remove_orphan_children : NodeId -> Tree -> res Tree;
  (** [move_node] with [ToRoot] *)
  move_to_root : NodeId -> Tree -> res Tree
}.

Definition with_height (h : Z) (b : Block) : Block :=
  {| blk_parent_hash := blk_parent_hash b;
     blk_state_hash := blk_state_hash b;
     blk_height := h;
     blk_blockchain_length := blk_blockchain_length b;
     blk_genesis_state_hash := blk_genesis_state_hash b;
     blk_global_slot_since_genesis := blk_global_slot_since_genesis b;
     blk_hash_last_vrf_output := blk_hash_last_vrf_output b |}.

(** * Branches *)

Section Branch.
Context `{IdTree} `{Blake2b}.

Record Branch := mkBranch { root : NodeId; branches : Tree }.

Definition new_genesis_block (genesis_block : Block) : res Branch :=
  r ← insert_as_root genesis_block tree_new; Ok (mkBranch r.1 r.2).

Definition branch_new (b : PrecomputedBlock) : res Branch :=
  new_genesis_block (block_from_precomputed b 0).

Definition new_genesis (root_hash root_prev_hash : StateHash)
    (blockchain_length global_slot_since_genesis : Z) (genesis_last_vrf_output : list Z)
  : res Branch :=
  new_genesis_block
    {| blk_state_hash := root_hash;
       blk_genesis_state_hash := root_hash;
       blk_parent_hash := root_prev_hash;
       blk_height := 0;
       blk_blockchain_length := blockchain_length;
       blk_global_slot_since_genesis := global_slot_since_genesis;
       blk_hash_last_vrf_output := genesis_last_vrf_output |}.

Definition branch_is_empty (br : Branch) : bool := (tree_height (branches br) =? 0)%nat.
Definition branch_height (br : Branch) : Z := wrap32 (Z.of_nat (tree_height (branches br))).
Definition root_block (br : Branch) : res Block := expect (node_data (branches br) (root br)).

Definition level_order_ids (br : Branch) : res (list NodeId) :=
  root ← expect_some (root_node_id (branches br));
  expect (traverse_level_order_ids (branches br) root).

Definition branch_len (br : Branch) : res Z :=
  ids ← level_order_ids br; Ok (wrap32 (Z.of_nat (length ids))).

(** The first node, in level order, of the greatest height. *)
Definition best_tip_id (br : Branch) : res NodeId :=
  root ← expect_some (root_node_id (branches br));
  ids ← level_order_ids br;
  foldM (fun best id =>
    best_tip ← expect (node_data (branches br) best);
    node ← expect (node_data (branches br) id);
    Ok (if blk_height best_tip <? blk_height node then id else best)) root ids.

Definition canonical_root_id (br : Branch) : res (option NodeId) :=
  tip ← best_tip_id br;
  ids ← expect (ancestor_ids (branches br) tip);
  let threshold := Z.to_nat MAINNET_CANONICAL_THRESHOLD in
  _ ← mapM (fun id => expect (node_data (branches br) id)) (take threshold ids);
  Ok (ids !! (threshold - 1)%nat).

(** [simple_extension]: the block goes under the first node that is its parent. *)
Fixpoint extend_first (br : Branch) (b : PrecomputedBlock) (ids : list NodeId)
  : res (option (NodeId * Block) * Branch) :=
  match ids with
  | [] => Ok (None, br)
  | node_id :: ids =>
    node ← expect (node_data (branches br) node_id);
    if bool_decide (previous_state_hash b = blk_state_hash node) then
      let new_block := block_from_precomputed b (wrap32 (blk_height node + 1)) in
      r ← expect (insert_under new_block node_id (branches br));
      Ok (Some (r.1, new_block), mkBranch (root br) r.2)
    else extend_first br b ids
  end.

Definition simple_extension (br : Branch) (b : PrecomputedBlock)
  : res (option (NodeId * Block) * Branch) :=
  ids ← level_order_ids br; extend_first br b ids.

(** [new_root]: the block becomes the root and every other height grows. *)
Definition new_root (br : Branch) (b : PrecomputedBlock) : res Branch :=
  r ← expect (insert_as_root (block_from_precomputed b 0) (branches br));
  let new_root_id := r.1 in
  ids ← expect (traverse_level_order_ids r.2 new_root_id);
  t ← foldM (fun t node_id =>
        node ← expect (node_data t node_id);
        if bool_decide (node_id <> new_root_id)
        then expect (replace_data node_id (with_height (wrap32 (blk_height node + 1)) node) t)
        else Ok t) r.2 ids;
  Ok (mkBranch new_root_id t).

Definition top_leaves_with_id (br : Branch) : res (list (NodeId * Block)) :=
  ids ← level_order_ids br;
  nodes ← mapM (fun id => node ← expect (node_data (branches br) id); Ok (id, node)) ids;
  Ok (filter (fun n => wrap32 (blk_height n.2 + 1) = branch_height br) nodes).

Definition top_leaves (br : Branch) : res (list Block) :=
  leaves ← top_leaves_with_id br; Ok (leaves.*2).

Definition leaves (br : Branch) : res (list Block) :=
  ids ← level_order_ids br;
  nodes ← mapM (fun id => node ← expect (node_data (branches br) id);
                          cs ← expect (children_ids (branches br) id); Ok (node, cs)) ids;
  Ok ((filter (fun n => n.2 = []) nodes).*1).

(** Sorting by [cmp] reversed puts the greatest, that is the worst, block first. *)
Definition reverse_le (x y : NodeId * Block) : bool :=
  match CompOpp (block_cmp x.2 y.2) with Gt => false | _ => true end.

Definition best_tip_with_id (br : Branch) : res (option (NodeId * Block)) :=
  leaves ← top_leaves_with_id br; Ok (head (sort_by reverse_le leaves)).

Definition best_tip (br : Branch) : res (option Block) :=
  tip ← best_tip_with_id br; Ok (option_map snd tip).

Definition longest_chain (br : Branch) : res (list StateHash) :=
  tip ← best_tip_with_id br;
  match tip with
  | Some (node_id, _) =>
    node ← expect (node_data (branches br) node_id);
    ids ← expect (ancestor_ids (branches br) node_id);
    nodes ← mapM (fun id => expect (node_data (branches br) id)) ids;
    Ok (blk_state_hash node :: map blk_state_hash nodes)
  | None => Ok []
  end.

Definition mem (br : Branch) (state_hash : StateHash) : res bool :=
  root ← expect_some (root_node_id (branches br));
  nodes ← expect (traverse_post_order (branches br) root);
  Ok (existsb (fun b => bool_decide (blk_state_hash b = state_hash)) nodes).

(** ** [merge_on] *)

(** The children of one node of the incoming tree go under its copy. *)
Definition merge_children (incoming : Branch) (junction_height : Z) (under : NodeId) (t : Tree)
    (children : list NodeId) : res (Tree * list (NodeId * NodeId)) :=
  foldM (fun st child_id =>
    let '(t, inserts) := st in
    child ← expect (node_data (branches incoming) child_id);
    let child := with_height (wrap32 (blk_height child + wrap32 (junction_height + 1))) child in
    r ← expect (insert_under child under t);
    Ok (r.2, inserts ++ [(child_id, r.1)])) (t, []) children.

Definition merge_node (incoming : Branch) (junction_height : Z)
    (st : Tree * gmap NodeId NodeId) (old_node_id : NodeId) : res (Tree * gmap NodeId NodeId) :=
  let '(t, merge_id_map) := st in
  under ← expect_some (merge_id_map !! old_node_id);
  cs ← expect (children_ids (branches incoming) old_node_id);
  r ← merge_children incoming junction_height under t cs;
  Ok (r.1, fold_left (fun m e => <[e.1 := e.2]> m) r.2 merge_id_map).

Definition merge_on (br : Branch) (junction_id : NodeId) (incoming : Branch)
  : res (option NodeId * Branch) :=
  tip ← best_tip_with_id incoming;
  tip ← expect_some tip;
  incoming_root_id ← expect_some (root_node_id (branches incoming));
  incoming_root ← expect (node_data (branches incoming) incoming_root_id);
  junction ← expect (node_data (branches br) junction_id);
  let junction_height := blk_height junction in
  r ← expect (insert_under (with_height (wrap32 (junction_height + 1)) incoming_root)
                junction_id (branches br));
  ids ← expect (traverse_level_order_ids (branches incoming) incoming_root_id);
  st ← foldM (merge_node incoming junction_height) (r.2, {[ incoming_root_id := r.1 ]}) ids;
  Ok (st.2 !! tip.1, mkBranch (root br) st.1).

(** ** [prune_transition_frontier] *)

Definition leaf_node_id (br : Branch) (b : Block) : res (option NodeId) :=
  ids ← level_order_ids br;
  nodes ← mapM (fun id => node ← expect (node_data (branches br) id); Ok (id, node)) ids;
  Ok (option_map (fun e => e.2.1) (list_find (fun n => blk_state_hash b = blk_state_hash n.2) nodes)).

(** The ancestor counted as the [n]-th, from one. *)
Definition nth_ancestor (ids : list NodeId) (n : Z) : option NodeId :=
  if n =? 0 then None else ids !! Z.to_nat (n - 1).

Definition prune_transition_frontier (br : Branch) (k : Z) (best_tip : Block) : res Branch :=
  leaf ← leaf_node_id br best_tip;
  best_tip_id ← expect_some leaf;
  ids ← expect (ancestor_ids (branches br) best_tip_id);
  new_root_id ← expect_some (nth_ancestor ids k);
  prune_point_id ← expect_some (nth_ancestor ids (wrap32 (k + 1)));
  cs ← expect (children_ids (branches br) prune_point_id);
  t ← foldM (fun t id => if bool_decide (id <> new_root_id) then expect (remove_drop_children id t)
                         else Ok t) (branches br) cs;
  t ← expect (remove_orphan_children prune_point_id t);
  old_root ← expect_some (root_node_id t);
  t ← expect (remove_drop_children old_root t);
  t ← expect (move_to_root new_root_id t);
  node ← expect (node_data t new_root_id);
  let n := blk_height node in
  ids ← expect (traverse_level_order_ids t new_root_id);
  t ← foldM (fun t id => node ← expect (node_data t id);
                         expect (replace_data id (with_height (wrap32 (blk_height node - n)) node) t))
        t ids;
  Ok (mkBranch new_root_id t).
End Branch.

(** * What the documentation of the crate promises *)

Section Contents.
Context {Id : Type} `{EqDecision Id}.

Definition ids (r : rose (Id * Block)) : list Id := (nodes r).*1.
Definition blocks (r : rose (Id * Block)) : list Block := (nodes r).*2.
Definition is_id (id : Id) (n : Id * Block) : bool := bool_decide (n.1 = id).
Definition relabel (id : Id) (b : Block) : rose (Id * Block) -> rose (Id * Block) :=
  rose_map (fun n => if is_id id n then (id, b) else n).
End Contents.

(** Operations on the nodes of a tree succeed and act on its contents; the ids of the
    nodes are distinct. *)
Class IdTreeSpec `{IdTree} := {
  contents : Tree -> option (rose (NodeId * Block));
  orphans : Tree -> list (rose (NodeId * Block));
  contents_nodup t r : contents t = Some r -> NoDup (ids r);
  tree_new_spec : contents tree_new = None /\ orphans tree_new = [];
  insert_as_root_spec t b : exists id t', insert_as_root b t = Ok (id, t') /\
    orphans t' = orphans t /\
    contents t' = Some (Rose (id, b) (match contents t with Some r => [r] | None => [] end));
  insert_under_spec t r b p : contents t = Some r -> p ∈ ids r ->
    exists id t', insert_under b p t = Ok (id, t') /\
      orphans t' = orphans t /\ contents t' = Some (add_child (is_id p) (id, b) r);
  root_node_id_spec t : root_node_id t = (fun r => (label r).1) <$> contents t;
  node_data_spec t r id b : contents t = Some r -> (id, b) ∈ nodes r -> node_data t id = Ok b;
  replace_data_spec t r id b : contents t = Some r -> id ∈ ids r ->
    exists t', replace_data id b t = Ok t' /\ orphans t' = orphans t /\
      contents t' = Some (relabel id b r);
  children_ids_spec t r s : contents t = Some r -> s ∈ subtrees r ->
    children_ids t (label s).1 = Ok ((fun c => (label c).1) <$> children s);
  level_order_spec t r s : contents t = Some r -> s ∈ subtrees r ->
    traverse_level_order_ids t (label s).1 = Ok ((fun c => (label c).1) <$> level_order s);
  post_order_spec t r s : contents t = Some r -> s ∈ subtrees r ->
    exists l, traverse_post_order t (label s).1 = Ok l /\ l ≡ₚ blocks s;
  ancestor_ids_spec t r id l : contents t = Some r -> ancestors (is_id id) r = Some l ->
    ancestor_ids t id = Ok (l.*1);
  tree_height_spec t : tree_height t = match contents t with Some r => rose_height r | None => 0%nat end;
  remove_drop_spec t r id : contents t = Some r -> id ∈ ids r ->
    exists t', remove_drop_children id t = Ok t' /\ orphans t' = orphans t /\
      contents t' = if is_id id (label r) then None else Some (prune (is_id id) r);
  remove_orphan_spec t r s : contents t = Some r -> s ∈ subtrees r ->
    exists t', remove_orphan_children (label s).1 t = Ok t' /\
      orphans t' = children s ++ orphans t /\
      contents t' = if is_id (label s).1 (label r) then None else Some (prune (is_id (label s).1) r);
  move_to_root_spec t s : contents t = None -> orphans t = [s] -> NoDup (ids s) ->
    exists t', move_to_root (label s).1 t = Ok t' /\ orphans t' = [] /\ contents t' = Some s
}.

(** * Lemmas *)

Section Laws.
Context `{IdTreeSpec} `{Blake2b}.
Implicit Types (r s : rose (NodeId * Block)) (br : Branch) (t : Tree).

(** The heights count from the root and every block is the child of the block above it. *)
Inductive good : Z -> rose (NodeId * Block) -> Prop :=
| good_Rose d i b cs :
    blk_height b = d -> Forall (fun c => blk_parent_hash (label c).2 = blk_state_hash b) cs ->
    Forall (good (d + 1)) cs -> good d (Rose (i, b) cs).

(** The invariant of a branch with the given contents. *)
Record branch_ok br r : Prop := {
  bo_contents : contents (branches br) = Some r;
  bo_orphans : orphans (branches br) = [];
  bo_root : root br = (label r).1;
  bo_good : good 0 r;
  bo_height : Z.of_nat (rose_height r) <= U32_MAX
}.

Lemma good_subtree d r s : good d r -> s ∈ subtrees r ->
  good (blk_height (label s).2) s /\
  d <= blk_height (label s).2 /\
  blk_height (label s).2 + Z.of_nat (rose_height s) <= d + Z.of_nat (rose_height r).
Proof.
  revert d. induction r as [[i b] cs IH] using rose_children_ind. intros d Hg Hs.
  inversion Hg as [d' i' b' cs' Hd Hl Hc]; subst. rewrite subtrees_Rose in Hs.
  apply elem_of_cons in Hs as [->|Hs]; [cbn [label snd]; split; [done|lia]|].
  apply list_elem_of_bind in Hs as (c & Hs & Hcs). rewrite Forall_forall in IH, Hc.
  destruct (IH c Hcs _ (Hc c Hcs) Hs) as (? & ? & ?). split; [done|].
  assert (rose_height c < rose_height (Rose (i, b) cs))%nat; [|lia].
  pose proof (proj1 (forest_height_le cs (forest_height cs)) (le_n _)) as Hh.
  rewrite Forall_forall in Hh. specialize (Hh c Hcs). unfold forest_height in Hh. simpl. lia.
Qed.

Lemma good_node d r i b : good d r -> (i, b) ∈ nodes r ->
  d <= blk_height b < d + Z.of_nat (rose_height r).
Proof.
  intros Hg (s & Hs & E)%nodes_subtree. destruct (good_subtree _ _ _ Hg Hs) as (_ & Hlo & Hhi).
  rewrite E in *. simpl in *. pose proof (rose_height_pos s). lia.
Qed.

Lemma node_data_eq t r s :
  contents t = Some r -> s ∈ subtrees r -> node_data t (label s).1 = Ok (label s).2.
Proof.
  intros Ht Hs. apply (node_data_spec t r); [done|]. apply nodes_subtree. exists s.
  split; [done|]. by destruct (label s).
Qed.

Lemma subtree_id r s : s ∈ subtrees r -> (label s).1 ∈ ids r.
Proof.
  intros Hs. unfold ids. apply list_elem_of_fmap. exists (label s). split; [done|].
  apply nodes_subtree. eauto.
Qed.

(** A new child of the right height keeps the tree good. *)
Lemma add_child_good d r p n :
  good d r -> (forall b, (p, b) ∈ nodes r ->
    blk_height n.2 = blk_height b + 1 /\ blk_parent_hash n.2 = blk_state_hash b) ->
  good d (add_child (is_id p) n r).
Proof.
  revert d. induction r as [[i b] cs IH] using rose_children_ind. intros d Hg Hp.
  inversion Hg as [d' i' b' cs' Hd Hl Hc]; subst. simpl.
  assert (forall c, c ∈ cs -> good (blk_height b + 1) (add_child (is_id p) n c)) as Hcs.
  { intros c Hin. rewrite Forall_forall in IH, Hc. apply IH; [done|by apply Hc|].
    intros b' Hb'. apply Hp. rewrite nodes_Rose. right. apply list_elem_of_bind. eauto. }
  constructor; [done| |]; apply Forall_app; split.
  - apply Forall_fmap. eapply Forall_impl; [exact Hl|]. by intros [].
  - unfold is_id; case_bool_decide as E; simpl in E; [|constructor]. subst. constructor; [|constructor].
    apply Hp. rewrite nodes_Rose. left.
  - apply Forall_fmap, Forall_forall. done.
  - unfold is_id; case_bool_decide as E; simpl in E; [|constructor]. subst. constructor; [|constructor].
    destruct n as [j bn]. constructor; [|constructor|constructor].
    apply Hp. rewrite nodes_Rose. left.
Qed.

Lemma add_child_nodes r p n :
  NoDup (ids r) -> p ∈ ids r -> nodes (add_child (is_id p) n r) ≡ₚ n :: nodes r.
Proof.
  intros Hnd Hp. rewrite nodes_add_child. unfold ids in *. revert Hnd Hp.
  generalize (nodes r) as l. intros l. induction l as [|[i b] l IH]; [set_solver|].
  csimpl. intros [Hi Hnd]%NoDup_cons Hp. rewrite filter_cons.
  destruct (decide (i = p)) as [->|Hne].
  - rewrite decide_True by (by apply bool_decide_eq_true). csimpl. rewrite filter_none; [done|].
    apply Forall_forall. intros [j b'] Hj. unfold is_id. simpl. rewrite bool_decide_eq_true.
    intros ->. apply Hi. apply list_elem_of_fmap. by exists (p, b').
  - rewrite decide_False by (by unfold is_id; rewrite bool_decide_eq_true).
    apply elem_of_cons in Hp as [->|Hp]; [done|]. rewrite <- Permutation_middle, IH by done. apply Permutation_swap.
Qed.

Lemma level_order_ids_eq br r :
  contents (branches br) = Some r ->
  level_order_ids br = Ok ((fun c => (label c).1) <$> level_order r).
Proof.
  intros Hc. unfold level_order_ids. rewrite root_node_id_spec, Hc. cbn.
  by rewrite (level_order_spec _ _ r Hc (subtrees_root r)).
Qed.

Lemma extend_first_spec br r b l :
  branch_ok br r -> Z.of_nat (rose_height r) < U32_MAX -> l ⊆ subtrees r ->
  (extend_first br b ((fun c => (label c).1) <$> l) = Ok (None, br) /\
   Forall (fun s => previous_state_hash b <> blk_state_hash (label s).2) l) \/
  (exists s id br', s ∈ l /\ previous_state_hash b = blk_state_hash (label s).2 /\
     let nb := block_from_precomputed b (blk_height (label s).2 + 1) in
     extend_first br b ((fun c => (label c).1) <$> l) = Ok (Some (id, nb), br') /\
     branch_ok br' (add_child (is_id (label s).1) (id, nb) r)).
Proof.
  intros Hok Hh. pose proof (bo_contents _ _ Hok) as Hc. pose proof (bo_good _ _ Hok) as Hg.
  induction l as [|s l IH]; intros Hl; [left; split; [done|constructor]|]. csimpl.
  assert (s ∈ subtrees r) as Hs by (apply Hl; left).
  rewrite (node_data_eq _ _ _ Hc Hs). cbn [expect mbind res_bind].
  case_bool_decide as E.
  - right. destruct (good_subtree _ _ _ Hg Hs) as (_ & Hlo & Hhi).
    pose proof (rose_height_pos s).
    assert (wrap32 (blk_height (label s).2 + 1) = blk_height (label s).2 + 1) as ->
      by (apply wrap32_id; ints).
    set (nb := block_from_precomputed b _).
    destruct (insert_under_spec _ _ nb _ Hc (subtree_id _ _ Hs)) as (id & t' & -> & Ho' & Ht').
    exists s, id, (mkBranch (root br) t'). split; [left|]. split; [done|]. split; [done|].
    split; cbn [branches root].
    + done.
    + rewrite Ho'. apply Hok.
    + rewrite (bo_root _ _ Hok). by destruct r.
    + apply add_child_good; [done|]. intros b' Hb'. cbn [snd].
      assert (b' = (label s).2) as ->.
      { pose proof (node_data_spec _ _ _ _ Hc Hb') as E1. rewrite (node_data_eq _ _ _ Hc Hs) in E1.
        congruence. }
      done.
    + fold nb. pose proof (add_child_height (is_id (label s).1) (id, nb) r). ints.
  - destruct IH as [[IH1 IH2]|(s' & id & br' & Hs' & IH)]; [by intros x Hx; apply Hl; right| |].
    + left. split; [done|by constructor].
    + right. exists s', id, br'. split; [by right|done].
Qed.

(** ** Updating the data of nodes *)

Definition update_step (cond : NodeId -> bool) (g : Block -> Block) t (id : NodeId) : res Tree :=
  node ← expect (node_data t id);
  if cond id then expect (replace_data id (g node) t) else Ok t.

Lemma ids_rose_map f r : (forall n, (f n).1 = n.1) -> ids (rose_map f r) = ids r.
Proof.
  intros Hf. unfold ids. rewrite nodes_rose_map, <- list_fmap_compose.
  apply list_fmap_ext. intros _ n _. apply Hf.
Qed.

Lemma ids_elem r id : id ∈ ids r -> exists b, (id, b) ∈ nodes r.
Proof. unfold ids. intros ([i b] & -> & Hn)%list_elem_of_fmap. eauto. Qed.

Lemma node_unique t r id b b' :
  contents t = Some r -> (id, b) ∈ nodes r -> (id, b') ∈ nodes r -> b = b'.
Proof.
  intros Hc Hb Hb'. pose proof (node_data_spec _ _ _ _ Hc Hb) as E.
  rewrite (node_data_spec _ _ _ _ Hc Hb') in E. congruence.
Qed.

Lemma update_all_spec cond g l t r :
  contents t = Some r -> NoDup l -> l ⊆ ids r ->
  exists t', foldM (update_step cond g) t l = Ok t' /\ orphans t' = orphans t /\
    contents t' = Some (rose_map (fun n => if bool_decide (n.1 ∈ l) && cond n.1
                                           then (n.1, g n.2) else n) r).
Proof.
  intros Hc Hnd. revert t r Hc. induction Hnd as [|id l Hid Hnd IH]; intros t r Hc Hl.
  { exists t. split; [done|]. split; [done|]. rewrite Hc. f_equal. rewrite <- (rose_map_id r) at 1.
    by apply rose_map_ext. }
  destruct (ids_elem r id) as [b Hb]; [apply Hl; left|].
  cbn [foldM].
  assert (exists t1 r1, update_step cond g t id = Ok t1 /\ orphans t1 = orphans t /\
    contents t1 = Some r1 /\
    r1 = rose_map (fun n => if is_id id n && cond id then (id, g b) else n) r)
    as (t1 & r1 & -> & Ho1 & Hc1 & ->).
  { unfold update_step. rewrite (node_data_spec _ _ _ _ Hc Hb). cbn [expect mbind res_bind].
    destruct (cond id).
    - destruct (replace_data_spec t r id (g b) Hc) as (t1 & -> & Ho1 & Hc1); [apply Hl; left|].
      exists t1. eexists. split; [done|]. split; [done|]. split; [done|]. unfold relabel. apply rose_map_ext.
      intros n _. by rewrite andb_true_r.
    - exists t, r. split; [done|]. split; [done|]. split; [done|]. rewrite <- (rose_map_id r) at 1.
      apply rose_map_ext. intros n _. by rewrite andb_false_r. }
  cbn [mbind res_bind]. destruct (IH _ _ Hc1) as (t' & -> & Ho' & Hc').
  { rewrite ids_rose_map; [by intros x Hx; apply Hl; right|].
    intros [i b']. unfold is_id. simpl. case_bool_decide; [|done]. subst. by destruct (cond id). }
  exists t'. split; [done|]. split; [by rewrite Ho'|]. rewrite Hc'. f_equal. rewrite rose_map_map. apply rose_map_ext.
  intros [i b'] Hn. unfold is_id. simpl. destruct (decide (i = id)) as [->|Hne].
  - rewrite (node_unique _ _ _ _ _ Hc Hn Hb). 
    rewrite (bool_decide_true (id = id)) by done. rewrite (bool_decide_true (id ∈ id :: l)) by left.
    destruct (cond id); simpl; by rewrite bool_decide_false.
  - rewrite (bool_decide_false (i = id)) by done. simpl.
    by rewrite (bool_decide_ext (i ∈ id :: l) (i ∈ l)) by set_solver.
Qed.

Definition bump (b : Block) : Block := with_height (wrap32 (blk_height b + 1)) b.

Lemma good_bump d r :
  good d r -> 0 <= d -> d + Z.of_nat (rose_height r) <= U32_MAX ->
  good (d + 1) (rose_map (fun n => (n.1, bump n.2)) r).
Proof.
  revert d. induction r as [[i b] cs IH] using rose_children_ind. intros d Hg Hd Hh.
  inversion Hg as [d' i' b' cs' Hd' Hl Hc]; subst. cbn [rose_map rose_height fst snd] in *.
  constructor.
  - unfold bump. simpl. apply wrap32_id. ints.
  - apply Forall_fmap. eapply Forall_impl; [exact Hl|]. by intros [[] ?].
  - pose proof (proj1 (forest_height_le cs (forest_height cs)) (le_n _)) as Hf.
    apply Forall_fmap. rewrite Forall_forall in *. intros c Hin. apply IH; [done|auto|lia|].
    specialize (Hf c Hin). unfold forest_height in Hf. lia.
Qed.

Lemma level_ids_nodup t r :
  contents t = Some r -> NoDup ((fun c => (label c).1) <$> level_order r).
Proof.
  intros Hc. rewrite level_order_perm. pose proof (contents_nodup _ _ Hc) as Hnd.
  unfold ids, nodes in Hnd. by rewrite <- list_fmap_compose in Hnd.
Qed.

Lemma level_ids_elem r id : id ∈ (fun c => (label c).1) <$> level_order r <-> id ∈ ids r.
Proof. rewrite level_order_perm. unfold ids, nodes. by rewrite <- list_fmap_compose. Qed.

Lemma new_root_spec br r b :
  branch_ok br r -> state_hash b = blk_parent_hash (label r).2 ->
  Z.of_nat (rose_height r) < U32_MAX ->
  exists id br', new_root br b = Ok br' /\
    branch_ok br' (Rose (id, block_from_precomputed b 0) [rose_map (fun n => (n.1, bump n.2)) r]).
Proof.
  intros Hok Hpar Hh. pose proof (bo_contents _ _ Hok) as Hc. unfold new_root.
  set (nb := block_from_precomputed b 0).
  destruct (insert_as_root_spec (branches br) nb) as (id & t1 & -> & Ho1 & Hc1).
  rewrite Hc in Hc1. cbn [expect mbind res_bind fst snd].
  set (r1 := Rose (id, nb) [r]) in *.
  rewrite (level_order_spec _ _ r1 Hc1 (subtrees_root r1) : traverse_level_order_ids t1 id = _).
  cbn [expect mbind res_bind].
  destruct (update_all_spec (fun i => bool_decide (i <> id)) bump
    ((fun c => (label c).1) <$> level_order r1) t1 r1 Hc1) as (t2 & E2 & Ho2 & Hc2).
  { by eapply level_ids_nodup. }
  { intros x Hx. by apply level_ids_elem. }
  unfold update_step in E2. unfold bump at 1 in E2. rewrite E2. cbn [mbind res_bind].
  exists id, (mkBranch id t2). split; [done|].
  assert (id ∉ ids r) as Hid.
  { pose proof (contents_nodup _ _ Hc1) as Hnd. unfold ids, r1 in Hnd. rewrite nodes_Rose in Hnd.
    csimpl in Hnd. rewrite app_nil_r in Hnd. by apply NoDup_cons in Hnd as [? _]. }
  assert (rose_map (fun n => if bool_decide (n.1 ∈ (fun c => (label c).1) <$> level_order r1) &&
      bool_decide (n.1 <> id) then (n.1, bump n.2) else n) r1 =
    Rose (id, nb) [rose_map (fun n => (n.1, bump n.2)) r]) as E.
  { match goal with |- rose_map ?g r1 = _ => set (f := g) end. change (rose_map f r1) with
      (Rose (f (id, nb)) [rose_map f r]). unfold f. cbn [fst]. f_equal.
    - by rewrite (bool_decide_false (id <> id)), andb_false_r by tauto.
    - f_equal. apply rose_map_ext. intros [i b'] Hn. cbn [fst snd].
      assert (i ∈ ids r) as Hi by (unfold ids; apply list_elem_of_fmap; by exists (i, b')).
      rewrite !bool_decide_true; [done|by intros ->|].
      apply level_ids_elem. unfold r1, ids. rewrite nodes_Rose. csimpl. rewrite app_nil_r. by right. }
  rewrite E in Hc2. split; cbn [branches root label fst]; [done|rewrite Ho2, Ho1; apply Hok|done| |].
  - constructor; [done| |].
    + constructor; [|constructor]. rewrite label_rose_map. simpl. by rewrite Hpar.
    + constructor; [|constructor]. apply good_bump; [apply Hok|lia|lia].
  - cbn [rose_height map foldr]. rewrite rose_map_height. lia.
Qed.

(** ** Merging *)

Definition shift (h : Z) (b : Block) : Block := with_height (blk_height b + (h + 1)) b.

Lemma insert_all_lookup (l : list (NodeId * NodeId)) (m : gmap NodeId NodeId) k :
  let m' := fold_left (fun m e => <[e.1 := e.2]> m) l m in
  (exists v, (k, v) ∈ l /\ m' !! k = Some v) \/ (k ∉ l.*1 /\ m' !! k = m !! k).
Proof.
  revert m. induction l as [|[i j] l IH]; intros m; [right; split; [apply not_elem_of_nil|done]|].
  csimpl. destruct (IH (<[i:=j]> m)) as [(v & Hv & E)|[Hk E]]; [left; exists v; set_solver|].
  destruct (decide (k = i)) as [->|Hne].
  - left. exists j. rewrite E, lookup_insert_eq. set_solver.
  - right. rewrite E, lookup_insert_ne by done. set_solver.
Qed.

Section Merge.
Variables (incoming : Branch) (ri : rose (NodeId * Block)) (jh : Z).
Hypothesis Hinc : branch_ok incoming ri.
Hypothesis Hjh : 0 <= jh /\ jh + 1 + Z.of_nat (rose_height ri) <= U32_MAX.

Lemma shift_wrap s : s ∈ subtrees ri ->
  with_height (wrap32 (blk_height (label s).2 + wrap32 (jh + 1))) (label s).2 = shift jh (label s).2.
Proof.
  intros Hs. destruct (good_subtree _ _ _ (bo_good _ _ Hinc) Hs) as (_ & Hlo & Hhi).
  pose proof (rose_height_pos s). unfold shift. f_equal.
  rewrite (wrap32_id (jh + 1)) by ints. apply wrap32_id. ints.
Qed.

(** What a step does to the tree merged into: it stays good and the copies are added. *)
Definition grows t t' (copies : list (rose (NodeId * Block))) : Prop :=
  exists r r', contents t = Some r /\ contents t' = Some r' /\ orphans t' = orphans t /\ good 0 r' /\
    label r' = label r /\ nodes r ⊆ nodes r' /\
    blocks r' ≡ₚ ((fun s => shift jh (label s).2) <$> copies) ++ blocks r.

Lemma grows_trans t1 t2 t3 l1 l2 :
  grows t1 t2 l1 -> grows t2 t3 l2 -> grows t1 t3 (l1 ++ l2).
Proof.
  intros (r1 & r2 & Hc1 & Hc2 & Ho & _ & Hl & Hs & Hp) (r2' & r3 & Hc2' & Hc3 & Ho' & Hg & Hl' & Hs' & Hp').
  assert (r2' = r2) as -> by congruence. exists r1, r3. split_and!; try done.
  - congruence.
  - congruence.
  - set_solver.
  - rewrite Hp', Hp, fmap_app, !app_assoc. f_equiv. apply Permutation_app_comm.
Qed.

Lemma insert_copy t r under c :
  contents t = Some r -> good 0 r -> c ∈ subtrees ri ->
  (exists p, (under, p) ∈ nodes r /\ blk_height p + 1 = blk_height (shift jh (label c).2) /\
     blk_parent_hash (label c).2 = blk_state_hash p) ->
  exists id t', insert_under (shift jh (label c).2) under t = Ok (id, t') /\
    grows t t' [c] /\ forall r', contents t' = Some r' -> (id, shift jh (label c).2) ∈ nodes r'.
Proof.
  intros Hc Hg Hsub (p & Hp & Hh & Hpar).
  assert (under ∈ ids r) as Hu by (unfold ids; apply list_elem_of_fmap; by exists (under, p)).
  destruct (insert_under_spec _ _ (shift jh (label c).2) _ Hc Hu) as (id & t' & -> & Ho' & Hc').
  pose proof (add_child_nodes r under (id, shift jh (label c).2) (contents_nodup _ _ Hc) Hu) as Hn.
  exists id, t'. split; [done|]. split.
  - exists r. eexists. split; [done|]. split; [done|]. split; [done|]. split_and!.
    + apply add_child_good; [done|]. intros b Hb. rewrite (node_unique _ _ _ _ _ Hc Hb Hp).
      cbn [snd]. split; [lia|]. by rewrite <- Hpar.
    + by destruct r.
    + intros x Hx. rewrite Hn. by right.
    + unfold blocks. rewrite Hn. done.
  - intros r' Hr'. rewrite Hr' in Hc'. injection Hc' as ->. rewrite Hn. left.
Qed.

Lemma good_child s c : s ∈ subtrees ri -> c ∈ children s ->
  c ∈ subtrees ri /\ blk_height (label c).2 = blk_height (label s).2 + 1 /\
  blk_parent_hash (label c).2 = blk_state_hash (label s).2.
Proof.
  intros Hs Hc. split; [by eapply subtrees_trans, child_subtree|].
  destruct (good_subtree _ _ _ (bo_good _ _ Hinc) Hs) as (Hg & _).
  destruct s as [[i b] cs]. simpl in *. inversion Hg as [d' i' b' cs' Hd Hl Hcs]; subst.
  rewrite Forall_forall in Hl, Hcs. specialize (Hcs c Hc). split; [|by apply Hl].
  by destruct Hcs.
Qed.

(** The copies recorded: old id, and new id of a node with the shifted block. *)
Definition copied t (c : rose (NodeId * Block)) (e : NodeId * NodeId) : Prop :=
  e.1 = (label c).1 /\ forall r, contents t = Some r -> (e.2, shift jh (label c).2) ∈ nodes r.

Lemma copied_grows t t' l c e : grows t t' l -> copied t c e -> copied t' c e.
Proof.
  intros (r & r' & Hc & Hc' & _ & _ & _ & Hs & _) [He Hn]. split; [done|].
  intros r'' Hr''. assert (r'' = r') as -> by congruence. auto.
Qed.

Lemma merge_children_spec s under t r :
  s ∈ subtrees ri -> contents t = Some r -> good 0 r -> (under, shift jh (label s).2) ∈ nodes r ->
  exists t' inserts, merge_children incoming jh under t ((fun c => (label c).1) <$> children s) =
      Ok (t', inserts) /\
    grows t t' (children s) /\ Forall2 (copied t') (children s) inserts.
Proof.
  intros Hs Hc Hg Hu. unfold merge_children.
  match goal with |- context [foldM ?g] => set (f := g) end.
  assert (forall cs t0 r0 done ins, cs ⊆ children s -> contents t0 = Some r0 -> good 0 r0 ->
    (under, shift jh (label s).2) ∈ nodes r0 -> Forall2 (copied t0) done ins ->
    exists t' ins', foldM f (t0, ins) ((fun c => (label c).1) <$> cs) = Ok (t', ins') /\
      grows t0 t' cs /\ Forall2 (copied t') (done ++ cs) ins') as Hloop.
  { induction cs as [|c cs IH]; intros t0 r0 done ins Hcs Hc0 Hg0 Hu0 Hd.
    { exists t0, ins. rewrite app_nil_r. split_and!; try done. by exists r0, r0. }
    destruct (good_child s c Hs) as (Hcr & Hch & Hcp); [apply Hcs; left|].
    destruct (insert_copy t0 r0 under c Hc0 Hg0 Hcr) as (id & t1 & E1 & Hgr & Hid).
    { exists (shift jh (label s).2). split; [done|]. unfold shift; simpl. split; [lia|done]. }
    rewrite fmap_cons. cbn [foldM].
    assert (f (t0, ins) (label c).1 = Ok (t1, ins ++ [((label c).1, id)])) as ->.
    { unfold f. rewrite (node_data_eq _ _ _ (bo_contents _ _ Hinc) Hcr).
      cbn [expect mbind res_bind]. by rewrite (shift_wrap c Hcr), E1. }
    cbn [mbind res_bind].
    pose proof Hgr as (r0' & r1 & Hc0' & Hc1 & _ & Hg1 & _ & Hsub & _).
    assert (r0' = r0) as -> by congruence.
    destruct (IH t1 r1 (done ++ [c]) (ins ++ [((label c).1, id)])) as (t' & ins' & E' & Hgr' & Hf');
      [by intros x Hx; apply Hcs; right|done|done|by apply Hsub| |].
    { apply Forall2_app.
      - eapply Forall2_impl; [exact Hd|]. intros ? ?. by eapply copied_grows.
      - constructor; [|constructor]. split; [done|]. exact Hid. }
    exists t', ins'. split; [done|]. split; [by apply (grows_trans _ t1 _ [c])|].
    by rewrite <- app_assoc in Hf'. }
  destruct (Hloop (children s) t r [] []) as (t' & ins & E & ? & ?); try done. eauto.
Qed.

(** The nodes of the incoming tree that have a copy, when those in [before] have been visited. *)
Definition known (before : list (rose (NodeId * Block))) : list (rose (NodeId * Block)) :=
  ri :: (before ≫= children).

Definition merged t0 (before : list (rose (NodeId * Block))) (st : Tree * gmap NodeId NodeId) : Prop :=
  grows t0 st.1 (known before) /\
  forall s, s ∈ known before -> exists id, st.2 !! (label s).1 = Some id /\
    forall r, contents st.1 = Some r -> (id, shift jh (label s).2) ∈ nodes r.

Lemma merge_node_spec t0 before s after st :
  level_order ri = before ++ s :: after -> merged t0 before st ->
  exists st', merge_node incoming jh st (label s).1 = Ok st' /\ merged t0 (before ++ [s]) st'.
Proof.
  intros Hlo [Hgr Hk]. destruct st as [t m]. cbn [fst snd] in *.
  assert (forall x, x ∈ level_order ri -> x ∈ subtrees ri) as Hsub
    by (intros x; by rewrite level_order_perm).
  assert (s ∈ subtrees ri) as Hs by (apply Hsub; rewrite Hlo; set_solver).
  assert (s ∈ known before) as Hks.
  { unfold known. destruct (level_order_parent_first _ _ _ _ Hlo) as [->|]; set_solver. }
  pose proof Hgr as (r0 & r & Hc0 & Hc & _ & Hg & _).
  destruct (Hk s Hks) as (under & Em & Hu).
  destruct (merge_children_spec s under t r Hs Hc Hg (Hu r Hc)) as (t' & ins & E & Hgr' & Hcp).
  unfold merge_node. rewrite Em. cbn [expect_some mbind res_bind].
  rewrite (children_ids_spec _ _ _ (bo_contents _ _ Hinc) Hs). cbn [expect mbind res_bind].
  rewrite E. cbn [mbind res_bind fst snd]. eexists. split; [done|].
  assert (known (before ++ [s]) = known before ++ children s) as Ek.
  { unfold known. rewrite bind_app. csimpl. by rewrite app_nil_r. }
  split; cbn [fst snd]; rewrite Ek; [by apply (grows_trans t0 t)|].
  intros x Hx.
  assert (x ∈ subtrees ri) as Hxr.
  { apply elem_of_app in Hx as [Hx|Hx]; [|by apply (good_child s x Hs)].
    apply elem_of_cons in Hx as [->|Hx]; [apply subtrees_root|].
    apply list_elem_of_bind in Hx as (y & Hx & Hy). apply (good_child y x); [|done].
    apply Hsub. rewrite Hlo. set_solver. }
  destruct (insert_all_lookup ins m (label x).1) as [(v & Hv & ->)|[Hnot ->]].
  - exists v. split; [done|]. intros r' Hr'.
    apply list_elem_of_lookup in Hv as [i Hi].
    destruct (Forall2_lookup_r _ _ _ _ _ Hcp Hi) as (c & Hci & Hid & Hin). cbn [fst snd] in *.
    assert ((label c).2 = (label x).2) as <-; [|by apply Hin].
    apply list_elem_of_lookup_2 in Hci. destruct (good_child s c Hs Hci) as (Hcr & _).
    pose proof (node_data_eq _ _ _ (bo_contents _ _ Hinc) Hcr) as E1.
    rewrite <- Hid, (node_data_eq _ _ _ (bo_contents _ _ Hinc) Hxr) in E1. congruence.
  - apply elem_of_app in Hx as [Hx|Hx].
    + destruct (Hk x Hx) as (id & Eid & Hid). exists id. split; [done|].
      intros r' Hr'. destruct Hgr' as (r1 & r1' & Hc1 & Hc1' & _ & _ & _ & Hincl & _).
      assert (r1' = r') as -> by congruence. by apply Hincl, Hid.
    + exfalso. apply Hnot. apply list_elem_of_lookup in Hx as [i Hi].
      destruct (Forall2_lookup_l _ _ _ _ _ Hcp Hi) as (e & He & Heq & _). rewrite <- Heq.
      apply list_elem_of_fmap. exists e. split; [done|]. by eapply list_elem_of_lookup_2.
Qed.

Lemma merge_loop_spec t0 after before st :
  level_order ri = before ++ after -> merged t0 before st ->
  exists st', foldM (merge_node incoming jh) st ((fun c => (label c).1) <$> after) = Ok st' /\
    merged t0 (level_order ri) st'.
Proof.
  revert before st. induction after as [|s after IH]; intros before st Hlo Hm.
  { rewrite app_nil_r in Hlo. rewrite Hlo. by exists st. }
  destruct (merge_node_spec t0 before s after st Hlo Hm) as (st1 & E1 & Hm1).
  rewrite fmap_cons. cbn [foldM]. rewrite E1. cbn [mbind res_bind].
  apply (IH (before ++ [s])); [by rewrite <- app_assoc|done].
Qed.
End Merge.

(** ** Tips *)

Lemma good_max d r : good d r ->
  exists n, n ∈ nodes r /\ blk_height n.2 + 1 = d + Z.of_nat (rose_height r).
Proof.
  revert d. induction r as [[i b] cs IH] using rose_children_ind. intros d Hg.
  inversion Hg as [d' i' b' cs' Hd Hl Hc]; subst. cbn [rose_height]. fold (forest_height cs).
  destruct (decide (cs = [])) as [->|Hne].
  { exists (i, b). rewrite nodes_Rose. split; [left|]. unfold forest_height. simpl. lia. }
  assert (exists c, c ∈ cs /\ rose_height c = forest_height cs) as (c & Hin & Ec).
  { clear -Hne. destruct cs as [|c0 cs0]; [done|]. clear. unfold forest_height. revert c0.
    induction cs0 as [|c cs IH]; intros c0; simpl; [exists c0; split; [left|lia]|].
    destruct (IH c) as (x & Hx & Ex). simpl in Ex.
    destruct (decide (rose_height c0 <= rose_height x)%nat).
    - exists x. split; [by right|]. lia.
    - exists c0. split; [left|]. lia. }
  rewrite Forall_forall in IH, Hc. destruct (IH c Hin _ (Hc c Hin)) as (n & Hn & Eh).
  exists n. split; [|rewrite Ec in Eh; lia]. rewrite nodes_Rose. right. apply list_elem_of_bind. eauto.
Qed.

Lemma top_leaves_eq br r : branch_ok br r ->
  top_leaves_with_id br =
  Ok (filter (fun n => blk_height n.2 + 1 = Z.of_nat (rose_height r)) (label <$> level_order r)).
Proof.
  intros Hok. pose proof (bo_contents _ _ Hok) as Hc. unfold top_leaves_with_id.
  rewrite (level_order_ids_eq _ _ Hc). cbn [mbind res_bind].
  assert (mapM (fun id => node ← expect (node_data (branches br) id); Ok (id, node))
    ((fun c => (label c).1) <$> level_order r) = Ok (label <$> level_order r)) as ->.
  { apply mapM_res_Ok, Forall2_fmap_l, Forall2_fmap_r, Forall_Forall2_diag, Forall_forall.
    intros s. rewrite level_order_perm. intros Hs. simpl. rewrite (node_data_eq _ _ _ Hc Hs).
    simpl. by destruct (label s). }
  cbn [mbind res_bind]. f_equal. apply filter_ext_elem. intros n Hn.
  apply list_elem_of_fmap in Hn as (s & -> & Hs). rewrite level_order_perm in Hs.
  destruct (good_subtree _ _ _ (bo_good _ _ Hok) Hs) as (_ & Hlo & Hhi).
  pose proof (rose_height_pos s). pose proof (bo_height _ _ Hok).
  unfold branch_height. rewrite tree_height_spec, Hc, !wrap32_id by ints. done.
Qed.

Lemma best_tip_exists br r : branch_ok br r ->
  exists tip, best_tip_with_id br = Ok (Some tip) /\ tip ∈ nodes r /\
    blk_height tip.2 + 1 = Z.of_nat (rose_height r).
Proof.
  intros Hok. unfold best_tip_with_id. rewrite (top_leaves_eq _ _ Hok). cbn [mbind res_bind].
  set (l := filter _ _).
  assert (l <> []) as Hne.
  { destruct (good_max _ _ (bo_good _ _ Hok)) as (n & Hn & Eh). intros E.
    apply (filter_nil_not_elem_of _ _ n E); [simpl; lia|]. rewrite level_order_perm. done. }
  pose proof (sort_by_perm reverse_le l) as Hp.
  destruct (sort_by reverse_le l) as [|tip k]; [by apply Permutation_nil in Hp|].
  exists tip. split; [done|].
  assert (tip ∈ l) as Ht by (rewrite <- Hp; left). apply list_elem_of_filter in Ht as [Hh Ht].
  by rewrite level_order_perm in Ht.
Qed.

Lemma merge_on_spec br r junction p incoming ri :
  branch_ok br r -> branch_ok incoming ri -> (junction, p) ∈ nodes r ->
  blk_parent_hash (label ri).2 = blk_state_hash p ->
  Z.of_nat (rose_height r) + Z.of_nat (rose_height ri) <= U32_MAX ->
  exists id br' r' tip, merge_on br junction incoming = Ok (Some id, br') /\
    branch_ok br' r' /\ nodes r ⊆ nodes r' /\
    blocks r' ≡ₚ (shift (blk_height p) <$> blocks ri) ++ blocks r /\
    best_tip_with_id incoming = Ok (Some tip) /\ (id, shift (blk_height p) tip.2) ∈ nodes r'.
Proof.
  intros Hok Hinc Hj Hpar Hh.
  destruct (good_node _ _ _ _ (bo_good _ _ Hok) Hj) as [Hlo Hhi].
  assert (0 <= blk_height p /\ blk_height p + 1 + Z.of_nat (rose_height ri) <= U32_MAX) as Hjh by lia.
  destruct (best_tip_exists _ _ Hinc) as (tip & Etip & Htip & _).
  pose proof (bo_contents _ _ Hinc) as Hci. pose proof (bo_contents _ _ Hok) as Hc.
  unfold merge_on. rewrite Etip. cbn [expect_some mbind res_bind].
  rewrite root_node_id_spec, Hci. cbn [fmap option_fmap option_map expect_some mbind res_bind].
  rewrite (node_data_eq _ _ _ Hci (subtrees_root ri)), (node_data_spec _ _ _ _ Hc Hj).
  cbn [expect mbind res_bind].
  assert (blk_height (label ri).2 = 0) as Hr0 by (destruct (bo_good _ _ Hinc); done).
  assert (with_height (wrap32 (blk_height p + 1)) (label ri).2 = shift (blk_height p) (label ri).2) as ->.
  { unfold shift. f_equal. rewrite Hr0. apply wrap32_id. ints. }
  destruct (insert_copy ri (blk_height p) (branches br) r junction ri Hc (bo_good _ _ Hok) (subtrees_root ri))
    as (id0 & t0 & -> & Hgr & Hid0).
  { exists p. split; [done|]. split; [unfold shift; simpl; lia|done]. }
  cbn [expect mbind res_bind fst snd].
  rewrite (level_order_spec _ _ _ Hci (subtrees_root ri)). cbn [expect mbind res_bind].
  destruct (merge_loop_spec incoming ri (blk_height p) Hinc Hjh (branches br) (level_order ri) []
    (t0, {[(label ri).1 := id0]})) as ([t' m'] & -> & Hg' & Hk); [done| |].
  { split; [done|]. intros s [->|Hs]%elem_of_cons; [|by apply elem_of_nil in Hs].
    exists id0. split; [cbn [snd]; apply lookup_singleton_eq|exact Hid0]. }
  cbn [fst snd] in *. cbn [mbind res_bind fst snd].
  assert (known ri (level_order ri) = level_order ri) as Ek by (symmetry; apply level_order_unfold).
  rewrite Ek in Hg', Hk. destruct Hg' as (r0 & r' & Hc0 & Hc' & Hor & Hgood & Hlab & Hsub & Hblk).
  assert (r0 = r) as -> by congruence.
  destruct (proj1 (nodes_subtree ri tip) Htip) as (s & Hs & <-).
  destruct (Hk s) as (id & Eid & Hid); [by rewrite level_order_perm|].
  exists id, (mkBranch (root br) t'), r', (label s). rewrite Eid. split; [done|].
  assert (blocks r' ≡ₚ (shift (blk_height p) <$> blocks ri) ++ blocks r) as Hb.
  { rewrite Hblk, level_order_perm. unfold blocks, nodes. by rewrite <- !list_fmap_compose. }
  split_and!; [|done|done|done|by apply Hid].
  split; cbn [branches root]; [done|rewrite Hor; apply Hok|by rewrite Hlab; apply Hok|done|].
  destruct (good_max _ _ Hgood) as ([i b] & Hn & Eh). cbn [snd] in Eh.
  assert (b ∈ blocks r') as Hbr by (unfold blocks; apply list_elem_of_fmap; by exists (i, b)).
  rewrite Hb in Hbr. apply elem_of_app in Hbr as [Hbr|Hbr].
  - apply list_elem_of_fmap in Hbr as (b' & -> & Hb').
    apply list_elem_of_fmap in Hb' as ([i' b''] & -> & Hn').
    destruct (good_node _ _ _ _ (bo_good _ _ Hinc) Hn'). unfold shift in Eh. simpl in *. lia.
  - apply list_elem_of_fmap in Hbr as ([i' b'] & -> & Hn').
    destruct (good_node _ _ _ _ (bo_good _ _ Hok) Hn'). simpl in *. lia.
Qed.

(** ** Ancestors *)

(** From a block to its parent, and so on. *)
Fixpoint parent_chain (b : Block) (l : list (NodeId * Block)) : Prop :=
  match l with
  | [] => True
  | p :: l => blk_parent_hash b = blk_state_hash p.2 /\ parent_chain p.2 l
  end.

Lemma parent_chain_snoc b l p n :
  parent_chain b l -> last ((n, b) :: l) = Some p ->
  forall q, blk_parent_hash p.2 = blk_state_hash q.2 -> parent_chain b (l ++ [q]).
Proof.
  revert b n. induction l as [|x l IH]; intros b n; simpl.
  - intros _ [= <-] q Hq. done.
  - intros [Hx Hl] Hlast q Hq. split; [done|]. apply (IH x.2 x.1); [done| |done].
    rewrite <- Hlast. by destruct x, l.
Qed.

Lemma first_some {A B} (f : A -> option B) (l : list A) :
  match foldr (fun o o' => match o with Some x => Some x | None => o' end) None (map f l) with
  | Some x => exists a, a ∈ l /\ f a = Some x
  | None => forall a, a ∈ l -> f a = None
  end.
Proof.
  induction l as [|a l IH]; simpl; [by intros a ?%elem_of_nil|].
  destruct (f a) as [x|] eqn:E; [exists a; split; [left|done]|].
  destruct (foldr _ _ _).
  - destruct IH as (a' & ? & ?). exists a'. split; [by right|done].
  - intros a' [->|Ha]%elem_of_cons; auto.
Qed.

Lemma ancestors_id id r l : ancestors (is_id id) r = Some l -> id ∈ ids r.
Proof.
  revert l. induction r as [[i b] cs IH] using rose_children_ind. intros l. cbn [ancestors].
  unfold ids. rewrite nodes_Rose. unfold is_id at 1. simpl. case_bool_decide as E; [subst; left|].
  pose proof (first_some (ancestors (is_id id)) cs) as Hf. destruct (foldr _ _ _) as [l'|]; [|done].
  destruct Hf as (c & Hc & El). intros _. right. rewrite Forall_forall in IH.
  specialize (IH c Hc l' El). unfold ids in IH. apply list_elem_of_fmap in IH as (n & -> & Hn).
  apply list_elem_of_fmap_2. apply list_elem_of_bind. eauto.
Qed.

Lemma ancestors_good d r id b :
  good d r -> NoDup (ids r) -> (id, b) ∈ nodes r ->
  exists l, ancestors (is_id id) r = Some l /\ parent_chain b l /\ l ⊆ nodes r /\
    last ((id, b) :: l) = Some (label r) /\ d + Z.of_nat (length l) = blk_height b.
Proof.
  revert d. induction r as [[i b0] cs IH] using rose_children_ind. intros d Hg Hnd Hn.
  inversion Hg as [d' i' b' cs' Hd Hl Hc]; subst. cbn [ancestors].
  unfold is_id at 1. simpl. case_bool_decide as E.
  { subst. assert ((id, b) = (id, b0)) as [= ->].
    { apply (NoDup_fmap_eq fst _ _ _ Hnd); [done|rewrite nodes_Rose; left|done]. }
    exists []. split_and!; [done|done|set_solver|done|simpl; lia]. }
  rewrite Forall_forall in IH, Hc, Hl. rewrite nodes_Rose in Hn.
  apply elem_of_cons in Hn as [[= -> ->]|Hn]; [done|].
  assert (forall c, c ∈ cs -> NoDup (ids c)) as Hndc.
  { intros c Hin. unfold ids in Hnd. rewrite nodes_Rose in Hnd. csimpl in Hnd.
    apply NoDup_cons in Hnd as [_ Hnd]. clear -Hnd Hin. induction cs as [|c' cs IH]; [by apply elem_of_nil in Hin|].
    rewrite bind_cons, fmap_app in Hnd. apply NoDup_app in Hnd as (H1 & _ & H2).
    apply elem_of_cons in Hin as [->|Hin]; auto. }
  pose proof (first_some (ancestors (is_id id)) cs) as Hf.
  destruct (foldr _ _ _) as [l'|].
  - destruct Hf as (c & Hin & El). pose proof (ancestors_id _ _ _ El) as Hid.
    apply ids_elem in Hid as [b' Hb'].
    assert ((id, b') = (id, b)) as [= ->].
    { apply (NoDup_fmap_eq fst _ _ _ Hnd); [| |done]; rewrite nodes_Rose; right; [|done].
      apply list_elem_of_bind. eauto. }
    destruct (IH c Hin _ (Hc c Hin) (Hndc c Hin) Hb') as (l & El' & Hch & Hsub & Hlast & Hlen).
    rewrite El in El'. injection El' as ->. exists (l ++ [(i, b0)]). split; [done|]. split_and!.
    + apply (parent_chain_snoc _ _ (label c) id); [done|done|]. by apply Hl.
    + rewrite nodes_Rose. intros x [Hx|Hx]%elem_of_app; [|set_solver]. right.
      apply list_elem_of_bind. eauto.
    + change ((id, b) :: l ++ [(i, b0)]) with (((id, b) :: l) ++ [(i, b0)]). by rewrite last_snoc.
    + rewrite length_app. simpl. lia.
  - apply list_elem_of_bind in Hn as (c & Hn & Hin).
    destruct (IH c Hin _ (Hc c Hin) (Hndc c Hin) Hn) as (l & El & _). by rewrite (Hf c Hin) in El.
Qed.

(** ** Order of the leaves *)

Lemma reverse_le_same_era x y :
  blk_genesis_state_hash x.2 = blk_genesis_state_hash y.2 ->
  reverse_le x y = true <-> block_cmp x.2 y.2 = Gt.
Proof.
  intros E. unfold reverse_le. rewrite (block_cmp_same_era _ _ E).
  destruct (better _ _ _ _ _ _) eqn:Eb; simpl; try done. exfalso.
  unfold better in Eb. repeat case_match; done.
Qed.

(** Not better: shorter, or a lesser VRF output, or no greater hash. *)
Lemma better_Gt_iff l1 l2 v1 v2 h1 h2 :
  better l1 l2 v1 v2 h1 h2 = Gt <->
  l1 < l2 \/ (l1 = l2 /\ (lex_compare v1 v2 = Lt \/
                          (v1 = v2 /\ str_compare (sh_str h1) (sh_str h2) <> Gt))).
Proof.
  unfold better. destruct (Z.compare_spec l1 l2) as [->|Hl|Hl].
  - destruct (lex_compare v1 v2) eqn:Ev.
    + apply lex_compare_eq in Ev as ->.
      destruct (str_compare _ _); split; try done; naive_solver lia.
    + split; [auto|done].
    + split; [done|]. intros [?|(_ & [?|[-> _]])]; [lia|done|]. by rewrite lex_compare_refl in Ev.
  - split; [auto|done].
  - split; [done|]. intros [?|[? _]]; lia.
Qed.

Lemma not_better_trans x y z :
  blk_genesis_state_hash x = blk_genesis_state_hash y ->
  blk_genesis_state_hash y = blk_genesis_state_hash z ->
  block_cmp x y = Gt -> block_cmp y z = Gt -> block_cmp x z = Gt.
Proof.
  intros Exy Eyz. rewrite !block_cmp_same_era, !better_Gt_iff by congruence.
  intros [Hxy|[E1 Hxy]] [Hyz|[E2 Hyz]]; [left; lia|left; lia|left; lia|right]. split; [lia|].
  destruct Hxy as [Hxy|[V1 Hxy]], Hyz as [Hyz|[V2 Hyz]].
  - left. by eapply lex_compare_trans_lt.
  - left. by rewrite <- V2.
  - left. by rewrite V1.
  - right. split; [congruence|]. by eapply lex_le_trans.
Qed.

Lemma simple_extension_spec br r b :
  branch_ok br r -> Z.of_nat (rose_height r) < U32_MAX ->
  (simple_extension br b = Ok (None, br) /\
   previous_state_hash b ∉ map blk_state_hash (blocks r)) \/
  (exists p id br' r', p ∈ nodes r /\ blk_state_hash p.2 = previous_state_hash b /\
     let new_block := block_from_precomputed b (blk_height p.2 + 1) in
     simple_extension br b = Ok (Some (id, new_block), br') /\
     branch_ok br' r' /\ nodes r' ≡ₚ (id, new_block) :: nodes r).
Proof.
  intros Hok Hh. pose proof (bo_contents _ _ Hok) as Hc.
  unfold simple_extension. rewrite (level_order_ids_eq _ _ Hc). cbn [mbind res_bind].
  destruct (extend_first_spec br r b (level_order r) Hok Hh) as [[E Hno]|(s & id & br' & Hs & Ep & E & Hok')].
  { intros x. by rewrite level_order_perm. }
  - left. split; [done|]. rewrite level_order_perm, Forall_forall in Hno.
    intros (b' & Eb & Hb')%list_elem_of_fmap. apply list_elem_of_fmap in Hb' as (n & -> & Hn).
    apply nodes_subtree in Hn as (s & Hs & <-). by apply (Hno s Hs).
  - right. rewrite level_order_perm in Hs. exists (label s), id, br'. eexists.
    split; [apply nodes_subtree; eauto|]. split; [done|]. split; [done|]. split; [done|].
    apply add_child_nodes; [by eapply contents_nodup|by apply subtree_id].
Qed.

(** ** Properties *)

(** Extending a branch forward: when no block of the branch is the parent of the incoming block
    nothing changes; otherwise exactly the incoming block is added, one above its parent, and the branch
    stays well formed (heights count from the root, every block under its parent). *)
Theorem simple_extension_correct br r b :
  branch_ok br r -> Z.of_nat (rose_height r) < U32_MAX ->
  (simple_extension br b = Ok (None, br) /\
   previous_state_hash b ∉ map blk_state_hash (blocks r)) \/
  (exists p id br' r', p ∈ nodes r /\ blk_state_hash p.2 = previous_state_hash b /\
     let new_block := block_from_precomputed b (blk_height p.2 + 1) in
     simple_extension br b = Ok (Some (id, new_block), br') /\
     branch_ok br' r' /\ nodes r' ≡ₚ (id, new_block) :: nodes r).
Proof. apply simple_extension_spec. Qed.

(** Merging a branch below a block that is the parent of its root: the result is well formed,
    holds the nodes of the first branch unchanged and every block of the other
    exactly once, at its height plus that of its new place, and the id
    returned is the place of the other branch's best tip. *)
Theorem merge_on_correct br r junction p incoming ri :
  branch_ok br r -> branch_ok incoming ri -> (junction, p) ∈ nodes r ->
  blk_parent_hash (label ri).2 = blk_state_hash p ->
  Z.of_nat (rose_height r) + Z.of_nat (rose_height ri) <= U32_MAX ->
  exists id br' r' tip, merge_on br junction incoming = Ok (Some id, br') /\
    branch_ok br' r' /\ nodes r ⊆ nodes r' /\
    blocks r' ≡ₚ (shift (blk_height p) <$> blocks ri) ++ blocks r /\
    best_tip_with_id incoming = Ok (Some tip) /\ (id, shift (blk_height p) tip.2) ∈ nodes r'.
Proof. apply merge_on_spec. Qed.

(** The longest chain of a branch: the hashes from the best tip to the root, each block
    the parent of the one before, as many as the branch has levels. *)
Theorem longest_chain_correct br r :
  branch_ok br r ->
  exists tip l, best_tip_with_id br = Ok (Some tip) /\
    longest_chain br = Ok (blk_state_hash tip.2 :: map (fun n => blk_state_hash n.2) l) /\
    parent_chain tip.2 l /\ last (tip :: l) = Some (label r) /\ S (length l) = rose_height r.
Proof.
  intros Hok. pose proof (bo_contents _ _ Hok) as Hc. pose proof (contents_nodup _ _ Hc) as Hnd.
  destruct (best_tip_exists _ _ Hok) as ([id b] & Etip & Hn & Hh).
  destruct (ancestors_good 0 r id b (bo_good _ _ Hok) Hnd Hn) as (l & El & Hch & Hsub & Hlast & Hlen).
  exists (id, b), l. split; [done|]. unfold longest_chain. rewrite Etip. cbn [mbind res_bind].
  rewrite (node_data_spec _ _ _ _ Hc Hn), (ancestor_ids_spec _ _ _ _ Hc El). cbn [expect mbind res_bind].
  assert (mapM (fun id => expect (node_data (branches br) id)) (l.*1) = Ok (l.*2)) as ->.
  { apply mapM_res_Ok, Forall2_fmap_l, Forall2_fmap_r, Forall_Forall2_diag, Forall_forall.
    intros [i b'] Hin. simpl. by rewrite (node_data_spec _ _ _ _ Hc (Hsub _ Hin)). }
  cbn [mbind res_bind]. split; [by rewrite map_map|]. split; [done|]. split; [done|]. simpl in Hh. lia.
Qed.

(** Which leaf [best_tip] selects: among the leaves of the top level of a branch of one era, it
    takes the one that every other is better than, although the comparison
    says "A < B means A is better than B" and the leaves are sorted by it, reversed. *)
Theorem best_tip_is_worst_leaf br r :
  branch_ok br r ->
  (forall b b', b ∈ blocks r -> b' ∈ blocks r -> blk_genesis_state_hash b = blk_genesis_state_hash b') ->
  exists tip, best_tip_with_id br = Ok (Some tip) /\ tip ∈ nodes r /\
    blk_height tip.2 + 1 = Z.of_nat (rose_height r) /\
    forall n, n ∈ nodes r -> blk_height n.2 + 1 = Z.of_nat (rose_height r) ->
      blk_state_hash n.2 <> blk_state_hash tip.2 -> block_cmp n.2 tip.2 = Lt.
Proof.
  intros Hok Hera. destruct (best_tip_exists _ _ Hok) as (tip & Etip & Hn & Hh).
  exists tip. split; [done|]. split; [done|]. split; [done|]. intros n Hn' Hh' Hne.
  unfold best_tip_with_id in Etip. rewrite (top_leaves_eq _ _ Hok) in Etip. cbn [mbind res_bind] in Etip.
  injection Etip as Ehead. set (l := filter _ _) in Ehead.
  assert (forall x, x ∈ l -> x.2 ∈ blocks r) as Hl.
  { intros x [_ Hx]%list_elem_of_filter. rewrite level_order_perm in Hx. by apply list_elem_of_fmap_2. }
  pose proof (sort_by_head reverse_le l) as Hhd. rewrite Ehead in Hhd. destruct Hhd as [Ht Hmin].
  - intros x y Hx Hy. rewrite !reverse_le_same_era by (apply Hera; auto).
    rewrite !block_cmp_same_era by (apply Hera; auto).
    destruct (better _ _ _ _ _ _) eqn:E; [by unfold better in E; repeat case_match|right|auto].
    by apply better_asym.
  - intros x y z Hx Hy Hz. rewrite !reverse_le_same_era by (apply Hera; auto).
    apply not_better_trans; apply Hera; auto.
  - assert (n ∈ l) as Hnl.
    { apply list_elem_of_filter. split; [done|]. rewrite level_order_perm. done. }
    destruct (Hmin n Hnl) as [->|Hle]; [done|].
    assert (blk_genesis_state_hash tip.2 = blk_genesis_state_hash n.2) as He by (apply Hera; auto).
    rewrite reverse_le_same_era in Hle by done. rewrite block_cmp_same_era in Hle |- * by done.
    destruct (better_total (blk_blockchain_length n.2) (blk_blockchain_length tip.2)
      (blk_hash_last_vrf_output n.2) (blk_hash_last_vrf_output tip.2) _ _ Hne) as [?|E]; [done|congruence].
Qed.
End Laws.

(** * A tree that keeps the promise *)

Section NatTree.
Notation content := (rose (nat * Block)).

(** The tree with distinct ids, and the orphaned subtrees. *)
Definition nt_contents (t : option content * list content) : option content :=
  match t.1 with Some r => if decide (NoDup (ids r)) then Some r else None | None => None end.
Definition nt_fresh (t : option content * list content) : nat :=
  S (foldr Nat.max 0%nat (match t.1 with Some r => ids r | None => [] end)).
Definition nt_find (t : option content * list content) (id : nat) : res content :=
  match nt_contents t with
  | Some r => match list_find (fun s => (label s).1 = id) (subtrees r) with
              | Some (_, s) => Ok s
              | None => Err
              end
  | None => Err
  end.

Definition nat_tree : IdTree := {|
  NodeId := nat;
  Tree := option content * list content;
  tree_new := (None, []);
  insert_as_root b t :=
    Ok (nt_fresh t, (Some (Rose (nt_fresh t, b)
          (match nt_contents t with Some r => [r] | None => [] end)), t.2));
  insert_under b p t :=
    match nt_contents t with
    | Some r => if decide (p ∈ ids r)
                then Ok (nt_fresh t, (Some (add_child (is_id p) (nt_fresh t, b) r), t.2)) else Err
    | None => Err
    end;
  root_node_id t := (fun r => (label r).1) <$> nt_contents t;
  node_data t id := s ← nt_find t id; Ok (label s).2;
  replace_data id b t :=
    match nt_contents t with Some r => Ok (Some (relabel id b r), t.2) | None => Err end;
  children_ids t id := s ← nt_find t id; Ok (map (fun c => (label c).1) (children s));
  traverse_level_order_ids t id := s ← nt_find t id; Ok (map (fun c => (label c).1) (level_order s));
  traverse_post_order t id := s ← nt_find t id; Ok (blocks s);
  ancestor_ids t id :=
    match nt_contents t with
    | Some r => match ancestors (is_id id) r with Some l => Ok (l.*1) | None => Err end
    | None => Err
    end;
  tree_height t := match nt_contents t with Some r => rose_height r | None => 0%nat end;
  remove_drop_children id t :=
    match nt_contents t with
    | Some r => Ok (if is_id id (label r) then None else Some (prune (is_id id) r), t.2)
    | None => Err
    end;
  remove_orphan_children id t :=
    match nt_contents t with
    | Some r => s ← nt_find t id;
      Ok (if is_id id (label r) then None else Some (prune (is_id id) r), children s ++ t.2)
    | None => Err
    end;
  move_to_root id t :=
    match list_find (fun s => (label s).1 = id) t.2 with
    | Some (_, s) => Ok (Some s, filter (fun s => (label s).1 <> id) t.2)
    | None => Err
    end
|}.

Lemma nt_fresh_new t r : nt_contents t = Some r -> nt_fresh t ∉ ids r.
Proof.
  unfold nt_contents, nt_fresh. destruct t as [[r'|] o]; simpl; [|done].
  case_decide; [|done]. intros [= ->]. intros Hin.
  assert (forall l : list nat, S (foldr Nat.max 0%nat l) ∈ l -> False) as Hmax; [|eauto].
  intros l Hl. assert (forall x, x ∈ l -> x <= foldr Nat.max 0%nat l)%nat as Hle.
  { clear. induction l as [|y l IH]; intros x; [by intros ?%elem_of_nil|]. simpl.
    intros [->|Hx]%elem_of_cons; [lia|]. specialize (IH x Hx). lia. }
  specialize (Hle _ Hl). lia.
Qed.

Lemma nt_contents_nodup t r : nt_contents t = Some r -> t.1 = Some r /\ NoDup (ids r).
Proof. unfold nt_contents. destruct t as [[r'|] o]; simpl; [|done]. case_decide; naive_solver. Qed.

Lemma nt_contents_some (r : content) o : NoDup (ids r) -> nt_contents (Some r, o) = Some r.
Proof. intros Hr. unfold nt_contents. simpl. by rewrite decide_True. Qed.

Lemma subtree_ids_nodup (r : content) : NoDup (ids r) <-> NoDup ((fun s => (label s).1) <$> subtrees r).
Proof. unfold ids, nodes. by rewrite <- list_fmap_compose. Qed.

Lemma nt_find_spec t r s : nt_contents t = Some r -> s ∈ subtrees r -> nt_find t (label s).1 = Ok s.
Proof.
  intros Hc Hs. unfold nt_find. rewrite Hc. apply nt_contents_nodup in Hc as [_ Hnd].
  rewrite subtree_ids_nodup in Hnd.
  destruct (list_find_elem_of (fun s' => (label s').1 = (label s).1) (subtrees r) s Hs) as [[i s'] E];
    [done|].
  rewrite E. apply list_find_Some in E as (Hi & E & _). f_equal.
  apply (NoDup_fmap_eq _ _ _ _ Hnd); [by eapply list_elem_of_lookup_2|done|done].
Qed.

Lemma nt_prune_nodup id (r : content) : NoDup (ids r) -> NoDup (ids (prune (is_id id) r)).
Proof. intros Hnd. unfold ids. eapply sublist_NoDup; [exact Hnd|apply fmap_sublist, nodes_prune]. Qed.

Lemma nt_removed id r (o o' : list content) :
  nt_contents (Some r, o) = Some r ->
  nt_contents ((if is_id id (label r) then None else Some (prune (is_id id) r)), o') =
  if is_id id (label r) then None else Some (prune (is_id id) r).
Proof.
  intros [_ Hnd]%nt_contents_nodup. destruct (is_id id (label r)); [done|].
  by apply nt_contents_some, nt_prune_nodup.
Qed.

Global Instance nat_tree_spec : @IdTreeSpec nat_tree.
Proof.
  refine (@Build_IdTreeSpec nat_tree nt_contents snd _ _ _ _ _ _ _ _ _ _ _ _ _ _ _); simpl.
  - intros t r Hc. apply (nt_contents_nodup t r Hc).
  - done.
  - intros t b. eexists _, _. split; [done|]. split; [done|]. apply nt_contents_some. unfold ids. rewrite nodes_Rose.
    destruct (nt_contents t) as [r|] eqn:E; csimpl; [|by repeat constructor; set_solver].
    rewrite app_nil_r. constructor; [by apply nt_fresh_new|apply (nt_contents_nodup t r E)].
  - intros t r b p Hc Hp. rewrite Hc, decide_True by done. eexists _, _. split; [done|]. split; [done|].
    pose proof (nt_contents_nodup _ _ Hc) as [_ Hnd]. apply nt_contents_some.
    unfold ids. rewrite (add_child_nodes (H := nat_tree) r p (nt_fresh t, b) Hnd Hp). csimpl.
    constructor; [by apply nt_fresh_new|done].
  - done.
  - intros t r id b Hc Hn. apply nodes_subtree in Hn as (s & Hs & E).
    pose proof (nt_find_spec t r s Hc Hs) as Hf. rewrite E in Hf. simpl in Hf. rewrite Hf. simpl. by rewrite E.
  - intros t r id b Hc Hid. rewrite Hc. eexists. split; [done|]. split; [done|].
    apply nt_contents_some. apply nt_contents_nodup in Hc as [_ Hnd]. unfold relabel.
    unfold ids in *. rewrite nodes_rose_map, <- list_fmap_compose.
    erewrite list_fmap_ext; [exact Hnd|]. intros _ [i b'] _. unfold is_id. simpl.
    by case_bool_decide; subst.
  - intros t r s Hc Hs. by rewrite (nt_find_spec t r s Hc Hs).
  - intros t r s Hc Hs. by rewrite (nt_find_spec t r s Hc Hs).
  - intros t r s Hc Hs. rewrite (nt_find_spec t r s Hc Hs). eauto.
  - intros t r id l Hc Hl. by rewrite Hc, Hl.
  - done.
  - intros t r id Hc Hid. rewrite Hc. eexists. split; [done|]. split; [done|].
    apply (nt_removed _ _ []). apply nt_contents_some, (nt_contents_nodup t r Hc).
  - intros t r s Hc Hs. rewrite Hc, (nt_find_spec t r s Hc Hs). eexists. split; [done|].
    split; [done|]. apply (nt_removed _ _ []). apply nt_contents_some, (nt_contents_nodup t r Hc).
  - intros t s Hc Hs Hnd. rewrite Hs. cbn [list_find]. rewrite decide_True by done. cbn.
    eexists. split; [done|]. split; [|by apply nt_contents_some].
    rewrite decide_False by tauto. done.
Defined.
End NatTree.

(** * Examples *)

Definition digest_example : Blake2b := {| hex_digest l := l |}.
Definition node_example (hash parent : string) (height : Z) : Block :=
  mkBlock (mkSh parent) (mkSh hash) height (height + 1) (mkSh MAINNET_GENESIS_HASH) 0 [].
Definition branch_example (r : rose (nat * Block)) : @Branch nat_tree :=
  @mkBranch nat_tree (label r).1 (Some r, []).

Definition single_example : rose (nat * Block) :=
  Rose (1%nat, node_example (sh_str sh_default) "3Ngenesis" 0) [].
Definition child_example : rose (nat * Block) :=
  Rose (1%nat, node_example "3Na" (sh_str sh_default) 0) [].
Definition fork_example : rose (nat * Block) :=
  Rose (1%nat, node_example (sh_str sh_default) "3Ngenesis" 0)
    [Rose (2%nat, node_example "3Na" (sh_str sh_default) 1) [];
     Rose (3%nat, node_example "3Nb" (sh_str sh_default) 1) []].

Ltac example_ok := split; [vm_compute; reflexivity|reflexivity|reflexivity|
  repeat (constructor; try reflexivity)|vm_compute; discriminate].

Lemma single_ok : @branch_ok nat_tree _ (branch_example single_example) single_example.
Proof. example_ok. Qed.
Lemma child_ok : @branch_ok nat_tree _ (branch_example child_example) child_example.
Proof. example_ok. Qed.
Lemma fork_ok : @branch_ok nat_tree _ (branch_example fork_example) fork_example.
Proof. example_ok. Qed.

Lemma simple_extension_correct_witness :
  exists id b br, @simple_extension nat_tree digest_example (branch_example single_example) block_example
    = Ok (Some (id, b), br).
Proof.
  destruct (@simple_extension_correct nat_tree _ digest_example (branch_example single_example)
    single_example block_example single_ok) as [[_ H]|(p & id & br & r & _ & _ & E & _)].
  - vm_compute. reflexivity.
  - exfalso. apply H. vm_compute. left.
  - eexists _, _, _. exact E.
Defined.

Lemma merge_on_correct_witness :
  exists id br, @merge_on nat_tree (branch_example single_example) 1%nat (branch_example child_example)
    = Ok (Some id, br).
Proof.
  destruct (@merge_on_correct nat_tree _ (branch_example single_example) single_example 1%nat
    (node_example (sh_str sh_default) "3Ngenesis" 0) (branch_example child_example) child_example)
    as (id & br & r & tip & E & _).
  - exact single_ok.
  - exact child_ok.
  - vm_compute. left.
  - reflexivity.
  - vm_compute. discriminate.
  - exists id, br. exact E.
Defined.

Lemma longest_chain_correct_witness :
  exists h l, @longest_chain nat_tree (branch_example fork_example) = Ok (h :: l) /\ length l = 1%nat.
Proof.
  destruct (@longest_chain_correct nat_tree _ (branch_example fork_example) fork_example fork_ok)
    as (tip & l & _ & E & _ & _ & Hlen).
  eexists _, _. split; [exact E|]. rewrite length_map. change (rose_height fork_example) with 2%nat in Hlen.
  lia.
Defined.

Lemma best_tip_is_worst_leaf_witness :
  exists tip, @best_tip_with_id nat_tree (branch_example fork_example) = Ok (Some tip) /\
    blk_height tip.2 + 1 = 2.
Proof.
  destruct (@best_tip_is_worst_leaf nat_tree _ (branch_example fork_example) fork_example fork_ok)
    as (tip & E & _ & Hh & _).
  - vm_compute. intros b b' Hb Hb'. set_solver.
  - exists tip. split; [exact E|exact Hh].
Defined.
