(* ===== verification/Pruning.v ===== *)
(** Pruning of the root branch (src/rust/src/state/branch.rs, [prune_transition_frontier]): paths in a tree,
    what dropping, orphaning and moving nodes does to it, and the subtree that is kept. *)

From S2P Require Import Prelude Bytes Base Command AccountDiff Account Coinbase Precomputed BlockOrder Rose Branch.

(** * Ancestors and subtrees *)

Section Paths.
Context {Id : Type} `{EqDecision Id}.
Implicit Types (r s c : rose (Id * Block)) (id : Id).

(** The ancestors of a node: each is the parent of the subtree that holds the ones before it. *)
Lemma ancestors_path id r l i a :
  ancestors (is_id id) r = Some l -> l !! i = Some a ->
  exists s c, s ∈ subtrees r /\ label s = a /\ c ∈ children s /\
    ancestors (is_id id) c = Some (take i l).
Proof.
  revert l i. induction r as [a0 cs IH] using rose_children_ind. intros l i. cbn [ancestors].
  destruct (is_id id a0); [by intros [= <-]|].
  pose proof (first_some (ancestors (is_id id)) cs) as Hf. destruct (foldr _ _ _) as [l'|]; [|done].
  destruct Hf as (c0 & Hc0 & El). intros [= <-] Hi.
  destruct (decide (i < length l')%nat) as [Hlt|Hge].
  - rewrite lookup_app_l in Hi by done. rewrite Forall_forall in IH.
    destruct (IH c0 Hc0 l' i El Hi) as (s & c & Hs & Ha & Hc & Et). exists s, c.
    rewrite subtrees_Rose. split; [right; apply list_elem_of_bind; eauto|].
    rewrite take_app_le by lia. done.
  - rewrite lookup_app_r in Hi by lia.
    assert (i = length l') as -> by (apply lookup_lt_Some in Hi; simpl in Hi; lia).
    rewrite Nat.sub_diag in Hi. injection Hi as <-. exists (Rose a0 cs), c0.
    split; [apply subtrees_root|]. by rewrite take_app_length.
Qed.

Lemma ancestors_last id r l : ancestors (is_id id) r = Some l -> l <> [] -> last l = Some (label r).
Proof.
  destruct r as [a cs]. cbn [ancestors]. destruct (is_id id a); [by intros [= <-]|].
  destruct (foldr _ _ _); [|done]. intros [= <-] _. by rewrite last_snoc.
Qed.

Lemma ancestors_self id r : ancestors (is_id id) r = Some [] -> (label r).1 = id.
Proof.
  destruct r as [a cs]. cbn [ancestors label]. unfold is_id at 1. case_bool_decide as E; [done|].
  destruct (foldr _ _ _) as [l|]; [|done]. intros [= E']. by destruct l.
Qed.

Lemma ancestors_rose_map id (f : Block -> Block) r :
  ancestors (is_id id) (rose_map (fun n => (n.1, f n.2)) r) =
  fmap (M := list) (fun n : Id * Block => (n.1, f n.2)) <$> ancestors (is_id id) r.
Proof.
  induction r as [[i b] cs IH] using rose_children_ind. cbn [rose_map ancestors].
  unfold is_id at 1 3. cbn [fst]. case_bool_decide; [done|].
  assert (map (ancestors (is_id id)) (map (rose_map (fun n => (n.1, f n.2))) cs) =
    map (fun c => fmap (M := list) (fun n : Id * Block => (n.1, f n.2)) <$> ancestors (is_id id) c) cs) as ->.
  { rewrite map_map. apply map_ext_in. intros c Hc%list_elem_of_In. rewrite Forall_forall in IH. auto. }
  clear IH. induction cs as [|c cs IH]; [done|]. cbn [map foldr].
  destruct (ancestors (is_id id) c) as [l|]; cbn; [by rewrite fmap_app|]. apply IH.
Qed.

Lemma self_id r : (label r).1 ∈ ids r.
Proof. destruct r. unfold ids. rewrite nodes_Rose. left. Qed.

Lemma child_ids r c id : c ∈ children r -> id ∈ ids c -> id ∈ (children r ≫= nodes).*1.
Proof.
  intros Hc (n & -> & Hn)%list_elem_of_fmap. apply list_elem_of_fmap_2, list_elem_of_bind. eauto.
Qed.

Lemma nodup_child r c : NoDup (ids r) -> c ∈ children r -> NoDup (ids c) /\ (label r).1 ∉ ids c.
Proof.
  destruct r as [[i b] cs]. unfold ids. rewrite nodes_Rose. csimpl. intros [Hi Hnd]%NoDup_cons Hc. split.
  - clear Hi. induction cs as [|c' cs IH]; [by apply elem_of_nil in Hc|].
    rewrite bind_cons, fmap_app in Hnd. apply NoDup_app in Hnd as (H1 & _ & H2).
    apply elem_of_cons in Hc as [->|Hc]; auto.
  - intros Hin. apply Hi. by apply (child_ids (Rose (i, b) cs) c).
Qed.

Lemma nodup_subtree r s : NoDup (ids r) -> s ∈ subtrees r -> NoDup (ids s).
Proof.
  induction r as [a cs IH] using rose_children_ind. rewrite subtrees_Rose. intros Hnd [->|Hs]%elem_of_cons; [done|].
  apply list_elem_of_bind in Hs as (c & Hs & Hc). rewrite Forall_forall in IH. apply (IH c Hc); [|done].
  by apply (nodup_child (Rose a cs) c).
Qed.

(** The children of a node have disjoint ids. *)
Lemma children_disjoint r c c' id :
  NoDup (ids r) -> c ∈ children r -> c' ∈ children r -> id ∈ ids c -> id ∈ ids c' -> c = c'.
Proof.
  destruct r as [[i b] cs]. unfold ids. rewrite nodes_Rose. csimpl. intros [_ Hnd]%NoDup_cons.
  induction cs as [|x cs IH]; [by intros ?%elem_of_nil|]. rewrite bind_cons, fmap_app in Hnd.
  apply NoDup_app in Hnd as (_ & Hd & Hnd).
  pose proof (fun y => child_ids (Rose (i, b) cs) y id) as Hin. cbn [children] in Hin.
  intros [->|Hc]%elem_of_cons [->|Hc']%elem_of_cons H1 H2; [done| | |auto].
  - destruct (Hd id H1). eauto.
  - destruct (Hd id H2). eauto.
Qed.

Lemma nodup_children r : NoDup (ids r) -> NoDup (children r).
Proof.
  destruct r as [[i b] cs]. unfold ids. rewrite nodes_Rose. csimpl. intros [_ Hnd]%NoDup_cons.
  induction cs as [|y cs IH]; [constructor|]. rewrite bind_cons, fmap_app in Hnd.
  apply NoDup_app in Hnd as (_ & Hd & Hnd). constructor; [|auto].
  intros Hy. apply (Hd (label y).1 (self_id y)). apply (child_ids (Rose (i, b) cs) y); [done|apply self_id].
Qed.

(** ** Pruning *)

Lemma prune_none id r : (forall c, c ∈ children r -> id ∉ ids c) -> prune (is_id id) r = r.
Proof.
  induction r as [a cs IH] using rose_children_ind. cbn [children prune]. intros Hid. f_equal.
  induction cs as [|c cs IHcs]; [done|]. apply Forall_cons in IH as [Hc IH]. cbn [map concat].
  rewrite IHcs; [|done|intros y Hy; apply Hid; by right].
  assert (id ∉ ids c) as Hnc by (apply Hid; left).
  unfold is_id at 1. rewrite bool_decide_false; [|intros E; apply Hnc; rewrite <- E; apply self_id].
  cbn [app]. f_equal. apply Hc. intros y Hy Hin. apply Hnc. apply (child_ids _ _ _ Hy) in Hin.
  destruct c as [a' cs']. unfold ids. rewrite nodes_Rose. by right.
Qed.

Lemma label_prune (here : Id * Block -> bool) r : label (prune here r) = label r.
Proof. by destruct r. Qed.

(** Pruning a child of a node takes it from the children of the node, wherever the node is. *)
Lemma prune_child r a (kept : list (rose (Id * Block))) c after :
  NoDup (ids r) -> Rose a (kept ++ c :: after) ∈ subtrees r ->
  Rose a (kept ++ after) ∈ subtrees (prune (is_id (label c).1) r).
Proof.
  induction r as [a0 cs IH] using rose_children_ind. intros Hnd Hs. rewrite subtrees_Rose in Hs.
  cbn [prune]. rewrite subtrees_Rose. apply elem_of_cons in Hs as [E|Hs].
  - injection E as <- <-. assert (concat (map (fun c0 => if is_id (label c).1 (label c0) then [] else [prune (is_id (label c).1) c0])
      (kept ++ c :: after)) = kept ++ after) as ->; [|left].
    set (f := fun c0 => if is_id (label c).1 (label c0) then [] else [prune (is_id (label c).1) c0]).
    assert (forall l, (forall y, y ∈ l -> y ∈ kept ++ c :: after /\ y <> c) -> concat (map f l) = l) as Hf.
    { induction l as [|y l IHl]; intros Hl; [done|]. cbn [map concat].
      rewrite IHl by (intros z Hz; apply Hl; by right).
      destruct (Hl y) as [Hy Hne]; [left|].
      assert ((label c).1 ∉ ids y) as Hny.
      { intros Hin. apply Hne. apply (children_disjoint (Rose a (kept ++ c :: after)) y c (label c).1);
          [done|done|set_solver|done|apply self_id]. }
      unfold f at 1, is_id at 1. rewrite bool_decide_false by (intros E; apply Hny; rewrite <- E; apply self_id).
      cbn [app]. f_equal. apply prune_none. intros z Hz Hin. apply Hny.
      apply (child_ids _ _ _ Hz) in Hin. destruct y as [ay cy]. unfold ids. rewrite nodes_Rose. by right. }
    pose proof (nodup_children _ Hnd : NoDup (kept ++ c :: after)) as Hndc.
    apply NoDup_app in Hndc as (_ & Hd & Hndc). apply NoDup_cons in Hndc as [Hca _].
    rewrite map_app, concat_app. cbn [map concat]. unfold f at 2, is_id at 1. rewrite bool_decide_true by done.
    rewrite app_nil_l, Hf, Hf; [done| |].
    + intros y Hy. split; [set_solver|]. intros ->. done.
    + intros y Hy. split; [set_solver|]. intros ->. apply (Hd c Hy). left.
  - apply list_elem_of_bind in Hs as (d & Hs & Hd). right. apply list_elem_of_bind.
    exists (prune (is_id (label c).1) d).
    destruct (nodup_child (Rose a0 cs) d Hnd Hd) as [Hndd _].
    split; [rewrite Forall_forall in IH; by apply IH|].
    apply list_elem_of_In, in_concat. exists [prune (is_id (label c).1) d]. split; [|by left].
    apply in_map_iff. exists d. split; [|by apply list_elem_of_In].
    unfold is_id at 1. rewrite bool_decide_false; [done|]. intros E.
    assert (c ∈ children (Rose a (kept ++ c :: after))) as Hcc by (cbn; set_solver).
    destruct d as [[id bd] cd]. rewrite subtrees_Rose in Hs. cbn [label fst] in E. subst id.
    unfold ids in Hndd. rewrite nodes_Rose in Hndd. csimpl in Hndd. apply NoDup_cons in Hndd as [Hi _]. apply Hi.
    assert (label c ∈ cd ≫= nodes) as Hcn; [|by apply list_elem_of_fmap_2].
    apply elem_of_cons in Hs as [E|Hs].
    + injection E as _ E. subst cd. apply list_elem_of_bind. exists c. split; [|set_solver].
      destruct c. rewrite nodes_Rose. left.
    + apply list_elem_of_bind in Hs as (y & Hs & Hy). apply list_elem_of_bind. exists y. split; [|done].
      apply nodes_subtree. exists c. split; [|done]. eapply subtrees_trans; [exact Hs|by apply child_subtree].
Qed.
End Paths.

(** * Pruning the root branch *)

Section Prune.
Context `{IdTreeSpec}.
Implicit Types (r s c : rose (NodeId * Block)) (br : Branch) (t : Tree).

Lemma below_root r s c : NoDup (ids r) -> s ∈ subtrees r -> c ∈ children s -> (label c).1 <> (label r).1.
Proof.
  intros Hnd Hs Hc E. destruct r as [[i b] cs]. rewrite subtrees_Rose in Hs.
  assert (c ∈ cs ≫= subtrees) as Hin.
  { apply elem_of_cons in Hs as [->|Hs]; [|apply list_elem_of_bind in Hs as (y & Hs & Hy)];
      apply list_elem_of_bind; [exists c; split; [apply subtrees_root|done]|].
    exists y. split; [|done]. by eapply subtrees_trans, child_subtree. }
  apply list_elem_of_bind in Hin as (y & Hin & Hy).
  destruct (nodup_child (Rose (i, b) cs) y Hnd Hy) as [_ Hni]. apply Hni. cbn [label fst] in E |- *.
  rewrite <- E. by apply subtree_id.
Qed.

(** The siblings of the new root are dropped one by one. *)
Lemma drop_siblings_spec new_id t r a kept todo :
  contents t = Some r -> orphans t = [] -> Rose a (kept ++ todo) ∈ subtrees r ->
  exists t' r', foldM (fun t id => if bool_decide (id <> new_id) then expect (remove_drop_children id t)
                                   else Ok t) t ((fun c => (label c).1) <$> todo) = Ok t' /\
    contents t' = Some r' /\ orphans t' = [] /\ label r' = label r /\
    Rose a (kept ++ filter (fun c => (label c).1 = new_id) todo) ∈ subtrees r'.
Proof.
  revert t r kept. induction todo as [|c todo IH]; intros t r kept Hc Ho Hs; [by exists t, r|].
  rewrite fmap_cons. cbn [foldM]. rewrite filter_cons.
  destruct (decide ((label c).1 = new_id)) as [E|Hne].
  - rewrite bool_decide_false by (by intros []). cbn [mbind res_bind].
    change (c :: todo) with ([c] ++ todo) in Hs. rewrite app_assoc in Hs.
    destruct (IH t r (kept ++ [c]) Hc Ho Hs) as (t' & r' & -> & ? & ? & ? & Hs').
    exists t', r'. by rewrite <- app_assoc in Hs'.
  - rewrite bool_decide_true by done.
    assert (c ∈ children (Rose a (kept ++ c :: todo))) as Hcc by (cbn; set_solver).
    destruct (remove_drop_spec t r (label c).1 Hc) as (t1 & -> & Ho1 & Hc1).
    { apply subtree_id. eapply subtrees_trans; [exact Hs|by apply child_subtree]. }
    unfold is_id at 1 in Hc1. rewrite bool_decide_false in Hc1
      by (apply not_eq_sym, (below_root r _ _ (contents_nodup _ _ Hc) Hs Hcc)).
    cbn [expect mbind res_bind].
    destruct (IH t1 _ kept Hc1) as (t' & r' & -> & Hc' & Ho' & Hl & Hs').
    { by rewrite Ho1. }
    { apply prune_child; [by eapply contents_nodup|done]. }
    exists t', r'. split_and!; [done|done|done|by rewrite Hl, label_prune|done].
Qed.

Definition lower (h : Z) (b : Block) : Block := with_height (blk_height b - h) b.

Lemma good_lower d h r :
  good d r -> good (d - h) (rose_map (fun n => (n.1, lower h n.2)) r).
Proof.
  revert d. induction r as [[i b] cs IH] using rose_children_ind. intros d Hg.
  inversion Hg as [d' i' b' cs' Hd Hl Hc]; subst. cbn [rose_map fst snd]. constructor.
  - done.
  - apply Forall_fmap. eapply Forall_impl; [exact Hl|]. by intros [[] ?].
  - apply Forall_fmap. rewrite Forall_forall in *. intros c Hin.
    replace (blk_height b - h + 1) with (blk_height b + 1 - h) by lia. by apply IH, Hc.
Qed.

Lemma leaf_node_id_spec br r id b :
  branch_ok br r -> (id, b) ∈ nodes r ->
  (forall n, n ∈ nodes r -> blk_state_hash n.2 = blk_state_hash b -> n = (id, b)) ->
  leaf_node_id br b = Ok (Some id).
Proof.
  intros Hok Hn Huniq. pose proof (bo_contents _ _ Hok) as Hc. unfold leaf_node_id.
  rewrite (level_order_ids_eq _ _ Hc). cbn [mbind res_bind].
  assert (mapM (fun id => node ← expect (node_data (branches br) id); Ok (id, node))
    ((fun c => (label c).1) <$> level_order r) = Ok (label <$> level_order r)) as ->.
  { apply mapM_res_Ok, Forall2_fmap_l, Forall2_fmap_r, Forall_Forall2_diag, Forall_forall.
    intros s. rewrite level_order_perm. intros Hs. simpl. rewrite (node_data_eq _ _ _ Hc Hs).
    simpl. by destruct (label s). }
  cbn [mbind res_bind]. f_equal.
  assert ((id, b) ∈ label <$> level_order r) as Hin by (rewrite level_order_perm; done).
  destruct (list_find_elem_of (fun n => blk_state_hash b = blk_state_hash n.2) _ _ Hin) as [[i n] E]; [done|].
  rewrite E. apply list_find_Some in E as (Hi & Eh & _). apply list_elem_of_lookup_2 in Hi.
  rewrite level_order_perm in Hi. by rewrite (Huniq n Hi (eq_sym Eh)).
Qed.

Lemma only_sibling p s :
  NoDup (ids p) -> s ∈ children p -> filter (fun c => (label c).1 = (label s).1) (children p) = [s].
Proof.
  intros Hndp Hsp. pose proof (nodup_children _ Hndp) as Hndc.
  apply list_elem_of_split in Hsp as (l1 & l2 & E). rewrite E in *. rewrite filter_app, filter_cons, decide_True by done.
  apply NoDup_app in Hndc as (_ & Hd & Hndc). apply NoDup_cons in Hndc as [Hs2 _].
  assert (forall y, y ∈ children p -> (label y).1 = (label s).1 -> y = s) as Hu.
  { intros y Hy Ey. apply (children_disjoint p y s (label s).1 Hndp); [done|rewrite E; set_solver| |apply self_id].
    rewrite <- Ey. apply self_id. }
  rewrite !filter_none; [done| |].
  - apply Forall_forall. intros y Hy Ey. rewrite (Hu y) in Hy; [done|rewrite E; set_solver|done].
  - apply Forall_forall. intros y Hy Ey. apply (Hd y Hy). rewrite (Hu y); [left|rewrite E; set_solver|done].
Qed.

(** Only the last of the ancestors is the root. *)
Lemma ancestor_not_root id r l i a :
  NoDup (ids r) -> ancestors (is_id id) r = Some l -> l !! i = Some a -> (S i < length l)%nat ->
  is_id a.1 (label r) = false.
Proof.
  intros Hnd El Ha Hi. unfold is_id. apply bool_decide_false. intros E.
  destruct (lookup_lt_is_Some_2 l (S i)) as [a' Ha']; [lia|].
  destruct (ancestors_path id r l _ a' El Ha') as (q & p & Hq & _ & Hp & Ep).
  assert (label p = a) as Elp.
  { apply ancestors_last in Ep; [|destruct l; done]. rewrite last_lookup, length_take, lookup_take_lt in Ep by lia.
    replace (Init.Nat.pred (S i `min` length l)) with i in Ep by lia. congruence. }
  apply (below_root r q p Hnd Hq Hp). by rewrite Elp.
Qed.

(** The heights of a tree that became the whole tree count from its root. *)
Lemma lower_heights_spec t s :
  let h := blk_height (label s).2 in
  contents t = Some s -> orphans t = [] -> good h s -> 0 <= h -> h + Z.of_nat (rose_height s) <= U32_MAX ->
  exists t', foldM (fun t id => node ← expect (node_data t id);
      expect (replace_data id (with_height (wrap32 (blk_height node - h)) node) t)) t
      ((fun c => (label c).1) <$> level_order s) = Ok t' /\
    branch_ok (mkBranch (label s).1 t') (rose_map (fun n => (n.1, lower h n.2)) s).
Proof.
  intros h Hc Ho Hg Hlo Hhi. pose proof (rose_height_pos s).
  destruct (update_all_spec (fun _ => true) (fun b => with_height (wrap32 (blk_height b - h)) b)
    ((fun c => (label c).1) <$> level_order s) t s Hc) as (t' & E & Ho' & Hc').
  { by eapply level_ids_nodup. }
  { intros x Hx. by apply level_ids_elem. }
  unfold update_step in E. exists t'. split; [exact E|].
  assert (rose_map (fun n => if bool_decide (n.1 ∈ (fun c => (label c).1) <$> level_order s) && true
      then (n.1, with_height (wrap32 (blk_height n.2 - h)) n.2) else n) s =
    rose_map (fun n => (n.1, lower h n.2)) s) as Em.
  { apply rose_map_ext. intros [i x] Hx. cbn [fst snd].
    rewrite bool_decide_true by (apply level_ids_elem; unfold ids; by apply (list_elem_of_fmap_2 fst _ _ Hx)).
    destruct (good_node _ _ _ _ Hg Hx). unfold lower. rewrite wrap32_id by ints. done. }
  rewrite Em in Hc'. split; cbn [branches root].
  - done.
  - by rewrite Ho'.
  - by rewrite label_rose_map.
  - pose proof (good_lower h h s Hg) as Hgl. by rewrite Z.sub_diag in Hgl.
  - rewrite rose_map_height. lia.
Qed.

(** The subtree of the [k]-th ancestor, with its heights lowered. *)
Lemma prune_spec br r id b l (k : Z) :
  branch_ok br r -> (id, b) ∈ nodes r ->
  (forall n, n ∈ nodes r -> blk_state_hash n.2 = blk_state_hash b -> n = (id, b)) ->
  ancestors (is_id id) r = Some l -> 1 <= k -> k + 1 < Z.of_nat (length l) -> k + 1 <= U32_MAX ->
  exists s br', prune_transition_frontier br k b = Ok br' /\
    s ∈ subtrees r /\ l !! Z.to_nat (k - 1) = Some (label s) /\
    ancestors (is_id id) s = Some (take (Z.to_nat k) l) /\
    branch_ok br' (rose_map (fun n => (n.1, lower (blk_height (label s).2) n.2)) s).
Proof.
  intros Hok Hn Huniq El Hk Hlen Hmax. pose proof (bo_contents _ _ Hok) as Hc.
  pose proof (contents_nodup _ _ Hc) as Hnd.
  destruct (lookup_lt_is_Some_2 l (Z.to_nat k)) as [a Ha]; [lia|].
  destruct (ancestors_path id r l _ a El Ha) as (p & s & Hp & Hlp & Hsp & Es).
  assert (l !! Z.to_nat (k - 1) = Some (label s)) as Hls.
  { rewrite <- (ancestors_last id s _ Es); [|destruct l; [done|destruct (Z.to_nat k) eqn:?; [lia|done]]].
    rewrite last_lookup, length_take. rewrite lookup_take_lt by lia. f_equal. lia. }
  assert (s ∈ subtrees r) as Hs by (by eapply subtrees_trans, child_subtree).
  exists s.
  unfold prune_transition_frontier. rewrite (leaf_node_id_spec br r id b Hok Hn Huniq).
  cbn [mbind res_bind expect_some]. rewrite (ancestor_ids_spec _ _ _ _ Hc El). cbn [expect mbind res_bind].
  unfold nth_ancestor. rewrite (wrap32_id (k + 1)) by ints.
  rewrite (proj2 (Z.eqb_neq k 0)), (proj2 (Z.eqb_neq (k + 1) 0)) by lia.
  replace (k + 1 - 1) with k by lia. rewrite !list_lookup_fmap, Hls, Ha. cbn [fmap option_fmap option_map expect_some mbind res_bind].
  rewrite <- Hlp, (children_ids_spec _ _ _ Hc Hp). cbn [expect mbind res_bind].
  destruct (drop_siblings_spec (label s).1 (branches br) r (label p) [] (children p) Hc (bo_orphans _ _ Hok))
    as (t1 & r1 & -> & Hc1 & Ho1 & Hl1 & Hs1); [by destruct p|]. cbn [mbind res_bind app] in *.
  rewrite (only_sibling p s (nodup_subtree _ _ Hnd Hp) Hsp) in Hs1.
  assert (is_id (label p).1 (label r) = false) as Hnr.
  { rewrite Hlp. apply (ancestor_not_root id r l (Z.to_nat k)); [done|done|done|lia]. }
  destruct (remove_orphan_spec t1 r1 (Rose (label p) [s]) Hc1 Hs1) as (t2 & E2 & Ho2 & Hc2).
  cbn [label children] in E2, Ho2, Hc2. rewrite E2. cbn [expect mbind res_bind].
  rewrite Hl1, Hnr in Hc2. rewrite Ho1 in Ho2. cbn [app] in Ho2.
  rewrite root_node_id_spec, Hc2. cbn [fmap option_fmap option_map expect_some mbind res_bind].
  destruct (remove_drop_spec t2 _ (label (prune (is_id (label p).1) r1)).1 Hc2 (self_id _)) as (t3 & -> & Ho3 & Hc3).
  unfold is_id at 1 in Hc3. rewrite bool_decide_true in Hc3 by done. rewrite Ho2 in Ho3. cbn [expect mbind res_bind].
  destruct (move_to_root_spec t3 s Hc3 Ho3 (nodup_subtree _ _ Hnd Hs)) as (t4 & -> & Ho4 & Hc4).
  cbn [expect mbind res_bind]. rewrite (node_data_eq _ _ _ Hc4 (subtrees_root s)). cbn [expect mbind res_bind].
  destruct (good_subtree _ _ _ (bo_good _ _ Hok) Hs) as (Hg & Hlo & Hhi).
  destruct (lower_heights_spec t4 s Hc4 Ho4 Hg Hlo) as (t5 & E5 & Hok5).
  { pose proof (bo_height _ _ Hok). lia. }
  rewrite (level_order_spec _ _ _ Hc4 (subtrees_root s)). cbn [expect mbind res_bind].
  rewrite E5. cbn [mbind res_bind]. by eexists.
Qed.
(** C34: Pruning the root branch to the [k] ancestors of the best tip keeps exactly the subtree of its
    [k]-th ancestor, the blocks as they were with their heights counted from the new root; it succeeds
    whenever the block above that ancestor is not the root. *)
Theorem prune_keeps_subtree br r id x l (k : Z) :
  branch_ok br r -> (id, x) ∈ nodes r ->
  (forall n, n ∈ nodes r -> blk_state_hash n.2 = blk_state_hash x -> n = (id, x)) ->
  ancestors (is_id id) r = Some l -> 1 <= k -> k + 1 < Z.of_nat (length l) -> k + 1 <= U32_MAX ->
  exists s br', prune_transition_frontier br k x = Ok br' /\
    s ∈ subtrees r /\ l !! Z.to_nat (k - 1) = Some (label s) /\
    branch_ok br' (rose_map (fun n => (n.1, lower (blk_height (label s).2) n.2)) s).
Proof.
  intros Hok Hn Hu El Hk Hlen Hmax.
  destruct (prune_spec br r id x l k Hok Hn Hu El Hk Hlen Hmax) as (s & br' & ? & ? & ? & _ & ?). by exists s, br'.
Qed.
End Prune.

(** * Example *)

Section Example.
#[local] Existing Instances nat_tree nat_tree_spec.

Definition chain_example : rose (nat * Block) :=
  Rose (1%nat, node_example "3Ng" "3Nz" 0)
    [Rose (2%nat, node_example "3Np" "3Ng" 1)
      [Rose (3%nat, node_example "3Na" "3Np" 2) [Rose (4%nat, node_example "3Nb" "3Na" 3) []];
       Rose (5%nat, node_example "3Nx" "3Np" 2) []]].

Lemma prune_keeps_subtree_witness :
  exists br, prune_transition_frontier (branch_example chain_example) 1 (node_example "3Nb" "3Na" 3) = Ok br.
Proof.
  destruct (prune_keeps_subtree (branch_example chain_example) chain_example 4%nat (node_example "3Nb" "3Na" 3)
    [(3%nat, node_example "3Na" "3Np" 2); (2%nat, node_example "3Np" "3Ng" 1);
     (1%nat, node_example "3Ng" "3Nz" 0)] 1) as (s & br & E & _).
  - example_ok.
  - vm_compute. right; right; right; left.
  - intros n Hn E. vm_compute in Hn. repeat (apply elem_of_cons in Hn as [->|Hn]; [try reflexivity; vm_compute in E; discriminate|]).
    by apply elem_of_nil in Hn.
  - vm_compute. reflexivity.
  - lia.
  - vm_compute. reflexivity.
  - vm_compute. discriminate.
  - exists br. exact E.
Defined.
End Example.
