(* ===== verification/WitnessTree.v ===== *)
(** The witness tree (src/rust/src/state/mod.rs): the tree of blocks connected to a known
    ledger, the branches dangling from unknown blocks, the best tip and the canonical root,
    and the handler that adds a block to it.  The ledger database is an interface. *)

From S2P Require Import Prelude Bytes Base Command AccountDiff Account Coinbase Precomputed LedgerDiff Ledger BlockOrder Rose Branch.

(** * Constants *)

Definition PRUNE_INTERVAL_DEFAULT : Z := 10.
Definition CANONICAL_UPDATE_THRESHOLD : Z := PRUNE_INTERVAL_DEFAULT / 5.
Definition LEDGER_CADENCE : Z := 100.
Definition MAINNET_TRANSITION_FRONTIER_K : Z := 290.

(** * State *)

(** What the state asks of the database of staged ledgers. *)
Class LedgerDb := {
  LedgerStore : Type;
  add_staged_ledger_at_state_hash : StateHash -> Ledger -> Z -> LedgerStore -> res LedgerStore;
  get_block_ledger_diff : LedgerStore -> StateHash -> res (option LedgerDiff)
}.

(** What the database promises: in a state that is in order it takes the ledger of every block it knows, stays in
    order and forgets no block; the accounts that blocks change in a ledger it can store are such that it can store the result. *)
Class LedgerDbSpec `{LedgerDb} := {
  db_ok : LedgerStore -> Prop;
  db_knows : LedgerStore -> StateHash -> Prop;
  ledger_storable : Ledger -> Prop;
  diff_storable : AccountDiff -> Prop;
  storable_apply ds l l' :
    ledger_wf l -> ledger_storable l -> Forall diff_ok ds -> Forall diff_storable ds ->
    foldM ledger_apply_account_diff l ds = Ok l' -> ledger_storable l';
  staged_ledger_added h l n db :
    db_ok db -> db_knows db h -> ledger_storable l -> u32 n ->
    exists db', add_staged_ledger_at_state_hash h l n db = Ok db' /\ db_ok db' /\ forall g, db_knows db g -> db_knows db' g
}.

Global Instance Block_eq_dec : EqDecision Block.
Proof. solve_decision. Defined.

Inductive ExtensionDirection := Forward | Reverse.

Inductive ExtensionType :=
| DanglingNew
| DanglingSimpleForward
| DanglingSimpleReverse
| DanglingComplex
| RootSimple (b : Block)
| RootComplex (b : Block)
| BlockNotAdded.

Inductive WitnessTreeEvent :=
| UpdateBestTip (best_tip : Block) (canonical_blocks : list Block).

(** [Vec::remove] *)
Definition vec_remove {A} (i : nat) (l : list A) : res (A * list A) :=
  x ← expect_some (l !! i); Ok (x, take i l ++ drop (S i) l).

(** [Iterator::min_by]: the first of the least elements. *)
Definition min_by {A} (cmp : A -> A -> res comparison) (l : list A) : res (option A) :=
  match l with
  | [] => Ok None
  | a :: l => r ← foldM (fun x y => c ← cmp x y; Ok (match c with Gt => y | _ => x end)) a l;
              Ok (Some r)
  end.

Section WitnessTree.
Context `{IdTree} `{Blake2b} `{LedgerDb} `{Decimal} `{HashMapIter}.

Record Tip := mkTip { tip_state_hash : StateHash; tip_node_id : NodeId }.

(** The fields the handlers of the witness tree read or write. *)
Record IndexerState := mkState {
  st_best_tip : Tip;
  st_canonical_root : Tip;
  st_ledger : Ledger;
  st_ledger_cadence : Z;
  st_diffs_map : gmap StateHash LedgerDiff;
  st_root_branch : Branch;
  st_dangling_branches : list Branch;
  st_indexer_store : option LedgerStore;
  st_transition_frontier_length : Z;
  st_prune_interval : Z;
  st_canonical_update_threshold : Z;
  st_blocks_processed : Z
}.
Implicit Types (st : IndexerState) (b : PrecomputedBlock).

(** ** Assignments to fields *)

Definition set_best_tip (t : Tip) st : IndexerState :=
  mkState t (st_canonical_root st) (st_ledger st) (st_ledger_cadence st) (st_diffs_map st)
    (st_root_branch st) (st_dangling_branches st) (st_indexer_store st)
    (st_transition_frontier_length st) (st_prune_interval st) (st_canonical_update_threshold st)
    (st_blocks_processed st).
Definition set_canonical_root (t : Tip) st : IndexerState :=
  mkState (st_best_tip st) t (st_ledger st) (st_ledger_cadence st) (st_diffs_map st)
    (st_root_branch st) (st_dangling_branches st) (st_indexer_store st)
    (st_transition_frontier_length st) (st_prune_interval st) (st_canonical_update_threshold st)
    (st_blocks_processed st).
Definition set_branches (r : Branch) (ds : list Branch) st : IndexerState :=
  mkState (st_best_tip st) (st_canonical_root st) (st_ledger st) (st_ledger_cadence st)
    (st_diffs_map st) r ds (st_indexer_store st)
    (st_transition_frontier_length st) (st_prune_interval st) (st_canonical_update_threshold st)
    (st_blocks_processed st).
Definition set_ledgers (l : Ledger) (m : gmap StateHash LedgerDiff) (s : option LedgerStore) st
  : IndexerState :=
  mkState (st_best_tip st) (st_canonical_root st) l (st_ledger_cadence st) m
    (st_root_branch st) (st_dangling_branches st) s
    (st_transition_frontier_length st) (st_prune_interval st) (st_canonical_update_threshold st)
    (st_blocks_processed st).
Definition set_blocks_processed (n : Z) st : IndexerState :=
  mkState (st_best_tip st) (st_canonical_root st) (st_ledger st) (st_ledger_cadence st)
    (st_diffs_map st) (st_root_branch st) (st_dangling_branches st) (st_indexer_store st)
    (st_transition_frontier_length st) (st_prune_interval st) (st_canonical_update_threshold st) n.

(** ** Reading *)

(** [get_block_from_id]: only blocks of the root branch. *)
Definition get_block_from_id st (id : NodeId) : res Block :=
  expect (node_data (branches (st_root_branch st)) id).
Definition canonical_root_block st : res Block := get_block_from_id st (tip_node_id (st_canonical_root st)).
Definition best_tip_block st : res Block := get_block_from_id st (tip_node_id (st_best_tip st)).

Definition is_length_within_root_bounds st b : res bool :=
  tip ← best_tip_block st;
  Ok (blockchain_length b <=? wrap32 (blk_blockchain_length tip + 1)).

Definition is_canonical_updatable st : res bool :=
  tip ← best_tip_block st; root ← canonical_root_block st;
  Ok (st_canonical_update_threshold st <=? wrap32 (blk_height tip - blk_height root)).

(** [is_reverse_extension]: the block is the parent of the branch's root. *)
Definition is_reverse_extension (br : Branch) b : res bool :=
  root ← root_block br; Ok (bool_decide (state_hash b = blk_parent_hash root)).

Definition best_chain st : res (list Block) :=
  tip ← best_tip_block st;
  ids ← expect (ancestor_ids (branches (st_root_branch st)) (tip_node_id (st_best_tip st)));
  nodes ← mapM (get_block_from_id st) ids;
  Ok (tip :: nodes).

Fixpoint skip_while {A} (P : A -> bool) (l : list A) : list A :=
  match l with
  | [] => []
  | x :: k => if P x then skip_while P k else l
  end.

(** The diff of a block: from the map, or else from the database. *)
Definition find_diff st (h : StateHash) : res LedgerDiff :=
  match st_diffs_map st !! h with
  | Some d => Ok d
  | None =>
    match st_indexer_store st with
    | Some store => match get_block_ledger_diff store h with
                    | Ok (Some d) => Ok d
                    | Ok None | Err => Panic
                    | Panic => Panic
                    end
    | None => Panic
    end
  end.

Definition best_ledger st : res Ledger :=
  chain ← best_chain st;
  root ← canonical_root_block st;
  foldM (fun l (blk : Block) => d ← find_diff st (blk_state_hash blk); expect (ledger_apply_diff l d))
    (st_ledger st) (drop 1 (skip_while (fun blk => bool_decide (blk <> root)) (rev chain))).

Definition state_len st : res Z :=
  n ← branch_len (st_root_branch st);
  foldM (fun n d => m ← branch_len d; Ok (wrap32 (n + m))) n (st_dangling_branches st).
Definition state_is_empty st : res bool := n ← state_len st; Ok (n =? 0).

(** ** Extending the root branch *)

Definition update_best_tip st (incoming : Block) (node_id : NodeId) : res IndexerState :=
  old ← best_tip_block st;
  Ok (match block_cmp incoming old with
      | Lt => set_best_tip (mkTip (blk_state_hash incoming) node_id) st
      | _ => st
      end).

(** The dangling branches the new block is the parent of, merged below it. *)
Definition merge_dangling b (new_node_id : NodeId) (root_branch : Branch) (ds : list (nat * Branch))
  : res (Branch * list NodeId * list nat) :=
  foldM (fun '(root_branch, tips, remove) '(index, d) =>
    rev ← is_reverse_extension d b;
    if rev : bool then
      r ← merge_on root_branch new_node_id d;
      tip ← expect_some r.1;
      Ok (r.2, tips ++ [tip], remove ++ [index])
    else Ok (root_branch, tips, remove)) (root_branch, [], []) ds.

Definition remove_indices {A} (l : list A) (indices : list nat) : res (list A) :=
  foldM (fun l '(num_removed, index) => r ← vec_remove (index - num_removed)%nat l; Ok r.2)
    l (enumerate indices).

Definition root_extension st b : res (option ExtensionType * IndexerState) :=
  ext ← simple_extension (st_root_branch st) b;
  match ext with
  | (None, _) => Ok (None, st)
  | (Some (new_node_id, new_block), root_branch) =>
    m ← merge_dangling b new_node_id root_branch (enumerate (st_dangling_branches st));
    let '(root_branch, merged_tip_ids, branches_to_remove) := m in
    let st := set_branches root_branch (st_dangling_branches st) st in
    best ← min_by (fun x y => bx ← get_block_from_id st x; by_ ← get_block_from_id st y;
                              Ok (block_cmp bx by_)) merged_tip_ids;
    st ← match best with
         | Some tip_id => tip ← get_block_from_id st tip_id; update_best_tip st tip tip_id
         | None => Ok st
         end;
    st ← update_best_tip st new_block new_node_id;
    if bool_decide (branches_to_remove <> []) then
      ds ← remove_indices (st_dangling_branches st) branches_to_remove;
      let st := set_branches (st_root_branch st) ds st in
      tip ← best_tip_block st; Ok (Some (RootComplex tip), st)
    else tip ← best_tip_block st; Ok (Some (RootSimple tip), st)
  end.

(** ** Extending a dangling branch *)

(** One branch: backward below its root, or forward. *)
Definition try_extend b (d : Branch) : res (option (Branch * NodeId * ExtensionDirection)) :=
  rev ← is_reverse_extension d b;
  if rev : bool then
    d ← new_root d b;
    id ← expect_some (root_node_id (branches d));
    Ok (Some (d, id, Reverse))
  else
    ext ← simple_extension d b;
    match ext with
    | (Some (id, _), d) => Ok (Some (d, id, Forward))
    | (None, _) => Ok None
    end.

(** The first branch extended: its position, the extended branch, and where the block is. *)
Fixpoint extend_dangling b (index : nat) (ds : list Branch)
  : res (option (nat * Branch * NodeId * ExtensionDirection)) :=
  match ds with
  | [] => Ok None
  | d :: ds =>
    root ← root_block d;
    tip ← best_tip d; tip ← expect_some tip;
    let min_length := blk_blockchain_length root in
    let max_length := blk_blockchain_length tip in
    if (blockchain_length b <=? wrap32 (max_length + 1)) &&
       (min_length <=? wrap32 (blockchain_length b + 1)) then
      ext ← try_extend b d;
      match ext with
      | Some (d, id, dir) => Ok (Some (index, d, id, dir))
      | None => extend_dangling b (S index) ds
      end
    else extend_dangling b (S index) ds
  end.

Definition dangling_extension st b
  : res (option (nat * NodeId * ExtensionDirection) * IndexerState) :=
  ext ← extend_dangling b 0 (st_dangling_branches st);
  Ok (match ext with
      | Some (index, d, id, dir) =>
        (Some (index, id, dir),
         set_branches (st_root_branch st) (<[index := d]> (st_dangling_branches st)) st)
      | None => (None, st)
      end).

(** One step of the loop: the [n]-th branch to merge, at its position before any removal. *)
Definition merge_follower (extended_branch_index : nat) (new_node_id : NodeId)
    (st : Branch * list Branch) (e : nat * nat) : res (Branch * list Branch) :=
  let '(extended, ds) := st in
  let '(n, dangling_index) := e in
  let index := if (extended_branch_index <? dangling_index)%nat
               then Z.to_nat (wrap64 (Z.of_nat dangling_index - Z.of_nat n - 1))
               else dangling_index in
  branch_to_update ← expect_some (ds !! index);
  m ← merge_on extended new_node_id branch_to_update;
  r ← vec_remove index ds;
  Ok (m.2, r.2).

Definition update_dangling st b (extended_branch_index : nat) (new_node_id : NodeId)
    (direction : ExtensionDirection) : res (ExtensionType * IndexerState) :=
  to_update ← foldM (fun acc '(index, d) => rev ← is_reverse_extension d b;
                       Ok (if rev : bool then acc ++ [index] else acc))
                [] (enumerate (st_dangling_branches st));
  if bool_decide (to_update <> []) then
    r ← vec_remove extended_branch_index (st_dangling_branches st);
    r ← foldM (merge_follower extended_branch_index new_node_id) r (enumerate to_update);
    Ok (DanglingComplex, set_branches (st_root_branch st) (r.2 ++ [r.1]) st)
  else Ok (match direction with
           | Forward => DanglingSimpleForward
           | Reverse => DanglingSimpleReverse
           end, st).

Definition new_dangling st b : res (ExtensionType * IndexerState) :=
  d ← branch_new b;
  Ok (DanglingNew, set_branches (st_root_branch st) (st_dangling_branches st ++ [d]) st).

(** ** Canonical blocks *)

(** The ancestors above the old canonical root, nearest first. *)
Fixpoint take_until (old : NodeId) (ids : list NodeId) : list NodeId :=
  match ids with
  | [] => []
  | id :: ids => if bool_decide (id <> old) then id :: take_until old ids else []
  end.

(** One block of the loop; the first becomes the canonical root. *)
Definition collect_canonical (acc : list Block * IndexerState) (id : NodeId)
  : res (list Block * IndexerState) :=
  let '(blocks, st) := acc in
  ancestor ← get_block_from_id st id;
  let st := if bool_decide (blocks = [])
            then set_canonical_root (mkTip (blk_state_hash ancestor) id) st else st in
  Ok (blocks ++ [ancestor], st).

Definition get_new_canonical_blocks st (old_canonical_root_id : NodeId)
  : res (list Block * IndexerState) :=
  ids ← expect (ancestor_ids (branches (st_root_branch st)) (tip_node_id (st_best_tip st)));
  r ← foldM collect_canonical ([], st)
        (take_until old_canonical_root_id
           (drop (Z.to_nat (saturating_sub MAINNET_CANONICAL_THRESHOLD 1)) ids));
  Ok (rev r.1, r.2).

(** The diffs found in the map, composed. *)
Definition canonical_diff st (canonical_blocks : list Block) : LedgerDiff :=
  fold_left (fun d (blk : Block) => match st_diffs_map st !! blk_state_hash blk with
                          | Some diff => ledger_diff_append d diff
                          | None => d
                          end) canonical_blocks ledger_diff_default.

Definition update_ledger st (canonical_blocks : list Block) : res IndexerState :=
  let ledger_diff := canonical_diff st canonical_blocks in
  if bool_decide (ld_account_diffs ledger_diff <> []) then
    l ← ledger_apply_diff (st_ledger st) ledger_diff;
    Ok (set_ledgers l (st_diffs_map st) (st_indexer_store st) st)
  else Ok st.

(** Every ledger stored is the one after all the new canonical blocks; a cadence of zero panics. *)
Definition update_ledger_store st (canonical_blocks : list Block) : res IndexerState :=
  match st_indexer_store st with
  | Some store =>
    store ← foldM (fun store (blk : Block) =>
      if st_ledger_cadence st =? 0 then Panic
      else if blk_blockchain_length blk mod st_ledger_cadence st =? 0
      then add_staged_ledger_at_state_hash (blk_state_hash blk) (st_ledger st)
             (blk_blockchain_length blk) store
      else Ok store) store canonical_blocks;
    Ok (set_ledgers (st_ledger st) (st_diffs_map st) (Some store) st)
  | None => Ok st
  end.

Definition prune_diffs_map st (old_canonical_root_id : NodeId) : res IndexerState :=
  ids ← expect (traverse_level_order_ids (branches (st_root_branch st)) old_canonical_root_id);
  m ← foldM (fun m id =>
        blk ← get_block_from_id st id; root ← canonical_root_block st;
        Ok (if bool_decide (blk <> root) && (blk_height blk <=? blk_height root)
            then delete (blk_state_hash blk) m else m)) (st_diffs_map st) ids;
  Ok (set_ledgers (st_ledger st) m (st_indexer_store st) st).

Definition update_canonical st : res (list Block * IndexerState) :=
  updatable ← is_canonical_updatable st;
  if updatable : bool then
    let old_canonical_root_id := tip_node_id (st_canonical_root st) in
    r ← get_new_canonical_blocks st old_canonical_root_id;
    let '(new_canonical_blocks, st) := r in
    st ← update_ledger st new_canonical_blocks;
    st ← update_ledger_store st new_canonical_blocks;
    st ← prune_diffs_map st old_canonical_root_id;
    Ok (new_canonical_blocks, st)
  else Ok ([], st).

Definition prune_root_branch st : res (list Block * IndexerState) :=
  let k := st_transition_frontier_length st in
  r ← update_canonical st;
  let '(canonical_event, st) := r in
  if wrap32 (st_prune_interval st * k) <? branch_height (st_root_branch st) then
    best_tip ← best_tip_block st;
    root_branch ← prune_transition_frontier (st_root_branch st) k best_tip;
    Ok (canonical_event, set_branches root_branch (st_dangling_branches st) st)
  else Ok (canonical_event, st).

(** ** The handler *)

Definition add_block_to_witness_tree st b (increment_blocks insert_diff : bool)
  : res ((ExtensionType * option WitnessTreeEvent) * IndexerState) :=
  root ← root_block (st_root_branch st);
  if blockchain_length b <? blk_blockchain_length root then Ok ((BlockNotAdded, None), st)
  else
    st ← (if insert_diff then
            diff ← from_precomputed b;
            Ok (set_ledgers (st_ledger st) (<[state_hash b := diff]> (st_diffs_map st))
                  (st_indexer_store st) st)
          else Ok st);
    let st := if increment_blocks
              then set_blocks_processed (wrap32 (st_blocks_processed st + 1)) st else st in
    within ← is_length_within_root_bounds st b;
    r ← (if within : bool then root_extension st b else Ok (None, st));
    let '(root_ext, st) := r in
    match root_ext with
    | Some root_extension =>
      best_tip ← match root_extension with
                 | RootSimple block | RootComplex block => Ok block
                 | _ => Panic
                 end;
      r ← prune_root_branch st;
      let '(canonical_blocks, st) := r in
      Ok ((root_extension, Some (UpdateBestTip best_tip canonical_blocks)), st)
    | None =>
      d ← dangling_extension st b;
      let '(ext, st) := d in
      r ← match ext with
          | Some (index, id, dir) => update_dangling st b index id dir
          | None => new_dangling st b
          end;
      Ok ((r.1, None), r.2)
    end.
(** ** The initial state *)

Record GenesisVersion := mkGenesis {
  gv_state_hash : StateHash;
  gv_prev_hash : StateHash;
  gv_blockchain_length : Z;
  gv_global_slot : Z;
  gv_last_vrf_output : list Z
}.

(** The settings of the witness tree; the genesis ledger as the ledger it converts to. *)
Record IndexerStateConfig := mkConfig {
  cfg_genesis_ledger : Ledger;
  cfg_genesis : GenesisVersion;
  cfg_indexer_store : LedgerStore;
  cfg_transition_frontier_length : Z;
  cfg_prune_interval : Z;
  cfg_canonical_update_threshold : Z;
  cfg_ledger_cadence : Z
}.

(** [IndexerStateConfig::new]: the defaults of the constants. *)
Definition config_new (genesis_ledger : Ledger) (genesis : GenesisVersion) (store : LedgerStore)
    (transition_frontier_length : Z) : IndexerStateConfig :=
  {| cfg_genesis_ledger := genesis_ledger;
     cfg_genesis := genesis;
     cfg_indexer_store := store;
     cfg_transition_frontier_length := transition_frontier_length;
     cfg_prune_interval := PRUNE_INTERVAL_DEFAULT;
     cfg_canonical_update_threshold := CANONICAL_UPDATE_THRESHOLD;
     cfg_ledger_cadence := LEDGER_CADENCE |}.

Definition new_without_genesis_events (config : IndexerStateConfig) : res IndexerState :=
  let g := cfg_genesis config in
  root_branch ← new_genesis (gv_state_hash g) (gv_prev_hash g) (gv_blockchain_length g)
                  (gv_global_slot g) (gv_last_vrf_output g);
  root ← root_block root_branch;
  let tip := mkTip (blk_state_hash root) (Branch.root root_branch) in
  Ok {| st_ledger := cfg_genesis_ledger config;
        st_diffs_map := ∅;
        st_canonical_root := tip;
        st_best_tip := tip;
        st_root_branch := root_branch;
        st_dangling_branches := [];
        st_indexer_store := Some (cfg_indexer_store config);
        st_transition_frontier_length := cfg_transition_frontier_length config;
        st_prune_interval := cfg_prune_interval config;
        st_canonical_update_threshold := cfg_canonical_update_threshold config;
        st_blocks_processed := 0;
        st_ledger_cadence := cfg_ledger_cadence config |}.
End WitnessTree.

(** * Positions in a vector *)

Section Positions.
Context {A : Type} (P : A -> bool).

(** The positions, counted from [o], of the elements that pass the test. *)
Fixpoint positions (o : nat) (l : list A) : list nat :=
  match l with
  | [] => []
  | x :: l => if P x then o :: positions (S o) l else positions (S o) l
  end.

Lemma positions_app o l k : positions o (l ++ k) = positions o l ++ positions (o + length l) k.
Proof.
  revert o. induction l as [|x l IH]; intros o; simpl; [by rewrite Nat.add_0_r|].
  rewrite IH, <- Nat.add_succ_comm. by destruct (P x).
Qed.

Lemma positions_none o l : Forall (fun x => P x = false) l -> positions o l = [].
Proof. intros Hl. revert o. induction Hl as [|x l Hx _ IH]; intros o; simpl; [done|]. by rewrite Hx. Qed.

Lemma positions_nil o l : positions o l = [] <-> Forall (fun x => P x = false) l.
Proof.
  split; [|apply positions_none]. revert o. induction l as [|x l IH]; intros o; simpl; [constructor|].
  destruct (P x) eqn:E; [done|]. intros Hl. constructor; [done|by eapply IH].
Qed.

(** Collecting positions in a loop over the enumerated vector. *)
Lemma foldM_positions (f : A -> res bool) l acc o :
  Forall (fun x => f x = Ok (P x)) l ->
  foldM (fun acc '(index, d) => rev ← f d; Ok (if rev : bool then acc ++ [index] else acc))
    acc (zip (seq o (length l)) l) = Ok (acc ++ positions o l).
Proof.
  intros Hl. revert acc o. induction Hl as [|x l Hx _ IH]; intros acc o; simpl; [by rewrite app_nil_r|].
  rewrite Hx. simpl. rewrite IH. destruct (P x); [by rewrite <- app_assoc|done].
Qed.

Lemma vec_remove_middle (kept : list A) x rest :
  vec_remove (length kept) (kept ++ x :: rest) = Ok (x, kept ++ rest).
Proof.
  unfold vec_remove. rewrite list_lookup_middle by done. simpl. rewrite take_app_length.
  replace (S (length kept)) with (length (kept ++ [x])) by (rewrite length_app; simpl; lia).
  change (x :: rest) with ([x] ++ rest). by rewrite app_assoc, drop_app_length.
Qed.

(** Removing the positions one by one, each moved down by the number removed before it. *)
Lemma remove_positions kept rest n o :
  o = (n + length kept)%nat ->
  foldM (fun l '(num_removed, index) => r ← vec_remove (index - num_removed)%nat l; Ok r.2)
    (kept ++ rest) (zip (seq n (length (positions o rest))) (positions o rest)) =
  Ok (kept ++ filter (fun x => P x = false) rest).
Proof.
  revert kept n o. induction rest as [|x rest IH]; intros kept n o Ho; [done|].
  cbn [positions]. rewrite filter_cons. destruct (P x) eqn:E.
  - cbn [length seq zip zip_with foldM].
    replace (o - n)%nat with (length kept) by lia. rewrite vec_remove_middle. cbn [mbind res_bind snd].
    rewrite decide_False by done. apply IH. lia.
  - rewrite decide_True by done. change (x :: rest) with ([x] ++ rest).
    rewrite (app_assoc kept [x] rest), IH by (rewrite length_app; simpl; lia). by rewrite <- app_assoc.
Qed.

Lemma remove_indices_positions l :
  remove_indices l (positions 0 l) = Ok (filter (fun x => P x = false) l).
Proof. exact (remove_positions [] l 0 0 eq_refl). Qed.
End Positions.

(** The result of [min_by] is an element of the greatest measure, when the comparison follows it. *)
Lemma min_by_spec {A} (cmp : A -> A -> res comparison) (measure : A -> Z) (l : list A) :
  (forall x y, x ∈ l -> y ∈ l -> exists c, cmp x y = Ok c /\
     match c with Gt => measure x <= measure y | _ => measure y <= measure x end) ->
  exists o, min_by cmp l = Ok o /\
    match o with
    | Some m => m ∈ l /\ forall x, x ∈ l -> measure x <= measure m
    | None => l = []
    end.
Proof.
  intros Hcmp. destruct l as [|a l]; [by exists None|]. unfold min_by.
  assert (forall k x, (forall y, y ∈ x :: k -> y ∈ a :: l) -> exists m,
    foldM (fun x y => c ← cmp x y; Ok (match c with Gt => y | _ => x end)) x k = Ok m /\
    m ∈ x :: k /\ forall y, y ∈ x :: k -> measure y <= measure m) as Hloop.
  { induction k as [|y k IH]; intros x Hk.
    { exists x. split; [done|]. split; [left|]. intros y Hy. apply list_elem_of_singleton in Hy as ->. lia. }
    cbn [foldM]. destruct (Hcmp x y) as (c & -> & Hc); [apply Hk; set_solver..|]. cbn [mbind res_bind].
    destruct (IH (match c with Gt => y | _ => x end)) as (m & -> & Hm & Hmax).
    { intros z Hz. apply Hk. destruct c; set_solver. }
    exists m. split; [done|]. split; [destruct c; set_solver|]. intros z Hz.
    assert (measure x <= measure m /\ measure y <= measure m) as [? ?].
    { pose proof (Hmax _ (list_elem_of_here _ _)) as Hmax0. destruct c; lia. }
    apply elem_of_cons in Hz as [->|Hz]; [done|]. apply elem_of_cons in Hz as [->|Hz]; [done|].
    apply Hmax. by right. }
  destruct (Hloop l a) as (m & Em & Hm & Hmax); [done|]. exists (Some m). rewrite Em. done.
Qed.
