(* ===== verification/Growth.v ===== *)
(** How the witness tree grows: the invariant of the state, the effect of the handlers that extend
    the root branch and the dangling branches, and the connections they keep. *)

From S2P Require Import Prelude Bytes Base Command AccountDiff Account Coinbase Precomputed LedgerDiff Ledger BlockOrder Rose Branch WitnessTree.

(** * Consistent blocks *)

Lemma height_le_blocks {Id} (r : rose (Id * Block)) : (rose_height r <= length (blocks r))%nat.
Proof.
  unfold blocks. rewrite length_fmap. induction r as [a cs IH] using rose_children_ind.
  rewrite nodes_Rose. cbn [rose_height length]. fold (forest_height cs). apply le_n_S.
  apply forest_height_le. apply Forall_forall. intros c Hc. rewrite Forall_forall in IH.
  etrans; [by apply IH|]. clear IH. induction cs as [|x cs IH]; [by apply elem_of_nil in Hc|].
  rewrite bind_cons, length_app. apply elem_of_cons in Hc as [->|Hc]; [lia|]. specialize (IH Hc). lia.
Qed.

(** A block without its place in a branch. *)
Definition strip (b : Block) : Block := with_height 0 b.

Section Consistent.
(** The length of the chain that ends in a block, and the first length after the hard fork. *)
Variables (len_of : StateHash -> Z) (fork_length : Z).

Definition consistent (b : Block) : Prop :=
  blk_blockchain_length b = len_of (blk_state_hash b) /\
  len_of (blk_parent_hash b) + 1 = blk_blockchain_length b /\
  0 <= blk_blockchain_length b < U32_MAX /\
  (sh_str (blk_genesis_state_hash b) = HARDFORK_GENESIS_HASH -> fork_length <= blk_blockchain_length b) /\
  (sh_str (blk_genesis_state_hash b) = MAINNET_GENESIS_HASH -> blk_blockchain_length b < fork_length).

Lemma consistent_cmp a b :
  consistent a -> consistent b ->
  match block_cmp a b with
  | Lt => blk_blockchain_length b <= blk_blockchain_length a
  | _ => blk_blockchain_length a <= blk_blockchain_length b
  end.
Proof.
  intros (_ & _ & _ & Ha & _) (_ & _ & _ & _ & Hb). unfold block_cmp.
  destruct (String.eqb_spec (sh_str (blk_genesis_state_hash a)) HARDFORK_GENESIS_HASH) as [Ea|_],
    (String.eqb_spec (sh_str (blk_genesis_state_hash b)) MAINNET_GENESIS_HASH) as [Eb|_]; simpl.
  1: specialize (Ha Ea); specialize (Hb Eb); lia.
  all: unfold better; destruct (Z.compare_spec (blk_blockchain_length a) (blk_blockchain_length b));
    repeat case_match; lia.
Qed.

Context `{IdTreeSpec}.
Implicit Types (r s : rose (NodeId * Block)).

(** Lengths grow with the heights. *)
Lemma good_length d r b :
  good d r -> Forall consistent (blocks r) -> b ∈ blocks r ->
  blk_blockchain_length b - blk_height b = blk_blockchain_length (label r).2 - d.
Proof.
  revert d. induction r as [[i b0] cs IH] using rose_children_ind. intros d Hg Hall Hb.
  inversion Hg as [d' i' b' cs' Hd Hl Hc]; subst.
  unfold blocks in Hb, Hall. rewrite nodes_Rose in Hb, Hall. csimpl in *. apply Forall_cons in Hall as [Hr Hall].
  apply elem_of_cons in Hb as [->|Hb]; [lia|].
  apply list_elem_of_fmap in Hb as (n & -> & Hn). apply list_elem_of_bind in Hn as (c & Hn & Hin).
  rewrite Forall_forall in IH, Hl, Hc.
  assert (Forall consistent (blocks c)) as Hcc.
  { apply Forall_forall. intros x Hx. rewrite Forall_forall in Hall. apply Hall.
    unfold blocks in Hx. apply list_elem_of_fmap in Hx as (y & -> & Hy).
    apply list_elem_of_fmap_2, list_elem_of_bind. eauto. }
  rewrite (IH c Hin _ (Hc c Hin) Hcc) by (by apply list_elem_of_fmap_2).
  assert (consistent (label c).2) as (Hc1 & Hc2 & _).
  { rewrite Forall_forall in Hcc. apply Hcc. unfold blocks. apply list_elem_of_fmap_2.
    destruct c. rewrite nodes_Rose. left. }
  destruct Hr as (Hr1 & _). rewrite (Hl c Hin) in Hc2. lia.
Qed.

Lemma label_block r : (label r).2 ∈ blocks r.
Proof. unfold blocks. apply list_elem_of_fmap_2. destruct r. rewrite nodes_Rose. left. Qed.

Lemma node_block r id b : (id, b) ∈ nodes r -> b ∈ blocks r.
Proof. intros Hn. unfold blocks. apply (list_elem_of_fmap_2 snd _ _ Hn). Qed.

Lemma block_node r b : b ∈ blocks r -> exists id, (id, b) ∈ nodes r.
Proof. unfold blocks. intros ([i b'] & -> & Hn)%list_elem_of_fmap. eauto. Qed.

(** The blocks of the top level are the longest. *)
Lemma top_longest r tip b :
  good 0 r -> Forall consistent (blocks r) -> tip ∈ nodes r ->
  blk_height tip.2 + 1 = Z.of_nat (rose_height r) -> b ∈ blocks r ->
  blk_blockchain_length b <= blk_blockchain_length tip.2.
Proof.
  intros Hg Hall Ht Hh Hb. destruct tip as [i tip]. cbn [snd] in *.
  pose proof (good_length _ _ _ Hg Hall (node_block _ _ _ Ht)).
  pose proof (good_length _ _ _ Hg Hall Hb).
  destruct (block_node _ _ Hb) as [j Hj]. destruct (good_node _ _ _ _ Hg Hj). lia.
Qed.

Lemma root_shortest r b :
  good 0 r -> Forall consistent (blocks r) -> b ∈ blocks r ->
  blk_blockchain_length (label r).2 <= blk_blockchain_length b.
Proof.
  intros Hg Hall Hb. pose proof (good_length _ _ _ Hg Hall Hb).
  destruct (block_node _ _ Hb) as [j Hj]. destruct (good_node _ _ _ _ Hg Hj). lia.
Qed.

(** The only block of height zero is the root. *)
Lemma good_root r id b : good 0 r -> (id, b) ∈ nodes r -> blk_height b = 0 -> (id, b) = label r.
Proof.
  intros Hg Hn Hh. destruct r as [[i b0] cs]. rewrite nodes_Rose in Hn.
  inversion Hg as [d' i' b' cs' Hd Hl Hc]; subst.
  apply elem_of_cons in Hn as [->|Hn]; [done|]. apply list_elem_of_bind in Hn as (c & Hn & Hin).
  rewrite Forall_forall in Hc. destruct (good_node _ _ _ _ (Hc c Hin) Hn). lia.
Qed.

Lemma good_label r : good 0 r -> blk_height (label r).2 = 0.
Proof. by destruct 1. Qed.

(** A tree that keeps the nodes of another keeps its root. *)
Lemma same_root r r' : good 0 r -> good 0 r' -> nodes r ⊆ nodes r' -> label r' = label r.
Proof.
  intros Hg Hg' Hsub. symmetry. destruct (label r) as [i b] eqn:E. apply good_root; [done| |].
  - apply Hsub. rewrite <- E. destruct r. rewrite nodes_Rose. left.
  - change b with (i, b).2. rewrite <- E. by apply good_label.
Qed.
End Consistent.

(** * Growth of the forest *)

Section Growth.
Variables (len_of : StateHash -> Z) (fork_length : Z).
Context `{IdTreeSpec} `{Blake2b} `{LedgerDb} `{Decimal} `{HashMapIter}.
Implicit Types (r : rose (NodeId * Block)) (br d : Branch) (st : IndexerState) (b : PrecomputedBlock).
Notation ok_block := (consistent len_of fork_length).

(** The block is the parent of the tree's root. *)
Definition parent_of b r : Prop := state_hash b = blk_parent_hash (label r).2.
Global Instance parent_of_dec b r : Decision (parent_of b r).
Proof. unfold parent_of. apply _. Defined.
Definition reverses b d : bool :=
  match is_reverse_extension d b with Ok true => true | _ => false end.

Lemma root_block_eq br r : branch_ok br r -> root_block br = Ok (label r).2.
Proof.
  intros Hok. unfold root_block. rewrite (bo_root _ _ Hok).
  by rewrite (node_data_eq _ _ _ (bo_contents _ _ Hok) (subtrees_root r)).
Qed.

Lemma is_reverse_extension_eq br r b :
  branch_ok br r -> is_reverse_extension br b = Ok (bool_decide (parent_of b r)).
Proof. intros Hok. unfold is_reverse_extension. by rewrite (root_block_eq _ _ Hok). Qed.

Lemma reverses_eq br r b : branch_ok br r -> reverses b br = bool_decide (parent_of b r).
Proof.
  intros Hok. unfold reverses. rewrite (is_reverse_extension_eq _ _ _ Hok). by destruct (bool_decide _).
Qed.

Lemma best_tip_eq br r :
  branch_ok br r -> Forall ok_block (blocks r) ->
  exists tip, best_tip_with_id br = Ok (Some tip) /\ tip ∈ nodes r /\
    forall x, x ∈ blocks r -> blk_blockchain_length x <= blk_blockchain_length tip.2.
Proof.
  intros Hok Hall. destruct (best_tip_exists _ _ Hok) as (tip & Etip & Ht & Hh).
  exists tip. split; [done|]. split; [done|]. intros x. by eapply top_longest; [apply Hok|..].
Qed.

Lemma filter_contents b l ls :
  Forall2 branch_ok l ls ->
  Forall2 branch_ok (filter (fun d => reverses b d = false) l) (filter (fun r => ~ parent_of b r) ls).
Proof.
  induction 1 as [|d r l ls Hok _ IH]; [constructor|]. rewrite !filter_cons, (reverses_eq _ _ _ Hok).
  destruct (decide (parent_of b r)) as [Hp|Hp].
  - rewrite bool_decide_true by done. rewrite decide_False by done. rewrite decide_False by tauto. done.
  - rewrite bool_decide_false by done. rewrite decide_True by done. rewrite decide_True by done. by constructor.
Qed.

(** The blocks of the trees, without their heights. *)
Definition forest (rs : list (rose (NodeId * Block))) : list Block := strip <$> (rs ≫= blocks).

Lemma forest_app rs rs' : forest (rs ++ rs') = forest rs ++ forest rs'.
Proof. unfold forest. by rewrite bind_app, fmap_app. Qed.
Lemma forest_cons r rs : forest (r :: rs) = (strip <$> blocks r) ++ forest rs.
Proof. unfold forest. by rewrite bind_cons, fmap_app. Qed.
Lemma forest_length rs : length (forest rs) = length (rs ≫= blocks).
Proof. apply length_fmap. Qed.
Lemma forest_filter (P : rose (NodeId * Block) -> Prop) `{forall r, Decision (P r)} rs :
  forest (filter P rs) ++ forest (filter (fun r => ~ P r) rs) ≡ₚ forest rs.
Proof. rewrite <- forest_app. unfold forest. by rewrite (filter_app_complement P rs). Qed.
Lemma forest_consistent rs : Forall ok_block (forest rs) <-> Forall (fun r => Forall ok_block (blocks r)) rs.
Proof.
  induction rs as [|r rs IH]; [done|]. rewrite forest_cons, Forall_app, IH, Forall_cons.
  by rewrite Forall_fmap.
Qed.
Global Instance forest_perm : Proper ((≡ₚ) ==> (≡ₚ)) forest.
Proof. intros rs rs' Hp. unfold forest. by rewrite Hp. Qed.

(** One tree grew into another by the given blocks. *)
Definition grew r r' (new : list Block) : Prop :=
  nodes r ⊆ nodes r' /\ (strip <$> blocks r') ≡ₚ new ++ (strip <$> blocks r).

Lemma grew_trans r1 r2 r3 n1 n2 : grew r1 r2 n1 -> grew r2 r3 n2 -> grew r1 r3 (n1 ++ n2).
Proof.
  intros [Hs1 Hp1] [Hs2 Hp2]. split; [set_solver|]. rewrite Hp2, Hp1, !app_assoc.
  apply Permutation_app_tail, Permutation_app_comm.
Qed.

Lemma grew_consistent r r' new :
  grew r r' new -> Forall ok_block (blocks r) -> Forall ok_block new -> Forall ok_block (blocks r').
Proof.
  intros [_ Hp] Hr Hn. assert (Forall ok_block (strip <$> blocks r')) as Hf.
  { rewrite Hp. apply Forall_app. split; [done|]. by apply Forall_fmap. }
  exact (proj1 (Forall_fmap strip ok_block (blocks r')) Hf).
Qed.

Lemma grew_length r r' new : grew r r' new -> length (blocks r') = (length new + length (blocks r))%nat.
Proof. intros [_ Hp]. apply Permutation_length in Hp. by rewrite length_app, !length_fmap in Hp. Qed.

(** Merging, with the number of blocks as the bound. *)
Lemma merge_on_grew br r junction p incoming ri :
  branch_ok br r -> branch_ok incoming ri -> (junction, p) ∈ nodes r ->
  blk_parent_hash (label ri).2 = blk_state_hash p ->
  Forall ok_block (blocks ri) ->
  Z.of_nat (length (blocks r) + length (blocks ri)) <= U32_MAX ->
  exists id br' r' tip, merge_on br junction incoming = Ok (Some id, br') /\
    branch_ok br' r' /\ grew r r' (forest [ri]) /\ (id, tip) ∈ nodes r' /\
    forall x, x ∈ blocks ri -> blk_blockchain_length x <= blk_blockchain_length tip.
Proof.
  intros Hok Hinc Hj Hpar Hall Hlen.
  pose proof (height_le_blocks r). pose proof (height_le_blocks ri).
  destruct (merge_on_spec br r junction p incoming ri Hok Hinc Hj Hpar) as
    (id & br' & r' & tip & E & Hok' & Hsub & Hp & Etip & Hid); [lia|].
  destruct (best_tip_eq _ _ Hinc Hall) as (tip' & Etip' & _ & Hmax).
  rewrite Etip in Etip'. injection Etip' as <-.
  exists id, br', r', (shift (blk_height p) tip.2). split; [done|]. split; [done|]. split; [|done].
  split; [done|]. rewrite Hp, fmap_app. unfold forest. csimpl. rewrite app_nil_r.
  by rewrite <- list_fmap_compose.
Qed.

Lemma merge_dangling_spec b new_id nb l ls br r o tips removed :
  branch_ok br r -> Forall2 branch_ok l ls -> (new_id, nb) ∈ nodes r ->
  blk_state_hash nb = state_hash b -> Forall ok_block (forest ls) ->
  Z.of_nat (length (blocks r) + length (forest ls)) <= U32_MAX ->
  exists br' r' tips',
    foldM (fun '(root_branch, tips, remove) '(index, d) =>
      rev ← is_reverse_extension d b;
      if rev : bool then
        r ← merge_on root_branch new_id d;
        tip ← expect_some r.1;
        Ok (r.2, tips ++ [tip], remove ++ [index])
      else Ok (root_branch, tips, remove)) (br, tips, removed) (zip (seq o (length l)) l) =
    Ok (br', tips ++ tips', removed ++ positions (reverses b) o l) /\
    branch_ok br' r' /\ grew r r' (forest (filter (parent_of b) ls)) /\
    tips' ⊆ ids r' /\
    forall x, x ∈ forest (filter (parent_of b) ls) ->
      exists id tip, id ∈ tips' /\ (id, tip) ∈ nodes r' /\
        blk_blockchain_length x <= blk_blockchain_length tip.
Proof.
  intros Hok Hl. revert br r o tips removed Hok.
  induction Hl as [|d rd l ls Hd _ IH]; intros br r o tips removed Hok Hn Hh Hall Hlen.
  { exists br, r, []. rewrite !app_nil_r. split_and!; [done|done|by split|set_solver|].
    intros x Hx. by apply elem_of_nil in Hx. }
  rewrite forest_cons in Hall, Hlen. apply Forall_app in Hall as [Hrd Hall].
  rewrite length_app, length_fmap in Hlen.
  cbn [length seq zip zip_with foldM]. rewrite (is_reverse_extension_eq _ _ _ Hd). cbn [mbind res_bind].
  cbn [positions]. rewrite (reverses_eq _ _ _ Hd), filter_cons.
  destruct (decide (parent_of b rd)) as [Hp|Hp].
  - rewrite bool_decide_true by done.
    destruct (merge_on_grew br r new_id nb d rd Hok Hd Hn) as (id & br1 & r1 & tip & -> & Hok1 & Hg1 & Hid & Hmax).
    { by rewrite Hh, Hp. }
    { exact (proj1 (Forall_fmap strip ok_block (blocks rd)) Hrd). }
    { lia. }
    cbn [mbind res_bind fst snd expect_some].
    destruct (IH br1 r1 (S o) (tips ++ [id]) (removed ++ [o])) as (br' & r' & tips' & -> & Hok' & Hg' & Ht & Hx);
      [done|by apply Hg1|done|done| |].
    { rewrite (grew_length _ _ _ Hg1), forest_length. csimpl. rewrite app_nil_r. lia. }
    exists br', r', (id :: tips'). rewrite <- !app_assoc. split; [done|]. split; [done|].
    split; [rewrite forest_cons; unfold forest in Hg1 at 1; csimpl in Hg1; rewrite app_nil_r in Hg1;
            by eapply grew_trans|].
    assert ((id, tip) ∈ nodes r') as Hid' by (by apply Hg').
    split.
    { intros x [->|Hx']%elem_of_cons; [|auto]. unfold ids. by apply (list_elem_of_fmap_2 fst _ _ Hid'). }
    intros x. rewrite forest_cons. intros [Hx'|Hx']%elem_of_app.
    + exists id, tip. split; [left|]. split; [done|].
      apply list_elem_of_fmap in Hx' as (y & -> & Hy). apply (Hmax y Hy).
    + destruct (Hx x Hx') as (i & t & ? & ? & ?). exists i, t. split; [by right|done].
  - rewrite bool_decide_false by done. apply IH; [done..|lia].
Qed.

(** ** The invariant *)

Definition tip_in r (t : Tip) (x : Block) : Prop :=
  (tip_node_id t, x) ∈ nodes r /\ tip_state_hash t = blk_state_hash x.

(** The longest block of a tree. *)
Definition longest_in r (tip : Block) : Prop :=
  forall x, x ∈ blocks r -> blk_blockchain_length x <= blk_blockchain_length tip.

(** The state holds a tree connected to its root and the dangling trees. *)
Record tree_ok st r ds : Prop := {
  to_root : branch_ok (st_root_branch st) r;
  to_dangling : Forall2 branch_ok (st_dangling_branches st) ds;
  to_consistent : Forall ok_block (forest (r :: ds));
  to_size : Z.of_nat (length (forest (r :: ds))) <= U32_MAX;
  to_best : exists tip, tip_in r (st_best_tip st) tip /\ longest_in r tip;
  to_canonical : exists c, tip_in r (st_canonical_root st) c
}.

Lemma get_block_eq st r id x :
  branch_ok (st_root_branch st) r -> (id, x) ∈ nodes r -> get_block_from_id st id = Ok x.
Proof. intros Hok Hn. unfold get_block_from_id. by rewrite (node_data_spec _ _ _ _ (bo_contents _ _ Hok) Hn). Qed.

Lemma update_best_tip_spec st r old id inc :
  branch_ok (st_root_branch st) r -> Forall ok_block (blocks r) ->
  tip_in r (st_best_tip st) old -> (id, inc) ∈ nodes r ->
  exists t tip, update_best_tip st inc id = Ok (set_best_tip t st) /\ tip_in r t tip /\
    (tip = old \/ tip = inc) /\
    blk_blockchain_length old <= blk_blockchain_length tip /\
    blk_blockchain_length inc <= blk_blockchain_length tip.
Proof.
  intros Hok Hall [Hold Hsh] Hinc. unfold update_best_tip, best_tip_block.
  rewrite (get_block_eq _ _ _ _ Hok Hold). cbn [mbind res_bind].
  rewrite Forall_forall in Hall.
  pose proof (consistent_cmp _ _ inc old (Hall _ (node_block _ _ _ Hinc)) (Hall _ (node_block _ _ _ Hold))) as Hc.
  destruct (block_cmp inc old); [exists (st_best_tip st), old|
    exists (mkTip (blk_state_hash inc) id), inc|exists (st_best_tip st), old].
  all: split_and!; try done; try lia; try by left.
  all: try by right. all: by destruct st.
Qed.

(** ** Extending the root branch *)

Lemma ids_node r id : id ∈ ids r -> exists x, (id, x) ∈ nodes r.
Proof. apply ids_elem. Qed.

(** Choosing among the tips merged, the new block and the old tip gives a longest block. *)
Lemma choose_tip_spec st r old tips id nb :
  branch_ok (st_root_branch st) r -> Forall ok_block (blocks r) ->
  tip_in r (st_best_tip st) old -> (id, nb) ∈ nodes r -> tips ⊆ ids r ->
  exists best t1 t tip, min_by (fun x y => bx ← get_block_from_id st x; by_ ← get_block_from_id st y;
                                  Ok (block_cmp bx by_)) tips = Ok best /\
    match best with
    | Some tip_id => tip ← get_block_from_id st tip_id; update_best_tip st tip tip_id
    | None => Ok st
    end = Ok (set_best_tip t1 st) /\
    update_best_tip (set_best_tip t1 st) nb id = Ok (set_best_tip t st) /\
    tip_in r t tip /\
    blk_blockchain_length old <= blk_blockchain_length tip /\
    blk_blockchain_length nb <= blk_blockchain_length tip /\
    forall i x, i ∈ tips -> (i, x) ∈ nodes r -> blk_blockchain_length x <= blk_blockchain_length tip.
Proof.
  intros Hok Hall Hold Hnb Htips.
  assert (exists data : NodeId -> Block, forall i, i ∈ ids r -> (i, data i) ∈ nodes r) as [data Hdata].
  { exists (fun i => match node_data (branches (st_root_branch st)) i with Ok x => x | _ => nb end).
    intros i (x & Hx)%ids_elem. by rewrite (node_data_spec _ _ _ _ (bo_contents _ _ Hok) Hx). }
  pose proof Hall as Hall'. rewrite Forall_forall in Hall'.
  destruct (min_by_spec (fun x y => bx ← get_block_from_id st x; by_ ← get_block_from_id st y;
    Ok (block_cmp bx by_)) (fun i => blk_blockchain_length (data i)) tips) as (best & Ebest & Hbest).
  { intros x y Hx%Htips Hy%Htips. apply Hdata in Hx, Hy.
    rewrite (get_block_eq _ _ _ _ Hok Hx), (get_block_eq _ _ _ _ Hok Hy).
    eexists. split; [done|].
    pose proof (consistent_cmp _ _ _ _ (Hall' _ (node_block _ _ _ Hx)) (Hall' _ (node_block _ _ _ Hy))).
    pose proof (consistent_cmp _ _ _ _ (Hall' _ (node_block _ _ _ Hy)) (Hall' _ (node_block _ _ _ Hx))).
    destruct (block_cmp (data x) (data y)) eqn:E; [|done|done].
    exfalso. revert E. unfold block_cmp, better. repeat case_match; done. }
  rewrite Ebest. exists best.
  assert (exists t1 tip1, match best with
      | Some tip_id => tip ← get_block_from_id st tip_id; update_best_tip st tip tip_id
      | None => Ok st
      end = Ok (set_best_tip t1 st) /\ tip_in r t1 tip1 /\
      blk_blockchain_length old <= blk_blockchain_length tip1 /\
      forall i, i ∈ tips -> blk_blockchain_length (data i) <= blk_blockchain_length tip1)
    as (t1 & tip1 & E1 & Ht1 & Hold1 & Htips1).
  { destruct best as [m|].
    - destruct Hbest as [Hm Hmax]. pose proof (Hdata _ (Htips _ Hm)) as Hmn.
      rewrite (get_block_eq _ _ _ _ Hok Hmn). cbn [mbind res_bind].
      destruct (update_best_tip_spec st r old m (data m) Hok Hall Hold Hmn) as (t & tip & E & Ht & _ & H1' & H2').
      exists t, tip. split_and!; [done|done|done|]. intros i Hi. specialize (Hmax i Hi). lia.
    - subst tips. exists (st_best_tip st), old. split_and!; [by destruct st|done|lia|].
      intros i Hi. by apply elem_of_nil in Hi. }
  destruct (update_best_tip_spec (set_best_tip t1 st) r tip1 id nb Hok Hall Ht1 Hnb)
    as (t & tip & E & Ht & _ & H1' & H2').
  exists t1, t, tip. rewrite E. split_and!; [done|done|done|done|lia|lia|].
  intros i x Hi Hx. assert (x = data i) as ->.
  { eapply node_unique; [apply Hok|exact Hx|]. by apply Hdata, Htips. }
  specialize (Htips1 i Hi). lia.
Qed.

Lemma root_extension_spec st r ds b :
  tree_ok st r ds -> ok_block (block_from_precomputed b 0) ->
  Z.of_nat (length (forest (r :: ds))) < U32_MAX ->
  (previous_state_hash b ∉ map blk_state_hash (blocks r) /\ root_extension st b = Ok (None, st)) \/
  (exists t br' ds' ext r' tip,
     let st' := set_best_tip t (set_branches br' ds' st) in
     previous_state_hash b ∈ map blk_state_hash (blocks r) /\
     root_extension st b = Ok (Some ext, st') /\
     ext = (if decide (filter (parent_of b) ds = []) then RootSimple tip else RootComplex tip) /\
     tree_ok st' r' (filter (fun x => ~ parent_of b x) ds) /\
     best_tip_block st' = Ok tip /\
     grew r r' (strip (block_from_precomputed b 0) :: forest (filter (parent_of b) ds))).
Proof.
  intros [Hroot Hds Hcons Hsize (old & Hold & Hlong) (c & Hc)] Hb Hlt.
  rewrite forest_cons in Hcons, Hsize, Hlt. apply Forall_app in Hcons as [Hr Hcds].
  rewrite length_app, length_fmap in Hsize, Hlt.
  assert (Forall ok_block (blocks r)) as Hrb by exact (proj1 (Forall_fmap strip ok_block (blocks r)) Hr).
  unfold root_extension. pose proof (height_le_blocks r).
  destruct (simple_extension_spec _ _ b Hroot) as [[E Hno]|(p & id & br1 & r1 & Hp & Eh & E & Hok1 & Hn1)];
    [lia|left; rewrite E; by split|right].
  rewrite E. cbn [mbind res_bind].
  set (nb := block_from_precomputed b (blk_height p.2 + 1)) in *.
  assert (grew r r1 [strip (block_from_precomputed b 0)]) as Hg1.
  { split; [intros x Hx; rewrite Hn1; by right|]. unfold blocks. by rewrite Hn1. }
  assert ((id, nb) ∈ nodes r1) as Hnb by (rewrite Hn1; left).
  destruct (merge_dangling_spec b id nb _ _ br1 r1 0 [] [] Hok1 Hds Hnb eq_refl Hcds)
    as (br' & r' & tips & Em & Hok' & Hg' & Htips & Hmax).
  { rewrite (grew_length _ _ _ Hg1). simpl. lia. }
  unfold merge_dangling, enumerate. rewrite Em. cbn [mbind res_bind app].
  pose proof (grew_trans _ _ _ _ _ Hg1 Hg') as Hg. cbn [app] in Hg.
  pose proof (forest_filter (parent_of b) ds) as Hff.
  assert (Forall ok_block (forest (filter (parent_of b) ds)) /\
          Forall ok_block (forest (filter (fun x => ~ parent_of b x) ds))) as [Hf1 Hf2].
  { apply Forall_app. by rewrite Hff. }
  assert (Forall ok_block (blocks r')) as Hr'.
  { apply (grew_consistent _ _ _ Hg Hrb). by constructor. }
  set (st1 := set_branches br' (st_dangling_branches st) st).
  destruct (choose_tip_spec st1 r' old tips id nb Hok' Hr') as
    (best & t1 & t & tip & -> & E1 & E2 & Htip & Hle1 & Hle2 & Hle3);
    [split; [apply Hg, Hold|apply Hold]|by apply Hg'|done|].
  cbn [mbind res_bind]. rewrite E1. cbn [mbind res_bind]. rewrite E2. cbn [mbind res_bind].
  set (ds' := filter (fun d => reverses b d = false) (st_dangling_branches st)).
  assert (tree_ok (set_best_tip t (set_branches br' ds' st)) r' (filter (fun x => ~ parent_of b x) ds)) as Hok2.
  { split; [done|by apply filter_contents| | | |].
    - rewrite forest_cons, Forall_app. split; [|done]. by apply Forall_fmap.
    - rewrite forest_cons, length_app, length_fmap, (grew_length _ _ _ Hg).
      apply Permutation_length in Hff. rewrite length_app in Hff. cbn [length]. lia.
    - exists tip. split; [done|]. intros x Hx.
      assert (strip x ∈ strip <$> blocks r') as Hs by (by apply list_elem_of_fmap_2).
      rewrite (proj2 Hg) in Hs. cbn [app] in Hs.
      apply elem_of_cons in Hs as [Hs|Hs]; [|apply elem_of_app in Hs as [Hs|Hs]].
      + change (blk_blockchain_length x) with (blk_blockchain_length (strip x)). by rewrite Hs.
      + destruct (Hmax _ Hs) as (i & y & Hi & Hy & Hle). specialize (Hle3 i y Hi Hy). 
        change (blk_blockchain_length (strip x)) with (blk_blockchain_length x) in Hle. lia.
      + apply list_elem_of_fmap in Hs as (y & Es & Hy). specialize (Hlong y Hy).
        change (blk_blockchain_length x) with (blk_blockchain_length (strip x)). rewrite Es.
        change (blk_blockchain_length (strip y)) with (blk_blockchain_length y). lia.
    - exists c. destruct Hc as [Hc1 Hc2]. split; [by apply Hg|done]. }
  assert (best_tip_block (set_best_tip t (set_branches br' ds' st)) = Ok tip) as Etip
    by (apply (get_block_eq _ r'); [done|apply Htip]).
  assert (positions (reverses b) 0 (st_dangling_branches st) = [] <-> filter (parent_of b) ds = []) as Hnil.
  { rewrite positions_nil. clear -Hds. induction Hds as [|d x l ls Hd _ IH]; [done|].
    rewrite Forall_cons, IH, filter_cons, (reverses_eq _ _ _ Hd). case_decide; case_bool_decide; naive_solver. }
  exists t, br', ds', (if decide (filter (parent_of b) ds = []) then RootSimple tip else RootComplex tip), r', tip.
  split; [apply list_elem_of_fmap; exists p.2; split; [done|]; by destruct p; eapply node_block|].
  split; [|done].
  case_bool_decide as Hne.
  - change (st_dangling_branches (set_best_tip t st1)) with (st_dangling_branches st).
    rewrite remove_indices_positions. cbn [mbind res_bind]. fold ds'.
    change (set_branches (st_root_branch (set_best_tip t st1)) ds' (set_best_tip t st1))
      with (set_best_tip t (set_branches br' ds' st)).
    rewrite Etip. cbn [mbind res_bind]. by rewrite decide_False by (by rewrite <- Hnil).
  - assert (positions (reverses b) 0 (st_dangling_branches st) = []) as Hno
      by (destruct (positions _ _ _); [done|by destruct Hne]).
    assert (ds' = st_dangling_branches st) as Eds.
    { unfold ds'. apply filter_all. by apply (proj1 (positions_nil (reverses b) 0 _)). }
    rewrite Eds in Etip |- *. fold st1 in Etip |- *. rewrite Etip. cbn [mbind res_bind].
    by rewrite decide_True by by apply Hnil.
Qed.

(** ** Extending a dangling branch *)

Definition hashes r : list StateHash := blk_state_hash <$> blocks r.

(** The tree holds the parent of the block. *)
Definition holds_parent b r : Prop := previous_state_hash b ∈ hashes r.
Global Instance holds_parent_dec b r : Decision (holds_parent b r).
Proof. unfold holds_parent. apply _. Defined.

(** A tree the block neither precedes nor extends. *)
Definition unrelated b r : Prop := ~ parent_of b r /\ ~ holds_parent b r.

(** A branch extended by the block, at the node given. *)
Definition extended b r dir r' (id : NodeId) : Prop :=
  (strip <$> blocks r') ≡ₚ strip (block_from_precomputed b 0) :: (strip <$> blocks r) /\
  (exists nb, (id, nb) ∈ nodes r' /\ blk_state_hash nb = state_hash b) /\
  match dir with
  | Reverse => parent_of b r /\ blk_parent_hash (label r').2 = previous_state_hash b
  | Forward => ~ parent_of b r /\ holds_parent b r /\ label r' = label r
  end.

Lemma blocks_rose_map (f : Block -> Block) r :
  blocks (rose_map (fun n => (n.1, f n.2)) r) = f <$> blocks r.
Proof. unfold blocks. by rewrite nodes_rose_map, <- !list_fmap_compose. Qed.

Lemma try_extend_spec b d r :
  branch_ok d r -> Z.of_nat (length (blocks r)) < U32_MAX ->
  (try_extend b d = Ok None /\ unrelated b r) \/
  (exists d' r' id dir, try_extend b d = Ok (Some (d', id, dir)) /\ branch_ok d' r' /\ extended b r dir r' id).
Proof.
  intros Hok Hlen. pose proof (height_le_blocks r). unfold try_extend.
  rewrite (is_reverse_extension_eq _ _ _ Hok). cbn [mbind res_bind]. case_bool_decide as Hp.
  - right. destruct (new_root_spec d r b Hok Hp) as (id & d' & -> & Hok'); [lia|].
    cbn [mbind res_bind]. rewrite root_node_id_spec, (bo_contents _ _ Hok').
    eexists d', _, id, Reverse. split; [done|]. split; [exact Hok'|]. split.
    { unfold blocks at 1. rewrite nodes_Rose, fmap_cons, bind_singleton, fmap_cons.
      fold (blocks (rose_map (fun n => (n.1, bump n.2)) r)).
      rewrite blocks_rose_map, <- list_fmap_compose. done. }
    split; [|done]. eexists. split; [rewrite nodes_Rose; left|done].
  - destruct (simple_extension_spec _ _ b Hok) as [[-> Hno]|(p & id & d' & r' & Hpn & Eh & -> & Hok' & Hn)];
      [lia|left; split; [done|by split]|right].
    exists d', r', id, Forward. split; [done|]. split; [done|]. split.
    { unfold blocks at 1. by rewrite Hn. }
    split; [eexists; rewrite Hn; split; [left|done]|]. split; [done|]. split.
    + unfold holds_parent, hashes. rewrite <- Eh. apply list_elem_of_fmap_2. destruct p. by eapply node_block.
    + apply same_root; [apply Hok|apply Hok'|]. intros x Hx. rewrite Hn. by right.
Qed.

(** The length test passes for every branch the block is related to. *)
Lemma length_test b d r :
  branch_ok d r -> Forall ok_block (blocks r) -> ok_block (block_from_precomputed b 0) ->
  exists tip, best_tip d = Ok (Some tip) /\
    ((blockchain_length b <=? wrap32 (blk_blockchain_length tip + 1)) &&
     (blk_blockchain_length (label r).2 <=? wrap32 (blockchain_length b + 1)) = true \/ unrelated b r).
Proof.
  intros Hok Hall (Hb1 & Hb2 & Hb3 & _). cbn in Hb1, Hb2, Hb3.
  destruct (best_tip_eq d r Hok Hall) as ([i tip] & Etip & Hn & Hmax). cbn [snd] in Hmax.
  exists tip. unfold best_tip. rewrite Etip. split; [done|]. pose proof (node_block _ _ _ Hn) as Ht.
  pose proof (Hmax _ (label_block r)) as Hroot. rewrite Forall_forall in Hall.
  destruct (Hall _ Ht) as (_ & _ & Ht3 & _). destruct (Hall _ (label_block r)) as (Hr1 & Hr2 & Hr3 & _).
  rewrite !wrap32_id by ints.
  destruct (decide (parent_of b r)) as [Hp|Hp].
  { left. unfold parent_of in Hp. rewrite <- Hp, <- Hb1 in Hr2.
    apply andb_true_intro. split; apply Z.leb_le; lia. }
  destruct (decide (holds_parent b r)) as [Hq|Hq]; [|right; by split].
  left. unfold holds_parent, hashes in Hq. apply list_elem_of_fmap in Hq as (p & Ep & Hpb).
  destruct (Hall _ Hpb) as (Hp1 & _). rewrite Ep, <- Hp1 in Hb2. specialize (Hmax _ Hpb).
  pose proof (root_shortest _ _ _ _ (bo_good _ _ Hok) (proj2 (Forall_forall _ _) Hall) Hpb).
  apply andb_true_intro. split; apply Z.leb_le; lia.
Qed.

Lemma extend_dangling_spec b o l ls :
  Forall2 branch_ok l ls -> Forall ok_block (forest ls) -> ok_block (block_from_precomputed b 0) ->
  Z.of_nat (length (forest ls)) < U32_MAX ->
  (extend_dangling b o l = Ok None /\ Forall (unrelated b) ls) \/
  (exists l1 d l2 ls1 x ls2 d' x' id dir,
     l = l1 ++ d :: l2 /\ ls = ls1 ++ x :: ls2 /\ Forall2 branch_ok l1 ls1 /\ Forall2 branch_ok l2 ls2 /\
     Forall (unrelated b) ls1 /\ branch_ok d' x' /\ extended b x dir x' id /\
     extend_dangling b o l = Ok (Some ((o + length l1)%nat, d', id, dir))).
Proof.
  intros Hl. revert o. induction Hl as [|d x l ls Hd Hl IH]; intros o Hall Hb Hlen; [by left|].
  rewrite forest_cons in Hall, Hlen. apply Forall_app in Hall as [Hx Hall].
  rewrite length_app, length_fmap in Hlen.
  assert (Forall ok_block (blocks x)) as Hx' by exact (proj1 (Forall_fmap strip ok_block (blocks x)) Hx).
  assert ((extend_dangling b o (d :: l) = extend_dangling b (S o) l /\ unrelated b x) \/
    exists d' x' id dir, extend_dangling b o (d :: l) = Ok (Some (o, d', id, dir)) /\
      branch_ok d' x' /\ extended b x dir x' id) as [[-> Hu]|(d' & x' & id & dir & E & Hok & He)].
  { cbn [extend_dangling]. rewrite (root_block_eq _ _ Hd). cbn [mbind res_bind].
    destruct (length_test b d x Hd Hx' Hb) as (tip & -> & Ht). cbn [mbind res_bind expect_some].
    destruct (try_extend_spec b d x Hd) as [[E Hu]|(d' & x' & id & dir & E & Hok & He)]; [lia| |].
    - left. split; [|done]. rewrite E. by case_match.
    - right. exists d', x', id, dir. split; [|done]. destruct Ht as [->|[Hu1 Hu2]]; [by rewrite E|].
      destruct He as (_ & _ & He). destruct dir; naive_solver. }
  - destruct (IH (S o) Hall Hb) as [[-> Hf]|(l1 & e & l2 & ls1 & y & ls2 & d' & x' & id & dir & -> & -> & H1' & H2' & Hu' & Hok & He & E)];
      [lia|left; split; [done|by constructor]|right].
    exists (d :: l1), e, l2, (x :: ls1), y, ls2, d', x', id, dir.
    split_and!; [done|done|by constructor|done|by constructor|done|done|].
    rewrite E. cbn [length]. by rewrite Nat.add_succ_comm.
  - right. exists [], d, l, [], x, ls, d', x', id, dir. rewrite Nat.add_0_r. split_and!; try done; constructor.
Qed.

(** The branches that follow, merged below the new block and removed one by one. *)
Lemma merge_followers_spec b e new_id nb ext x kept rest rests n o :
  branch_ok ext x -> Forall2 branch_ok rest rests -> (new_id, nb) ∈ nodes x ->
  blk_state_hash nb = state_hash b -> Forall ok_block (forest rests) ->
  Z.of_nat (length (blocks x) + length (forest rests)) <= U32_MAX ->
  Z.of_nat (length kept + length rest) <= U64_MAX ->
  (e < o)%nat -> o = (n + 1 + length kept)%nat ->
  exists ext' x',
    foldM (merge_follower e new_id) (ext, kept ++ rest)
      (zip (seq n (length (positions (reverses b) o rest))) (positions (reverses b) o rest)) =
    Ok (ext', kept ++ filter (fun d => reverses b d = false) rest) /\
    branch_ok ext' x' /\ grew x x' (forest (filter (parent_of b) rests)).
Proof.
  intros Hok Hl. revert ext x kept n o Hok.
  induction Hl as [|d y rest rests Hd _ IH]; intros ext x kept n o Hok Hn Hh Hall Hlen Hkept He Ho.
  { exists ext, x. split; [done|]. split; [done|]. by split. }
  rewrite forest_cons in Hall, Hlen. apply Forall_app in Hall as [Hy Hall].
  rewrite length_app, length_fmap in Hlen. cbn [length] in Hkept.
  cbn [positions]. rewrite (reverses_eq _ _ _ Hd), !filter_cons, (reverses_eq _ _ _ Hd).
  destruct (decide (parent_of b y)) as [Hp|Hp].
  - rewrite bool_decide_true by done. cbn [length seq zip zip_with foldM].
    destruct (merge_on_grew ext x new_id nb d y Hok Hd Hn) as (id & ext1 & x1 & tip & E1 & Hok1 & Hg1 & _).
    { by rewrite Hh, Hp. }
    { exact (proj1 (Forall_fmap strip ok_block (blocks y)) Hy). }
    { lia. }
    assert (merge_follower e new_id (ext, kept ++ d :: rest) (n, o) = Ok (ext1, kept ++ rest)) as ->.
    { unfold merge_follower. rewrite (proj2 (Nat.ltb_lt e o) He).
      assert (Z.to_nat (wrap64 (Z.of_nat o - Z.of_nat n - 1)) = length kept) as ->
        by (rewrite wrap64_id; ints).
      rewrite list_lookup_middle by done. cbn [expect_some mbind res_bind].
      rewrite E1. cbn [mbind res_bind]. by rewrite vec_remove_middle. }
    cbn [mbind res_bind]. destruct (IH ext1 x1 kept (S n) (S o)) as (ext' & x' & -> & Hok' & Hg');
      [done|by apply Hg1|done|done| |lia|lia|lia|].
    { rewrite (grew_length _ _ _ Hg1), forest_length. csimpl. rewrite app_nil_r. lia. }
    rewrite decide_False by done. exists ext', x'. split; [done|]. split; [done|].
    rewrite forest_cons. unfold forest in Hg1 at 1. csimpl in Hg1. rewrite app_nil_r in Hg1.
    by eapply grew_trans.
  - rewrite bool_decide_false by done. rewrite decide_True by done.
    change (d :: rest) with ([d] ++ rest). rewrite (app_assoc kept [d] rest).
    destruct (IH ext x (kept ++ [d]) n (S o)) as (ext' & x' & E & Hok' & Hg');
      [done..|lia|rewrite length_app; simpl; lia|lia|rewrite length_app; simpl; lia|].
    exists ext', x'. rewrite E, <- app_assoc. done.
Qed.

Lemma insert_middle {A} (l1 : list A) x y l2 : <[length l1 := y]> (l1 ++ x :: l2) = l1 ++ y :: l2.
Proof. by rewrite <- (Nat.add_0_r (length l1)), insert_app_r. Qed.

Lemma unrelated_reverses b l ls :
  Forall2 branch_ok l ls -> Forall (unrelated b) ls -> Forall (fun d => reverses b d = false) l.
Proof.
  induction 1 as [|d x l ls Hd _ IH]; [constructor|]. intros [[Hp _] Hu]%Forall_cons.
  constructor; [|auto]. rewrite (reverses_eq _ _ _ Hd). by apply bool_decide_false.
Qed.

(** The extended branch is not below the block again. *)
Lemma extended_not_reversed b x dir x' id :
  ok_block (block_from_precomputed b 0) -> extended b x dir x' id -> ~ parent_of b x'.
Proof.
  intros (Hb1 & Hb2 & _) (_ & _ & He). cbn in Hb1, Hb2. unfold parent_of. destruct dir.
  - destruct He as (Hp & _ & ->). done.
  - destruct He as (_ & ->). intros E. rewrite E in Hb1. lia.
Qed.

Lemma extended_grown b x dir x' id rs :
  extended b x dir x' id ->
  forest (x' :: rs) ≡ₚ strip (block_from_precomputed b 0) :: forest (x :: rs).
Proof. intros [Hp _]. by rewrite !forest_cons, Hp. Qed.

(** What the handler does to the dangling trees. *)
Definition dangling_step b ds ds' : Prop :=
  (Forall (unrelated b) ds /\
     exists id, ds' = ds ++ [Rose (id, block_from_precomputed b 0) []]) \/
  (exists ds1 x ds2 x' dir id, ds = ds1 ++ x :: ds2 /\ Forall (unrelated b) ds1 /\
     extended b x dir x' id /\
     exists x'', grew x' x'' (forest (filter (parent_of b) ds2)) /\ label x'' = label x' /\
       ds' ≡ₚ x'' :: ds1 ++ filter (fun y => ~ parent_of b y) ds2).

Lemma dangling_step_forest b ds ds' :
  dangling_step b ds ds' -> forest ds' ≡ₚ strip (block_from_precomputed b 0) :: forest ds.
Proof.
  intros [[_ [id ->]]|(ds1 & x & ds2 & x' & dir & id & -> & _ & He & x'' & Hg & _ & ->)].
  - rewrite forest_app. by rewrite Permutation_app_comm.
  - rewrite forest_cons, !forest_app, forest_cons, (proj2 Hg), (proj1 He), <- (forest_filter (parent_of b) ds2).
    solve_Permutation.
Qed.

Lemma filter_complement_nil {A} (P : A -> Prop) `{forall x, Decision (P x)} (l : list A) :
  filter P l = [] -> filter (fun x => ~ P x) l = l.
Proof.
  intros Hl. apply filter_all, Forall_forall. intros x Hx Hp.
  by apply (filter_nil_not_elem_of P l x Hl Hp).
Qed.

(** New dangling trees that only gained the block keep the invariant. *)
Lemma tree_ok_dangling st r ds b l ds' :
  tree_ok st r ds -> ok_block (block_from_precomputed b 0) ->
  Z.of_nat (length (forest (r :: ds))) < U32_MAX ->
  Forall2 branch_ok l ds' -> dangling_step b ds ds' ->
  tree_ok (set_branches (st_root_branch st) l st) r ds'.
Proof.
  intros [Hroot Hds Hcons Hsize Hbest Hcan] Hb Hlt Hl Hp%dangling_step_forest.
  rewrite forest_cons in Hcons, Hlt. apply Forall_app in Hcons as [Hr Hcds]. rewrite length_app in Hlt.
  split; try done; rewrite forest_cons.
  - apply Forall_app. split; [done|]. rewrite Hp. by constructor.
  - rewrite length_app, Hp. cbn [length]. lia.
Qed.

Lemma update_dangling_spec st b l1 d' l2 ds1 x' ds2 id nb dir :
  st_dangling_branches st = l1 ++ d' :: l2 ->
  Forall2 branch_ok l1 ds1 -> branch_ok d' x' -> Forall2 branch_ok l2 ds2 ->
  Forall (unrelated b) ds1 -> ~ parent_of b x' ->
  (id, nb) ∈ nodes x' -> blk_state_hash nb = state_hash b -> Forall ok_block (forest ds2) ->
  Z.of_nat (length (blocks x') + length (forest ds2)) <= U32_MAX ->
  Z.of_nat (length (l1 ++ d' :: l2)) <= U64_MAX ->
  (filter (parent_of b) ds2 = [] /\
   update_dangling st b (length l1) id dir =
     Ok (match dir with Forward => DanglingSimpleForward | Reverse => DanglingSimpleReverse end, st)) \/
  (exists l x'', filter (parent_of b) ds2 <> [] /\
     update_dangling st b (length l1) id dir =
       Ok (DanglingComplex, set_branches (st_root_branch st) l st) /\
     grew x' x'' (forest (filter (parent_of b) ds2)) /\ label x'' = label x' /\
     Forall2 branch_ok l ((ds1 ++ filter (fun y => ~ parent_of b y) ds2) ++ [x''])).
Proof.
  intros Edb H1' Hok H2' Hu Hnr Hn Hh Hall Hlen Hl. unfold update_dangling, enumerate. rewrite Edb.
  assert (Forall2 branch_ok (l1 ++ d' :: l2) (ds1 ++ x' :: ds2)) as Hall2
    by (apply Forall2_app; [done|by constructor]).
  rewrite (foldM_positions (reverses b) (fun d => is_reverse_extension d b)).
  2: { clear -Hall2. induction Hall2 as [|d y l ls Hd _ IH]; constructor; [|done].
       by rewrite (reverses_eq _ _ _ Hd), (is_reverse_extension_eq _ _ _ Hd). }
  cbn [mbind res_bind app]. rewrite positions_app, (positions_none _ _ _ (unrelated_reverses _ _ _ H1' Hu)).
  cbn [app positions Nat.add]. rewrite (reverses_eq _ _ _ Hok), (bool_decide_false (parent_of b x')) by done.
  assert (positions (reverses b) (S (length l1)) l2 = [] <-> filter (parent_of b) ds2 = []) as Hnil.
  { rewrite positions_nil. clear -H2'. induction H2' as [|d x l ls Hd _ IH]; [done|].
    rewrite Forall_cons, IH, filter_cons, (reverses_eq _ _ _ Hd). case_decide; case_bool_decide; naive_solver. }
  case_bool_decide as Hne.
  - right. rewrite vec_remove_middle. cbn [mbind res_bind].
    destruct (merge_followers_spec b (length l1) id nb d' x' l1 l2 ds2 0 (S (length l1)) Hok H2' Hn Hh Hall Hlen)
      as (ext' & x'' & E & Hok' & Hg); [rewrite length_app in Hl; simpl in Hl; lia|lia|lia|].
    rewrite E. cbn [mbind res_bind fst snd].
    exists ((l1 ++ filter (fun d => reverses b d = false) l2) ++ [ext']), x''.
    split; [by rewrite <- Hnil|]. split; [done|]. split; [done|].
    split; [apply same_root; [apply Hok|apply Hok'|apply Hg]|].
    apply Forall2_app; [apply Forall2_app; [done|by apply filter_contents]|constructor; [done|constructor]].
  - left. split; [|done]. apply Hnil. destruct (positions _ _ _); [done|by destruct Hne].
Qed.

Lemma branches_le_blocks ds : (length ds <= length (forest ds))%nat.
Proof.
  induction ds as [|x ds IH]; [simpl; lia|]. rewrite forest_cons, length_app, length_fmap. simpl.
  pose proof (height_le_blocks x). pose proof (rose_height_pos x). lia.
Qed.

Lemma dangling_spec st r ds b :
  tree_ok st r ds -> ok_block (block_from_precomputed b 0) ->
  Z.of_nat (length (forest (r :: ds))) < U32_MAX ->
  exists ext l ds',
    (d ← dangling_extension st b;
     let '(ext, st) := d in
     match ext with
     | Some (index, id, dir) => update_dangling st b index id dir
     | None => new_dangling st b
     end) = Ok (ext, set_branches (st_root_branch st) l st) /\
    tree_ok (set_branches (st_root_branch st) l st) r ds' /\ dangling_step b ds ds'.
Proof.
  intros Hok Hb Hlt. pose proof (to_dangling _ _ _ Hok) as Hds. pose proof (to_consistent _ _ _ Hok) as Hcons.
  pose proof Hlt as Hlt'. rewrite forest_cons in Hcons, Hlt'. apply Forall_app in Hcons as [_ Hcons].
  rewrite length_app in Hlt'. pose proof (branches_le_blocks ds) as Hbr.
  unfold dangling_extension.
  destruct (extend_dangling_spec b 0 _ _ Hds Hcons Hb) as
    [[-> Hu]|(l1 & d & l2 & ds1 & x & ds2 & d' & x' & id & dir & El & -> & H1' & H2' & Hu & Hok' & He & ->)];
    [lia| |]; cbn [mbind res_bind].
  - unfold new_dangling, branch_new, new_genesis_block.
    destruct (insert_as_root_spec tree_new (block_from_precomputed b 0)) as (id & t & -> & Ho & Hc).
    rewrite (proj1 tree_new_spec) in Hc. rewrite (proj2 tree_new_spec) in Ho. cbn [mbind res_bind fst snd].
    eexists DanglingNew, _, (ds ++ [Rose (id, block_from_precomputed b 0) []]). split; [done|].
    assert (dangling_step b ds (ds ++ [Rose (id, block_from_precomputed b 0) []])) as Hstep by (left; eauto).
    split; [|done]. eapply tree_ok_dangling; [done..| |done].
    apply Forall2_app; [done|]. constructor; [|constructor].
    split; [done|done|done|repeat constructor|cbn; ints].
  - rewrite Nat.add_0_l, El, insert_middle.
    destruct He as (Hp & (nb & Hn & Hh) & Hdir).
    pose proof (conj Hp (conj (ex_intro _ nb (conj Hn Hh)) Hdir) : extended b x dir x' id) as He.
    set (st1 := set_branches (st_root_branch st) (l1 ++ d' :: l2) st).
    pose proof (extended_grown b x dir x' id ds2 He) as Hgr.
    rewrite forest_app in Hcons, Hlt', Hbr. apply Forall_app in Hcons as [_ Hcons].
    rewrite forest_cons in Hcons. apply Forall_app in Hcons as [_ Hcons].
    rewrite length_app in Hlt'. apply Permutation_length in Hgr. cbn [length] in Hgr.
    assert (length (forest (x' :: ds2)) = length (blocks x') + length (forest ds2))%nat as E1
      by (by rewrite forest_cons, length_app, length_fmap).
    destruct (update_dangling_spec st1 b l1 d' l2 ds1 x' ds2 id nb dir eq_refl H1' Hok' H2' Hu
      (extended_not_reversed _ _ _ _ _ Hb He) Hn Hh Hcons) as [[Hno ->]|(l & x'' & _ & -> & Hg & Hlab & Hl)].
    + lia.
    + apply Forall2_length in Hds. rewrite El in Hds. rewrite !length_app in Hds, Hbr. rewrite !length_app.
      cbn [length] in *. ints.
    + eexists _, (l1 ++ d' :: l2), (ds1 ++ x' :: ds2). split; [done|].
      assert (dangling_step b (ds1 ++ x :: ds2) (ds1 ++ x' :: ds2)) as Hstep
        by (right; exists ds1, x, ds2, x', dir, id; split_and!; [done..|]; exists x';
            rewrite Hno, (filter_complement_nil _ _ Hno); split_and!; [by split|done|by rewrite Permutation_middle]).
      split; [|done]. eapply tree_ok_dangling; [done..| |done].
      apply Forall2_app; [done|by constructor].
    + eexists _, l, _. split; [done|].
      assert (dangling_step b (ds1 ++ x :: ds2) ((ds1 ++ filter (fun y => ~ parent_of b y) ds2) ++ [x''])) as Hstep
        by (right; exists ds1, x, ds2, x', dir, id; split_and!; [done..|]; exists x'';
            split_and!; [done|done|by rewrite Permutation_app_comm]).
      split; [|exact Hstep]. by eapply tree_ok_dangling.
Qed.

(** ** No branch waits for a block that is there *)

(** The parent of a dangling root is in no tree. *)
Definition settled r ds : Prop :=
  forall y, y ∈ ds -> forall x, x ∈ r :: ds -> blk_parent_hash (label y).2 ∉ hashes x.

(** A branch below the block comes before one that holds the block's parent. *)
Definition overtaken b ds : Prop :=
  exists ds1 x ds2 y, ds = ds1 ++ x :: ds2 /\ parent_of b x /\ y ∈ ds2 /\ holds_parent b y.

Lemma grown_hashes x x' new :
  (strip <$> blocks x') ≡ₚ new ++ (strip <$> blocks x) -> hashes x' ≡ₚ (blk_state_hash <$> new) ++ hashes x.
Proof.
  intros Hp. apply (fmap_Permutation blk_state_hash) in Hp. rewrite fmap_app in Hp.
  by rewrite <- !list_fmap_compose in Hp.
Qed.

Lemma forest_hashes rs h : h ∈ blk_state_hash <$> forest rs <-> exists x, x ∈ rs /\ h ∈ hashes x.
Proof.
  unfold forest, hashes. rewrite <- list_fmap_compose. split.
  - intros (y & -> & Hy)%list_elem_of_fmap. apply list_elem_of_bind in Hy as (x & Hy & Hx).
    exists x. split; [done|]. by apply (list_elem_of_fmap_2 blk_state_hash).
  - intros (x & Hx & (y & -> & Hy)%list_elem_of_fmap). apply (list_elem_of_fmap_2 (blk_state_hash ∘ strip)).
    apply list_elem_of_bind. eauto.
Qed.

Lemma settled_perm r ds ds' : ds ≡ₚ ds' -> settled r ds -> settled r ds'.
Proof. intros Hp Hs y Hy x Hx. apply (Hs y); [by rewrite Hp|by rewrite Hp]. Qed.

(** Below the block, no tree holds its parent. *)
Lemma below_not_above b x :
  Forall ok_block (blocks x) -> good 0 x -> ok_block (block_from_precomputed b 0) ->
  parent_of b x -> ~ holds_parent b x.
Proof.
  intros Hall Hg (Hb1 & Hb2 & _) Hp (p & Ep & Hpb)%list_elem_of_fmap. cbn in Hb1, Hb2.
  pose proof (root_shortest _ _ _ _ Hg Hall Hpb) as Hle. rewrite Forall_forall in Hall.
  destruct (Hall _ Hpb) as (Hp1 & _). destruct (Hall _ (label_block x)) as (_ & Hr2 & _).
  unfold parent_of in Hp. rewrite <- Hp in Hr2. rewrite Ep in Hb2. lia.
Qed.

Lemma dangling_step_settled b r ds ds' :
  Forall (fun x => Forall ok_block (blocks x) /\ good 0 x) ds -> ok_block (block_from_precomputed b 0) ->
  settled r ds -> ~ holds_parent b r -> ~ overtaken b ds -> dangling_step b ds ds' -> settled r ds'.
Proof.
  intros Hall Hb Hs Hr Hov Hstep.
  assert (previous_state_hash b <> state_hash b) as Hpb.
  { destruct Hb as (Hb1 & Hb2 & _). cbn in Hb1, Hb2. intros E. rewrite E in Hb2. lia. }
  destruct Hstep as [[Hu [id ->]]|(ds1 & x & ds2 & x' & dir & id & -> & Hu & He & x'' & Hg & Hlab & Hp)].
  - rewrite Forall_forall in Hu. intros y [Hy|Hy]%elem_of_app z Hz.
    + assert (z ∈ r :: ds \/ z = Rose (id, block_from_precomputed b 0) []) as [Hz'| ->] by set_solver.
      * by apply Hs.
      * intros E%list_elem_of_singleton. exact (proj1 (Hu y Hy) (eq_sym E)).
    + apply list_elem_of_singleton in Hy as ->. cbn [label snd].
      assert (z = r \/ z ∈ ds \/ z = Rose (id, block_from_precomputed b 0) []) as [->|[Hz'| ->]] by set_solver.
      * done.
      * by apply (Hu z Hz').
      * by intros ?%list_elem_of_singleton.
  - apply (settled_perm _ _ _ (symmetry Hp)). clear Hp. rewrite Forall_forall in Hu.
    pose proof (grown_hashes _ _ [_] (proj1 He)) as Hh1. pose proof (grown_hashes _ _ _ (proj2 Hg)) as Hh2.
    assert (forall h, h ∈ hashes x'' -> h = state_hash b \/ exists z, z ∈ ds1 ++ x :: ds2 /\ h ∈ hashes z) as Hx''.
    { intros h. rewrite Hh2, Hh1. intros [Hh|Hh]%elem_of_app.
      - apply forest_hashes in Hh as (z & Hz & Hh). apply list_elem_of_filter in Hz as [_ Hz].
        right. exists z. set_solver.
      - apply elem_of_cons in Hh as [->|Hh]; [by left|]. right. exists x. set_solver. }
    assert (forall y : rose (NodeId * Block), blk_parent_hash (label y).2 <> state_hash b ->
      (forall z, z ∈ r :: ds1 ++ x :: ds2 -> blk_parent_hash (label y).2 ∉ hashes z) ->
      forall z, z ∈ r :: x'' :: ds1 ++ filter (fun y => ~ parent_of b y) ds2 ->
        blk_parent_hash (label y).2 ∉ hashes z) as Hnew.
    { intros y Hy Hold z Hz. assert (z = x'' \/ z ∈ r :: ds1 ++ x :: ds2) as [->|Hz'].
      { apply elem_of_cons in Hz as [->|Hz]; [right; left|]. apply elem_of_cons in Hz as [->|Hz]; [by left|].
        right. apply elem_of_app in Hz as [Hz|Hz]; [set_solver|]. apply list_elem_of_filter in Hz. set_solver. }
      - intros Hz'. destruct (Hx'' _ Hz') as [?|(z & Hz1 & Hz2)]; [done|]. apply (Hold z); [by right|done].
      - by apply Hold. }
    intros y [->|Hy]%elem_of_cons.
    + rewrite Hlab. apply Hnew; clear Hnew; destruct He as (_ & _ & He); destruct dir.
      * destruct He as (Hnp & _ & ->). intros E. exact (Hnp (eq_sym E)).
      * by destruct He as (_ & ->).
      * destruct He as (_ & _ & ->). intros z Hz. apply Hs; [set_solver|done].
      * destruct He as (Hpar & ->). intros z Hz.
        assert (z = r \/ z ∈ ds1 \/ z = x \/ z ∈ ds2) as [->|[Hz'|[->|Hz']]] by set_solver.
        -- done.
        -- by apply (Hu z Hz').
        -- rewrite Forall_forall in Hall. destruct (Hall x) as [? ?]; [set_solver|].
           by apply (below_not_above b x).
        -- intros Hh. apply Hov. exists ds1, x, ds2, z. done.
    + apply Hnew.
      * apply elem_of_app in Hy as [Hy|Hy]; intros E; [exact (proj1 (Hu y Hy) (eq_sym E))|].
        apply list_elem_of_filter in Hy as [Hnp _]. exact (Hnp (eq_sym E)).
      * intros z Hz. apply Hs; [|done]. apply elem_of_app in Hy as [Hy|Hy]; [set_solver|].
        apply list_elem_of_filter in Hy. set_solver.
Qed.
End Growth.
