(* ===== verification/Frontier.v ===== *)
(** The transition frontier: the canonical root and the ledger behind it (src/rust/src/state/mod.rs), the
    handler that adds a block, and the invariant of the state under every sequence of blocks. *)

From S2P Require Import Prelude Bytes Base Command AccountDiff Account Coinbase Precomputed LedgerDiff Ledger BlockOrder Rose Branch WitnessTree Growth Pruning.

(** * The canonical root *)

Section Canonical.
Variables (len_of : StateHash -> Z) (fork_length : Z).
Context `{IdTreeSpec} `{Blake2b} `{LedgerDbSpec} `{Decimal} `{HashMapIter}.
Implicit Types (r s : rose (NodeId * Block)) (st : IndexerState) (b : PrecomputedBlock).
Notation ok_block := (consistent len_of fork_length).
Notation tree_ok := (tree_ok len_of fork_length).

(** A database, if there is one, that is in order and knows the blocks. *)
Definition stores (o : option LedgerStore) (hs : list StateHash) : Prop := forall db, o = Some db -> db_ok db /\ Forall (db_knows db) hs.
(** A database that knows as much as another. *)
Definition store_grows (o o' : option LedgerStore) : Prop := forall hs, stores o hs -> stores o' hs.

Lemma store_grows_refl o : store_grows o o.
Proof. by intros hs. Qed.
Lemma store_grows_trans o1 o2 o3 : store_grows o1 o2 -> store_grows o2 o3 -> store_grows o1 o3.
Proof. intros H1' H2' hs Hs. by apply H2', H1'. Qed.
Lemma stores_sub o hs hs' : stores o hs -> hs' ⊆ hs -> stores o hs'.
Proof. intros Hs Hsub db E. destruct (Hs db E) as [Hdb Hk]. split; [done|]. rewrite Forall_forall in *. auto. Qed.
Lemma stores_app o hs hs' : stores o hs -> stores o hs' -> stores o (hs ++ hs').
Proof. intros H1' H2' db E. destruct (H1' db E), (H2' db E). split; [done|by apply Forall_app]. Qed.

Lemma ancestor_height d r id x l i a :
  good d r -> NoDup (ids r) -> (id, x) ∈ nodes r -> ancestors (is_id id) r = Some l -> l !! i = Some a ->
  a ∈ nodes r /\ blk_height a.2 + Z.of_nat i + 1 = blk_height x.
Proof.
  intros Hg Hnd Hn El Ha. split.
  { destruct (ancestors_good _ _ _ _ Hg Hnd Hn) as (l' & El' & _ & Hsub & _).
    rewrite El in El'. injection El' as <-. apply Hsub. by eapply list_elem_of_lookup_2. }
  destruct (ancestors_path id r l i a El Ha) as (s & c & Hs & <- & Hc & Et).
  destruct (good_subtree _ _ _ Hg Hs) as (Hgs & _).
  assert (c ∈ subtrees r) as Hcr by (by eapply subtrees_trans, child_subtree).
  assert (good (blk_height (label s).2 + 1) c) as Hgc.
  { destruct s as [[i' b'] cs]. cbn [children label snd] in *. inversion Hgs as [? ? ? ? ? _ Hcs]; subst.
    rewrite Forall_forall in Hcs. by apply Hcs. }
  pose proof (nodup_subtree _ _ Hnd Hcr) as Hndc.
  destruct (ids_elem c id (ancestors_id _ _ _ Et)) as [x' Hx'].
  assert ((id, x') = (id, x)) as [= ->].
  { apply (NoDup_fmap_eq fst _ _ _ Hnd); [|done|done].
    apply nodes_subtree in Hx' as (u & Hu & E). apply nodes_subtree. exists u.
    split; [by eapply subtrees_trans|done]. }
  destruct (ancestors_good _ _ _ _ Hgc Hndc Hx') as (l' & El' & _ & _ & _ & Hlen).
  rewrite Et in El'. injection El' as <-. rewrite length_take in Hlen. apply lookup_lt_Some in Ha. lia.
Qed.

(** ** The new canonical blocks *)

(** The ancestors of the tip at depth ten and more, up to the old canonical root. *)
Definition new_canonical (old : NodeId) (l : list (NodeId * Block)) : list (NodeId * Block) :=
  (fix go (l : list (NodeId * Block)) := match l with
   | [] => []
   | n :: l => if bool_decide (n.1 <> old) then n :: go l else []
   end) (drop 9 l).

Lemma take_until_eq old (l : list (NodeId * Block)) :
  take_until old (drop 9 (l.*1)) = (new_canonical old l).*1.
Proof.
  unfold new_canonical. rewrite <- fmap_drop. induction (drop 9 l) as [|n k IH]; [done|].
  csimpl. case_bool_decide; [|done]. csimpl. by rewrite IH.
Qed.

Lemma new_canonical_sub old l : new_canonical old l ⊆ l.
Proof.
  unfold new_canonical. intros n Hn. assert (n ∈ drop 9 l) as Hd.
  { induction (drop 9 l) as [|m k IH]; [done|]. revert Hn. case_bool_decide; [|by intros ?%elem_of_nil].
    intros [->|Hn]%elem_of_cons; [left|right; auto]. }
  rewrite <- (take_drop 9 l). apply elem_of_app. by right.
Qed.

(** The state after the canonical root moved to the first of them. *)
Definition move_canonical (m : list (NodeId * Block)) st : IndexerState :=
  match m with
  | [] => st
  | n :: _ => set_canonical_root (mkTip (blk_state_hash n.2) n.1) st
  end.

Lemma get_new_canonical_blocks_spec st r l old :
  branch_ok (st_root_branch st) r -> l ⊆ nodes r ->
  ancestors (is_id (tip_node_id (st_best_tip st))) r = Some l ->
  get_new_canonical_blocks st old =
    Ok (rev ((new_canonical old l).*2), move_canonical (new_canonical old l) st).
Proof.
  intros Hok Hl El. unfold get_new_canonical_blocks.
  rewrite (ancestor_ids_spec _ _ _ _ (bo_contents _ _ Hok) El). cbn [expect mbind res_bind].
  change (Z.to_nat (saturating_sub MAINNET_CANONICAL_THRESHOLD 1)) with 9%nat. rewrite take_until_eq.
  set (m := new_canonical old l).
  assert (m ⊆ nodes r) as Hm by (intros n Hn; by apply Hl, (new_canonical_sub old)).
  assert (forall k acc st1, k ⊆ nodes r -> st_root_branch st1 = st_root_branch st ->
    foldM collect_canonical (acc, st1) (k.*1) =
    Ok (acc ++ k.*2, if bool_decide (acc = []) then move_canonical k st1 else st1)) as Hloop.
  { induction k as [|[i x] k IH]; intros acc st1 Hk E1; csimpl; cbn [foldM].
    { rewrite app_nil_r. by destruct (bool_decide _). }
    unfold collect_canonical at 1. rewrite (get_block_eq st1 r i x); [|by rewrite E1|apply Hk; left]. cbn [mbind res_bind].
    rewrite IH; [|by intros n Hn; apply Hk; right|by destruct (bool_decide _)].
    rewrite (bool_decide_false (acc ++ [x] = [])) by (by destruct acc). rewrite <- app_assoc. done. }
  rewrite (Hloop m [] st Hm eq_refl). cbn [mbind res_bind fst snd app]. by rewrite bool_decide_true.
Qed.

(** ** Ledgers *)

Definition diffs_ok (d : LedgerDiff) : Prop := Forall (fun a => diff_ok a /\ diff_storable a) (concat (ld_account_diffs d)).
Definition ledgers_ok st : Prop :=
  (ledger_wf (st_ledger st) /\ ledger_storable (st_ledger st)) /\ map_Forall (fun _ => diffs_ok) (st_diffs_map st).

Lemma canonical_diff_ok st blocks :
  map_Forall (fun _ => diffs_ok) (st_diffs_map st) -> diffs_ok (canonical_diff st blocks).
Proof.
  intros Hm. unfold canonical_diff. assert (diffs_ok ledger_diff_default) as H0' by constructor.
  revert H0'. generalize ledger_diff_default as d. induction blocks as [|x blocks IH]; intros d Hd; [done|].
  cbn [fold_left]. apply IH. destruct (st_diffs_map st !! _) as [d'|] eqn:E; [|done].
  unfold diffs_ok, ledger_diff_append. cbn [ld_account_diffs]. rewrite concat_app, Forall_app.
  split; [done|]. exact (Hm _ _ E).
Qed.

Lemma update_ledger_spec st blocks :
  ledgers_ok st ->
  exists l, update_ledger st blocks = Ok (set_ledgers l (st_diffs_map st) (st_indexer_store st) st) /\
    ledger_apply_diff (st_ledger st) (canonical_diff st blocks) = Ok l /\ ledger_wf l /\ ledger_storable l.
Proof.
  intros [[Hl Hls] Hm]. unfold update_ledger. pose proof (canonical_diff_ok st blocks Hm) as Hd. unfold diffs_ok in Hd. rewrite Forall_and in Hd. destruct Hd as [Hd Hds].
  destruct (foldM_ledger_ok _ _ Hl Hd) as (l & E & Hwf & _). pose proof (storable_apply _ _ _ Hl Hls Hd Hds E) as Hst.
  fold (ledger_apply_diff (st_ledger st) (canonical_diff st blocks)) in E.
  exists l. case_bool_decide as Hne; [by rewrite E|]. split; [|done].
  assert (l = st_ledger st) as ->; [|by destruct st].
  assert (ld_account_diffs (canonical_diff st blocks) = []) as En
    by (destruct (ld_account_diffs _); [done|by destruct Hne]).
  unfold ledger_apply_diff in E. rewrite En in E. by injection E.
Qed.

(** A block of the tree, as far as the database is concerned. *)
Definition known_block st (x : Block) : Prop := u32 (blk_blockchain_length x) /\ stores (st_indexer_store st) [blk_state_hash x].

Lemma update_ledger_store_spec st blocks :
  0 < st_ledger_cadence st -> ledger_storable (st_ledger st) -> Forall (known_block st) blocks ->
  exists db, update_ledger_store st blocks = Ok (set_ledgers (st_ledger st) (st_diffs_map st) db st) /\ store_grows (st_indexer_store st) db.
Proof.
  intros Hc Hl Hb. unfold update_ledger_store, known_block in *. destruct (st_indexer_store st) as [db|] eqn:E.
  - match goal with |- context [foldM ?g] => set (f := g) end.
    assert (Forall (fun x => u32 (blk_blockchain_length x) /\ db_knows db (blk_state_hash x)) blocks -> (blocks <> [] -> db_ok db) ->
      exists db', foldM f db blocks = Ok db' /\ (db_ok db -> db_ok db') /\ forall g, db_knows db g -> db_knows db' g) as Hloop.
    { clear E Hb. revert db. induction blocks as [|x blocks IH]; intros db Hb Hdb; [by exists db|]. cbn [foldM].
      apply Forall_cons in Hb as [[Hx Hk] Hb]. specialize (Hdb ltac:(done)).
      assert (exists db1, f db x = Ok db1 /\ db_ok db1 /\ forall g, db_knows db g -> db_knows db1 g) as (db1 & -> & Hdb1 & Hk1).
      { unfold f. rewrite (proj2 (Z.eqb_neq _ 0)) by lia. case_match; [by apply staged_ledger_added|by exists db]. }
      cbn [mbind res_bind]. destruct (IH db1) as (db2 & E2 & Hdb2 & Hk2); [|done|].
      { eapply Forall_impl; [exact Hb|]. intros y [Hy Hky]. auto. }
      exists db2. split_and!; [done|auto|auto]. }
    destruct Hloop as (db' & -> & Hdb' & Hk').
    + eapply Forall_impl; [exact Hb|]. intros x [Hx Hs]. split; [done|]. destruct (Hs db eq_refl) as [_ Hk]. by apply Forall_cons in Hk as [? _].
    + intros Hne. destruct blocks as [|x blocks]; [done|]. apply Forall_cons in Hb as [[_ Hs] _]. by destruct (Hs db eq_refl).
    + eexists. split; [done|]. intros hs Hs d [= <-]. destruct (Hs db eq_refl) as [Hdb Hk]. split; [auto|].
      eapply Forall_impl; [exact Hk|]. intros g. apply Hk'.
  - exists None. split; [|apply store_grows_refl]. f_equal. destruct st. by cbn in E; subst.
Qed.

(** The diffs dropped: those of the blocks below the old canonical root, up to the height of the new one. *)
Definition prune_diffs (canonical : Block) (xs : list Block) (m : gmap StateHash LedgerDiff)
  : gmap StateHash LedgerDiff :=
  fold_left (fun m x => if bool_decide (x <> canonical) && (blk_height x <=? blk_height canonical)
                        then delete (blk_state_hash x) m else m) xs m.

Lemma prune_diffs_sub canonical xs m : prune_diffs canonical xs m ⊆ m.
Proof.
  revert m. induction xs as [|x xs IH]; intros m; [done|]. cbn [prune_diffs fold_left].
  etrans; [apply IH|]. case_match; [apply delete_subseteq|done].
Qed.

Lemma prune_diffs_map_spec st r s c :
  branch_ok (st_root_branch st) r -> s ∈ subtrees r ->
  (tip_node_id (st_canonical_root st), c) ∈ nodes r ->
  prune_diffs_map st (label s).1 =
    Ok (set_ledgers (st_ledger st)
          (prune_diffs c ((fun x => (label x).2) <$> level_order s) (st_diffs_map st)) (st_indexer_store st) st).
Proof.
  intros Hok Hs Hc. unfold prune_diffs_map.
  rewrite (level_order_spec _ _ _ (bo_contents _ _ Hok) Hs). cbn [expect mbind res_bind].
  unfold canonical_root_block. rewrite (get_block_eq _ _ _ _ Hok Hc).
  assert (level_order s ⊆ subtrees r) as Hsub
    by (intros x; rewrite level_order_perm; by apply subtrees_trans).
  match goal with |- (m ← foldM ?g _ _; _) = _ => set (f := g) end.
  assert (forall l m, l ⊆ subtrees r ->
    foldM f m ((fun x => (label x).1) <$> l) = Ok (prune_diffs c ((fun x => (label x).2) <$> l) m)) as Hloop.
  { induction l as [|x l IH]; intros m Hl; [done|]. rewrite fmap_cons. cbn [foldM].
    assert (f m (label x).1 = Ok (prune_diffs c [(label x).2] m)) as ->.
    { unfold f. rewrite (get_block_eq st r (label x).1 (label x).2 Hok); [done|].
      apply nodes_subtree. exists x. split; [apply Hl; left|]. by destruct (label x). }
    cbn [mbind res_bind]. rewrite IH by (intros y Hy; apply Hl; by right). done. }
  by rewrite Hloop.
Qed.

(** ** The invariant of the state *)

(** The settings the indexer runs with: [PRUNE_INTERVAL_DEFAULT], [MAINNET_TRANSITION_FRONTIER_K] and
    [CANONICAL_UPDATE_THRESHOLD] satisfy them. *)
Record config_ok st : Prop := {
  co_cadence : 0 < st_ledger_cadence st;
  co_threshold : 0 <= st_canonical_update_threshold st <= MAINNET_CANONICAL_THRESHOLD;
  co_frontier : MAINNET_CANONICAL_THRESHOLD <= st_transition_frontier_length st;
  co_interval : 2 <= st_prune_interval st;
  co_bound : st_prune_interval st * st_transition_frontier_length st <= U32_MAX
}.

(** The canonical root is the tenth ancestor of the best tip, or the root of a shorter tree. *)
Definition canonical_at st r : Prop :=
  exists l, ancestors (is_id (tip_node_id (st_best_tip st))) r = Some l /\
    tip_node_id (st_canonical_root st) =
      match l !! 9%nat with Some n => n.1 | None => (label r).1 end.

Record state_inv st r ds : Prop := {
  si_tree : tree_ok st r ds;
  si_unique : NoDup (blk_state_hash <$> forest (r :: ds));
  si_ledgers : ledgers_ok st;
  si_config : config_ok st;
  si_canonical : canonical_at st r;
  si_store : stores (st_indexer_store st) (blk_state_hash <$> forest (r :: ds))
}.

(** The canonical root before it moves: the root of the tree, or ten below the tip. *)
Definition ready st r : Prop :=
  exists tip c, tip_in r (st_best_tip st) tip /\ longest_in r tip /\
    tip_in r (st_canonical_root st) c /\
    ((tip_node_id (st_canonical_root st), c) = label r \/
     blk_height c + MAINNET_CANONICAL_THRESHOLD <= blk_height tip).

Lemma new_canonical_head old l n :
  l !! 9%nat = Some n -> n.1 <> old -> exists k, new_canonical old l = n :: k.
Proof.
  intros Hn Hne. unfold new_canonical. rewrite (drop_S l n 9 Hn). rewrite bool_decide_true by done. by eexists.
Qed.

Lemma new_canonical_old old l n : l !! 9%nat = Some n -> n.1 = old -> new_canonical old l = [].
Proof. intros Hn E. unfold new_canonical. rewrite (drop_S l n 9 Hn). by rewrite bool_decide_false by (by intros []). Qed.

Lemma new_canonical_short old l : (length l <= 9)%nat -> new_canonical old l = [].
Proof. intros Hl. unfold new_canonical. by rewrite drop_ge by lia. Qed.

Lemma set_ledgers_same st :
  set_ledgers (st_ledger st) (st_diffs_map st) (st_indexer_store st) st = st.
Proof. by destruct st. Qed.

Lemma update_canonical_spec st r :
  branch_ok (st_root_branch st) r -> ledgers_ok st -> config_ok st -> ready st r -> Forall (known_block st) (blocks r) ->
  exists l lg m db,
    let new := new_canonical (tip_node_id (st_canonical_root st)) l in
    let st' := set_ledgers lg m db (move_canonical new st) in
    ancestors (is_id (tip_node_id (st_best_tip st))) r = Some l /\
    update_canonical st = Ok (rev (new.*2), st') /\
    ledger_apply_diff (st_ledger st) (canonical_diff st (rev (new.*2))) = Ok lg /\
    m ⊆ st_diffs_map st /\ ledgers_ok st' /\ canonical_at st' r /\ store_grows (st_indexer_store st) db.
Proof.
  intros Hok Hled Hcfg (tip & c & [Htip Htsh] & _ & [Hc Hcsh] & Hpos) Hkn.
  pose proof (bo_contents _ _ Hok) as Hct. pose proof (contents_nodup _ _ Hct) as Hnd.
  destruct (ancestors_good _ _ _ _ (bo_good _ _ Hok) Hnd Htip) as (l & El & _ & Hsub & _ & Hlen).
  destruct (good_node _ _ _ _ (bo_good _ _ Hok) Htip) as [Ht1 Ht2].
  destruct (good_node _ _ _ _ (bo_good _ _ Hok) Hc) as [Hc1 Hc2]. pose proof (bo_height _ _ Hok).
  destruct Hcfg as [Hcad Hthr Hfr _ _]. change MAINNET_CANONICAL_THRESHOLD with 10 in *.
  assert (label r = (tip_node_id (st_canonical_root st), c) -> blk_height c = 0) as Hroot.
  { intros E. pose proof (good_label _ (bo_good _ _ Hok)) as Hz. by rewrite E in Hz. }
  assert (blk_height c <= blk_height tip) as Hle.
  { destruct Hpos as [E|]; [|lia]. rewrite (Hroot (eq_sym E)). lia. }
  exists l. set (old := tip_node_id (st_canonical_root st)) in *. set (new := new_canonical old l).
  unfold update_canonical, is_canonical_updatable, best_tip_block, canonical_root_block.
  fold old. rewrite (get_block_eq _ _ _ _ Hok Htip), (get_block_eq _ _ _ _ Hok Hc). cbn [mbind res_bind].
  rewrite wrap32_id by ints.
  destruct (Z.leb_spec (st_canonical_update_threshold st) (blk_height tip - blk_height c)) as [Hup|Hup].
  2: { (* not updatable: the tree is shorter than the threshold *)
    assert (new = []) as En.
    { apply new_canonical_short. destruct Hpos as [E|]; [|lia]. rewrite (Hroot (eq_sym E)) in Hup. lia. }
    exists (st_ledger st), (st_diffs_map st), (st_indexer_store st). rewrite En. cbn [move_canonical rev fmap list_fmap].
    rewrite set_ledgers_same. split_and!; [done|done| |done|done| |apply store_grows_refl].
    - unfold canonical_diff, ledger_apply_diff. done.
    - exists l. split; [done|]. destruct Hpos as [E|]; [|lia].
      rewrite lookup_ge_None_2 by (rewrite (Hroot (eq_sym E)) in Hup; lia). by rewrite <- E. }
  rewrite (get_new_canonical_blocks_spec st r l old Hok Hsub El). cbn [mbind res_bind]. fold new.
  assert (canonical_at (move_canonical new st) r) as Hcan.
  { exists l. destruct (l !! 9%nat) as [n|] eqn:E9.
    - destruct (decide (n.1 = old)) as [E|Hne].
      + unfold new. rewrite (new_canonical_old old l n E9 E). split; [done|]. by rewrite E.
      + destruct (new_canonical_head old l n E9 Hne) as [k Ek]. unfold new. rewrite Ek. done.
    - apply lookup_ge_None in E9. assert (new = []) as -> by (apply new_canonical_short; lia).
      split; [done|]. cbn [move_canonical]. destruct Hpos as [E|]; [|lia]. by rewrite <- E. }
  assert (exists c', (tip_node_id (st_canonical_root (move_canonical new st)), c') ∈ nodes r) as [c' Hc'].
  { destruct new as [|[i x] k] eqn:En; [by exists c|]. exists x. cbn. apply Hsub.
    apply (new_canonical_sub old). fold new. rewrite En. left. }
  assert (st_root_branch (move_canonical new st) = st_root_branch st /\
    st_ledger (move_canonical new st) = st_ledger st /\ st_diffs_map (move_canonical new st) = st_diffs_map st /\
    st_ledger_cadence (move_canonical new st) = st_ledger_cadence st /\
    st_indexer_store (move_canonical new st) = st_indexer_store st) as (Er & Ell & Ed & Ecad & Est) by (by destruct new).
  set (st1 := move_canonical new st) in *.
  destruct (update_ledger_spec st1 (rev new.*2)) as (lg & E1 & Eapp & Hwf & Hst).
  { unfold ledgers_ok. by rewrite Ell, Ed. }
  rewrite E1. cbn [mbind res_bind]. set (st2 := set_ledgers lg _ _ st1) in *.
  destruct (update_ledger_store_spec st2 (rev new.*2)) as (db & E2 & Hgr); [cbn; by rewrite Ecad|done| |].
  { apply Forall_rev, Forall_forall. intros x Hx. unfold known_block. cbn. rewrite Est. rewrite Forall_forall in Hkn. apply Hkn.
    apply list_elem_of_fmap in Hx as ([i y] & -> & Hx). apply (node_block _ i), Hsub, (new_canonical_sub old), Hx. }
  cbn in Hgr. rewrite Est in Hgr.
  rewrite E2. cbn [mbind res_bind]. set (st3 := set_ledgers _ _ db st2) in *.
  apply nodes_subtree in Hc as (s & Hs & Els).
  pose proof (prune_diffs_map_spec st3 r s c') as E3. rewrite Els in E3. cbn [fst] in E3.
  rewrite E3; [|by cbn; rewrite Er|done|done]. cbn [mbind res_bind].
  eexists lg, _, db. split; [done|]. split; [done|]. split; [|split; [|split]].
  - rewrite <- Ell. unfold canonical_diff in Eapp |- *. by rewrite Ed in Eapp.
  - cbn. rewrite Ed. apply prune_diffs_sub.
  - split; [done|]. cbn. rewrite Ed. intros h d Hd. apply (proj2 Hled h). by eapply lookup_weaken; [|apply prune_diffs_sub].
  - split; [exact Hcan|exact Hgr].
Qed.

Lemma subtree_nodes r s : s ∈ subtrees r -> sublist (nodes s) (nodes r).
Proof.
  induction r as [a cs IH] using rose_children_ind. rewrite subtrees_Rose. intros [->|Hs]%elem_of_cons; [done|].
  apply list_elem_of_bind in Hs as (c & Hs & Hc). rewrite nodes_Rose. apply sublist_cons.
  rewrite Forall_forall in IH. etrans; [by apply (IH c Hc)|].
  apply list_elem_of_split in Hc as (l1 & l2 & ->). rewrite bind_app, bind_cons.
  apply sublist_inserts_l, sublist_inserts_r. done.
Qed.

(** The lowered tree holds a part of the blocks. *)
Lemma lowered_forest r s h ds :
  s ∈ subtrees r ->
  sublist (forest (rose_map (fun n => (n.1, lower h n.2)) s :: ds)) (forest (r :: ds)).
Proof.
  intros Hs. rewrite !forest_cons, blocks_rose_map, <- list_fmap_compose.
  apply sublist_app; [|done]. change (strip ∘ lower h) with strip.
  apply fmap_sublist. unfold blocks. by apply fmap_sublist, subtree_nodes.
Qed.

Lemma unique_node r ds id x n :
  NoDup (blk_state_hash <$> forest (r :: ds)) -> (id, x) ∈ nodes r -> n ∈ nodes r ->
  blk_state_hash n.2 = blk_state_hash x -> n = (id, x).
Proof.
  rewrite forest_cons, fmap_app. intros Hnd Hx Hn E. apply NoDup_app in Hnd as (Hnd & _).
  unfold blocks in Hnd. rewrite <- !list_fmap_compose in Hnd.
  by apply (NoDup_fmap_eq _ _ _ _ Hnd Hn Hx).
Qed.

(** A longest block is at the top. *)
Lemma longest_height r id x :
  good 0 r -> Forall ok_block (blocks r) -> (id, x) ∈ nodes r -> longest_in r x ->
  blk_height x + 1 = Z.of_nat (rose_height r).
Proof.
  intros Hg Hall Hx Hlong. destruct (good_max _ _ Hg) as ([j y] & Hy & Eh). cbn [snd] in Eh.
  destruct (good_node _ _ _ _ Hg Hx). specialize (Hlong y (node_block _ _ _ Hy)).
  pose proof (good_length _ _ _ _ _ Hg Hall (node_block _ _ _ Hx)).
  pose proof (good_length _ _ _ _ _ Hg Hall (node_block _ _ _ Hy)). lia.
Qed.

(** Pruning the root branch of a state keeps the invariant. *)
Lemma prune_state_spec st r ds tip l :
  tree_ok st r ds -> NoDup (blk_state_hash <$> forest (r :: ds)) -> config_ok st -> canonical_at st r ->
  tip_in r (st_best_tip st) tip -> longest_in r tip ->
  ancestors (is_id (tip_node_id (st_best_tip st))) r = Some l ->
  st_prune_interval st * st_transition_frontier_length st < Z.of_nat (rose_height r) ->
  exists br s,
    let k := st_transition_frontier_length st in
    let r' := rose_map (fun n => (n.1, lower (blk_height (label s).2) n.2)) s in
    let st' := set_branches br (st_dangling_branches st) st in
    prune_transition_frontier (st_root_branch st) k tip = Ok br /\
    s ∈ subtrees r /\ l !! Z.to_nat (k - 1) = Some (label s) /\
    tree_ok st' r' ds /\ canonical_at st' r'.
Proof.
  intros Hok Hnd Hcfg (l' & El' & Hcan) [Htip Htsh] Hlong El Hbig.
  rewrite El in El'. injection El' as <-.
  pose proof (to_root _ _ _ _ _ Hok) as Hbr. pose proof (bo_contents _ _ Hbr) as Hct.
  pose proof (contents_nodup _ _ Hct) as Hndi. pose proof (bo_height _ _ Hbr).
  assert (Forall ok_block (blocks r)) as Hall.
  { pose proof (to_consistent _ _ _ _ _ Hok) as Hc. apply forest_consistent in Hc. by apply Forall_cons in Hc as [? _]. }
  pose proof (longest_height r _ _ (bo_good _ _ Hbr) Hall Htip Hlong) as Hth.
  destruct (ancestors_good _ _ _ _ (bo_good _ _ Hbr) Hndi Htip) as (l' & El' & _ & _ & _ & Hlen).
  rewrite El in El'. injection El' as <-.
  destruct Hcfg as [_ _ Hk Hi Hb]. change MAINNET_CANONICAL_THRESHOLD with 10 in Hk.
  set (k := st_transition_frontier_length st) in *.
  destruct (prune_spec (st_root_branch st) r _ tip l k Hbr Htip) as (s & br & E & Hs & Hls & Es & Hok').
  { intros n Hn En. by eapply unique_node. }
  { done. } { lia. } { nia. } { nia. }
  exists br, s. split; [done|]. split; [done|]. split; [done|].
  pose proof (subtree_nodes r s Hs) as Hsub. set (h := blk_height (label s).2) in *.
  assert (forall i x, (i, x) ∈ nodes s -> (i, lower h x) ∈ nodes (rose_map (fun n => (n.1, lower h n.2)) s)) as Hmap.
  { intros i x Hx. rewrite nodes_rose_map. by apply (list_elem_of_fmap_2 (fun n => (n.1, lower h n.2)) _ _ Hx). }
  pose proof (nodup_subtree _ _ Hndi Hs) as Hnds.
  assert ((tip_node_id (st_best_tip st), tip) ∈ nodes s) as Hts.
  { destruct (ids_elem s _ (ancestors_id _ _ _ Es)) as [x Hx].
    by rewrite <- (node_unique _ _ _ _ _ Hct (elem_of_sublist _ _ _ Hx Hsub) Htip). }
  destruct (good_subtree _ _ _ (bo_good _ _ Hbr) Hs) as (Hgs & _).
  destruct (ancestors_good _ _ _ _ Hgs Hnds Hts) as (ls & Els & _ & Hlsub & _).
  rewrite Es in Els. injection Els as <-.
  destruct (lookup_lt_is_Some_2 l 9) as [n Hn]; [nia|]. rewrite Hn in Hcan.
  assert (n ∈ nodes s) as Hns.
  { apply Hlsub. apply (list_elem_of_lookup_2 _ 9). rewrite lookup_take_lt by lia. done. }
  split.
  - split; [done|apply Hok| | | |].
    + apply Forall_forall. intros x Hx. pose proof (to_consistent _ _ _ _ _ Hok) as Hc.
      rewrite Forall_forall in Hc. apply Hc. eapply elem_of_sublist; [exact Hx|by apply lowered_forest].
    + pose proof (sublist_length _ _ (lowered_forest r s h ds Hs)). pose proof (to_size _ _ _ _ _ Hok). lia.
    + exists (lower h tip). split; [split; [by apply Hmap|done]|].
      intros x Hx. rewrite blocks_rose_map in Hx. apply list_elem_of_fmap in Hx as (y & -> & Hy).
      apply block_node in Hy as [j Hy]. apply (Hlong y). apply (node_block _ j). by eapply elem_of_sublist.
    + destruct (to_canonical _ _ _ _ _ Hok) as (c & Hc & Hcsh). exists (lower h n.2).
      assert (n.2 = c) as <-.
      { rewrite Hcan in Hc. destruct n as [j x]. by apply (node_unique _ _ _ _ _ Hct (elem_of_sublist _ _ _ Hns Hsub) Hc). }
      split; [|done]. cbn. rewrite Hcan. apply Hmap. by destruct n.
  - exists ((fun n => (n.1, lower h n.2)) <$> take (Z.to_nat k) l).
    split; [by rewrite ancestors_rose_map; cbn; rewrite Es|].
    rewrite list_lookup_fmap, lookup_take_lt, Hn by lia. done.
Qed.

Lemma prune_root_branch_spec st r ds :
  tree_ok st r ds -> NoDup (blk_state_hash <$> forest (r :: ds)) -> ledgers_ok st -> config_ok st ->
  ready st r -> stores (st_indexer_store st) (blk_state_hash <$> forest (r :: ds)) ->
  exists l st' r', ancestors (is_id (tip_node_id (st_best_tip st))) r = Some l /\
    prune_root_branch st =
      Ok (rev ((new_canonical (tip_node_id (st_canonical_root st)) l).*2), st') /\
    state_inv st' r' ds /\ sublist (forest [r']) (forest [r]) /\
    (Z.of_nat (rose_height r) <= st_prune_interval st * st_transition_frontier_length st -> r' = r) /\
    store_grows (st_indexer_store st) (st_indexer_store st').
Proof.
  intros Hok Hnd Hled Hcfg Hready Hstore. pose proof (to_root _ _ _ _ _ Hok) as Hbr.
  destruct (update_canonical_spec st r Hbr Hled Hcfg Hready) as (l & lg & m & db & El & Eu & _ & _ & Hled' & Hcan & Hgr).
  { apply Forall_forall. intros x Hx. split.
    - pose proof (to_consistent _ _ _ _ _ Hok) as Hcs. apply forest_consistent, Forall_cons in Hcs as [Hcs _]. rewrite Forall_forall in Hcs. destruct (Hcs x Hx) as (_ & _ & Hu & _). ints.
    - eapply stores_sub; [exact Hstore|]. intros h ->%list_elem_of_singleton. apply forest_hashes. exists r. split; [left|]. by apply (list_elem_of_fmap_2 blk_state_hash). }
  set (new := new_canonical _ l) in *. set (st1 := set_ledgers lg m db (move_canonical new st)) in *.
  assert (st_root_branch st1 = st_root_branch st /\ st_dangling_branches st1 = st_dangling_branches st /\
    st_best_tip st1 = st_best_tip st /\ st_prune_interval st1 = st_prune_interval st /\
    st_transition_frontier_length st1 = st_transition_frontier_length st) as (E1 & E2 & E3 & E4 & E5)
    by (by unfold st1; destruct new).
  assert (config_ok st1) as Hcfg1 by (destruct Hcfg; unfold st1; by destruct new).
  destruct Hready as (tip & c & Htip & Hlong & Hc & _).
  assert (tree_ok st1 r ds) as Hok1.
  { destruct Hok as [? ? ? ? ? _]. split; rewrite ?E1, ?E2, ?E3; try done.
    unfold st1. destruct new as [|[i x] k] eqn:En; [by exists c|]. exists x. split; [|done]. cbn.
    pose proof (contents_nodup _ _ (bo_contents _ _ Hbr)) as Hndi.
    destruct (ancestors_good _ _ _ _ (bo_good _ _ Hbr) Hndi (proj1 Htip)) as (l' & El' & _ & Hsub & _).
    rewrite El in El'. injection El' as <-. apply Hsub, (new_canonical_sub (tip_node_id (st_canonical_root st))).
    fold new. rewrite En. left. }
  exists l. unfold prune_root_branch. rewrite Eu. cbn [mbind res_bind].
  pose proof (bo_height _ _ Hbr). destruct Hcfg as [_ _ Hk Hi Hb]. change MAINNET_CANONICAL_THRESHOLD with 10 in Hk.
  assert (branch_height (st_root_branch st1) = Z.of_nat (rose_height r)) as ->.
  { unfold branch_height. rewrite E1, tree_height_spec, (bo_contents _ _ Hbr). apply wrap32_id. ints. }
  rewrite E4, wrap32_id by (split; [nia|done]).
  destruct (Z.ltb_spec (st_prune_interval st * st_transition_frontier_length st) (Z.of_nat (rose_height r))) as [Hbig|Hsmall].
  - assert (best_tip_block st1 = Ok tip) as ->
      by (apply (get_block_eq _ r); [by rewrite E1|rewrite E3; apply Htip]).
    cbn [mbind res_bind].
    destruct (prune_state_spec st1 r ds tip l Hok1 Hnd Hcfg1 Hcan) as (br & s & E & Hs & _ & Hok2 & Hcan2);
      [by rewrite E3|done|by rewrite E3|by rewrite E4, E5|].
    rewrite E5 in E. rewrite E. cbn [mbind res_bind]. eexists _, _. split; [done|]. split; [done|].
    pose proof (lowered_forest r s (blk_height (label s).2) ds Hs) as Hsub.
    split; [|split; [by apply lowered_forest|split; [lia|exact Hgr]]]. split; [done| |done|by destruct Hcfg1|done|].
    + eapply sublist_NoDup; [exact Hnd|by apply fmap_sublist].
    + eapply stores_sub; [apply Hgr, Hstore|]. intros h Hh. eapply elem_of_sublist; [exact Hh|by apply fmap_sublist].
  - exists st1, r. split; [done|]. split; [done|]. split; [|split; [done|split; [done|exact Hgr]]]. split; [done..|]. by apply Hgr.
Qed.

(** ** The handler *)

(** The blocks the network sends: consistent, new, and with a ledger diff. *)
Record incoming_ok b (rs : list (rose (NodeId * Block))) : Prop := {
  io_consistent : ok_block (block_from_precomputed b 0);
  io_new : state_hash b ∉ blk_state_hash <$> forest rs;
  io_room : Z.of_nat (length (forest rs)) < U32_MAX;
  io_diff : exists d, from_precomputed b = Ok d /\ diffs_ok d
}.

(** What adding a block means for the trees, from the canonical root [old] and with at most [limit]
    levels kept: the block is too low, connected to the root, or dangling. *)
Inductive tree_step (old : NodeId) (limit : Z) b r ds :
    ExtensionType * option WitnessTreeEvent -> rose (NodeId * Block) -> list (rose (NodeId * Block)) -> Prop :=
| step_too_low :
    blockchain_length b < blk_blockchain_length (label r).2 ->
    tree_step old limit b r ds (BlockNotAdded, None) r ds
| step_root r1 r' tip l :
    blk_blockchain_length (label r).2 <= blockchain_length b -> holds_parent b r ->
    grew r r1 (strip (block_from_precomputed b 0) :: forest (filter (parent_of b) ds)) ->
    tip ∈ nodes r1 -> longest_in r1 tip.2 -> ancestors (is_id tip.1) r1 = Some l ->
    sublist (forest [r']) (forest [r1]) -> (Z.of_nat (rose_height r1) <= limit -> r' = r1) ->
    tree_step old limit b r ds
      (if decide (filter (parent_of b) ds = []) then RootSimple tip.2 else RootComplex tip.2,
       Some (UpdateBestTip tip.2 (rev ((new_canonical old l).*2))))
      r' (filter (fun x => ~ parent_of b x) ds)
| step_dangling ext ds' :
    blk_blockchain_length (label r).2 <= blockchain_length b ->
    ~ holds_parent b r -> dangling_step b ds ds' ->
    tree_step old limit b r ds (ext, None) r ds'.

(** The diff put in the map and the block counted. *)
Definition count_block st (m : gmap StateHash LedgerDiff) (n : Z) : IndexerState :=
  set_blocks_processed n (set_ledgers (st_ledger st) m (st_indexer_store st) st).

Lemma count_block_inv st r ds m n :
  state_inv st r ds -> map_Forall (fun _ => diffs_ok) m -> state_inv (count_block st m n) r ds.
Proof.
  intros [[? ? ? ? ? ?] ? [? ?] [] Hcan Hst] Hm. split; [by split|done|by split|by split|exact Hcan|exact Hst].
Qed.

Lemma grew_unique r r' b ds :
  grew r r' (strip (block_from_precomputed b 0) :: forest (filter (parent_of b) ds)) ->
  forest (r' :: filter (fun x => ~ parent_of b x) ds) ≡ₚ strip (block_from_precomputed b 0) :: forest (r :: ds).
Proof.
  intros [_ Hp]. rewrite !forest_cons, Hp, <- (forest_filter (parent_of b) ds). solve_Permutation.
Qed.

(** The canonical root is ready to move after the root branch grew. *)
Lemma canonical_ready st st' r r' new ds ds' :
  state_inv st r ds -> tree_ok st' r' ds' -> grew r r' new ->
  st_canonical_root st' = st_canonical_root st -> ready st' r'.
Proof.
  intros [Hok Hnd _ _ (l & El & Hcan) _] Hok' Hg Ec.
  destruct (to_best _ _ _ _ _ Hok) as (old & [Hold _] & _).
  destruct (to_best _ _ _ _ _ Hok') as (tip & Htip & Hlong).
  destruct (to_canonical _ _ _ _ _ Hok) as (c & Hc & Hcsh).
  exists tip, c. split; [done|]. split; [done|]. rewrite Ec.
  split; [split; [by apply Hg|done]|].
  pose proof (to_root _ _ _ _ _ Hok) as Hbr. pose proof (to_root _ _ _ _ _ Hok') as Hbr'.
  pose proof (contents_nodup _ _ (bo_contents _ _ Hbr)) as Hndi.
  assert (Forall ok_block (blocks r')) as Hall.
  { pose proof (to_consistent _ _ _ _ _ Hok') as Hcs. apply forest_consistent in Hcs. by apply Forall_cons in Hcs as [? _]. }
  destruct (l !! 9%nat) as [n|] eqn:E9.
  - right. destruct (ancestor_height 0 r _ old l 9 n (bo_good _ _ Hbr) Hndi Hold El E9) as [Hn Hh].
    assert (n.2 = c) as En.
    { rewrite Hcan in Hc. destruct n as [j x]. by apply (node_unique _ _ _ _ _ (bo_contents _ _ Hbr) Hn Hc). }
    rewrite En in Hh. change MAINNET_CANONICAL_THRESHOLD with 10.
    pose proof (node_block _ _ _ (proj1 Hg _ Hold)) as Ho'. specialize (Hlong _ Ho').
    pose proof (good_length _ _ _ _ _ (bo_good _ _ Hbr') Hall Ho').
    pose proof (good_length _ _ _ _ _ (bo_good _ _ Hbr') Hall (node_block _ _ _ (proj1 Htip))). lia.
  - left. rewrite (same_root r r' (bo_good _ _ Hbr) (bo_good _ _ Hbr') (proj1 Hg)).
    rewrite Hcan in Hc |- *. destruct (label r) as [i x] eqn:Elr. cbn [fst] in *.
    f_equal. apply (node_unique _ _ _ _ _ (bo_contents _ _ Hbr) Hc). rewrite <- Elr.
    apply nodes_subtree. exists r. split; [apply subtrees_root|done].
Qed.

(** What the rest of the handler needs of the parent's absence from the root branch. *)
Lemma out_of_bounds st r ds b tip :
  tree_ok st r ds -> ok_block (block_from_precomputed b 0) -> ok_block tip -> longest_in r tip ->
  blockchain_length b <=? wrap32 (blk_blockchain_length tip + 1) = false -> ~ holds_parent b r.
Proof.
  intros Hok (_ & Hb2 & _) (_ & _ & Ht & _) Hlong Hgt (p & Ep & Hp)%list_elem_of_fmap. cbn in Hb2.
  rewrite wrap32_id in Hgt by ints. apply Z.leb_gt in Hgt. specialize (Hlong p Hp).
  pose proof (to_consistent _ _ _ _ _ Hok) as Hc. apply forest_consistent, Forall_cons in Hc as [Hc _].
  rewrite Forall_forall in Hc. destruct (Hc p Hp) as (Hp1 & _). rewrite Ep, <- Hp1 in Hb2. lia.
Qed.

Lemma grown_unique b rs rs' :
  forest rs' ≡ₚ strip (block_from_precomputed b 0) :: forest rs ->
  state_hash b ∉ blk_state_hash <$> forest rs -> NoDup (blk_state_hash <$> forest rs) ->
  NoDup (blk_state_hash <$> forest rs').
Proof. intros -> Hn Hnd. csimpl. by constructor. Qed.

Lemma grown_stores o b rs rs' :
  forest rs' ≡ₚ strip (block_from_precomputed b 0) :: forest rs ->
  stores o (blk_state_hash <$> forest rs) -> stores o [state_hash b] -> stores o (blk_state_hash <$> forest rs').
Proof.
  intros Hp Hs Hb. eapply stores_sub; [exact (stores_app _ _ _ Hb Hs)|]. intros h Hh. by rewrite Hp in Hh.
Qed.

(** A block whose parent is not in the root branch. *)
Lemma add_dangling_step st r ds b :
  state_inv st r ds -> incoming_ok b (r :: ds) -> stores (st_indexer_store st) [state_hash b] -> ~ holds_parent b r ->
  exists ext l ds',
    (d ← dangling_extension st b;
     let '(ext, st) := d in
     match ext with
     | Some (index, id, dir) => update_dangling st b index id dir
     | None => new_dangling st b
     end) = Ok (ext, set_branches (st_root_branch st) l st) /\
    state_inv (set_branches (st_root_branch st) l st) r ds' /\ dangling_step b ds ds'.
Proof.
  intros [Hok Hnd Hled Hcfg Hcan Hst] [Hb Hnew Hroom _] Hsb Hnp.
  destruct (dangling_spec _ _ st r ds b Hok Hb Hroom) as (ext & l & ds' & E & Hok' & Hstep).
  exists ext, l, ds'. split; [done|]. split; [|done].
  assert (forest (r :: ds') ≡ₚ strip (block_from_precomputed b 0) :: forest (r :: ds)) as Hp
    by (rewrite !forest_cons, (dangling_step_forest _ _ _ Hstep); by rewrite Permutation_middle).
  split; [done|by eapply grown_unique|done|by destruct Hcfg|done|by eapply grown_stores].
Qed.

(** A block whose parent is in the root branch. *)
Lemma add_root_step st r ds b :
  state_inv st r ds -> incoming_ok b (r :: ds) -> stores (st_indexer_store st) [state_hash b] -> holds_parent b r ->
  exists tip st1 r1 l st' r',
    let ext := if decide (filter (parent_of b) ds = []) then RootSimple tip.2 else RootComplex tip.2 in
    root_extension st b = Ok (Some ext, st1) /\
    prune_root_branch st1 =
      Ok (rev ((new_canonical (tip_node_id (st_canonical_root st)) l).*2), st') /\
    state_inv st' r' (filter (fun x => ~ parent_of b x) ds) /\
    grew r r1 (strip (block_from_precomputed b 0) :: forest (filter (parent_of b) ds)) /\
    tip ∈ nodes r1 /\ longest_in r1 tip.2 /\ ancestors (is_id tip.1) r1 = Some l /\
    sublist (forest [r']) (forest [r1]) /\
    (Z.of_nat (rose_height r1) <= st_prune_interval st * st_transition_frontier_length st -> r' = r1) /\
    store_grows (st_indexer_store st) (st_indexer_store st').
Proof.
  intros Hinv [Hb Hnew Hroom _] Hsb Hp. pose proof Hinv as [Hok Hnd Hled Hcfg Hcan Hst].
  destruct (root_extension_spec _ _ st r ds b Hok Hb Hroom) as
    [[Hnp _]|(t & br & dbs & ext & r1 & tip & _ & E & Ee & Hok1 & Etip & Hg)]; [done|].
  set (st1 := set_best_tip t (set_branches br dbs st)) in *.
  assert (ready st1 r1) as Hready by (by eapply canonical_ready).
  destruct (to_best _ _ _ _ _ Hok1) as (tip' & [Ht' _] & Hlong).
  assert (tip' = tip) as ->.
  { unfold best_tip_block in Etip. rewrite (get_block_eq _ _ _ _ (to_root _ _ _ _ _ Hok1) Ht') in Etip. congruence. }
  destruct (prune_root_branch_spec st1 r1 _ Hok1) as (l & st' & r' & El & Epr & Hinv' & Hsub & Hkeep & Hgr);
    [|done|by destruct Hcfg|done|by eapply grown_stores; [apply grew_unique| |]|].
  { eapply grown_unique; [by apply grew_unique|done|done]. }
  rewrite Ee in E. exists (tip_node_id t, tip), st1, r1, l, st', r'. done.
Qed.

Lemma add_block_step st r ds b increment_blocks insert_diff :
  state_inv st r ds -> incoming_ok b (r :: ds) -> stores (st_indexer_store st) [state_hash b] ->
  exists e st' r' ds', add_block_to_witness_tree st b increment_blocks insert_diff = Ok (e, st') /\
    state_inv st' r' ds' /\
    tree_step (tip_node_id (st_canonical_root st))
      (st_prune_interval st * st_transition_frontier_length st) b r ds e r' ds' /\
    store_grows (st_indexer_store st) (st_indexer_store st').
Proof.
  intros Hinv Hin Hsb. destruct (io_diff _ _ Hin) as (d & Ed & Hd). unfold add_block_to_witness_tree.
  rewrite (root_block_eq _ _ (to_root _ _ _ _ _ (si_tree _ _ _ Hinv))). cbn [mbind res_bind].
  destruct (Z.ltb_spec (blockchain_length b) (blk_blockchain_length (label r).2)) as [Hlow|Hlow].
  { exists (BlockNotAdded, None), st, r, ds. split; [done|]. split; [done|]. split; [by constructor|apply store_grows_refl]. }
  set (m := if insert_diff then <[state_hash b := d]> (st_diffs_map st) else st_diffs_map st).
  assert ((if insert_diff then diff ← from_precomputed b;
       Ok (set_ledgers (st_ledger st) (<[state_hash b := diff]> (st_diffs_map st)) (st_indexer_store st) st)
     else Ok st) = Ok (set_ledgers (st_ledger st) m (st_indexer_store st) st)) as ->.
  { unfold m. destruct insert_diff; [by rewrite Ed|by rewrite set_ledgers_same]. }
  cbn [mbind res_bind].
  set (st1 := if increment_blocks then _ else _).
  assert (st1 = count_block st m (if increment_blocks then wrap32 (st_blocks_processed st + 1)
                                  else st_blocks_processed st)) as E1 by (by destruct st, increment_blocks).
  assert (state_inv st1 r ds) as Hinv1.
  { rewrite E1. apply count_block_inv; [done|]. pose proof (proj2 (si_ledgers _ _ _ Hinv)).
    unfold m. destruct insert_diff; [by apply map_Forall_insert_2|done]. }
  assert (st_canonical_root st1 = st_canonical_root st /\ st_indexer_store st1 = st_indexer_store st /\
    st_prune_interval st1 * st_transition_frontier_length st1 =
    st_prune_interval st * st_transition_frontier_length st) as (<- & Estore & <-) by (by rewrite E1). rewrite <- Estore in Hsb |- *.
  clearbody st1. clear E1 m. pose proof (si_tree _ _ _ Hinv1) as Hok.
  destruct (to_best _ _ _ _ _ Hok) as (tip & [Htip _] & Hlong).
  pose proof (to_root _ _ _ _ _ Hok) as Hbr.
  assert (ok_block tip) as Htc.
  { pose proof (to_consistent _ _ _ _ _ Hok) as Hc. apply forest_consistent, Forall_cons in Hc as [Hc _].
    rewrite Forall_forall in Hc. by eapply Hc, node_block. }
  unfold is_length_within_root_bounds, best_tip_block.
  rewrite (get_block_eq _ _ _ _ Hbr Htip). cbn [mbind res_bind].
  destruct (decide (holds_parent b r)) as [Hp|Hnp].
  - destruct (blockchain_length b <=? wrap32 (blk_blockchain_length tip + 1)) eqn:Ew;
      [|by destruct (out_of_bounds st1 r ds b tip Hok (io_consistent _ _ Hin) Htc Hlong Ew)].
    destruct (add_root_step st1 r ds b Hinv1 Hin Hsb Hp) as (tip' & st2 & r1 & l & st' & r' & E & Epr & Hinv' & Hg & Ht & Hl & El & Hsub & Hkeep & Hgr).
    rewrite E. cbn [mbind res_bind]. set (ext := if decide _ then RootSimple _ else _) in *.
    assert (match ext with RootSimple block | RootComplex block => Ok block | _ => Panic end = Ok tip'.2) as ->
      by (unfold ext; by destruct (decide _)).
    cbn [mbind res_bind]. rewrite Epr. cbn [mbind res_bind]. do 4 eexists. split; [done|]. split; [done|].
    split; [by eapply step_root|done].
  - assert ((if blockchain_length b <=? wrap32 (blk_blockchain_length tip + 1) then root_extension st1 b
             else Ok (None, st1)) = Ok (None, st1)) as ->.
    { destruct (_ <=? _); [|done].
      destruct (root_extension_spec _ _ st1 r ds b Hok (io_consistent _ _ Hin) (io_room _ _ Hin))
        as [[_ E]|(? & ? & ? & ? & ? & ? & Hp & _)]; [done|]. by destruct Hnp. }
    cbn [mbind res_bind].
    destruct (add_dangling_step st1 r ds b Hinv1 Hin Hsb Hnp) as (ext & l & ds' & E & Hinv' & Hstep).
    exists (ext, None), (set_branches (st_root_branch st1) l st1), r, ds'. split; [|split; [done|split; [by constructor|apply store_grows_refl]]].
    destruct (dangling_extension st1 b) as [[o st2]| |]; try done. cbn [mbind res_bind] in E |- *. by rewrite E.
Qed.
End Canonical.

(** * Properties *)

Section Properties.
Variables (len_of : StateHash -> Z) (fork_length : Z).
Context `{IdTreeSpec} `{Blake2b} `{LedgerDbSpec} `{Decimal} `{HashMapIter}.
Implicit Types (r : rose (NodeId * Block)) (st : IndexerState) (b : PrecomputedBlock).
Notation state_inv := (state_inv len_of fork_length).
Notation incoming_ok := (incoming_ok len_of fork_length).

(** ** Sequences of blocks *)

Definition add_blocks st (bs : list PrecomputedBlock) : res IndexerState :=
  foldM (fun st b => r ← add_block_to_witness_tree st b true true; Ok r.2) st bs.

Lemma tree_step_forest old limit b r ds e r' ds' :
  tree_step old limit b r ds e r' ds' ->
  submseteq (forest (r' :: ds')) (strip (block_from_precomputed b 0) :: forest (r :: ds)).
Proof.
  intros [Hlow|r1 r1' tip l Hlow Hp Hg _ _ _ Hsub _|ext ds1 Hlow Hnp Hstep].
  - by apply submseteq_cons.
  - rewrite <- (grew_unique _ _ _ _ Hg). set (k := filter _ _).
    change (r1' :: k) with ([r1'] ++ k). change (r1 :: k) with ([r1] ++ k). rewrite !forest_app.
    apply submseteq_app; [by apply sublist_submseteq|done].
  - rewrite !forest_cons, (dangling_step_forest _ _ _ Hstep). apply Permutation_submseteq. solve_Permutation.
Qed.

(** A sequence of distinct consistent blocks. *)
Record sequence_ok (bs : list PrecomputedBlock) (rs : list (rose (NodeId * Block))) : Prop := {
  so_consistent : Forall (fun b => consistent len_of fork_length (block_from_precomputed b 0)) bs;
  so_distinct : NoDup ((state_hash <$> bs) ++ (blk_state_hash <$> forest rs));
  so_room : Z.of_nat (length bs + length (forest rs)) <= U32_MAX;
  so_diffs : Forall (fun b => exists d, from_precomputed b = Ok d /\ diffs_ok d) bs
}.

Lemma sequence_head b bs rs : sequence_ok (b :: bs) rs -> incoming_ok b rs.
Proof.
  intros [Hc Hd Hr Hl]. apply Forall_cons in Hc as [Hc _]. apply Forall_cons in Hl as [Hl _].
  csimpl in Hd. apply NoDup_cons in Hd as [Hd _]. split; [done| |simpl in Hr; lia|done].
  intros Hin. apply Hd, elem_of_app. by right.
Qed.

Lemma sequence_tail b bs rs rs' :
  sequence_ok (b :: bs) rs -> submseteq (forest rs') (strip (block_from_precomputed b 0) :: forest rs) ->
  sequence_ok bs rs'.
Proof.
  intros [Hc Hd Hr Hl] Hsub. apply Forall_cons in Hc as [_ Hc]. apply Forall_cons in Hl as [_ Hl].
  split; [done| | |done].
  - assert (submseteq ((state_hash <$> bs) ++ (blk_state_hash <$> forest rs'))
      ((state_hash <$> b :: bs) ++ (blk_state_hash <$> forest rs))) as Hs.
    { csimpl. rewrite Permutation_middle. apply submseteq_skips_l. 
      apply (fmap_submseteq blk_state_hash) in Hsub. exact Hsub. }
    apply submseteq_Permutation in Hs as [k Hk]. rewrite Hk in Hd. by apply NoDup_app in Hd as [? _].
  - apply submseteq_length in Hsub. simpl in Hsub, Hr. lia.
Qed.

Lemma add_blocks_spec st r ds bs :
  state_inv st r ds -> sequence_ok bs (r :: ds) -> stores (st_indexer_store st) (state_hash <$> bs) ->
  exists st' r' ds', add_blocks st bs = Ok st' /\ state_inv st' r' ds' /\
    submseteq (forest (r' :: ds'))
      (((fun b => strip (block_from_precomputed b 0)) <$> bs) ++ forest (r :: ds)) /\
    store_grows (st_indexer_store st) (st_indexer_store st').
Proof.
  revert st r ds. induction bs as [|b bs IH]; intros st r ds Hinv Hseq Hst; [exists st, r, ds; split_and!; [done|done|done|apply store_grows_refl]|].
  destruct (add_block_step _ _ st r ds b true true Hinv (sequence_head _ _ _ Hseq))
    as (e & st1 & r1 & ds1 & E & Hinv1 & Hstep & Hgr); [eapply stores_sub; [exact Hst|]; intros h ->%list_elem_of_singleton; by left|].
  pose proof (tree_step_forest _ _ _ _ _ _ _ _ Hstep) as Hsub.
  destruct (IH st1 r1 ds1 Hinv1 (sequence_tail _ _ _ _ Hseq Hsub)) as (st' & r' & ds' & E' & Hinv' & Hsub' & Hgr');
    [apply Hgr; eapply stores_sub; [exact Hst|]; intros h Hh; by right|].
  exists st', r', ds'. unfold add_blocks in *. cbn [foldM]. rewrite E. cbn [mbind res_bind snd].
  split; [done|]. split; [done|]. split; [|by eapply store_grows_trans]. etrans; [exact Hsub'|]. csimpl.
  rewrite Permutation_middle. by apply submseteq_skips_l.
Qed.

(** The block of a genesis version. *)
Definition genesis_block_of (g : GenesisVersion) : Block :=
  mkBlock (gv_prev_hash g) (gv_state_hash g) 0 (gv_blockchain_length g) (gv_state_hash g)
    (gv_global_slot g) (gv_last_vrf_output g).

(** Settings with which pruning keeps the canonical root. *)
Record settings_ok (config : IndexerStateConfig) : Prop := {
  se_genesis : consistent len_of fork_length (genesis_block_of (cfg_genesis config));
  se_ledger : ledger_wf (cfg_genesis_ledger config) /\ ledger_storable (cfg_genesis_ledger config);
  se_cadence : 0 < cfg_ledger_cadence config;
  se_threshold : 0 <= cfg_canonical_update_threshold config <= MAINNET_CANONICAL_THRESHOLD;
  se_frontier : MAINNET_CANONICAL_THRESHOLD <= cfg_transition_frontier_length config;
  se_interval : 2 <= cfg_prune_interval config;
  se_bound : cfg_prune_interval config * cfg_transition_frontier_length config <= U32_MAX;
  se_store : db_ok (cfg_indexer_store config) /\ db_knows (cfg_indexer_store config) (gv_state_hash (cfg_genesis config))
}.

Lemma initial_inv config :
  settings_ok config ->
  exists st id, new_without_genesis_events config = Ok st /\ st_indexer_store st = Some (cfg_indexer_store config) /\
    state_inv st (Rose (id, genesis_block_of (cfg_genesis config)) []) [].
Proof.
  intros [Hg Hl Hc Ht Hf Hi Hb [Hs1 Hs2]]. unfold new_without_genesis_events, new_genesis, new_genesis_block.
  set (g := genesis_block_of (cfg_genesis config)) in *.
  destruct (insert_as_root_spec tree_new g) as (id & t & E & Ho & Hct).
  rewrite (proj1 tree_new_spec) in Hct. rewrite (proj2 tree_new_spec) in Ho.
  unfold g, genesis_block_of in E. cbn [mbind res_bind]. rewrite E. cbn [mbind res_bind fst snd].
  assert (branch_ok (mkBranch id t) (Rose (id, g) [])) as Hok.
  { split; [done|done|done|repeat constructor|cbn; ints]. }
  rewrite (root_block_eq _ _ Hok). cbn [mbind res_bind].
  eexists _, id. split; [done|]. split; [done|].
  assert ((id, g) ∈ nodes (Rose (id, g) [])) as Hin by (rewrite nodes_Rose; left).
  split.
  - split; cbn; [done|by apply Forall2_nil|by apply Forall_singleton|ints| |].
    + exists g. split; [by split|]. intros x ->%list_elem_of_singleton. apply Z.le_refl.
    + exists g. by split.
  - repeat constructor. by intros ?%elem_of_nil.
  - by split.
  - by split.
  - exists []. split; [|done]. cbn. unfold is_id. by rewrite bool_decide_true.
  - intros db [= <-]. split; [done|]. by apply Forall_singleton.
Qed.

(** From the initial state any sequence of distinct consistent blocks that the database knows is processed. *)
Lemma blocks_processed config bs :
  settings_ok config -> (forall id, sequence_ok bs [Rose (id, genesis_block_of (cfg_genesis config)) []]) ->
  Forall (db_knows (cfg_indexer_store config)) (state_hash <$> bs) ->
  exists st0 st r ds, new_without_genesis_events config = Ok st0 /\ add_blocks st0 bs = Ok st /\
    state_inv st r ds /\
    submseteq (forest (r :: ds))
      (((fun b => strip (block_from_precomputed b 0)) <$> bs) ++ [strip (genesis_block_of (cfg_genesis config))]).
Proof.
  intros Hset Hseq Hk. destruct (initial_inv config Hset) as (st0 & id & E0 & Est & Hinv).
  destruct (add_blocks_spec st0 _ _ bs Hinv (Hseq id)) as (st & r & ds & E & Hinv' & Hsub & _); [|by exists st0, st, r, ds].
  rewrite Est. intros db [= <-]. split; [apply Hset|done].
Qed.

(** The best tip and the canonical root of a well-formed state. *)
Lemma canonical_root_at st r ds :
  state_inv st r ds ->
  exists tip canonical l, best_tip_block st = Ok tip /\ canonical_root_block st = Ok canonical /\
    (forall x, x ∈ blocks r -> blk_blockchain_length x <= blk_blockchain_length tip) /\
    ancestors (is_id (tip_node_id (st_best_tip st))) r = Some l /\
    match l !! 9%nat with
    | Some n => canonical = n.2 /\ blk_height canonical = blk_height tip - MAINNET_CANONICAL_THRESHOLD
    | None => canonical = (label r).2 /\ (rose_height r < 11)%nat
    end.
Proof.
  intros [Hok Hnd _ _ (l & El & Hcan) _]. pose proof (to_root _ _ _ _ _ Hok) as Hbr.
  destruct (to_best _ _ _ _ _ Hok) as (tip & [Htip _] & Hlong).
  destruct (to_canonical _ _ _ _ _ Hok) as (c & Hc & _).
  pose proof (bo_good _ _ Hbr) as Hg. pose proof (contents_nodup _ _ (bo_contents _ _ Hbr)) as Hndi.
  exists tip, c, l. split; [by apply (get_block_eq _ r)|]. split; [by apply (get_block_eq _ r)|]. split; [done|]. split; [done|].
  assert (blk_height tip + 1 = Z.of_nat (rose_height r)) as Hh.
  { apply (longest_height len_of fork_length r (tip_node_id (st_best_tip st)) tip Hg); [|done|done].
    pose proof (to_consistent _ _ _ _ _ Hok) as Hcs. by apply forest_consistent, Forall_cons in Hcs as [? _]. }
  destruct (ancestors_good _ _ _ _ Hg Hndi Htip) as (l' & El' & _ & _ & _ & Hlen).
  rewrite El in El'. injection El' as <-. change MAINNET_CANONICAL_THRESHOLD with 10.
  destruct (l !! 9%nat) as [n|] eqn:E9.
  - destruct (ancestor_height 0 r _ tip l 9 n Hg Hndi Htip El E9) as [Hn Hhn].
    assert (c = n.2) as ->.
    { rewrite Hcan in Hc. destruct n as [j x]. symmetry. by apply (node_unique _ _ _ _ _ (bo_contents _ _ Hbr) Hn Hc). }
    split; [done|]. lia.
  - apply lookup_ge_None in E9. split; [|lia]. rewrite Hcan in Hc. symmetry.
    apply (node_unique _ r (label r).1 _ _ (bo_contents _ _ Hbr)); [|done].
    apply nodes_subtree. exists r. split; [apply subtrees_root|]. by destruct (label r).
Qed.

(** A block that overtakes none leaves no branch waiting for a block that is there. *)
Lemma connections_step st r ds b increment_blocks insert_diff :
  state_inv st r ds -> incoming_ok b (r :: ds) -> stores (st_indexer_store st) [state_hash b] -> settled r ds -> ~ overtaken b ds ->
  exists e st' r' ds', add_block_to_witness_tree st b increment_blocks insert_diff = Ok (e, st') /\
    state_inv st' r' ds' /\ settled r' ds' /\ store_grows (st_indexer_store st) (st_indexer_store st') /\
    submseteq (forest (r' :: ds')) (strip (block_from_precomputed b 0) :: forest (r :: ds)).
Proof.
  intros Hinv Hin Hsb Hs Hov.
  destruct (add_block_step _ _ st r ds b increment_blocks insert_diff Hinv Hin Hsb)
    as (e & st' & r' & ds' & E & Hinv' & Hstep & Hgr).
  exists e, st', r', ds'. split; [done|]. split; [done|]. split; [|split; [done|by eapply tree_step_forest]].
  destruct Hstep as [Hlow|r1 r1' tip l Hlow Hp Hg _ _ _ Hsub _|ext ds1 Hlow Hnp Hstep]; [done| |].
  - intros y Hy x Hx. apply list_elem_of_filter in Hy as [Hny Hy].
    apply elem_of_cons in Hx as [->|Hx]; [|apply list_elem_of_filter in Hx as [_ Hx]; apply Hs; [done|by right]].
    intros Hh. assert (blk_parent_hash (label y).2 ∈ hashes r1) as Hh1.
    { assert (blk_parent_hash (label y).2 ∈ blk_state_hash <$> forest [r1']) as Hf
        by (apply forest_hashes; exists r1'; split; [left|done]).
      eapply elem_of_sublist in Hf; [|by apply fmap_sublist]. 
      apply forest_hashes in Hf as (z & Hz & Hf). by apply list_elem_of_singleton in Hz as ->. }
    rewrite (grown_hashes _ _ _ (proj2 Hg)) in Hh1. csimpl in Hh1.
    apply elem_of_cons in Hh1 as [E1|Hh1]; [by apply Hny|]. apply elem_of_app in Hh1 as [Hh1|Hh1].
    + apply forest_hashes in Hh1 as (z & Hz & Hh1). apply list_elem_of_filter in Hz as [_ Hz].
      apply (Hs y Hy z); [by right|done].
    + apply (Hs y Hy r); [left|done].
  - eapply (dangling_step_settled len_of fork_length); [|apply Hin|exact Hs|done|exact Hov|exact Hstep].
    pose proof (si_tree _ _ _ _ _ Hinv) as Hok. apply Forall_forall. intros x Hx. split.
    + pose proof (to_consistent _ _ _ _ _ Hok) as Hc. apply forest_consistent in Hc. rewrite Forall_forall in Hc.
      apply Hc. by right.
    + apply list_elem_of_lookup in Hx as [i Hi].
      destruct (Forall2_lookup_r _ _ _ _ _ (to_dangling _ _ _ _ _ Hok) Hi) as (d & _ & Hd). apply Hd.
Qed.

(** A dangling branch whose root has no parent among the blocks to come stays one. *)
Lemma dangling_root_kept old limit b r ds e r' ds' y :
  tree_step old limit b r ds e r' ds' -> y ∈ ds -> ~ parent_of b y -> exists y', y' ∈ ds' /\ (label y').2 = (label y).2.
Proof.
  intros Hstep Hy Hb. destruct Hstep as [_|r1 r1' tip l _ _ _ _ _ _ _ _|ext ds1 _ _ Hstep]; [by exists y| |].
  - exists y. split; [|done]. by apply list_elem_of_filter.
  - destruct Hstep as [[_ [id ->]]|(d1 & x & d2 & x' & dir & id & -> & _ & (_ & _ & He) & x'' & _ & Hl & Hp)].
    + exists y. split; [|done]. apply elem_of_app. by left.
    + apply elem_of_app in Hy as [Hy|[->|Hy]%elem_of_cons].
      * exists y. split; [|done]. rewrite Hp. right. apply elem_of_app. by left.
      * exists x''. split; [rewrite Hp; by left|]. destruct dir; [|by destruct He]. destruct He as (_ & _ & E). congruence.
      * exists y. split; [|done]. rewrite Hp. right. apply elem_of_app. right. by apply list_elem_of_filter.
Qed.

Lemma stranded_blocks st r ds y bs :
  state_inv st r ds -> sequence_ok bs (r :: ds) -> stores (st_indexer_store st) (state_hash <$> bs) ->
  y ∈ ds -> Forall (fun b => ~ parent_of b y) bs ->
  exists st' r' ds' y', add_blocks st bs = Ok st' /\ state_inv st' r' ds' /\ y' ∈ ds' /\ (label y').2 = (label y).2.
Proof.
  revert st r ds y. induction bs as [|b bs IH]; intros st r ds y Hinv Hseq Hst Hy Hb; [by exists st, r, ds, y|].
  apply Forall_cons in Hb as [Hb Hbs].
  destruct (add_block_step _ _ st r ds b true true Hinv (sequence_head _ _ _ Hseq))
    as (e & st1 & r1 & ds1 & E & Hinv1 & Hstep & Hgr); [eapply stores_sub; [exact Hst|]; intros h ->%list_elem_of_singleton; by left|].
  destruct (dangling_root_kept _ _ _ _ _ _ _ _ _ Hstep Hy Hb) as (y1 & Hy1 & El).
  destruct (IH st1 r1 ds1 y1 Hinv1 (sequence_tail _ _ _ _ Hseq (tree_step_forest _ _ _ _ _ _ _ _ Hstep))) as (st' & r' & ds' & y' & E' & Hinv' & Hy' & El');
    [apply Hgr; eapply stores_sub; [exact Hst|]; intros h Hh; by right|done| |].
  { eapply Forall_impl; [exact Hbs|]. unfold parent_of. by rewrite El. }
  exists st', r', ds', y'. unfold add_blocks in *. cbn [foldM]. rewrite E. cbn [mbind res_bind snd]. split_and!; [done|done|done|congruence].
Qed.
End Properties.
