(* ===== verification/ColumnFamilies.v ===== *)
(** The column families of the database (src/rust/src/store/column_families_impl.rs): one accessor per family,
    as the name its handle is looked up by, and the families the database is opened with
    (src/rust/src/store/mod.rs). *)

From S2P Require Import Prelude.

(** * Accessors *)

Definition blocks_cf : string := "blocks".
Definition blocks_state_hash_cf : string := "blocks-state-hash".
Definition block_version_cf : string := "blocks-version".
Definition blocks_global_slot_sort_cf : string := "blocks-global-slot-sort".
Definition blocks_height_sort_cf : string := "blocks-height-sort".
Definition block_height_to_global_slots_cf : string := "blocks-height-to-slots".
Definition block_global_slot_to_heights_cf : string := "blocks-slot-to-heights".
Definition block_date_time_cf : string := "blocks-date-time".
Definition block_parent_hash_cf : string := "blocks-parent-hash".
Definition block_height_cf : string := "blocks-height".
Definition block_global_slot_cf : string := "blocks-global-slot".
Definition block_epoch_cf : string := "blocks-epoch".
Definition block_genesis_state_hash_cf : string := "blocks-genesis-hash".
Definition block_creator_cf : string := "blocks-creator".
Definition block_coinbase_receiver_cf : string := "blocks-coinbase-receiver".
Definition block_coinbase_height_sort_cf : string := "coinbase-receiver-height-sort".
Definition block_coinbase_slot_sort_cf : string := "coinbase-receiver-slot-sort".
Definition block_creator_height_sort_cf : string := "block-creator-height-sort".
Definition block_creator_slot_sort_cf : string := "block-creator-slot-sort".
Definition blocks_at_height_cf : string := "blocks-at-length".
Definition blocks_at_global_slot_cf : string := "blocks-at-slot".
Definition block_comparison_cf : string := "blocks-comparison".
Definition block_epoch_slots_produced_cf : string := "block-epoch-slots-produced".
Definition block_pk_epoch_slots_produced_cf : string := "block-pk-epoch-slots-produced".
Definition blocks_pk_count_cf : string := "blocks-pk-count".
Definition user_commands_pk_cf : string := "user-commands-pk".
Definition user_commands_pk_num_cf : string := "user-commands-pk-num".
Definition user_command_state_hashes_cf : string := "user-command-state-hashes".
Definition user_commands_cf : string := "user-commands".
Definition user_commands_per_block_cf : string := "user-commands-block".
Definition user_commands_block_order_cf : string := "user-commands-block-order".
Definition user_commands_num_containing_blocks_cf : string := "user-commands-num-blocks".
Definition user_commands_height_sort_cf : string := "user-commands-height-sort".
Definition user_commands_slot_sort_cf : string := "user-commands-slot-sort".
Definition user_commands_txn_hash_to_block_height_cf : string := "user-commands-to-block-height".
Definition user_commands_txn_hash_to_global_slot_cf : string := "user-commands-to-global-slot".
Definition txn_from_slot_sort_cf : string := "txn-from-slot-sort".
Definition txn_from_height_sort_cf : string := "txn-from-height-sort".
Definition txn_to_slot_sort_cf : string := "txn-to-slot-sort".
Definition txn_to_height_sort_cf : string := "txn-to-height-sort".
Definition zkapp_actions_cf : string := "zkapp-actions".
Definition zkapp_actions_pk_num_cf : string := "zkapp-actions-pk-num".
Definition zkapp_events_cf : string := "zkapp-events".
Definition zkapp_events_pk_num_cf : string := "zkapp-events-pk-num".
Definition internal_commands_cf : string := "internal-commands".
Definition internal_commands_block_num_cf : string := "internal-commands-block-num".
Definition internal_commands_pk_cf : string := "internal-commands-pk".
Definition internal_commands_pk_num_cf : string := "internal-commands-pk-num".
Definition internal_commands_block_height_sort_cf : string := "internal-commands-block-height-sort".
Definition internal_commands_global_slot_sort_cf : string := "internal-commands-global-slot-sort".
Definition internal_commands_pk_block_height_sort_cf : string := "internal-commands-pk-block-height-sort".
Definition internal_commands_pk_global_slot_sort_cf : string := "internal-commands-pk-global-slot-sort".
Definition canonicity_length_cf : string := "canonicity-length".
Definition canonicity_slot_cf : string := "canonicity-slot".
Definition best_ledger_accounts_cf : string := "best-ledger-accounts".
Definition best_ledger_accounts_balance_sort_cf : string := "best-ledger-account-balance-sort".
Definition zkapp_best_ledger_accounts_cf : string := "zkapp-best-ledger-accounts".
Definition zkapp_best_ledger_accounts_balance_sort_cf : string := "zkapp-best-ledger-account-balance-sort".
Definition best_ledger_accounts_num_delegations_cf : string := "best-ledger-account-num-delegations".
Definition best_ledger_accounts_delegations_cf : string := "best-ledger-account-delegations".
Definition staged_ledger_accounts_cf : string := "staged-ledger-accounts".
Definition staged_ledger_account_balance_sort_cf : string := "staged-ledger-account-balance-sort".
Definition staged_ledger_account_num_delegations_cf : string := "staged-ledger-account-num-delegations".
Definition staged_ledger_account_delegations_cf : string := "staged-ledger-account-delegations".
Definition staged_ledger_hash_to_block_cf : string := "staged-ledger-hash-to-block".
Definition staged_ledgers_persisted_cf : string := "staged-ledger-persisted".
Definition staged_ledger_accounts_min_block_cf : string := "staged-ledger-accounts-min-block".
Definition block_ledger_diff_cf : string := "blocks-ledger-diff".
Definition block_staged_ledger_hash_cf : string := "blocks-staged-ledger-hash".
Definition staking_ledger_accounts_cf : string := "staking-ledger-accounts".
Definition staking_delegations_cf : string := "staking-ledger-delegations".
Definition staking_ledger_persisted_cf : string := "staking-ledger-persisted".
Definition staking_ledger_epoch_to_hash_cf : string := "staking-ledger-epoch-to-hash".
Definition staking_ledger_hash_to_epoch_cf : string := "staking-ledger-hash-to-epoch".
Definition staking_ledger_genesis_hash_cf : string := "staking-ledger-genesis-hash".
Definition staking_ledger_total_currency_cf : string := "staking-ledger-total-currency".
Definition staking_ledger_balance_sort_cf : string := "staking-ledger-balance-sort".
Definition staking_ledger_stake_sort_cf : string := "staking-ledger-stake-sort".
Definition staking_ledger_accounts_count_epoch_cf : string := "staking-ledger-accounts-count-epoch".
Definition snarks_cf : string := "snarks".
Definition snarks_prover_cf : string := "snarks-prover".
Definition snark_prover_fees_cf : string := "snark-prover-fees".
Definition snark_prover_fees_epoch_cf : string := "snark-prover-fees-epoch".
Definition snark_prover_fees_historical_cf : string := "snark-prover-fees-historical".
Definition snark_prover_fees_epoch_historical_cf : string := "snark-prover-fees-epoch-historical".
Definition snark_prover_total_fees_sort_cf : string := "snark-prover-total-fees-sort".
Definition snark_prover_total_fees_epoch_sort_cf : string := "snark-prover-total-fees-epoch-sort".
Definition snark_prover_max_fee_cf : string := "snark-prover-max-fee".
Definition snark_prover_max_fee_epoch_cf : string := "snark-prover-max-fee-epoch".
Definition snark_prover_max_fee_sort_cf : string := "snark-prover-max-fee-sort".
Definition snark_prover_max_fee_epoch_sort_cf : string := "snark-prover-max-fee-epoch-sort".
Definition snark_prover_min_fee_cf : string := "snark-prover-min-fee".
Definition snark_prover_min_fee_epoch_cf : string := "snark-prover-min-fee-epoch".
Definition snark_prover_min_fee_sort_cf : string := "snark-prover-min-fee-sort".
Definition snark_prover_min_fee_epoch_sort_cf : string := "snark-prover-min-fee-epoch-sort".
Definition snark_prover_block_height_sort_cf : string := "snark-prover-block-height-sort".
Definition snark_prover_global_slot_sort_cf : string := "snark-prover-global-slot-sort".
Definition snark_work_fees_block_height_sort_cf : string := "snark-work-fees-block-height-sort".
Definition snark_work_fees_global_slot_sort_cf : string := "snark-work-fees-global-slot-sort".
Definition username_pk_num_cf : string := "username-pk-num".
Definition username_pk_index_cf : string := "username-pk-index".
Definition usernames_per_block_cf : string := "usernames-per-block".
Definition chain_id_to_network_cf : string := "chain-id-to-network".
Definition events_cf : string := "events".
Definition block_production_pk_epoch_cf : string := "block-production-pk-epoch".
Definition block_production_pk_canonical_epoch_cf : string := "block-production-pk-canonical-epoch".
Definition block_production_pk_canonical_epoch_sort_cf : string := "block-production-pk-canonical-epoch-sort".
Definition block_production_pk_supercharged_epoch_cf : string := "block-production-pk-supercharged-epoch".
Definition block_production_pk_total_cf : string := "block-production-pk-total".
Definition block_production_pk_canonical_total_cf : string := "block-production-pk-canonical-total".
Definition block_production_pk_supercharged_total_cf : string := "block-production-pk-supercharged-total".
Definition block_production_epoch_cf : string := "block-production-epoch".
Definition block_production_canonical_epoch_cf : string := "block-production-canonical-epoch".
Definition block_production_supercharged_epoch_cf : string := "block-production-supercharged-epoch".
Definition block_snark_counts_cf : string := "block-snark-counts".
Definition block_user_command_counts_cf : string := "block-user-command-counts".
Definition block_internal_command_counts_cf : string := "block-internal-command-counts".
Definition block_epoch_slots_produced_count_cf : string := "block-epoch-slots-produced-count".
Definition block_pk_epoch_slots_produced_count_cf : string := "block-pk-epoch-slots-produced-count".
Definition block_pk_epoch_slots_produced_count_sort_cf : string := "block-pk-epoch-slots-produced-count-sort".
Definition user_commands_pk_epoch_cf : string := "user-commands-pk-epoch".
Definition user_commands_pk_total_cf : string := "user-commands-pk-total".
Definition user_commands_epoch_cf : string := "user-commands-epoch".
Definition internal_commands_pk_epoch_cf : string := "internal-commands-pk-epoch".
Definition internal_commands_pk_total_cf : string := "internal-commands-pk-total".
Definition internal_commands_epoch_cf : string := "internal-commands-epoch".
Definition snarks_pk_epoch_cf : string := "snarks-pk-epoch".
Definition snarks_pk_total_cf : string := "snarks-pk-total".
Definition snarks_epoch_cf : string := "snarks-epoch".

(** Every accessor, in the order of the source. *)
Definition accessors : list string :=
  [blocks_cf; blocks_state_hash_cf; block_version_cf;
   blocks_global_slot_sort_cf; blocks_height_sort_cf; block_height_to_global_slots_cf;
   block_global_slot_to_heights_cf; block_date_time_cf; block_parent_hash_cf;
   block_height_cf; block_global_slot_cf; block_epoch_cf;
   block_genesis_state_hash_cf; block_creator_cf; block_coinbase_receiver_cf;
   block_coinbase_height_sort_cf; block_coinbase_slot_sort_cf; block_creator_height_sort_cf;
   block_creator_slot_sort_cf; blocks_at_height_cf; blocks_at_global_slot_cf;
   block_comparison_cf; block_epoch_slots_produced_cf; block_pk_epoch_slots_produced_cf;
   blocks_pk_count_cf; user_commands_pk_cf; user_commands_pk_num_cf;
   user_command_state_hashes_cf; user_commands_cf; user_commands_per_block_cf;
   user_commands_block_order_cf; user_commands_num_containing_blocks_cf; user_commands_height_sort_cf;
   user_commands_slot_sort_cf; user_commands_txn_hash_to_block_height_cf; user_commands_txn_hash_to_global_slot_cf;
   txn_from_slot_sort_cf; txn_from_height_sort_cf; txn_to_slot_sort_cf;
   txn_to_height_sort_cf; zkapp_actions_cf; zkapp_actions_pk_num_cf;
   zkapp_events_cf; zkapp_events_pk_num_cf; internal_commands_cf;
   internal_commands_block_num_cf; internal_commands_pk_cf; internal_commands_pk_num_cf;
   internal_commands_block_height_sort_cf; internal_commands_global_slot_sort_cf; internal_commands_pk_block_height_sort_cf;
   internal_commands_pk_global_slot_sort_cf; canonicity_length_cf; canonicity_slot_cf;
   best_ledger_accounts_cf; best_ledger_accounts_balance_sort_cf; zkapp_best_ledger_accounts_cf;
   zkapp_best_ledger_accounts_balance_sort_cf; best_ledger_accounts_num_delegations_cf; best_ledger_accounts_delegations_cf;
   staged_ledger_accounts_cf; staged_ledger_account_balance_sort_cf; staged_ledger_account_num_delegations_cf;
   staged_ledger_account_delegations_cf; staged_ledger_hash_to_block_cf; staged_ledgers_persisted_cf;
   staged_ledger_accounts_min_block_cf; block_ledger_diff_cf; block_staged_ledger_hash_cf;
   staking_ledger_accounts_cf; staking_delegations_cf; staking_ledger_persisted_cf;
   staking_ledger_epoch_to_hash_cf; staking_ledger_hash_to_epoch_cf; staking_ledger_genesis_hash_cf;
   staking_ledger_total_currency_cf; staking_ledger_balance_sort_cf; staking_ledger_stake_sort_cf;
   staking_ledger_accounts_count_epoch_cf; snarks_cf; snarks_prover_cf;
   snark_prover_fees_cf; snark_prover_fees_epoch_cf; snark_prover_fees_historical_cf;
   snark_prover_fees_epoch_historical_cf; snark_prover_total_fees_sort_cf; snark_prover_total_fees_epoch_sort_cf;
   snark_prover_max_fee_cf; snark_prover_max_fee_epoch_cf; snark_prover_max_fee_sort_cf;
   snark_prover_max_fee_epoch_sort_cf; snark_prover_min_fee_cf; snark_prover_min_fee_epoch_cf;
   snark_prover_min_fee_sort_cf; snark_prover_min_fee_epoch_sort_cf; snark_prover_block_height_sort_cf;
   snark_prover_global_slot_sort_cf; snark_work_fees_block_height_sort_cf; snark_work_fees_global_slot_sort_cf;
   username_pk_num_cf; username_pk_index_cf; usernames_per_block_cf;
   chain_id_to_network_cf; events_cf; block_production_pk_epoch_cf;
   block_production_pk_canonical_epoch_cf; block_production_pk_canonical_epoch_sort_cf; block_production_pk_supercharged_epoch_cf;
   block_production_pk_total_cf; block_production_pk_canonical_total_cf; block_production_pk_supercharged_total_cf;
   block_production_epoch_cf; block_production_canonical_epoch_cf; block_production_supercharged_epoch_cf;
   block_snark_counts_cf; block_user_command_counts_cf; block_internal_command_counts_cf;
   block_epoch_slots_produced_count_cf; block_pk_epoch_slots_produced_count_cf; block_pk_epoch_slots_produced_count_sort_cf;
   user_commands_pk_epoch_cf; user_commands_pk_total_cf; user_commands_epoch_cf;
   internal_commands_pk_epoch_cf; internal_commands_pk_total_cf; internal_commands_epoch_cf;
   snarks_pk_epoch_cf; snarks_pk_total_cf; snarks_epoch_cf].

(** * The families opened *)

Definition COLUMN_FAMILIES : list string :=
  ["blocks"; "blocks-state-hash"; "blocks-version";
   "blocks-at-length"; "blocks-at-slot"; "blocks-height";
   "blocks-global-slot"; "blocks-parent-hash"; "blocks-date-time";
   "blocks-epoch"; "blocks-genesis-hash"; "blocks-height-to-slots";
   "blocks-slot-to-heights"; "blocks-height-sort"; "blocks-global-slot-sort";
   "blocks-comparison"; "blocks-coinbase-receiver"; "blocks-creator";
   "block-creator-height-sort"; "block-creator-slot-sort"; "coinbase-receiver-height-sort";
   "coinbase-receiver-slot-sort"; "block-epoch-slots-produced"; "block-pk-epoch-slots-produced";
   "blocks-pk-count"; "canonicity-length"; "canonicity-slot";
   "user-commands"; "user-commands-pk"; "user-commands-pk-num";
   "user-commands-block"; "user-commands-block-order"; "user-commands-num-blocks";
   "user-commands-slot-sort"; "user-commands-height-sort"; "user-commands-to-global-slot";
   "user-commands-to-block-height"; "user-command-state-hashes"; "txn-from-slot-sort";
   "txn-from-height-sort"; "txn-to-slot-sort"; "txn-to-height-sort";
   "zkapp-actions"; "zkapp-actions-pk-num"; "zkapp-events";
   "zkapp-events-pk-num"; "internal-commands"; "internal-commands-block-num";
   "internal-commands-global-slot-sort"; "internal-commands-block-height-sort"; "internal-commands-pk";
   "internal-commands-pk-num"; "internal-commands-pk-global-slot-sort"; "internal-commands-pk-block-height-sort";
   "snarks"; "snarks-prover"; "snark-prover-fees";
   "snark-prover-fees-epoch"; "snark-prover-fees-historical"; "snark-prover-fees-epoch-historical";
   "snark-prover-total-fees-sort"; "snark-prover-total-fees-epoch-sort"; "snark-prover-max-fee";
   "snark-prover-max-fee-epoch"; "snark-prover-max-fee-sort"; "snark-prover-max-fee-epoch-sort";
   "snark-prover-min-fee"; "snark-prover-min-fee-epoch"; "snark-prover-min-fee-sort";
   "snark-prover-min-fee-epoch-sort"; "snark-prover-block-height-sort"; "snark-prover-global-slot-sort";
   "snark-work-fees-block-height-sort"; "snark-work-fees-global-slot-sort"; "events";
   "best-ledger-accounts"; "best-ledger-account-balance-sort"; "best-ledger-account-num-delegations";
   "best-ledger-account-delegations"; "zkapp-best-ledger-accounts"; "zkapp-best-ledger-account-balance-sort";
   "staged-ledger-accounts"; "staged-ledger-account-balance-sort"; "staged-ledger-account-num-delegations";
   "staged-ledger-account-delegations"; "staged-ledger-hash-to-block"; "staged-ledger-persisted";
   "staged-ledger-accounts-min-block"; "blocks-ledger-diff"; "blocks-staged-ledger-hash";
   "staking-ledger-accounts"; "staking-ledger-delegations"; "staking-ledger-persisted";
   "staking-ledger-epoch-to-hash"; "staking-ledger-hash-to-epoch"; "staking-ledger-genesis-hash";
   "staking-ledger-total-currency"; "staking-ledger-balance-sort"; "staking-ledger-stake-sort";
   "staking-ledger-accounts-count-epoch"; "chain-id-to-network"; "username-pk-num";
   "username-pk-index"; "usernames-per-block"; "block-production-pk-epoch";
   "block-production-pk-canonical-epoch"; "block-production-pk-canonical-epoch-sort"; "block-production-pk-supercharged-epoch";
   "block-production-pk-total"; "block-production-pk-canonical-total"; "block-production-pk-supercharged-total";
   "block-production-epoch"; "block-production-canonical-epoch"; "block-production-supercharged-epoch";
   "block-snark-counts"; "block-user-command-counts"; "block-internal-command-counts";
   "block-epoch-slots-produced-count"; "block-pk-epoch-slots-produced-count"; "block-pk-epoch-slots-produced-count-sort";
   "user-commands-epoch"; "user-commands-pk-epoch"; "user-commands-pk-total";
   "internal-commands-epoch"; "internal-commands-pk-epoch"; "internal-commands-pk-total";
   "snarks-epoch"; "snarks-pk-epoch"; "snarks-pk-total"].

(** [cf_handle] with [expect]: the handle of a family that was opened. *)
Definition cf_handle (name : string) : res string :=
  if decide (name ∈ COLUMN_FAMILIES) then Ok name else Panic.

(** * Lemmas *)

Lemma nodup_decided (l : list string) : bool_decide (NoDup l) = true -> NoDup l.
Proof. apply bool_decide_eq_true_1. Qed.

(** Every accessor finds its column family among those the database was opened with, so none panics; no two
    accessors share a family, and every family opened has its accessor. *)
Theorem column_families_disjoint :
  Forall (fun cf => cf_handle cf = Ok cf) accessors /\ NoDup accessors /\ accessors ≡ₚ COLUMN_FAMILIES.
Proof.
  assert (NoDup accessors) as Hnd by (apply nodup_decided; vm_compute; reflexivity).
  split; [|split; [done|]].
  - apply Forall_forall. intros cf Hcf. unfold cf_handle. rewrite decide_True; [done|].
    revert cf Hcf. apply Forall_forall. apply (bool_decide_eq_true_1 (Forall (fun cf => cf ∈ COLUMN_FAMILIES) accessors)).
    vm_compute. reflexivity.
  - apply NoDup_Permutation; [done|apply nodup_decided; vm_compute; reflexivity|]. intros cf. split; revert cf.
    + apply Forall_forall. apply (bool_decide_eq_true_1 (Forall (fun cf => cf ∈ COLUMN_FAMILIES) accessors)).
      vm_compute. reflexivity.
    + apply Forall_forall. apply (bool_decide_eq_true_1 (Forall (fun cf => cf ∈ accessors) COLUMN_FAMILIES)).
      vm_compute. reflexivity.
Qed.
