(* ===== verification/Db.v ===== *)
(** The key-value database under the stores: the speedb crate as an interface with the laws of an ordered map per column
    family, write batches, and JSON values.  A store operation either writes to the database or
    adds to a batch that is written later; what it reads does not see its own batch. *)

From S2P Require Import Prelude Bytes Base StoreKeys.

(** * The database *)

(** Reads and writes do not fail. *)
Class Speedb := {
  Db : Type;
  cf_get : Db -> string -> list Z -> option (list Z);
  cf_put : string -> list Z -> list Z -> Db -> Db;
  cf_delete : string -> list Z -> Db -> Db;
  (** the entries of a family in the order of the iterator *)
  cf_entries : Db -> string -> list (list Z * list Z)
}.

Definition key_lt (a b : list Z * list Z) : Prop := lex_compare a.1 b.1 = Lt.

Class SpeedbSpec `{Speedb} := {
  cf_get_put cf k v db cf' k' :
    cf_get (cf_put cf k v db) cf' k' = if decide ((cf', k') = (cf, k)) then Some v else cf_get db cf' k';
  cf_get_delete cf k db cf' k' :
    cf_get (cf_delete cf k db) cf' k' = if decide ((cf', k') = (cf, k)) then None else cf_get db cf' k';
  cf_entries_get db cf k v : (k, v) ∈ cf_entries db cf <-> cf_get db cf k = Some v;
  cf_entries_sorted db cf : StronglySorted key_lt (cf_entries db cf)
}.

(** The family of [get], [put] and [delete] without a family. *)
Definition default_cf : string := "default".

(** Values serialised with serde_json. *)
Class Json (A : Type) := { to_json : A -> list Z; from_json : list Z -> res A }.
Class JsonSpec (A : Type) `{Json A} := {
  json_roundtrip a : from_json (to_json a) = Ok a;
  (** a value that cannot be read is an error *)
  json_no_panic l : from_json l <> Panic
}.

Inductive Direction := Forward | Reverse.

Inductive IteratorMode :=
| IterStart
| IterEnd
| IterFromForward (key : list Z)
| IterFromReverse (key : list Z).

Section Ops.
Context `{Speedb}.

(** Keys at or above, and at or below, the start of an iterator. *)
Definition key_geb (k : list Z) (e : list Z * list Z) : bool :=
  match lex_compare e.1 k with Lt => false | _ => true end.
Definition key_leb (k : list Z) (e : list Z * list Z) : bool :=
  match lex_compare e.1 k with Gt => false | _ => true end.

Definition iterator_cf (db : Db) (cf : string) (mode : IteratorMode) : list (list Z * list Z) :=
  match mode with
  | IterStart => cf_entries db cf
  | IterEnd => rev (cf_entries db cf)
  | IterFromForward k => List.filter (key_geb k) (cf_entries db cf)
  | IterFromReverse k => rev (List.filter (key_leb k) (cf_entries db cf))
  end.

(** ** Batches *)

Inductive WriteOp := Put (cf : string) (k v : list Z) | Delete (cf : string) (k : list Z).
Notation WriteBatch := (list WriteOp).

Definition op_cf (w : WriteOp) : string := match w with Put cf _ _ | Delete cf _ => cf end.
Definition op_key (w : WriteOp) : list Z := match w with Put _ k _ | Delete _ k => k end.
Definition op_value (w : WriteOp) : option (list Z) := match w with Put _ _ v => Some v | Delete _ _ => None end.
Definition write_op (db : Db) (w : WriteOp) : Db :=
  match w with Put cf k v => cf_put cf k v db | Delete cf k => cf_delete cf k db end.
Definition write (batch : WriteBatch) (db : Db) : Db := fold_left write_op batch db.

(** ** Reading values *)

(** [map] with a conversion that can panic *)
Definition map_res {A B} (f : A -> res B) (o : option A) : res (option B) :=
  match o with Some a => b ← f a; Ok (Some b) | None => Ok None end.

(** [and_then] with [ok()]: a value that cannot be converted is no value *)
Definition and_then_ok {A B} (f : A -> res B) (o : option A) : res (option B) :=
  match o with
  | Some a => match f a with Ok b => Ok (Some b) | Err => Ok None | Panic => Panic end
  | None => Ok None
  end.

(** [map_or(0, from_be_bytes)] *)
Definition get_u32 (db : Db) (cf : string) (k : list Z) : res Z :=
  match cf_get db cf k with Some v => from_be_bytes v | None => Ok 0 end.

(** * Lemmas *)

Context `{!SpeedbSpec}.

(** The last write of a batch to a key. *)
Fixpoint last_write (batch : WriteBatch) (cf : string) (k : list Z) : option (option (list Z)) :=
  match batch with
  | [] => None
  | w :: batch =>
    match last_write batch cf k with
    | Some o => Some o
    | None => if decide ((op_cf w, op_key w) = (cf, k)) then Some (op_value w) else None
    end
  end.

Lemma write_op_get w db cf k :
  cf_get (write_op db w) cf k = if decide ((op_cf w, op_key w) = (cf, k)) then op_value w else cf_get db cf k.
Proof.
  destruct w as [cf' k' v|cf' k']; cbn [write_op op_cf op_key op_value]; [rewrite cf_get_put|rewrite cf_get_delete];
    destruct (decide ((cf, k) = _)), (decide (_ = (cf, k))); congruence.
Qed.

Lemma write_get batch db cf k :
  cf_get (write batch db) cf k = match last_write batch cf k with Some o => o | None => cf_get db cf k end.
Proof.
  revert db. induction batch as [|w batch IH]; intros db; [done|]. cbn [write fold_left last_write].
  fold (write batch (write_op db w)). rewrite IH. destruct (last_write batch cf k); [done|].
  rewrite write_op_get. by destruct (decide _).
Qed.

Lemma write_app b1 b2 db : write (b1 ++ b2) db = write b2 (write b1 db).
Proof. apply fold_left_app. Qed.

Lemma last_write_app b1 b2 cf k :
  last_write (b1 ++ b2) cf k = match last_write b2 cf k with Some o => Some o | None => last_write b1 cf k end.
Proof.
  induction b1 as [|w b1 IH]; cbn [app last_write]; [by destruct (last_write b2 cf k)|].
  rewrite IH. by destruct (last_write b2 cf k).
Qed.

Lemma last_write_none batch cf k :
  Forall (fun w => (op_cf w, op_key w) <> (cf, k)) batch -> last_write batch cf k = None.
Proof.
  induction 1 as [|w batch Hw _ IH]; [done|]. cbn [last_write]. rewrite IH. by rewrite decide_False.
Qed.

(** ** The writes of a batch to one family *)

Definition family (cf : string) (batch : WriteBatch) : WriteBatch := List.filter (fun w => String.eqb (op_cf w) cf) batch.

Lemma last_write_family batch cf k : last_write batch cf k = last_write (family cf batch) cf k.
Proof.
  induction batch as [|w batch IH]; [done|]. cbn [last_write family List.filter]. fold (family cf batch).
  destruct (String.eqb_spec (op_cf w) cf) as [E|Hne]; cbn [last_write]; rewrite IH; [done|].
  rewrite decide_False by congruence. by destruct (last_write (family cf batch) cf k).
Qed.

Lemma family_app cf b1 b2 : family cf (b1 ++ b2) = family cf b1 ++ family cf b2.
Proof. apply List.filter_app. Qed.
Lemma family_concat cf bs : family cf (concat bs) = concat (family cf <$> bs).
Proof. induction bs as [|b bs IH]; [done|]. cbn [concat]. rewrite family_app, IH. done. Qed.

(** Values at different keys of a family. *)
Lemma last_write_puts cf (kvs : list (list Z * list Z)) k v :
  NoDup (kvs.*1) -> (k, v) ∈ kvs -> last_write ((fun e => Put cf e.1 e.2) <$> kvs) cf k = Some (Some v).
Proof.
  induction kvs as [|[k0 v0] kvs IH]; intros Hnd Hin; [by apply not_elem_of_nil in Hin|].
  csimpl in Hnd. apply NoDup_cons in Hnd as [Hk Hnd]. cbn [fmap list_fmap last_write].
  apply elem_of_cons in Hin as [[= -> ->]|Hin]; [|by rewrite IH].
  rewrite last_write_none; [cbn; by rewrite decide_True|]. apply Forall_fmap, Forall_forall. intros [k v] He [= ->].
  apply Hk. by apply (list_elem_of_fmap_2 fst _ _ He).
Qed.
Lemma last_write_no_put cf (kvs : list (list Z * list Z)) k :
  k ∉ kvs.*1 -> last_write ((fun e => Put cf e.1 e.2) <$> kvs) cf k = None.
Proof.
  intros Hk. apply last_write_none, Forall_fmap, Forall_forall. intros [k' v] He [= ->].
  apply Hk. by apply (list_elem_of_fmap_2 fst _ _ He).
Qed.

(** Batches of several entries, of which one writes to the key. *)
Lemma last_write_concat_none {A} (g : A -> WriteBatch) l cf k :
  (forall y, y ∈ l -> last_write (g y) cf k = None) -> last_write (concat (g <$> l)) cf k = None.
Proof.
  induction l as [|x l IH]; intros Hl; [done|]. cbn [fmap list_fmap concat]. rewrite last_write_app.
  rewrite IH by (intros; apply Hl; by right). apply Hl. by left.
Qed.
Lemma last_write_concat_one {A} (g : A -> WriteBatch) l x cf k :
  NoDup l -> x ∈ l -> (forall y, y ∈ l -> y <> x -> last_write (g y) cf k = None) ->
  last_write (concat (g <$> l)) cf k = last_write (g x) cf k.
Proof.
  induction 1 as [|y l Hy Hnd IH]; intros Hx Ho; [by apply not_elem_of_nil in Hx|]. cbn [fmap list_fmap concat].
  rewrite last_write_app. apply elem_of_cons in Hx as [->|Hx].
  - rewrite last_write_concat_none; [done|]. intros z Hz. apply Ho; [by right|congruence].
  - rewrite IH; [|done|intros z Hz Hne; apply Ho; [by right|done]]. destruct (last_write (g x) cf k); [done|].
    apply Ho; [by left|congruence].
Qed.

(** The writes of an operation go to the given families only. *)
Definition writes_in (cfs : list string) (db db' : Db) : Prop :=
  exists batch, db' = write batch db /\ Forall (fun w => op_cf w ∈ cfs) batch.

Lemma writes_in_get cfs db db' cf k : writes_in cfs db db' -> cf ∉ cfs -> cf_get db' cf k = cf_get db cf k.
Proof.
  intros (batch & -> & Hb) Hcf. rewrite write_get, last_write_none; [done|].
  eapply Forall_impl; [exact Hb|]. intros w Hw [= <- _]. done.
Qed.

Lemma writes_in_refl cfs db : writes_in cfs db db.
Proof. exists []. split; [done|constructor]. Qed.
Lemma writes_in_trans cfs db1 db2 db3 : writes_in cfs db1 db2 -> writes_in cfs db2 db3 -> writes_in cfs db1 db3.
Proof.
  intros (b1 & -> & H1) (b2 & -> & H2). exists (b1 ++ b2). rewrite write_app. split; [done|by apply Forall_app].
Qed.
Lemma writes_in_put cfs cf k v db : cf ∈ cfs -> writes_in cfs db (cf_put cf k v db).
Proof. intros Hcf. exists [Put cf k v]. split; [done|by repeat constructor]. Qed.
Lemma writes_in_delete cfs cf k db : cf ∈ cfs -> writes_in cfs db (cf_delete cf k db).
Proof. intros Hcf. exists [Delete cf k]. split; [done|by repeat constructor]. Qed.
Lemma writes_in_weaken cfs cfs' db db' : writes_in cfs db db' -> cfs ⊆ cfs' -> writes_in cfs' db db'.
Proof. intros (b & -> & Hb) Hs. exists b. split; [done|]. eapply Forall_impl; [exact Hb|]. auto. Qed.
Lemma writes_in_write cfs batch db : Forall (fun w => op_cf w ∈ cfs) batch -> writes_in cfs db (write batch db).
Proof. intros Hb. by exists batch. Qed.
End Ops.
Notation WriteBatch := (list WriteOp).

#[export] Hint Resolve writes_in_refl writes_in_put writes_in_delete writes_in_write : db.

(** Big endian counters. *)
Lemma from_be_bytes_u32 n : u32 n -> from_be_bytes (u32_be n) = Ok n.
Proof.
  intros Hn. unfold from_be_bytes, u32_be. rewrite length_be_bytes, bool_decide_true by done.
  cbn [rust_assert mbind res_bind]. rewrite of_be_bytes_be_bytes. f_equal. apply Z.mod_small.
  change (256 ^ Z.of_nat U32_LEN) with 4294967296. ints.
Qed.

(** ** Values *)

(** Values of a countable type, as their codes. *)
Definition countable_json {A} `{Countable A} : Json A :=
  {| to_json a := [Zpos (encode a)];
     from_json l := match l with
                    | [Zpos p] => match decode p with Some a => Ok a | None => Err end
                    | _ => Err
                    end |}.

Global Instance countable_json_spec {A} `{Countable A} : @JsonSpec A countable_json.
Proof.
  split; [intros a; cbn; by rewrite decode_encode|]. intros [|[| |] []]; cbn; try done. by destruct (decode _).
Qed.

(** * An ordered map *)

Section MapDb.
Notation store := (gmap (string * list Z) (list Z)).

Definition entry_le (a b : list Z * list Z) : Prop := lex_compare a.1 b.1 <> Gt.
Global Instance entry_le_dec : RelDecision entry_le.
Proof. intros a b. unfold entry_le. apply _. Defined.
Global Instance entry_le_trans : Transitive entry_le.
Proof. intros a b c. apply lex_le_trans. Qed.
Global Instance entry_le_total : Total entry_le.
Proof.
  intros a b. unfold entry_le. rewrite (lex_compare_antisym b.1 a.1).
  destruct (lex_compare b.1 a.1); simpl; naive_solver.
Qed.

Definition map_entries (db : store) (cf : string) : list (list Z * list Z) :=
  (fun e => (e.1.2, e.2)) <$> filter (fun e => e.1.1 = cf) (map_to_list db).

Definition map_db : Speedb :=
  {| Db := store;
     cf_get db cf k := db !! (cf, k);
     cf_put cf k v db := <[(cf, k) := v]> db;
     cf_delete cf k db := delete (cf, k) db;
     cf_entries db cf := merge_sort entry_le (map_entries db cf) |}.

Lemma map_entries_elem db cf k v : (k, v) ∈ map_entries db cf <-> db !! (cf, k) = Some v.
Proof.
  unfold map_entries. rewrite list_elem_of_fmap. split.
  - intros ([[cf' k'] v'] & [= -> ->] & He). apply list_elem_of_filter in He as [Hcf He]. cbn in Hcf. subst.
    by apply elem_of_map_to_list in He.
  - intros Hv. exists ((cf, k), v). split; [done|]. apply list_elem_of_filter. split; [done|].
    by apply elem_of_map_to_list.
Qed.

Lemma map_entries_nodup db cf : NoDup ((map_entries db cf).*1).
Proof.
  unfold map_entries. rewrite <- list_fmap_compose.
  assert (forall l : list ((string * list Z) * list Z), NoDup (l.*1) ->
    NoDup (((fun e => e.1) ∘ (fun e : (string * list Z) * list Z => (e.1.2, e.2))) <$> filter (fun e => e.1.1 = cf) l)) as Hl.
  { induction l as [|[[cf' k] v] l IH]; intros Hnd; [constructor|]. csimpl in Hnd.
    apply NoDup_cons in Hnd as [Hk Hnd]. rewrite filter_cons. destruct (decide _) as [Hcf|]; [|auto].
    cbn in Hcf. subst cf'. csimpl. constructor; [|auto].
    intros ([[cf' k'] v'] & E & He)%list_elem_of_fmap. apply list_elem_of_filter in He as [Hcf He]. cbn in E, Hcf. subst.
    apply Hk. by apply (list_elem_of_fmap_2 fst _ _ He). }
  apply Hl. apply NoDup_fst_map_to_list.
Qed.

Lemma sorted_strict (l : list (list Z * list Z)) :
  StronglySorted entry_le l -> NoDup (l.*1) -> StronglySorted key_lt l.
Proof.
  induction 1 as [|a l Hl IH Ha]; intros Hnd; [constructor|]. csimpl in Hnd. apply NoDup_cons in Hnd as [Hk Hnd].
  constructor; [auto|]. apply Forall_forall. intros b Hb. rewrite Forall_forall in Ha. specialize (Ha b Hb).
  unfold entry_le, key_lt in *. destruct (lex_compare a.1 b.1) eqn:E; [|done|done].
  apply lex_compare_eq in E. destruct Hk. rewrite E. by apply list_elem_of_fmap_2.
Qed.

Global Instance map_db_spec : @SpeedbSpec map_db.
Proof.
  refine (@Build_SpeedbSpec map_db _ _ _ _); simpl.
  - intros cf k v db cf' k'. destruct (decide _) as [->|Hne]; [by rewrite lookup_insert_eq|by rewrite lookup_insert_ne].
  - intros cf k db cf' k'. destruct (decide _) as [->|Hne]; [by rewrite lookup_delete_eq|by rewrite lookup_delete_ne].
  - intros db cf k v. by rewrite merge_sort_Permutation, map_entries_elem.
  - intros db cf. apply sorted_strict; [apply (StronglySorted_merge_sort entry_le)|].
    rewrite merge_sort_Permutation. apply map_entries_nodup.
Defined.
End MapDb.
