(* ===== verification/Events.v ===== *)
(** Events (src/rust/src/event/) and the log of them kept in the database
    (src/rust/src/store/event_store_impl.rs); the chain ids and networks of the chain store
    (src/rust/src/store/chain_store_impl.rs, src/rust/src/chain/network.rs). *)

From S2P Require Import Prelude Bytes Base StoreKeys BlockOrder Rose Branch WitnessTree ColumnFamilies Db.

(** * Events *)

Inductive DbBlockEvent :=
| NewBlock (state_hash : StateHash) (blockchain_length : Z)
| NewBestTip (state_hash : StateHash) (blockchain_length : Z).

Inductive DbLedgerEvent :=
| NewLedger (state_hash : StateHash) (blockchain_length : Z) (ledger_hash : LedgerHash).

Inductive DbStakingLedgerEvent :=
| NewStakingLedger (epoch : Z) (ledger_hash : LedgerHash) (genesis_state_hash : StateHash)
| AggregateDelegations (epoch : Z) (genesis_state_hash : StateHash).

Inductive DbCanonicityEvent :=
| NewCanonicalBlock (state_hash : StateHash) (blockchain_length : Z).

Inductive DbEvent :=
| DbBlock (e : DbBlockEvent)
| DbCanonicity (e : DbCanonicityEvent)
| DbLedger (e : DbLedgerEvent)
| DbStakingLedger (e : DbStakingLedgerEvent).

Inductive IndexerEvent :=
| EventDb (e : DbEvent)
| EventWitnessTree (e : WitnessTreeEvent).

Definition db_is_new_block_event (e : DbEvent) : bool :=
  match e with DbBlock (NewBlock _ _) => true | _ => false end.
Definition is_canonical_block_event (e : IndexerEvent) : bool :=
  match e with EventDb (DbCanonicity (NewCanonicalBlock _ _)) => true | _ => false end.
Definition is_new_block_event (e : IndexerEvent) : bool :=
  match e with EventDb (DbBlock (NewBlock _ _)) => true | _ => false end.

Definition NEW_BLOCK_KIND : Z := 0.
Definition NEW_BEST_TIP_KIND : Z := 1.
Definition NEW_CANONICAL_BLOCK_KIND : Z := 2.

Definition event_kind (e : IndexerEvent) : Z :=
  match e with
  | EventDb (DbBlock (NewBlock _ _)) => NEW_BLOCK_KIND
  | EventDb (DbBlock (NewBestTip _ _)) => NEW_BEST_TIP_KIND
  | EventDb (DbCanonicity (NewCanonicalBlock _ _)) => NEW_CANONICAL_BLOCK_KIND
  | _ => 3
  end.

(** * Fixed keys of the default family *)

Definition CHAIN_ID_KEY : list Z := as_bytes "current_chain_id".
Definition BEST_TIP_STATE_HASH_KEY : list Z := as_bytes "best_tip_state_hash".
Definition NEXT_EVENT_SEQ_NUM_KEY : list Z := as_bytes "next_event_seq_num".
Definition KNOWN_GENESIS_STATE_HASHES_KEY : list Z := as_bytes "genesis_state_hashes".
Definition KNOWN_GENESIS_PREV_STATE_HASHES_KEY : list Z := as_bytes "genesis_prev_state_hashes".
Definition NUM_BLOCK_BYTES_PROCESSED : list Z := as_bytes "num_block_bytes_processed".
Definition TOTAL_NUM_BLOCKS_KEY : list Z := as_bytes "total_num_blocks".
Definition TOTAL_NUM_BLOCKS_SUPERCHARGED_KEY : list Z := as_bytes "total_num_blocks_supercharged".

(** * The event store *)

Section EventStore.
Context `{Speedb} `{Json IndexerEvent}.
Implicit Types (db : Db).

Definition get_next_seq_num db : res Z := get_u32 db default_cf NEXT_EVENT_SEQ_NUM_KEY.

(** The value of an event: the length of its block, its kind, and itself. *)
Definition event_value (e : IndexerEvent) : list Z :=
  (match e with
   | EventDb (DbBlock (NewBestTip _ n)) | EventDb (DbBlock (NewBlock _ n)) => u32_be n
   | _ => u32_be 0
   end) ++ [event_kind e] ++ to_json e.

Definition add_event (e : IndexerEvent) db : res (Z * Db) :=
  seq_num ← get_next_seq_num db;
  match e with
  | EventWitnessTree _ => Ok (seq_num, db)
  | EventDb _ =>
    let db := cf_put events_cf (u32_be seq_num) (event_value e) db in
    let next_seq_num := wrap32 (seq_num + 1) in
    Ok (next_seq_num, cf_put default_cf NEXT_EVENT_SEQ_NUM_KEY (u32_be next_seq_num) db)
  end.

(** The five bytes before the event are sliced off, which panics when there are fewer. *)
Definition get_event db (seq_num : Z) : res (option IndexerEvent) :=
  match cf_get db events_cf (u32_be seq_num) with
  | Some bytes => l ← slice_from 5 bytes; and_then_ok from_json (Some l)
  | None => Ok None
  end.

Definition get_event_log db : res (list IndexerEvent) :=
  n ← get_next_seq_num db;
  foldM (fun events n => e ← get_event db n;
           Ok (match e with Some e => events ++ [e] | None => events end))
    [] (Z.of_nat <$> seq 0 (Z.to_nat n)).

Definition event_log_iterator db (mode : IteratorMode) : list (list Z * list Z) :=
  iterator_cf db events_cf mode.
End EventStore.

(** * Networks *)

Inductive Network := Mainnet | Devnet | Testworld | Berkeley | Custom (network : string).

Definition network_to_string (n : Network) : string :=
  match n with
  | Mainnet => "mainnet"
  | Devnet => "devnet"
  | Testworld => "testworld"
  | Berkeley => "berkeley"
  | Custom network => network
  end.

Definition network_from_str (value : string) : Network :=
  if String.eqb value "mainnet" then Mainnet
  else if String.eqb value "devnet" then Devnet
  else if String.eqb value "testworld" then Testworld
  else if String.eqb value "berkeley" then Berkeley
  else Custom value.

Definition network_from_bytes (value : list Z) : res Network :=
  s ← expect (from_utf8 value); Ok (network_from_str s).

Record ChainId := mkChainId { chain_str : string }.

(** [hex::decode] accepts pairs of hexadecimal digits of both cases. *)
Definition hex_digit (b : Z) : bool := in_range 48 57 b || in_range 65 70 b || in_range 97 102 b.
Definition ChainId_LEN : nat := 64.
Definition chain_id_is_valid (s : string) : bool :=
  bool_decide (str_len s = ChainId_LEN) && forallb hex_digit (as_bytes s).

Definition chain_id_from_str (s : string) : res ChainId :=
  if chain_id_is_valid s then Ok (mkChainId s) else Err.

Definition chain_id_from_bytes (bytes : list Z) : res ChainId :=
  s ← expect (from_utf8 bytes); expect (chain_id_from_str s).

(** * The chain store *)

Section ChainStore.
Context `{Speedb}.
Implicit Types (db : Db).

Definition set_chain_id_for_network (chain_id : ChainId) (network : Network) db : Db :=
  let chain_bytes := as_bytes (chain_str chain_id) in
  let db := cf_put chain_id_to_network_cf chain_bytes (as_bytes (network_to_string network)) db in
  cf_put default_cf CHAIN_ID_KEY chain_bytes db.

Definition get_network db (chain_id : ChainId) : res Network :=
  bytes ← expect_some (cf_get db chain_id_to_network_cf (as_bytes (chain_str chain_id)));
  network_from_bytes bytes.

Definition get_chain_id db : res ChainId :=
  bytes ← expect_some (cf_get db default_cf CHAIN_ID_KEY); chain_id_from_bytes bytes.

Definition get_current_network db : res Network :=
  chain_id ← get_chain_id db; get_network db chain_id.
End ChainStore.

(** * Lemmas *)

Section EventLog.
Context `{SpeedbSpec} `{JsonSpec IndexerEvent}.
Implicit Types (db : Db) (es : list IndexerEvent).

(** The database holds the events in order, and the number of them. *)
Record event_log db es : Prop := {
  el_num : get_next_seq_num db = Ok (Z.of_nat (length es));
  el_bound : Z.of_nat (length es) <= U32_MAX;
  el_event i e : es !! i = Some e -> cf_get db events_cf (u32_be (Z.of_nat i)) = Some (event_value e)
}.

Lemma event_value_from e : slice_from 5 (event_value e) = Ok (to_json e).
Proof.
  unfold event_value, slice_from.
  assert (forall n, length (u32_be n ++ [event_kind e]) = 5%nat) as Hlen
    by (intros n; unfold u32_be; by rewrite length_app, length_be_bytes).
  assert (exists n, (match e with
    | EventDb (DbBlock (NewBestTip _ n)) | EventDb (DbBlock (NewBlock _ n)) => u32_be n
    | _ => u32_be 0
    end) = u32_be n) as [n ->] by (destruct e as [[[]| | |]|]; eauto).
  rewrite (app_assoc (u32_be n)). rewrite decide_True by (rewrite length_app, Hlen; lia).
  rewrite <- (Hlen n). by rewrite drop_app_length.
Qed.

Lemma u32_be_inj a b : u32 a -> u32 b -> u32_be a = u32_be b -> a = b.
Proof. intros Ha Hb E. pose proof (from_be_bytes_u32 a Ha) as E1. rewrite E, from_be_bytes_u32 in E1 by done. congruence. Qed.

Lemma get_event_eq db es i e :
  event_log db es -> es !! i = Some e -> get_event db (Z.of_nat i) = Ok (Some e).
Proof.
  intros Hlog He. unfold get_event. rewrite (el_event _ _ Hlog _ _ He), event_value_from.
  cbn [mbind res_bind and_then_ok]. by rewrite json_roundtrip.
Qed.

(** The log read back is the events in order. *)
Lemma get_event_log_eq db es : event_log db es -> get_event_log db = Ok es.
Proof.
  intros Hlog. unfold get_event_log. rewrite (el_num _ _ Hlog). cbn [mbind res_bind]. rewrite Nat2Z.id.
  match goal with |- foldM ?g _ _ = _ => set (f := g) end.
  assert (forall k n acc, (forall i e, k !! i = Some e -> es !! (n + i)%nat = Some e) ->
    foldM f acc (Z.of_nat <$> seq n (length k)) = Ok (acc ++ k)) as Hloop.
  { induction k as [|e k IH]; intros n acc Hk; cbn [length seq fmap list_fmap foldM]; [by rewrite app_nil_r|].
    pose proof (Hk 0%nat e eq_refl) as He. rewrite Nat.add_0_r in He.
    assert (f acc (Z.of_nat n) = Ok (acc ++ [e])) as -> by (unfold f; by rewrite (get_event_eq _ _ _ _ Hlog He)).
    cbn [mbind res_bind]. change (list_fmap _ _ Z.of_nat (seq (S n) (length k))) with (Z.of_nat <$> seq (S n) (length k)).
    rewrite IH; [by rewrite <- app_assoc|].
    intros i e' Hi. rewrite Nat.add_succ_comm. by apply Hk. }
  by rewrite (Hloop es 0%nat []).
Qed.

(** ** Properties *)

Lemma add_db_event db es e :
  event_log db es -> Z.of_nat (length es) < U32_MAX ->
  exists db', add_event (EventDb e) db = Ok (Z.of_nat (length (es ++ [EventDb e])), db') /\ event_log db' (es ++ [EventDb e]) /\
    db' = write [Put events_cf (u32_be (Z.of_nat (length es))) (event_value (EventDb e));
                 Put default_cf NEXT_EVENT_SEQ_NUM_KEY (u32_be (Z.of_nat (length es) + 1))] db.
Proof.
  intros Hlog Hlt. unfold add_event. rewrite (el_num _ _ Hlog). cbn [mbind res_bind]. rewrite wrap32_id by ints.
  eexists. split; [rewrite length_app; cbn [length]; do 3 f_equal; lia|]. split; [|done]. split.
  - unfold get_next_seq_num, get_u32. rewrite cf_get_put, decide_True by done.
    rewrite from_be_bytes_u32 by ints. f_equal. rewrite length_app. cbn [length]. lia.
  - rewrite length_app. cbn [length]. lia.
  - intros i e' Hi. rewrite !cf_get_put. rewrite decide_False by done.
    apply lookup_snoc_Some in Hi as [[Hi He]|[-> ->]]; [|by rewrite decide_True].
    rewrite decide_False; [by apply Hlog|]. intros E. apply (f_equal snd) in E. cbn [snd] in E. apply u32_be_inj in E; [lia|ints|ints].
Qed.

(** C30: The event log of the database refines a list: an event of the database is appended to it and the next sequence
    number is its new length, an event of the witness tree is not recorded, and the log read
    back is the list, in order. *)
Theorem event_log_appends db es e :
  event_log db es -> Z.of_nat (length es) < U32_MAX ->
  exists db', let es' := match e with EventDb _ => es ++ [e] | EventWitnessTree _ => es end in
    add_event e db = Ok (Z.of_nat (length es'), db') /\ event_log db' es' /\ get_event_log db' = Ok es'.
Proof.
  intros Hlog Hlt. destruct e as [e|e].
  - destruct (add_db_event db es e Hlog Hlt) as (db' & E & Hlog' & _). exists db'. split; [done|]. split; [done|by apply get_event_log_eq].
  - exists db. unfold add_event. rewrite (el_num _ _ Hlog). split; [done|]. split; [done|by apply get_event_log_eq].
Qed.

(** A chain id set with its network is the current one, and its network is read back, whichever was set before; a
    custom network that is called like one of the named ones is read back as that one. *)
Theorem chain_store_roundtrip db chain_id network :
  chain_id_is_valid (chain_str chain_id) = true -> rust_string (network_to_string network) = true ->
  get_chain_id (set_chain_id_for_network chain_id network db) = Ok chain_id /\
  get_current_network (set_chain_id_for_network chain_id network db) =
    Ok (network_from_str (network_to_string network)) /\
  (network_from_str (network_to_string network) = network \/
   exists name, network = Custom name /\ name ∈ ["mainnet"; "devnet"; "testworld"; "berkeley"]).
Proof.
  intros Hc Hn.
  assert (rust_string (chain_str chain_id) = true) as Hcs.
  { apply andb_prop in Hc as [_ Hc]. unfold rust_string. apply utf8_valid_ascii.
    apply Forall_forall. intros x Hx. rewrite forallb_forall in Hc. apply list_elem_of_In in Hx. specialize (Hc x Hx).
    unfold hex_digit, in_range in Hc. lia. }
  assert (get_chain_id (set_chain_id_for_network chain_id network db) = Ok chain_id) as Eid.
  { unfold get_chain_id, set_chain_id_for_network. rewrite cf_get_put, decide_True by done. cbn [expect_some mbind res_bind].
    unfold chain_id_from_bytes. rewrite from_utf8_as_bytes by done. cbn [expect mbind res_bind].
    unfold chain_id_from_str. rewrite Hc. by destruct chain_id. }
  split; [done|]. split.
  - unfold get_current_network. rewrite Eid. cbn [mbind res_bind]. unfold get_network, set_chain_id_for_network.
    rewrite !cf_get_put. rewrite decide_False by done. rewrite decide_True by done. cbn [expect_some mbind res_bind].
    unfold network_from_bytes. by rewrite from_utf8_as_bytes.
  - destruct network as [| | | |name]; [by left..|]. cbn [network_to_string]. unfold network_from_str.
    destruct (String.eqb_spec name "mainnet") as [->|]; [right; eexists; split; [done|set_solver]|].
    destruct (String.eqb_spec name "devnet") as [->|]; [right; eexists; split; [done|set_solver]|].
    destruct (String.eqb_spec name "testworld") as [->|]; [right; eexists; split; [done|set_solver]|].
    destruct (String.eqb_spec name "berkeley") as [->|]; [right; eexists; split; [done|set_solver]|]. by left.
Qed.
End EventLog.

(** * Examples *)

Global Instance LedgerHash_countable : Countable LedgerHash.
Proof. refine (inj_countable' lh_str mkLh _). by intros []. Defined.
Global Instance Block_countable : Countable Block.
Proof.
  refine (inj_countable' (fun b => (blk_parent_hash b, blk_state_hash b, blk_height b, blk_blockchain_length b,
      blk_genesis_state_hash b, blk_global_slot_since_genesis b, blk_hash_last_vrf_output b))
    (fun '(p, s, h, n, g, t, v) => mkBlock p s h n g t v) _). by intros [].
Defined.
Global Instance DbBlockEvent_eq_dec : EqDecision DbBlockEvent.
Proof. solve_decision. Defined.
Global Instance DbLedgerEvent_eq_dec : EqDecision DbLedgerEvent.
Proof. solve_decision. Defined.
Global Instance DbStakingLedgerEvent_eq_dec : EqDecision DbStakingLedgerEvent.
Proof. solve_decision. Defined.
Global Instance DbCanonicityEvent_eq_dec : EqDecision DbCanonicityEvent.
Proof. solve_decision. Defined.
Global Instance DbEvent_eq_dec : EqDecision DbEvent.
Proof. solve_decision. Defined.
Global Instance WitnessTreeEvent_eq_dec : EqDecision WitnessTreeEvent.
Proof. solve_decision. Defined.
Global Instance IndexerEvent_eq_dec : EqDecision IndexerEvent.
Proof. solve_decision. Defined.

Notation event_data :=
  ((StateHash * Z) + (StateHash * Z) + (StateHash * Z) + (StateHash * Z * LedgerHash) +
   (Z * LedgerHash * StateHash) + (Z * StateHash) + (Block * list Block))%type.

Definition event_to_data (e : IndexerEvent) : event_data :=
  match e with
  | EventDb (DbBlock (NewBlock h n)) => inl (inl (inl (inl (inl (inl (h, n))))))
  | EventDb (DbBlock (NewBestTip h n)) => inl (inl (inl (inl (inl (inr (h, n))))))
  | EventDb (DbCanonicity (NewCanonicalBlock h n)) => inl (inl (inl (inl (inr (h, n)))))
  | EventDb (DbLedger (NewLedger h n l)) => inl (inl (inl (inr (h, n, l))))
  | EventDb (DbStakingLedger (NewStakingLedger n l h)) => inl (inl (inr (n, l, h)))
  | EventDb (DbStakingLedger (AggregateDelegations n h)) => inl (inr (n, h))
  | EventWitnessTree (UpdateBestTip b bs) => inr (b, bs)
  end.

Definition event_of_data (d : event_data) : IndexerEvent :=
  match d with
  | inl (inl (inl (inl (inl (inl (h, n)))))) => EventDb (DbBlock (NewBlock h n))
  | inl (inl (inl (inl (inl (inr (h, n)))))) => EventDb (DbBlock (NewBestTip h n))
  | inl (inl (inl (inl (inr (h, n))))) => EventDb (DbCanonicity (NewCanonicalBlock h n))
  | inl (inl (inl (inr (h, n, l)))) => EventDb (DbLedger (NewLedger h n l))
  | inl (inl (inr (n, l, h))) => EventDb (DbStakingLedger (NewStakingLedger n l h))
  | inl (inr (n, h)) => EventDb (DbStakingLedger (AggregateDelegations n h))
  | inr (b, bs) => EventWitnessTree (UpdateBestTip b bs)
  end.

Global Instance IndexerEvent_countable : Countable IndexerEvent.
Proof. refine (inj_countable' event_to_data event_of_data _). by intros [[[]|[]|[]|[]]|[]]. Defined.

Section Examples.
#[local] Existing Instances map_db map_db_spec.
#[local] Instance event_json : Json IndexerEvent := countable_json.

Lemma event_log_appends_witness :
  exists db, add_event (EventDb (DbBlock (NewBlock (mkSh "3Na") 2))) (∅ : Db) = Ok (1, db) /\
    get_event_log db = Ok [EventDb (DbBlock (NewBlock (mkSh "3Na") 2))].
Proof.
  destruct (event_log_appends (∅ : Db) [] (EventDb (DbBlock (NewBlock (mkSh "3Na") 2)))) as (db & E & _ & El).
  - split; [vm_compute; reflexivity|vm_compute; discriminate|intros i e Hi; by rewrite lookup_nil in Hi].
  - vm_compute. reflexivity.
  - exists db. split; [exact E|exact El].
Defined.

Definition chain_id_example : ChainId :=
  mkChainId "5f704cc0c82e0ed70e873f0893d7e06f148524e3f0bdae2afb02e7819a0c24d1".

Lemma chain_store_roundtrip_witness :
  get_current_network (set_chain_id_for_network chain_id_example Mainnet (∅ : Db)) = Ok Mainnet.
Proof.
  destruct (chain_store_roundtrip (∅ : Db) chain_id_example Mainnet) as (_ & E & _); [vm_compute; reflexivity..|].
  exact E.
Defined.
End Examples.
