(* ===== verification/Codes.v ===== *)
(** Codes of the data kept in the database, for the examples: every value of these types can be written and read back, as
    the stores assume of their JSON form. *)

From S2P Require Import Prelude Bytes Base Command AccountDiff Account Coinbase Precomputed LedgerDiff BlockOrder ColumnFamilies Db Events.

Global Instance Permission_code : Countable Permission.
Proof.
  refine (inj_countable' (fun c => match c with PNone => 0%nat | PEither => 1%nat | PProof => 2%nat | PSignature =>
    3%nat | PImpossible => 4%nat end)
    (fun n => match n with 0%nat => PNone | 1%nat => PEither | 2%nat => PProof | 3%nat => PSignature | _ =>
      PImpossible end) _). by intros [].
Defined.
Global Instance Permissions_code : Countable Permissions.
Proof.
  refine (inj_countable' (fun r => (edit_state r, access r, send r, receive r, set_delegate r, set_permissions r,
    set_verification_key r, set_zkapp_uri r, edit_action_state r, set_token_symbol r, increment_nonce_perm r,
      set_voting_for r, set_timing r))
    (fun '(x0, x1, x2, x3, x4, x5, x6, x7, x8, x9, x10, x11, x12) => mkPermissions x0 x1 x2 x3 x4 x5 x6 x7 x8 x9 x10
      x11 x12) _). by intros [].
Defined.
Global Instance Timing_code : Countable Timing.
Proof.
  refine (inj_countable' (fun r => (cliff_time r, vesting_period r, cliff_amount r, vesting_increment r,
    initial_minimum_balance r))
    (fun '(x0, x1, x2, x3, x4) => mkTiming x0 x1 x2 x3 x4) _). by intros [].
Defined.
Global Instance VerificationKey_code : Countable VerificationKey.
Proof.
  refine (inj_countable' (fun r => (vk_data r, vk_hash r))
    (fun '(x0, x1) => mkVk x0 x1) _). by intros [].
Defined.
Global Instance TokenSymbol_code : Countable TokenSymbol.
Proof.
  refine (inj_countable' (fun r => symbol_str r)
    (fun x0 => mkSymbol x0) _). by intros [].
Defined.
Global Instance ZkappAccount_code : Countable ZkappAccount.
Proof.
  refine (inj_countable' (fun r => (app_state r, action_state r, verification_key r, proved_state r, zkapp_uri r,
    zkapp_version r, last_action_slot r))
    (fun '(x0, x1, x2, x3, x4, x5, x6) => mkZkappAccount x0 x1 x2 x3 x4 x5 x6) _). by intros [].
Defined.
Global Instance Account_code : Countable Account.
Proof.
  refine (inj_countable' (fun r => (acct_public_key r, acct_balance r, acct_delegate r, acct_genesis r, acct_nonce r,
    acct_token r, acct_receipt_chain_hash r, acct_voting_for r, acct_permissions r, acct_timing r, acct_token_symbol
      r, acct_zkapp r, acct_username r))
    (fun '(x0, x1, x2, x3, x4, x5, x6, x7, x8, x9, x10, x11, x12) => mkAccount x0 x1 x2 x3 x4 x5 x6 x7 x8 x9 x10 x11
      x12) _). by intros [].
Defined.
Global Instance UpdateType_code : Countable UpdateType.
Proof.
  refine (inj_countable' (fun u => match u with Debit n => Some n | Credit => None end)
    (fun o => match o with Some n => Debit n | None => Credit end) _). by intros [].
Defined.
Global Instance PaymentDiff_code : Countable PaymentDiff.
Proof.
  refine (inj_countable' (fun r => (update_type r, pd_public_key r, pd_amount r, pd_token r))
    (fun '(x0, x1, x2, x3) => mkPaymentDiff x0 x1 x2 x3) _). by intros [].
Defined.
Global Instance DelegationDiff_eqd : EqDecision DelegationDiff.
Proof. solve_decision. Defined.
Global Instance DelegationDiff_code : Countable DelegationDiff.
Proof.
  refine (inj_countable' (fun r => (dd_nonce r, delegator r, delegate_to r))
    (fun '(x0, x1, x2) => mkDelegationDiff x0 x1 x2) _). by intros [].
Defined.
Global Instance ZkappStateDiff_eqd : EqDecision ZkappStateDiff.
Proof. solve_decision. Defined.
Global Instance ZkappStateDiff_code : Countable ZkappStateDiff.
Proof.
  refine (inj_countable' (fun r => (sd_token r, sd_public_key r, sd_proved_state r, sd_diffs r))
    (fun '(x0, x1, x2, x3) => mkZkappStateDiff x0 x1 x2 x3) _). by intros [].
Defined.
Global Instance ZkappVerificationKeyDiff_eqd : EqDecision ZkappVerificationKeyDiff.
Proof. solve_decision. Defined.
Global Instance ZkappVerificationKeyDiff_code : Countable ZkappVerificationKeyDiff.
Proof.
  refine (inj_countable' (fun r => (vd_token r, vd_public_key r, vd_proved_state r, vd_verification_key r))
    (fun '(x0, x1, x2, x3) => mkZkappVkDiff x0 x1 x2 x3) _). by intros [].
Defined.
Global Instance ZkappPermissionsDiff_eqd : EqDecision ZkappPermissionsDiff.
Proof. solve_decision. Defined.
Global Instance ZkappPermissionsDiff_code : Countable ZkappPermissionsDiff.
Proof.
  refine (inj_countable' (fun r => (pmd_token r, pmd_public_key r, pmd_permissions r))
    (fun '(x0, x1, x2) => mkZkappPermDiff x0 x1 x2) _). by intros [].
Defined.
Global Instance ZkappUriDiff_eqd : EqDecision ZkappUriDiff.
Proof. solve_decision. Defined.
Global Instance ZkappUriDiff_code : Countable ZkappUriDiff.
Proof.
  refine (inj_countable' (fun r => (ud_token r, ud_public_key r, ud_proved_state r, ud_zkapp_uri r))
    (fun '(x0, x1, x2, x3) => mkZkappUriDiff x0 x1 x2 x3) _). by intros [].
Defined.
Global Instance ZkappTokenSymbolDiff_eqd : EqDecision ZkappTokenSymbolDiff.
Proof. solve_decision. Defined.
Global Instance ZkappTokenSymbolDiff_code : Countable ZkappTokenSymbolDiff.
Proof.
  refine (inj_countable' (fun r => (tsd_token r, tsd_public_key r, tsd_token_symbol r))
    (fun '(x0, x1, x2) => mkZkappSymbolDiff x0 x1 x2) _). by intros [].
Defined.
Global Instance ZkappTimingDiff_eqd : EqDecision ZkappTimingDiff.
Proof. solve_decision. Defined.
Global Instance ZkappTimingDiff_code : Countable ZkappTimingDiff.
Proof.
  refine (inj_countable' (fun r => (td_token r, td_public_key r, td_timing r))
    (fun '(x0, x1, x2) => mkZkappTimingDiff x0 x1 x2) _). by intros [].
Defined.
Global Instance ZkappVotingForDiff_eqd : EqDecision ZkappVotingForDiff.
Proof. solve_decision. Defined.
Global Instance ZkappVotingForDiff_code : Countable ZkappVotingForDiff.
Proof.
  refine (inj_countable' (fun r => (vfd_token r, vfd_public_key r, vfd_voting_for r))
    (fun '(x0, x1, x2) => mkZkappVotingDiff x0 x1 x2) _). by intros [].
Defined.
Global Instance ZkappActionsDiff_eqd : EqDecision ZkappActionsDiff.
Proof. solve_decision. Defined.
Global Instance ZkappActionsDiff_code : Countable ZkappActionsDiff.
Proof.
  refine (inj_countable' (fun r => (ad_token r, ad_public_key r, ad_proved_state r, ad_actions r))
    (fun '(x0, x1, x2, x3) => mkZkappActionsDiff x0 x1 x2 x3) _). by intros [].
Defined.
Global Instance ZkappEventsDiff_eqd : EqDecision ZkappEventsDiff.
Proof. solve_decision. Defined.
Global Instance ZkappEventsDiff_code : Countable ZkappEventsDiff.
Proof.
  refine (inj_countable' (fun r => (ed_token r, ed_public_key r, ed_events r))
    (fun '(x0, x1, x2) => mkZkappEventsDiff x0 x1 x2) _). by intros [].
Defined.
Global Instance ZkappIncrementNonce_eqd : EqDecision ZkappIncrementNonce.
Proof. solve_decision. Defined.
Global Instance ZkappIncrementNonce_code : Countable ZkappIncrementNonce.
Proof.
  refine (inj_countable' (fun r => (ind_public_key r, ind_token r))
    (fun '(x0, x1) => mkZkappIncrementNonce x0 x1) _). by intros [].
Defined.
Global Instance ZkappAccountCreationFee_eqd : EqDecision ZkappAccountCreationFee.
Proof. solve_decision. Defined.
Global Instance ZkappAccountCreationFee_code : Countable ZkappAccountCreationFee.
Proof.
  refine (inj_countable' (fun r => (cfd_public_key r, cfd_token r, cfd_amount r))
    (fun '(x0, x1, x2) => mkZkappCreationFee x0 x1 x2) _). by intros [].
Defined.
Global Instance CoinbaseDiff_eqd : EqDecision CoinbaseDiff.
Proof. solve_decision. Defined.
Global Instance CoinbaseDiff_code : Countable CoinbaseDiff.
Proof.
  refine (inj_countable' (fun r => (cd_public_key r, cd_amount r))
    (fun '(x0, x1) => mkCoinbaseDiff x0 x1) _). by intros [].
Defined.
Global Instance FailedTransactionNonceDiff_eqd : EqDecision FailedTransactionNonceDiff.
Proof. solve_decision. Defined.
Global Instance FailedTransactionNonceDiff_code : Countable FailedTransactionNonceDiff.
Proof.
  refine (inj_countable' (fun r => (fd_public_key r, fd_nonce r))
    (fun '(x0, x1) => mkFailedDiff x0 x1) _). by intros [].
Defined.
Global Instance ZkappPaymentDiff_eqd : EqDecision ZkappPaymentDiff.
Proof. solve_decision. Defined.
Definition ZkappPaymentDiff_data (v : ZkappPaymentDiff) : PaymentDiff + ZkappIncrementNonce + ZkappAccountCreationFee
  :=
  match v with
    | ZPayment x => (inl (inl x))
    | ZIncrementNonce x => (inl (inr x))
    | ZAccountCreationFee x => (inr x)
  end.
Definition ZkappPaymentDiff_of_data (v : PaymentDiff + ZkappIncrementNonce + ZkappAccountCreationFee) :
  ZkappPaymentDiff :=
  match v with
    | (inl (inl x)) => ZPayment x
    | (inl (inr x)) => ZIncrementNonce x
    | (inr x) => ZAccountCreationFee x
  end.
Global Instance ZkappPaymentDiff_code : Countable ZkappPaymentDiff.
Proof. refine (inj_countable' ZkappPaymentDiff_data ZkappPaymentDiff_of_data _). by intros []. Defined.
Global Instance ZkappDiff_eqd : EqDecision ZkappDiff.
Proof. solve_decision. Defined.
Global Instance ZkappDiff_code : Countable ZkappDiff.
Proof.
  refine (inj_countable' (fun r => (zd_nonce r, zd_token r, zd_public_key r, zd_increment_nonce r, zd_payment_diffs
    r, zd_proved_state r, zd_app_state_diff r, zd_delegate r, zd_verification_key r, zd_permissions r, zd_zkapp_uri
      r, zd_token_symbol r, zd_timing r, zd_voting_for r, zd_actions r, zd_events r))
    (fun '(x0, x1, x2, x3, x4, x5, x6, x7, x8, x9, x10, x11, x12, x13, x14, x15) => mkZkappDiff x0 x1 x2 x3 x4 x5 x6
      x7 x8 x9 x10 x11 x12 x13 x14 x15) _). by intros [].
Defined.
Global Instance AccountDiff_eqd : EqDecision AccountDiff.
Proof. solve_decision. Defined.
Definition AccountDiff_data (v : AccountDiff) : PaymentDiff + DelegationDiff + CoinbaseDiff + PaymentDiff +
  PaymentDiff + FailedTransactionNonceDiff + ZkappDiff + ZkappStateDiff + ZkappPermissionsDiff +
    ZkappVerificationKeyDiff + ZkappUriDiff + ZkappTokenSymbolDiff + ZkappTimingDiff + ZkappVotingForDiff +
      ZkappActionsDiff + ZkappEventsDiff + ZkappIncrementNonce + ZkappAccountCreationFee :=
  match v with
    | DPayment x => (inl (inl (inl (inl (inl (inl (inl (inl (inl (inl (inl (inl (inl (inl (inl (inl (inl
      x)))))))))))))))))
    | DDelegation x => (inl (inl (inl (inl (inl (inl (inl (inl (inl (inl (inl (inl (inl (inl (inl (inl (inr
      x)))))))))))))))))
    | DCoinbase x => (inl (inl (inl (inl (inl (inl (inl (inl (inl (inl (inl (inl (inl (inl (inl (inr x))))))))))))))))
    | DFeeTransfer x => (inl (inl (inl (inl (inl (inl (inl (inl (inl (inl (inl (inl (inl (inl (inr x)))))))))))))))
    | DFeeTransferViaCoinbase x => (inl (inl (inl (inl (inl (inl (inl (inl (inl (inl (inl (inl (inl (inr
      x))))))))))))))
    | DFailedTransactionNonce x => (inl (inl (inl (inl (inl (inl (inl (inl (inl (inl (inl (inl (inr x)))))))))))))
    | DZkapp x => (inl (inl (inl (inl (inl (inl (inl (inl (inl (inl (inl (inr x))))))))))))
    | DZkappState x => (inl (inl (inl (inl (inl (inl (inl (inl (inl (inl (inr x)))))))))))
    | DZkappPermissions x => (inl (inl (inl (inl (inl (inl (inl (inl (inl (inr x))))))))))
    | DZkappVerificationKey x => (inl (inl (inl (inl (inl (inl (inl (inl (inr x)))))))))
    | DZkappUri x => (inl (inl (inl (inl (inl (inl (inl (inr x))))))))
    | DZkappTokenSymbol x => (inl (inl (inl (inl (inl (inl (inr x)))))))
    | DZkappTiming x => (inl (inl (inl (inl (inl (inr x))))))
    | DZkappVotingFor x => (inl (inl (inl (inl (inr x)))))
    | DZkappActions x => (inl (inl (inl (inr x))))
    | DZkappEvents x => (inl (inl (inr x)))
    | DZkappIncrementNonce x => (inl (inr x))
    | DZkappAccountCreationFee x => (inr x)
  end.
Definition AccountDiff_of_data (v : PaymentDiff + DelegationDiff + CoinbaseDiff + PaymentDiff + PaymentDiff +
  FailedTransactionNonceDiff + ZkappDiff + ZkappStateDiff + ZkappPermissionsDiff + ZkappVerificationKeyDiff +
    ZkappUriDiff + ZkappTokenSymbolDiff + ZkappTimingDiff + ZkappVotingForDiff + ZkappActionsDiff + ZkappEventsDiff +
      ZkappIncrementNonce + ZkappAccountCreationFee) : AccountDiff :=
  match v with
    | (inl (inl (inl (inl (inl (inl (inl (inl (inl (inl (inl (inl (inl (inl (inl (inl (inl x))))))))))))))))) =>
      DPayment x
    | (inl (inl (inl (inl (inl (inl (inl (inl (inl (inl (inl (inl (inl (inl (inl (inl (inr x))))))))))))))))) =>
      DDelegation x
    | (inl (inl (inl (inl (inl (inl (inl (inl (inl (inl (inl (inl (inl (inl (inl (inr x)))))))))))))))) => DCoinbase x
    | (inl (inl (inl (inl (inl (inl (inl (inl (inl (inl (inl (inl (inl (inl (inr x))))))))))))))) => DFeeTransfer x
    | (inl (inl (inl (inl (inl (inl (inl (inl (inl (inl (inl (inl (inl (inr x)))))))))))))) =>
      DFeeTransferViaCoinbase x
    | (inl (inl (inl (inl (inl (inl (inl (inl (inl (inl (inl (inl (inr x))))))))))))) => DFailedTransactionNonce x
    | (inl (inl (inl (inl (inl (inl (inl (inl (inl (inl (inl (inr x)))))))))))) => DZkapp x
    | (inl (inl (inl (inl (inl (inl (inl (inl (inl (inl (inr x))))))))))) => DZkappState x
    | (inl (inl (inl (inl (inl (inl (inl (inl (inl (inr x)))))))))) => DZkappPermissions x
    | (inl (inl (inl (inl (inl (inl (inl (inl (inr x))))))))) => DZkappVerificationKey x
    | (inl (inl (inl (inl (inl (inl (inl (inr x)))))))) => DZkappUri x
    | (inl (inl (inl (inl (inl (inl (inr x))))))) => DZkappTokenSymbol x
    | (inl (inl (inl (inl (inl (inr x)))))) => DZkappTiming x
    | (inl (inl (inl (inl (inr x))))) => DZkappVotingFor x
    | (inl (inl (inl (inr x)))) => DZkappActions x
    | (inl (inl (inr x))) => DZkappEvents x
    | (inl (inr x)) => DZkappIncrementNonce x
    | (inr x) => DZkappAccountCreationFee x
  end.
Global Instance AccountDiff_code : Countable AccountDiff.
Proof. refine (inj_countable' AccountDiff_data AccountDiff_of_data _). by intros []. Defined.
Global Instance LedgerDiff_eqd : EqDecision LedgerDiff.
Proof. solve_decision. Defined.
Global Instance LedgerDiff_code : Countable LedgerDiff.
Proof.
  refine (inj_countable' (fun r => (ld_blockchain_length r, ld_state_hash r, ld_staged_ledger_hash r,
    ld_new_coinbase_receiver r, ld_public_keys_seen r, ld_new_pk_balances r, ld_account_diffs r))
    (fun '(x0, x1, x2, x3, x4, x5, x6) => mkLedgerDiff x0 x1 x2 x3 x4 x5 x6) _). by intros [].
Defined.
