(* ===== verification/BlockCodes.v ===== *)
(** Codes of user commands and blocks, for the examples: every value of these types can be written and read back, as
    the stores assume of their JSON form. *)

From S2P Require Import Prelude Bytes Base Command AccountDiff Account Coinbase Precomputed Signed LedgerDiff BlockOrder ColumnFamilies Db Events Codes.

Global Instance Update__eqd {A} `{EqDecision A} : EqDecision (Update_ A).
Proof. solve_decision. Defined.
Global Instance Update__code {A} `{Countable A} : Countable (Update_ A).
Proof.
  refine (inj_countable' update_to_option (fun o => match o with Some a => Set_ a | None => Keep end) _). by intros
    [].
Defined.
Global Instance SupplyAdjustmentSign_eqd : EqDecision SupplyAdjustmentSign.
Proof. solve_decision. Defined.
Global Instance SupplyAdjustmentSign_code : Countable SupplyAdjustmentSign.
Proof.
  refine (inj_countable' (fun c => match c with Pos => 0%nat | Neg => 1%nat end)
    (fun n => match n with 0%nat => Pos | _ => Neg end) _). by intros [].
Defined.
Global Instance Authorization_eqd : EqDecision Authorization.
Proof. solve_decision. Defined.
Definition Authorization_data (v : Authorization) : unit + unit + unit + unit + unit + unit :=
  match v with
  | NoneGiven => (inl (inl (inl (inl (inl tt)))))
  | AEither => (inl (inl (inl (inl (inr tt)))))
  | Proof_ => (inl (inl (inl (inr tt))))
  | AProof => (inl (inl (inr tt)))
  | Signature_ => (inl (inr tt))
  | ASignature => (inr tt)
  end.
Definition Authorization_of_data (v : unit + unit + unit + unit + unit + unit) : Authorization :=
  match v with
  | (inl (inl (inl (inl (inl tt))))) => NoneGiven
  | (inl (inl (inl (inl (inr tt))))) => AEither
  | (inl (inl (inl (inr tt)))) => Proof_
  | (inl (inl (inr tt))) => AProof
  | (inl (inr tt)) => Signature_
  | (inr tt) => ASignature
  end.
Global Instance Authorization_code : Countable Authorization.
Proof. refine (inj_countable' Authorization_data Authorization_of_data _). by intros []. Defined.
Global Instance Update_eqd : EqDecision Update.
Proof. solve_decision. Defined.
Global Instance Update_code : Countable Update.
Proof.
  refine (inj_countable' (fun r => (u_app_state r, u_delegate r, u_verification_key r, u_permissions r, u_zkapp_uri
    r, u_token_symbol r, u_timing r, u_voting_for r))
    (fun '(x0, x1, x2, x3, x4, x5, x6, x7) => mkUpdate x0 x1 x2 x3 x4 x5 x6 x7) _). by intros [].
Defined.
Global Instance AccountUpdateBody_eqd : EqDecision AccountUpdateBody.
Proof. solve_decision. Defined.
Global Instance AccountUpdateBody_code : Countable AccountUpdateBody.
Proof.
  refine (inj_countable' (fun r => (b_public_key r, b_token_id r, b_update r, b_magnitude r, b_sgn r,
    b_increment_nonce r, b_events r, b_actions r, b_implicit_account_creation_fee r, b_authorization_kind r))
    (fun '(x0, x1, x2, x3, x4, x5, x6, x7, x8, x9) => mkBody x0 x1 x2 x3 x4 x5 x6 x7 x8 x9) _). by intros [].
Defined.

(** Account updates with their calls, as trees. *)
Fixpoint Elt_data (e : Elt) : gen_tree AccountUpdateBody :=
  let (b, calls) := e in GenNode 0 (GenLeaf b :: map Elt_data calls).
Fixpoint Elt_of_data (t : gen_tree AccountUpdateBody) : option Elt :=
  match t with
  | GenNode 0 (GenLeaf b :: ts) => calls ← mapM Elt_of_data ts; Some (mkElt b calls)
  | _ => None
  end.
Fixpoint Elt_of_data_data (e : Elt) : Elt_of_data (Elt_data e) = Some e.
Proof.
  destruct e as [b calls]. cbn. assert (mapM Elt_of_data (map Elt_data calls) = Some calls) as ->; [|done].
  induction calls as [|e calls IH]; [done|]. cbn. rewrite Elt_of_data_data. cbn. by rewrite IH.
Qed.
Global Instance Elt_eqd : EqDecision Elt.
Proof.
  intros a b. refine (cast_if (decide (Elt_data a = Elt_data b))); [|congruence].
  abstract (apply (inj Some); rewrite <- !Elt_of_data_data; congruence).
Defined.
Global Instance Elt_code : Countable Elt := inj_countable Elt_data Elt_of_data Elt_of_data_data.

Global Instance ZkappCommandData_eqd : EqDecision ZkappCommandData.
Proof. solve_decision. Defined.
Global Instance ZkappCommandData_code : Countable ZkappCommandData.
Proof.
  refine (inj_countable' (fun r => (zk_memo r, zk_fee_payer_pk r, zk_fee r, zk_nonce r, zk_account_updates r, zk_rest
    r))
    (fun '(x0, x1, x2, x3, x4, x5) => mkZkappCommand x0 x1 x2 x3 x4 x5) _). by intros [].
Defined.
Global Instance PayloadCommon_eqd : EqDecision PayloadCommon.
Proof. solve_decision. Defined.
Global Instance PayloadCommon_code : Countable PayloadCommon.
Proof.
  refine (inj_countable' (fun r => (c_fee r, c_fee_payer_pk r, c_nonce r, c_memo r, c_rest r))
    (fun '(x0, x1, x2, x3, x4) => mkCommon x0 x1 x2 x3 x4) _). by intros [].
Defined.
Global Instance BodyV1_eqd : EqDecision BodyV1.
Proof. solve_decision. Defined.
Definition BodyV1_data (v : BodyV1) : (PublicKey * PublicKey * Z) + (PublicKey * PublicKey) :=
  match v with
  | PaymentV1 x0 x1 x2 => (inl (x0, x1, x2))
  | SetDelegateV1 x0 x1 => (inr (x0, x1))
  end.
Definition BodyV1_of_data (v : (PublicKey * PublicKey * Z) + (PublicKey * PublicKey)) : BodyV1 :=
  match v with
  | (inl (x0, x1, x2)) => PaymentV1 x0 x1 x2
  | (inr (x0, x1)) => SetDelegateV1 x0 x1
  end.
Global Instance BodyV1_code : Countable BodyV1.
Proof. refine (inj_countable' BodyV1_data BodyV1_of_data _). by intros []. Defined.
Global Instance BodyV2_eqd : EqDecision BodyV2.
Proof. solve_decision. Defined.
Definition BodyV2_data (v : BodyV2) : (PublicKey * Z) + (PublicKey) :=
  match v with
  | PaymentV2 x0 x1 => (inl (x0, x1))
  | StakeDelegationV2 x0 => (inr x0)
  end.
Definition BodyV2_of_data (v : (PublicKey * Z) + (PublicKey)) : BodyV2 :=
  match v with
  | (inl (x0, x1)) => PaymentV2 x0 x1
  | (inr x0) => StakeDelegationV2 x0
  end.
Global Instance BodyV2_code : Countable BodyV2.
Proof. refine (inj_countable' BodyV2_data BodyV2_of_data _). by intros []. Defined.
Global Instance UserCommandDataV2_eqd : EqDecision UserCommandDataV2.
Proof. solve_decision. Defined.
Definition UserCommandDataV2_data (v : UserCommandDataV2) : (PayloadCommon * BodyV2 * PublicKey) + (ZkappCommandData)
  :=
  match v with
  | SignedCommandData x0 x1 x2 => (inl (x0, x1, x2))
  | ZkappData x0 => (inr x0)
  end.
Definition UserCommandDataV2_of_data (v : (PayloadCommon * BodyV2 * PublicKey) + (ZkappCommandData)) :
  UserCommandDataV2 :=
  match v with
  | (inl (x0, x1, x2)) => SignedCommandData x0 x1 x2
  | (inr x0) => ZkappData x0
  end.
Global Instance UserCommandDataV2_code : Countable UserCommandDataV2.
Proof. refine (inj_countable' UserCommandDataV2_data UserCommandDataV2_of_data _). by intros []. Defined.
Global Instance AuxiliaryData_eqd : EqDecision AuxiliaryData.
Proof. solve_decision. Defined.
Global Instance AuxiliaryData_code : Countable AuxiliaryData.
Proof.
  refine (inj_countable' (fun r => (fee_payer_account_creation_fee r, receiver_account_creation_fee r,
    aux_created_token r))
    (fun '(x0, x1, x2) => mkAux x0 x1 x2) _). by intros [].
Defined.
Global Instance BalanceData_eqd : EqDecision BalanceData.
Proof. solve_decision. Defined.
Global Instance BalanceData_code : Countable BalanceData.
Proof.
  refine (inj_countable' (fun r => (bal_fee_payer r, bal_source r, bal_receiver r))
    (fun '(x0, x1, x2) => mkBal x0 x1 x2) _). by intros [].
Defined.
Global Instance CommandStatusData_eqd : EqDecision CommandStatusData.
Proof. solve_decision. Defined.
Definition CommandStatusData_data (v : CommandStatusData) : ((option AuxiliaryData) * (option BalanceData)) +
  ((option BalanceData)) :=
  match v with
  | Applied x0 x1 => (inl (x0, x1))
  | Failed x0 => (inr x0)
  end.
Definition CommandStatusData_of_data (v : ((option AuxiliaryData) * (option BalanceData)) + ((option BalanceData))) :
  CommandStatusData :=
  match v with
  | (inl (x0, x1)) => Applied x0 x1
  | (inr x0) => Failed x0
  end.
Global Instance CommandStatusData_code : Countable CommandStatusData.
Proof. refine (inj_countable' CommandStatusData_data CommandStatusData_of_data _). by intros []. Defined.
Global Instance UserCommandWithStatus_eqd : EqDecision UserCommandWithStatus.
Proof. solve_decision. Defined.
Definition UserCommandWithStatus_data (v : UserCommandWithStatus) : (PayloadCommon * BodyV1 * PublicKey *
  CommandStatusData) + (UserCommandDataV2 * CommandStatusData) :=
  match v with
  | UCV1 x0 x1 x2 x3 => (inl (x0, x1, x2, x3))
  | UCV2 x0 x1 => (inr (x0, x1))
  end.
Definition UserCommandWithStatus_of_data (v : (PayloadCommon * BodyV1 * PublicKey * CommandStatusData) +
  (UserCommandDataV2 * CommandStatusData)) : UserCommandWithStatus :=
  match v with
  | (inl (x0, x1, x2, x3)) => UCV1 x0 x1 x2 x3
  | (inr (x0, x1)) => UCV2 x0 x1
  end.
Global Instance UserCommandWithStatus_code : Countable UserCommandWithStatus.
Proof. refine (inj_countable' UserCommandWithStatus_data UserCommandWithStatus_of_data _). by intros []. Defined.
Global Instance SignedCommand_eqd : EqDecision SignedCommand.
Proof. solve_decision. Defined.
Definition SignedCommand_data (v : SignedCommand) : (PayloadCommon * BodyV1 * PublicKey) + (UserCommandDataV2) :=
  match v with
  | SCV1 x0 x1 x2 => (inl (x0, x1, x2))
  | SCV2 x0 => (inr x0)
  end.
Definition SignedCommand_of_data (v : (PayloadCommon * BodyV1 * PublicKey) + (UserCommandDataV2)) : SignedCommand :=
  match v with
  | (inl (x0, x1, x2)) => SCV1 x0 x1 x2
  | (inr x0) => SCV2 x0
  end.
Global Instance SignedCommand_code : Countable SignedCommand.
Proof. refine (inj_countable' SignedCommand_data SignedCommand_of_data _). by intros []. Defined.
Definition TxnHash_data (v : TxnHash) : (string) + (string) :=
  match v with
  | TxnHashV1 x0 => (inl x0)
  | TxnHashV2 x0 => (inr x0)
  end.
Definition TxnHash_of_data (v : (string) + (string)) : TxnHash :=
  match v with
  | (inl x0) => TxnHashV1 x0
  | (inr x0) => TxnHashV2 x0
  end.
Global Instance TxnHash_code : Countable TxnHash.
Proof. refine (inj_countable' TxnHash_data TxnHash_of_data _). by intros []. Defined.
Global Instance SignedCommandWithData_eqd : EqDecision SignedCommandWithData.
Proof. solve_decision. Defined.
Global Instance SignedCommandWithData_code : Countable SignedCommandWithData.
Proof.
  refine (inj_countable' (fun r => (sc_command r, sc_state_hash r, sc_status r, sc_tx_hash r, sc_blockchain_length r,
    sc_date_time r, sc_nonce r, sc_global_slot_since_genesis r))
    (fun '(x0, x1, x2, x3, x4, x5, x6, x7) => mkSignedData x0 x1 x2 x3 x4 x5 x6 x7) _). by intros [].
Defined.
(** Blocks. *)
Global Instance SnarkWorkSummary_eqd : EqDecision SnarkWorkSummary.
Proof. solve_decision. Defined.
Global Instance SnarkWorkSummary_code : Countable SnarkWorkSummary.
Proof.
  refine (inj_countable' (fun r => (snark_fee r, snark_prover r))
    (fun '(x0, x1) => mkSnark x0 x1) _). by intros [].
Defined.
Global Instance CoinbaseFeeTransfer_code : Countable CoinbaseFeeTransfer.
Proof.
  refine (inj_countable' (fun r => (ft_receiver_pk r, ft_fee r))
    (fun '(x0, x1) => mkFeeTransfer x0 x1) _). by intros [].
Defined.
Global Instance CoinbaseV1_eqd : EqDecision CoinbaseV1.
Proof. solve_decision. Defined.
Definition CoinbaseV1_data (v : CoinbaseV1) : unit + ((option CoinbaseFeeTransfer)) + ((option CoinbaseFeeTransfer) *
  (option CoinbaseFeeTransfer)) :=
  match v with
  | V1None => (inl (inl tt))
  | V1Coinbase x0 => (inl (inr x0))
  | V1CoinbaseAndFeeTransferViaCoinbase x0 x1 => (inr (x0, x1))
  end.
Definition CoinbaseV1_of_data (v : unit + ((option CoinbaseFeeTransfer)) + ((option CoinbaseFeeTransfer) * (option
  CoinbaseFeeTransfer))) : CoinbaseV1 :=
  match v with
  | (inl (inl tt)) => V1None
  | (inl (inr x0)) => V1Coinbase x0
  | (inr (x0, x1)) => V1CoinbaseAndFeeTransferViaCoinbase x0 x1
  end.
Global Instance CoinbaseV1_code : Countable CoinbaseV1.
Proof. refine (inj_countable' CoinbaseV1_data CoinbaseV1_of_data _). by intros []. Defined.
Global Instance CoinbaseV2_eqd : EqDecision CoinbaseV2.
Proof. solve_decision. Defined.
Definition CoinbaseV2_data (v : CoinbaseV2) : unit + ((option CoinbaseFeeTransfer)) + ((option (CoinbaseFeeTransfer *
  option CoinbaseFeeTransfer))) :=
  match v with
  | V2Zero => (inl (inl tt))
  | V2One x0 => (inl (inr x0))
  | V2Two x0 => (inr x0)
  end.
Definition CoinbaseV2_of_data (v : unit + ((option CoinbaseFeeTransfer)) + ((option (CoinbaseFeeTransfer * option
  CoinbaseFeeTransfer)))) : CoinbaseV2 :=
  match v with
  | (inl (inl tt)) => V2Zero
  | (inl (inr x0)) => V2One x0
  | (inr x0) => V2Two x0
  end.
Global Instance CoinbaseV2_code : Countable CoinbaseV2.
Proof. refine (inj_countable' CoinbaseV2_data CoinbaseV2_of_data _). by intros []. Defined.
Global Instance InternalCommandBalanceData_eqd : EqDecision InternalCommandBalanceData.
Proof. solve_decision. Defined.
Definition InternalCommandBalanceData_data (v : InternalCommandBalanceData) : (Z) + (Z * (option Z)) :=
  match v with
  | IBCoinbase x0 => (inl x0)
  | IBFeeTransfer x0 x1 => (inr (x0, x1))
  end.
Definition InternalCommandBalanceData_of_data (v : (Z) + (Z * (option Z))) : InternalCommandBalanceData :=
  match v with
  | (inl x0) => IBCoinbase x0
  | (inr (x0, x1)) => IBFeeTransfer x0 x1
  end.
Global Instance InternalCommandBalanceData_code : Countable InternalCommandBalanceData.
Proof. refine (inj_countable' InternalCommandBalanceData_data InternalCommandBalanceData_of_data _). by intros [].
  Defined.
Global Instance DiffV1_eqd : EqDecision DiffV1.
Proof. solve_decision. Defined.
Global Instance DiffV1_code : Countable DiffV1.
Proof.
  refine (inj_countable' (fun r => (dv1_completed_works r, dv1_commands r, dv1_coinbase r,
    dv1_internal_command_balances r))
    (fun '(x0, x1, x2, x3) => mkDiffV1 x0 x1 x2 x3) _). by intros [].
Defined.
Global Instance DiffV2_eqd : EqDecision DiffV2.
Proof. solve_decision. Defined.
Global Instance DiffV2_code : Countable DiffV2.
Proof.
  refine (inj_countable' (fun r => (dv2_completed_works r, dv2_commands r, dv2_coinbase r))
    (fun '(x0, x1, x2) => mkDiffV2 x0 x1 x2) _). by intros [].
Defined.
Global Instance AccountAccessedV2_eqd : EqDecision AccountAccessedV2.
Proof. solve_decision. Defined.
Global Instance AccountAccessedV2_code : Countable AccountAccessedV2.
Proof.
  refine (inj_countable' (fun r => (aa_balance r, aa_nonce r, aa_public_key r, aa_receipt_chain_hash r, aa_delegate
    r, aa_token_id r, aa_token_symbol r, aa_voting_for r, aa_permissions r, aa_timing r, aa_zkapp r))
    (fun '(x0, x1, x2, x3, x4, x5, x6, x7, x8, x9, x10) => mkAccessed x0 x1 x2 x3 x4 x5 x6 x7 x8 x9 x10) _). by
      intros [].
Defined.
Global Instance BlockHeader_eqd : EqDecision BlockHeader.
Proof. solve_decision. Defined.
Global Instance BlockHeader_code : Countable BlockHeader.
Proof.
  refine (inj_countable' (fun r => (bh_network r, bh_state_hash r, bh_blockchain_length r, bh_scheduled_time r,
    bh_previous_state_hash r, bh_staged_ledger_hash r, bh_genesis_state_hash r, bh_timestamp r, bh_total_currency r,
      bh_block_creator r, bh_block_stake_winner r, bh_coinbase_receiver r, bh_supercharge_coinbase r,
        bh_global_slot_since_genesis r, bh_epoch_count r, bh_last_vrf_output r))
    (fun '(x0, x1, x2, x3, x4, x5, x6, x7, x8, x9, x10, x11, x12, x13, x14, x15) => mkHeader x0 x1 x2 x3 x4 x5 x6 x7
      x8 x9 x10 x11 x12 x13 x14 x15) _). by intros [].
Defined.
Global Instance PrecomputedBlock_eqd : EqDecision PrecomputedBlock.
Proof. solve_decision. Defined.
Definition PrecomputedBlock_data (v : PrecomputedBlock) : (BlockHeader * DiffV1 * (option DiffV1)) + (BlockHeader *
  (list (option DiffV2)) * (list (Z * AccountAccessedV2)) * (list ((PublicKey * TokenAddress) * string))) :=
  match v with
  | PcbV1 x0 x1 x2 => (inl (x0, x1, x2))
  | PcbV2 x0 x1 x2 x3 => (inr (x0, x1, x2, x3))
  end.
Definition PrecomputedBlock_of_data (v : (BlockHeader * DiffV1 * (option DiffV1)) + (BlockHeader * (list (option
  DiffV2)) * (list (Z * AccountAccessedV2)) * (list ((PublicKey * TokenAddress) * string)))) : PrecomputedBlock :=
  match v with
  | (inl (x0, x1, x2)) => PcbV1 x0 x1 x2
  | (inr (x0, x1, x2, x3)) => PcbV2 x0 x1 x2 x3
  end.
Global Instance PrecomputedBlock_code : Countable PrecomputedBlock.
Proof. refine (inj_countable' PrecomputedBlock_data PrecomputedBlock_of_data _). by intros []. Defined.
Definition PcbVersion_data (v : PcbVersion) : unit + unit :=
  match v with
  | V1 => (inl tt)
  | V2 => (inr tt)
  end.
Definition PcbVersion_of_data (v : unit + unit) : PcbVersion :=
  match v with
  | (inl tt) => V1
  | (inr tt) => V2
  end.
Global Instance PcbVersion_code : Countable PcbVersion.
Proof. refine (inj_countable' PcbVersion_data PcbVersion_of_data _). by intros []. Defined.
Global Instance BlockComparison_eqd : EqDecision BlockComparison.
Proof. solve_decision. Defined.
Global Instance BlockComparison_code : Countable BlockComparison.
Proof.
  refine (inj_countable' (fun r => (cmp_state_hash r, cmp_blockchain_length r, cmp_hash_last_vrf_output r,
    cmp_version r))
    (fun '(x0, x1, x2, x3) => mkComparison x0 x1 x2 x3) _). by intros [].
Defined.
