(* ===== verification/Schema.v ===== *)
(** The types of the values in the database: which families hold counters, amounts, hashes and keys.  The readers of
    the stores panic on a counter that is not four bytes long, so that a store is used safely
    exactly when its values have their types; writes of typed values keep them.  The last part
    is the refinement of a list by a counter and entries at numbered keys, which most of the
    stores use. *)

From S2P Require Import Prelude Bytes Base StoreKeys BlockOrder Rose Branch WitnessTree ColumnFamilies Db Events.

(** * Fixed keys of the counters *)

Definition TOTAL_NUM_ACCOUNTS_KEY : list Z := as_bytes "total_num_accounts".
Definition TOTAL_NUM_SNARKS_KEY : list Z := as_bytes "total_num_snarks".
Definition TOTAL_NUM_CANONICAL_SNARKS_KEY : list Z := as_bytes "total_num_canonical_snarks".
Definition TOTAL_NUM_FEE_TRANSFERS_KEY : list Z := as_bytes "total_num_fee_transfers".
Definition TOTAL_NUM_CANONICAL_FEE_TRANSFERS_KEY : list Z := as_bytes "total_num_canonical_fee_transfers_key".
Definition TOTAL_NUM_USER_COMMANDS_KEY : list Z := as_bytes "total_num_user_commands".
Definition TOTAL_NUM_APPLIED_USER_COMMANDS_KEY : list Z := as_bytes "total_num_applied_user_commands_key".
Definition TOTAL_NUM_FAILED_USER_COMMANDS_KEY : list Z := as_bytes "total_num_failed_user_commands_key".
Definition TOTAL_NUM_APPLIED_CANONICAL_USER_COMMANDS_KEY : list Z :=
  as_bytes "total_num_applied_canonical_user_commands_key".
Definition TOTAL_NUM_FAILED_CANONICAL_USER_COMMANDS_KEY : list Z :=
  as_bytes "total_num_failed_canonical_user_commands_key".
Definition TOTAL_NUM_CANONICAL_USER_COMMANDS_KEY : list Z := as_bytes "total_num_canonical_user_commands_key".

(** * Types *)

Inductive ValueType := TU32 | TU64 | THash | TKey | TAny.

Definition has_type (t : ValueType) (v : list Z) : Prop :=
  match t with
  | TU32 => exists n, u32 n /\ v = u32_be n
  | TU64 => exists n, u64 n /\ v = u64_be n
  | THash => exists h, sh_from_bytes v = Ok h
  | TKey => exists pk, pk_from_bytes v = Ok pk
  | TAny => True
  end.

Definition u32_families : list string :=
  [block_height_cf; block_global_slot_cf; block_epoch_cf; blocks_pk_count_cf; block_epoch_slots_produced_count_cf;
   block_pk_epoch_slots_produced_count_cf; block_production_pk_epoch_cf; block_production_pk_canonical_epoch_cf;
   block_production_pk_supercharged_epoch_cf; block_production_pk_total_cf; block_production_pk_canonical_total_cf;
   block_production_pk_supercharged_total_cf; block_production_epoch_cf; block_production_canonical_epoch_cf;
   block_production_supercharged_epoch_cf; username_pk_num_cf; internal_commands_epoch_cf;
   internal_commands_pk_epoch_cf; internal_commands_pk_total_cf; internal_commands_pk_num_cf;
   block_internal_command_counts_cf; internal_commands_block_num_cf; user_commands_pk_num_cf; user_commands_epoch_cf;
   user_commands_pk_epoch_cf; user_commands_pk_total_cf; block_user_command_counts_cf;
   user_commands_num_containing_blocks_cf; user_commands_txn_hash_to_global_slot_cf; snarks_epoch_cf;
   snarks_pk_epoch_cf; snarks_pk_total_cf; block_snark_counts_cf; best_ledger_accounts_num_delegations_cf;
   zkapp_actions_pk_num_cf; zkapp_events_pk_num_cf; staged_ledger_accounts_min_block_cf;
   staking_ledger_hash_to_epoch_cf; staking_ledger_accounts_count_epoch_cf].

Definition u64_families : list string :=
  [snark_prover_fees_cf; snark_prover_max_fee_cf; snark_prover_min_fee_cf; snark_prover_fees_epoch_cf;
   snark_prover_max_fee_epoch_cf; snark_prover_min_fee_epoch_cf; staking_ledger_total_currency_cf].

Definition hash_families : list string :=
  [block_parent_hash_cf; block_genesis_state_hash_cf; canonicity_length_cf; canonicity_slot_cf; staking_ledger_genesis_hash_cf].

Definition key_families : list string := [block_creator_cf; block_coinbase_receiver_cf].

(** Families with a counter at each four byte key and hashes at the longer ones. *)
Definition list_families : list string := [blocks_at_height_cf; blocks_at_global_slot_cf].

Definition u32_keys : list (list Z) :=
  [NEXT_EVENT_SEQ_NUM_KEY; TOTAL_NUM_BLOCKS_KEY; TOTAL_NUM_BLOCKS_SUPERCHARGED_KEY; TOTAL_NUM_ACCOUNTS_KEY;
   TOTAL_NUM_SNARKS_KEY; TOTAL_NUM_CANONICAL_SNARKS_KEY; TOTAL_NUM_FEE_TRANSFERS_KEY;
   TOTAL_NUM_CANONICAL_FEE_TRANSFERS_KEY; TOTAL_NUM_USER_COMMANDS_KEY; TOTAL_NUM_APPLIED_USER_COMMANDS_KEY;
   TOTAL_NUM_FAILED_USER_COMMANDS_KEY; TOTAL_NUM_APPLIED_CANONICAL_USER_COMMANDS_KEY;
   TOTAL_NUM_FAILED_CANONICAL_USER_COMMANDS_KEY; TOTAL_NUM_CANONICAL_USER_COMMANDS_KEY].

Definition family_in (cfs : list string) (cf : string) : bool := existsb (String.eqb cf) cfs.

Definition value_type (cf : string) (k : list Z) : ValueType :=
  if family_in u32_families cf then TU32
  else if family_in u64_families cf then TU64
  else if family_in hash_families cf then THash
  else if family_in key_families cf then TKey
  else if family_in list_families cf then (if bool_decide (length k = U32_LEN) then TU32 else THash)
  else if String.eqb cf default_cf then
    if bool_decide (k ∈ u32_keys) then TU32
    else if bool_decide (k = BEST_TIP_STATE_HASH_KEY) then THash
    else if bool_decide (k = NUM_BLOCK_BYTES_PROCESSED) then TU64
    else TAny
  else TAny.

Section Typed.
Context `{SpeedbSpec}.
Implicit Types (db : Db).

Definition well_typed db : Prop := forall cf k v, cf_get db cf k = Some v -> has_type (value_type cf k) v.

Definition typed_op (w : WriteOp) : Prop :=
  match w with Put cf k v => has_type (value_type cf k) v | Delete _ _ => True end.

Lemma well_typed_op w db : typed_op w -> well_typed db -> well_typed (write_op db w).
Proof.
  intros Hw Hdb cf k v. rewrite write_op_get. destruct (decide _) as [E|_]; [|apply Hdb].
  destruct w; cbn [op_cf op_key op_value] in *; [|done]. injection E as <- <-. intros [= <-]. exact Hw.
Qed.

Lemma well_typed_put cf k v db : has_type (value_type cf k) v -> well_typed db -> well_typed (cf_put cf k v db).
Proof. apply (well_typed_op (Put cf k v)). Qed.
Lemma well_typed_delete cf k db : well_typed db -> well_typed (cf_delete cf k db).
Proof. by apply (well_typed_op (Delete cf k)). Qed.

Lemma well_typed_write batch db : Forall typed_op batch -> well_typed db -> well_typed (write batch db).
Proof.
  intros Hb. revert db. induction Hb as [|w batch Hw _ IH]; intros db Hdb; [done|].
  apply IH. by apply well_typed_op.
Qed.

(** ** Reading typed values *)

Lemma get_u32_typed db cf k :
  well_typed db -> value_type cf k = TU32 -> exists n, u32 n /\ get_u32 db cf k = Ok n.
Proof.
  intros Hdb Ht. unfold get_u32. destruct (cf_get db cf k) as [v|] eqn:E; [|exists 0; split; [ints|done]].
  apply Hdb in E. rewrite Ht in E. destruct E as (n & Hn & ->). exists n. split; [done|by apply from_be_bytes_u32].
Qed.

Lemma map_u32_typed db cf k :
  well_typed db -> value_type cf k = TU32 ->
  exists o, map_res from_be_bytes (cf_get db cf k) = Ok o /\ forall n, o = Some n -> u32 n.
Proof.
  intros Hdb Ht. destruct (cf_get db cf k) as [v|] eqn:E; [|by exists None].
  apply Hdb in E. rewrite Ht in E. destruct E as (n & Hn & ->). exists (Some n). cbn [map_res].
  rewrite from_be_bytes_u32 by done. split; [done|congruence].
Qed.

Lemma from_hash_typed db cf k :
  well_typed db -> value_type cf k = THash ->
  exists o, and_then_ok sh_from_bytes (cf_get db cf k) = Ok o.
Proof.
  intros Hdb Ht. destruct (cf_get db cf k) as [v|] eqn:E; [|by exists None].
  apply Hdb in E. rewrite Ht in E. destruct E as (h & E). exists (Some h). cbn [and_then_ok]. by rewrite E.
Qed.

Lemma from_key_typed db cf k :
  well_typed db -> value_type cf k = TKey ->
  exists o, and_then_ok pk_from_bytes (cf_get db cf k) = Ok o.
Proof.
  intros Hdb Ht. destruct (cf_get db cf k) as [v|] eqn:E; [|by exists None].
  apply Hdb in E. rewrite Ht in E. destruct E as (pk & E). exists (Some pk). cbn [and_then_ok]. by rewrite E.
Qed.
End Typed.

(** ** Writes to some families *)

Section Frame.
Context `{SpeedbSpec}.
Implicit Types (db : Db) (cfs : list string).

Lemma family_in_elem cfs cf : family_in cfs cf = true <-> cf ∈ cfs.
Proof.
  unfold family_in. rewrite existsb_exists. split.
  - intros (x & Hx & E). apply String.eqb_eq in E as ->. by apply list_elem_of_In.
  - intros Hc. exists cf. split; [by apply list_elem_of_In|apply String.eqb_refl].
Qed.

Lemma writes_then_put cfs db0 db cf k v :
  writes_in cfs db0 db -> family_in cfs cf = true -> writes_in cfs db0 (cf_put cf k v db).
Proof. intros Hw Hcf. eapply writes_in_trans; [exact Hw|]. apply writes_in_put. by apply family_in_elem. Qed.
Lemma writes_then_delete cfs db0 db cf k :
  writes_in cfs db0 db -> family_in cfs cf = true -> writes_in cfs db0 (cf_delete cf k db).
Proof. intros Hw Hcf. eapply writes_in_trans; [exact Hw|]. apply writes_in_delete. by apply family_in_elem. Qed.

(** What is read from another family is as before. *)
Lemma writes_get cfs db db' cf k :
  writes_in cfs db db' -> family_in cfs cf = false -> cf_get db' cf k = cf_get db cf k.
Proof.
  intros Hw Hcf. apply (writes_in_get _ _ _ _ _ Hw). intros Hin. apply family_in_elem in Hin. congruence.
Qed.
Lemma writes_get_u32 cfs db db' cf k :
  writes_in cfs db db' -> family_in cfs cf = false -> get_u32 db' cf k = get_u32 db cf k.
Proof. intros Hw Hcf. unfold get_u32. by rewrite (writes_get _ _ _ _ _ Hw Hcf). Qed.

Lemma subset_families cfs cfs' db db' :
  writes_in cfs db db' -> forallb (family_in cfs') cfs = true -> writes_in cfs' db db'.
Proof.
  intros Hw Hs. apply (writes_in_weaken _ _ _ _ Hw). intros cf Hcf. apply family_in_elem.
  rewrite forallb_forall in Hs. apply Hs. by apply list_elem_of_In.
Qed.
End Frame.

(** The writes of an operation, one by one. *)
Ltac frame :=
  repeat first
    [ apply writes_in_refl
    | apply writes_then_put; [|reflexivity]
    | apply writes_then_delete; [|reflexivity]
    | eassumption
    | eapply writes_in_trans; [eassumption|] ].

(** The value of a concrete key after concrete writes. *)
Ltac get_put :=
  repeat first
    [ rewrite cf_get_put, decide_True by done
    | rewrite cf_get_put, decide_False by done
    | rewrite cf_get_delete, decide_True by done
    | rewrite cf_get_delete, decide_False by done ].

Lemma has_type_u32 n : u32 n -> has_type TU32 (u32_be n).
Proof. intros Hn. by exists n. Qed.
Lemma has_type_u64 n : u64 n -> has_type TU64 (u64_be n).
Proof. intros Hn. by exists n. Qed.
Lemma u32_wrap32 z : u32 (wrap32 z).
Proof. unfold u32, wrap32, U32_MAX. pose proof (Z.mod_pos_bound z 4294967296). lia. Qed.
#[export] Hint Resolve well_typed_put well_typed_delete well_typed_write has_type_u32 u32_wrap32 : db.

(** ** Operations that succeed and keep the types *)

Definition typed_step `{Speedb} (cfs : list string) (r : res Db) (db : Db) : Prop :=
  exists db', r = Ok db' /\ well_typed db' /\ writes_in cfs db db'.

Section Steps.
Context `{SpeedbSpec}.
Implicit Types (db : Db) (cfs : list string).

Lemma typed_step_ok cfs db : well_typed db -> typed_step cfs (Ok db) db.
Proof. intros Hdb. exists db. split_and!; [done|done|frame]. Qed.
Lemma typed_step_put cfs cf k v db :
  well_typed db -> has_type (value_type cf k) v -> family_in cfs cf = true -> typed_step cfs (Ok (cf_put cf k v db)) db.
Proof. intros Hdb Hv Hcf. exists (cf_put cf k v db). split_and!; [done|by apply well_typed_put|]. apply writes_then_put; [apply writes_in_refl|done]. Qed.

(** A write before the rest of the operation. *)
Lemma typed_step_then cfs db0 db r : writes_in cfs db0 db -> typed_step cfs r db -> typed_step cfs r db0.
Proof. intros Hw (db' & E & Hdb' & Hw'). exists db'. split_and!; [done|done|by eapply writes_in_trans]. Qed.

Lemma typed_step_bind cfs r (k : Db -> res Db) db :
  typed_step cfs r db -> (forall db', well_typed db' -> typed_step cfs (k db') db') -> typed_step cfs (r ≫= k) db.
Proof.
  intros (db1 & -> & Hdb1 & Hw1) Hk. cbn [mbind res_bind]. apply (typed_step_then _ _ db1); [done|]. by apply Hk.
Qed.
Lemma typed_step_foldM {A} cfs (f : Db -> A -> res Db) l db :
  well_typed db -> (forall db a, a ∈ l -> well_typed db -> typed_step cfs (f db a) db) -> typed_step cfs (foldM f db l) db.
Proof.
  intros Hdb Hf. revert db Hdb. induction l as [|a l IH]; intros db Hdb; [by apply typed_step_ok|]. cbn [foldM].
  apply typed_step_bind; [apply Hf; [by left|done]|]. intros db' Hdb'. apply IH; [|done]. intros d b Hb. apply Hf. by right.
Qed.
Lemma typed_step_weaken cfs cfs' r db : typed_step cfs r db -> forallb (family_in cfs') cfs = true -> typed_step cfs' r db.
Proof. intros (db' & E & Hdb' & Hw) Hs. exists db'. split_and!; [done|done|by eapply subset_families]. Qed.
End Steps.

Section EventSteps.
Context `{SpeedbSpec} `{Json IndexerEvent}.
Lemma add_event_typed e db :
  well_typed db -> exists n db', add_event e db = Ok (n, db') /\ well_typed db' /\ writes_in [events_cf; default_cf] db db'.
Proof.
  intros Hdb. unfold add_event, get_next_seq_num.
  destruct (get_u32_typed db default_cf NEXT_EVENT_SEQ_NUM_KEY Hdb eq_refl) as (n & _ & ->). cbn [mbind res_bind].
  destruct e; do 2 eexists; (split_and!; [done| |frame]); [|done].
  apply well_typed_put; [apply (has_type_u32 _), u32_wrap32|]. by apply well_typed_put.
Qed.
End EventSteps.

(** ** Writes to some keys of the default family *)

Definition in_scope (cfs : list string) (keys : list (list Z)) (cf : string) (k : list Z) : bool :=
  family_in cfs cf || (String.eqb cf default_cf && existsb (fun k' => bool_decide (k' = k)) keys).

(** Outside the families, and the keys of the default family, everything is read as before. *)
Definition kept `{Speedb} (cfs : list string) (keys : list (list Z)) (db db' : Db) : Prop :=
  forall cf k, in_scope cfs keys cf k = false -> cf_get db' cf k = cf_get db cf k.
(** The same of an operation, when it succeeds. *)
Definition touches `{Speedb} (cfs : list string) (keys : list (list Z)) (r : res Db) (db : Db) : Prop :=
  forall db', r = Ok db' -> kept cfs keys db db'.

Section Scopes.
Context `{SpeedbSpec}.
Implicit Types (db : Db).

Lemma kept_refl cfs keys db : kept cfs keys db db.
Proof. done. Qed.
Lemma kept_trans cfs keys db1 db2 db3 : kept cfs keys db1 db2 -> kept cfs keys db2 db3 -> kept cfs keys db1 db3.
Proof. intros H1 H2 cf k Hk. by rewrite H2, H1. Qed.
Lemma kept_writes cfs keys db db' : writes_in cfs db db' -> kept cfs keys db db'.
Proof. intros Hw cf k Hk. apply orb_false_iff in Hk as [Hk _]. by apply (writes_get _ _ _ _ _ Hw). Qed.
Lemma kept_weaken cfs keys cfs' keys' db db' :
  kept cfs keys db db' -> forallb (family_in cfs') cfs = true -> forallb (fun k => existsb (fun k' => bool_decide (k' = k)) keys') keys = true ->
  kept cfs' keys' db db'.
Proof.
  intros Hk Hc Hs cf k Hn. apply Hk. unfold in_scope in *. apply orb_false_iff in Hn as [Hn1 Hn2]. apply orb_false_iff. split.
  - destruct (family_in cfs cf) eqn:E; [|done]. apply family_in_elem in E. rewrite forallb_forall in Hc.
    rewrite Hc in Hn1; [done|]. by apply list_elem_of_In.
  - destruct (String.eqb cf default_cf); [|done]. cbn [andb] in *. destruct (existsb _ keys) eqn:E; [|done].
    apply existsb_exists in E as (k' & Hk' & E). apply bool_decide_eq_true in E as ->. rewrite forallb_forall in Hs.
    by rewrite Hs in Hn2.
Qed.

Lemma kept_put cfs keys cf k v db : in_scope cfs keys cf k = true -> kept cfs keys db (cf_put cf k v db).
Proof. intros Hs cf' k' Hk. rewrite cf_get_put, decide_False; [done|]. intros [= -> ->]. congruence. Qed.

Lemma touches_ok cfs keys db : touches cfs keys (Ok db) db.
Proof. by intros db' [= <-]. Qed.
Lemma touches_put cfs keys cf k v db : in_scope cfs keys cf k = true -> touches cfs keys (Ok (cf_put cf k v db)) db.
Proof. intros Hs db' [= <-]. by apply kept_put. Qed.
Lemma touches_bind cfs keys r (k : Db -> res Db) db :
  touches cfs keys r db -> (forall db', touches cfs keys (k db') db') -> touches cfs keys (r ≫= k) db.
Proof.
  intros Hr Hk db' E. destruct r as [db1| |] eqn:Er; [|done..]. cbn [mbind res_bind] in E.
  eapply kept_trans; [by apply Hr|by eapply Hk].
Qed.
Lemma touches_pure {A} cfs keys (r : res A) (k : A -> res Db) db :
  (forall a, touches cfs keys (k a) db) -> touches cfs keys (r ≫= k) db.
Proof. intros Hk db' E. destruct r as [a| |]; [|done..]. by eapply Hk. Qed.
Lemma touches_foldM {A} cfs keys (f : Db -> A -> res Db) l db :
  (forall db a, touches cfs keys (f db a) db) -> touches cfs keys (foldM f db l) db.
Proof.
  intros Hf. revert db. induction l as [|a l IH]; intros db; [apply touches_ok|]. cbn [foldM]. by apply touches_bind.
Qed.
(** What is read at the families and keys is the same. *)
Definition agree (cfs : list string) (keys : list (list Z)) db db' : Prop :=
  forall cf k, in_scope cfs keys cf k = true -> cf_get db' cf k = cf_get db cf k.
Definition disjoint_scopes (cfs : list string) (keys : list (list Z)) (rcfs : list string) (rkeys : list (list Z)) : bool :=
  forallb (fun cf => negb (family_in cfs cf) && negb (String.eqb cf default_cf)) rcfs &&
  forallb (fun k => negb (in_scope cfs keys default_cf k)) rkeys.

Lemma agree_refl cfs keys db : agree cfs keys db db.
Proof. done. Qed.
Lemma agree_trans cfs keys db1 db2 db3 : agree cfs keys db1 db2 -> agree cfs keys db2 db3 -> agree cfs keys db1 db3.
Proof. intros H1 H2 cf k Hk. by rewrite H2, H1. Qed.
Lemma kept_agree cfs keys rcfs rkeys db db' :
  kept cfs keys db db' -> disjoint_scopes cfs keys rcfs rkeys = true -> agree rcfs rkeys db db'.
Proof.
  intros Hk Hd cf k Hr. apply Hk. unfold disjoint_scopes in Hd. rewrite andb_true_iff, !forallb_forall in Hd. destruct Hd as [Hc Hs].
  unfold in_scope in Hr. apply orb_true_iff in Hr as [Hr|Hr].
  - apply family_in_elem, list_elem_of_In, Hc in Hr. rewrite andb_true_iff, !negb_true_iff in Hr. destruct Hr as [Hr Hn].
    unfold in_scope. by rewrite Hr, Hn.
  - apply andb_true_iff in Hr as [Hcf Hr]. apply String.eqb_eq in Hcf as ->. apply existsb_exists in Hr as (k' & Hin & E).
    apply bool_decide_eq_true in E as ->. apply Hs in Hin. by apply negb_true_iff in Hin.
Qed.
Lemma agree_u32 cfs keys db db' cf k : agree cfs keys db db' -> in_scope cfs keys cf k = true -> get_u32 db' cf k = get_u32 db cf k.
Proof. intros Ha Hs. unfold get_u32. by rewrite (Ha _ _ Hs). Qed.
End Scopes.

(** What an invariant reads is carried over the steps of an operation. *)
Ltac carry :=
  repeat first
    [ apply agree_refl
    | eapply agree_trans; [eapply kept_agree; [eassumption|reflexivity]|] ].

(** * Lists at numbered keys *)

(** A list read entry by entry. *)
Lemma mapM_seq {A} (g : nat -> res A) (l : list A) :
  (forall i a, l !! i = Some a -> g i = Ok a) -> mapM g (seq 0 (length l)) = Ok l.
Proof.
  intros Hg. assert (forall k n, (forall i a, k !! i = Some a -> g (n + i)%nat = Ok a) -> mapM g (seq n (length k)) = Ok k) as Hk;
    [|by apply Hk].
  induction k as [|a k IH]; intros n Hn; [done|]. cbn [length seq mapM].
  pose proof (Hn 0%nat a eq_refl) as E. rewrite Nat.add_0_r in E. rewrite E. cbn [mbind res_bind].
  rewrite IH; [done|]. intros i b Hi. rewrite Nat.add_succ_comm. by apply Hn.
Qed.

(** A counter, and an entry at each key below it. *)
Record numbered `{Speedb} {A} (enc : A -> list Z) (ccf : string) (ckey : list Z) (cf : string) (key : Z -> list Z)
    (db : Db) (l : list A) : Prop := {
  nl_count : get_u32 db ccf ckey = Ok (Z.of_nat (length l));
  nl_bound : Z.of_nat (length l) <= U32_MAX;
  nl_entry i a : l !! i = Some a -> cf_get db cf (key (Z.of_nat i)) = Some (enc a)
}.

Section Numbered.
Context `{SpeedbSpec} {A} (enc : A -> list Z) (ccf : string) (ckey : list Z) (cf : string) (key : Z -> list Z).
Notation numbered := (numbered enc ccf ckey cf key).
Implicit Types (db : Db) (l : list A).

Lemma numbered_nil db : cf_get db ccf ckey = None -> numbered db [].
Proof. intros E. split; [unfold get_u32; by rewrite E|done|]. intros i a Hi. by rewrite lookup_nil in Hi. Qed.

(** An entry written at the next key and the counter incremented. *)
Lemma numbered_snoc db db' l a :
  numbered db l -> Z.of_nat (length l) < U32_MAX ->
  cf_get db' ccf ckey = Some (u32_be (wrap32 (Z.of_nat (length l) + 1))) ->
  cf_get db' cf (key (Z.of_nat (length l))) = Some (enc a) ->
  (forall i, (i < length l)%nat -> cf_get db' cf (key (Z.of_nat i)) = cf_get db cf (key (Z.of_nat i))) ->
  numbered db' (l ++ [a]).
Proof.
  intros Hl Hlt Hc Hn Ho. rewrite wrap32_id in Hc by ints. split.
  - unfold get_u32. rewrite Hc, from_be_bytes_u32 by ints. f_equal. rewrite length_app. cbn [length]. lia.
  - rewrite length_app. cbn [length]. lia.
  - intros i b Hi. apply lookup_snoc_Some in Hi as [[Hi Hb]|[-> ->]]; [|done].
    rewrite Ho by done. by apply Hl.
Qed.

(** The counter decremented. *)
Lemma numbered_unsnoc db db' l a :
  numbered db (l ++ [a]) -> cf_get db' ccf ckey = Some (u32_be (Z.of_nat (length l))) ->
  (forall i, (i < length l)%nat -> cf_get db' cf (key (Z.of_nat i)) = cf_get db cf (key (Z.of_nat i))) ->
  numbered db' l.
Proof.
  intros Hl Hc Ho. pose proof (nl_bound _ _ _ _ _ _ _ Hl) as Hb. rewrite length_app in Hb. cbn [length] in Hb.
  split.
  - unfold get_u32. rewrite Hc, from_be_bytes_u32 by ints. done.
  - lia.
  - intros i b Hi. rewrite Ho by (by apply lookup_lt_Some in Hi).
    apply Hl. by apply lookup_app_l_Some.
Qed.

(** Writes elsewhere do not matter. *)
Lemma numbered_same db db' l :
  numbered db l -> cf_get db' ccf ckey = cf_get db ccf ckey ->
  (forall i, cf_get db' cf (key i) = cf_get db cf (key i)) -> numbered db' l.
Proof.
  intros Hl Hc Ho. split; [unfold get_u32; rewrite Hc; by apply Hl|apply Hl|].
  intros i a Hi. rewrite Ho. by apply Hl.
Qed.
End Numbered.

(** * Examples *)

Section Empty.
#[local] Existing Instances map_db map_db_spec.

Lemma empty_well_typed : well_typed (∅ : Db).
Proof. intros cf k v E. cbn in E. by rewrite lookup_empty in E. Qed.
End Empty.

Lemma pk_example_wf : pk_wf pk_example.
Proof. split; vm_compute; reflexivity. Qed.
