(* ===== verification/BlockIndex.v ===== *)
(** The indices of the block store (src/rust/src/store/block_store_impl.rs): per block data, blocks by height, slot
    and public key, best tip, block production counts, and slots produced.  An operation that
    adds to a batch returns the writes it adds. *)

From S2P Require Import Prelude Bytes Base StoreKeys Command AccountDiff Account Coinbase Precomputed LedgerDiff BlockOrder Branch WitnessTree ColumnFamilies Db Events Schema.

(** * Keys, values and counters *)

Definition sh_key (h : StateHash) : list Z := as_bytes (sh_str h).
Definition pk_key (pk : PublicKey) : list Z := as_bytes (pk_str pk).

(** Accessors of a block. *)
Definition global_slot_since_genesis (b : PrecomputedBlock) : Z := bh_global_slot_since_genesis (header b).
Definition epoch_count (b : PrecomputedBlock) : Z := bh_epoch_count (header b).
Definition genesis_state_hash (b : PrecomputedBlock) : StateHash := bh_genesis_state_hash (header b).
Definition timestamp (b : PrecomputedBlock) : Z := bh_timestamp (header b).

Definition MAINNET_GENESIS_PREV_STATE_HASH : string := "3NLoKn22eMnyQ7rxh5pxB6vBA3XhSAhhrf7akdqS6HbAKD14Dh1d".
Definition HARDFORK_GENESIS_PREV_STATE_HASH : string := "3NLRTfY4kZyJtvaP4dFenDcxfoMfT3uEpkWS913KkeXLtziyVd15".
Definition HARDFORK_GENESIS_BLOCKCHAIN_LENGTH : Z := 359605.

(** Hashes of the two genesis blocks. *)
Definition is_genesis_hash (h : StateHash) : bool :=
  String.eqb (sh_str h) MAINNET_GENESIS_HASH || String.eqb (sh_str h) HARDFORK_GENESIS_HASH.

(** * Updates *)

(** What a reorganisation applies and unapplies. *)
Record DbUpdate (T : Type) := mkUpdate { up_apply : list T; up_unapply : list T }.
Arguments mkUpdate {T}.
Arguments up_apply {T}.
Arguments up_unapply {T}.

Record BlockUpdate := mkBlockUpdate {
  bu_state_hash : StateHash;
  bu_blockchain_length : Z;
  bu_global_slot_since_genesis : Z
}.
Notation DbBlockUpdate := (DbUpdate BlockUpdate).

Section Indices.
Context `{Speedb}.
Implicit Types (db : Db) (h : StateHash) (pk : PublicKey).

(** [get_cf(..).map(from_be_bytes)] *)
Definition opt_u32 db (cf : string) (k : list Z) : res (option Z) := map_res from_be_bytes (cf_get db cf k).

(** The next value of a counter. *)
Definition succ_u32 (acc : Z) : list Z := u32_be (wrap32 (acc + 1)).

(** [ok().flatten()] *)
Definition ok_flatten {A} (m : res (option A)) : res (option A) :=
  match m with Ok o => Ok o | Err => Ok None | Panic => Panic end.

(** * Per block data *)

Definition get_block_parent_hash db h : res (option StateHash) :=
  and_then_ok sh_from_bytes (cf_get db block_parent_hash_cf (sh_key h)).
Definition set_block_parent_hash_batch h (previous_state_hash : StateHash) : WriteBatch :=
  [Put block_parent_hash_cf (sh_key h) (sh_key previous_state_hash)].

Definition get_block_date_time db h : res (option Z) :=
  and_then_ok i64_from_be_bytes (cf_get db block_date_time_cf (sh_key h)).
Definition set_block_date_time_batch h (date_time : Z) : WriteBatch :=
  [Put block_date_time_cf (sh_key h) (u64_be (wrap64 date_time))].

Definition get_block_height db h : res (option Z) :=
  if String.eqb (sh_str h) MAINNET_GENESIS_PREV_STATE_HASH then Ok (Some 0)
  else if String.eqb (sh_str h) HARDFORK_GENESIS_PREV_STATE_HASH then Ok (Some (HARDFORK_GENESIS_BLOCKCHAIN_LENGTH - 1))
  else opt_u32 db block_height_cf (sh_key h).
Definition set_block_height_batch h (blockchain_length : Z) : WriteBatch :=
  [Put block_height_cf (sh_key h) (u32_be blockchain_length)].

Definition get_block_global_slot db h : res (option Z) := opt_u32 db block_global_slot_cf (sh_key h).
Definition set_block_global_slot_batch h (global_slot : Z) : WriteBatch :=
  [Put block_global_slot_cf (sh_key h) (u32_be global_slot)].

Definition get_block_creator db h : res (option PublicKey) :=
  and_then_ok pk_from_bytes (cf_get db block_creator_cf (sh_key h)).
Definition set_block_creator_batch (block : PrecomputedBlock) : res WriteBatch :=
  let h := state_hash block in
  let creator := block_creator block in
  height_key ← pk_block_sort_key creator (blockchain_length block) h;
  slot_key ← pk_block_sort_key creator (global_slot_since_genesis block) h;
  Ok [Put block_creator_cf (sh_key h) (pk_key creator);
      Put block_creator_height_sort_cf height_key [];
      Put block_creator_slot_sort_cf slot_key []].

Definition get_coinbase_receiver db h : res (option PublicKey) :=
  and_then_ok pk_from_bytes (cf_get db block_coinbase_receiver_cf (sh_key h)).
Definition set_coinbase_receiver_batch (block : PrecomputedBlock) : res WriteBatch :=
  let h := state_hash block in
  let receiver := coinbase_receiver block in
  height_key ← pk_block_sort_key receiver (blockchain_length block) h;
  slot_key ← pk_block_sort_key receiver (global_slot_since_genesis block) h;
  Ok [Put block_coinbase_receiver_cf (sh_key h) (pk_key receiver);
      Put block_coinbase_height_sort_cf height_key [];
      Put block_coinbase_slot_sort_cf slot_key []].

Definition set_block_epoch_batch h (epoch : Z) : WriteBatch := [Put block_epoch_cf (sh_key h) (u32_be epoch)].
Definition get_block_epoch db h : res (option Z) := opt_u32 db block_epoch_cf (sh_key h).

Definition set_block_genesis_state_hash_batch h (genesis : StateHash) : WriteBatch :=
  [Put block_genesis_state_hash_cf (sh_key h) (sh_key genesis)].
Definition get_block_genesis_state_hash db h : res (option StateHash) :=
  and_then_ok sh_from_bytes (cf_get db block_genesis_state_hash_cf (sh_key h)).

Definition get_block_version `{Json PcbVersion} db h : res (option PcbVersion) :=
  and_then_ok from_json (cf_get db block_version_cf (sh_key h)).
Definition set_block_version_batch `{Json PcbVersion} h (v : PcbVersion) : WriteBatch :=
  [Put block_version_cf (sh_key h) (to_json v)].

(** Written at once, although its name says it is part of a batch. *)
Definition set_block_comparison_batch `{Json BlockComparison} h (comparison : BlockComparison) db : Db :=
  cf_put block_comparison_cf (sh_key h) (to_json comparison) db.
Definition get_block_comparison `{Json BlockComparison} db h : res (option BlockComparison) :=
  and_then_ok from_json (cf_get db block_comparison_cf (sh_key h)).

(** [BlockStore::block_cmp] *)
Definition store_block_cmp `{Json BlockComparison} db (block other : StateHash) : res (option comparison) :=
  match cf_get db block_comparison_cf (sh_key block), cf_get db block_comparison_cf (sh_key other) with
  | Some bytes1, Some bytes2 =>
    bc1 ← from_json bytes1;
    bc2 ← from_json bytes2;
    Ok (Some (block_comparison_cmp bc1 bc2))
  | _, _ => Ok None
  end.

Definition get_block_ledger_diff `{Json LedgerDiff} db h : res (option LedgerDiff) :=
  and_then_ok from_json (cf_get db block_ledger_diff_cf (sh_key h)).
Definition get_block_account_diffs `{Json LedgerDiff} db h : res (option (list AccountDiff)) :=
  diff ← get_block_ledger_diff db h;
  Ok (option_map (fun d => concat (ld_account_diffs d)) diff).

(** The first eight bytes are the size of the block's file. *)
Definition get_block `{Json PrecomputedBlock} db h : res (option (PrecomputedBlock * Z)) :=
  match cf_get db blocks_cf (sh_key h) with
  | Some bytes =>
    l ← slice_from U64_LEN bytes;
    block ← and_then_ok from_json (Some l);
    match block with
    | Some block => n ← slice_to U64_LEN bytes; n ← expect (u64_from_be_bytes n); Ok (Some (block, n))
    | None => Ok None
    end
  | None => Ok None
  end.

(** * Best block *)

Definition get_best_block_hash db : res (option StateHash) :=
  and_then_ok sh_from_bytes (cf_get db default_cf BEST_TIP_STATE_HASH_KEY).

Definition of_best_block {A} (get : Db -> StateHash -> res (option A)) db : res (option A) :=
  best ← get_best_block_hash db;
  match best with Some h => ok_flatten (get db h) | None => Ok None end.

Definition get_best_block_height db : res (option Z) := of_best_block get_block_height db.
Definition get_best_block_global_slot db : res (option Z) := of_best_block get_block_global_slot db.
Definition get_best_block_genesis_hash db : res (option StateHash) := of_best_block get_block_genesis_state_hash db.

Definition get_best_block `{Json PrecomputedBlock} db : res (option PrecomputedBlock) :=
  best ← get_best_block_hash db;
  match best with
  | None => Ok None
  | Some h => block ← get_block db h; Ok (option_map fst block)
  end.

Definition get_current_epoch db : res Z :=
  epoch ← of_best_block get_block_epoch db; Ok (default 0 epoch).

(** [epoch.unwrap_or(self.get_current_epoch()?)], which reads the current epoch in any case *)
Definition or_current_epoch db (epoch : option Z) : res Z :=
  current ← get_current_epoch db; Ok (default current epoch).

(** * Blocks at a height, a slot and a public key *)

Definition get_num_blocks_at_height db (blockchain_length : Z) : res Z :=
  get_u32 db blocks_at_height_cf (u32_be blockchain_length).
Definition add_block_at_height_batch db h (blockchain_length : Z) : res WriteBatch :=
  n ← get_num_blocks_at_height db blockchain_length;
  key ← block_num_key blockchain_length n;
  Ok [Put blocks_at_height_cf (u32_be blockchain_length) (succ_u32 n); Put blocks_at_height_cf key (sh_key h)].

Definition get_num_blocks_at_slot db (slot : Z) : res Z := get_u32 db blocks_at_global_slot_cf (u32_be slot).
Definition add_block_at_slot_batch db h (slot : Z) : res WriteBatch :=
  n ← get_num_blocks_at_slot db slot;
  key ← block_num_key slot n;
  Ok [Put blocks_at_global_slot_cf (u32_be slot) (succ_u32 n); Put blocks_at_global_slot_cf key (sh_key h)].

Definition get_num_blocks_at_public_key db pk : res Z := get_u32 db blocks_pk_count_cf (pk_key pk).
Definition add_block_at_public_key_batch db pk h : res WriteBatch :=
  n ← get_num_blocks_at_public_key db pk;
  key ← pk_index_key pk n;
  Ok [Put blocks_pk_count_cf (pk_key pk) (succ_u32 n); Put blocks_cf key (sh_key h)].

(** The loop of the three getters: hashes at the first [num] keys, up to the first missing one. *)
Fixpoint read_hashes (key : Z -> res (list Z)) (cf : string) db (n num : nat) : res (list StateHash) :=
  match num with
  | O => Ok []
  | S num =>
    k ← key (Z.of_nat n);
    match cf_get db cf k with
    | None => Ok []
    | Some bytes => h ← sh_from_bytes bytes; rest ← read_hashes key cf db (S n) num; Ok (h :: rest)
    end
  end.

(** * Heights and slots *)

Definition get_block_global_slots_from_height `{Json (list Z)} db (blockchain_length : Z) : res (option (list Z)) :=
  and_then_ok from_json (cf_get db block_height_to_global_slots_cf (u32_be blockchain_length)).
Definition get_block_heights_from_global_slot `{Json (list Z)} db (global_slot : Z) : res (option (list Z)) :=
  and_then_ok from_json (cf_get db block_global_slot_to_heights_cf (u32_be global_slot)).

(** A number added to a sorted collection that does not have it. *)
Definition add_sorted (x : Z) (l : list Z) : option (list Z) :=
  if bool_decide (x ∈ l) then None else Some (merge_sort Z.le (l ++ [x])).

Definition set_block_height_global_slot_pair_batch `{Json (list Z)} db (blockchain_length global_slot : Z)
  : res WriteBatch :=
  heights ← get_block_heights_from_global_slot db global_slot;
  slots ← get_block_global_slots_from_height db blockchain_length;
  Ok (match add_sorted blockchain_length (default [] heights) with
      | Some l => [Put block_global_slot_to_heights_cf (u32_be global_slot) (to_json l)]
      | None => []
      end ++
      match add_sorted global_slot (default [] slots) with
      | Some l => [Put block_height_to_global_slots_cf (u32_be blockchain_length) (to_json l)]
      | None => []
      end).

(** * Slots produced *)

Definition get_epoch_slots_produced_count db (epoch : option Z) : res Z :=
  epoch ← or_current_epoch db epoch; get_u32 db block_epoch_slots_produced_count_cf (u32_be epoch).
Definition get_pk_epoch_slots_produced_count db pk (epoch : option Z) : res Z :=
  epoch ← or_current_epoch db epoch;
  key ← epoch_pk_key epoch pk; get_u32 db block_pk_epoch_slots_produced_count_cf key.

Definition add_epoch_slots_produced (epoch epoch_slot : Z) pk db : res Db :=
  key ← block_num_key epoch epoch_slot;
  db ← (match cf_get db block_epoch_slots_produced_cf key with
        | None =>
          let db := cf_put block_epoch_slots_produced_cf key [] db in
          acc ← get_epoch_slots_produced_count db (Some epoch);
          Ok (cf_put block_epoch_slots_produced_count_cf (u32_be epoch) (succ_u32 acc) db)
        | Some _ => Ok db
        end);
  key ← epoch_pk_num_key epoch pk epoch_slot;
  match cf_get db block_pk_epoch_slots_produced_cf key with
  | None =>
    let db := cf_put block_pk_epoch_slots_produced_cf key [] db in
    acc ← get_pk_epoch_slots_produced_count db pk (Some epoch);
    count_key ← epoch_pk_key epoch pk;
    Ok (cf_put block_pk_epoch_slots_produced_count_cf count_key (succ_u32 acc) db)
  | Some _ => Ok db
  end.

(** The global slot of a key of an epoch and a slot. *)
Definition slot_of_key (key : list Z) : res Z :=
  l ← slice_to U32_LEN key; epoch ← expect (u32_from_be_bytes l);
  l ← slice_from U32_LEN key; epoch_slot ← expect (u32_from_be_bytes l);
  Ok (wrap32 (wrap32 (epoch * MAINNET_EPOCH_SLOT_COUNT) + epoch_slot)).

Definition slot_key (global_slot : Z) : res (list Z) :=
  block_num_key (global_slot / MAINNET_EPOCH_SLOT_COUNT) (global_slot mod MAINNET_EPOCH_SLOT_COUNT).

Definition get_next_global_slot_produced db (global_slot : Z) : res (option Z) :=
  key ← slot_key global_slot;
  match iterator_cf db block_epoch_slots_produced_cf (IterFromForward key) with
  | (key, _) :: _ => slot ← slot_of_key key; Ok (Some slot)
  | [] => Ok None
  end.

Definition get_prev_global_slot_produced db (global_slot : Z) : res Z :=
  key ← slot_key global_slot;
  match iterator_cf db block_epoch_slots_produced_cf (IterFromReverse key) with
  | (key, _) :: _ => slot_of_key key
  | [] => Ok 0
  end.

(** * Iterators *)

Definition blocks_height_iterator db (mode : IteratorMode) := iterator_cf db blocks_height_sort_cf mode.
Definition blocks_global_slot_iterator db (mode : IteratorMode) := iterator_cf db blocks_global_slot_sort_cf mode.
Definition block_creator_block_height_iterator db (mode : IteratorMode) :=
  iterator_cf db block_creator_height_sort_cf mode.
Definition block_creator_global_slot_iterator db (mode : IteratorMode) :=
  iterator_cf db block_creator_slot_sort_cf mode.
Definition coinbase_receiver_block_height_iterator db (mode : IteratorMode) :=
  iterator_cf db block_coinbase_height_sort_cf mode.
Definition coinbase_receiver_global_slot_iterator db (mode : IteratorMode) :=
  iterator_cf db block_coinbase_slot_sort_cf mode.

Inductive Direction := Forward | Reverse.
Definition iter_from (key : list Z) (direction : Direction) : IteratorMode :=
  match direction with Forward => IterFromForward key | Reverse => IterFromReverse key end.

Definition canonical_epoch_blocks_produced_iterator db (epoch : option Z) (direction : Direction)
  : res (list (list Z * list Z)) :=
  epoch ← expect (or_current_epoch db epoch);
  start ← build_key (match direction with
                     | Forward => [f_u32 epoch; f_u32 0; f_pk pk_lower_bound]
                     | Reverse => [f_u32 epoch; f_u32 U32_MAX; f_pk pk_upper_bound]
                     end);
  Ok (iterator_cf db block_production_pk_canonical_epoch_sort_cf (iter_from start direction)).

(** [blocks_via_height] and [blocks_via_global_slot] *)
Definition blocks_of_iterator `{Json PrecomputedBlock} db (entries : list (list Z * list Z))
  : res (list PrecomputedBlock) :=
  foldM (fun blocks e =>
    h ← state_hash_suffix e.1;
    block ← get_block db h;
    block ← expect_some block;
    Ok (blocks ++ [block.1])) [] entries.
Definition blocks_via_height `{Json PrecomputedBlock} db (mode : IteratorMode) : res (list PrecomputedBlock) :=
  blocks_of_iterator db (blocks_height_iterator db mode).
Definition blocks_via_global_slot `{Json PrecomputedBlock} db (mode : IteratorMode) : res (list PrecomputedBlock) :=
  blocks_of_iterator db (blocks_global_slot_iterator db mode).
End Indices.

(** * Block production counts *)

Section Production.
Context `{Speedb}.
Implicit Types (db : Db) (h : StateHash) (pk : PublicKey) (epoch : option Z).

Definition get_block_production_pk_epoch_count db pk epoch : res Z :=
  e ← or_current_epoch db epoch; key ← u32_prefix_key e pk; get_u32 db block_production_pk_epoch_cf key.
Definition get_block_production_pk_canonical_epoch_count db pk epoch : res Z :=
  e ← or_current_epoch db epoch; key ← u32_prefix_key e pk; get_u32 db block_production_pk_canonical_epoch_cf key.
Definition get_block_production_pk_supercharged_epoch_count db pk epoch : res Z :=
  e ← or_current_epoch db epoch; key ← u32_prefix_key e pk; get_u32 db block_production_pk_supercharged_epoch_cf key.
Definition get_block_production_pk_total_count db pk : res Z := get_u32 db block_production_pk_total_cf (pk_key pk).
Definition get_block_production_pk_canonical_total_count db pk : res Z :=
  get_u32 db block_production_pk_canonical_total_cf (pk_key pk).
Definition get_block_production_pk_supercharged_total_count db pk : res Z :=
  get_u32 db block_production_pk_supercharged_total_cf (pk_key pk).
Definition get_block_production_epoch_count db epoch : res Z :=
  e ← or_current_epoch db epoch; get_u32 db block_production_epoch_cf (u32_be e).
Definition get_block_production_canonical_epoch_count db epoch : res Z :=
  e ← or_current_epoch db epoch; get_u32 db block_production_canonical_epoch_cf (u32_be e).
Definition get_block_production_supercharged_epoch_count db epoch : res Z :=
  e ← or_current_epoch db epoch; get_u32 db block_production_supercharged_epoch_cf (u32_be e).
Definition get_block_production_total_count db : res Z := get_u32 db default_cf TOTAL_NUM_BLOCKS_KEY.
(** The height of the best block. *)
Definition get_block_production_canonical_total_count db : res Z :=
  n ← get_best_block_height db; Ok (default 0 n).
Definition get_block_production_supercharged_total_count db : res Z :=
  get_u32 db default_cf TOTAL_NUM_BLOCKS_SUPERCHARGED_KEY.

Definition increment_block_production_count_batch `{Decimal} db (block : PrecomputedBlock) : res WriteBatch :=
  let creator := block_creator block in
  let epoch := epoch_count block in
  key ← u32_prefix_key epoch creator;
  acc1 ← get_block_production_pk_epoch_count db creator (Some epoch);
  acc2 ← get_block_production_pk_total_count db creator;
  acc3 ← get_block_production_epoch_count db (Some epoch);
  acc4 ← get_block_production_total_count db;
  let batch := [Put block_production_pk_epoch_cf key (succ_u32 acc1);
                Put block_production_pk_total_cf (pk_key creator) (succ_u32 acc2);
                Put block_production_epoch_cf (u32_be epoch) (succ_u32 acc3);
                Put default_cf TOTAL_NUM_BLOCKS_KEY (succ_u32 acc4)] in
  coinbase ← coinbase_from_precomputed block;
  if cb_supercharge coinbase then
    acc5 ← get_block_production_pk_supercharged_epoch_count db creator (Some epoch);
    acc6 ← get_block_production_pk_supercharged_total_count db creator;
    acc7 ← get_block_production_supercharged_epoch_count db (Some epoch);
    acc8 ← get_block_production_supercharged_total_count db;
    Ok (batch ++ [Put block_production_pk_supercharged_epoch_cf key (succ_u32 acc5);
                  Put block_production_pk_supercharged_total_cf (pk_key creator) (succ_u32 acc6);
                  Put block_production_supercharged_epoch_cf (u32_be epoch) (succ_u32 acc7);
                  Put default_cf TOTAL_NUM_BLOCKS_SUPERCHARGED_KEY (succ_u32 acc8)])
  else Ok batch.

(** Used for genesis blocks, so that the epoch is zero. *)
Definition increment_block_production_count (creator : PublicKey) (supercharged : bool) db : res Db :=
  key ← u32_prefix_key 0 creator;
  acc ← get_block_production_pk_epoch_count db creator (Some 0);
  let db := cf_put block_production_pk_epoch_cf key (succ_u32 acc) db in
  acc ← get_block_production_pk_total_count db creator;
  let db := cf_put block_production_pk_total_cf (pk_key creator) (succ_u32 acc) db in
  acc ← get_block_production_epoch_count db (Some 0);
  let db := cf_put block_production_epoch_cf (u32_be 0) (succ_u32 acc) db in
  acc ← get_block_production_total_count db;
  let db := cf_put default_cf TOTAL_NUM_BLOCKS_KEY (succ_u32 acc) db in
  if supercharged then
    acc ← get_block_production_pk_supercharged_epoch_count db creator (Some 0);
    let db := cf_put block_production_pk_supercharged_epoch_cf key (succ_u32 acc) db in
    acc ← get_block_production_pk_supercharged_total_count db creator;
    let db := cf_put block_production_pk_supercharged_total_cf (pk_key creator) (succ_u32 acc) db in
    acc ← get_block_production_supercharged_epoch_count db (Some 0);
    let db := cf_put block_production_supercharged_epoch_cf (u32_be 0) (succ_u32 acc) db in
    acc ← get_block_production_supercharged_total_count db;
    Ok (cf_put default_cf TOTAL_NUM_BLOCKS_SUPERCHARGED_KEY (succ_u32 acc) db)
  else Ok db.

Definition increment_block_canonical_production_count_sort (epoch num : Z) pk db : res Db :=
  old ← epoch_block_num_key epoch num pk;
  new ← epoch_block_num_key epoch (wrap32 (num + 1)) pk;
  let db := cf_delete block_production_pk_canonical_epoch_sort_cf old db in
  Ok (cf_put block_production_pk_canonical_epoch_sort_cf new [] db).

Definition increment_block_canonical_production_count h db : res Db :=
  creator ← get_block_creator db h; creator ← expect_some creator;
  epoch ← get_block_epoch db h; epoch ← expect_some epoch;
  acc ← get_block_production_pk_canonical_epoch_count db creator (Some epoch);
  key ← u32_prefix_key epoch creator;
  let db := cf_put block_production_pk_canonical_epoch_cf key (succ_u32 acc) db in
  db ← increment_block_canonical_production_count_sort epoch acc creator db;
  acc ← get_block_production_pk_canonical_total_count db creator;
  let db := cf_put block_production_pk_canonical_total_cf (pk_key creator) (succ_u32 acc) db in
  acc ← get_block_production_canonical_epoch_count db (Some epoch);
  Ok (cf_put block_production_canonical_epoch_cf (u32_be epoch) (succ_u32 acc) db).

Definition decrement_block_canonical_production_count_sort (epoch num : Z) pk db : res Db :=
  _ ← rust_assert (0 <? num);
  old ← epoch_block_num_key epoch num pk;
  new ← epoch_block_num_key epoch (num - 1) pk;
  let db := cf_delete block_production_pk_canonical_epoch_sort_cf old db in
  Ok (cf_put block_production_pk_canonical_epoch_sort_cf new [] db).

Definition decrement_block_canonical_production_count h db : res Db :=
  creator ← get_block_creator db h; creator ← expect_some creator;
  epoch ← get_block_epoch db h; epoch ← expect_some epoch;
  acc ← get_block_production_pk_canonical_epoch_count db creator (Some epoch);
  _ ← rust_assert (0 <? acc);
  key ← u32_prefix_key epoch creator;
  let db := cf_put block_production_pk_canonical_epoch_cf key (u32_be (acc - 1)) db in
  db ← decrement_block_canonical_production_count_sort epoch acc creator db;
  acc ← get_block_production_pk_canonical_total_count db creator;
  _ ← rust_assert (0 <? acc);
  let db := cf_put block_production_pk_canonical_total_cf (pk_key creator) (u32_be (acc - 1)) db in
  acc ← get_block_production_canonical_epoch_count db (Some epoch);
  _ ← rust_assert (0 <? acc);
  Ok (cf_put block_production_canonical_epoch_cf (u32_be epoch) (u32_be (acc - 1)) db).
End Production.

(** * Keys *)

Lemma pk_key_inj a b : pk_key a = pk_key b -> a = b.
Proof. destruct a, b. intros E%as_bytes_inj. cbn in E. congruence. Qed.
Lemma sh_key_inj a b : sh_key a = sh_key b -> a = b.
Proof. destruct a, b. intros E%as_bytes_inj. cbn in E. congruence. Qed.

(** The key of the [i]th entry of a public key. *)
Definition pk_index (pk : PublicKey) (i : Z) : list Z := pk_key pk ++ u32_be i.

Lemma pk_index_key_ok pk i : pk_wf pk -> pk_index_key pk i = Ok (pk_index pk i).
Proof.
  intros Hpk. unfold pk_index_key. by unfold_key.
Qed.

Lemma pk_index_inj a b i j : pk_wf a -> pk_wf b -> u32 i -> u32 j -> pk_index a i = pk_index b j -> a = b /\ i = j.
Proof.
  intros Ha Hb Hi Hj E. apply app_inj_1 in E as [E1 E2]; [|unfold pk_key; by rewrite (pk_wf_len a), (pk_wf_len b)].
  split; [by apply pk_key_inj|by apply u32_be_inj].
Qed.

(** * Reading and counting in a well-typed store *)

Section Typed.
Context `{SpeedbSpec}.
Implicit Types (db : Db) (h : StateHash) (pk : PublicKey).

Lemma get_current_epoch_typed db : well_typed db -> exists e, get_current_epoch db = Ok e.
Proof.
  intros Hdb. unfold get_current_epoch, of_best_block, get_best_block_hash.
  destruct (from_hash_typed db default_cf BEST_TIP_STATE_HASH_KEY Hdb eq_refl) as [o ->]. cbn [mbind res_bind].
  destruct o as [h|]; [|by eexists]. unfold get_block_epoch, opt_u32.
  destruct (map_u32_typed db block_epoch_cf (sh_key h) Hdb eq_refl) as (o & -> & _). cbn. by eexists.
Qed.

(** The epoch that is given is the one used, though the current one is read first. *)
Lemma or_current_epoch_some db e : well_typed db -> or_current_epoch db (Some e) = Ok e.
Proof.
  intros Hdb. unfold or_current_epoch. by destruct (get_current_epoch_typed db Hdb) as [c ->].
Qed.

(** A counter that is read and raised. *)
Lemma counter_typed db cf key :
  well_typed db -> value_type cf key = TU32 ->
  exists n, get_u32 db cf key = Ok n /\ well_typed (cf_put cf key (succ_u32 n) db).
Proof.
  intros Hdb Ht. destruct (get_u32_typed db cf key Hdb Ht) as (n & Hn & E). exists n. split; [done|].
  apply well_typed_put; [|done]. rewrite Ht. unfold succ_u32. auto with db.
Qed.

Lemma u32_prefix_key_ok n pk : pk_wf pk -> u32_prefix_key n pk = Ok (u32_be n ++ pk_key pk).
Proof. intros Hpk. unfold u32_prefix_key. by unfold_key. Qed.
End Typed.

(** Read a counter of a well-typed store, and raise it. *)
Ltac count cf key :=
  let n := fresh "n" in let E := fresh "E" in let Hw := fresh "Hw" in
  match goal with
  | Hdb : well_typed ?db |- context [get_u32 ?db cf key] =>
    destruct (counter_typed db cf key Hdb eq_refl) as (n & E & Hw); rewrite E; cbn [mbind res_bind]
  end.
