(* ===== verification/Usernames.v ===== *)
(** Usernames (src/rust/src/store/username_store_impl.rs): the names a public key has taken, as a stack at numbered
    keys, changed by the blocks that become and cease to be part of the best chain. *)

From S2P Require Import Prelude Bytes Base StoreKeys Precomputed BlockOrder ColumnFamilies Db Events Schema BlockIndex.

(** * Updates *)

Notation UsernameUpdate := (gmap PublicKey string).

(** The order in which a hash map yields its entries. *)
Class UsernameIter := {
  username_iter : UsernameUpdate -> list (PublicKey * string);
  username_iter_perm m : username_iter m ≡ₚ map_to_list m
}.

(** * The store *)

Section Store.
Context `{Speedb} `{Json UsernameUpdate} `{UsernameIter}.
Implicit Types (db : Db) (pk : PublicKey).

Definition username_from_bytes (bytes : list Z) : res string := from_utf8 bytes.

Definition get_pk_num_username_updates db pk : res (option Z) := opt_u32 db username_pk_num_cf (pk_key pk).

Definition get_pk_username db pk (index : Z) : res (option string) :=
  key ← pk_index_key pk index;
  and_then_ok username_from_bytes (cf_get db username_pk_index_cf key).

Definition get_username db pk : res (option string) :=
  index ← ok_flatten (get_pk_num_username_updates db pk);
  match index with Some index => get_pk_username db pk index | None => Ok None end.

Definition set_block_username_updates_batch (h : StateHash) (updates : UsernameUpdate) : WriteBatch :=
  [Put usernames_per_block_cf (sh_key h) (to_json updates)].
Definition get_block_username_updates db (h : StateHash) : res (option UsernameUpdate) :=
  and_then_ok from_json (cf_get db usernames_per_block_cf (sh_key h)).

Definition unapply_username db pk : res Db :=
  num ← get_pk_num_username_updates db pk;
  match num with
  | Some num =>
    key ← pk_index_key pk num;
    let db := if num =? 0 then cf_delete username_pk_num_cf (pk_key pk) db
              else cf_put username_pk_num_cf (pk_key pk) (u32_be (num - 1)) db in
    Ok (cf_delete username_pk_index_cf key db)
  | None => Ok db
  end.

Definition apply_username db (e : PublicKey * string) : res Db :=
  num ← get_pk_num_username_updates db e.1;
  let index := match num with Some num => wrap32 (num + 1) | None => 0 end in
  key ← pk_index_key e.1 index;
  let db := cf_put username_pk_num_cf (pk_key e.1) (u32_be index) db in
  Ok (cf_put username_pk_index_cf key (as_bytes e.2) db).

Definition update_usernames (update : DbUpdate UsernameUpdate) db : res Db :=
  db ← foldM (fun db m => foldM unapply_username db ((username_iter m).*1)) db (up_unapply update);
  foldM (fun db m => foldM apply_username db (username_iter m)) db (up_apply update).

(** The updates of a block that are not there panic. *)
Definition block_username_updates db (u : BlockUpdate) : res UsernameUpdate :=
  updates ← ok_flatten (get_block_username_updates db (bu_state_hash u)); expect_some updates.

Definition update_block_usernames (blocks : DbBlockUpdate) db : res Db :=
  apply ← mapM (block_username_updates db) (up_apply blocks);
  unapply ← mapM (block_username_updates db) (up_unapply blocks);
  update_usernames (mkUpdate apply unapply) db.
End Store.

(** * Names as stacks *)

Section Stacks.
Context `{SpeedbSpec} `{JsonSpec UsernameUpdate} `{UsernameIter}.
Implicit Types (db : Db) (pk : PublicKey) (l : list string) (m : UsernameUpdate).

(** The names a key has taken, oldest first: the number kept is the index of the last. *)
Record names db pk l : Prop := {
  nm_num : get_pk_num_username_updates db pk =
    Ok (if decide (l = []) then None else Some (Z.of_nat (length l) - 1));
  nm_bound : Z.of_nat (length l) <= U32_MAX;
  nm_name i n : l !! i = Some n -> cf_get db username_pk_index_cf (pk_index pk (Z.of_nat i)) = Some (as_bytes n)
}.

(** Every well-formed key has its stack. *)
Definition all_names db (f : PublicKey -> list string) : Prop := forall pk, pk_wf pk -> names db pk (f pk).

Definition pop l : list string := take (length l - 1) l.

Lemma names_get db pk l :
  pk_wf pk -> names db pk l -> Forall (fun n => rust_string n = true) l -> get_username db pk = Ok (last l).
Proof.
  intros Hpk Hl Hu. unfold get_username. rewrite (nm_num _ _ _ Hl).
  destruct (decide (l = [])) as [->|Hne]; [done|]. cbn [ok_flatten mbind res_bind]. unfold get_pk_username.
  rewrite pk_index_key_ok by done. cbn [mbind res_bind].
  destruct l as [|n l _] using rev_ind; [done|]. rewrite last_snoc, length_app. cbn [length].
  replace (Z.of_nat (length l + 1) - 1) with (Z.of_nat (length l)) by lia.
  rewrite (nm_name _ _ _ Hl (length l) n) by (by rewrite lookup_app_r, Nat.sub_diag by lia).
  apply Forall_app in Hu as [_ Hu]. apply Forall_cons in Hu as [Hn _].
  cbn [and_then_ok]. unfold username_from_bytes. by rewrite from_utf8_as_bytes.
Qed.

(** Writes to the entries of one key leave the others as they are. *)
Lemma names_frame db db' pk l :
  names db pk l -> cf_get db' username_pk_num_cf (pk_key pk) = cf_get db username_pk_num_cf (pk_key pk) ->
  (forall i, (i < length l)%nat -> cf_get db' username_pk_index_cf (pk_index pk (Z.of_nat i)) =
    cf_get db username_pk_index_cf (pk_index pk (Z.of_nat i))) -> names db' pk l.
Proof.
  intros Hl En Ei. split; [unfold get_pk_num_username_updates, opt_u32; rewrite En; apply Hl|apply Hl|].
  intros i n Hi. rewrite Ei by (by eapply lookup_lt_Some). by apply Hl.
Qed.

Lemma apply_username_spec db pk n f :
  pk_wf pk -> all_names db f -> Z.of_nat (length (f pk)) < U32_MAX ->
  exists db', apply_username db (pk, n) = Ok db' /\
    all_names db' (fun k => if decide (k = pk) then f pk ++ [n] else f k).
Proof.
  intros Hpk Hf Hlt. unfold apply_username. cbn [fst snd]. rewrite (nm_num _ _ _ (Hf pk Hpk)).
  set (len := Z.of_nat (length (f pk))) in *.
  assert ((match (if decide (f pk = []) then None else Some (len - 1)) with
           | Some num => wrap32 (num + 1) | None => 0 end) = len) as Ei.
  { destruct (decide (f pk = [])) as [E|E]; [subst len; by rewrite E|]. rewrite wrap32_id by ints. lia. }
  cbn [mbind res_bind]. rewrite Ei, pk_index_key_ok by done. cbn [mbind res_bind].
  eexists. split; [done|]. intros k Hk. destruct (decide (k = pk)) as [->|Hne].
  - split.
    + unfold get_pk_num_username_updates, opt_u32. rewrite cf_get_put, decide_False by done.
      rewrite cf_get_put, decide_True by done. cbn [map_res]. rewrite from_be_bytes_u32 by ints. cbn [mbind res_bind].
      rewrite decide_False by (by destruct (f pk)). do 2 f_equal. rewrite length_app. cbn [length]. lia.
    + rewrite length_app. cbn [length]. lia.
    + intros i x Hi. rewrite cf_get_put. apply lookup_snoc_Some in Hi as [[Hi Hx]|[-> ->]]; [|by rewrite decide_True].
      rewrite decide_False.
      * rewrite cf_get_put, decide_False by done. by apply (Hf pk Hpk).
      * intros [= E]. apply pk_index_inj in E as [_ E]; [lia|done|done|ints|ints].
  - apply (names_frame db _ _ _ (Hf k Hk)).
    + rewrite cf_get_put, decide_False by done. rewrite cf_get_put, decide_False; [done|].
      intros [= E]. by apply pk_key_inj in E.
    + intros i Hi. pose proof (nm_bound _ _ _ (Hf k Hk)). rewrite cf_get_put, decide_False.
      * by rewrite cf_get_put, decide_False.
      * intros [= E]. by apply pk_index_inj in E as [E _]; [|done|done|ints|ints].
Qed.

Lemma unapply_username_spec db pk f :
  pk_wf pk -> all_names db f ->
  exists db', unapply_username db pk = Ok db' /\
    all_names db' (fun k => if decide (k = pk) then pop (f pk) else f k).
Proof.
  intros Hpk Hf. unfold unapply_username. pose proof (Hf pk Hpk) as Hl. rewrite (nm_num _ _ _ Hl).
  pose proof (nm_bound _ _ _ Hl) as Hb.
  destruct (decide (f pk = [])) as [E|E]; cbn [mbind res_bind].
  { exists db. split; [done|]. intros k Hk. destruct (decide (k = pk)) as [->|_]; [|by apply Hf].
    rewrite E in *. exact Hl. }
  rewrite pk_index_key_ok by done. cbn [mbind res_bind]. eexists. split; [done|].
  destruct (f pk) as [|n l _] eqn:Ef using rev_ind; [done|]. clear E. rewrite length_app in *. cbn [length] in *.
  replace (Z.of_nat (length l + 1) - 1) with (Z.of_nat (length l)) by lia.
  assert (forall k, pk_wf k -> forall i, (i < length (if decide (k = pk) then l else f k))%nat ->
    pk_index k (Z.of_nat i) <> pk_index pk (Z.of_nat (length l))) as Hne.
  { intros k Hk i Hi E. assert (Z.of_nat (length (if decide (k = pk) then l else f k)) <= U32_MAX).
    { destruct (decide (k = pk)); [lia|apply (Hf k Hk)]. }
    apply pk_index_inj in E as [-> E]; [|done|done|ints|ints]. rewrite decide_True in Hi by done. lia. }
  intros k Hk. specialize (Hne k Hk).
  destruct (decide (k = pk)) as [->|Hkp].
  - unfold pop. rewrite length_app. cbn [length].
    rewrite Nat.add_sub, take_app_length. split.
    + unfold get_pk_num_username_updates, opt_u32. rewrite cf_get_delete, decide_False by done.
      destruct (Z.eqb_spec (Z.of_nat (length l)) 0) as [El|El].
      * rewrite cf_get_delete, decide_True by done. rewrite decide_True; [done|]. destruct l; [done|cbn in El; lia].
      * rewrite cf_get_put, decide_True by done. cbn [map_res]. rewrite from_be_bytes_u32 by ints. cbn [mbind res_bind].
        by rewrite decide_False by (by intros ->).
    + lia.
    + intros i x Hi. rewrite cf_get_delete, decide_False.
      * destruct (Z.of_nat (length l) =? 0); [rewrite cf_get_delete|rewrite cf_get_put]; rewrite decide_False by done;
          apply Hl; by apply lookup_app_l_Some.
      * intros [= E]. by apply (Hne i) in E; [|eapply lookup_lt_Some].
  - apply (names_frame db _ _ _ (Hf k Hk)).
    + rewrite cf_get_delete, decide_False by done.
      destruct (Z.of_nat (length l) =? 0); [rewrite cf_get_delete|rewrite cf_get_put]; rewrite decide_False; try done;
        intros [= E]; by apply pk_key_inj in E.
    + intros i Hi. rewrite cf_get_delete, decide_False.
      * destruct (Z.of_nat (length l) =? 0); [rewrite cf_get_delete|rewrite cf_get_put]; by rewrite decide_False.
      * intros [= E]. by apply (Hne i) in E.
Qed.

Lemma all_names_ext db f g : all_names db f -> (forall k, f k = g k) -> all_names db g.
Proof. intros Hf E k Hk. rewrite <- E. by apply Hf. Qed.

(** The keys of the updates of a block. *)
Definition wf_updates m : Prop := forall k, is_Some (m !! k) -> pk_wf k.

Definition apply_names (f : PublicKey -> list string) m : PublicKey -> list string :=
  fun k => match m !! k with Some n => f k ++ [n] | None => f k end.
Definition unapply_names (f : PublicKey -> list string) m : PublicKey -> list string :=
  fun k => match m !! k with Some _ => pop (f k) | None => f k end.

Lemma iter_map m : list_to_map (username_iter m) = m /\ NoDup ((username_iter m).*1).
Proof.
  assert (NoDup ((username_iter m).*1)) as Hnd by (rewrite username_iter_perm; apply NoDup_fst_map_to_list).
  split; [|done]. rewrite (list_to_map_proper _ (map_to_list m)); [apply list_to_map_to_list|done|apply username_iter_perm].
Qed.

Lemma apply_map_spec db m f :
  wf_updates m -> all_names db f -> (forall k, is_Some (m !! k) -> Z.of_nat (length (f k)) < U32_MAX) ->
  exists db', foldM apply_username db (username_iter m) = Ok db' /\ all_names db' (apply_names f m).
Proof.
  destruct (iter_map m) as [Em Hnd]. revert Em Hnd. generalize (username_iter m) as l. intros l <-. revert db f.
  induction l as [|[pk n] l IH]; intros db f Hnd Hwf Hf Hlt.
  { exists db. split; [done|]. apply (all_names_ext _ f); [done|]. intros k. unfold apply_names. cbn.
    by rewrite lookup_empty. }
  csimpl in Hnd. apply NoDup_cons in Hnd as [Hpk Hnd].
  assert (is_Some ((list_to_map ((pk, n) :: l) : UsernameUpdate) !! pk)) as Hm by (cbn; rewrite lookup_insert_eq; eauto).
  destruct (apply_username_spec db pk n f) as (db1 & E & Hf1); [by apply Hwf|done|by apply Hlt|].
  cbn [foldM]. rewrite E. cbn [mbind res_bind].
  assert (forall k, is_Some ((list_to_map l : UsernameUpdate) !! k) ->
    k <> pk /\ is_Some ((list_to_map ((pk, n) :: l) : UsernameUpdate) !! k)) as Hk.
  { intros k [x Hx]. assert (k <> pk) as Hne.
    { intros ->. apply Hpk. apply elem_of_list_to_map_2 in Hx. by apply (list_elem_of_fmap_2 fst) in Hx. }
    split; [done|]. cbn. rewrite lookup_insert_ne by done. eauto. }
  destruct (IH db1 (fun k => if decide (k = pk) then f pk ++ [n] else f k)) as (db2 & E2 & Hf2); [done|..].
  - intros k Hx. by apply Hwf, Hk.
  - done.
  - intros k Hx. apply Hk in Hx as [Hne Hx]. rewrite decide_False by done. by apply Hlt.
  - exists db2. split; [done|]. apply (all_names_ext _ _ _ Hf2). intros k. unfold apply_names. cbn.
    destruct (decide (k = pk)) as [->|Hne]; [|by rewrite lookup_insert_ne].
    rewrite lookup_insert_eq. by rewrite not_elem_of_list_to_map_1.
Qed.

Lemma unapply_map_spec db m f :
  wf_updates m -> all_names db f ->
  exists db', foldM unapply_username db ((username_iter m).*1) = Ok db' /\ all_names db' (unapply_names f m).
Proof.
  destruct (iter_map m) as [Em Hnd]. revert Em Hnd. generalize (username_iter m) as l. intros l <-. revert db f.
  induction l as [|[pk n] l IH]; intros db f Hnd Hwf Hf.
  { exists db. split; [done|]. apply (all_names_ext _ f); [done|]. intros k. unfold unapply_names. cbn.
    by rewrite lookup_empty. }
  csimpl in Hnd. apply NoDup_cons in Hnd as [Hpk Hnd].
  destruct (unapply_username_spec db pk f) as (db1 & E & Hf1).
  { apply Hwf. cbn. rewrite lookup_insert_eq. eauto. }
  { done. }
  csimpl. cbn [foldM]. rewrite E. cbn [mbind res_bind].
  destruct (IH db1 (fun k => if decide (k = pk) then pop (f pk) else f k)) as (db2 & E2 & Hf2); [done| |done|].
  - intros k [x Hx]. apply Hwf. cbn. destruct (decide (k = pk)) as [->|Hne]; [rewrite lookup_insert_eq; eauto|].
    rewrite lookup_insert_ne by done. eauto.
  - exists db2. split; [done|]. apply (all_names_ext _ _ _ Hf2). intros k. unfold unapply_names. cbn.
    destruct (decide (k = pk)) as [->|Hne]; [|by rewrite lookup_insert_ne].
    rewrite lookup_insert_eq. by rewrite not_elem_of_list_to_map_1.
Qed.

(** The stack of a key after a reorganisation. *)
Definition reorg_names (apply unapply : list UsernameUpdate) (f : PublicKey -> list string) : PublicKey -> list string :=
  fun k => take (length (f k) - length (omap (fun m => m !! k) unapply)) (f k) ++ omap (fun m => m !! k) apply.

Lemma unapply_maps_spec us db f :
  Forall wf_updates us -> all_names db f ->
  exists db', foldM (fun db m => foldM unapply_username db ((username_iter m).*1)) db us = Ok db' /\
    all_names db' (reorg_names [] us f).
Proof.
  intros Hwf. revert db f. induction Hwf as [|m us Hm _ IH]; intros db f Hf.
  { exists db. split; [done|]. apply (all_names_ext _ _ _ Hf). intros k. unfold reorg_names.
    cbn. by rewrite app_nil_r, Nat.sub_0_r, firstn_all. }
  destruct (unapply_map_spec db m f Hm Hf) as (db1 & E & Hf1). cbn [foldM]. rewrite E. cbn [mbind res_bind].
  destruct (IH db1 _ Hf1) as (db2 & E2 & Hf2). exists db2. split; [done|]. apply (all_names_ext _ _ _ Hf2).
  intros k. unfold reorg_names, unapply_names, pop. cbn [omap list_omap]. f_equal.
  change (list_omap _ _ (fun m => m !! k) us) with (omap (fun m : UsernameUpdate => m !! k) us).
  destruct (m !! k) as [n|]; [|done]. cbn [length]. rewrite length_take, take_take. f_equal. lia.
Qed.

Lemma apply_maps_spec us db f :
  Forall wf_updates us -> all_names db f ->
  (forall k, pk_wf k -> Z.of_nat (length (f k) + length us) <= U32_MAX) ->
  exists db', foldM (fun db m => foldM apply_username db (username_iter m)) db us = Ok db' /\
    all_names db' (reorg_names us [] f).
Proof.
  intros Hwf. revert db f. induction Hwf as [|m us Hm _ IH]; intros db f Hf Hlt.
  { exists db. split; [done|]. apply (all_names_ext _ _ _ Hf). intros k. unfold reorg_names.
    cbn. by rewrite app_nil_r, Nat.sub_0_r, firstn_all. }
  cbn [length] in Hlt. destruct (apply_map_spec db m f Hm Hf) as (db1 & E & Hf1).
  { intros k Hk. specialize (Hlt k (Hm k Hk)). lia. }
  cbn [foldM]. rewrite E. cbn [mbind res_bind].
  destruct (IH db1 _ Hf1) as (db2 & E2 & Hf2).
  { intros k Hk. specialize (Hlt k Hk). unfold apply_names. destruct (m !! k); [|lia].
    rewrite length_app. cbn [length]. lia. }
  exists db2. split; [done|]. apply (all_names_ext _ _ _ Hf2).
  intros k. unfold reorg_names, apply_names. cbn [omap list_omap].
  change (list_omap _ _ (fun m => m !! k) us) with (omap (fun m : UsernameUpdate => m !! k) us).
  rewrite !Nat.sub_0_r, !firstn_all. destruct (m !! k); [|done]. by rewrite <- app_assoc.
Qed.

Lemma reorg_names_split us vs f k : reorg_names us [] (reorg_names [] vs f) k = reorg_names us vs f k.
Proof.
  unfold reorg_names. cbn [omap list_omap length]. rewrite !app_nil_r, Nat.sub_0_r.
  by rewrite firstn_all2 by lia.
Qed.

Lemma update_usernames_spec us vs db f :
  Forall wf_updates us -> Forall wf_updates vs -> all_names db f ->
  (forall k, pk_wf k -> Z.of_nat (length (f k) + length us) <= U32_MAX) ->
  exists db', update_usernames (mkUpdate us vs) db = Ok db' /\ all_names db' (reorg_names us vs f).
Proof.
  intros Hu Hv Hf Hlt. unfold update_usernames. cbn [up_apply up_unapply].
  destruct (unapply_maps_spec vs db f Hv Hf) as (db1 & E1 & Hf1). rewrite E1. cbn [mbind res_bind].
  destruct (apply_maps_spec us db1 _ Hu Hf1) as (db2 & E2 & Hf2).
  { intros k Hk. specialize (Hlt k Hk). unfold reorg_names. cbn. rewrite app_nil_r, length_take. lia. }
  exists db2. split; [done|]. apply (all_names_ext _ _ _ Hf2). intros k. apply reorg_names_split.
Qed.

(** ** Properties *)

(** The names of the store refine a stack per public key: a reorganisation takes from each key as many names as
    unapplied blocks gave it and gives it the names of the applied blocks in order, the
    username of a key is the last of its names, and unapplying the applied blocks, tip first,
    gives the names back that there were after the unapplied ones. *)
Theorem usernames_follow_reorg us vs db f :
  Forall wf_updates us -> Forall wf_updates vs -> all_names db f ->
  (forall k, pk_wf k -> Z.of_nat (length (f k) + length us) <= U32_MAX) ->
  exists db', update_usernames (mkUpdate us vs) db = Ok db' /\ all_names db' (reorg_names us vs f) /\
    (forall k, pk_wf k -> Forall (fun n => rust_string n = true) (reorg_names us vs f k) ->
       get_username db' k = Ok (last (reorg_names us vs f k))) /\
    exists db'', update_usernames (mkUpdate [] (rev us)) db' = Ok db'' /\ all_names db'' (reorg_names [] vs f).
Proof.
  intros Hu Hv Hf Hlt. destruct (update_usernames_spec us vs db f Hu Hv Hf Hlt) as (db' & E & Hf').
  exists db'. split; [done|]. split; [done|]. split; [intros k Hk Hr; by apply names_get; [|apply Hf'|]|].
  destruct (update_usernames_spec [] (rev us) db' (reorg_names us vs f)) as (db'' & E' & Hf'').
  - constructor.
  - by apply Forall_rev.
  - done.
  - intros k Hk. cbn. pose proof (nm_bound _ _ _ (Hf' k Hk)). lia.
  - exists db''. split; [done|]. apply (all_names_ext _ _ _ Hf''). intros k. unfold reorg_names. cbn [omap list_omap].
    rewrite !app_nil_r, length_app.
    replace (length (omap (fun m : UsernameUpdate => m !! k) (rev us)))
      with (length (omap (fun m : UsernameUpdate => m !! k) us))
      by (apply Permutation_length; by rewrite <- Permutation_rev).
    rewrite Nat.add_sub. by rewrite take_app_length.
Qed.
End Stacks.

(** * Examples *)

Section Examples.
#[local] Existing Instances map_db map_db_spec.
#[local] Instance names_json : Json UsernameUpdate := countable_json.
#[local] Instance names_iter : UsernameIter.
Proof. by exists map_to_list. Defined.

Definition names_example : UsernameUpdate := {[pk_example := "granola"]}.

Lemma empty_names : all_names (∅ : Db) (fun _ => []).
Proof.
  intros k _. split; [|done|].
  - unfold get_pk_num_username_updates, opt_u32. cbn. by rewrite lookup_empty.
  - intros i n Hi. by rewrite lookup_nil in Hi.
Qed.

Lemma usernames_follow_reorg_witness :
  exists db', update_usernames (mkUpdate [names_example] []) (∅ : Db) = Ok db' /\
    get_username db' pk_example = Ok (Some "granola").
Proof.
  assert (pk_wf pk_example) as Hpk by (vm_compute; done).
  destruct (usernames_follow_reorg [names_example] [] (∅ : Db) (fun _ => [])) as (db' & E & _ & Hg & _).
  - apply Forall_singleton. intros k [n Hk]. unfold names_example in Hk. apply lookup_singleton_Some in Hk as [<- _]. exact Hpk.
  - constructor.
  - apply empty_names.
  - intros k _. vm_compute. discriminate.
  - exists db'. split; [exact E|]. apply (Hg pk_example Hpk). apply Forall_singleton. reflexivity.
Defined.
End Examples.
