(* ===== verification/ZkappStore.v ===== *)
(** Actions and events of zkapp accounts (src/rust/src/store/zkapp_store_impl/): lists at numbered keys per token
    account, extended when a block is applied and cut when it is unapplied. *)

From S2P Require Import Prelude Bytes Base StoreKeys ColumnFamilies Db Events Schema BlockIndex.

(** * The store *)

(** The two stores differ in their families only. *)
Section Items.
Context `{Speedb} `{Json string}.
Variables (items_cf num_cf : string).
Variables (item_key : TokenAddress -> PublicKey -> Z -> res (list Z)) (num_key : TokenAddress -> PublicKey -> res (list Z)).
Implicit Types (db : Db) (pk : PublicKey) (token : TokenAddress).

Definition get_num_items db pk token : res (option Z) := key ← num_key token pk; opt_u32 db num_cf key.

Definition get_item db pk token (index : Z) : res (option string) :=
  key ← item_key token pk index; map_res (fun bytes => expect (from_json bytes)) (cf_get db items_cf key).

Definition set_item pk token (item : string) (index : Z) db : res Db :=
  key ← item_key token pk index; Ok (cf_put items_cf key (to_json item) db).

Definition remove_item pk token (index : Z) db : res Db :=
  key ← item_key token pk index; Ok (cf_delete items_cf key db).

Definition add_items pk token (items : list string) db : res (Z * Db) :=
  idx ← get_num_items db pk token;
  s ← foldM (fun s item => db ← set_item pk token item s.1 s.2; Ok (wrap32 (s.1 + 1), db)) (default 0 idx, db) items;
  key ← num_key token pk;
  Ok (s.1, cf_put num_cf key (u32_be s.1) s.2).

Definition remove_items pk token (n : Z) db : res (Z * Db) :=
  num ← get_num_items db pk token;
  let num := default 0 num in
  _ ← rust_assert (n <=? num);
  s ← foldM (fun s (_ : nat) => db ← remove_item pk token (s.1 - 1) s.2; Ok (s.1 - 1, db)) (num, db) (seq 0 (Z.to_nat n));
  key ← num_key token pk;
  Ok (s.1, cf_put num_cf key (u32_be s.1) s.2).
End Items.

Section Stores.
Context `{Speedb} `{Json string}.

Definition get_num_actions := get_num_items zkapp_actions_pk_num_cf zkapp_actions_pk_num_key.
Definition get_action := get_item zkapp_actions_cf zkapp_actions_key.
Definition set_action := set_item zkapp_actions_cf zkapp_actions_key.
Definition remove_action := remove_item zkapp_actions_cf zkapp_actions_key.
Definition add_actions := add_items zkapp_actions_cf zkapp_actions_pk_num_cf zkapp_actions_key zkapp_actions_pk_num_key.
Definition remove_actions :=
  remove_items zkapp_actions_cf zkapp_actions_pk_num_cf zkapp_actions_key zkapp_actions_pk_num_key.

Definition get_num_events := get_num_items zkapp_events_pk_num_cf zkapp_events_pk_num_key.
Definition get_zkapp_event := get_item zkapp_events_cf zkapp_events_key.
Definition set_event := set_item zkapp_events_cf zkapp_events_key.
Definition remove_event := remove_item zkapp_events_cf zkapp_events_key.
Definition add_events := add_items zkapp_events_cf zkapp_events_pk_num_cf zkapp_events_key zkapp_events_pk_num_key.
Definition remove_events :=
  remove_items zkapp_events_cf zkapp_events_pk_num_cf zkapp_events_key zkapp_events_pk_num_key.
End Stores.

(** * Lists *)

(** The keys of a token account and of its entries. *)
Definition token_pk (token : TokenAddress) (pk : PublicKey) : list Z := as_bytes (token_str token) ++ pk_key pk.
Definition token_pk_index (token : TokenAddress) (pk : PublicKey) (i : Z) : list Z := token_pk token pk ++ u32_be i.

Lemma token_pk_key_ok token pk : token_wf token -> pk_wf pk -> token_pk_key token pk = Ok (token_pk token pk).
Proof. intros Ht Hpk. unfold token_pk_key. by unfold_key. Qed.
Lemma token_pk_index_key_ok token pk i :
  token_wf token -> pk_wf pk -> token_pk_index_key token pk i = Ok (token_pk_index token pk i).
Proof. intros Ht Hpk. unfold token_pk_index_key. unfold_key. unfold token_pk_index, token_pk. by rewrite <- app_assoc. Qed.

Section Lists.
Context `{SpeedbSpec} `{JsonSpec string}.
Variables (items_cf num_cf : string).
Hypothesis Hcf : items_cf <> num_cf.
Variables (pk : PublicKey) (token : TokenAddress).
Hypotheses (Hpk : pk_wf pk) (Ht : token_wf token).
Implicit Types (db : Db) (l : list string).

Notation items := (numbered to_json num_cf (token_pk token pk) items_cf (token_pk_index token pk)).
Notation add := (add_items items_cf num_cf token_pk_index_key token_pk_key pk token).
Notation remove := (remove_items items_cf num_cf token_pk_index_key token_pk_key pk token).

Lemma num_items db l :
  items db l -> exists o, get_num_items num_cf token_pk_key db pk token = Ok o /\ default 0 o = Z.of_nat (length l).
Proof.
  intros Hl. unfold get_num_items. rewrite token_pk_key_ok by done. cbn [mbind res_bind]. unfold opt_u32.
  pose proof (nl_count _ _ _ _ _ _ _ Hl) as E. unfold get_u32 in E. destruct (cf_get db num_cf _) as [v|]; cbn [map_res].
  - rewrite E. eexists. by split.
  - injection E as E. exists None. by split.
Qed.

Lemma token_pk_index_inj i j : u32 i -> u32 j -> token_pk_index token pk i = token_pk_index token pk j -> i = j.
Proof. intros Hi Hj E. apply app_inv_head in E. by apply u32_be_inj. Qed.

Lemma get_items db l i a :
  items db l -> l !! i = Some a -> get_item items_cf token_pk_index_key db pk token (Z.of_nat i) = Ok (Some a).
Proof.
  intros Hl Hi. unfold get_item. rewrite token_pk_index_key_ok by done. cbn [mbind res_bind].
  rewrite (nl_entry _ _ _ _ _ _ _ Hl i a) by done. cbn [map_res]. by rewrite json_roundtrip.
Qed.

Lemma set_item_ok a i db :
  set_item items_cf token_pk_index_key pk token a i db = Ok (cf_put items_cf (token_pk_index token pk i) (to_json a) db).
Proof. unfold set_item. by rewrite token_pk_index_key_ok. Qed.
Lemma remove_item_ok i db :
  remove_item items_cf token_pk_index_key pk token i db = Ok (cf_delete items_cf (token_pk_index token pk i) db).
Proof. unfold remove_item. by rewrite token_pk_index_key_ok. Qed.

(** The loop writes the items at the keys from the counter on, and only there. *)
Lemma set_items_spec added (n : nat) db :
  Z.of_nat (n + length added) <= U32_MAX ->
  exists db', foldM (fun s item => db ← set_item items_cf token_pk_index_key pk token item s.1 s.2;
                                    Ok (wrap32 (s.1 + 1), db)) (Z.of_nat n, db) added
              = Ok (Z.of_nat (n + length added), db') /\
    (forall i a, added !! i = Some a ->
       cf_get db' items_cf (token_pk_index token pk (Z.of_nat (n + i))) = Some (to_json a)) /\
    (forall i, (i < n)%nat -> cf_get db' items_cf (token_pk_index token pk (Z.of_nat i)) =
       cf_get db items_cf (token_pk_index token pk (Z.of_nat i))).
Proof.
  revert n db. induction added as [|a added IH]; intros n db Hb; cbn [length] in *.
  { exists db. rewrite Nat.add_0_r. split; [done|]. by split. }
  cbn [foldM fst snd]. rewrite set_item_ok. cbn [mbind res_bind].
  rewrite wrap32_id by ints. replace (Z.of_nat n + 1) with (Z.of_nat (S n)) by lia.
  destruct (IH (S n) (cf_put items_cf (token_pk_index token pk (Z.of_nat n)) (to_json a) db)) as (db' & E & Hn & Ho); [lia|].
  exists db'. rewrite <- Nat.add_succ_comm. split; [exact E|]. split.
  - intros [|i] b Hi; [|rewrite <- Nat.add_succ_comm; by apply Hn]. injection Hi as <-.
    rewrite Nat.add_0_r, Ho by lia. by rewrite cf_get_put, decide_True.
  - intros i Hi. rewrite Ho by lia. rewrite cf_get_put, decide_False; [done|].
    intros [= E']. apply token_pk_index_inj in E'; [lia|ints|ints].
Qed.

Lemma add_items_spec db l added :
  items db l -> Z.of_nat (length l + length added) <= U32_MAX ->
  exists db', add added db = Ok (Z.of_nat (length (l ++ added)), db') /\ items db' (l ++ added).
Proof.
  intros Hl Hb. unfold add_items. destruct (num_items db l Hl) as (o & -> & Eo). cbn [mbind res_bind]. rewrite Eo.
  destruct (set_items_spec added (length l) db Hb) as (db' & E & Hn & Ho). rewrite E.
  cbn [mbind res_bind fst snd]. rewrite token_pk_key_ok by done. cbn [mbind res_bind]. eexists.
  split; [by rewrite length_app|]. split.
  - unfold get_u32. rewrite cf_get_put, decide_True by done. rewrite from_be_bytes_u32 by ints. by rewrite length_app.
  - by rewrite length_app.
  - intros i a Hi. rewrite cf_get_put, decide_False by (by intros [= ? _]).
    apply lookup_app_Some in Hi as [Hi|[Hge Hi]].
    + rewrite Ho by (by eapply lookup_lt_Some). by apply Hl.
    + apply Hn in Hi. by replace (length l + (i - length l))%nat with i in Hi by lia.
Qed.

(** The loop deletes the keys below the counter, last first. *)
Lemma del_items_spec (xs : list nat) (n : nat) db :
  (length xs <= n)%nat -> Z.of_nat n <= U32_MAX ->
  exists db', foldM (fun s (_ : nat) => db ← remove_item items_cf token_pk_index_key pk token (s.1 - 1) s.2;
                                    Ok (s.1 - 1, db)) (Z.of_nat n, db) xs
              = Ok (Z.of_nat (n - length xs), db') /\
    (forall i, (i < n - length xs)%nat -> cf_get db' items_cf (token_pk_index token pk (Z.of_nat i)) =
       cf_get db items_cf (token_pk_index token pk (Z.of_nat i))).
Proof.
  revert n db. induction xs as [|x xs IH]; intros n db Hb Hn; cbn [length] in *.
  { exists db. rewrite Nat.sub_0_r. by split. }
  destruct n as [|n]; [lia|]. cbn [foldM fst snd].
  replace (Z.of_nat (S n) - 1) with (Z.of_nat n) by lia. rewrite remove_item_ok. cbn [mbind res_bind].
  destruct (IH n (cf_delete items_cf (token_pk_index token pk (Z.of_nat n)) db)) as (db' & E & Ho); [lia|lia|].
  exists db'. split; [exact E|]. intros i Hi. rewrite Ho by lia. rewrite cf_get_delete, decide_False; [done|].
  intros [= E']. apply token_pk_index_inj in E'; [lia|ints|ints].
Qed.

Lemma remove_items_spec db l removed :
  items db (l ++ removed) ->
  exists db', remove (Z.of_nat (length removed)) db = Ok (Z.of_nat (length l), db') /\ items db' l.
Proof.
  intros Hl. unfold remove_items. destruct (num_items db _ Hl) as (o & -> & Eo). cbn [mbind res_bind]. rewrite Eo.
  pose proof (nl_bound _ _ _ _ _ _ _ Hl) as Hb. rewrite length_app in *. rewrite (proj2 (Z.leb_le _ _)) by lia.
  cbn [rust_assert mbind res_bind]. rewrite Nat2Z.id.
  destruct (del_items_spec (seq 0 (length removed)) (length l + length removed) db) as (db' & E & Ho);
    [rewrite length_seq; lia|lia|].
  rewrite length_seq, Nat.add_sub in E, Ho. rewrite E.
  cbn [mbind res_bind fst snd]. rewrite token_pk_key_ok by done. cbn [mbind res_bind]. eexists. split; [done|]. split.
  - unfold get_u32. rewrite cf_get_put, decide_True by done. by rewrite from_be_bytes_u32 by ints.
  - lia.
  - intros i a Hi. rewrite cf_get_put, decide_False by (by intros [= ? _]).
    rewrite Ho by (by eapply lookup_lt_Some). apply Hl. by apply lookup_app_l_Some.
Qed.

(** Removing more than there are stops the indexer. *)
Lemma remove_items_panic db l n :
  items db l -> Z.of_nat (length l) < n -> remove n db = Panic.
Proof.
  intros Hl Hn. unfold remove_items. destruct (num_items db _ Hl) as (o & -> & Eo). cbn [mbind res_bind]. rewrite Eo.
  by rewrite (proj2 (Z.leb_gt _ _)) by lia.
Qed.
End Lists.

(** * Properties *)

Section Properties.
Context `{SpeedbSpec} `{JsonSpec string}.

(** The actions, and the events, of a token account. *)
Definition actions_of (pk : PublicKey) (token : TokenAddress) : Db -> list string -> Prop :=
  numbered to_json zkapp_actions_pk_num_cf (token_pk token pk) zkapp_actions_cf (token_pk_index token pk).
Definition events_of (pk : PublicKey) (token : TokenAddress) : Db -> list string -> Prop :=
  numbered to_json zkapp_events_pk_num_cf (token_pk token pk) zkapp_events_cf (token_pk_index token pk).

(** The actions of a token account refine a list: adding appends to it, an action read back is the one at its
    place, removing as many as were added gives the old list back, and removing more than there
    are stops the indexer; and the same holds of the events. *)
Theorem zkapp_lists_roundtrip pk token db l added :
  pk_wf pk -> token_wf token -> Z.of_nat (length l + length added) <= U32_MAX ->
  (actions_of pk token db l ->
   exists db', add_actions pk token added db = Ok (Z.of_nat (length (l ++ added)), db') /\
     (forall i a, (l ++ added) !! i = Some a -> get_action db' pk token (Z.of_nat i) = Ok (Some a)) /\
     (exists db'', remove_actions pk token (Z.of_nat (length added)) db' = Ok (Z.of_nat (length l), db'') /\
        actions_of pk token db'' l) /\
     forall n, Z.of_nat (length (l ++ added)) < n -> remove_actions pk token n db' = Panic) /\
  (events_of pk token db l ->
   exists db', add_events pk token added db = Ok (Z.of_nat (length (l ++ added)), db') /\
     (forall i a, (l ++ added) !! i = Some a -> get_zkapp_event db' pk token (Z.of_nat i) = Ok (Some a)) /\
     (exists db'', remove_events pk token (Z.of_nat (length added)) db' = Ok (Z.of_nat (length l), db'') /\
        events_of pk token db'' l) /\
     forall n, Z.of_nat (length (l ++ added)) < n -> remove_events pk token n db' = Panic).
Proof.
  intros Hpk Ht Hb.
  split; intros Hl;
    (edestruct add_items_spec as (db' & E & Hl'); [|exact Hpk|exact Ht|exact Hl|exact Hb|]; [done|]);
    exists db'; (split; [exact E|]); (split; [intros i a Hi; by apply (get_items _ _ pk token Hpk Ht db' _ i a Hl')|]);
    (split; [by apply remove_items_spec|]); intros n Hn; by apply (remove_items_panic _ _ _ _ Hpk Ht db' _ n Hl').
Qed.
End Properties.

(** * Examples *)

Section Examples.
#[local] Existing Instances map_db map_db_spec.
#[local] Instance item_json : Json string := countable_json.

Lemma zkapp_lists_roundtrip_witness :
  exists db', add_actions pk_example token_default ["0x1"; "0x2"] (∅ : Db) = Ok (2, db') /\
    get_action db' pk_example token_default 1 = Ok (Some "0x2") /\
    remove_actions pk_example token_default 3 db' = Panic.
Proof.
  destruct (zkapp_lists_roundtrip pk_example token_default (∅ : Db) [] ["0x1"; "0x2"]) as [Ha _].
  - vm_compute. done.
  - vm_compute. done.
  - vm_compute. discriminate.
  - destruct Ha as (db' & E & Hg & _ & Hp).
    + apply numbered_nil. vm_compute. reflexivity.
    + exists db'. split; [exact E|]. split; [by apply (Hg 1%nat "0x2")|]. by apply Hp.
Defined.
End Examples.
