(* ===== verification/InternalStore.v ===== *)
(** The store of internal commands (src/rust/src/store/internal_command_store_impl.rs): the commands of a block and of
    a public key, the sorted views of them, and their counts.  The commands are stored as JSON of
    an untagged enum, which does not tell its two variants apart. *)

From S2P Require Import Prelude Bytes Base StoreKeys Command AccountDiff Account Coinbase Precomputed InternalCommand ColumnFamilies Db Events Schema BlockIndex.

(** * Stored commands *)

(** An untagged enum is read as the first variant whose fields fit, which is the fee transfer. *)
Definition untagged (c : DbInternalCommandWithData) : DbInternalCommandWithData :=
  match c with WFeeTransfer d | WCoinbase d => WFeeTransfer d end.

Class InternalJson `{Json DbInternalCommandWithData} := {
  internal_json c : from_json (to_json c) = Ok (untagged c)
}.

Section Store.
Context `{Speedb} `{Json DbInternalCommandWithData}.
Implicit Types (db : Db) (pk : PublicKey) (h : StateHash) (c : DbInternalCommandWithData).

(** ** Counts *)

(** A counter of the database raised by a number. *)
Definition add_count (cf : string) (key : list Z) (incr : Z) db : res Db :=
  old ← get_u32 db cf key; Ok (cf_put cf key (u32_be (wrap32 (old + incr))) db).
Definition sub_count (cf : string) (key : list Z) (decr : Z) db : res Db :=
  old ← get_u32 db cf key; Ok (cf_put cf key (u32_be (saturating_sub old decr)) db).

Definition get_internal_commands_epoch_count db (epoch : option Z) : res Z :=
  e ← or_current_epoch db epoch; get_u32 db internal_commands_epoch_cf (u32_be e).
Definition increment_internal_commands_epoch_count (epoch : Z) db : res Db :=
  old ← get_internal_commands_epoch_count db (Some epoch);
  Ok (cf_put internal_commands_epoch_cf (u32_be epoch) (succ_u32 old) db).

Definition get_internal_commands_total_count db : res Z := get_u32 db default_cf TOTAL_NUM_FEE_TRANSFERS_KEY.
Definition increment_internal_commands_total_count (incr : Z) db : res Db :=
  add_count default_cf TOTAL_NUM_FEE_TRANSFERS_KEY incr db.

Definition get_internal_commands_pk_epoch_count db pk (epoch : option Z) : res Z :=
  e ← or_current_epoch db epoch; key ← u32_prefix_key e pk; get_u32 db internal_commands_pk_epoch_cf key.
Definition increment_internal_commands_pk_epoch_count pk (epoch : Z) db : res Db :=
  old ← get_internal_commands_pk_epoch_count db pk (Some epoch);
  key ← u32_prefix_key epoch pk;
  Ok (cf_put internal_commands_pk_epoch_cf key (succ_u32 old) db).

Definition get_internal_commands_pk_total_count db pk : res Z := get_u32 db internal_commands_pk_total_cf (pk_key pk).
Definition increment_internal_commands_pk_total_count pk db : res Db :=
  add_count internal_commands_pk_total_cf (pk_key pk) 1 db.

Definition get_block_internal_commands_count db h : res (option Z) :=
  opt_u32 db block_internal_command_counts_cf (sh_key h).
Definition set_block_internal_commands_count_batch h (count : Z) : WriteBatch :=
  [Put block_internal_command_counts_cf (sh_key h) (u32_be count)].

(** Coinbases are not counted. *)
Definition increment_internal_commands_counts c (epoch : Z) db : res Db :=
  match c with
  | WCoinbase _ => Ok db
  | WFeeTransfer d =>
    db ← increment_internal_commands_pk_epoch_count (icd_receiver d) epoch db;
    db ← increment_internal_commands_pk_total_count (icd_receiver d) db;
    increment_internal_commands_epoch_count epoch db
  end.

Definition get_canonical_internal_commands_count db : res Z :=
  get_u32 db default_cf TOTAL_NUM_CANONICAL_FEE_TRANSFERS_KEY.
Definition increment_canonical_internal_commands_count (incr : Z) db : res Db :=
  add_count default_cf TOTAL_NUM_CANONICAL_FEE_TRANSFERS_KEY incr db.
Definition decrement_canonical_internal_commands_count (incr : Z) db : res Db :=
  sub_count default_cf TOTAL_NUM_CANONICAL_FEE_TRANSFERS_KEY incr db.

(** ** Commands *)

Definition set_block_internal_command (block : PrecomputedBlock) (index : Z) c db : res Db :=
  let h := state_hash block in
  key ← internal_commmand_block_key h index;
  let db := cf_put internal_commands_cf key (to_json c) db in
  key ← internal_commmand_sort_key (blockchain_length block) h index;
  let db := cf_put internal_commands_block_height_sort_cf key (to_json c) db in
  key ← internal_commmand_sort_key (global_slot_since_genesis block) h index;
  Ok (cf_put internal_commands_global_slot_sort_cf key (to_json c) db).

Definition get_block_internal_command db h (index : Z) : res (option DbInternalCommandWithData) :=
  key ← internal_commmand_block_key h index;
  and_then_ok from_json (cf_get db internal_commands_cf key).

Definition get_pk_num_internal_commands db pk : res (option Z) := opt_u32 db internal_commands_pk_num_cf (pk_key pk).

Definition set_pk_internal_command pk c db : res Db :=
  n ← get_pk_num_internal_commands db pk;
  let n := default 0 n in
  key ← internal_command_pk_key pk n;
  let db := cf_put internal_commands_pk_cf key (to_json c) db in
  Ok (cf_put internal_commands_pk_num_cf (pk_key pk) (succ_u32 n) db).

Definition get_pk_internal_command db pk (index : Z) : res (option DbInternalCommandWithData) :=
  key ← internal_commmand_pk_key pk index;
  and_then_ok from_json (cf_get db internal_commands_pk_cf key).

Definition get_internal_commands db h : res (list DbInternalCommandWithData) :=
  num ← get_block_internal_commands_count db h;
  match num with
  | Some num =>
    mapM (fun n => c ← get_block_internal_command db h (Z.of_nat n); expect_some c) (seq 0 (Z.to_nat num))
  | None => Ok []
  end.

(** The commands from [offset] up to [limit], none if one is missing. *)
Fixpoint read_pk_commands db pk (ms : list Z) (acc : list DbInternalCommandWithData)
  : res (list DbInternalCommandWithData) :=
  match ms with
  | [] => Ok acc
  | m :: ms =>
    c ← get_pk_internal_command db pk m;
    match c with Some c => read_pk_commands db pk ms (acc ++ [c]) | None => Ok [] end
  end.
Definition get_internal_commands_public_key db pk (offset limit : Z) : res (list DbInternalCommandWithData) :=
  n ← get_pk_num_internal_commands db pk;
  match n with
  | Some n => let lo := wrap32 offset in let hi := Z.min (wrap32 limit) n in
              read_pk_commands db pk (Z.add lo ∘ Z.of_nat <$> seq 0 (Z.to_nat (hi - lo))) []
  | None => Ok []
  end.

(** One command of a block. *)
Definition add_internal_command (block : PrecomputedBlock) db (e : nat * DbInternalCommandWithData) : res Db :=
  let h := state_hash block in
  let pk := recipient e.2 in
  let i := Z.of_nat e.1 in
  db ← increment_internal_commands_counts e.2 (epoch_count block) db;
  db ← set_block_internal_command block i e.2 db;
  db ← set_pk_internal_command pk e.2 db;
  key ← internal_commmand_pk_sort_key pk (blockchain_length block) h i (kind e.2);
  let db := cf_put internal_commands_pk_block_height_sort_cf key (to_json e.2) db in
  key ← internal_commmand_pk_sort_key pk (global_slot_since_genesis block) h i (kind e.2);
  Ok (cf_put internal_commands_pk_global_slot_sort_cf key (to_json e.2) db).

(** Only the count of the block is part of the batch; the rest is written at once. *)
Definition add_internal_commands_batch `{Decimal} `{HashMapIter} (block : PrecomputedBlock) db : res (WriteBatch * Db) :=
  cmds ← with_data_from_precomputed block;
  let h := state_hash block in
  let num := wrap32 (Z.of_nat (length cmds)) in
  let db := cf_put internal_commands_block_num_cf (sh_key h) (u32_be num) db in
  db ← increment_internal_commands_total_count num db;
  db ← foldM (add_internal_command block) db (enumerate cmds);
  Ok (set_block_internal_commands_count_batch h num, db).

(** ** Reorganisations *)

Definition update_internal_commands (blocks : DbBlockUpdate) db : res Db :=
  db ← foldM (fun db u => cmds ← get_internal_commands db (bu_state_hash u);
                decrement_canonical_internal_commands_count (wrap32 (Z.of_nat (length cmds))) db) db (up_unapply blocks);
  foldM (fun db u => cmds ← get_internal_commands db (bu_state_hash u);
           increment_canonical_internal_commands_count (wrap32 (Z.of_nat (length cmds))) db) db (up_apply blocks).

(** ** Iterators *)

Definition internal_commands_block_height_iterator db (mode : IteratorMode) :=
  iterator_cf db internal_commands_block_height_sort_cf mode.
Definition internal_commands_global_slot_iterator db (mode : IteratorMode) :=
  iterator_cf db internal_commands_global_slot_sort_cf mode.

(** Backwards from after the keys of the account with the greatest number. *)
Definition pk_iterator_mode pk (direction : Direction) : res IteratorMode :=
  bytes ← pk_to_bytes pk;
  match direction with
  | Forward => Ok (IterFromForward bytes)
  | Reverse => start ← build_key [(PublicKey_LEN, bytes); f_u32 U32_MAX; (1%nat, as_bytes "D")]; Ok (IterFromReverse start)
  end.
Definition internal_commands_pk_block_height_iterator db pk (direction : Direction) : res (list (list Z * list Z)) :=
  mode ← pk_iterator_mode pk direction; Ok (iterator_cf db internal_commands_pk_block_height_sort_cf mode).
Definition internal_commands_pk_global_slot_iterator db pk (direction : Direction) : res (list (list Z * list Z)) :=
  mode ← pk_iterator_mode pk direction; Ok (iterator_cf db internal_commands_pk_global_slot_sort_cf mode).
End Store.

(** * Lists of commands *)

(** Keys of the commands of a block. *)
Definition sh_index (h : StateHash) (i : Z) : list Z := sh_key h ++ u32_be i.

Lemma block_key_ok h i : sh_wf h -> internal_commmand_block_key h i = Ok (sh_index h i).
Proof. intros Hh. unfold internal_commmand_block_key. by unfold_key. Qed.
Lemma sh_index_inj a b i j : sh_wf a -> sh_wf b -> u32 i -> u32 j -> sh_index a i = sh_index b j -> a = b /\ i = j.
Proof.
  intros Ha Hb Hi Hj E. apply app_inj_1 in E as [E1 E2]; [|unfold sh_key; by rewrite (sh_wf_len a), (sh_wf_len b)].
  split; [by apply sh_key_inj|by apply u32_be_inj].
Qed.

Definition internal_families : list string :=
  [internal_commands_pk_epoch_cf; internal_commands_pk_total_cf; internal_commands_epoch_cf; internal_commands_cf;
   internal_commands_block_height_sort_cf; internal_commands_global_slot_sort_cf; internal_commands_pk_cf;
   internal_commands_pk_num_cf; internal_commands_pk_block_height_sort_cf; internal_commands_pk_global_slot_sort_cf].

Section Lists.
Context `{SpeedbSpec} `{InternalJson}.
Implicit Types (db : Db) (pk : PublicKey) (h : StateHash) (c : DbInternalCommandWithData).

(** The commands of a public key. *)
Definition pk_commands pk : Db -> list DbInternalCommandWithData -> Prop :=
  numbered to_json internal_commands_pk_num_cf (pk_key pk) internal_commands_pk_cf (pk_index pk).

(** The counts change nothing but themselves. *)
Lemma internal_counts_spec c epoch db :
  well_typed db -> pk_wf (recipient c) ->
  exists db', increment_internal_commands_counts c epoch db = Ok db' /\ well_typed db' /\
    writes_in [internal_commands_pk_epoch_cf; internal_commands_pk_total_cf; internal_commands_epoch_cf] db db'.
Proof.
  intros Hdb Hpk. destruct c as [d|d]; cbn [recipient] in Hpk; cbn [increment_internal_commands_counts];
    [|exists db; split_and!; [done|done|frame]].
  unfold increment_internal_commands_pk_epoch_count, get_internal_commands_pk_epoch_count.
  rewrite or_current_epoch_some, !u32_prefix_key_ok by done. cbn [mbind res_bind]. rewrite ?u32_prefix_key_ok by done. cbn [mbind res_bind].
  count internal_commands_pk_epoch_cf (u32_be epoch ++ pk_key (icd_receiver d)).
  unfold increment_internal_commands_pk_total_count, add_count.
  count internal_commands_pk_total_cf (pk_key (icd_receiver d)).
  unfold increment_internal_commands_epoch_count, get_internal_commands_epoch_count.
  fold (succ_u32 n0). rewrite or_current_epoch_some by done. cbn [mbind res_bind].
  count internal_commands_epoch_cf (u32_be epoch).
  eexists. split_and!; [done|done|frame].
Qed.

Lemma num_pk_commands db pk l :
  pk_commands pk db l -> exists o, get_pk_num_internal_commands db pk = Ok o /\ default 0 o = Z.of_nat (length l).
Proof.
  intros Hl. pose proof (nl_count _ _ _ _ _ _ _ Hl) as E. unfold get_u32 in E.
  unfold get_pk_num_internal_commands, opt_u32. destruct (cf_get db _ _) as [v|]; cbn [map_res].
  - rewrite E. eexists. by split.
  - injection E as E. exists None. by split.
Qed.

(** Writes to other families keep the lists. *)
Lemma pk_commands_frame cfs db db' pk l :
  writes_in cfs db db' -> family_in cfs internal_commands_pk_num_cf = false ->
  family_in cfs internal_commands_pk_cf = false -> pk_commands pk db l -> pk_commands pk db' l.
Proof.
  intros Hw Hf1 Hf2 Hl. apply (numbered_same _ _ _ _ _ _ _ _ Hl); [exact (writes_get cfs db db' _ _ Hw Hf1)|].
  intros k. exact (writes_get cfs db db' _ _ Hw Hf2).
Qed.

Definition block_command_families : list string :=
  [internal_commands_cf; internal_commands_block_height_sort_cf; internal_commands_global_slot_sort_cf].

Lemma set_block_internal_command_spec block i c db :
  well_typed db -> sh_wf (state_hash block) ->
  exists db', set_block_internal_command block i c db = Ok db' /\ well_typed db' /\
    writes_in block_command_families db db' /\
    (forall k, cf_get db' internal_commands_cf k =
       if decide (k = sh_index (state_hash block) i) then Some (to_json c) else cf_get db internal_commands_cf k).
Proof.
  intros Hdb Hh. unfold set_block_internal_command. rewrite block_key_ok by done. cbn [mbind res_bind].
  unfold internal_commmand_sort_key. unfold_key. cbn [mbind res_bind].
  eexists. split_and!; [done|repeat (apply well_typed_put; [done|]); done|frame|].
  intros k. get_put. rewrite cf_get_put. destruct (decide (_ = _)), (decide (_ = _)); congruence.
Qed.

Lemma set_pk_internal_command_spec pk c db l :
  well_typed db -> pk_wf pk -> pk_commands pk db l -> Z.of_nat (length l) < U32_MAX ->
  exists db', set_pk_internal_command pk c db = Ok db' /\ well_typed db' /\
    writes_in [internal_commands_pk_cf; internal_commands_pk_num_cf] db db' /\ pk_commands pk db' (l ++ [c]) /\
    (forall pk' k, pk_wf pk' -> pk' <> pk -> pk_commands pk' db k -> pk_commands pk' db' k).
Proof.
  intros Hdb Hpk Hl Hlt. unfold set_pk_internal_command. destruct (num_pk_commands db pk l Hl) as (o & -> & Eo).
  cbn [mbind res_bind]. rewrite Eo.
  change (internal_command_pk_key pk (Z.of_nat (length l))) with (pk_index_key pk (Z.of_nat (length l))).
  rewrite pk_index_key_ok by done. cbn [mbind res_bind]. eexists. split_and!; [done| |frame| |].
  - apply well_typed_put; [unfold succ_u32; apply has_type_u32, u32_wrap32|]. by apply well_typed_put.
  - apply (numbered_snoc _ _ _ _ _ db); [done|done|by get_put|by get_put|]. intros i Hi. get_put.
    rewrite cf_get_put, decide_False; [done|]. intros [= E]. apply pk_index_inj in E as [_ E]; [lia|done|done|ints|ints].
  - intros pk' k Hpk' Hne Hk. pose proof (nl_bound _ _ _ _ _ _ _ Hk). split; [|apply Hk|].
    + unfold get_u32. rewrite cf_get_put, decide_False; [|intros [= E]; by apply pk_key_inj in E]. get_put. apply Hk.
    + intros i a Hi. pose proof (lookup_lt_Some _ _ _ Hi). get_put. rewrite cf_get_put, decide_False; [by apply Hk|].
      intros [= E]. by apply pk_index_inj in E as [E _]; [|done|done|ints|ints].
Qed.

(** A command is added at its place in the block and at the end of the list of its recipient. *)
Lemma add_internal_command_spec block db i c l :
  well_typed db -> sh_wf (state_hash block) -> pk_wf (recipient c) ->
  pk_commands (recipient c) db l -> Z.of_nat (length l) < U32_MAX ->
  exists db', add_internal_command block db (i, c) = Ok db' /\ well_typed db' /\ writes_in internal_families db db' /\
    (forall k, cf_get db' internal_commands_cf k =
       if decide (k = sh_index (state_hash block) (Z.of_nat i)) then Some (to_json c) else cf_get db internal_commands_cf k) /\
    pk_commands (recipient c) db' (l ++ [c]) /\
    (forall pk k, pk_wf pk -> pk <> recipient c -> pk_commands pk db k -> pk_commands pk db' k).
Proof.
  intros Hdb Hh Hpk Hl Hlt. unfold add_internal_command. cbn [fst snd].
  destruct (internal_counts_spec c (epoch_count block) db Hdb Hpk) as (db1 & E1 & Hdb1 & Hw1). rewrite E1.
  cbn [mbind res_bind].
  destruct (set_block_internal_command_spec block (Z.of_nat i) c db1 Hdb1 Hh) as (db2 & E2 & Hdb2 & Hw2 & Hg2). rewrite E2.
  cbn [mbind res_bind].
  assert (forall pk k, pk_commands pk db k -> pk_commands pk db2 k) as Hkeep.
  { intros pk k Hk. eapply (pk_commands_frame _ db1); [exact Hw2|done|done|].
    by eapply (pk_commands_frame _ db); [exact Hw1|done|done|]. }
  destruct (set_pk_internal_command_spec (recipient c) c db2 l Hdb2 Hpk (Hkeep _ _ Hl) Hlt)
    as (db3 & E3 & Hdb3 & Hw3 & Hl3 & Ho3). rewrite E3. cbn [mbind res_bind].
  unfold internal_commmand_pk_sort_key. unfold_key. cbn [mbind res_bind].
  assert (forall k1 k2 v, writes_in [internal_commands_pk_global_slot_sort_cf; internal_commands_pk_block_height_sort_cf] db3
    (cf_put internal_commands_pk_global_slot_sort_cf k1 v (cf_put internal_commands_pk_block_height_sort_cf k2 v db3))) as Hw4
    by (intros; frame).
  eexists. split_and!; [done|repeat (apply well_typed_put; [done|]); done| | | |].
  - eapply writes_in_trans; [apply (subset_families _ internal_families _ _ Hw1); reflexivity|].
    eapply writes_in_trans; [apply (subset_families _ internal_families _ _ Hw2); reflexivity|].
    eapply writes_in_trans; [apply (subset_families _ internal_families _ _ Hw3); reflexivity|]. frame.
  - intros k. get_put. rewrite (writes_get _ _ _ _ _ Hw3) by done. rewrite Hg2.
    destruct (decide (k = _)); [done|]. by apply (writes_get _ _ _ _ _ Hw1).
  - eapply pk_commands_frame; [apply Hw4|done|done|done].
  - intros pk k Hk Hne Hl'. eapply pk_commands_frame; [apply Hw4|done|done|]. apply Ho3; auto.
Qed.

(** Every well-formed key has its list. *)
Definition all_pk_commands db (f : PublicKey -> list DbInternalCommandWithData) : Prop :=
  forall pk, pk_wf pk -> pk_commands pk db (f pk).

Definition to_pk pk (cmds : list DbInternalCommandWithData) : list DbInternalCommandWithData :=
  filter (fun c => recipient c = pk) cmds.

Lemma add_internal_commands_loop block cmds n db f :
  well_typed db -> sh_wf (state_hash block) -> Forall (fun c => pk_wf (recipient c)) cmds -> all_pk_commands db f ->
  (forall pk, pk_wf pk -> Z.of_nat (length (f pk) + length cmds) <= U32_MAX) -> Z.of_nat (n + length cmds) <= U32_MAX ->
  exists db', foldM (add_internal_command block) db (zip (seq n (length cmds)) cmds) = Ok db' /\ well_typed db' /\
    writes_in internal_families db db' /\
    (forall i c, cmds !! i = Some c ->
       cf_get db' internal_commands_cf (sh_index (state_hash block) (Z.of_nat (n + i))) = Some (to_json c)) /\
    (forall k, (forall i, (n <= i < n + length cmds)%nat -> k <> sh_index (state_hash block) (Z.of_nat i)) ->
       cf_get db' internal_commands_cf k = cf_get db internal_commands_cf k) /\
    all_pk_commands db' (fun pk => f pk ++ to_pk pk cmds).
Proof.
  intros Hdb Hh Hpks. revert n db f Hdb. induction Hpks as [|c cmds Hpk _ IH]; intros n db f Hdb Hf Hlt Hn.
  { exists db. split_and!; [done|done|frame|done|done|]. intros pk Hpk. rewrite app_nil_r. by apply Hf. }
  cbn [length seq zip zip_with foldM] in *.
  destruct (add_internal_command_spec block db n c (f (recipient c)) Hdb Hh Hpk (Hf _ Hpk)) as
    (db1 & E & Hdb1 & Hw1 & Hg1 & Hl1 & Ho1); [specialize (Hlt _ Hpk); lia|].
  rewrite E. cbn [mbind res_bind].
  destruct (IH (S n) db1 (fun pk => if decide (pk = recipient c) then f pk ++ [c] else f pk)) as
    (db2 & E2 & Hdb2 & Hw2 & Hg2 & Hk2 & Hl2); [done| | |lia|].
  { intros pk Hpk'. destruct (decide (pk = recipient c)) as [->|Hne]; [done|]. apply Ho1; auto. }
  { intros pk Hpk'. specialize (Hlt _ Hpk'). destruct (decide _); [|lia]. rewrite length_app. cbn [length]. lia. }
  exists db2. split_and!; [exact E2|done|by eapply writes_in_trans| | |].
  - intros [|i] c' Hi.
    + injection Hi as <-. rewrite Nat.add_0_r, Hk2.
      * rewrite Hg1. by rewrite decide_True.
      * intros i Hi E'. apply sh_index_inj in E' as [_ E']; [lia|done|done|ints|ints].
    + rewrite <- Nat.add_succ_comm. by apply Hg2.
  - intros k Hk. rewrite Hk2 by (intros i Hi; apply Hk; lia). rewrite Hg1. rewrite decide_False; [done|]. apply Hk. lia.
  - intros pk Hpk'. specialize (Hl2 pk Hpk'). cbn beta in Hl2. unfold to_pk in *. rewrite filter_cons.
    destruct (decide (pk = recipient c)) as [->|Hne].
    + rewrite decide_True by done. by rewrite <- app_assoc in Hl2.
    + by rewrite decide_False.
Qed.

(** ** Reading *)

Lemma get_block_command db h i c :
  sh_wf h -> cf_get db internal_commands_cf (sh_index h i) = Some (to_json c) ->
  get_block_internal_command db h i = Ok (Some (untagged c)).
Proof.
  intros Hh E. unfold get_block_internal_command. rewrite block_key_ok by done. cbn [mbind res_bind].
  rewrite E. cbn [and_then_ok]. by rewrite internal_json.
Qed.

Lemma get_internal_commands_eq db h cmds :
  sh_wf h -> Z.of_nat (length cmds) <= U32_MAX ->
  cf_get db block_internal_command_counts_cf (sh_key h) = Some (u32_be (Z.of_nat (length cmds))) ->
  (forall i c, cmds !! i = Some c -> cf_get db internal_commands_cf (sh_index h (Z.of_nat i)) = Some (to_json c)) ->
  get_internal_commands db h = Ok (untagged <$> cmds).
Proof.
  intros Hh Hb En Hc. unfold get_internal_commands, get_block_internal_commands_count, opt_u32. rewrite En. cbn [map_res].
  rewrite from_be_bytes_u32 by ints. cbn [mbind res_bind]. rewrite Nat2Z.id, <- (length_fmap untagged).
  apply mapM_seq. intros i a (c & -> & Hi)%list_lookup_fmap_Some. by rewrite (get_block_command db h (Z.of_nat i) c) by auto.
Qed.

Lemma get_pk_commands_eq db pk l :
  pk_wf pk -> pk_commands pk db l ->
  get_internal_commands_public_key db pk 0 U32_MAX = Ok (untagged <$> l).
Proof.
  intros Hpk Hl. unfold get_internal_commands_public_key.
  pose proof (nl_count _ _ _ _ _ _ _ Hl) as E. pose proof (nl_bound _ _ _ _ _ _ _ Hl) as Hb. unfold get_u32 in E.
  unfold get_pk_num_internal_commands, opt_u32. destruct (cf_get db _ _) as [v|]; cbn [map_res].
  2:{ injection E as E. destruct l; [done|cbn in E; lia]. }
  rewrite E. cbn [mbind res_bind]. rewrite (wrap32_id 0), (wrap32_id U32_MAX) by ints.
  replace (Z.to_nat (Z.min U32_MAX (Z.of_nat (length l)) - 0)) with (length l) by lia. clear E Hb.
  assert (forall n k acc, (forall i c, k !! i = Some c ->
      cf_get db internal_commands_pk_cf (pk_index pk (Z.of_nat (n + i))) = Some (to_json c)) ->
    read_pk_commands db pk (Z.add 0 ∘ Z.of_nat <$> seq n (length k)) acc = Ok (acc ++ (untagged <$> k))) as Hloop.
  { intros n k. revert n. induction k as [|c k IH]; intros n acc Hk; [by rewrite app_nil_r|]. cbn [length seq].
    rewrite fmap_cons. cbn [read_pk_commands compose]. rewrite Z.add_0_l. unfold get_pk_internal_command.
    change (internal_commmand_pk_key pk (Z.of_nat n)) with (pk_index_key pk (Z.of_nat n)).
    rewrite pk_index_key_ok by done. cbn [mbind res_bind].
    rewrite <- (Nat.add_0_r n) at 1. rewrite (Hk 0%nat c) by done. cbn [and_then_ok]. rewrite internal_json.
    cbn [mbind res_bind]. rewrite IH.
    - rewrite fmap_cons. by rewrite <- app_assoc.
    - intros i c' Hi. rewrite Nat.add_succ_comm. by apply Hk. }
  rewrite (Hloop 0%nat l []); [done|]. intros i c Hi. by apply Hl.
Qed.
End Lists.

(** * Properties *)

Section Properties.
Context `{SpeedbSpec} `{InternalJson} `{Decimal} `{HashMapIter}.
Implicit Types (db : Db) (pk : PublicKey) (h : StateHash).

Definition internal_batch_families : list string :=
  internal_commands_block_num_cf :: default_cf :: internal_families.

(** The commands of a block, in the database and in the batch that is written after it. *)
Lemma add_internal_commands_spec block cmds db f :
  with_data_from_precomputed block = Ok cmds -> well_typed db -> sh_wf (state_hash block) ->
  Forall (fun c => pk_wf (recipient c)) cmds -> all_pk_commands db f ->
  (forall pk, pk_wf pk -> Z.of_nat (length (f pk) + length cmds) <= U32_MAX) ->
  let num := Z.of_nat (length cmds) in
  exists db', add_internal_commands_batch block db =
      Ok ([Put block_internal_command_counts_cf (sh_key (state_hash block)) (u32_be num)], db') /\
    well_typed db' /\ writes_in internal_batch_families db db' /\
    (forall i c, cmds !! i = Some c ->
       cf_get db' internal_commands_cf (sh_index (state_hash block) (Z.of_nat i)) = Some (to_json c)) /\
    (forall k, (forall i, (i < length cmds)%nat -> k <> sh_index (state_hash block) (Z.of_nat i)) ->
       cf_get db' internal_commands_cf k = cf_get db internal_commands_cf k) /\
    all_pk_commands db' (fun pk => f pk ++ to_pk pk cmds).
Proof.
  intros Hc Hdb Hh Hpks Hf Hlt num. unfold add_internal_commands_batch. rewrite Hc. cbn [mbind res_bind].
  assert (num <= U32_MAX) as Hnum.
  { destruct cmds as [|c cmds]; [subst num; cbn; ints|]. apply Forall_cons in Hpks as [Hpk _]. specialize (Hlt _ Hpk). lia. }
  fold num. rewrite wrap32_id by ints. unfold increment_internal_commands_total_count, add_count.
  set (db0 := cf_put internal_commands_block_num_cf _ _ db).
  assert (well_typed db0) as Hdb0 by (apply well_typed_put; [apply has_type_u32; ints|done]).
  destruct (get_u32_typed db0 default_cf TOTAL_NUM_FEE_TRANSFERS_KEY Hdb0 eq_refl) as (old & _ & ->). cbn [mbind res_bind].
  set (db1 := cf_put default_cf _ _ db0).
  assert (well_typed db1) as Hdb1 by (apply well_typed_put; [apply has_type_u32, u32_wrap32|done]).
  assert (writes_in [default_cf; internal_commands_block_num_cf] db db1) as Hw1 by (unfold db1, db0; frame).
  destruct (add_internal_commands_loop block cmds 0 db1 f) as (db2 & E2 & Hdb2 & Hw2 & Hg & Hk & Hl); try done.
  { intros pk Hpk. by eapply pk_commands_frame; [exact Hw1|done|done|apply Hf]. }
  unfold enumerate. rewrite E2. cbn [mbind res_bind]. exists db2. split; [done|]. split; [done|]. split.
  { eapply writes_in_trans; eapply subset_families; [exact Hw1|reflexivity|exact Hw2|reflexivity]. }
  split; [done|]. split; [|done]. intros k Hne. rewrite Hk by (intros i Hi; apply Hne; lia).
  by apply (writes_get _ _ _ _ _ Hw1).
Qed.

(** C31: The internal commands of a block are stored and read back in order, from the block and, after the earlier ones,
    from the public key of each recipient; the commands of other blocks stay.  What is read
    back has the same data, but is a fee transfer even when a coinbase was stored: the variants
    of the untagged enum have the same fields. *)
Theorem internal_commands_stored block cmds db f :
  with_data_from_precomputed block = Ok cmds -> well_typed db -> sh_wf (state_hash block) ->
  Forall (fun c => pk_wf (recipient c)) cmds -> all_pk_commands db f ->
  (forall pk, pk_wf pk -> Z.of_nat (length (f pk) + length cmds) <= U32_MAX) ->
  exists batch db1, add_internal_commands_batch block db = Ok (batch, db1) /\
    let db' := write batch db1 in
    well_typed db' /\
    get_internal_commands db' (state_hash block) = Ok (untagged <$> cmds) /\
    (forall h, sh_wf h -> h <> state_hash block -> get_internal_commands db' h = get_internal_commands db h) /\
    (forall pk, pk_wf pk ->
       get_internal_commands_public_key db' pk 0 U32_MAX = Ok (untagged <$> (f pk ++ to_pk pk cmds))).
Proof.
  intros Hc Hdb Hh Hpks Hf Hlt.
  destruct (add_internal_commands_spec block cmds db f Hc Hdb Hh Hpks Hf Hlt) as (db1 & E & Hdb1 & Hw & Hg & Hk & Hl).
  assert (Z.of_nat (length cmds) <= U32_MAX) as Hnum.
  { destruct cmds as [|c cmds]; [cbn; ints|]. apply Forall_cons in Hpks as [Hpk _]. specialize (Hlt _ Hpk). lia. }
  do 2 eexists. split; [exact E|]. cbn [write fold_left write_op]. split; [apply well_typed_put; [apply has_type_u32; ints|done]|].
  split; [|split].
  - apply get_internal_commands_eq; [done|done|by get_put|]. intros i c Hi. get_put. by apply Hg.
  - intros h Hh' Hne. unfold get_internal_commands, get_block_internal_commands_count, opt_u32.
    rewrite cf_get_put, decide_False by (intros [= E']; by apply sh_key_inj in E').
    rewrite (writes_get _ _ _ _ _ Hw) by done.
    destruct (map_u32_typed db block_internal_command_counts_cf (sh_key h) Hdb eq_refl) as (o & -> & Ho).
    cbn [mbind res_bind]. destruct o as [n|]; [|done]. specialize (Ho n eq_refl). apply mapM_res_ext.
    intros i Hi%elem_of_seq. unfold get_block_internal_command. rewrite block_key_ok by done. cbn [mbind res_bind].
    get_put. rewrite Hk; [done|]. intros j Hj E'. by apply sh_index_inj in E' as [E' _]; [|done|done|ints|ints].
  - intros pk Hpk. apply get_pk_commands_eq; [done|].
    apply (pk_commands_frame [block_internal_command_counts_cf] db1); [frame|done|done|by apply Hl].
Qed.
End Properties.

(** * Examples *)

Global Instance InternalCommandKind_eq_dec : EqDecision InternalCommandKind.
Proof. solve_decision. Defined.
Global Instance InternalCommandKind_countable : Countable InternalCommandKind.
Proof.
  refine (inj_countable' (fun k => match k with KCoinbase => 0%nat | KFeeTransfer => 1%nat | KFeeTransferViaCoinbase => 2%nat end)
    (fun n => match n with 0%nat => KCoinbase | 1%nat => KFeeTransfer | _ => KFeeTransferViaCoinbase end) _). by intros [].
Defined.
Global Instance CommandData_eq_dec : EqDecision CommandData.
Proof. solve_decision. Defined.
Global Instance CommandData_countable : Countable CommandData.
Proof.
  refine (inj_countable' (fun d => (icd_receiver d, icd_amount d, icd_state_hash d, icd_kind d, icd_date_time d, icd_block_height d))
    (fun '(r, a, h, k, t, n) => mkCommandData r a h k t n) _). by intros [].
Defined.

(** The data of a command, without its variant. *)
Definition untagged_json : Json DbInternalCommandWithData :=
  {| to_json c := @to_json CommandData countable_json (match c with WFeeTransfer d | WCoinbase d => d end);
     from_json l := WFeeTransfer <$> @from_json CommandData countable_json l |}.

Global Instance untagged_json_spec : @InternalJson untagged_json.
Proof.
  constructor. intros c. cbn [to_json from_json untagged_json]. rewrite json_roundtrip. by destruct c.
Qed.

Definition coinbase_header : BlockHeader :=
  mkHeader "mainnet" sh_default 2 0 sh_default lh_default sh_default 0 0 pk_example pk_example pk_example false 0 0 [].
Definition coinbase_block : PrecomputedBlock :=
  PcbV2 coinbase_header [Some (mkDiffV2 [] [] (V2One None)); None] [] [].
Definition coinbase_command : CommandData :=
  mkCommandData pk_example MAINNET_COINBASE_REWARD sh_default KCoinbase 0 2.

Section Examples.
#[local] Existing Instances map_db map_db_spec untagged_json whole_decimal.

(** A coinbase is read back as a fee transfer. *)
Lemma internal_commands_stored_witness :
  exists batch db1, add_internal_commands_batch coinbase_block (∅ : Db) = Ok (batch, db1) /\
    get_internal_commands (write batch db1) sh_default = Ok [WFeeTransfer coinbase_command].
Proof.
  destruct (internal_commands_stored coinbase_block [WCoinbase coinbase_command] (∅ : Db) (fun _ => []))
    as (batch & db1 & E & _ & Eg & _).
  - vm_compute. reflexivity.
  - apply empty_well_typed.
  - vm_compute. done.
  - apply Forall_singleton. vm_compute. done.
  - intros pk _. apply numbered_nil. reflexivity.
  - intros pk _. vm_compute. discriminate.
  - exists batch, db1. split; [exact E|]. exact Eg.
Defined.
End Examples.
