(* ===== verification/CommandStore.v ===== *)
(** The store of user commands (src/rust/src/store/user_command_store_impl.rs): the commands of a block, of a public key and
    of a transaction hash, their sorted views, their counts, and the records of the CSV export. *)

From S2P Require Import Prelude Sorting Bytes Base StoreKeys Command AccountDiff Account Coinbase Precomputed Signed LedgerDiff BlockOrder Branch WitnessTree ColumnFamilies Db Events Schema BlockIndex Usernames InternalStore Codes BlockCodes.

(** * Keys *)

Definition COMMAND_KEY_PREFIX : string := "user-".

(** [format!("{COMMAND_KEY_PREFIX}{pk}{n}")] *)
Definition user_command_db_key_pk (pk : string) (n : Z) : list Z :=
  as_bytes COMMAND_KEY_PREFIX ++ as_bytes pk ++ as_bytes (print_uint n).

Definition txn_key (t : TxnHash) : list Z := as_bytes (txn_ref_inner t).

(** * Sorting blocks *)

Definition sort_comparisons `{SortBy BlockComparison} (l : list BlockComparison) : res (list BlockComparison) :=
  sort_by (fun a b => Ok (block_comparison_cmp a b)) l.

Section Store.
Context `{Speedb} `{TxnHasher} `{SortBy BlockComparison}.
Context `{Json BlockComparison} `{Json (list StateHash)} `{Json UsernameUpdate}.
Context `{Json (list UserCommandWithStatus)} `{Json SignedCommandWithData} `{Json (list SignedCommandWithData)}.
Implicit Types (db : Db) (h : StateHash) (pk : PublicKey) (t : TxnHash) (c : UserCommandWithStatus) (block : PrecomputedBlock).

(** * Counts *)

Definition get_pk_num_user_commands_blocks db pk : res (option Z) := opt_u32 db user_commands_pk_num_cf (pk_key pk).

Definition get_user_commands_epoch_count db (epoch : option Z) : res Z :=
  e ← or_current_epoch db epoch; get_u32 db user_commands_epoch_cf (u32_be e).
Definition increment_user_commands_epoch_count (epoch : Z) db : res Db :=
  old ← get_user_commands_epoch_count db (Some epoch);
  Ok (cf_put user_commands_epoch_cf (u32_be epoch) (succ_u32 old) db).

Definition get_user_commands_total_count db : res Z := get_u32 db default_cf TOTAL_NUM_USER_COMMANDS_KEY.
Definition increment_user_commands_total_count db : res Db :=
  old ← get_user_commands_total_count db; Ok (cf_put default_cf TOTAL_NUM_USER_COMMANDS_KEY (succ_u32 old) db).

Definition get_user_commands_pk_epoch_count db pk (epoch : option Z) : res Z :=
  e ← or_current_epoch db epoch; key ← u32_prefix_key e pk; get_u32 db user_commands_pk_epoch_cf key.
Definition increment_user_commands_pk_epoch_count pk (epoch : Z) db : res Db :=
  old ← get_user_commands_pk_epoch_count db pk (Some epoch);
  key ← u32_prefix_key epoch pk;
  Ok (cf_put user_commands_pk_epoch_cf key (succ_u32 old) db).

Definition get_user_commands_pk_total_count db pk : res Z := get_u32 db user_commands_pk_total_cf (pk_key pk).
Definition increment_user_commands_pk_total_count pk db : res Db :=
  old ← get_user_commands_pk_total_count db pk;
  Ok (cf_put user_commands_pk_total_cf (pk_key pk) (succ_u32 old) db).

Definition set_block_user_commands_count_batch h (count : Z) : WriteBatch :=
  [Put block_user_command_counts_cf (sh_key h) (u32_be count)].
Definition get_block_user_commands_count db h : res (option Z) := opt_u32 db block_user_command_counts_cf (sh_key h).

Definition get_applied_user_commands_count db : res Z := get_u32 db default_cf TOTAL_NUM_APPLIED_USER_COMMANDS_KEY.
Definition get_failed_user_commands_count db : res Z := get_u32 db default_cf TOTAL_NUM_FAILED_USER_COMMANDS_KEY.
Definition increment_applied_user_commands_count (incr : Z) db : res Db :=
  add_count default_cf TOTAL_NUM_APPLIED_USER_COMMANDS_KEY incr db.
Definition increment_failed_user_commands_count (incr : Z) db : res Db :=
  add_count default_cf TOTAL_NUM_FAILED_USER_COMMANDS_KEY incr db.
Definition decrement_applied_user_commands_count (incr : Z) db : res Db :=
  sub_count default_cf TOTAL_NUM_APPLIED_USER_COMMANDS_KEY incr db.
Definition decrement_failed_user_commands_count (incr : Z) db : res Db :=
  sub_count default_cf TOTAL_NUM_FAILED_USER_COMMANDS_KEY incr db.

Definition get_canonical_user_commands_count db : res Z := get_u32 db default_cf TOTAL_NUM_CANONICAL_USER_COMMANDS_KEY.
Definition increment_canonical_user_commands_count (incr : Z) db : res Db :=
  add_count default_cf TOTAL_NUM_CANONICAL_USER_COMMANDS_KEY incr db.
Definition decrement_canonical_user_commands_count (incr : Z) db : res Db :=
  sub_count default_cf TOTAL_NUM_CANONICAL_USER_COMMANDS_KEY incr db.

Definition get_applied_canonical_user_commands_count db : res Z :=
  get_u32 db default_cf TOTAL_NUM_APPLIED_CANONICAL_USER_COMMANDS_KEY.
Definition increment_applied_canonical_user_commands_count (incr : Z) db : res Db :=
  add_count default_cf TOTAL_NUM_APPLIED_CANONICAL_USER_COMMANDS_KEY incr db.
Definition decrement_applied_canonical_user_commands_count (incr : Z) db : res Db :=
  sub_count default_cf TOTAL_NUM_APPLIED_CANONICAL_USER_COMMANDS_KEY incr db.

Definition get_failed_canonical_user_commands_count db : res Z :=
  get_u32 db default_cf TOTAL_NUM_FAILED_CANONICAL_USER_COMMANDS_KEY.
Definition increment_failed_canonical_user_commands_count (incr : Z) db : res Db :=
  add_count default_cf TOTAL_NUM_FAILED_CANONICAL_USER_COMMANDS_KEY incr db.
Definition decrement_failed_canonical_user_commands_count (incr : Z) db : res Db :=
  sub_count default_cf TOTAL_NUM_FAILED_CANONICAL_USER_COMMANDS_KEY incr db.

(** One more command of a public key. *)
Definition increment_pk_counts (epoch : Z) db pk : res Db :=
  db ← increment_user_commands_pk_epoch_count pk epoch db;
  increment_user_commands_pk_total_count pk db.

Definition increment_user_commands_counts c (epoch : Z) db : res Db :=
  db ← (if is_applied c then increment_applied_user_commands_count 1 db else increment_failed_user_commands_count 1 db);
  db ← increment_pk_counts epoch db (sender c);
  db ← foldM (fun db r => if bool_decide (sender c <> r) then increment_pk_counts epoch db r else Ok db) db (receiver c);
  db ← increment_user_commands_epoch_count epoch db;
  increment_user_commands_total_count db.

(** * Commands of a block, of a transaction hash and of a public key *)

Definition set_block_user_commands_batch block : res WriteBatch :=
  cmds ← commands block; Ok [Put user_commands_per_block_cf (sh_key (state_hash block)) (to_json cmds)].
Definition get_block_user_commands db h : res (option (list UserCommandWithStatus)) :=
  and_then_ok from_json (cf_get db user_commands_per_block_cf (sh_key h)).

Definition get_user_command_state_hash db t h : res (option SignedCommandWithData) :=
  key ← txn_block_key t h; and_then_ok from_json (cf_get db user_commands_cf key).
Definition get_user_command_state_hashes db t : res (option (list StateHash)) :=
  and_then_ok from_json (cf_get db user_command_state_hashes_cf (txn_key t)).

(** The command in one of the blocks that contain it; a panic if there are not as many. *)
Definition get_user_command db t (index : Z) : res (option SignedCommandWithData) :=
  blocks ← ok_flatten (get_user_command_state_hashes db t);
  match blocks with
  | None => Ok None
  | Some blocks => h ← expect_some (blocks !! Z.to_nat index); expect (get_user_command_state_hash db t h)
  end.

Definition get_user_commands_num_containing_blocks db t : res (option Z) :=
  opt_u32 db user_commands_num_containing_blocks_cf (txn_key t).

(** The blocks in the store among those given, as [filter_map(.. .ok()).flatten()] collects them. *)
Fixpoint known_comparisons db (blocks : list StateHash) : res (list BlockComparison) :=
  match blocks with
  | [] => Ok []
  | b :: blocks =>
    o ← ok_flatten (get_block_comparison db b); l ← known_comparisons db blocks;
    Ok (match o with Some comparison => comparison :: l | None => l end)
  end.

Definition set_user_command_state_hash_batch db h t : res WriteBatch :=
  blocks ← get_user_command_state_hashes db t;
  cmps ← known_comparisons db (default [] blocks ++ [h]);
  cmps ← sort_comparisons cmps;
  let blocks := cmp_state_hash <$> cmps in
  Ok [Put user_commands_num_containing_blocks_cf (txn_key t) (u32_be (wrap32 (Z.of_nat (length blocks))));
      Put user_command_state_hashes_cf (txn_key t) (to_json blocks)].

Definition with_data block c : res SignedCommandWithData :=
  signed_with_data c (sh_str (state_hash block)) (blockchain_length block) (timestamp block) (global_slot_since_genesis block).

(** The views of one command sorted by its public key [pk]. *)
Definition pk_sort_batch (height_cf slot_cf : string) block c t pk : res WriteBatch :=
  let h := state_hash block in
  height_key ← pk_txn_sort_key pk (blockchain_length block) (nonce_of c) t h;
  slot_key ← pk_txn_sort_key pk (global_slot_since_genesis block) (nonce_of c) t h;
  Ok [Put height_cf height_key (u64_be (amount c)); Put slot_cf slot_key (u64_be (amount c))].

(** One command of a block: the counts are written at once, the rest is added to the batch. *)
Definition add_user_command block (s : WriteBatch * Db) c : res (WriteBatch * Db) :=
  let '(batch, db) := s in
  let h := state_hash block in
  let slot := global_slot_since_genesis block in
  t ← hash_signed_command (signed_of c);
  key ← txn_block_key t h;
  data ← with_data block c;
  hashes ← set_user_command_state_hash_batch db h t;
  slot_key ← txn_sort_key slot t h;
  height_key ← txn_sort_key (blockchain_length block) t h;
  db ← increment_user_commands_counts c (epoch_count block) db;
  from ← pk_sort_batch txn_from_height_sort_cf txn_from_slot_sort_cf block c t (sender c);
  to ← mapM (pk_sort_batch txn_to_height_sort_cf txn_to_slot_sort_cf block c t) (receiver c);
  Ok (batch ++ [Put user_commands_cf key (to_json data)] ++ hashes ++
      [Put user_commands_slot_sort_cf slot_key []; Put user_commands_height_sort_cf height_key [];
       Put user_commands_txn_hash_to_global_slot_cf (txn_key t) (u32_be slot)] ++ from ++ concat to, db).

(** The commands of a public key in a block, after those of its earlier blocks. *)
Definition add_pk_commands block (cmds : list UserCommandWithStatus) db pk : res WriteBatch :=
  n ← get_pk_num_user_commands_blocks db pk;
  let n := default 0 n in
  block_pk_commands ← mapM (with_data block) (List.filter (fun c => contains_public_key c pk) cmds);
  Ok (match block_pk_commands with
      | [] => []
      | _ => [Put user_commands_pk_cf (user_command_db_key_pk (pk_str pk) n) (to_json block_pk_commands);
              Put user_commands_pk_num_cf (pk_key pk) (succ_u32 n)]
      end).

Definition add_user_commands_batch block db : res (WriteBatch * Db) :=
  let h := state_hash block in
  cmds ← commands block;
  b1 ← set_block_user_commands_batch block;
  updates ← username_updates block;
  let b2 := set_block_user_commands_count_batch h (wrap32 (Z.of_nat (length cmds))) in
  let b3 := set_block_username_updates_batch h updates in
  s ← foldM (add_user_command block) (b1 ++ b2 ++ b3, db) cmds;
  pks ← all_command_public_keys block;
  per_pk ← mapM (add_pk_commands block cmds s.2) pks;
  Ok (s.1 ++ concat per_pk, s.2).

(** The commands of the blocks of a public key; none when those of one block are missing. *)
Fixpoint read_pk_blocks db pk (m num : nat) (acc : list SignedCommandWithData) : res (list SignedCommandWithData) :=
  match num with
  | O => Ok acc
  | S num =>
    l ← and_then_ok from_json (cf_get db user_commands_pk_cf (user_command_db_key_pk (pk_str pk) (Z.of_nat m)));
    match l with Some l => read_pk_blocks db pk (S m) num (acc ++ l) | None => Ok [] end
  end.
Definition get_user_commands_for_public_key db pk : res (option (list SignedCommandWithData)) :=
  n ← get_pk_num_user_commands_blocks db pk;
  map_res (fun n => read_pk_blocks db pk 0 (Z.to_nat n) []) n.

(** The loop from a block to its ancestors, at most [num] of them. *)
Fixpoint ancestors_in_store `{Json PrecomputedBlock} db (num : nat) (prev_hash : StateHash) : res (list StateHash) :=
  o ← get_block db prev_hash;
  match o, num with
  | Some (block, _), S num => l ← ancestors_in_store db num (previous_state_hash block); Ok (prev_hash :: l)
  | _, _ => Ok []
  end.

Definition get_user_commands_with_bounds `{Json PrecomputedBlock} db pk (start_state_hash end_state_hash : StateHash)
  : res (list SignedCommandWithData) :=
  start_block ← get_block db start_state_hash;
  end_block ← get_block db end_state_hash;
  match start_block, end_block with
  | Some (start_block, _), Some (end_block, _) =>
    if blockchain_length end_block <? blockchain_length start_block then Ok []
    else
      hashes ← ancestors_in_store db (Z.to_nat (blockchain_length end_block - blockchain_length start_block))
                 (previous_state_hash end_block);
      let state_hashes := state_hash end_block :: hashes in
      cmds ← ok_flatten (get_user_commands_for_public_key db pk);
      Ok (match cmds with
          | Some cmds => List.filter (fun d => bool_decide (sc_state_hash d ∈ state_hashes)) cmds
          | None => []
          end)
  | _, _ => Ok []
  end.

(** * Reorganisations *)

Definition unapply_block_commands db (u : BlockUpdate) : res Db :=
  o ← ok_flatten (get_block_user_commands db (bu_state_hash u));
  match o with
  | Some cmds =>
    db ← decrement_canonical_user_commands_count (wrap32 (Z.of_nat (length cmds))) db;
    db ← decrement_applied_canonical_user_commands_count
           (wrap32 (Z.of_nat (length (List.filter is_applied cmds)))) db;
    decrement_failed_canonical_user_commands_count
      (wrap32 (Z.of_nat (length (List.filter (fun c => negb (is_applied c)) cmds)))) db
  | None => Ok db
  end.
Definition apply_block_commands db (u : BlockUpdate) : res Db :=
  o ← ok_flatten (get_block_user_commands db (bu_state_hash u));
  match o with
  | Some cmds =>
    db ← increment_canonical_user_commands_count (wrap32 (Z.of_nat (length cmds))) db;
    db ← increment_applied_canonical_user_commands_count
           (wrap32 (Z.of_nat (length (List.filter is_applied cmds)))) db;
    increment_failed_canonical_user_commands_count
      (wrap32 (Z.of_nat (length (List.filter (fun c => negb (is_applied c)) cmds)))) db
  | None => Ok db
  end.
Definition update_user_commands (blocks : DbBlockUpdate) db : res Db :=
  db ← foldM unapply_block_commands db (up_unapply blocks);
  foldM apply_block_commands db (up_apply blocks).

(** * Iterators *)

Definition user_commands_slot_iterator db (mode : IteratorMode) := iterator_cf db user_commands_slot_sort_cf mode.
Definition user_commands_height_iterator db (mode : IteratorMode) := iterator_cf db user_commands_height_sort_cf mode.
Definition txn_from_height_iterator db (mode : IteratorMode) := iterator_cf db txn_from_height_sort_cf mode.
Definition txn_from_slot_iterator db (mode : IteratorMode) := iterator_cf db txn_from_slot_sort_cf mode.
Definition txn_to_height_iterator db (mode : IteratorMode) := iterator_cf db txn_to_height_sort_cf mode.
Definition txn_to_slot_iterator db (mode : IteratorMode) := iterator_cf db txn_to_slot_sort_cf mode.
End Store.

(** * Keys *)

Definition txn_pad (t : TxnHash) : list Z := as_bytes (txn_ref_inner t) ++ match t with TxnHashV1 _ => [] | TxnHashV2 _ => [0] end.
Definition txn_block (t : TxnHash) (h : StateHash) : list Z := txn_pad t ++ sh_key h.

Lemma txn_pad_len t : txn_wf t -> length (txn_pad t) = TxnHash_V1_LEN.
Proof. intros Ht. apply (txn_right_pad_length t); [done|by apply txn_right_pad_v2_wf]. Qed.
#[local] Hint Resolve txn_pad_len : indexer.

Lemma txn_block_key_ok t h : txn_wf t -> sh_wf h -> txn_block_key t h = Ok (txn_block t h).
Proof.
  intros Ht Hh. unfold txn_block_key. rewrite txn_right_pad_v2_wf by done. fold (txn_pad t). cbn [mbind res_bind]. by unfold_key.
Qed.
Lemma txn_sort_key_ok n t h : txn_wf t -> sh_wf h -> exists k, txn_sort_key n t h = Ok k.
Proof.
  intros Ht Hh. unfold txn_sort_key. rewrite txn_right_pad_v2_wf by done. fold (txn_pad t). cbn [mbind res_bind].
  unfold_key. by eexists.
Qed.
Lemma pk_txn_sort_key_ok pk n m t h : pk_wf pk -> txn_wf t -> sh_wf h -> exists k, pk_txn_sort_key pk n m t h = Ok k.
Proof.
  intros Hpk Ht Hh. unfold pk_txn_sort_key. rewrite txn_right_pad_v2_wf by done. fold (txn_pad t). cbn [mbind res_bind].
  unfold_key. by eexists.
Qed.

Lemma txn_block_inj t1 t2 h1 h2 : txn_wf t1 -> txn_wf t2 -> txn_block t1 h1 = txn_block t2 h2 -> t1 = t2 /\ h1 = h2.
Proof.
  intros H1 H2 E. apply app_inj_1 in E as [E1 E2]; [|by rewrite !txn_pad_len]. split; [|by apply sh_key_inj].
  pose proof (txn_from_bytes_pad t1 _ H1 (txn_right_pad_v2_wf t1 H1)) as D1. fold (txn_pad t1) in D1.
  pose proof (txn_from_bytes_pad t2 _ H2 (txn_right_pad_v2_wf t2 H2)) as D2. fold (txn_pad t2) in D2. congruence.
Qed.
Lemma txn_key_inj t1 t2 : txn_wf t1 -> txn_wf t2 -> txn_key t1 = txn_key t2 -> t1 = t2.
Proof.
  intros [H1 _] [H2 _] E%as_bytes_inj. apply txn_new_valid in H1, H2. rewrite E in H1. congruence.
Qed.

Lemma user_command_db_key_inj pk1 pk2 n1 n2 :
  pk_wf pk1 -> pk_wf pk2 -> u32 n1 -> u32 n2 ->
  user_command_db_key_pk (pk_str pk1) n1 = user_command_db_key_pk (pk_str pk2) n2 -> pk1 = pk2 /\ n1 = n2.
Proof.
  intros H1 H2 Hn1 Hn2 E. apply app_inv_head in E. apply app_inj_1 in E as [E1 E2]; [|by rewrite (pk_wf_len pk1), (pk_wf_len pk2)].
  split; [by apply pk_key_inj|]. apply as_bytes_inj in E2. 
  assert (forall n, u32 n -> parse_uint U32_MAX (print_uint n) = Ok n) as Hp by (intros n Hn; apply parse_print_uint; ints).
  pose proof (Hp n1 Hn1). pose proof (Hp n2 Hn2). congruence.
Qed.

Definition pk_count_families : list string := [user_commands_pk_epoch_cf; user_commands_pk_total_cf].
Definition count_families : list string := [default_cf; user_commands_epoch_cf; user_commands_pk_epoch_cf; user_commands_pk_total_cf].

Section Counts.
Context `{SpeedbSpec}.
Implicit Types (db : Db) (pk : PublicKey) (c : UserCommandWithStatus).

Lemma increment_pk_counts_spec epoch db pk :
  well_typed db -> pk_wf pk ->
  exists db', increment_pk_counts epoch db pk = Ok db' /\ well_typed db' /\ writes_in pk_count_families db db'.
Proof.
  intros Hdb Hpk. unfold increment_pk_counts, increment_user_commands_pk_epoch_count, get_user_commands_pk_epoch_count.
  rewrite or_current_epoch_some by done. cbn [mbind res_bind]. rewrite u32_prefix_key_ok by done. cbn [mbind res_bind].
  count user_commands_pk_epoch_cf (u32_be epoch ++ pk_key pk).
  unfold increment_user_commands_pk_total_count, get_user_commands_pk_total_count.
  count user_commands_pk_total_cf (pk_key pk). eexists. split_and!; [done|done|frame].
Qed.

Lemma increment_receiver_counts_spec epoch sender rs db :
  well_typed db -> Forall pk_wf rs ->
  exists db', foldM (fun db r => if bool_decide (sender <> r) then increment_pk_counts epoch db r else Ok db) db rs = Ok db' /\
    well_typed db' /\ writes_in pk_count_families db db'.
Proof.
  intros Hdb Hrs. revert db Hdb. induction Hrs as [|r rs Hr _ IH]; intros db Hdb; cbn [foldM]; [exists db; split_and!; [done|done|frame]|].
  case_bool_decide; cbn [mbind res_bind].
  - destruct (increment_pk_counts_spec epoch db r Hdb Hr) as (db1 & -> & Hdb1 & Hw1). cbn [mbind res_bind].
    destruct (IH db1 Hdb1) as (db2 & -> & Hdb2 & Hw2). exists db2. split_and!; [done|done|frame].
  - by apply IH.
Qed.

(** The totals of all, of the applied and of the failed commands. *)
Definition totals db (total applied failed : Z) : Prop :=
  get_user_commands_total_count db = Ok total /\ get_applied_user_commands_count db = Ok applied /\
  get_failed_user_commands_count db = Ok failed.

Lemma totals_frame cfs db db' total applied failed :
  writes_in cfs db db' -> family_in cfs default_cf = false -> totals db total applied failed -> totals db' total applied failed.
Proof.
  intros Hw Hcf (Ht & Ha & Hf).
  split_and!; unfold get_user_commands_total_count, get_applied_user_commands_count, get_failed_user_commands_count in *;
    by rewrite (writes_get_u32 _ _ _ _ _ Hw Hcf).
Qed.

Lemma add_count_typed cf key incr db :
  well_typed db -> value_type cf key = TU32 ->
  exists n, get_u32 db cf key = Ok n /\ add_count cf key incr db = Ok (cf_put cf key (u32_be (wrap32 (n + incr))) db) /\
    well_typed (cf_put cf key (u32_be (wrap32 (n + incr))) db).
Proof.
  intros Hdb Ht. destruct (get_u32_typed db cf key Hdb Ht) as (n & Hn & E). exists n. unfold add_count. rewrite E.
  split_and!; [done|done|]. apply well_typed_put; [|done]. rewrite Ht. auto with db.
Qed.

Lemma get_u32_put cf key n db : u32 n -> get_u32 (cf_put cf key (u32_be n) db) cf key = Ok n.
Proof. intros Hn. unfold get_u32. get_put. by apply from_be_bytes_u32. Qed.
Lemma get_u32_put_ne cf key cf' key' v db : (cf', key') <> (cf, key) -> get_u32 (cf_put cf key v db) cf' key' = get_u32 db cf' key'.
Proof. intros Hne. unfold get_u32. by rewrite cf_get_put, decide_False. Qed.

Lemma increment_user_commands_counts_spec c epoch db total applied failed :
  well_typed db -> pk_wf (sender c) -> Forall pk_wf (receiver c) -> totals db total applied failed ->
  exists db', increment_user_commands_counts c epoch db = Ok db' /\ well_typed db' /\ writes_in count_families db db' /\
    totals db' (wrap32 (total + 1)) (if is_applied c then wrap32 (applied + 1) else applied)
      (if is_applied c then failed else wrap32 (failed + 1)).
Proof.
  intros Hdb Hs Hrs (Ht & Ha & Hf). unfold increment_user_commands_counts.
  assert (exists db1, (if is_applied c then increment_applied_user_commands_count 1 db else increment_failed_user_commands_count 1 db) = Ok db1 /\
    well_typed db1 /\ writes_in count_families db db1 /\
    totals db1 total (if is_applied c then wrap32 (applied + 1) else applied) (if is_applied c then failed else wrap32 (failed + 1)))
    as (db1 & -> & Hdb1 & Hw1 & Ht1 & Ha1 & Hf1).
  { unfold increment_applied_user_commands_count, increment_failed_user_commands_count, totals,
      get_user_commands_total_count, get_applied_user_commands_count, get_failed_user_commands_count in *.
    destruct (is_applied c).
    - destruct (add_count_typed default_cf TOTAL_NUM_APPLIED_USER_COMMANDS_KEY 1 db Hdb eq_refl) as (n & En & -> & Hw).
      eexists. split_and!; [done|done|frame|..]; rewrite ?get_u32_put_ne by done; [done| |done].
      rewrite get_u32_put by apply u32_wrap32. congruence.
    - destruct (add_count_typed default_cf TOTAL_NUM_FAILED_USER_COMMANDS_KEY 1 db Hdb eq_refl) as (n & En & -> & Hw).
      eexists. split_and!; [done|done|frame|..]; rewrite ?get_u32_put_ne by done; [done|done|].
      rewrite get_u32_put by apply u32_wrap32. congruence. }
  cbn [mbind res_bind]. destruct (increment_pk_counts_spec epoch db1 _ Hdb1 Hs) as (db2 & -> & Hdb2 & Hw2). cbn [mbind res_bind].
  destruct (increment_receiver_counts_spec epoch (sender c) _ db2 Hdb2 Hrs) as (db3 & -> & Hdb3 & Hw3). cbn [mbind res_bind].
  destruct (totals_frame pk_count_families db1 db3 total _ _ ltac:(eapply writes_in_trans; eassumption) eq_refl (conj Ht1 (conj Ha1 Hf1)))
    as (Ht3 & Ha3 & Hf3).
  unfold increment_user_commands_epoch_count, get_user_commands_epoch_count.
  rewrite or_current_epoch_some by done. cbn [mbind res_bind]. count user_commands_epoch_cf (u32_be epoch).
  unfold increment_user_commands_total_count, get_user_commands_total_count in *.
  rewrite get_u32_put_ne, Ht3 by done. cbn [mbind res_bind]. eexists. split_and!; [done|..].
  - apply well_typed_put; [unfold succ_u32; auto with db|done].
  - apply writes_then_put; [|done]. apply writes_then_put; [|done]. eapply writes_in_trans; [exact Hw1|].
    eapply writes_in_trans; (eapply subset_families; [eassumption|done]).
  - split_and!; unfold get_user_commands_total_count, get_applied_user_commands_count, get_failed_user_commands_count in *.
    + apply get_u32_put, u32_wrap32.
    + by rewrite !get_u32_put_ne by done.
    + by rewrite !get_u32_put_ne by done.
Qed.
End Counts.

(** * Blocks that contain a command *)

(** Blocks of one version, each with one comparison, are ordered. *)
Definition comparable (l : list BlockComparison) : Prop :=
  (exists v, forall a, a ∈ l -> cmp_version a = v) /\
  forall a b, a ∈ l -> b ∈ l -> cmp_state_hash a = cmp_state_hash b -> a = b.

Lemma comparable_ordered l : comparable l -> ordered_by block_comparison_cmp l.
Proof.
  intros [[v Hv] Heq].
  assert (forall a b, a ∈ l -> b ∈ l -> block_comparison_cmp a b = better (cmp_blockchain_length a) (cmp_blockchain_length b)
    (cmp_hash_last_vrf_output a) (cmp_hash_last_vrf_output b) (cmp_state_hash a) (cmp_state_hash b)) as Hb.
  { intros a b Ha Hb. unfold block_comparison_cmp. rewrite (Hv a), (Hv b) by done. by destruct v. }
  split.
  - intros a b c Ha Hb' Hc. rewrite !Hb by done. apply better_trans.
  - intros a b Ha Hb'. rewrite !Hb by done. intros E%better_asym. congruence.
  - intros a b Ha Hb'. destruct (decide (cmp_state_hash a = cmp_state_hash b)) as [E|Hne]; [left; by apply Heq|right].
    rewrite !Hb by done. by apply better_total.
Qed.

Lemma comparable_sort `{SortBy BlockComparison} l :
  comparable l ->
  exists l', sort_comparisons l = Ok l' /\ l' ≡ₚ l /\ StronglySorted (not_after block_comparison_cmp) l'.
Proof.
  intros Hl. destruct (sort_sorted (fun a b => Ok (block_comparison_cmp a b)) block_comparison_cmp l) as (l' & E & Hs);
    [done|by apply comparable_ordered|]. exists l'. split_and!; [done|by apply sort_perm in E|done].
Qed.

(** * Adding the commands of a block *)

(** Families written by a command of a block. *)
Definition command_families : list string :=
  [user_commands_cf; user_commands_num_containing_blocks_cf; user_command_state_hashes_cf; user_commands_slot_sort_cf;
   user_commands_height_sort_cf; user_commands_txn_hash_to_global_slot_cf; txn_from_height_sort_cf; txn_from_slot_sort_cf;
   txn_to_height_sort_cf; txn_to_slot_sort_cf].

Section Adding.
Context `{SpeedbSpec} `{TxnHasher} `{SortBy BlockComparison}.
Context `{Json BlockComparison} `{Json (list StateHash)} `{Json UsernameUpdate}.
Context `{Json (list UserCommandWithStatus)} `{Json SignedCommandWithData} `{Json (list SignedCommandWithData)}.
Implicit Types (db : Db) (h : StateHash) (pk : PublicKey) (t : TxnHash) (c : UserCommandWithStatus) (block : PrecomputedBlock).

(** The blocks known to contain a transaction, and the block being added. *)
Definition containing_blocks db h t : res (list BlockComparison) :=
  blocks ← get_user_command_state_hashes db t; known_comparisons db (default [] blocks ++ [h]).

Lemma containing_blocks_frame cfs db db' h t :
  writes_in cfs db db' -> family_in cfs user_command_state_hashes_cf = false -> family_in cfs block_comparison_cf = false ->
  containing_blocks db' h t = containing_blocks db h t.
Proof.
  intros Hw H1' H2'. unfold containing_blocks, get_user_command_state_hashes. rewrite (writes_get _ _ _ _ _ Hw H1').
  destruct (and_then_ok _ _) as [o| |]; [|done|done]. cbn [mbind res_bind]. induction (default [] o ++ [h]) as [|b l IH]; [done|].
  cbn [known_comparisons]. unfold get_block_comparison. rewrite (writes_get _ _ _ _ _ Hw H2'). by rewrite IH.
Qed.

(** A block whose commands can be stored: their hashes are [th], the hash, slot and keys have their forms, and the blocks that
    contain a command are sorted as [sorted]. *)
Record storable block (th : UserCommandWithStatus -> TxnHash) (sorted : UserCommandWithStatus -> list BlockComparison) db c : Prop := {
  st_hash : hash_signed_command (signed_of c) = Ok (th c);
  st_txn : txn_wf (th c);
  st_sender : pk_wf (sender c);
  st_receiver : Forall pk_wf (receiver c);
  st_sorted : (cmps ← containing_blocks db (state_hash block) (th c); sort_comparisons cmps) = Ok (sorted c)
}.

Definition data_of block (th : UserCommandWithStatus -> TxnHash) c : SignedCommandWithData :=
  mkSignedData (signed_of c) (state_hash block) (status_data c) (th c) (blockchain_length block) (timestamp block)
    (signed_nonce (signed_of c)) (global_slot_since_genesis block).

Lemma with_data_eq block th c :
  hash_signed_command (signed_of c) = Ok (th c) -> with_data block c = Ok (data_of block th c).
Proof. intros E. unfold with_data, signed_with_data. rewrite E. cbn [expect mbind res_bind]. unfold data_of. by destruct (state_hash block). Qed.

(** What a command adds to the batch. *)
Record command_batch block th (sorted : list BlockComparison) c (b : WriteBatch) : Prop := {
  cb_typed : Forall typed_op b;
  cb_families : Forall (fun w => family_in command_families (op_cf w) = true) b;
  cb_data : family user_commands_cf b =
    [Put user_commands_cf (txn_block (th c) (state_hash block)) (to_json (data_of block th c))];
  cb_num : family user_commands_num_containing_blocks_cf b =
    [Put user_commands_num_containing_blocks_cf (txn_key (th c)) (u32_be (wrap32 (Z.of_nat (length sorted))))];
  cb_hashes : family user_command_state_hashes_cf b =
    [Put user_command_state_hashes_cf (txn_key (th c)) (to_json (cmp_state_hash <$> sorted))]
}.

Lemma pk_sort_batch_spec height_cf slot_cf block c t pk :
  pk_wf pk -> txn_wf t -> sh_wf (state_hash block) ->
  exists k1 k2, pk_sort_batch height_cf slot_cf block c t pk =
    Ok [Put height_cf k1 (u64_be (amount c)); Put slot_cf k2 (u64_be (amount c))].
Proof.
  intros Hpk Ht Hh. unfold pk_sort_batch.
  destruct (pk_txn_sort_key_ok pk (blockchain_length block) (nonce_of c) t _ Hpk Ht Hh) as (k1 & ->). cbn [mbind res_bind].
  destruct (pk_txn_sort_key_ok pk (global_slot_since_genesis block) (nonce_of c) t _ Hpk Ht Hh) as (k2 & ->). cbn [mbind res_bind].
  by exists k1, k2.
Qed.

Lemma pk_sort_batches_spec block c t rs :
  Forall pk_wf rs -> txn_wf t -> sh_wf (state_hash block) ->
  exists bs, mapM (pk_sort_batch txn_to_height_sort_cf txn_to_slot_sort_cf block c t) rs = Ok bs /\
    Forall (fun w => (op_cf w = txn_to_height_sort_cf \/ op_cf w = txn_to_slot_sort_cf) /\ typed_op w) (concat bs).
Proof.
  intros Hrs Ht Hh. induction Hrs as [|r rs Hr _ (bs & E & Hbs)]; [by exists []|]. cbn [mapM].
  destruct (pk_sort_batch_spec txn_to_height_sort_cf txn_to_slot_sort_cf block c t r Hr Ht Hh) as (k1 & k2 & ->).
  cbn [mbind res_bind]. rewrite E. cbn [mbind res_bind]. eexists. split; [done|]. cbn [concat app].
  constructor; [split; [by left|done]|]. constructor; [split; [by right|done]|done].
Qed.

Lemma family_none cf b : Forall (fun w => op_cf w <> cf) b -> family cf b = [].
Proof.
  induction 1 as [|w b Hw _ IH]; [done|]. cbn [family List.filter]. destruct (String.eqb_spec (op_cf w) cf); [done|exact IH].
Qed.

Lemma add_user_command_spec block th sorted c b0 db total applied failed :
  well_typed db -> sh_wf (state_hash block) -> u32 (global_slot_since_genesis block) -> storable block th sorted db c ->
  totals db total applied failed ->
  exists b db', add_user_command block (b0, db) c = Ok (b0 ++ b, db') /\ well_typed db' /\ writes_in count_families db db' /\
    totals db' (wrap32 (total + 1)) (if is_applied c then wrap32 (applied + 1) else applied)
      (if is_applied c then failed else wrap32 (failed + 1)) /\
    command_batch block th (sorted c) c b.
Proof.
  intros Hdb Hh Hslot [Hhash Htxn Hsnd Hrcv Hsorted] Htot. unfold add_user_command. rewrite Hhash. cbn [mbind res_bind].
  rewrite txn_block_key_ok by done. cbn [mbind res_bind]. rewrite (with_data_eq block th c Hhash). cbn [mbind res_bind].
  unfold set_user_command_state_hash_batch. unfold containing_blocks in Hsorted.
  destruct (get_user_command_state_hashes db (th c)) as [blocks| |]; [|done|done]. cbn [mbind res_bind] in Hsorted |- *.
  destruct (known_comparisons _ _) as [cmps| |]; [|done|done]. cbn [mbind res_bind] in Hsorted |- *. rewrite Hsorted.
  cbn [mbind res_bind]. destruct (txn_sort_key_ok (global_slot_since_genesis block) (th c) _ Htxn Hh) as (k1 & ->).
  cbn [mbind res_bind]. destruct (txn_sort_key_ok (blockchain_length block) (th c) _ Htxn Hh) as (k2 & ->). cbn [mbind res_bind].
  destruct (increment_user_commands_counts_spec c (epoch_count block) db total applied failed Hdb Hsnd Hrcv Htot) as (db' & -> & Hdb' & Hw & Htot').
  cbn [mbind res_bind].
  destruct (pk_sort_batch_spec txn_from_height_sort_cf txn_from_slot_sort_cf block c (th c) _ Hsnd Htxn Hh) as (k3 & k4 & ->). cbn [mbind res_bind].
  destruct (pk_sort_batches_spec block c (th c) _ Hrcv Htxn Hh) as (bs & -> & Hbs). cbn [mbind res_bind].
  do 2 eexists. split; [done|]. split_and!; [done|done|done|]. rewrite length_fmap.
  assert (forall cf, cf <> txn_to_height_sort_cf -> cf <> txn_to_slot_sort_cf -> family cf (concat bs) = []) as Hnone.
  { intros cf Hn1 Hn2. apply family_none. eapply Forall_impl; [exact Hbs|]. intros w [[->| ->] _]; congruence. }
  split.
  - repeat (constructor; [first [exact I|by apply (has_type_u32 _)|apply (has_type_u32 _), u32_wrap32]|]).
    eapply Forall_impl; [exact Hbs|]. by intros w [_ Hw'].
  - repeat (constructor; [done|]). eapply Forall_impl; [exact Hbs|]. by intros w [[->| ->] _].
  - rewrite !family_app, Hnone by done. done.
  - rewrite !family_app, Hnone by done. done.
  - rewrite !family_app, Hnone by done. done.
Qed.
Lemma storable_frame cfs block th sorted db db' c :
  writes_in cfs db db' -> family_in cfs user_command_state_hashes_cf = false -> family_in cfs block_comparison_cf = false ->
  storable block th sorted db c -> storable block th sorted db' c.
Proof. intros Hw H1' H2' []. split; try done. by rewrite (containing_blocks_frame cfs db). Qed.

Definition num_applied (cmds : list UserCommandWithStatus) : Z := Z.of_nat (length (List.filter is_applied cmds)).
Definition num_failed (cmds : list UserCommandWithStatus) : Z :=
  Z.of_nat (length (List.filter (fun c => negb (is_applied c)) cmds)).

Lemma add_user_commands_loop block th sorted cmds b0 db total applied failed :
  well_typed db -> sh_wf (state_hash block) -> u32 (global_slot_since_genesis block) ->
  (forall c, c ∈ cmds -> storable block th sorted db c) -> totals db total applied failed ->
  0 <= total /\ 0 <= applied /\ 0 <= failed -> total + Z.of_nat (length cmds) <= U32_MAX ->
  applied + num_applied cmds <= U32_MAX -> failed + num_failed cmds <= U32_MAX ->
  exists bs db', foldM (add_user_command block) (b0, db) cmds = Ok (b0 ++ concat bs, db') /\ well_typed db' /\
    writes_in count_families db db' /\
    totals db' (total + Z.of_nat (length cmds)) (applied + num_applied cmds) (failed + num_failed cmds) /\
    Forall2 (fun c b => command_batch block th (sorted c) c b) cmds bs.
Proof.
  intros Hdb Hh Hslot. revert b0 db Hdb total applied failed.
  induction cmds as [|c cmds IH]; intros b0 db Hdb total applied failed Hc Htot Hpos Ht Ha Hf.
  - exists [], db. cbn [foldM concat]. rewrite app_nil_r. cbn. rewrite !Z.add_0_r. split_and!; [done|done|frame|done|constructor].
  - unfold num_applied, num_failed in Ha, Hf |- *. cbn [foldM List.filter length] in *. rewrite Nat2Z.inj_succ in *.
    destruct (add_user_command_spec block th sorted c b0 db total applied failed Hdb Hh Hslot ltac:(apply Hc; by left) Htot)
      as (b & db1 & -> & Hdb1 & Hw1 & Htot1 & Hb). cbn [mbind res_bind].
    rewrite wrap32_id in Htot1 by (destruct (is_applied c); cbn [negb length] in *; ints).
    edestruct (IH (b0 ++ b) db1 Hdb1) as (bs & db2 & -> & Hdb2 & Hw2 & Htot2 & Hbs).
    + intros d Hd. apply (storable_frame count_families _ _ _ db); [done|done|done|]. apply Hc. by right.
    + exact Htot1.
    + destruct (is_applied c); cbn [negb length] in *; rewrite ?wrap32_id by ints; ints.
    + lia.
    + unfold num_applied. destruct (is_applied c); cbn [negb length] in *; rewrite ?wrap32_id by ints; ints.
    + unfold num_failed. destruct (is_applied c); cbn [negb length] in *; rewrite ?wrap32_id by ints; ints.
    + exists (b :: bs), db2. cbn [concat]. rewrite <- app_assoc. split_and!; [done|done|frame| |by constructor].
      unfold num_applied, num_failed in Htot2.
      destruct (is_applied c); cbn [negb length] in *; rewrite ?wrap32_id in Htot2 by ints; rewrite ?Nat2Z.inj_succ in *.
      * replace (total + Z.succ _) with (total + 1 + Z.of_nat (length cmds)) by lia.
        replace (applied + Z.succ _) with (applied + 1 + Z.of_nat (length (List.filter is_applied cmds))) by lia. done.
      * replace (total + Z.succ _) with (total + 1 + Z.of_nat (length cmds)) by lia.
        replace (failed + Z.succ _) with (failed + 1 + Z.of_nat (length (List.filter (fun c => negb (is_applied c)) cmds))) by lia. done.
Qed.

(** ** Commands of public keys *)

(** The commands of a public key, in lists of the commands of one block. *)
Definition pk_blocks pk : Db -> list (list SignedCommandWithData) -> Prop :=
  numbered to_json user_commands_pk_num_cf (pk_key pk) user_commands_pk_cf (user_command_db_key_pk (pk_str pk)).

Definition pk_data block th (cmds : list UserCommandWithStatus) pk : list SignedCommandWithData :=
  data_of block th <$> List.filter (fun c => contains_public_key c pk) cmds.

Definition pk_writes block th cmds (f : PublicKey -> list (list SignedCommandWithData)) pk : WriteBatch :=
  match pk_data block th cmds pk with
  | [] => []
  | mine => [Put user_commands_pk_cf (user_command_db_key_pk (pk_str pk) (Z.of_nat (length (f pk)))) (to_json mine);
             Put user_commands_pk_num_cf (pk_key pk) (succ_u32 (Z.of_nat (length (f pk))))]
  end.

Lemma num_pk_blocks db pk l :
  pk_blocks pk db l -> exists o, get_pk_num_user_commands_blocks db pk = Ok o /\ default 0 o = Z.of_nat (length l).
Proof.
  intros Hl. pose proof (nl_count _ _ _ _ _ _ _ Hl) as E. unfold get_u32 in E.
  unfold get_pk_num_user_commands_blocks, opt_u32. destruct (cf_get db _ _) as [v|]; cbn [map_res].
  - rewrite E. eexists. by split.
  - injection E as E. exists None. by split.
Qed.

Lemma mapM_with_data block th (cmds : list UserCommandWithStatus) :
  (forall c, c ∈ cmds -> hash_signed_command (signed_of c) = Ok (th c)) ->
  mapM (with_data block) cmds = Ok (data_of block th <$> cmds).
Proof.
  induction cmds as [|c cmds IH]; intros Hc; [done|]. cbn [mapM]. rewrite (with_data_eq block th) by (apply Hc; by left).
  cbn [mbind res_bind]. rewrite IH by (intros; apply Hc; by right). done.
Qed.

Lemma add_pk_commands_eq block th cmds db f pk :
  (forall c, c ∈ cmds -> hash_signed_command (signed_of c) = Ok (th c)) -> pk_blocks pk db (f pk) ->
  add_pk_commands block cmds db pk = Ok (pk_writes block th cmds f pk).
Proof.
  intros Hc Hl. unfold add_pk_commands. destruct (num_pk_blocks db pk _ Hl) as (o & -> & Eo). cbn [mbind res_bind].
  rewrite (mapM_with_data block th).
  - cbn [mbind res_bind]. unfold pk_writes, pk_data. rewrite Eo. by destruct (data_of block th <$> _).
  - intros c Hin. apply Hc. apply list_elem_of_In, filter_In in Hin as [Hin _]. by apply list_elem_of_In.
Qed.

Lemma mapM_all {A B} (g : A -> res B) (k : A -> B) l :
  (forall a, a ∈ l -> g a = Ok (k a)) -> mapM g l = Ok (k <$> l).
Proof.
  induction l as [|a l IH]; intros Hg; [done|]. cbn [mapM]. rewrite Hg by (by left). cbn [mbind res_bind].
  rewrite IH by (intros; apply Hg; by right). done.
Qed.

Definition pk_families : list string := [user_commands_pk_cf; user_commands_pk_num_cf].

Lemma pk_writes_families block th cmds f pk : Forall (fun w => family_in pk_families (op_cf w) = true) (pk_writes block th cmds f pk).
Proof. unfold pk_writes. destruct (pk_data _ _ _ _); by repeat constructor. Qed.
Lemma pk_writes_typed block th cmds f pk : Forall typed_op (pk_writes block th cmds f pk).
Proof.
  unfold pk_writes. destruct (pk_data _ _ _ _); [constructor|]. constructor; [exact I|]. constructor; [|constructor].
  apply (has_type_u32 _), u32_wrap32.
Qed.

Lemma last_write_outside cfs (b : WriteBatch) cf k :
  Forall (fun w => family_in cfs (op_cf w) = true) b -> family_in cfs cf = false -> last_write b cf k = None.
Proof.
  intros Hb Hcf. apply last_write_none. eapply Forall_impl; [exact Hb|]. intros w Hw [= E _]. congruence.
Qed.

(** What a public key has after the batch. *)
Lemma last_write_pk block th cmds f pks pk cf k :
  NoDup pks -> (forall p, p ∈ pks -> pk_wf p) -> pk_wf pk -> (forall p, pk_wf p -> Z.of_nat (length (f p)) <= U32_MAX) ->
  (pk ∉ pks -> pk_data block th cmds pk = []) ->
  (cf, k) = (user_commands_pk_num_cf, pk_key pk) \/
    (exists n, u32 n /\ (cf, k) = (user_commands_pk_cf, user_command_db_key_pk (pk_str pk) n)) ->
  last_write (concat (pk_writes block th cmds f <$> pks)) cf k = last_write (pk_writes block th cmds f pk) cf k.
Proof.
  intros Hnd Hpks Hpk Hf Hout Hk.
  assert (forall p, p ∈ pks -> p <> pk -> last_write (pk_writes block th cmds f p) cf k = None) as Ho.
  { intros p Hp Hne. apply last_write_none. unfold pk_writes. destruct (pk_data block th cmds p); [constructor|].
    repeat constructor; cbn [op_cf op_key]; destruct Hk as [[= -> ->]|(n & Hn & [= -> ->])]; intros E;
      first [discriminate E|apply (f_equal snd) in E; cbn [snd] in E].
    - apply user_command_db_key_inj in E as [E _]; [done|auto|done|specialize (Hf p (Hpks p Hp)); ints|done].
    - by apply pk_key_inj in E. }
  destruct (decide (pk ∈ pks)) as [Hin|Hni]; [by apply last_write_concat_one|].
  rewrite last_write_concat_none; [by unfold pk_writes; rewrite Hout|]. intros p Hp. apply Ho; [done|congruence].
Qed.

(** The list of a public key is extended by its commands in the block. *)
Lemma pk_blocks_extend block th cmds f pks pk db db' :
  NoDup pks -> (forall p, p ∈ pks -> pk_wf p) -> pk_wf pk -> (forall p, pk_wf p -> Z.of_nat (length (f p)) < U32_MAX) ->
  (pk ∉ pks -> pk_data block th cmds pk = []) ->
  (forall cf k, cf ∈ pk_families -> cf_get db' cf k =
     match last_write (concat (pk_writes block th cmds f <$> pks)) cf k with Some o => o | None => cf_get db cf k end) ->
  pk_blocks pk db (f pk) ->
  exists l, pk_blocks pk db' l /\ concat l = concat (f pk) ++ pk_data block th cmds pk.
Proof.
  intros Hnd Hpks Hpk Hf Hout Hg Hl.
  assert (forall p, pk_wf p -> Z.of_nat (length (f p)) <= U32_MAX) as Hf' by (intros p Hp; specialize (Hf p Hp); lia).
  pose proof (fun cf k => last_write_pk block th cmds f pks pk cf k Hnd Hpks Hpk Hf' Hout) as Hlw.
  specialize (Hf pk Hpk).
  assert (cf_get db' user_commands_pk_num_cf (pk_key pk) =
    match last_write (pk_writes block th cmds f pk) user_commands_pk_num_cf (pk_key pk) with
    | Some o => o | None => cf_get db user_commands_pk_num_cf (pk_key pk) end) as Hn.
  { rewrite Hg by (by right; left). rewrite Hlw by (by left). done. }
  assert (forall i, u32 i -> cf_get db' user_commands_pk_cf (user_command_db_key_pk (pk_str pk) i) =
    match last_write (pk_writes block th cmds f pk) user_commands_pk_cf (user_command_db_key_pk (pk_str pk) i) with
    | Some o => o | None => cf_get db user_commands_pk_cf (user_command_db_key_pk (pk_str pk) i) end) as He.
  { intros i Hi. rewrite Hg by (by left). rewrite Hlw by (right; by exists i). done. }
  clear Hg Hlw. unfold pk_writes in Hn, He. destruct (pk_data block th cmds pk) as [|d mine].
  - exists (f pk). rewrite app_nil_r. split; [|done]. split.
    + unfold get_u32. rewrite Hn. apply Hl.
    + apply Hl.
    + intros i a Hi. pose proof (lookup_lt_Some _ _ _ Hi). rewrite He by ints. by apply Hl.
  - exists (f pk ++ [d :: mine]). rewrite concat_app. cbn [concat]. rewrite app_nil_r. split; [|done].
    apply (numbered_snoc _ _ _ _ _ db); [done|done|..].
    + rewrite Hn. cbn [last_write op_cf op_key op_value]. rewrite decide_True by done. done.
    + rewrite He by ints. cbn [last_write op_cf op_key op_value]. rewrite decide_False by done. by rewrite decide_True by done.
    + intros i Hi. rewrite He by ints. cbn [last_write op_cf op_key op_value]. rewrite decide_False by done.
      rewrite decide_False; [done|]. intros E%(f_equal snd). cbn [snd] in E. apply user_command_db_key_inj in E as [_ E]; [lia|done|done|ints|ints].
Qed.

Context `{!JsonSpec (list SignedCommandWithData)}.

Lemma read_pk_blocks_eq db pk l m num acc :
  pk_blocks pk db l -> (m + num)%nat = length l -> read_pk_blocks db pk m num acc = Ok (acc ++ concat (drop m l)).
Proof.
  intros Hl. revert m acc. induction num as [|num IH]; intros m acc Hm; cbn [read_pk_blocks].
  - rewrite drop_ge by lia. cbn. by rewrite app_nil_r.
  - destruct (lookup_lt_is_Some_2 l m ltac:(lia)) as [a Ha]. rewrite (nl_entry _ _ _ _ _ _ _ Hl m a Ha). cbn [and_then_ok].
    rewrite json_roundtrip. cbn [mbind res_bind]. rewrite IH by lia. rewrite <- app_assoc. by rewrite (drop_S l a m Ha).
Qed.
Lemma get_user_commands_for_public_key_eq db pk l :
  pk_blocks pk db l -> exists o, get_user_commands_for_public_key db pk = Ok o /\ default [] o = concat l.
Proof.
  intros Hl. unfold get_user_commands_for_public_key. destruct (num_pk_blocks db pk l Hl) as (o & -> & Eo). cbn [mbind res_bind].
  destruct o as [n|]; cbn [map_res]; cbn in Eo.
  - subst n. rewrite Nat2Z.id, (read_pk_blocks_eq db pk l) by done. cbn [mbind res_bind]. eexists. split; [done|]. done.
  - exists None. split; [done|]. destruct l; [done|]. cbn in Eo. lia.
Qed.
End Adding.

(** The comparison of the block itself is among those known. *)
Lemma known_comparisons_last `{Speedb} `{Json BlockComparison} db l h cmps own :
  known_comparisons db (l ++ [h]) = Ok cmps -> get_block_comparison db h = Ok (Some own) -> own ∈ cmps.
Proof.
  intros E Eo. revert cmps E. induction l as [|b l IH]; intros cmps; cbn [app known_comparisons].
  - rewrite Eo. cbn. intros [= <-]. by left.
  - destruct (ok_flatten _) as [o| |]; [|done|done]. cbn [mbind res_bind].
    destruct (known_comparisons db (l ++ [h])) as [k| |]; [|done|done]. cbn [mbind res_bind]. intros [= <-].
    specialize (IH k eq_refl). destruct o; [by right|done].
Qed.

Lemma all_command_public_keys_spec block cmds :
  commands block = Ok cmds ->
  exists pks, all_command_public_keys block = Ok pks /\ NoDup pks /\
    forall pk, pk ∈ pks <-> pk ∈ consensus_public_keys block \/ exists c, c ∈ cmds /\ pk ∈ command_pks c.
Proof.
  intros E. unfold all_command_public_keys. rewrite E. cbn [mbind res_bind]. eexists. split; [done|].
  destruct (sort_pks_spec (fold_left (fun s c => add_keys s (command_pks c)) cmds (consensus_public_keys block))) as (_ & Hnd & Hm).
  split; [exact Hnd|]. intros pk. rewrite Hm. apply elem_of_fold_keys.
Qed.

Lemma concat_fmap_Forall {A B} (P : B -> Prop) (g : A -> list B) l : (forall a, Forall P (g a)) -> Forall P (concat (g <$> l)).
Proof. intros Hg. induction l as [|a l IH]; [constructor|]. cbn. apply Forall_app. by split. Qed.
Lemma concat_Forall2 {A B} (P : B -> Prop) (R : A -> list B -> Prop) l bs :
  (forall a b, R a b -> Forall P b) -> Forall2 R l bs -> Forall P (concat bs).
Proof. intros Hr. induction 1 as [|a b l bs Hab _ IH]; [constructor|]. cbn. apply Forall_app. split; [by apply (Hr a)|done]. Qed.

Section Properties.
Context `{SpeedbSpec} `{TxnHasher} `{SortBy BlockComparison}.
Context `{Json BlockComparison} `{JsonSpec (list StateHash)} `{Json UsernameUpdate}.
Context `{JsonSpec (list UserCommandWithStatus)} `{JsonSpec SignedCommandWithData} `{JsonSpec (list SignedCommandWithData)}.
Implicit Types (db : Db) (h : StateHash) (pk : PublicKey) (t : TxnHash) (c : UserCommandWithStatus) (block : PrecomputedBlock).

(** A block that can be added to a store with the commands [f] of public keys and the given totals. *)
Record addable block (cmds : list UserCommandWithStatus) th sorted db (f : PublicKey -> list (list SignedCommandWithData))
    (total applied failed : Z) : Prop := {
  ad_commands : commands block = Ok cmds;
  ad_usernames : exists updates, username_updates block = Ok updates;
  ad_typed : well_typed db;
  ad_hash : sh_wf (state_hash block);
  ad_slot : u32 (global_slot_since_genesis block);
  ad_storable c : c ∈ cmds -> storable block th sorted db c;
  ad_distinct : NoDup (th <$> cmds);
  ad_keys pk : pk ∈ consensus_public_keys block \/ (exists c, c ∈ cmds /\ pk ∈ command_pks c) -> pk_wf pk;
  ad_lists pk : pk_wf pk -> pk_blocks pk db (f pk) /\ Z.of_nat (length (f pk)) < U32_MAX;
  ad_totals : totals db total applied failed;
  ad_bounds : total + Z.of_nat (length cmds) <= U32_MAX /\ applied + num_applied cmds <= U32_MAX /\
    failed + num_failed cmds <= U32_MAX
}.

Lemma totals_u32 db total applied failed : well_typed db -> totals db total applied failed -> u32 total /\ u32 applied /\ u32 failed.
Proof.
  intros Hdb (Ht & Ha & Hf). unfold get_user_commands_total_count, get_applied_user_commands_count, get_failed_user_commands_count in *.
  destruct (get_u32_typed db default_cf TOTAL_NUM_USER_COMMANDS_KEY Hdb eq_refl) as (n1 & H1' & E1).
  destruct (get_u32_typed db default_cf TOTAL_NUM_APPLIED_USER_COMMANDS_KEY Hdb eq_refl) as (n2 & H2' & E2).
  destruct (get_u32_typed db default_cf TOTAL_NUM_FAILED_USER_COMMANDS_KEY Hdb eq_refl) as (n3 & H3' & E3).
  split_and!; congruence.
Qed.

(** What is written for the block itself. *)
Definition block_batch block (cmds : list UserCommandWithStatus) (updates : UsernameUpdate) : WriteBatch :=
  [Put user_commands_per_block_cf (sh_key (state_hash block)) (to_json cmds);
   Put block_user_command_counts_cf (sh_key (state_hash block)) (u32_be (Z.of_nat (length cmds)));
   Put usernames_per_block_cf (sh_key (state_hash block)) (to_json updates)].

(** The batch, in three parts: the block, its commands, and its public keys. *)
Lemma add_user_commands_spec block cmds th sorted db f total applied failed :
  addable block cmds th sorted db f total applied failed ->
  exists updates bs pks db1,
    let batch := (block_batch block cmds updates ++ concat bs) ++ concat (pk_writes block th cmds f <$> pks) in
    add_user_commands_batch block db = Ok (batch, db1) /\
    well_typed db1 /\ writes_in count_families db db1 /\
    totals db1 (total + Z.of_nat (length cmds)) (applied + num_applied cmds) (failed + num_failed cmds) /\
    Forall2 (fun c b => command_batch block th (sorted c) c b) cmds bs /\
    NoDup pks /\ (forall pk, pk ∈ pks -> pk_wf pk) /\ (forall pk, pk ∉ pks -> pk_data block th cmds pk = []) /\
    well_typed (write batch db1).
Proof.
  intros [Ec [updates Eu] Hdb Hh Hslot Hst Hnd Hkeys Hl Htot (Hb1 & Hb2 & Hb3)].
  destruct (totals_u32 db total applied failed Hdb Htot) as (Hu1 & Hu2 & Hu3).
  destruct (all_command_public_keys_spec block cmds Ec) as (pks & Ep & Hndp & Hm).
  unfold add_user_commands_batch, set_block_user_commands_batch. rewrite Ec, Eu. cbn [mbind res_bind]. rewrite wrap32_id by ints.
  unfold set_block_user_commands_count_batch, set_block_username_updates_batch. cbn [app]. fold (block_batch block cmds updates).
  destruct (add_user_commands_loop block th sorted cmds (block_batch block cmds updates) db total applied failed Hdb Hh Hslot Hst Htot
     ltac:(ints) Hb1 Hb2 Hb3) as (bs & db1 & -> & Hdb1 & Hw & Htot1 & Hbs). cbn [mbind res_bind fst snd].
  rewrite Ep. cbn [mbind res_bind].
  assert (forall pk, pk ∈ pks -> pk_wf pk) as Hwf by (intros pk Hp; by apply Hkeys, Hm).
  rewrite (mapM_all _ (pk_writes block th cmds f)).
  2:{ intros pk Hp. apply add_pk_commands_eq; [intros c Hc; by apply (Hst c)|].
      apply (numbered_same _ _ _ _ _ db); [by apply Hl, Hwf|by rewrite (writes_get _ _ _ _ _ Hw)|intros i; by rewrite (writes_get _ _ _ _ _ Hw)]. }
  cbn [mbind res_bind]. exists updates, bs, pks, db1. split_and!; try done.
  - intros pk Hni. unfold pk_data. rewrite (List.filter_ext_in _ (fun _ => false)); [by rewrite List.filter_false|].
    intros c Hc%list_elem_of_In. apply not_true_iff_false. intros Hpk%contains_public_key_spec. apply Hni, Hm. right. by exists c.
  - apply well_typed_write; [|done]. apply Forall_app. split; [|apply concat_fmap_Forall; intros; apply pk_writes_typed].
    apply Forall_app. split; [constructor; [exact I|constructor; [|constructor; [exact I|constructor]]]|].
    + apply (has_type_u32 _). ints.
    + eapply concat_Forall2; [|exact Hbs]. intros c b Hb. apply Hb.
Qed.

(** The writes of commands to one family. *)
Lemma family_commands block th sorted cmds bs cf (kv : UserCommandWithStatus -> list Z * list Z) :
  Forall2 (fun c b => command_batch block th (sorted c) c b) cmds bs ->
  (forall c b, command_batch block th (sorted c) c b -> family cf b = [Put cf (kv c).1 (kv c).2]) ->
  family cf (concat bs) = (fun e => Put cf e.1 e.2) <$> (kv <$> cmds).
Proof.
  intros Hbs Hkv. rewrite family_concat. induction Hbs as [|c b cmds bs Hb _ IH]; [done|]. cbn [fmap list_fmap concat].
  rewrite IH, (Hkv c b Hb). done.
Qed.

(** Reading from the part of the batch that a family belongs to. *)
Lemma get_of_block block th sorted cmds f updates bs pks db k cf :
  Forall2 (fun c b => command_batch block th (sorted c) c b) cmds bs ->
  family_in command_families cf = false -> family_in pk_families cf = false ->
  cf_get (write ((block_batch block cmds updates ++ concat bs) ++ concat (pk_writes block th cmds f <$> pks)) db) cf k =
  match last_write (block_batch block cmds updates) cf k with Some o => o | None => cf_get db cf k end.
Proof.
  intros Hbs Hc Hp. rewrite write_get, !last_write_app.
  rewrite (last_write_outside pk_families) by (try done; apply concat_fmap_Forall; intros; apply pk_writes_families).
  rewrite (last_write_outside command_families); [done| |done]. eapply concat_Forall2; [|exact Hbs]. intros c b Hb. apply Hb.
Qed.
Lemma get_of_commands block th sorted cmds f updates bs pks db k cf (kv : UserCommandWithStatus -> list Z * list Z) :
  Forall2 (fun c b => command_batch block th (sorted c) c b) cmds bs ->
  (forall c b, command_batch block th (sorted c) c b -> family cf b = [Put cf (kv c).1 (kv c).2]) ->
  family_in command_families cf = true ->
  cf_get (write ((block_batch block cmds updates ++ concat bs) ++ concat (pk_writes block th cmds f <$> pks)) db) cf k =
  match last_write ((fun e => Put cf e.1 e.2) <$> (kv <$> cmds)) cf k with Some o => o | None => cf_get db cf k end.
Proof.
  intros Hbs Hkv Hc. rewrite write_get, !last_write_app.
  assert (family_in pk_families cf = false /\ last_write (block_batch block cmds updates) cf k = None) as [Hp Hb].
  { apply family_in_elem in Hc. unfold command_families in Hc.
    repeat (apply elem_of_cons in Hc as [->|Hc]; [by split|]). by apply not_elem_of_nil in Hc. }
  rewrite (last_write_outside pk_families) by (try done; apply concat_fmap_Forall; intros; apply pk_writes_families).
  rewrite Hb, (last_write_family (concat bs)), (family_commands block th sorted cmds bs cf kv) by done.
  by destruct (last_write (_ <$> _) cf k).
Qed.
Lemma get_of_pks block th sorted cmds f updates bs pks db k cf :
  Forall2 (fun c b => command_batch block th (sorted c) c b) cmds bs -> cf ∈ pk_families ->
  cf_get (write ((block_batch block cmds updates ++ concat bs) ++ concat (pk_writes block th cmds f <$> pks)) db) cf k =
  match last_write (concat (pk_writes block th cmds f <$> pks)) cf k with Some o => o | None => cf_get db cf k end.
Proof.
  intros Hbs Hp. rewrite write_get, !last_write_app.
  assert (family_in command_families cf = false /\ last_write (block_batch block cmds updates) cf k = None) as [Hc ->].
  { unfold pk_families in Hp. repeat (apply elem_of_cons in Hp as [->|Hp]; [by split|]). by apply not_elem_of_nil in Hp. }
  rewrite (last_write_outside command_families (concat bs)); [by destruct (last_write (concat (_ <$> _)) cf k)| |done].
  eapply concat_Forall2; [|exact Hbs]. intros c b Hb. apply Hb.
Qed.

Lemma txn_block_keys_nodup block th (cmds : list UserCommandWithStatus) :
  NoDup (th <$> cmds) -> (forall c, c ∈ cmds -> txn_wf (th c)) -> NoDup ((fun c => txn_block (th c) (state_hash block)) <$> cmds).
Proof.
  intros Hnd Hwf. induction cmds as [|c cmds IH]; [constructor|]. csimpl in *. apply NoDup_cons in Hnd as [Hc Hnd].
  constructor; [|apply IH; [done|intros; apply Hwf; by right]]. intros (d & E & Hd)%list_elem_of_fmap.
  apply txn_block_inj in E as [E _]; [|apply Hwf; by left|apply Hwf; by right]. apply Hc. rewrite E. by apply list_elem_of_fmap_2.
Qed.
Lemma txn_keys_nodup th (cmds : list UserCommandWithStatus) :
  NoDup (th <$> cmds) -> (forall c, c ∈ cmds -> txn_wf (th c)) -> NoDup ((fun c => txn_key (th c)) <$> cmds).
Proof.
  intros Hnd Hwf. induction cmds as [|c cmds IH]; [constructor|]. csimpl in *. apply NoDup_cons in Hnd as [Hc Hnd].
  constructor; [|apply IH; [done|intros; apply Hwf; by right]]. intros (d & E & Hd)%list_elem_of_fmap.
  apply txn_key_inj in E; [|apply Hwf; by left|apply Hwf; by right]. apply Hc. rewrite E. by apply list_elem_of_fmap_2.
Qed.

(** C14: The user commands of a block are stored and read back: from the block, in order, with their number; each
    from its transaction hash and the block; and, after those of its earlier blocks, from every public key that is the sender, a
    receiver, the fee payer or the signer.  What is stored of other blocks stays, and the totals of all, of the applied
    and of the failed commands grow by those of the block. *)
Theorem user_commands_stored block cmds th sorted db f total applied failed :
  addable block cmds th sorted db f total applied failed ->
  exists batch db1, add_user_commands_batch block db = Ok (batch, db1) /\
    let db' := write batch db1 in
    well_typed db' /\
    get_block_user_commands db' (state_hash block) = Ok (Some cmds) /\
    get_block_user_commands_count db' (state_hash block) = Ok (Some (Z.of_nat (length cmds))) /\
    (forall c, c ∈ cmds -> get_user_command_state_hash db' (th c) (state_hash block) = Ok (Some (data_of block th c))) /\
    (forall t h, txn_wf t -> sh_wf h -> h <> state_hash block ->
       get_user_command_state_hash db' t h = get_user_command_state_hash db t h) /\
    (forall pk, pk_wf pk -> exists o, get_user_commands_for_public_key db' pk = Ok o /\
       default [] o = concat (f pk) ++ (data_of block th <$> List.filter (fun c => contains_public_key c pk) cmds)) /\
    totals db' (total + Z.of_nat (length cmds)) (applied + num_applied cmds) (failed + num_failed cmds).
Proof.
  intros Had. destruct (add_user_commands_spec block cmds th sorted db f total applied failed Had)
    as (updates & bs & pks & db1 & E & Hdb1 & Hw & Htot & Hbs & Hnd & Hwf & Hout & Hdb').
  destruct Had as [Ec _ Hdb Hh Hslot Hst Hdist Hkeys Hl Htot0 (Hb1 & _ & _)].
  destruct (totals_u32 db total applied failed Hdb Htot0) as (Hu1 & _ & _).
  do 2 eexists. split; [exact E|]. intros db'. split; [exact Hdb'|].
  pose proof (fun k cf => get_of_block block th sorted cmds f updates bs pks db1 k cf Hbs) as Hgb. fold db' in Hgb.
  pose proof (fun k => get_of_commands block th sorted cmds f updates bs pks db1 k user_commands_cf
    (fun c => (txn_block (th c) (state_hash block), to_json (data_of block th c))) Hbs (fun c b Hb => cb_data _ _ _ _ _ Hb) eq_refl) as Hgc.
  fold db' in Hgc. split_and!.
  - unfold get_block_user_commands. rewrite Hgb by done. cbn [block_batch last_write op_cf op_key op_value].
    rewrite decide_False, decide_False, decide_True by done. cbn [and_then_ok]. by rewrite json_roundtrip.
  - unfold get_block_user_commands_count, opt_u32. rewrite Hgb by done. cbn [block_batch last_write op_cf op_key op_value].
    rewrite decide_False, decide_True by done. cbn [map_res]. by rewrite from_be_bytes_u32 by ints.
  - intros c Hc. unfold get_user_command_state_hash. rewrite txn_block_key_ok by (try done; by apply (Hst c)). cbn [mbind res_bind].
    rewrite Hgc, (last_write_puts _ _ _ (to_json (data_of block th c))).
    + cbn [and_then_ok]. by rewrite json_roundtrip.
    + rewrite <- list_fmap_compose. apply (txn_block_keys_nodup block th cmds Hdist). intros d Hd. by apply (Hst d).
    + apply (list_elem_of_fmap_2 (fun c => (txn_block (th c) (state_hash block), to_json (data_of block th c))) _ _ Hc).
  - intros t h Ht Hh' Hne. unfold get_user_command_state_hash. rewrite txn_block_key_ok by done. cbn [mbind res_bind].
    rewrite Hgc, last_write_no_put; [by rewrite (writes_get _ _ _ _ _ Hw)|].
    intros (c & E' & Hc)%list_elem_of_fmap. apply list_elem_of_fmap in Hc as (d & -> & Hd). cbn [fst] in E'.
    apply txn_block_inj in E' as [_ ?]; [done|done|by apply (Hst d)].
  - intros pk Hpk. destruct (pk_blocks_extend block th cmds f pks pk db1 db') as (l & Hl' & El); [done|done|done|by intros; apply Hl| |..].
    + by apply Hout.
    + intros cf k Hcf. exact (get_of_pks block th sorted cmds f updates bs pks db1 k cf Hbs Hcf).
    + apply (numbered_same _ _ _ _ _ db); [by apply Hl|by rewrite (writes_get _ _ _ _ _ Hw)|intros i; by rewrite (writes_get _ _ _ _ _ Hw)].
    + destruct (get_user_commands_for_public_key_eq db' pk l Hl') as (o & -> & Eo). exists o. split; [done|]. by rewrite Eo, El.
  - destruct Htot as (Ht & Ha & Hf). unfold totals, get_user_commands_total_count, get_applied_user_commands_count, get_failed_user_commands_count, get_u32 in *.
    split_and!; by rewrite Hgb by done.
Qed.

(** After a block is added, the blocks that contain one of its transactions are listed from the best to the worst, the
    block itself among them, and their number is recorded.  The block is found because its comparison is
    written before its batch. *)
Theorem containing_blocks_sorted block cmds th sorted db f total applied failed c own :
  addable block cmds th sorted db f total applied failed -> c ∈ cmds ->
  get_block_comparison db (state_hash block) = Ok (Some own) -> cmp_state_hash own = state_hash block ->
  Z.of_nat (length (sorted c)) <= U32_MAX ->
  (forall cmps, containing_blocks db (state_hash block) (th c) = Ok cmps -> comparable cmps) ->
  exists batch db1, add_user_commands_batch block db = Ok (batch, db1) /\
    let db' := write batch db1 in
    get_user_command_state_hashes db' (th c) = Ok (Some (cmp_state_hash <$> sorted c)) /\
    get_user_commands_num_containing_blocks db' (th c) = Ok (Some (Z.of_nat (length (sorted c)))) /\
    StronglySorted (not_after block_comparison_cmp) (sorted c) /\ state_hash block ∈ (cmp_state_hash <$> sorted c).
Proof.
  intros Had Hc Hown Eown Hlen Hcmp. destruct (add_user_commands_spec block cmds th sorted db f total applied failed Had)
    as (updates & bs & pks & db1 & E & Hdb1 & Hw & Htot & Hbs & Hnd & Hwf & Hout & Hdb').
  destruct Had as [Ec _ Hdb Hh Hslot Hst Hdist Hkeys Hl Htot0 (Hb1 & _ & _)].
  do 2 eexists. split; [exact E|]. intros db'.
  pose proof (fun k => get_of_commands block th sorted cmds f updates bs pks db1 k user_command_state_hashes_cf
    (fun c => (txn_key (th c), to_json (cmp_state_hash <$> sorted c))) Hbs (fun c b Hb => cb_hashes _ _ _ _ _ Hb) eq_refl) as Hg1.
  pose proof (fun k => get_of_commands block th sorted cmds f updates bs pks db1 k user_commands_num_containing_blocks_cf
    (fun c => (txn_key (th c), u32_be (wrap32 (Z.of_nat (length (sorted c)))))) Hbs (fun c b Hb => cb_num _ _ _ _ _ Hb) eq_refl) as Hg2.
  fold db' in Hg1, Hg2. assert (NoDup ((fun c => txn_key (th c)) <$> cmds)) as Hndk.
  { apply txn_keys_nodup; [done|]. intros d Hd. by apply (Hst d). }
  destruct (Hst c Hc) as [_ _ _ _ Hs]. destruct (containing_blocks db (state_hash block) (th c)) as [cmps| |] eqn:Eb; [|done|done].
  cbn [mbind res_bind] in Hs. destruct (comparable_sort cmps (Hcmp cmps eq_refl)) as (l & El & Hp & Hsl).
  assert (l = sorted c) as -> by congruence. split_and!.
  - unfold get_user_command_state_hashes. rewrite Hg1, (last_write_puts _ _ _ (to_json (cmp_state_hash <$> sorted c))).
    + cbn [and_then_ok]. by rewrite json_roundtrip.
    + by rewrite <- list_fmap_compose.
    + apply (list_elem_of_fmap_2 (fun c => (txn_key (th c), to_json (cmp_state_hash <$> sorted c))) _ _ Hc).
  - unfold get_user_commands_num_containing_blocks, opt_u32. rewrite Hg2, (last_write_puts _ _ _ (u32_be (wrap32 (Z.of_nat (length (sorted c)))))).
    + cbn [map_res]. rewrite wrap32_id by ints. by rewrite from_be_bytes_u32 by ints.
    + by rewrite <- list_fmap_compose.
    + apply (list_elem_of_fmap_2 (fun c => (txn_key (th c), u32_be (wrap32 (Z.of_nat (length (sorted c)))))) _ _ Hc).
  - done.
  - rewrite <- Eown. apply list_elem_of_fmap_2. rewrite Hp. unfold containing_blocks in Eb.
    destruct (get_user_command_state_hashes db (th c)) as [o| |]; [|done|done]. cbn [mbind res_bind] in Eb.
    by apply (known_comparisons_last db (default [] o) (state_hash block) cmps own).
Qed.
End Properties.

(** * Canonical commands *)

Section Canonical.
Context `{SpeedbSpec} `{Json (list UserCommandWithStatus)}.
Implicit Types (db : Db) (cmds : list UserCommandWithStatus).

(** The counts of canonical commands are those of the given commands. *)
Definition canonical_counts db cmds : Prop :=
  get_canonical_user_commands_count db = Ok (Z.of_nat (length cmds)) /\
  get_applied_canonical_user_commands_count db = Ok (num_applied cmds) /\
  get_failed_canonical_user_commands_count db = Ok (num_failed cmds).

Lemma num_applied_app k l : num_applied (k ++ l) = num_applied k + num_applied l.
Proof. unfold num_applied. rewrite List.filter_app, length_app. lia. Qed.
Lemma num_failed_app k l : num_failed (k ++ l) = num_failed k + num_failed l.
Proof. unfold num_failed. rewrite List.filter_app, length_app. lia. Qed.
Lemma num_applied_failed l : num_applied l + num_failed l = Z.of_nat (length l).
Proof.
  unfold num_applied, num_failed. induction l as [|c l IH]; [done|]. cbn [List.filter length]. destruct (is_applied c); cbn [negb length]; lia.
Qed.

(** The three counts changed by [incr], [decr] or any operation on a count that acts as [op]. *)
Lemma three_counts (op : string -> list Z -> Z -> Db -> res Db) (fop : Z -> Z -> Z) db cmds old :
  (forall cf k db n d, get_u32 db cf k = Ok n -> 0 <= d <= U32_MAX -> u32 (fop n d) -> op cf k d db = Ok (cf_put cf k (u32_be (fop n d)) db)) ->
  canonical_counts db old -> Z.of_nat (length cmds) <= U32_MAX ->
  u32 (fop (Z.of_nat (length old)) (Z.of_nat (length cmds))) -> u32 (fop (num_applied old) (num_applied cmds)) ->
  u32 (fop (num_failed old) (num_failed cmds)) ->
  exists db', (db ← op default_cf TOTAL_NUM_CANONICAL_USER_COMMANDS_KEY (wrap32 (Z.of_nat (length cmds))) db;
    db ← op default_cf TOTAL_NUM_APPLIED_CANONICAL_USER_COMMANDS_KEY (wrap32 (num_applied cmds)) db;
    op default_cf TOTAL_NUM_FAILED_CANONICAL_USER_COMMANDS_KEY (wrap32 (num_failed cmds)) db) = Ok db' /\
    writes_in [default_cf] db db' /\
    get_canonical_user_commands_count db' = Ok (fop (Z.of_nat (length old)) (Z.of_nat (length cmds))) /\
    get_applied_canonical_user_commands_count db' = Ok (fop (num_applied old) (num_applied cmds)) /\
    get_failed_canonical_user_commands_count db' = Ok (fop (num_failed old) (num_failed cmds)).
Proof.
  intros Hop (E1 & E2 & E3) Hlen Hu1 Hu2 Hu3. pose proof (num_applied_failed cmds).
  assert (0 <= num_applied cmds) by (unfold num_applied; lia). assert (0 <= num_failed cmds) by (unfold num_failed; lia).
  unfold get_canonical_user_commands_count, get_applied_canonical_user_commands_count, get_failed_canonical_user_commands_count in *.
  rewrite !wrap32_id by ints. rewrite (Hop _ _ _ _ _ E1) by (ints || done). cbn [mbind res_bind].
  rewrite (Hop _ _ _ (num_applied old)); [|by rewrite get_u32_put_ne by done|ints|done]. cbn [mbind res_bind].
  rewrite (Hop _ _ _ (num_failed old)); [|by rewrite !get_u32_put_ne by done|ints|done].
  eexists. split_and!; [done|frame|..]; rewrite ?get_u32_put_ne by done; by apply get_u32_put.
Qed.

Lemma add_count_eq cf k db n d : get_u32 db cf k = Ok n -> 0 <= d <= U32_MAX -> u32 (n + d) -> add_count cf k d db = Ok (cf_put cf k (u32_be (n + d)) db).
Proof. intros E Hd Hn. unfold add_count. rewrite E. cbn [mbind res_bind]. by rewrite wrap32_id by ints. Qed.
Lemma sub_count_eq cf k db n d : get_u32 db cf k = Ok n -> 0 <= d <= U32_MAX -> u32 (n - d) -> sub_count cf k d db = Ok (cf_put cf k (u32_be (n - d)) db).
Proof. intros E Hd Hn. unfold sub_count. rewrite E. cbn [mbind res_bind]. unfold saturating_sub. by rewrite Z.max_r by ints. Qed.

Context (g : BlockUpdate -> list UserCommandWithStatus).

Lemma unapply_commands_loop us base db :
  (forall u, u ∈ us -> get_block_user_commands db (bu_state_hash u) = Ok (Some (g u))) ->
  canonical_counts db (concat (g <$> us) ++ base) -> Z.of_nat (length (concat (g <$> us) ++ base)) <= U32_MAX ->
  exists db', foldM unapply_block_commands db us = Ok db' /\ writes_in [default_cf] db db' /\ canonical_counts db' base.
Proof.
  revert db. induction us as [|u us IH]; intros db Hg Hc Hlen; [exists db; split_and!; [done|frame|done]|].
  cbn [fmap list_fmap concat foldM] in *. rewrite <- app_assoc, length_app in *. unfold unapply_block_commands at 2. rewrite Hg by (by left).
  cbn [ok_flatten mbind res_bind]. set (rest := concat (g <$> us) ++ base) in *.
  assert (Z.of_nat (length rest) <= U32_MAX) as Hr by lia. pose proof (num_applied_failed rest). pose proof (num_applied_failed (g u)).
  destruct (three_counts sub_count Z.sub db (g u) (g u ++ rest) sub_count_eq Hc) as (db1 & E1 & Hw1 & Hc1);
    rewrite ?length_app, ?num_applied_app, ?num_failed_app in *; [ints|unfold num_applied, num_failed in *; ints..|].
  unfold num_applied, num_failed in E1. unfold decrement_canonical_user_commands_count, decrement_applied_canonical_user_commands_count,
    decrement_failed_canonical_user_commands_count. cbv beta. rewrite E1. cbn [mbind res_bind].
  destruct (IH db1) as (db2 & -> & Hw2 & Hc2).
  - intros v Hv. unfold get_block_user_commands. rewrite (writes_get _ _ _ _ _ Hw1) by done. apply Hg. by right.
  - unfold canonical_counts. destruct Hc1 as (-> & -> & ->). split_and!; f_equal; lia.
  - unfold rest in Hr. rewrite length_app in Hr. exact Hr.
  - exists db2. split_and!; [done|frame|done].
Qed.

Lemma apply_commands_loop us base db :
  (forall u, u ∈ us -> get_block_user_commands db (bu_state_hash u) = Ok (Some (g u))) ->
  canonical_counts db base -> Z.of_nat (length (concat (g <$> us) ++ base)) <= U32_MAX ->
  exists db', foldM apply_block_commands db us = Ok db' /\ canonical_counts db' (concat (g <$> us) ++ base).
Proof.
  revert db base. induction us as [|u us IH]; intros db base Hg Hc Hlen; [by exists db|].
  cbn [fmap list_fmap concat foldM] in *. rewrite !length_app in *. unfold apply_block_commands at 2. rewrite Hg by (by left).
  cbn [ok_flatten mbind res_bind]. pose proof (num_applied_failed base). pose proof (num_applied_failed (g u)).
  destruct (three_counts add_count Z.add db (g u) base add_count_eq Hc) as (db1 & E1 & Hw1 & Hc1);
    [ints|unfold num_applied, num_failed in *; ints..|].
  unfold num_applied, num_failed in E1. unfold increment_canonical_user_commands_count, increment_applied_canonical_user_commands_count,
    increment_failed_canonical_user_commands_count. cbv beta. rewrite E1. cbn [mbind res_bind].
  destruct (IH db1 (g u ++ base)) as (db2 & -> & Hc2).
  - intros v Hv. unfold get_block_user_commands. rewrite (writes_get _ _ _ _ _ Hw1) by done. apply Hg. by right.
  - unfold canonical_counts. destruct Hc1 as (-> & -> & ->). rewrite length_app, num_applied_app, num_failed_app. split_and!; f_equal; lia.
  - rewrite !length_app. lia.
  - exists db2. split; [done|]. destruct Hc2 as (E1' & E2' & E3'). unfold canonical_counts in *.
    rewrite !length_app, !num_applied_app, !num_failed_app in *. split_and!; [rewrite E1'|rewrite E2'|rewrite E3']; f_equal; lia.
Qed.

Lemma update_user_commands_spec blocks base db :
  (forall u, u ∈ up_unapply blocks ++ up_apply blocks -> get_block_user_commands db (bu_state_hash u) = Ok (Some (g u))) ->
  canonical_counts db (concat (g <$> up_unapply blocks) ++ base) ->
  Z.of_nat (length (concat (g <$> up_unapply blocks) ++ base)) <= U32_MAX ->
  Z.of_nat (length (concat (g <$> up_apply blocks) ++ base)) <= U32_MAX ->
  exists db', update_user_commands blocks db = Ok db' /\ canonical_counts db' (concat (g <$> up_apply blocks) ++ base).
Proof.
  intros Hg Hc Hl1 Hl2. unfold update_user_commands.
  destruct (unapply_commands_loop (up_unapply blocks) base db) as (db1 & -> & Hw1 & Hc1); [set_solver|done|done|]. cbn [mbind res_bind].
  apply apply_commands_loop; [|done|done]. intros u Hu. unfold get_block_user_commands. rewrite (writes_get _ _ _ _ _ Hw1) by done.
  apply Hg. set_solver.
Qed.

(** The counts of canonical user commands, of all, the applied and the failed, follow a reorganisation: counting the
    commands of the blocks it unapplies and of the blocks below, they end counting those of the blocks it applies
    and of the blocks below. *)
Theorem canonical_commands_follow_reorg blocks base db :
  (forall u, u ∈ up_unapply blocks ++ up_apply blocks -> get_block_user_commands db (bu_state_hash u) = Ok (Some (g u))) ->
  canonical_counts db (concat (g <$> up_unapply blocks) ++ base) ->
  Z.of_nat (length (concat (g <$> up_unapply blocks) ++ base)) <= U32_MAX ->
  Z.of_nat (length (concat (g <$> up_apply blocks) ++ base)) <= U32_MAX ->
  exists db', update_user_commands blocks db = Ok db' /\ canonical_counts db' (concat (g <$> up_apply blocks) ++ base).
Proof. apply update_user_commands_spec. Qed.
End Canonical.

(** * Examples *)

Definition payment_example : UserCommandWithStatus :=
  UCV2 (SignedCommandData (mkCommon 1 pk_example 7 (encode_memo "hello") "") (PaymentV2 pk_example 5) pk_example) (Applied None None).
Definition payment_block : PrecomputedBlock :=
  PcbV2 coinbase_header [Some (mkDiffV2 [] [payment_example] (V2One None)); None] [] [].
Definition payment_comparison : BlockComparison := mkComparison sh_default 2 [] V2.
Definition one_txn : TxnHasher := {| hash_signed_command _ := Ok txn_v2_example |}.

Section Examples.
#[local] Existing Instances map_db map_db_spec countable_json one_txn insertion_sort_by.

(** A store that knows the comparison of the block. *)
Definition known_block : Db := cf_put block_comparison_cf (sh_key sh_default) (to_json payment_comparison) (∅ : Db).

Lemma known_block_get cf k : cf <> block_comparison_cf -> cf_get known_block cf k = None.
Proof. intros Hne. unfold known_block. rewrite cf_get_put, decide_False by congruence. reflexivity. Qed.

Lemma payment_containing : containing_blocks known_block sh_default txn_v2_example = Ok [payment_comparison].
Proof.
  unfold containing_blocks, get_user_command_state_hashes. rewrite known_block_get by done. cbn [and_then_ok mbind res_bind default app].
  cbn [known_comparisons]. unfold get_block_comparison, known_block. get_put. cbn [and_then_ok]. by rewrite json_roundtrip.
Qed.

Lemma payment_addable :
  addable payment_block [payment_example] (fun _ => txn_v2_example) (fun _ => [payment_comparison]) known_block (fun _ => []) 0 0 0.
Proof.
  split.
  - reflexivity.
  - eexists. vm_compute. reflexivity.
  - apply well_typed_put; [exact I|apply empty_well_typed].
  - split; vm_compute; reflexivity.
  - vm_compute. split; discriminate.
  - intros c Hc. apply list_elem_of_singleton in Hc as ->. split; [reflexivity|split; vm_compute; reflexivity|apply pk_example_wf| |].
    + constructor; [apply pk_example_wf|constructor].
    + cbv beta; change (state_hash payment_block) with sh_default; rewrite payment_containing. reflexivity.
  - apply NoDup_singleton.
  - intros pk [Hpk|(c & Hc & Hpk)].
    + assert (pk = pk_example) as -> by (unfold consensus_public_keys in Hpk; set_solver). apply pk_example_wf.
    + apply list_elem_of_singleton in Hc as ->. assert (pk = pk_example) as -> by (cbn in Hpk; set_solver). apply pk_example_wf.
  - intros pk _. split; [|vm_compute; reflexivity]. apply numbered_nil. by apply known_block_get.
  - split_and!; vm_compute; reflexivity.
  - vm_compute. split_and!; discriminate.
Qed.

(** One payment of an account to itself. *)
Lemma user_commands_stored_witness :
  exists batch db1, add_user_commands_batch payment_block known_block = Ok (batch, db1) /\
    get_block_user_commands (write batch db1) sh_default = Ok (Some [payment_example]).
Proof.
  destruct (user_commands_stored payment_block [payment_example] (fun _ => txn_v2_example) (fun _ => [payment_comparison]) known_block
    (fun _ => []) 0 0 0 payment_addable) as (batch & db1 & E & _ & Eg & _).
  exists batch, db1. split; [exact E|exact Eg].
Defined.

Lemma containing_blocks_sorted_witness :
  exists batch db1, add_user_commands_batch payment_block known_block = Ok (batch, db1) /\
    get_user_command_state_hashes (write batch db1) txn_v2_example = Ok (Some [sh_default]).
Proof.
  destruct (containing_blocks_sorted payment_block [payment_example] (fun _ => txn_v2_example) (fun _ => [payment_comparison]) known_block
    (fun _ => []) 0 0 0 payment_example payment_comparison payment_addable) as (batch & db1 & E & Eg & _).
  - by left.
  - unfold get_block_comparison, known_block. get_put. cbn [and_then_ok]. by rewrite json_roundtrip.
  - reflexivity.
  - vm_compute. discriminate.
  - intros cmps. cbv beta; change (state_hash payment_block) with sh_default; rewrite payment_containing. intros [= <-]. split; [exists V2; by intros a ->%list_elem_of_singleton|].
    by intros a b ->%list_elem_of_singleton ->%list_elem_of_singleton.
  - exists batch, db1. split; [exact E|exact Eg].
Defined.

(** A block with one applied payment becomes canonical. *)
Lemma canonical_commands_follow_reorg_witness :
  exists db', update_user_commands (mkUpdate [mkBlockUpdate sh_default 2 3] [])
    (cf_put user_commands_per_block_cf (sh_key sh_default) (to_json [payment_example]) (∅ : Db)) = Ok db' /\
    get_applied_canonical_user_commands_count db' = Ok 1.
Proof.
  destruct (canonical_commands_follow_reorg (fun _ => [payment_example]) (mkUpdate [mkBlockUpdate sh_default 2 3] []) []
    (cf_put user_commands_per_block_cf (sh_key sh_default) (to_json [payment_example]) (∅ : Db))) as (db' & E & _ & Ea & _).
  - cbn [up_unapply up_apply app]. intros u ->%list_elem_of_singleton. unfold get_block_user_commands. cbn [bu_state_hash]. get_put.
    cbn [and_then_ok]. by rewrite json_roundtrip.
  - split_and!; unfold get_canonical_user_commands_count, get_applied_canonical_user_commands_count, get_failed_canonical_user_commands_count, get_u32;
      get_put; reflexivity.
  - vm_compute. discriminate.
  - vm_compute. discriminate.
  - exists db'. split; [exact E|exact Ea].
Defined.
End Examples.
