(* ===== verification/Canonicity.v ===== *)
(** The canonicity store (src/rust/src/store/canonicity_store_impl.rs) and reorganisations
    (src/rust/src/store/block_store_impl.rs, [reorg_blocks]): which block is canonical at a height and at a slot, and
    which blocks a change of the best tip applies and unapplies. *)

From S2P Require Import Prelude Bytes Base StoreKeys Command AccountDiff Account Coinbase Precomputed InternalCommand BlockOrder ColumnFamilies Db Events Schema BlockIndex InternalStore.

(** * The canonicity store *)

Record CanonicityDiff := mkCanonicityDiff {
  cdf_state_hash : StateHash;
  cdf_blockchain_length : Z;
  cdf_global_slot : Z
}.

Inductive Canonicity := Canonical | Orphaned | Pending.

Section Store.
Context `{Speedb} `{Json (list StateHash)} `{Json DbInternalCommandWithData} `{Json IndexerEvent}.
Implicit Types (db : Db) (h : StateHash).

(** Hashes that cannot be read panic. *)
Definition get_known_hashes db (key : list Z) : res (list StateHash) :=
  match cf_get db default_cf key with Some bytes => expect (from_json bytes) | None => Ok [] end.
Definition get_known_genesis_state_hashes db : res (list StateHash) :=
  get_known_hashes db KNOWN_GENESIS_STATE_HASHES_KEY.
Definition get_known_genesis_prev_state_hashes db : res (list StateHash) :=
  get_known_hashes db KNOWN_GENESIS_PREV_STATE_HASHES_KEY.

Definition get_canonical_hash_at_height db (height : Z) : res (option StateHash) :=
  and_then_ok sh_from_bytes (cf_get db canonicity_length_cf (u32_be height)).
Definition get_canonical_hash_at_slot db (global_slot : Z) : res (option StateHash) :=
  and_then_ok sh_from_bytes (cf_get db canonicity_slot_cf (u32_be global_slot)).

Definition get_block_canonicity db h : res (option Canonicity) :=
  height ← ok_flatten (get_block_height db h);
  match height with
  | Some height =>
    canonical ← get_canonical_hash_at_height db height;
    Ok (option_map (fun c => if decide (h = c) then Canonical else Orphaned) canonical)
  | None => Ok None
  end.

(** The counts of a genesis block, if its first internal command is a coinbase. *)
Definition count_genesis h db : res Db :=
  db ← increment_block_canonical_production_count h db;
  match get_internal_commands db h with
  | Ok (WCoinbase d :: _) =>
    increment_block_production_count (icd_receiver d) (MAINNET_COINBASE_REWARD <? icd_amount d) db
  | Panic => Panic
  | _ => Ok db
  end.

Definition record_genesis (genesis genesis_prev : StateHash) db : res Db :=
  hashes ← get_known_genesis_state_hashes db;
  prev_hashes ← get_known_genesis_prev_state_hashes db;
  Ok (if bool_decide (genesis ∈ hashes) then db
      else let db := cf_put default_cf KNOWN_GENESIS_STATE_HASHES_KEY (to_json (hashes ++ [genesis])) db in
           cf_put default_cf KNOWN_GENESIS_PREV_STATE_HASHES_KEY (to_json (prev_hashes ++ [genesis_prev])) db).

Definition add_canonical_block (height global_slot : Z) h (genesis : StateHash) (genesis_prev : option StateHash) db
  : res Db :=
  db ← (if bool_decide (h = genesis) && bool_decide (is_Some genesis_prev) then count_genesis h db else Ok db);
  let db := cf_put canonicity_length_cf (u32_be height) (sh_key h) db in
  let db := cf_put canonicity_slot_cf (u32_be global_slot) (sh_key h) db in
  db ← (match genesis_prev with Some prev => record_genesis genesis prev db | None => Ok db end);
  e ← add_event (EventDb (DbCanonicity (NewCanonicalBlock h height))) db;
  Ok e.2.

Definition unapply_canonicity db (u : CanonicityDiff) : res Db :=
  let db := cf_delete canonicity_length_cf (u32_be (cdf_blockchain_length u)) db in
  let db := cf_delete canonicity_slot_cf (u32_be (cdf_global_slot u)) db in
  decrement_block_canonical_production_count (cdf_state_hash u) db.

Definition apply_canonicity db (a : CanonicityDiff) : res Db :=
  let db := cf_put canonicity_length_cf (u32_be (cdf_blockchain_length a)) (sh_key (cdf_state_hash a)) db in
  let db := cf_put canonicity_slot_cf (u32_be (cdf_global_slot a)) (sh_key (cdf_state_hash a)) db in
  increment_block_canonical_production_count (cdf_state_hash a) db.

Definition update_canonicity (updates : DbUpdate CanonicityDiff) db : res Db :=
  db ← foldM unapply_canonicity db (up_unapply updates);
  foldM apply_canonicity db (up_apply updates).

Definition canonicity_diff (u : BlockUpdate) : CanonicityDiff :=
  mkCanonicityDiff (bu_state_hash u) (bu_blockchain_length u) (bu_global_slot_since_genesis u).

Definition update_block_canonicities (blocks : DbBlockUpdate) db : res Db :=
  update_canonicity (mkUpdate (canonicity_diff <$> up_apply blocks) (canonicity_diff <$> up_unapply blocks)) db.
End Store.

(** * Blocks to apply and unapply *)

Section Reorg.
Context `{Speedb}.
Implicit Types (db : Db) (h : StateHash).

Definition block_update db h (length : Z) : res BlockUpdate :=
  slot ← get_block_global_slot db h; slot ← expect_some slot;
  Ok (mkBlockUpdate h length slot).

(** Bring the new tip back to the height of the old one: every update has the length of the new tip. *)
Fixpoint bring_back db (b_length : Z) (steps : nat) (b : StateHash) (apply : list BlockUpdate)
  : res (StateHash * list BlockUpdate) :=
  match steps with
  | O => Ok (b, apply)
  | S steps =>
    if is_genesis_hash b then Ok (b, apply)
    else
      u ← block_update db b b_length;
      parent ← get_block_parent_hash db b; parent ← expect_some parent;
      bring_back db b_length steps parent (apply ++ [u])
  end.

Record ReorgState := mkReorg {
  rs_a : StateHash; rs_b : StateHash;
  rs_a_prev : StateHash; rs_b_prev : StateHash;
  rs_apply : list BlockUpdate; rs_unapply : list BlockUpdate
}.

(** An iteration of the loop that looks for the common ancestor: its condition on the genesis hashes is a disjunction
    of inequalities with two different hashes. *)
Definition reorg_body db (s : ReorgState) : option (res ReorgState) :=
  if bool_decide (rs_a s <> rs_b s) &&
     (negb (String.eqb (sh_str (rs_a s)) MAINNET_GENESIS_HASH) || negb (String.eqb (sh_str (rs_a s)) HARDFORK_GENESIS_HASH))
  then Some (
    a_length ← get_block_height db (rs_a s); a_length ← expect_some a_length;
    b_length ← get_block_height db (rs_b s); b_length ← expect_some b_length;
    ub ← block_update db (rs_b s) b_length;
    ua ← block_update db (rs_a s) a_length;
    a_prev ← get_block_parent_hash db (rs_a_prev s); a_prev ← expect_some a_prev;
    b_prev ← get_block_parent_hash db (rs_b_prev s); b_prev ← expect_some b_prev;
    Ok (mkReorg (rs_a_prev s) (rs_b_prev s) a_prev b_prev (rs_apply s ++ [ub]) (rs_unapply s ++ [ua])))
  else None.

(** [None] when the fuel runs out. *)
Definition reorg_blocks (fuel : nat) db (old_best_tip new_best_tip : StateHash) : option (res DbBlockUpdate) :=
  match (b_length ← get_block_height db new_best_tip; b_length ← expect_some b_length;
         a_length ← get_block_height db old_best_tip; a_length ← expect_some a_length;
         s ← bring_back db b_length (Z.to_nat (saturating_sub b_length a_length)) new_best_tip [];
         a_prev ← get_block_parent_hash db old_best_tip; a_prev ← expect_some a_prev;
         b_prev ← get_block_parent_hash db s.1; b_prev ← expect_some b_prev;
         Ok (mkReorg old_best_tip s.1 a_prev b_prev s.2 [])) with
  | Ok s =>
    match while fuel (reorg_body db) s with
    | Some (Ok s) => Some (Ok (mkUpdate (rev (rs_apply s)) (rs_unapply s)))
    | Some Err => Some Err
    | Some Panic => Some Panic
    | None => None
    end
  | Err => Some Err
  | Panic => Some Panic
  end.
End Reorg.
