(* ===== verification/Reorg.v ===== *)
(** Reorganisations (src/rust/src/store/block_store_impl.rs, [reorg_blocks]; src/rust/src/store/canonicity_store_impl.rs):
    the blocks between the two tips and their common ancestor, and the canonicity indices and
    production counts after them. *)

From S2P Require Import Prelude Bytes Base StoreKeys Command AccountDiff Account Coinbase Precomputed InternalCommand BlockOrder ColumnFamilies Db Events Schema BlockIndex InternalStore Canonicity.

(** * Chains of stored blocks *)

(** What the store has of a block. *)
Record Stored := mkStored {
  st_hash : StateHash;
  st_parent : StateHash;
  st_length : Z;
  st_slot : Z;
  st_creator : PublicKey;
  st_epoch : Z
}.

Definition update_of (s : Stored) : BlockUpdate := mkBlockUpdate (st_hash s) (st_length s) (st_slot s).
(** The update that is made of a block while the new tip is brought back. *)
Definition update_at (len : Z) (s : Stored) : BlockUpdate := mkBlockUpdate (st_hash s) len (st_slot s).

Section Chains.
Context `{Speedb}.
Implicit Types (db : Db) (h tip anc : StateHash) (s : Stored) (l : list Stored).

Record stored db s : Prop := {
  so_parent : get_block_parent_hash db (st_hash s) = Ok (Some (st_parent s));
  so_length : get_block_height db (st_hash s) = Ok (Some (st_length s));
  so_slot : get_block_global_slot db (st_hash s) = Ok (Some (st_slot s));
  so_creator : get_block_creator db (st_hash s) = Ok (Some (st_creator s));
  so_epoch : get_block_epoch db (st_hash s) = Ok (Some (st_epoch s));
  so_wf : sh_wf (st_hash s) /\ pk_wf (st_creator s) /\ u32 (st_length s) /\ u32 (st_slot s) /\ u32 (st_epoch s)
}.

(** The blocks from a tip down to, and without, one of its ancestors, the tip first. *)
Inductive path db : StateHash -> list Stored -> StateHash -> Prop :=
| path_nil h : path db h [] h
| path_cons s l anc : stored db s -> path db (st_parent s) l anc -> path db (st_hash s) (s :: l) anc.

Lemma path_stored db tip l anc : path db tip l anc -> Forall (stored db) l.
Proof. induction 1; [constructor|by constructor]. Qed.

Lemma path_app db tip l1 mid l2 anc : path db tip l1 mid -> path db mid l2 anc -> path db tip (l1 ++ l2) anc.
Proof. induction 1; [done|]. intros Hp. constructor; auto. Qed.

Lemma path_split db tip l1 l2 anc : path db tip (l1 ++ l2) anc -> exists mid, path db tip l1 mid /\ path db mid l2 anc.
Proof.
  revert tip. induction l1 as [|s l1 IH]; intros tip Hp; [exists tip; by split; [constructor|]|].
  inversion Hp as [|s' l' anc' Hs Hp']; subst. apply IH in Hp' as (mid & H1 & H2). exists mid. split; [by constructor|done].
Qed.

Lemma block_update_stored db s len : stored db s -> block_update db (st_hash s) len = Ok (update_at len s).
Proof. intros Hs. unfold block_update. by rewrite (so_slot _ _ Hs). Qed.

(** * The blocks of a reorganisation *)

Lemma bring_back_spec db len tip l mid acc :
  path db tip l mid -> Forall (fun s => is_genesis_hash (st_hash s) = false) l ->
  bring_back db len (length l) tip acc = Ok (mid, acc ++ (update_at len <$> l)).
Proof.
  intros Hp. revert acc. induction Hp as [h|s l anc Hs Hp IH]; intros acc Hg; [by rewrite app_nil_r|].
  apply Forall_cons in Hg as [Hg1 Hg]. cbn [length bring_back]. rewrite Hg1, (block_update_stored _ _ _ Hs).
  cbn [mbind res_bind]. rewrite (so_parent _ _ Hs). cbn [mbind res_bind expect_some]. rewrite IH by done.
  by rewrite fmap_cons, <- app_assoc.
Qed.

(** The two condition on the genesis hashes can not both fail. *)
Lemma genesis_condition (h : StateHash) :
  (negb (String.eqb (sh_str h) MAINNET_GENESIS_HASH) || negb (String.eqb (sh_str h) HARDFORK_GENESIS_HASH)) = true.
Proof.
  destruct (String.eqb_spec (sh_str h) MAINNET_GENESIS_HASH) as [->|]; [|done].
  by destruct (String.eqb_spec MAINNET_GENESIS_HASH HARDFORK_GENESIS_HASH).
Qed.

(** The parent of the head of a path, or of its end. *)
Definition prev_of (c : Stored) (l : list Stored) : StateHash :=
  match l with s :: _ => st_parent s | [] => st_parent c end.

Lemma path_parent db tip l anc c : path db tip l anc -> stored db c -> st_hash c = anc ->
  get_block_parent_hash db tip = Ok (Some (prev_of c l)).
Proof.
  intros Hp Hc <-. inversion Hp as [|s l' anc' Hs Hp']; subst; [apply (so_parent _ _ Hc)|apply (so_parent _ _ Hs)].
Qed.

Lemma reorg_loop_spec db c la lb a b acc unacc fuel :
  stored db c -> path db a la (st_hash c) -> path db b lb (st_hash c) -> length la = length lb ->
  (forall x y, x ∈ la -> y ∈ lb -> st_hash x <> st_hash y) -> (length la <= fuel)%nat ->
  while fuel (reorg_body db) (mkReorg a b (prev_of c la) (prev_of c lb) acc unacc) =
    Some (Ok (mkReorg (st_hash c) (st_hash c) (st_parent c) (st_parent c)
      (acc ++ (update_of <$> lb)) (unacc ++ (update_of <$> la)))).
Proof.
  intros Hc Ha. revert b lb acc unacc fuel. remember (st_hash c) as anc eqn:Eanc.
  induction Ha as [h|x la anc Hx Ha IH]; intros b lb acc unacc fuel Hb Hlen Hd Hf; subst.
  { destruct lb; [|done]. inversion Hb; subst. cbn [fmap list_fmap]. rewrite !app_nil_r.
    destruct fuel; cbn [while]; unfold reorg_body; cbn [rs_a rs_b]; by rewrite bool_decide_eq_false_2 by tauto. }
  destruct lb as [|y lb]; [done|]. inversion Hb as [|y' lb' anc' Hy Hb']; subst. cbn [length] in *.
  destruct fuel as [|fuel]; [lia|]. cbn [while]. unfold reorg_body at 1. cbn [rs_a rs_b rs_a_prev rs_b_prev rs_apply rs_unapply prev_of].
  rewrite bool_decide_eq_true_2 by (apply Hd; set_solver). rewrite genesis_condition. cbn [andb].
  rewrite (so_length _ _ Hx), (so_length _ _ Hy). cbn [mbind res_bind expect_some].
  rewrite (block_update_stored _ _ _ Hx), (block_update_stored _ _ _ Hy). cbn [mbind res_bind].
  rewrite (path_parent _ _ _ _ c Ha Hc eq_refl), (path_parent _ _ _ _ c Hb' Hc eq_refl). cbn [mbind res_bind expect_some].
  rewrite (IH eq_refl (st_parent y) lb); [|done|lia|set_solver|lia].
  rewrite !fmap_cons, <- !app_assoc. done.
Qed.

(** The updates of the new chain, the tip first. *)
Definition applied (la lb : list Stored) (len : Z) : list BlockUpdate :=
  (update_at len <$> take (length lb - length la) lb) ++ (update_of <$> drop (length lb - length la) lb).

Lemma reorg_blocks_spec db c la lb a b a_len b_len fuel :
  stored db c -> path db a la (st_hash c) -> path db b lb (st_hash c) ->
  get_block_height db a = Ok (Some a_len) -> get_block_height db b = Ok (Some b_len) ->
  a_len - Z.of_nat (length la) = b_len - Z.of_nat (length lb) -> a_len <= b_len ->
  (forall x y, x ∈ la -> y ∈ lb -> st_hash x <> st_hash y) ->
  Forall (fun s => is_genesis_hash (st_hash s) = false) lb -> (length la <= fuel)%nat ->
  reorg_blocks fuel db a b = Some (Ok (mkUpdate (rev (applied la lb b_len)) (update_of <$> la))).
Proof.
  intros Hc Ha Hb Hla Hlb Hd Hle Hdis Hg Hf. unfold reorg_blocks. rewrite Hlb, Hla. cbn [mbind res_bind expect_some].
  set (d := (length lb - length la)%nat).
  replace (Z.to_nat (saturating_sub b_len a_len)) with (length (take d lb)) by (rewrite length_take; ints).
  rewrite <- (take_drop d lb) in Hb. apply path_split in Hb as (mid & Hb1 & Hb2).
  rewrite (bring_back_spec _ _ _ _ _ _ Hb1) by (by apply Forall_take). cbn [mbind res_bind fst snd].
  rewrite (path_parent _ _ _ _ c Ha Hc eq_refl), (path_parent _ _ _ _ c Hb2 Hc eq_refl). cbn [mbind res_bind expect_some].
  rewrite (reorg_loop_spec db c la (drop d lb)); [done|done|done|done|rewrite length_drop; lia| |done].
  intros x y Hx Hy. apply Hdis; [done|]. rewrite <- (take_drop d lb). set_solver.
Qed.
End Chains.

(** * Counts of canonical blocks *)

Definition produced (P : Stored -> bool) (l : list Stored) : Z := Z.of_nat (length (List.filter P l)).
Definition by_pk_epoch (pk : PublicKey) (e : Z) (s : Stored) : bool := bool_decide (st_creator s = pk) && (st_epoch s =? e).
Definition by_pk (pk : PublicKey) (s : Stored) : bool := bool_decide (st_creator s = pk).
Definition by_epoch (e : Z) (s : Stored) : bool := st_epoch s =? e.

Lemma produced_cons P s l : produced P (s :: l) = produced P l + (if P s then 1 else 0).
Proof. unfold produced. cbn [List.filter]. destruct (P s); cbn [length]; lia. Qed.
Lemma produced_bound P l : 0 <= produced P l <= Z.of_nat (length l).
Proof. induction l as [|s l IH]; [done|]. rewrite produced_cons. cbn [length]. destruct (P s); lia. Qed.

Lemma produced_pk_epoch pk e s l :
  produced (by_pk_epoch pk e) (s :: l) =
    if decide (pk = st_creator s /\ e = st_epoch s) then produced (by_pk_epoch (st_creator s) (st_epoch s)) l + 1
    else produced (by_pk_epoch pk e) l.
Proof.
  rewrite produced_cons. unfold by_pk_epoch at 2. destruct (decide (pk = st_creator s /\ e = st_epoch s)) as [[-> ->]|Hne].
  - by rewrite bool_decide_eq_true_2, Z.eqb_refl.
  - destruct (bool_decide_reflect (st_creator s = pk)), (Z.eqb_spec (st_epoch s) e); cbn; [|lia..]. by destruct Hne.
Qed.
Lemma produced_pk pk s l :
  produced (by_pk pk) (s :: l) =
    if decide (pk = st_creator s) then produced (by_pk (st_creator s)) l + 1 else produced (by_pk pk) l.
Proof.
  rewrite produced_cons. unfold by_pk at 2. destruct (decide (pk = st_creator s)) as [->|Hne].
  - by rewrite bool_decide_eq_true_2.
  - rewrite bool_decide_eq_false_2 by congruence. lia.
Qed.
Lemma produced_epoch e s l :
  produced (by_epoch e) (s :: l) =
    if decide (e = st_epoch s) then produced (by_epoch (st_epoch s)) l + 1 else produced (by_epoch e) l.
Proof.
  rewrite produced_cons. unfold by_epoch at 2. destruct (decide (e = st_epoch s)) as [->|Hne].
  - by rewrite Z.eqb_refl.
  - rewrite (proj2 (Z.eqb_neq _ _)) by congruence. lia.
Qed.

Definition production_families : list string :=
  [block_production_pk_canonical_epoch_cf; block_production_pk_canonical_epoch_sort_cf;
   block_production_pk_canonical_total_cf; block_production_canonical_epoch_cf].

Section Production.
Context `{SpeedbSpec}.
Implicit Types (db : Db) (pk : PublicKey) (s : Stored) (l : list Stored).

(** The counts of canonical blocks by producer and epoch, by producer, and by epoch. *)
Record production db l : Prop := {
  pr_typed : well_typed db;
  pr_bound : Z.of_nat (length l) <= U32_MAX;
  pr_pk_epoch pk e : pk_wf pk -> u32 e ->
    get_block_production_pk_canonical_epoch_count db pk (Some e) = Ok (produced (by_pk_epoch pk e) l);
  pr_pk pk : pk_wf pk -> get_block_production_pk_canonical_total_count db pk = Ok (produced (by_pk pk) l);
  pr_epoch e : u32 e -> get_block_production_canonical_epoch_count db (Some e) = Ok (produced (by_epoch e) l)
}.

Lemma pk_epoch_count_eq db pk e :
  well_typed db -> pk_wf pk -> get_block_production_pk_canonical_epoch_count db pk (Some e) =
    get_u32 db block_production_pk_canonical_epoch_cf (u32_be e ++ pk_key pk).
Proof.
  intros Hdb Hpk. unfold get_block_production_pk_canonical_epoch_count.
  rewrite or_current_epoch_some by done. cbn [mbind res_bind]. by rewrite u32_prefix_key_ok.
Qed.
Lemma epoch_count_eq db e :
  well_typed db -> get_block_production_canonical_epoch_count db (Some e) =
    get_u32 db block_production_canonical_epoch_cf (u32_be e).
Proof. intros Hdb. unfold get_block_production_canonical_epoch_count. by rewrite or_current_epoch_some. Qed.

Lemma epoch_pk_inj a b e e' : pk_wf a -> pk_wf b -> u32 e -> u32 e' ->
  u32_be e ++ pk_key a = u32_be e' ++ pk_key b -> e = e' /\ a = b.
Proof.
  intros Ha Hb He He' E. apply app_inj_1 in E as [E1 E2]; [|by rewrite !length_u32_be].
  split; [by apply u32_be_inj|by apply pk_key_inj].
Qed.

(** The three counters of a block set to new values, and nothing else of them. *)
Record recounted s (v1 v2 v3 : Z) db db' : Prop := {
  rc_typed : well_typed db';
  rc_writes : writes_in production_families db db';
  rc_pk_epoch k : cf_get db' block_production_pk_canonical_epoch_cf k =
    if decide (k = u32_be (st_epoch s) ++ pk_key (st_creator s)) then Some (u32_be v1)
    else cf_get db block_production_pk_canonical_epoch_cf k;
  rc_pk k : cf_get db' block_production_pk_canonical_total_cf k =
    if decide (k = pk_key (st_creator s)) then Some (u32_be v2) else cf_get db block_production_pk_canonical_total_cf k;
  rc_epoch k : cf_get db' block_production_canonical_epoch_cf k =
    if decide (k = u32_be (st_epoch s)) then Some (u32_be v3) else cf_get db block_production_canonical_epoch_cf k
}.

Lemma get_u32_if db (k k0 : list Z) cf v :
  u32 v -> (match (if decide (k = k0) then Some (u32_be v) else cf_get db cf k) with
            | Some v => from_be_bytes v | None => Ok 0 end) = if decide (k = k0) then Ok v else get_u32 db cf k.
Proof. intros Hv. destruct (decide _); [by apply from_be_bytes_u32|done]. Qed.

Lemma recounted_production s l k v1 v2 v3 db db' :
  production db l -> recounted s v1 v2 v3 db db' -> pk_wf (st_creator s) -> u32 (st_epoch s) -> Z.of_nat (length k) <= U32_MAX ->
  (forall pk e, produced (by_pk_epoch pk e) k =
     if decide (pk = st_creator s /\ e = st_epoch s) then v1 else produced (by_pk_epoch pk e) l) ->
  (forall pk, produced (by_pk pk) k = if decide (pk = st_creator s) then v2 else produced (by_pk pk) l) ->
  (forall e, produced (by_epoch e) k = if decide (e = st_epoch s) then v3 else produced (by_epoch e) l) ->
  u32 v1 -> u32 v2 -> u32 v3 -> production db' k.
Proof.
  intros Hp Hr Hpk He Hb E1 E2 E3 H1' H2' H3'. pose proof (rc_typed _ _ _ _ _ _ Hr) as Hdb'.
  split; [done|done| | |].
  - intros pk e Hpk' He'. rewrite pk_epoch_count_eq by done. unfold get_u32.
    rewrite (rc_pk_epoch _ _ _ _ _ _ Hr), get_u32_if, E1 by done.
    destruct (decide (_ ++ _ = _)) as [E|E], (decide (pk = _ /\ _)) as [[-> ->]|Hne]; [done| |done|].
    + apply epoch_pk_inj in E as [-> ->]; [by destruct Hne|done..].
    + rewrite <- pk_epoch_count_eq by (done || apply Hp). by apply Hp.
  - intros pk Hpk'. unfold get_block_production_pk_canonical_total_count, get_u32.
    rewrite (rc_pk _ _ _ _ _ _ Hr), get_u32_if, E2 by done.
    destruct (decide (pk_key pk = _)) as [E|E], (decide (pk = _)) as [->|Hne]; [done| |done|by apply Hp].
    by apply pk_key_inj in E.
  - intros e He'. rewrite epoch_count_eq by done. unfold get_u32.
    rewrite (rc_epoch _ _ _ _ _ _ Hr), get_u32_if, E3 by done.
    destruct (decide (u32_be e = _)) as [E|E], (decide (e = _)) as [->|Hne]; [done| |done|].
    + by apply u32_be_inj in E.
    + rewrite <- epoch_count_eq by apply Hp. by apply Hp.
Qed.

Lemma epoch_block_num_key_ok e n pk : pk_wf pk -> exists k, epoch_block_num_key e n pk = Ok k.
Proof. intros Hpk. unfold epoch_block_num_key. unfold_key. by eexists. Qed.

(** Reads of the counters after writes to the other ones. *)
Lemma recount_steps s v1 v2 v3 db k1 k2 :
  well_typed db -> u32 v1 -> u32 v2 -> u32 v3 ->
  recounted s v1 v2 v3 db
    (cf_put block_production_canonical_epoch_cf (u32_be (st_epoch s)) (u32_be v3)
      (cf_put block_production_pk_canonical_total_cf (pk_key (st_creator s)) (u32_be v2)
        (cf_put block_production_pk_canonical_epoch_sort_cf k2 []
          (cf_delete block_production_pk_canonical_epoch_sort_cf k1
            (cf_put block_production_pk_canonical_epoch_cf (u32_be (st_epoch s) ++ pk_key (st_creator s)) (u32_be v1) db))))).
Proof.
  intros Hdb Hv1 Hv2 Hv3. split.
  - do 2 (apply well_typed_put; [by apply has_type_u32|]). apply well_typed_put; [done|]. apply well_typed_delete.
    apply well_typed_put; [by apply has_type_u32|done].
  - frame.
  - intros k. get_put. rewrite cf_get_put. destruct (decide (_ = _)), (decide (_ = _)); congruence.
  - intros k. get_put. rewrite cf_get_put. destruct (decide (_ = _)), (decide (_ = _)); get_put; congruence.
  - intros k. rewrite cf_get_put. destruct (decide (_ = _)), (decide (_ = _)); get_put; congruence.
Qed.

Lemma increment_production s db l :
  production db l -> stored db s -> Z.of_nat (length l) < U32_MAX ->
  exists db', increment_block_canonical_production_count (st_hash s) db = Ok db' /\ writes_in production_families db db' /\
    production db' (s :: l).
Proof.
  intros Hp Hs Hb. pose proof (so_wf _ _ Hs) as (_ & Hpk & _ & _ & He). pose proof (pr_typed _ _ Hp) as Hdb.
  pose proof (produced_bound (by_pk_epoch (st_creator s) (st_epoch s)) l). pose proof (produced_bound (by_pk (st_creator s)) l).
  pose proof (produced_bound (by_epoch (st_epoch s)) l).
  unfold increment_block_canonical_production_count. rewrite (so_creator _ _ Hs). cbn [mbind res_bind expect_some].
  rewrite (so_epoch _ _ Hs). cbn [mbind res_bind expect_some]. rewrite (pr_pk_epoch _ _ Hp) by done. cbn [mbind res_bind].
  rewrite u32_prefix_key_ok by done. cbn [mbind res_bind]. unfold increment_block_canonical_production_count_sort.
  edestruct epoch_block_num_key_ok as [k1 ->]; [exact Hpk|]. cbn [mbind res_bind].
  edestruct epoch_block_num_key_ok as [k2 ->]; [exact Hpk|]. cbn [mbind res_bind].
  unfold get_block_production_pk_canonical_total_count at 1, get_u32. get_put.
  fold (get_u32 db block_production_pk_canonical_total_cf (pk_key (st_creator s))).
  fold (get_block_production_pk_canonical_total_count db (st_creator s)). rewrite (pr_pk _ _ Hp) by done. cbn [mbind res_bind].
  match goal with |- context [get_block_production_canonical_epoch_count ?d _] => assert (well_typed d) as Hd end.
  { apply well_typed_put; [apply has_type_u32, u32_wrap32|]. apply well_typed_put; [done|]. apply well_typed_delete.
    apply well_typed_put; [apply has_type_u32, u32_wrap32|done]. }
  rewrite epoch_count_eq by exact Hd. unfold get_u32. get_put.
  fold (get_u32 db block_production_canonical_epoch_cf (u32_be (st_epoch s))). rewrite <- epoch_count_eq by done.
  rewrite (pr_epoch _ _ Hp) by done. cbn [mbind res_bind]. unfold succ_u32. rewrite !wrap32_id by ints.
  eexists. split; [done|].
  match goal with |- writes_in _ _ ?d /\ _ => assert (recounted s (produced (by_pk_epoch (st_creator s) (st_epoch s)) l + 1)
    (produced (by_pk (st_creator s)) l + 1) (produced (by_epoch (st_epoch s)) l + 1) db d) as Hr end.
  { apply recount_steps; [done|ints|ints|ints]. }
  split; [apply Hr|]. eapply (recounted_production s l); [done|exact Hr|done|done|cbn [length]; lia| | | |ints|ints|ints];
    intros; [apply produced_pk_epoch|apply produced_pk|apply produced_epoch].
Qed.

Lemma decrement_production s db l :
  production db (s :: l) -> stored db s ->
  exists db', decrement_block_canonical_production_count (st_hash s) db = Ok db' /\ writes_in production_families db db' /\
    production db' l.
Proof.
  intros Hp Hs. pose proof (so_wf _ _ Hs) as (_ & Hpk & _ & _ & He). pose proof (pr_typed _ _ Hp) as Hdb.
  pose proof (pr_bound _ _ Hp) as Hb. cbn [length] in Hb.
  pose proof (produced_bound (by_pk_epoch (st_creator s) (st_epoch s)) l). pose proof (produced_bound (by_pk (st_creator s)) l).
  pose proof (produced_bound (by_epoch (st_epoch s)) l).
  unfold decrement_block_canonical_production_count. rewrite (so_creator _ _ Hs). cbn [mbind res_bind expect_some].
  rewrite (so_epoch _ _ Hs). cbn [mbind res_bind expect_some]. rewrite (pr_pk_epoch _ _ Hp) by done. cbn [mbind res_bind].
  rewrite produced_pk_epoch, decide_True by done. rewrite (proj2 (Z.ltb_lt _ _)) by lia. cbn [rust_assert mbind res_bind].
  rewrite u32_prefix_key_ok by done. cbn [mbind res_bind]. unfold decrement_block_canonical_production_count_sort.
  rewrite (proj2 (Z.ltb_lt _ _)) by lia. cbn [rust_assert mbind res_bind].
  edestruct epoch_block_num_key_ok as [k1 ->]; [exact Hpk|]. cbn [mbind res_bind].
  edestruct epoch_block_num_key_ok as [k2 ->]; [exact Hpk|]. cbn [mbind res_bind].
  unfold get_block_production_pk_canonical_total_count at 1, get_u32. get_put.
  fold (get_u32 db block_production_pk_canonical_total_cf (pk_key (st_creator s))).
  fold (get_block_production_pk_canonical_total_count db (st_creator s)). rewrite (pr_pk _ _ Hp) by done. cbn [mbind res_bind].
  rewrite produced_pk, decide_True by done. rewrite (proj2 (Z.ltb_lt _ _)) by lia. cbn [rust_assert mbind res_bind].
  match goal with |- context [get_block_production_canonical_epoch_count ?d _] => assert (well_typed d) as Hd end.
  { apply well_typed_put; [apply has_type_u32; ints|]. apply well_typed_put; [done|]. apply well_typed_delete.
    apply well_typed_put; [apply has_type_u32; ints|done]. }
  rewrite epoch_count_eq by exact Hd. unfold get_u32. get_put.
  fold (get_u32 db block_production_canonical_epoch_cf (u32_be (st_epoch s))). rewrite <- epoch_count_eq by done.
  rewrite (pr_epoch _ _ Hp) by done. cbn [mbind res_bind].
  rewrite produced_epoch, decide_True by done. rewrite (proj2 (Z.ltb_lt _ _)) by lia. cbn [rust_assert mbind res_bind].
  rewrite !Z.add_simpl_r. eexists. split; [done|].
  match goal with |- writes_in _ _ ?d /\ _ => assert (recounted s (produced (by_pk_epoch (st_creator s) (st_epoch s)) l)
    (produced (by_pk (st_creator s)) l) (produced (by_epoch (st_epoch s)) l) db d) as Hr end.
  { apply recount_steps; [done|ints|ints|ints]. }
  split; [apply Hr|]. eapply (recounted_production s (s :: l)); [done|exact Hr|done|done|lia| | | |ints|ints|ints];
    intros; [rewrite produced_pk_epoch|rewrite produced_pk|rewrite produced_epoch]; destruct (decide _) as [Heq|];
    try done; by repeat destruct Heq as [-> ->] || subst.
Qed.
End Production.

(** * The canonicity indices *)

Definition canonicity_families : list string := canonicity_length_cf :: canonicity_slot_cf :: production_families.

(** The value of a key after the given ones were put, and deleted. *)
Definition put_all (ps : list (list Z * StateHash)) (k : list Z) (v : option (list Z)) : option (list Z) :=
  fold_left (fun v p => if decide (k = p.1) then Some (sh_key p.2) else v) ps v.
Definition delete_all (ks : list (list Z)) (k : list Z) (v : option (list Z)) : option (list Z) :=
  fold_left (fun v k' => if decide (k = k') then None else v) ks v.

Section Indices.
Context `{SpeedbSpec} `{Json (list StateHash)} `{Json DbInternalCommandWithData} `{Json IndexerEvent}.
Implicit Types (db : Db) (s : Stored) (l : list Stored).

Lemma stored_frame cfs db db' s :
  writes_in cfs db db' ->
  forallb (fun cf => negb (family_in cfs cf)) [block_parent_hash_cf; block_height_cf; block_global_slot_cf; block_creator_cf; block_epoch_cf] = true ->
  stored db s -> stored db' s.
Proof.
  intros Hw Hf Hs. cbn in Hf. rewrite !andb_true_iff, !negb_true_iff in Hf. destruct Hf as (F1 & F2 & F3 & F4 & F5 & _).
  split; [| | | | |apply Hs].
  - unfold get_block_parent_hash. rewrite (writes_get _ _ _ _ _ Hw F1). apply Hs.
  - pose proof (so_length _ _ Hs) as E. unfold get_block_height, opt_u32 in *. by rewrite (writes_get _ _ _ _ _ Hw F2).
  - unfold get_block_global_slot, opt_u32. rewrite (writes_get _ _ _ _ _ Hw F3). apply Hs.
  - unfold get_block_creator. rewrite (writes_get _ _ _ _ _ Hw F4). apply Hs.
  - unfold get_block_epoch, opt_u32. rewrite (writes_get _ _ _ _ _ Hw F5). apply Hs.
Qed.

Lemma production_frame db db' l :
  production db l -> writes_in [canonicity_length_cf; canonicity_slot_cf] db db' -> well_typed db' -> production db' l.
Proof.
  intros Hp Hw Hdb'. split; [done|apply Hp| | |].
  - intros pk e Hpk He. rewrite pk_epoch_count_eq by done. rewrite (writes_get_u32 _ _ _ _ _ Hw) by done.
    rewrite <- pk_epoch_count_eq by (done || apply Hp). by apply Hp.
  - intros pk Hpk. unfold get_block_production_pk_canonical_total_count. rewrite (writes_get_u32 _ _ _ _ _ Hw) by done. by apply Hp.
  - intros e He. rewrite epoch_count_eq by done. rewrite (writes_get_u32 _ _ _ _ _ Hw) by done.
    rewrite <- epoch_count_eq by apply Hp. by apply Hp.
Qed.

(** Blocks applied, with the lengths they are given. *)
Lemma apply_all_spec (ps : list (Z * Stored)) db l :
  production db l -> Forall (stored db) ps.*2 -> Z.of_nat (length l + length ps) <= U32_MAX ->
  exists db', foldM apply_canonicity db ((fun p => canonicity_diff (update_at p.1 p.2)) <$> ps) = Ok db' /\
    production db' (rev ps.*2 ++ l) /\ writes_in canonicity_families db db' /\
    (forall k, cf_get db' canonicity_length_cf k =
       put_all ((fun p => (u32_be p.1, st_hash p.2)) <$> ps) k (cf_get db canonicity_length_cf k)) /\
    (forall k, cf_get db' canonicity_slot_cf k =
       put_all ((fun p => (u32_be (st_slot p.2), st_hash p.2)) <$> ps) k (cf_get db canonicity_slot_cf k)).
Proof.
  revert db l. induction ps as [|[len s] ps IH]; intros db l Hp Hs Hb.
  { exists db. split_and!; [done|done|frame|done|done]. }
  cbn [length] in Hb. csimpl in Hs. apply Forall_cons in Hs as [Hs Hss]. cbn [fst snd] in *.
  rewrite fmap_cons. cbn [foldM fst snd].
  set (db1 := cf_put canonicity_slot_cf (u32_be (st_slot s)) (sh_key (st_hash s))
    (cf_put canonicity_length_cf (u32_be len) (sh_key (st_hash s)) db)).
  change (apply_canonicity db (canonicity_diff (update_at len s))) with
    (increment_block_canonical_production_count (st_hash s) db1).
  assert (writes_in [canonicity_length_cf; canonicity_slot_cf] db db1) as Hw1 by (unfold db1; frame).
  assert (stored db1 s) as Hs1 by (by eapply stored_frame; [exact Hw1|done|]).
  assert (production db1 l) as Hp1.
  { apply (production_frame db); [done|done|]. pose proof (so_wf _ _ Hs) as (Hsh & _).
    do 2 (apply well_typed_put; [exists (st_hash s); by apply sh_from_bytes_as_bytes|]). apply Hp. }
  destruct (increment_production s db1 l Hp1 Hs1) as (db2 & E & Hw2 & Hp2); [lia|]. rewrite E. cbn [mbind res_bind].
  assert (writes_in canonicity_families db db2) as Hw12.
  { eapply writes_in_trans; eapply subset_families; [exact Hw1|done|exact Hw2|done]. }
  destruct (IH db2 (s :: l) Hp2) as (db3 & E3 & Hp3 & Hw3 & Hh & Hsl).
  { eapply Forall_impl; [exact Hss|]. intros t Ht. by eapply stored_frame; [exact Hw12|done|]. }
  { cbn [length]. lia. }
  exists db3. split; [exact E3|]. split; [csimpl; cbn [rev]; by rewrite <- app_assoc|].
  split; [by eapply writes_in_trans|]. unfold put_all in *. split; intros k; [rewrite Hh|rewrite Hsl]; rewrite fmap_cons; cbn [fold_left fst snd];
    f_equal; rewrite (writes_get _ _ _ _ _ Hw2) by done; unfold db1; get_put; rewrite cf_get_put;
    destruct (decide (_ = _)), (decide (_ = _)); get_put; congruence.
Qed.

(** Blocks unapplied. *)
Lemma unapply_all_spec us db l :
  production db (us ++ l) -> Forall (stored db) us ->
  exists db', foldM unapply_canonicity db ((fun s => canonicity_diff (update_of s)) <$> us) = Ok db' /\
    production db' l /\ writes_in canonicity_families db db' /\
    (forall k, cf_get db' canonicity_length_cf k =
       delete_all ((fun s => u32_be (st_length s)) <$> us) k (cf_get db canonicity_length_cf k)) /\
    (forall k, cf_get db' canonicity_slot_cf k =
       delete_all ((fun s => u32_be (st_slot s)) <$> us) k (cf_get db canonicity_slot_cf k)).
Proof.
  intros Hp Hs. revert db Hp Hs. induction us as [|s us IH]; intros db Hp Hs.
  { exists db. split_and!; [done|done|frame|done|done]. }
  apply Forall_cons in Hs as [Hs Hss]. rewrite fmap_cons. cbn [foldM].
  set (db1 := cf_delete canonicity_slot_cf (u32_be (st_slot s)) (cf_delete canonicity_length_cf (u32_be (st_length s)) db)).
  change (unapply_canonicity db (canonicity_diff (update_of s))) with
    (decrement_block_canonical_production_count (st_hash s) db1).
  assert (writes_in [canonicity_length_cf; canonicity_slot_cf] db db1) as Hw1 by (unfold db1; frame).
  assert (stored db1 s) as Hs1 by (by eapply stored_frame; [exact Hw1|done|]).
  assert (production db1 (s :: us ++ l)) as Hp1.
  { apply (production_frame db); [done|done|]. do 2 apply well_typed_delete. apply Hp. }
  destruct (decrement_production s db1 (us ++ l) Hp1 Hs1) as (db2 & E & Hw2 & Hp2). rewrite E. cbn [mbind res_bind].
  assert (writes_in canonicity_families db db2) as Hw12.
  { eapply writes_in_trans; eapply subset_families; [exact Hw1|done|exact Hw2|done]. }
  destruct (IH db2 Hp2) as (db3 & E3 & Hp3 & Hw3 & Hh & Hsl).
  { eapply Forall_impl; [exact Hss|]. intros t Ht. by eapply stored_frame; [exact Hw12|done|]. }
  exists db3. split; [exact E3|]. split; [done|].
  split; [by eapply writes_in_trans|]. unfold delete_all in *. split; intros k; [rewrite Hh|rewrite Hsl]; rewrite fmap_cons; cbn [fold_left];
    f_equal; rewrite (writes_get _ _ _ _ _ Hw2) by done; unfold db1; get_put; rewrite cf_get_delete;
    destruct (decide (_ = _)), (decide (_ = _)); get_put; congruence.
Qed.

(** ** The canonical blocks *)

(** The indices have the hashes of the given blocks and no others, and the counts count them. *)
Record canonical db l : Prop := {
  ca_production : production db l;
  ca_length n : u32 n -> cf_get db canonicity_length_cf (u32_be n) =
    option_map (sh_key ∘ st_hash) (List.find (fun s => st_length s =? n) l);
  ca_slot n : u32 n -> cf_get db canonicity_slot_cf (u32_be n) =
    option_map (sh_key ∘ st_hash) (List.find (fun s => st_slot s =? n) l)
}.

(** Putting and deleting, on the lists. *)
Lemma find_app {A} (P : A -> bool) (l1 l2 : list A) :
  List.find P (l1 ++ l2) = match List.find P l1 with Some a => Some a | None => List.find P l2 end.
Proof. induction l1 as [|a l1 IH]; [done|]. cbn. destruct (P a); [done|apply IH]. Qed.

Lemma put_all_find (f : Stored -> Z) us l n :
  Forall (fun s => u32 (f s)) us -> u32 n ->
  put_all ((fun s => (u32_be (f s), st_hash s)) <$> rev us) (u32_be n)
    (option_map (sh_key ∘ st_hash) (List.find (fun s => f s =? n) l)) =
  option_map (sh_key ∘ st_hash) (List.find (fun s => f s =? n) (us ++ l)).
Proof.
  intros Hu Hn. induction Hu as [|s us Hs _ IH]; [done|]. cbn [rev]. rewrite fmap_app. unfold put_all in *.
  rewrite fold_left_app, IH. cbn [fold_left fmap list_fmap fst snd app List.find].
  destruct (decide (u32_be n = u32_be (f s))) as [E|E].
  - apply u32_be_inj in E as ->; [|done|done]. by rewrite Z.eqb_refl.
  - destruct (Z.eqb_spec (f s) n) as [E'|]; [|done]. by rewrite E' in E.
Qed.

Lemma delete_all_find (f : Stored -> Z) us l n :
  Forall (fun s => u32 (f s)) us -> u32 n -> NoDup (f <$> us ++ l) ->
  delete_all ((fun s => u32_be (f s)) <$> us) (u32_be n)
    (option_map (sh_key ∘ st_hash) (List.find (fun s => f s =? n) (us ++ l))) =
  option_map (sh_key ∘ st_hash) (List.find (fun s => f s =? n) l).
Proof.
  intros Hu Hn. induction Hu as [|s us Hs _ IH]; intros Hnd; [done|]. csimpl in Hnd. apply NoDup_cons in Hnd as [Hne Hnd].
  rewrite fmap_cons. unfold delete_all in *. cbn [fold_left].
  cbn [app List.find]. destruct (decide (u32_be n = u32_be (f s))) as [E|E].
  - apply u32_be_inj in E as ->; [|done|done].
    assert (List.find (fun s' => f s' =? f s) (us ++ l) = None) as En.
    { destruct (List.find _ (us ++ l)) as [t|] eqn:Et; [|done]. apply List.find_some in Et as [Ht E]. destruct Hne.
      apply Z.eqb_eq in E as <-. apply (list_elem_of_fmap_2 f). by apply list_elem_of_In. }
    rewrite <- IH by done. by rewrite En.
  - destruct (Z.eqb_spec (f s) n) as [E'|]; [by rewrite E' in E|]. by apply IH.
Qed.
End Indices.

(** * Changes of the best tip *)

Definition child_of (s t : Stored) : Prop :=
  st_parent s = st_hash t /\ st_length s = st_length t + 1 /\ st_slot t < st_slot s.

(** Blocks in descending order, each the child of the next. *)
Fixpoint chain (l : list Stored) : Prop :=
  match l with s :: ((t :: _) as l') => child_of s t /\ chain l' | _ => True end.

Lemma chain_below s l t : chain (s :: l) -> t ∈ l -> st_length t < st_length s /\ st_slot t < st_slot s.
Proof.
  revert s. induction l as [|x l IH]; intros s Hc Ht; [by apply not_elem_of_nil in Ht|].
  destruct Hc as [(Hp & Hl & Hs) Hc]. apply elem_of_cons in Ht as [->|Ht]; [lia|].
  specialize (IH x Hc Ht). lia.
Qed.

Lemma chain_tail s l : chain (s :: l) -> chain l.
Proof. destruct l; [done|]. intros [_ Hc]. exact Hc. Qed.

Lemma chain_nodup l : chain l -> NoDup (st_length <$> l) /\ NoDup (st_slot <$> l).
Proof.
  induction l as [|s l IH]; intros Hc; [split; constructor|]. destruct (IH (chain_tail _ _ Hc)) as [H1 H2].
  csimpl. split; constructor; try done; intros (t & E & Ht)%list_elem_of_fmap; destruct (chain_below _ _ _ Hc Ht); lia.
Qed.

(** The top of a chain, whose lowest block is given. *)
Definition top (l : list Stored) (c : Stored) : Stored := hd c l.

Lemma chain_path `{Speedb} db la c lc :
  Forall (stored db) la -> chain (la ++ c :: lc) -> path db (st_hash (top la c)) la (st_hash c).
Proof.
  intros Hs. induction Hs as [|s la Hs Hss IH]; intros Hc; [constructor|]. cbn [top hd app] in *.
  constructor; [done|]. destruct la as [|t la]; [destruct Hc as [(-> & _) _]; constructor|].
  destruct Hc as [(-> & _) Hc]. by apply IH.
Qed.

Lemma chain_height la c lc i s :
  chain (la ++ c :: lc) -> la !! i = Some s -> st_length s = st_length c + Z.of_nat (length la) - Z.of_nat i.
Proof.
  revert i s. induction la as [|x la IH]; intros i s Hc Hi; [by rewrite lookup_nil in Hi|]. cbn [length].
  destruct i as [|i]; [|rewrite (IH i s (chain_tail _ _ Hc) Hi); lia]. injection Hi as ->.
  destruct la as [|y la]; cbn [app chain] in Hc; destruct Hc as [(_ & Hl & _) Hc]; [cbn [length]; lia|].
  specialize (IH 0%nat y Hc eq_refl). rewrite Hl, IH. cbn [length]. lia.
Qed.

Lemma top_height la c lc : chain (la ++ c :: lc) -> st_length (top la c) = st_length c + Z.of_nat (length la).
Proof.
  intros Hc. destruct la as [|s la]; [cbn; lia|].
  change (top (s :: la) c) with s. rewrite (chain_height (s :: la) c lc 0 s Hc eq_refl). lia.
Qed.

Lemma chain_low la c lc s : chain (la ++ c :: lc) -> s ∈ c :: lc -> st_length s <= st_length c.
Proof.
  intros Hc Hs. apply elem_of_cons in Hs as [->|Hs]; [lia|].
  assert (chain (c :: lc)) as Hcc by (clear Hs; induction la as [|x la IH]; [done|]; by apply IH, (chain_tail x)).
  destruct (chain_below _ _ _ Hcc Hs). lia.
Qed.

Lemma fmap_rev {A B} (f : A -> B) (l : list A) : f <$> rev l = rev (f <$> l).
Proof. induction l as [|a l IH]; [done|]. cbn [rev]. by rewrite fmap_app, IH, fmap_cons. Qed.

(** Keys that are not put keep their value. *)
Lemma put_all_none ps k v : Forall (fun p => k <> p.1) ps -> put_all ps k v = v.
Proof.
  intros Hp. revert v. induction Hp as [|p ps Hp _ IH]; intros v; [done|]. unfold put_all in *. cbn [fold_left].
  by rewrite decide_False.
Qed.

Section Tips.
Context `{SpeedbSpec} `{Json (list StateHash)} `{Json DbInternalCommandWithData} `{Json IndexerEvent}.
Implicit Types (db : Db) (s c : Stored) (la lb lc : list Stored).

(** Two chains of the store over a common ancestor; the blocks of the first are canonical, and the second is as high. *)
Record fork db la lb c lc : Prop := {
  fo_stored : Forall (stored db) (la ++ lb ++ c :: lc);
  fo_old : chain (la ++ c :: lc);
  fo_new : chain (lb ++ c :: lc);
  fo_apart x y : x ∈ la -> y ∈ lb -> st_hash x <> st_hash y;
  fo_genesis : Forall (fun s => is_genesis_hash (st_hash s) = false) lb;
  fo_length : (length la <= length lb)%nat;
  fo_bound : Z.of_nat (length (lb ++ c :: lc)) <= U32_MAX;
  fo_canonical : canonical db (la ++ c :: lc)
}.

(** The blocks with the lengths under which they are applied, the tip first. *)
Definition applied_at la lb (len : Z) : list (Z * Stored) :=
  ((fun s => (len, s)) <$> take (length lb - length la) lb) ++
  ((fun s => (st_length s, s)) <$> drop (length lb - length la) lb).

Lemma applied_updates la lb len : applied la lb len = (fun p => update_at p.1 p.2) <$> applied_at la lb len.
Proof.
  unfold applied, applied_at. rewrite fmap_app, <- !list_fmap_compose. done.
Qed.
Lemma applied_blocks la lb len : (applied_at la lb len).*2 = lb.
Proof.
  unfold applied_at. rewrite fmap_app, <- !list_fmap_compose. cbn. rewrite !list_fmap_id. apply take_drop.
Qed.

Lemma fork_blocks db la lb c lc :
  fork db la lb c lc -> Forall (stored db) la /\ Forall (stored db) lb /\ stored db c /\ Forall (stored db) (c :: lc).
Proof.
  intros Hf. pose proof (fo_stored _ _ _ _ _ Hf) as Hs. apply Forall_app in Hs as [Ha Hs].
  apply Forall_app in Hs as [Hb Hc]. split_and!; [done|done|by apply Forall_cons in Hc as [Hc _]|done].
Qed.

Lemma stored_top db l c : Forall (stored db) l -> stored db c -> stored db (top l c).
Proof. intros Hl Hc. destruct Hl; done. Qed.

Lemma reorg_fork db la lb c lc fuel :
  fork db la lb c lc -> (length la <= fuel)%nat ->
  reorg_blocks fuel db (st_hash (top la c)) (st_hash (top lb c)) =
    Some (Ok (mkUpdate (rev (applied la lb (st_length (top lb c)))) (update_of <$> la))).
Proof.
  intros Hf Hfuel. destruct (fork_blocks _ _ _ _ _ Hf) as (Ha & Hb & Hc & _).
  pose proof (top_height _ _ _ (fo_old _ _ _ _ _ Hf)). pose proof (top_height _ _ _ (fo_new _ _ _ _ _ Hf)).
  pose proof (fo_length _ _ _ _ _ Hf).
  apply (reorg_blocks_spec db c la lb _ _ (st_length (top la c))); [done|..|lia|lia| | |done].
  - by eapply chain_path; [|apply Hf].
  - by eapply chain_path; [|apply Hf].
  - by apply so_length, stored_top.
  - by apply so_length, stored_top.
  - apply Hf.
  - apply Hf.
Qed.

(** The indices and counts after a reorganisation. *)
Lemma reorg_canonicities db la lb c lc :
  fork db la lb c lc ->
  let ps := rev (applied_at la lb (st_length (top lb c))) in
  exists db', update_block_canonicities
      (mkUpdate (rev (applied la lb (st_length (top lb c)))) (update_of <$> la)) db = Ok db' /\
    writes_in canonicity_families db db' /\ production db' (lb ++ c :: lc) /\
    (forall n, u32 n -> cf_get db' canonicity_length_cf (u32_be n) =
       put_all ((fun p => (u32_be p.1, st_hash p.2)) <$> ps) (u32_be n)
         (option_map (sh_key ∘ st_hash) (List.find (fun s => st_length s =? n) (c :: lc)))) /\
    (forall n, u32 n -> cf_get db' canonicity_slot_cf (u32_be n) =
       put_all ((fun p => (u32_be (st_slot p.2), st_hash p.2)) <$> ps) (u32_be n)
         (option_map (sh_key ∘ st_hash) (List.find (fun s => st_slot s =? n) (c :: lc)))).
Proof.
  intros Hf ps. destruct (fork_blocks _ _ _ _ _ Hf) as (Ha & Hb & _). pose proof (fo_canonical _ _ _ _ _ Hf) as Hca.
  unfold update_block_canonicities, update_canonicity. cbn [up_apply up_unapply]. rewrite <- list_fmap_compose.
  destruct (unapply_all_spec la db (c :: lc) (ca_production _ _ Hca) Ha) as (db1 & E1 & Hp1 & Hw1 & Hl1 & Hs1).
  change (canonicity_diff ∘ update_of) with (fun s => canonicity_diff (update_of s)). rewrite E1. cbn [mbind res_bind].
  rewrite applied_updates, <- fmap_rev, <- list_fmap_compose. fold ps.
  assert (ps.*2 = rev lb) as Eps by (unfold ps; by rewrite fmap_rev, applied_blocks).
  destruct (apply_all_spec ps db1 (c :: lc) Hp1) as (db2 & E2 & Hp2 & Hw2 & Hl2 & Hs2).
  { rewrite Eps. apply Forall_rev. eapply Forall_impl; [exact Hb|]. intros t Ht. by eapply stored_frame; [exact Hw1|done|]. }
  { rewrite <- (length_fmap snd ps), Eps, length_rev. pose proof (fo_bound _ _ _ _ _ Hf) as Hbd. rewrite length_app in Hbd. lia. }
  change (canonicity_diff ∘ (fun p : Z * Stored => update_at p.1 p.2)) with (fun p : Z * Stored => canonicity_diff (update_at p.1 p.2)).
  exists db2. split; [exact E2|]. split; [by eapply writes_in_trans|]. split; [by rewrite Eps, rev_involutive in Hp2|].
  destruct (chain_nodup _ (fo_old _ _ _ _ _ Hf)) as [Hn1 Hn2].
  split; intros n Hn; [rewrite Hl2, Hl1, (ca_length _ _ Hca)|rewrite Hs2, Hs1, (ca_slot _ _ Hca)]; try done; f_equal;
    apply delete_all_find; try done; (eapply Forall_impl; [exact Ha|]); intros t Ht; apply (so_wf _ _ Ht).
Qed.

(** ** Canonicity of a block *)

Lemma find_length l s : NoDup (st_length <$> l) -> s ∈ l -> List.find (fun t => st_length t =? st_length s) l = Some s.
Proof.
  intros Hnd Hs. destruct (List.find _ l) as [t|] eqn:E.
  - apply List.find_some in E as [Ht E]. apply Z.eqb_eq in E. f_equal. apply list_elem_of_In in Ht.
    by apply (NoDup_fmap_eq st_length l t s).
  - apply list_elem_of_In in Hs. pose proof (List.find_none _ _ E s Hs) as Hn. cbn beta in Hn. by rewrite Z.eqb_refl in Hn.
Qed.

(** The index at the length of a block decides its canonicity. *)
Lemma canonicity_at db s (o : option Stored) :
  stored db s -> cf_get db canonicity_length_cf (u32_be (st_length s)) = option_map (sh_key ∘ st_hash) o ->
  (forall t, o = Some t -> sh_wf (st_hash t)) ->
  get_block_canonicity db (st_hash s) =
    Ok (option_map (fun t => if decide (st_hash s = st_hash t) then Canonical else Orphaned) o).
Proof.
  intros Hs E Ho. unfold get_block_canonicity. rewrite (so_length _ _ Hs). cbn [ok_flatten mbind res_bind].
  unfold get_canonical_hash_at_height. rewrite E. destruct o as [t|]; [|done]. cbn [option_map compose and_then_ok].
  unfold sh_key. rewrite sh_from_bytes_as_bytes by auto. done.
Qed.

Lemma canonical_block db l s :
  canonical db l -> chain l -> Forall (stored db) l -> s ∈ l -> get_block_canonicity db (st_hash s) = Ok (Some Canonical).
Proof.
  intros Hca Hc Hl Hs. rewrite Forall_forall in Hl. pose proof (Hl s Hs) as Hst.
  rewrite (canonicity_at db s (Some s) Hst).
  - cbn [option_map]. by rewrite decide_True.
  - rewrite (ca_length _ _ Hca) by apply (so_wf _ _ Hst). by rewrite find_length by (done || by apply chain_nodup).
  - intros t [= <-]. apply (so_wf _ _ Hst).
Qed.

Lemma orphaned_block db l s t :
  canonical db l -> chain l -> Forall (stored db) l -> stored db s -> t ∈ l -> st_length t = st_length s ->
  st_hash s <> st_hash t -> get_block_canonicity db (st_hash s) = Ok (Some Orphaned).
Proof.
  intros Hca Hc Hl Hst Ht Hlen Hne. rewrite Forall_forall in Hl. pose proof (Hl t Ht) as Htt.
  rewrite (canonicity_at db s (Some t) Hst).
  - cbn [option_map]. by rewrite decide_False.
  - rewrite (ca_length _ _ Hca) by apply (so_wf _ _ Hst). rewrite <- Hlen.
    by rewrite find_length by (done || by apply chain_nodup).
  - intros u [= <-]. apply (so_wf _ _ Htt).
Qed.

(** A new tip at most one block higher brings back at most itself, so that its length is right. *)
Lemma applied_at_short la lb c :
  (length la <= length lb <= S (length la))%nat ->
  applied_at la lb (st_length (top lb c)) = (fun s => (st_length s, s)) <$> lb.
Proof.
  intros Hl. unfold applied_at. destruct lb as [|b lb]; [done|]. cbn [top hd].
  assert (length (b :: lb) - length la = 0 \/ length (b :: lb) - length la = 1)%nat as [E|E] by (cbn [length] in *; lia);
    by rewrite E.
Qed.

Lemma fork_kept db db' la lb c lc s :
  fork db la lb c lc -> writes_in canonicity_families db db' -> s ∈ la ++ lb ++ c :: lc -> stored db' s.
Proof.
  intros Hf Hw Hs. pose proof (fo_stored _ _ _ _ _ Hf) as Hst. rewrite Forall_forall in Hst.
  eapply stored_frame; [exact Hw|done|auto].
Qed.

(** The new chain is the canonical one. *)
Lemma reorg_canonical db la lb c lc fuel :
  fork db la lb c lc -> (length lb <= S (length la))%nat -> (length la <= fuel)%nat ->
  exists upd db', reorg_blocks fuel db (st_hash (top la c)) (st_hash (top lb c)) = Some (Ok upd) /\
    up_unapply upd = update_of <$> la /\ up_apply upd = update_of <$> rev lb /\
    update_block_canonicities upd db = Ok db' /\ writes_in canonicity_families db db' /\ canonical db' (lb ++ c :: lc).
Proof.
  intros Hf Hle Hfuel. pose proof (fo_length _ _ _ _ _ Hf) as Hlen.
  pose proof (reorg_fork _ _ _ _ _ _ Hf Hfuel) as E. destruct (reorg_canonicities _ _ _ _ _ Hf) as (db' & Eu & Hw & Hp & Hl & Hs).
  rewrite applied_at_short in Hl, Hs by lia. rewrite <- fmap_rev in Hl, Hs. destruct (fork_blocks _ _ _ _ _ Hf) as (Ha & Hb & _).
  do 2 eexists. split_and!; [exact E|done| |exact Eu|done|].
  - cbn [up_apply]. rewrite applied_updates, applied_at_short, <- list_fmap_compose by lia. by rewrite fmap_rev.
  - split; [done| |]; intros n Hn; [rewrite Hl|rewrite Hs]; try done; rewrite <- list_fmap_compose;
      apply put_all_find; try done; (eapply Forall_impl; [exact Hb|]); intros t Ht; apply (so_wf _ _ Ht).
Qed.

(** ** Properties *)

(** When the best tip moves to a chain that is as high or one block higher, the blocks unapplied are those of the old
    chain down to the common ancestor, those applied are the ones of the new chain up to its tip,
    and afterwards the canonicity indices by height and by slot have exactly the blocks of the
    new chain and the production counts count exactly them: its blocks are canonical, and those
    left are orphaned. *)
Theorem canonicity_follows_best_tip db la lb c lc fuel :
  fork db la lb c lc -> (length lb <= S (length la))%nat -> (length la <= fuel)%nat ->
  exists upd db', reorg_blocks fuel db (st_hash (top la c)) (st_hash (top lb c)) = Some (Ok upd) /\
    up_unapply upd = update_of <$> la /\ up_apply upd = update_of <$> rev lb /\
    update_block_canonicities upd db = Ok db' /\ canonical db' (lb ++ c :: lc) /\
    (forall s, s ∈ lb ++ c :: lc -> get_block_canonicity db' (st_hash s) = Ok (Some Canonical)) /\
    (forall s, s ∈ la -> get_block_canonicity db' (st_hash s) = Ok (Some Orphaned)).
Proof.
  intros Hf Hle Hfuel. pose proof (fo_length _ _ _ _ _ Hf) as Hlen.
  destruct (reorg_canonical _ _ _ _ _ _ Hf Hle Hfuel) as (upd & db' & E & Eun & Eap & Eu & Hw & Hca).
  assert (Forall (stored db') (lb ++ c :: lc)) as Hst.
  { apply Forall_forall. intros s Hs'. eapply fork_kept; [exact Hf|exact Hw|set_solver]. }
  exists upd, db'. do 5 (split; [done|]). split; [intros s Hs'; by apply (canonical_block _ _ _ Hca (fo_new _ _ _ _ _ Hf) Hst)|].
  intros s Hsa. apply list_elem_of_lookup in Hsa as [i Hi].
  pose proof (chain_height _ _ _ _ _ (fo_old _ _ _ _ _ Hf) Hi) as Hsl. pose proof (lookup_lt_Some _ _ _ Hi) as Hlt.
  destruct (lookup_lt_is_Some_2 lb (i + (length lb - length la))) as [t Ht]; [lia|].
  pose proof (chain_height _ _ _ _ _ (fo_new _ _ _ _ _ Hf) Ht) as Htl.
  apply list_elem_of_lookup_2 in Hi as Hsa, Ht as Htb.
  eapply (orphaned_block db' _ s t); [exact Hca|exact (fo_new _ _ _ _ _ Hf)|exact Hst| |set_solver|lia|by apply (fo_apart _ _ _ _ _ Hf)].
  eapply fork_kept; [exact Hf|exact Hw|set_solver].
Qed.

(** The blocks are found at the lengths under which they are applied, the tip first. *)
Lemma put_applied ps n v :
  Forall (fun p : Z * Stored => u32 p.1) ps -> u32 n ->
  put_all ((fun p => (u32_be p.1, st_hash p.2)) <$> rev ps) (u32_be n) v =
    match List.find (fun p => p.1 =? n) ps with Some p => Some (sh_key (st_hash p.2)) | None => v end.
Proof.
  intros Hp Hn. induction Hp as [|p ps Hu _ IH]; [done|]. cbn [rev]. rewrite fmap_app. unfold put_all in *.
  rewrite fold_left_app, IH. cbn [fold_left fmap list_fmap fst snd List.find].
  destruct (Z.eqb_spec p.1 n) as [<-|Hne]; [by rewrite decide_True|]. by rewrite decide_False by (by intros E%u32_be_inj).
Qed.

(** Which block is applied at the length of a block of the new chain: the tip at its own, none at the lengths of the others above the
    height of the old tip, and each of the rest at its own. *)
Lemma applied_tip la lb : lb <> [] -> forall c, List.find (fun p => p.1 =? st_length (top lb c)) (applied_at la lb (st_length (top lb c))) = Some (st_length (top lb c), top lb c).
Proof.
  intros Hne c. destruct lb as [|b lb]; [done|]. unfold applied_at. cbn [top hd]. destruct (length (b :: lb) - length la)%nat; cbn [take drop fmap list_fmap app List.find fst];
    by rewrite Z.eqb_refl.
Qed.
Lemma applied_between la lb c lc i s :
  chain (lb ++ c :: lc) -> (0 < i < length lb - length la)%nat -> lb !! i = Some s ->
  List.find (fun p => p.1 =? st_length s) (applied_at la lb (st_length (top lb c))) = None.
Proof.
  intros Hch Hi Hs. destruct (List.find _ _) as [p|] eqn:E; [|done]. exfalso. apply List.find_some in E as [Hp E%Z.eqb_eq].
  pose proof (chain_height _ _ _ _ _ Hch Hs) as Hsl. pose proof (top_height _ _ _ Hch) as Htop. unfold applied_at in Hp.
  apply list_elem_of_In, elem_of_app in Hp as [(t & -> & Ht)%list_elem_of_fmap|(t & -> & Ht)%list_elem_of_fmap]; cbn [fst] in E; [lia|].
  apply list_elem_of_lookup in Ht as [j Hj]. rewrite lookup_drop in Hj. pose proof (chain_height _ _ _ _ _ Hch Hj). lia.
Qed.
Lemma applied_below la lb c lc s :
  chain (lb ++ c :: lc) -> s ∈ drop (length lb - length la) lb ->
  List.find (fun p => p.1 =? st_length s) (applied_at la lb (st_length (top lb c))) = Some (st_length s, s).
Proof.
  intros Hch Hs. set (ps := applied_at _ _ _). assert (exists p, List.find (fun p => p.1 =? st_length s) ps = Some p) as [p E].
  { destruct (List.find _ ps) as [p|] eqn:E; [by exists p|]. exfalso.
    pose proof (List.find_none _ _ E (st_length s, s)) as Hn. cbn [fst] in Hn. rewrite Z.eqb_refl in Hn. enough (true = false) by done. apply Hn.
    apply list_elem_of_In. unfold ps, applied_at. apply elem_of_app. right. by apply (list_elem_of_fmap_2 (fun s => (st_length s, s))). }
  rewrite E. f_equal. apply List.find_some in E as [Hp E%Z.eqb_eq]. apply list_elem_of_lookup in Hs as [j Hj]. rewrite lookup_drop in Hj.
  pose proof (chain_height _ _ _ _ _ Hch Hj) as Hsl. pose proof (top_height _ _ _ Hch) as Htop. pose proof (lookup_lt_Some _ _ _ Hj).
  apply list_elem_of_In, elem_of_app in Hp as [(t & -> & Ht)%list_elem_of_fmap|(t & -> & Ht)%list_elem_of_fmap]; cbn [fst] in E.
  - assert (length lb - length la = 0)%nat as E0 by lia. rewrite E0 in Ht. by apply not_elem_of_nil in Ht.
  - apply list_elem_of_lookup in Ht as [i Hi]. rewrite lookup_drop in Hi. pose proof (chain_height _ _ _ _ _ Hch Hi) as Htl.
    pose proof (lookup_lt_Some _ _ _ Hi). assert (i = j) as -> by lia. congruence.
Qed.

(** C37: When the best tip moves to a chain that may be higher by any number of blocks, each block above the height of the old tip is
    applied with the length of the new tip, the rest with their own: the new tip is canonical, and so are the blocks of its chain up to the
    height of the old tip, but at the heights between there is no canonical block, and the blocks there are not known to be canonical. *)
Theorem higher_tip_skips_heights db la lb c lc fuel :
  fork db la lb c lc -> lb <> [] -> (length la <= fuel)%nat ->
  let tip := top lb c in
  let above := (length lb - length la)%nat in
  exists upd db', reorg_blocks fuel db (st_hash (top la c)) (st_hash tip) = Some (Ok upd) /\
    up_unapply upd = update_of <$> la /\
    up_apply upd = rev ((update_at (st_length tip) <$> take above lb) ++ (update_of <$> drop above lb)) /\
    update_block_canonicities upd db = Ok db' /\
    get_canonical_hash_at_height db' (st_length tip) = Ok (Some (st_hash tip)) /\
    (forall s, s = tip \/ s ∈ drop above lb -> get_block_canonicity db' (st_hash s) = Ok (Some Canonical)) /\
    (forall i s, (0 < i < above)%nat -> lb !! i = Some s ->
      get_canonical_hash_at_height db' (st_length s) = Ok None /\ get_block_canonicity db' (st_hash s) = Ok None).
Proof.
  intros Hf Hne Hfuel tip above. pose proof (fo_new _ _ _ _ _ Hf) as Hch.
  pose proof (reorg_fork _ _ _ _ _ _ Hf Hfuel) as E. destruct (reorg_canonicities _ _ _ _ _ Hf) as (db' & Eu & Hw & _ & Hl & _).
  destruct (fork_blocks _ _ _ _ _ Hf) as (Ha & Hb & Hc). pose proof (proj1 (Forall_forall _ _) Hb) as Hb'.
  assert (tip ∈ lb) as Htip by (unfold tip; destruct lb; [done|by left]).
  assert (Forall (fun p : Z * Stored => u32 p.1) (applied_at la lb (st_length (top lb c)))) as Hu.
  { unfold applied_at. apply Forall_app. split; apply Forall_fmap, Forall_forall; intros s Hs; cbn.
    - by apply (so_wf _ _ (Hb' _ Htip)).
    - apply (so_wf _ _ (Hb' s (subseteq_drop _ _ _ Hs))). }
  assert (forall s, s ∈ lb -> cf_get db' canonicity_length_cf (u32_be (st_length s)) =
    match List.find (fun p => p.1 =? st_length s) (applied_at la lb (st_length (top lb c))) with Some p => Some (sh_key (st_hash p.2)) | None => None end) as Hget.
  { intros s Hs. pose proof (so_wf _ _ (Hb' s Hs)) as (_ & _ & Hus & _). rewrite Hl, put_applied by done. destruct (List.find _ (applied_at _ _ _)); [done|].
    destruct (List.find _ (c :: lc)) as [t|] eqn:Et; [|done]. exfalso. apply List.find_some in Et as [Ht Et].
    apply list_elem_of_In, (chain_low _ _ _ _ Hch) in Ht. apply list_elem_of_lookup in Hs as [i Hi]. pose proof (chain_height _ _ _ _ _ Hch Hi).
    pose proof (lookup_lt_Some _ _ _ Hi). lia. }
  assert (forall s, s ∈ lb -> stored db' s) as Hst by (intros s Hs; eapply fork_kept; [exact Hf|exact Hw|set_solver]).
  assert (forall s, s ∈ lb -> cf_get db' canonicity_length_cf (u32_be (st_length s)) = Some (sh_key (st_hash s)) ->
    get_block_canonicity db' (st_hash s) = Ok (Some Canonical)) as Hcan.
  { intros s Hs Es. rewrite (canonicity_at db' s (Some s) (Hst s Hs)); [cbn [option_map]; by rewrite decide_True|done|]. intros t [= <-]. by apply (so_wf _ _ (Hb' s Hs)). }
  pose proof (Hget tip Htip) as Et. unfold tip in Et. rewrite applied_tip in Et by done. fold tip in Et. cbn [snd] in Et.
  do 2 eexists. split_and!; [exact E|done| |exact Eu| | |].
  - done.
  - unfold get_canonical_hash_at_height. rewrite Et. cbn [and_then_ok]. unfold sh_key. rewrite sh_from_bytes_as_bytes; [done|]. by apply (so_wf _ _ (Hb' _ Htip)).
  - intros s [->|Hs]; [by apply Hcan|]. pose proof (subseteq_drop _ _ _ Hs) as Hs'. apply Hcan; [done|]. rewrite Hget, (applied_below la lb c lc) by done. done.
  - intros i s Hi Hsi. pose proof (list_elem_of_lookup_2 _ _ _ Hsi) as Hs. pose proof (Hget s Hs) as En. rewrite (applied_between la lb c lc i s Hch Hi Hsi) in En.
    split; [unfold get_canonical_hash_at_height; by rewrite En|]. by rewrite (canonicity_at db' s None (Hst s Hs)).
Qed.
End Tips.

(** * Examples *)

Section Examples.
#[local] Existing Instances map_db map_db_spec untagged_json.
#[local] Instance hashes_json : Json (list StateHash) := countable_json.
#[local] Instance events_json : Json IndexerEvent := countable_json.

(** A state hash made of one letter. *)
Definition letter_hash (a : string) : StateHash :=
  mkSh (String.append "3N" (Nat.iter 50 (String.append a) EmptyString)).

Definition put_stored (s : Stored) (db : Db) : Db :=
  cf_put block_parent_hash_cf (sh_key (st_hash s)) (sh_key (st_parent s))
    (cf_put block_height_cf (sh_key (st_hash s)) (u32_be (st_length s))
      (cf_put block_global_slot_cf (sh_key (st_hash s)) (u32_be (st_slot s))
        (cf_put block_creator_cf (sh_key (st_hash s)) (pk_key (st_creator s))
          (cf_put block_epoch_cf (sh_key (st_hash s)) (u32_be (st_epoch s)) db)))).

Definition block_families : list string :=
  [block_parent_hash_cf; block_height_cf; block_global_slot_cf; block_creator_cf; block_epoch_cf].

Definition stored_wf (s : Stored) : Prop :=
  sh_wf (st_hash s) /\ sh_wf (st_parent s) /\ pk_wf (st_creator s) /\ u32 (st_length s) /\ u32 (st_slot s) /\ u32 (st_epoch s).

Lemma put_stored_spec l :
  Forall stored_wf l ->
  well_typed (foldr put_stored (∅ : Db) l) /\ writes_in block_families (∅ : Db) (foldr put_stored (∅ : Db) l).
Proof.
  induction 1 as [|s l (H1 & H2 & H3 & H4 & H5 & H6) _ [IH1 IH2]]; [split; [apply empty_well_typed|frame]|].
  cbn [foldr]. unfold put_stored at 1 3. split; [|frame].
  apply well_typed_put; [exists (st_parent s); by apply sh_from_bytes_as_bytes|].
  do 2 (apply well_typed_put; [by apply has_type_u32|]).
  apply well_typed_put; [exists (st_creator s); by apply pk_from_bytes_as_bytes|].
  apply well_typed_put; [by apply has_type_u32|done].
Qed.

(** A store of the blocks, the given ones of which are canonical, tip first. *)
Lemma fork_store (l cs : list Stored) :
  Forall stored_wf l -> Forall (stored (foldr put_stored (∅ : Db) l)) (l ++ cs) -> Z.of_nat (length cs) <= U32_MAX ->
  exists db, Forall (stored db) (l ++ cs) /\ canonical db cs /\ writes_in (block_families ++ canonicity_families) (∅ : Db) db.
Proof.
  intros Hwf Hst Hb. destruct (put_stored_spec l Hwf) as [Hdb Hw]. set (db0 := foldr put_stored (∅ : Db) l) in *.
  assert (forall cf k, family_in block_families cf = false -> cf_get db0 cf k = None) as Hnone.
  { intros cf k Hcf. rewrite (writes_get _ _ _ _ _ Hw Hcf). cbn. by rewrite lookup_empty. }
  assert (production db0 []) as Hp.
  { split; [done|done| | |].
    - intros pk e Hpk He. rewrite pk_epoch_count_eq by done. unfold get_u32. by rewrite Hnone.
    - intros pk Hpk. unfold get_block_production_pk_canonical_total_count, get_u32. by rewrite Hnone.
    - intros e He. rewrite epoch_count_eq by done. unfold get_u32. by rewrite Hnone. }
  apply Forall_app in Hst as Hsts. destruct Hsts as [_ Hcs].
  destruct (apply_all_spec ((fun s => (st_length s, s)) <$> rev cs) db0 []) as (db1 & _ & Hp1 & Hw1 & Hl1 & Hs1); [done|..].
  { rewrite <- list_fmap_compose. cbn. rewrite list_fmap_id. by apply Forall_rev. }
  { rewrite length_fmap, length_rev. done. }
  exists db1. split.
  { eapply Forall_impl; [exact Hst|]. intros s Hs. by eapply stored_frame; [exact Hw1|done|]. }
  split; [|eapply writes_in_trans; (eapply subset_families; [eassumption|reflexivity])]. split.
  - rewrite <- list_fmap_compose, app_nil_r in Hp1. cbn in Hp1. by rewrite list_fmap_id, rev_involutive in Hp1.
  - intros n Hn. rewrite Hl1, Hnone, <- list_fmap_compose by done.
    rewrite <- (app_nil_r cs) at 2. apply (put_all_find st_length cs [] n); [|done].
    eapply Forall_impl; [exact Hcs|]. intros s Hs. apply (so_wf _ _ Hs).
  - intros n Hn. rewrite Hs1, Hnone, <- list_fmap_compose by done.
    rewrite <- (app_nil_r cs) at 2. apply (put_all_find st_slot cs [] n); [|done].
    eapply Forall_impl; [exact Hcs|]. intros s Hs. apply (so_wf _ _ Hs).
Qed.

Definition ex_c : Stored := mkStored (letter_hash "c") (letter_hash "o") 10 20 pk_example 0.
Definition ex_a1 : Stored := mkStored (letter_hash "a") (letter_hash "c") 11 21 pk_example 0.
Definition ex_b1 : Stored := mkStored (letter_hash "x") (letter_hash "c") 11 22 pk_example 0.
Definition ex_b2 : Stored := mkStored (letter_hash "y") (letter_hash "x") 12 23 pk_example 0.
Definition ex_b3 : Stored := mkStored (letter_hash "z") (letter_hash "y") 13 24 pk_example 0.

Ltac stored_example := split; [vm_compute; reflexivity..|split_and!; vm_compute; done].

Lemma fork_example :
  exists db, writes_in (block_families ++ canonicity_families) (∅ : Db) db /\
    fork db [ex_a1] [ex_b2; ex_b1] ex_c [] /\ fork db [ex_a1] [ex_b3; ex_b2; ex_b1] ex_c [].
Proof.
  destruct (fork_store [ex_c; ex_a1; ex_b1; ex_b2; ex_b3] [ex_a1; ex_c]) as (db & Hst & Hca & Hw).
  - repeat (apply Forall_cons; split; [split_and!; vm_compute; done|]). constructor.
  - repeat (apply Forall_cons; split; [stored_example|]). constructor.
  - vm_compute. discriminate.
  - exists db. rewrite Forall_forall in Hst. split; [exact Hw|].
    split; (split; [apply Forall_forall; intros s Hs; apply Hst; set_solver|repeat split|repeat split| |
      repeat constructor|cbn; lia|vm_compute; discriminate|exact Hca]);
      intros x y Hx%list_elem_of_singleton Hy; subst x; repeat (apply elem_of_cons in Hy as [->|Hy]; [vm_compute; discriminate|]);
      by apply not_elem_of_nil in Hy.
Qed.

Lemma canonicity_follows_best_tip_witness :
  exists db upd db', reorg_blocks 1 db (st_hash ex_a1) (st_hash ex_b2) = Some (Ok upd) /\
    update_block_canonicities upd db = Ok db' /\
    get_block_canonicity db' (st_hash ex_b1) = Ok (Some Canonical) /\
    get_block_canonicity db' (st_hash ex_a1) = Ok (Some Orphaned).
Proof.
  destruct fork_example as (db & _ & Hf & _).
  destruct (canonicity_follows_best_tip db [ex_a1] [ex_b2; ex_b1] ex_c [] 1 Hf) as (upd & db' & E & _ & _ & Eu & _ & Hc & Ho);
    [cbn; lia|cbn; lia|].
  exists db, upd, db'. split; [exact E|]. split; [exact Eu|]. split; [apply Hc; set_solver|apply Ho; set_solver].
Defined.

Lemma higher_tip_skips_heights_witness :
  exists db upd db', reorg_blocks 1 db (st_hash ex_a1) (st_hash ex_b3) = Some (Ok upd) /\
    update_block_canonicities upd db = Ok db' /\ get_block_canonicity db' (st_hash ex_b3) = Ok (Some Canonical) /\
    get_canonical_hash_at_height db' 12 = Ok None.
Proof.
  destruct fork_example as (db & _ & _ & Hf).
  destruct (higher_tip_skips_heights db [ex_a1] [ex_b3; ex_b2; ex_b1] ex_c [] 1 Hf) as (upd & db' & E & _ & _ & Eu & _ & Hc & Hn); [discriminate|cbn; lia|].
  exists db, upd, db'. split; [exact E|]. split; [exact Eu|]. split; [apply (Hc ex_b3); by left|]. apply (Hn 1%nat ex_b2); [cbn; lia|reflexivity].
Defined.
End Examples.
