(* ===== verification/SnarkStore.v ===== *)
(** The store of SNARK work (src/rust/src/store/snark_store_impl.rs, src/rust/src/snark_work/): the work of a block and of a
    prover, the fees of provers, all time and by epoch, with their history, and counts. *)

From S2P Require Import Prelude Bytes Base StoreKeys Command AccountDiff Account Coinbase Precomputed InternalCommand BlockOrder ColumnFamilies Db Events Schema BlockIndex InternalStore Canonicity.

(** * Data *)

Record SnarkWorkSummaryWithStateHash := mkSnarkWith {
  sw_fee : Amount;
  sw_prover : PublicKey;
  sw_state_hash : StateHash
}.

(** [From<(SnarkWorkSummary, StateHash)>] and back *)
Definition with_state_hash (h : StateHash) (s : SnarkWorkSummary) : SnarkWorkSummaryWithStateHash :=
  mkSnarkWith (snark_fee s) (snark_prover s) h.
Definition without_state_hash (s : SnarkWorkSummaryWithStateHash) : SnarkWorkSummary := mkSnark (sw_fee s) (sw_prover s).
Definition snark_contains_pk (s : SnarkWorkSummaryWithStateHash) (pk : PublicKey) : bool := bool_decide (sw_prover s = pk).

Record SnarkWorkTotal := mkSnarkTotal { tot_total_fees : Amount; tot_prover : PublicKey }.

(** [SnarkProverFees], [SnarkAllTimeFees] and [SnarkEpochFees] *)
Record SnarkFees := mkSnarkFees { sf_total : Z; sf_max : Z; sf_min : Z }.

Inductive SnarkApplication := SnarkApply | SnarkUnapply.

Record SnarkUpdate := mkSnarkUpdate {
  su_state_hash : StateHash;
  su_blockchain_length : Z;
  su_global_slot_since_genesis : Z;
  su_works : list SnarkWorkSummary
}.

(** The order in which a hash map of provers yields its entries. *)
Class ProverIter := {
  prover_iter : gmap PublicKey SnarkFees -> list (PublicKey * SnarkFees);
  prover_iter_perm m : prover_iter m ≡ₚ map_to_list m
}.

Section Store.
Context `{Speedb} `{Json SnarkWorkSummary} `{Json SnarkWorkSummaryWithStateHash} `{Json SnarkFees}.
Implicit Types (db : Db) (pk prover : PublicKey) (h : StateHash) (snark : SnarkWorkSummary).

(** * Counts *)

(** [map_or(0, |bytes| u32_from_be_bytes(&bytes).expect(..))] *)
Definition expect_u32 db (cf : string) (k : list Z) : res Z :=
  match cf_get db cf k with Some v => expect (u32_from_be_bytes v) | None => Ok 0 end.

(** The current epoch is read when no epoch is given. *)
Definition epoch_or_current db (epoch : option Z) : res Z :=
  match epoch with Some e => Ok e | None => expect (get_current_epoch db) end.

Definition get_snarks_epoch_count db (epoch : option Z) : res Z :=
  e ← epoch_or_current db epoch; expect_u32 db snarks_epoch_cf (u32_be e).
Definition increment_snarks_epoch_count (epoch : Z) db : res Db :=
  old ← get_snarks_epoch_count db (Some epoch); Ok (cf_put snarks_epoch_cf (u32_be epoch) (succ_u32 old) db).

Definition get_snarks_total_count db : res Z := expect_u32 db default_cf TOTAL_NUM_SNARKS_KEY.
Definition increment_snarks_total_count db : res Db :=
  old ← get_snarks_total_count db; Ok (cf_put default_cf TOTAL_NUM_SNARKS_KEY (succ_u32 old) db).

Definition get_snarks_total_canonical_count db : res Z := expect_u32 db default_cf TOTAL_NUM_CANONICAL_SNARKS_KEY.
Definition increment_snarks_total_canonical_count (incr : Z) db : res Db :=
  old ← get_snarks_total_canonical_count db;
  Ok (cf_put default_cf TOTAL_NUM_CANONICAL_SNARKS_KEY (u32_be (wrap32 (old + incr))) db).
Definition decrement_snarks_total_canonical_count (decr : Z) db : res Db :=
  old ← get_snarks_total_canonical_count db;
  Ok (cf_put default_cf TOTAL_NUM_CANONICAL_SNARKS_KEY (u32_be (saturating_sub old decr)) db).

Definition get_snarks_pk_epoch_count db pk (epoch : option Z) : res Z :=
  e ← epoch_or_current db epoch; key ← u32_prefix_key e pk; expect_u32 db snarks_pk_epoch_cf key.
Definition increment_snarks_pk_epoch_count pk (epoch : Z) db : res Db :=
  old ← get_snarks_pk_epoch_count db pk (Some epoch);
  key ← u32_prefix_key epoch pk; Ok (cf_put snarks_pk_epoch_cf key (succ_u32 old) db).

Definition get_snarks_pk_total_count db pk : res Z := expect_u32 db snarks_pk_total_cf (pk_key pk).
Definition increment_snarks_pk_total_count pk db : res Db :=
  old ← get_snarks_pk_total_count db pk; Ok (cf_put snarks_pk_total_cf (pk_key pk) (succ_u32 old) db).

Definition get_block_snarks_count db h : res (option Z) :=
  map_res (fun bytes => expect (u32_from_be_bytes bytes)) (cf_get db block_snark_counts_cf (sh_key h)).
Definition set_block_snarks_count h (count : Z) db : Db := cf_put block_snark_counts_cf (sh_key h) (u32_be count) db.

Definition increment_snarks_counts snark (epoch : Z) db : res Db :=
  db ← increment_snarks_pk_epoch_count (snark_prover snark) epoch db;
  db ← increment_snarks_pk_total_count (snark_prover snark) db;
  db ← increment_snarks_epoch_count epoch db;
  increment_snarks_total_count db.

(** * Adding the work of a block *)

Definition set_snark_by_prover_block_height snark (block_height index : Z) db : res Db :=
  key ← snark_prover_sort_key (snark_prover snark) block_height index;
  Ok (cf_put snark_prover_block_height_sort_cf key (to_json snark) db).
Definition set_snark_by_prover_global_slot snark (global_slot index : Z) db : res Db :=
  key ← snark_prover_sort_key (snark_prover snark) global_slot index;
  Ok (cf_put snark_prover_global_slot_sort_cf key (to_json snark) db).

(** A work at its place in the block, and its fee with the number of works of its prover so far. *)
Definition add_block_snark (block : PrecomputedBlock) (s : gmap PublicKey Z * Db) (e : nat * SnarkWorkSummary)
  : res (gmap PublicKey Z * Db) :=
  let h := state_hash block in
  let snark := e.2 in
  let prover := snark_prover snark in
  key ← block_index_key h (Z.of_nat e.1);
  let db := cf_put snarks_cf key (to_json snark) s.2 in
  let prover_index := default 0 (s.1 !! prover) in
  key ← snark_fee_sort_key (snark_fee snark) (blockchain_length block) prover h prover_index;
  let db := cf_put snark_work_fees_block_height_sort_cf key [] db in
  key ← snark_fee_sort_key (snark_fee snark) (global_slot_since_genesis block) prover h prover_index;
  let db := cf_put snark_work_fees_global_slot_sort_cf key [] db in
  Ok (<[prover := wrap32 (prover_index + 1)]> s.1, db).

(** A work of a prover, unless there is one with its place at this height already. *)
Definition add_prover_snark (block : PrecomputedBlock) pk (n : Z) db (e : nat * SnarkWorkSummaryWithStateHash) : res Db :=
  let index := Z.of_nat e.1 in
  key ← snark_prover_sort_key pk (blockchain_length block) index;
  match cf_get db snark_prover_block_height_sort_cf key with
  | Some _ => Ok db
  | None =>
    key ← pk_index_key pk (wrap32 (n + index));
    let db := cf_put snarks_prover_cf key (to_json e.2) db in
    let snark := without_state_hash e.2 in
    db ← set_snark_by_prover_block_height snark (blockchain_length block) index db;
    db ← set_snark_by_prover_global_slot snark (global_slot_since_genesis block) index db;
    increment_snarks_counts snark (epoch_count block) db
  end.

Definition add_prover_snarks (block : PrecomputedBlock) (works : list SnarkWorkSummaryWithStateHash) db pk : res Db :=
  n ← get_snarks_pk_total_count db pk;
  foldM (add_prover_snark block pk n) db (enumerate (List.filter (fun s => snark_contains_pk s pk) works)).

Definition add_snark_work (block : PrecomputedBlock) db : res Db :=
  let h := state_hash block in
  works ← completed_works block;
  let db := set_block_snarks_count h (wrap32 (Z.of_nat (length works))) db in
  s ← foldM (add_block_snark block) (∅, db) (enumerate works);
  provers ← prover_keys block;
  foldM (add_prover_snarks block (with_state_hash h <$> works)) s.2 provers.

(** * Reading *)

Definition get_snark_work_by_public_key db pk : res (list SnarkWorkSummaryWithStateHash) :=
  num ← get_snarks_pk_total_count db pk;
  mapM (fun index =>
    key ← pk_index_key pk (Z.of_nat index);
    o ← map_res (fun bytes => expect (from_json bytes)) (cf_get db snarks_prover_cf key);
    expect_some o) (seq 0 (Z.to_nat num)).

Definition get_block_snark_work db h : res (option (list SnarkWorkSummary)) :=
  num ← get_block_snarks_count db h;
  match num with
  | Some num =>
    snarks ← mapM (fun index =>
      key ← block_index_key h (Z.of_nat index);
      o ← map_res (fun bytes => expect (from_json bytes)) (cf_get db snarks_cf key);
      expect_some o) (seq 0 (Z.to_nat num));
    Ok (Some snarks)
  | None => Ok None
  end.

(** * Fees of provers *)

(** The fees with those of one more work of a prover. *)
Definition add_prover_fee (m : gmap PublicKey SnarkFees) snark : gmap PublicKey SnarkFees :=
  let fee := snark_fee snark in
  <[snark_prover snark :=
      match m !! snark_prover snark with
      | Some f => mkSnarkFees (wrap64 (sf_total f + fee)) (Z.max (sf_max f) fee) (Z.min (sf_min f) fee)
      | None => mkSnarkFees fee fee fee
      end]> m.
Definition snark_prover_fees (snarks : list SnarkWorkSummary) : gmap PublicKey SnarkFees :=
  fold_left add_prover_fee snarks ∅.

(** The fees of a prover up to the block before the given height, of an epoch if one is given. *)
Definition get_snark_prover_prev_fees db prover (block_height : Z) (epoch : option Z) : res (option (list Z)) :=
  start ← build_key [f_pk prover; f_u32 (wrap32 (block_height - 1))];
  let cf := match epoch with None => snark_prover_fees_historical_cf | Some _ => snark_prover_fees_epoch_historical_cf end in
  match iterator_cf db cf (IterFromReverse start) with
  | [] => Ok None
  | (key, value) :: _ =>
    pk_bytes ← slice_to PublicKey_LEN key;
    if bool_decide (pk_bytes <> pk_key prover) then Ok None
    else
      l ← slice_from PublicKey_LEN key;
      height ← expect (u32_from_be_bytes l);
      match epoch with
      | None => Ok (Some value)
      | Some epoch =>
        canonical ← get_canonical_hash_at_height db height;
        match canonical with
        | None => Ok None
        | Some h => block_epoch ← get_block_epoch db h;
                    Ok (if bool_decide (block_epoch = Some epoch) then Some value else None)
        end
      end
  end.

Definition u64_at db (cf : string) (key : list Z) : res (option Z) :=
  map_res (fun bytes => expect (u64_from_be_bytes bytes)) (cf_get db cf key).
Definition past_fee (f : SnarkFees -> Z) (o : option (list Z)) : res (option Z) :=
  map_res (fun bytes => fees ← expect (from_json bytes); Ok (f fees)) o.

Definition get_fee (cf : string) (f : SnarkFees -> Z) db pk (block_height : option Z) : res (option Z) :=
  match block_height with
  | None => u64_at db cf (pk_key pk)
  | Some n => o ← get_snark_prover_prev_fees db pk n None; past_fee f o
  end.
Definition get_snark_prover_total_fees := get_fee snark_prover_fees_cf sf_total.
Definition get_snark_prover_max_fee := get_fee snark_prover_max_fee_cf sf_max.
Definition get_snark_prover_min_fee := get_fee snark_prover_min_fee_cf sf_min.

Definition get_epoch_fee (cf : string) (f : SnarkFees -> Z) db pk (epoch block_height : option Z) : res (option Z) :=
  e ← epoch_or_current db epoch;
  match block_height with
  | None => key ← snark_epoch_key e pk; u64_at db cf key
  | Some n => o ← get_snark_prover_prev_fees db pk n (Some e); past_fee f o
  end.
Definition get_snark_prover_epoch_fees := get_epoch_fee snark_prover_fees_epoch_cf sf_total.
Definition get_snark_prover_epoch_max_fee := get_epoch_fee snark_prover_max_fee_epoch_cf sf_max.
Definition get_snark_prover_epoch_min_fee := get_epoch_fee snark_prover_min_fee_epoch_cf sf_min.

Definition store_all_time_snark_fees prover (f : SnarkFees) db : Db :=
  let db := cf_put snark_prover_fees_cf (pk_key prover) (u64_be (sf_total f)) db in
  let db := cf_put snark_prover_max_fee_cf (pk_key prover) (u64_be (sf_max f)) db in
  cf_put snark_prover_min_fee_cf (pk_key prover) (u64_be (sf_min f)) db.
Definition sort_all_time_snark_fees prover (f : SnarkFees) db : res Db :=
  k1 ← u64_prefix_key (sf_total f) prover; let db := cf_put snark_prover_total_fees_sort_cf k1 [] db in
  k2 ← u64_prefix_key (sf_max f) prover; let db := cf_put snark_prover_max_fee_sort_cf k2 [] db in
  k3 ← u64_prefix_key (sf_min f) prover; Ok (cf_put snark_prover_min_fee_sort_cf k3 [] db).
Definition delete_old_all_time_snark_fees prover (f : SnarkFees) db : res Db :=
  k1 ← u64_prefix_key (sf_total f) prover; let db := cf_delete snark_prover_total_fees_sort_cf k1 db in
  k2 ← u64_prefix_key (sf_max f) prover; let db := cf_delete snark_prover_max_fee_sort_cf k2 db in
  k3 ← u64_prefix_key (sf_min f) prover; Ok (cf_delete snark_prover_min_fee_sort_cf k3 db).

Definition store_epoch_snark_fees (epoch : Z) prover (f : SnarkFees) db : res Db :=
  key ← snark_epoch_key epoch prover;
  let db := cf_put snark_prover_fees_epoch_cf key (u64_be (sf_total f)) db in
  let db := cf_put snark_prover_max_fee_epoch_cf key (u64_be (sf_max f)) db in
  Ok (cf_put snark_prover_min_fee_epoch_cf key (u64_be (sf_min f)) db).
Definition sort_epoch_snark_fees (epoch : Z) prover (f : SnarkFees) db : res Db :=
  k1 ← snark_fee_epoch_sort_key epoch (sf_total f) prover; let db := cf_put snark_prover_total_fees_epoch_sort_cf k1 [] db in
  k2 ← snark_fee_epoch_sort_key epoch (sf_max f) prover; let db := cf_put snark_prover_max_fee_epoch_sort_cf k2 [] db in
  k3 ← snark_fee_epoch_sort_key epoch (sf_min f) prover; Ok (cf_put snark_prover_min_fee_epoch_sort_cf k3 [] db).
Definition delete_old_epoch_snark_fees (epoch : Z) prover (f : SnarkFees) db : res Db :=
  k1 ← snark_fee_epoch_sort_key epoch (sf_total f) prover; let db := cf_delete snark_prover_total_fees_epoch_sort_cf k1 db in
  k2 ← snark_fee_epoch_sort_key epoch (sf_max f) prover; let db := cf_delete snark_prover_max_fee_epoch_sort_cf k2 db in
  k3 ← snark_fee_epoch_sort_key epoch (sf_min f) prover; Ok (cf_delete snark_prover_min_fee_epoch_sort_cf k3 db).

(** The old fees of the prover of a work, read and taken out of the sorted views; the height is given when unapplying,
    and used for the epoch only. *)
Definition old_fees (epoch : Z) (block_height : option Z) (s : gmap PublicKey (SnarkFees * SnarkFees) * Db) snark
  : res (gmap PublicKey (SnarkFees * SnarkFees) * Db) :=
  let '(olds, db) := s in
  let prover := snark_prover snark in
  match olds !! prover with
  | Some _ => Ok (olds, db)
  | None =>
    total ← get_snark_prover_total_fees db prover None;
    max ← get_snark_prover_max_fee db prover None;
    min ← get_snark_prover_min_fee db prover None;
    let old := mkSnarkFees (default 0 total) (default 0 max) (default U64_MAX min) in
    db ← delete_old_all_time_snark_fees prover old db;
    total ← get_snark_prover_epoch_fees db prover (Some epoch) block_height;
    max ← get_snark_prover_epoch_max_fee db prover (Some epoch) block_height;
    min ← get_snark_prover_epoch_min_fee db prover (Some epoch) block_height;
    let old_epoch := mkSnarkFees (default 0 total) (default 0 max) (default U64_MAX min) in
    db ← delete_old_epoch_snark_fees epoch prover old_epoch db;
    Ok (<[prover := (old, old_epoch)]> olds, db)
  end.

Definition new_fees (old f : SnarkFees) : SnarkFees :=
  mkSnarkFees (wrap64 (sf_total old + sf_total f)) (Z.max (sf_max old) (sf_max f)) (Z.min (sf_min old) (sf_min f)).

(** The new fees of a prover: the fees of the works are added, whether they are applied or unapplied. *)
Definition update_prover_fees (block_height epoch : Z) (apply : SnarkApplication)
    (olds : gmap PublicKey (SnarkFees * SnarkFees)) db (e : PublicKey * SnarkFees) : res Db :=
  let '(prover, fees) := e in
  match olds !! prover with
  | None => Panic
  | Some (old, old_epoch) =>
    let all_time := new_fees old fees in
    db ← delete_old_all_time_snark_fees prover old db;
    let db := store_all_time_snark_fees prover all_time db in
    db ← sort_all_time_snark_fees prover all_time db;
    let epoch_fees := new_fees old_epoch fees in
    db ← delete_old_epoch_snark_fees epoch prover old_epoch db;
    db ← store_epoch_snark_fees epoch prover epoch_fees db;
    db ← sort_epoch_snark_fees epoch prover epoch_fees db;
    key ← pk_index_key prover block_height;
    Ok (match apply with
        | SnarkApply =>
          let db := cf_put snark_prover_fees_historical_cf key (to_json all_time) db in
          cf_put snark_prover_fees_epoch_historical_cf key (to_json epoch_fees) db
        | SnarkUnapply =>
          let db := cf_delete snark_prover_fees_historical_cf key db in
          cf_delete snark_prover_fees_epoch_historical_cf key db
        end)
  end.

Definition update_snark_prover_fees `{ProverIter} (block_height global_slot : Z) (snarks : list SnarkWorkSummary)
    (apply : SnarkApplication) db : res Db :=
  let epoch := global_slot / MAINNET_EPOCH_SLOT_COUNT in
  let block_height_opt := match apply with SnarkApply => None | SnarkUnapply => Some block_height end in
  s ← foldM (old_fees epoch block_height_opt) (∅, db) snarks;
  foldM (update_prover_fees block_height epoch apply s.1) s.2 (prover_iter (snark_prover_fees snarks)).

Definition get_top_snark_provers_by_total_fees db (n : nat) : res (list SnarkWorkTotal) :=
  mapM (fun e =>
    total ← slice_to U64_LEN (fst e);
    l ← slice_from U64_LEN (fst e);
    pk ← expect (pk_from_bytes l);
    Ok (mkSnarkTotal (of_be_bytes total) pk)) (take n (iterator_cf db snark_prover_total_fees_sort_cf IterEnd)).

(** * Reorganisations *)

Definition update_snarks `{ProverIter} (update : DbUpdate SnarkUpdate) db : res Db :=
  db ← foldM (fun db u =>
    db ← decrement_snarks_total_canonical_count (wrap32 (Z.of_nat (length (su_works u)))) db;
    update_snark_prover_fees (su_blockchain_length u) (su_global_slot_since_genesis u) (su_works u) SnarkUnapply db)
    db (up_unapply update);
  foldM (fun db u =>
    db ← increment_snarks_total_canonical_count (wrap32 (Z.of_nat (length (su_works u)))) db;
    update_snark_prover_fees (su_blockchain_length u) (su_global_slot_since_genesis u) (su_works u) SnarkApply db)
    db (up_apply update).

Definition block_snark_update db (u : BlockUpdate) : res SnarkUpdate :=
  works ← ok_flatten (get_block_snark_work db (bu_state_hash u)); works ← expect_some works;
  Ok (mkSnarkUpdate (bu_state_hash u) (bu_blockchain_length u) (bu_global_slot_since_genesis u) works).

Definition update_block_snarks `{ProverIter} (blocks : DbBlockUpdate) db : res Db :=
  apply ← mapM (block_snark_update db) (up_apply blocks);
  unapply ← mapM (block_snark_update db) (up_unapply blocks);
  update_snarks (mkUpdate apply unapply) db.

(** * Iterators *)

Definition snark_fees_block_height_iterator db (mode : IteratorMode) := iterator_cf db snark_work_fees_block_height_sort_cf mode.
Definition snark_fees_global_slot_iterator db (mode : IteratorMode) := iterator_cf db snark_work_fees_global_slot_sort_cf mode.
Definition snark_prover_max_fee_iterator db (mode : IteratorMode) := iterator_cf db snark_prover_max_fee_sort_cf mode.
Definition snark_prover_min_fee_iterator db (mode : IteratorMode) := iterator_cf db snark_prover_min_fee_sort_cf mode.
Definition snark_prover_total_fees_iterator db (mode : IteratorMode) := iterator_cf db snark_prover_total_fees_sort_cf mode.
Definition snark_prover_block_height_iterator db (mode : IteratorMode) := iterator_cf db snark_prover_block_height_sort_cf mode.
Definition snark_prover_global_slot_iterator db (mode : IteratorMode) := iterator_cf db snark_prover_global_slot_sort_cf mode.

Definition start_key (epoch : Z) (direction : Direction) : res (list Z) :=
  fstart ← snark_fee_epoch_sort_key epoch 0 pk_lower_bound;
  rstart ← snark_fee_epoch_sort_key epoch U64_MAX pk_upper_bound;
  Ok (match direction with Forward => fstart | Reverse => rstart end).
Definition epoch_fee_iterator (cf : string) db (epoch : Z) (direction : Direction) : res (list (list Z * list Z)) :=
  start ← start_key epoch direction; Ok (iterator_cf db cf (iter_from start direction)).
Definition snark_prover_max_fee_epoch_iterator := epoch_fee_iterator snark_prover_max_fee_epoch_sort_cf.
Definition snark_prover_min_fee_epoch_iterator := epoch_fee_iterator snark_prover_min_fee_epoch_sort_cf.
Definition snark_prover_total_fees_epoch_iterator := epoch_fee_iterator snark_prover_total_fees_epoch_sort_cf.
End Store.
