(* ===== verification/ProverFees.v ===== *)
(** Theorems about the fees of SNARK provers (src/rust/src/store/snark_store_impl.rs, [update_snark_prover_fees]). *)

From S2P Require Import Prelude Bytes Base StoreKeys Command AccountDiff Account Coinbase Precomputed InternalCommand BlockOrder ColumnFamilies Db Events Schema BlockIndex InternalStore Canonicity SnarkStore SnarkLists.

Definition fee_sort_families : list string :=
  [snark_prover_total_fees_sort_cf; snark_prover_max_fee_sort_cf; snark_prover_min_fee_sort_cf;
   snark_prover_total_fees_epoch_sort_cf; snark_prover_max_fee_epoch_sort_cf; snark_prover_min_fee_epoch_sort_cf].

Definition fees_u64 (f : SnarkFees) : Prop := u64 (sf_total f) /\ u64 (sf_max f) /\ u64 (sf_min f).

Section Fees.
Context `{SpeedbSpec} `{JsonSpec SnarkFees} `{ProverIter}.
Implicit Types (db : Db) (pk p : PublicKey).

(** * Reading old fees *)

(** The history of the fees by epoch: at the key of a prover and a height, fees that can be read. *)
Definition history_ok db : Prop :=
  forall k v, cf_get db snark_prover_fees_epoch_historical_cf k = Some v ->
    exists pk n f, pk_wf pk /\ u32 n /\ k = pk_index pk n /\ v = to_json f /\ fees_u64 f.

Lemma prev_fees_total db pk n e :
  well_typed db -> history_ok db -> pk_wf pk ->
  exists o, get_snark_prover_prev_fees db pk n (Some e) = Ok o /\ forall v, o = Some v -> exists f, v = to_json f /\ fees_u64 f.
Proof.
  intros Hdb Hh Hpk. unfold get_snark_prover_prev_fees. unfold_key. cbn [mbind res_bind].
  destruct (iterator_cf db snark_prover_fees_epoch_historical_cf _) as [|[k v] rest] eqn:E; [by exists None|].
  assert ((k, v) ∈ iterator_cf db snark_prover_fees_epoch_historical_cf (IterFromReverse (as_bytes (pk_str pk) ++ u32_be (wrap32 (n - 1))))) as Hin
    by (rewrite E; left).
  cbn [iterator_cf] in Hin. apply list_elem_of_In, in_rev, filter_In in Hin as [Hin _]. apply list_elem_of_In, cf_entries_get in Hin.
  destruct (Hh k v Hin) as (pk' & m & f & Hpk' & Hm & -> & -> & Hf). unfold pk_index, pk_key.
  rewrite slice_to_app by keylen. cbn [mbind res_bind]. destruct (bool_decide _); [by exists None|].
  rewrite slice_from_app by keylen. cbn [mbind res_bind]. rewrite u32_from_be_bytes_be by done. cbn [expect mbind res_bind].
  unfold get_canonical_hash_at_height.
  destruct (from_hash_typed db canonicity_length_cf (u32_be m) Hdb eq_refl) as [[h|] ->]; cbn [mbind res_bind]; [|by exists None].
  unfold get_block_epoch, opt_u32. destruct (map_u32_typed db block_epoch_cf (sh_key h) Hdb eq_refl) as (o & -> & _).
  cbn [mbind res_bind]. destruct (bool_decide _); [|by exists None]. eexists. split; [done|]. intros v [= <-]. by exists f.
Qed.

Lemma past_fee_total (g : SnarkFees -> Z) o :
  (forall v, o = Some v -> exists f, v = to_json f /\ fees_u64 f) -> (forall f, fees_u64 f -> u64 (g f)) ->
  exists r, past_fee g o = Ok r /\ forall n, r = Some n -> u64 n.
Proof.
  intros Ho Hg. unfold past_fee. destruct o as [v|]; [|by exists None]. destruct (Ho v eq_refl) as (f & -> & Hf).
  cbn [map_res]. rewrite json_roundtrip. eexists. split; [done|]. intros n [= <-]. by apply Hg.
Qed.

Lemma u64_at_typed db cf k :
  well_typed db -> value_type cf k = TU64 -> exists o, u64_at db cf k = Ok o /\ forall n, o = Some n -> u64 n.
Proof.
  intros Hdb Ht. unfold u64_at. destruct (cf_get db cf k) as [v|] eqn:E; [|by exists None].
  apply Hdb in E. rewrite Ht in E. destruct E as (n & Hn & ->). cbn [map_res]. rewrite u64_from_be_bytes_be by done.
  eexists. split; [done|]. by intros m [= <-].
Qed.

Lemma epoch_fee_total cf g db pk e bh :
  well_typed db -> history_ok db -> pk_wf pk -> (forall k, value_type cf k = TU64) -> (forall f, fees_u64 f -> u64 (g f)) ->
  exists o, get_epoch_fee cf g db pk (Some e) bh = Ok o /\ forall n, o = Some n -> u64 n.
Proof.
  intros Hdb Hh Hpk Ht Hg. unfold get_epoch_fee. cbn [epoch_or_current mbind res_bind]. destruct bh as [n|].
  - destruct (prev_fees_total db pk n e Hdb Hh Hpk) as (o & -> & Ho). cbn [mbind res_bind]. by apply past_fee_total.
  - unfold snark_epoch_key. unfold_key. cbn [mbind res_bind]. by apply u64_at_typed.
Qed.

(** The fees of a prover that are stored, or the ones it starts with. *)
Definition stored_fees db p (f : SnarkFees) : Prop :=
  exists t m n, get_snark_prover_total_fees db p None = Ok t /\ get_snark_prover_max_fee db p None = Ok m /\
    get_snark_prover_min_fee db p None = Ok n /\ f = mkSnarkFees (default 0 t) (default 0 m) (default U64_MAX n).

Lemma stored_fees_total db p : well_typed db -> exists f, stored_fees db p f /\ fees_u64 f.
Proof.
  intros Hdb. destruct (u64_at_typed db snark_prover_fees_cf (pk_key p) Hdb eq_refl) as (t & Et & Ht).
  destruct (u64_at_typed db snark_prover_max_fee_cf (pk_key p) Hdb eq_refl) as (m & Em & Hm).
  destruct (u64_at_typed db snark_prover_min_fee_cf (pk_key p) Hdb eq_refl) as (n & En & Hn).
  eexists. split; [by exists t, m, n|]. split_and!; cbn;
    [destruct t as [x|]; [by apply Ht|]|destruct m as [x|]; [by apply Hm|]|destruct n as [x|]; [by apply Hn|]]; cbn; ints.
Qed.

(** * The loops *)

Lemma delete_all_time_ok p f db :
  pk_wf p -> exists db', delete_old_all_time_snark_fees p f db = Ok db' /\ writes_in fee_sort_families db db' /\
    (well_typed db -> well_typed db').
Proof.
  intros Hp. unfold delete_old_all_time_snark_fees, u64_prefix_key. unfold_key. cbn [mbind res_bind].
  eexists. split; [done|]. split; [frame|]. intros Hdb. by repeat apply well_typed_delete.
Qed.
Lemma delete_epoch_ok e p f db :
  pk_wf p -> exists db', delete_old_epoch_snark_fees e p f db = Ok db' /\ writes_in fee_sort_families db db' /\
    (well_typed db -> well_typed db').
Proof.
  intros Hp. unfold delete_old_epoch_snark_fees, snark_fee_epoch_sort_key. unfold_key. cbn [mbind res_bind].
  eexists. split; [done|]. split; [frame|]. intros Hdb. by repeat apply well_typed_delete.
Qed.
Lemma sort_all_time_ok p f db :
  pk_wf p -> exists db', sort_all_time_snark_fees p f db = Ok db' /\ writes_in fee_sort_families db db' /\
    (well_typed db -> well_typed db').
Proof.
  intros Hp. unfold sort_all_time_snark_fees, u64_prefix_key. unfold_key. cbn [mbind res_bind].
  eexists. split; [done|]. split; [frame|]. intros Hdb. by repeat (apply well_typed_put; [done|]).
Qed.
Lemma sort_epoch_ok e p f db :
  pk_wf p -> exists db', sort_epoch_snark_fees e p f db = Ok db' /\ writes_in fee_sort_families db db' /\
    (well_typed db -> well_typed db').
Proof.
  intros Hp. unfold sort_epoch_snark_fees, snark_fee_epoch_sort_key. unfold_key. cbn [mbind res_bind].
  eexists. split; [done|]. split; [frame|]. intros Hdb. by repeat (apply well_typed_put; [done|]).
Qed.

(** What is written to the sorted views does not change the fees. *)
Lemma fees_frame db db' :
  writes_in fee_sort_families db db' ->
  (forall p f, stored_fees db p f -> stored_fees db' p f) /\ (history_ok db -> history_ok db').
Proof.
  intros Hw. split.
  - intros p f (t & m & n & Et & Em & En & ->). exists t, m, n.
    unfold get_snark_prover_total_fees, get_snark_prover_max_fee, get_snark_prover_min_fee, get_fee, u64_at in *.
    by rewrite !(writes_get _ _ _ _ _ Hw) by done.
  - intros Hh k v E. rewrite (writes_get _ _ _ _ _ Hw) in E by done. by apply Hh.
Qed.

Notation Olds := (gmap PublicKey (SnarkFees * SnarkFees)).

(** The table of old fees. *)
Definition olds_ok db (olds : Olds) : Prop :=
  forall p o oe, olds !! p = Some (o, oe) -> stored_fees db p o /\ fees_u64 o /\ fees_u64 oe.

Lemma stored_fees_unique db p f g : stored_fees db p f -> stored_fees db p g -> f = g.
Proof. intros (t & m & n & E1 & E2 & E3 & ->) (t' & m' & n' & E1' & E2' & E3' & ->). congruence. Qed.

Lemma old_fees_spec e bh db0 (olds : Olds) db snark :
  well_typed db -> history_ok db -> pk_wf (snark_prover snark) -> writes_in fee_sort_families db0 db -> olds_ok db olds ->
  exists olds' db', old_fees e bh (olds, db) snark = Ok (olds', db') /\ well_typed db' /\ history_ok db' /\
    writes_in fee_sort_families db0 db' /\ olds_ok db' olds' /\ is_Some (olds' !! snark_prover snark) /\
    (forall p, is_Some (olds !! p) -> is_Some (olds' !! p)).
Proof.
  intros Hdb Hh Hp Hw Ho. unfold old_fees. set (p := snark_prover snark) in *.
  destruct (olds !! p) as [o|] eqn:Ep; [by exists olds, db|].
  destruct (stored_fees_total db p Hdb) as (f & Hsf & Hf). pose proof Hsf as (t & m & n & E1 & E2 & E3 & Ef).
  rewrite E1. cbn [mbind res_bind]. rewrite E2. cbn [mbind res_bind]. rewrite E3. cbn [mbind res_bind]. rewrite <- Ef.
  destruct (delete_all_time_ok p f db Hp) as (db1 & -> & Hw1 & Hdb1). specialize (Hdb1 Hdb). cbn [mbind res_bind].
  destruct (fees_frame db db1 Hw1) as [Hs1 Hh1]. specialize (Hh1 Hh).
  destruct (epoch_fee_total snark_prover_fees_epoch_cf sf_total db1 p e bh Hdb1 Hh1 Hp) as (t' & Et & Ht); [done|by intros ? (? & ? & ?)|].
  destruct (epoch_fee_total snark_prover_max_fee_epoch_cf sf_max db1 p e bh Hdb1 Hh1 Hp) as (m' & Em & Hm); [done|by intros ? (? & ? & ?)|].
  destruct (epoch_fee_total snark_prover_min_fee_epoch_cf sf_min db1 p e bh Hdb1 Hh1 Hp) as (n' & En & Hn); [done|by intros ? (? & ? & ?)|].
  unfold get_snark_prover_epoch_fees. rewrite Et. cbn [mbind res_bind].
  unfold get_snark_prover_epoch_max_fee. rewrite Em. cbn [mbind res_bind].
  unfold get_snark_prover_epoch_min_fee. rewrite En. cbn [mbind res_bind]. set (oe := mkSnarkFees _ _ _).
  assert (fees_u64 oe) as Hoe.
  { unfold oe. split_and!; cbn; [destruct t' as [x|]; [by apply Ht|]|destruct m' as [x|]; [by apply Hm|]|
      destruct n' as [x|]; [by apply Hn|]]; cbn; ints. }
  destruct (delete_epoch_ok e p oe db1 Hp) as (db2 & -> & Hw2 & Hdb2). specialize (Hdb2 Hdb1). cbn [mbind res_bind].
  destruct (fees_frame db1 db2 Hw2) as [Hs2 Hh2].
  do 2 eexists. split; [done|]. split; [done|]. split; [by apply Hh2|].
  split; [by eapply writes_in_trans; [|eapply writes_in_trans]|].
  split; [|split; [by rewrite lookup_insert_eq; eexists|]].
  - intros q o oe' Hq. destruct (decide (q = p)) as [->|Hne].
    + rewrite lookup_insert_eq in Hq. injection Hq as <- <-. split; [by apply Hs2, Hs1|done].
    + rewrite lookup_insert_ne in Hq by done. destruct (Ho q o oe' Hq) as (H1' & H2' & H3'). split; [by apply Hs2, Hs1|done].
  - intros q Hq. destruct (decide (q = p)) as [->|Hne]; [rewrite lookup_insert_eq; by eexists|by rewrite lookup_insert_ne].
Qed.

Lemma old_fees_loop e bh db0 snarks (olds : Olds) db :
  well_typed db -> history_ok db -> Forall (fun s => pk_wf (snark_prover s)) snarks -> writes_in fee_sort_families db0 db ->
  olds_ok db olds ->
  exists olds' db', foldM (old_fees e bh) (olds, db) snarks = Ok (olds', db') /\ well_typed db' /\
    writes_in fee_sort_families db0 db' /\ olds_ok db' olds' /\
    (forall p, is_Some (olds !! p) \/ (exists s, s ∈ snarks /\ snark_prover s = p) -> is_Some (olds' !! p)).
Proof.
  intros Hdb Hh Hp. revert olds db Hdb Hh. induction Hp as [|s snarks Hs _ IH]; intros olds db Hdb Hh Hw Ho.
  { exists olds, db. split_and!; [done|done|done|done|]. intros p [Hp|(s & Hs & _)]; [done|by apply not_elem_of_nil in Hs]. }
  destruct (old_fees_spec e bh db0 olds db s Hdb Hh Hs Hw Ho) as (o1 & db1 & E1 & Hdb1 & Hh1 & Hw1 & Ho1 & Hs1 & Hm1).
  cbn [foldM]. rewrite E1. cbn [mbind res_bind].
  destruct (IH o1 db1 Hdb1 Hh1 Hw1 Ho1) as (o2 & db2 & E2 & Hdb2 & Hw2 & Ho2 & Hm2).
  exists o2, db2. split_and!; [exact E2|done|done|done|]. intros p [Hp|(s' & Hs' & <-)]; [apply Hm2; left; by apply Hm1|].
  apply elem_of_cons in Hs' as [->|Hs']; apply Hm2; [by left|right; by eexists].
Qed.

Lemma new_fees_u64 o f : fees_u64 o -> fees_u64 f -> fees_u64 (new_fees o f).
Proof.
  intros (H1' & H2' & H3') (H4' & H5' & H6'). split_and!; cbn; [apply wrap64_range|ints|ints].
Qed.

Definition fee_families : list string :=
  [snark_prover_fees_cf; snark_prover_max_fee_cf; snark_prover_min_fee_cf; snark_prover_fees_epoch_cf;
   snark_prover_max_fee_epoch_cf; snark_prover_min_fee_epoch_cf; snark_prover_fees_historical_cf;
   snark_prover_fees_epoch_historical_cf] ++ fee_sort_families.

(** The fees of one prover, and no other, become the new ones. *)
Lemma update_fees_spec bh e apply (olds : Olds) db p f o oe :
  pk_wf p -> well_typed db -> olds !! p = Some (o, oe) -> fees_u64 o -> fees_u64 oe -> fees_u64 f ->
  exists db', update_prover_fees bh e apply olds db (p, f) = Ok db' /\ well_typed db' /\ writes_in fee_families db db' /\
    stored_fees db' p (new_fees o f) /\ (forall q g, q <> p -> stored_fees db q g -> stored_fees db' q g) /\
    (u32 bh -> history_ok db -> history_ok db').
Proof.
  intros Hp Hdb Ho Hou Hoeu Hfu. unfold update_prover_fees. rewrite Ho.
  destruct (delete_all_time_ok p o db Hp) as (db1 & -> & Hw1 & Hdb1). specialize (Hdb1 Hdb). cbn [mbind res_bind].
  pose proof (new_fees_u64 o f Hou Hfu) as (Hn1 & Hn2 & Hn3). pose proof (new_fees_u64 oe f Hoeu Hfu) as (Hm1 & Hm2 & Hm3).
  set (at1 := new_fees o f) in *. set (ep := new_fees oe f) in *.
  set (db2 := store_all_time_snark_fees p at1 db1).
  assert (well_typed db2) as Hdb2 by (repeat (apply well_typed_put; [by apply has_type_u64|]); done).
  assert (writes_in fee_families db1 db2) as Hw2 by (unfold db2, store_all_time_snark_fees; frame).
  destruct (sort_all_time_ok p at1 db2 Hp) as (db3 & -> & Hw3 & Hdb3). specialize (Hdb3 Hdb2). cbn [mbind res_bind].
  destruct (delete_epoch_ok e p oe db3 Hp) as (db4 & -> & Hw4 & Hdb4). specialize (Hdb4 Hdb3). cbn [mbind res_bind].
  unfold store_epoch_snark_fees, snark_epoch_key. unfold_key. cbn [mbind res_bind].
  match goal with |- context [sort_epoch_snark_fees e p ep ?d] => set (db5 := d) end.
  assert (well_typed db5) as Hdb5 by (repeat (apply well_typed_put; [by apply has_type_u64|]); done).
  assert (writes_in [snark_prover_fees_epoch_cf; snark_prover_max_fee_epoch_cf; snark_prover_min_fee_epoch_cf] db4 db5) as Hw5
    by (unfold db5; frame).
  destruct (sort_epoch_ok e p ep db5 Hp) as (db6 & -> & Hw6 & Hdb6). specialize (Hdb6 Hdb5). cbn [mbind res_bind].
  rewrite pk_index_key_ok by done. cbn [mbind res_bind]. eexists. split; [done|].
  match goal with |- well_typed ?d /\ _ => set (db7 := d) end.
  assert (writes_in [snark_prover_fees_historical_cf; snark_prover_fees_epoch_historical_cf] db6 db7) as Hw7
    by (unfold db7; destruct apply; frame).
  assert (forall cf k, family_in (fee_sort_families ++ [snark_prover_fees_epoch_cf; snark_prover_max_fee_epoch_cf;
      snark_prover_min_fee_epoch_cf; snark_prover_fees_historical_cf; snark_prover_fees_epoch_historical_cf]) cf = false ->
    cf_get db7 cf k = cf_get db2 cf k) as Hsame.
  { intros cf k Hcf. unfold family_in in Hcf. rewrite existsb_app in Hcf. apply orb_false_iff in Hcf as [Hc1 Hc2].
    fold (family_in fee_sort_families cf) in Hc1. cbn [existsb] in Hc2. rewrite !orb_false_iff in Hc2.
    destruct Hc2 as (F1 & F2 & F3 & F4 & F5 & _).
    rewrite (writes_get _ _ _ _ _ Hw7) by (unfold family_in; cbn [existsb]; by rewrite F4, F5).
    rewrite (writes_get _ _ _ _ _ Hw6 Hc1).
    rewrite (writes_get _ _ _ _ _ Hw5) by (unfold family_in; cbn [existsb]; by rewrite F1, F2, F3).
    by rewrite (writes_get _ _ _ _ _ Hw4 Hc1), (writes_get _ _ _ _ _ Hw3 Hc1). }
  split; [|split; [|split; [|split]]].
  - unfold db7. destruct apply; [repeat (apply well_typed_put; [done|])|repeat apply well_typed_delete]; done.
  - eapply writes_in_trans; [apply (subset_families _ fee_families _ _ Hw1); done|].
    eapply writes_in_trans; [exact Hw2|]. eapply writes_in_trans; [apply (subset_families _ fee_families _ _ Hw3); done|].
    eapply writes_in_trans; [apply (subset_families _ fee_families _ _ Hw4); done|].
    eapply writes_in_trans; [apply (subset_families _ fee_families _ _ Hw5); done|].
    eapply writes_in_trans; [apply (subset_families _ fee_families _ _ Hw6); done|].
    apply (subset_families _ fee_families _ _ Hw7); done.
  - exists (Some (sf_total at1)), (Some (sf_max at1)), (Some (sf_min at1)).
    unfold get_snark_prover_total_fees, get_snark_prover_max_fee, get_snark_prover_min_fee, get_fee, u64_at.
    rewrite !Hsame by done. unfold db2, store_all_time_snark_fees. get_put. cbn [map_res].
    rewrite !u64_from_be_bytes_be by done. by destruct at1.
  - intros q g Hq (t & m & n & Et & Em & En & ->). exists t, m, n.
    unfold get_snark_prover_total_fees, get_snark_prover_max_fee, get_snark_prover_min_fee, get_fee, u64_at in *.
    rewrite !Hsame by done. unfold db2, store_all_time_snark_fees.
    assert (pk_key q <> pk_key p) as Hk by (intros E; by apply pk_key_inj in E).
    rewrite !cf_get_put. repeat (rewrite decide_False by congruence).
    by rewrite !(writes_get _ _ _ _ _ Hw1) by done.
  - intros Hbh Hh. assert (history_ok db6) as Hh6.
    { intros k v. rewrite (writes_get _ _ _ _ _ Hw6), (writes_get _ _ _ _ _ Hw5), (writes_get _ _ _ _ _ Hw4), (writes_get _ _ _ _ _ Hw3) by done.
      unfold db2, store_all_time_snark_fees. rewrite !cf_get_put. repeat (rewrite decide_False by done).
      rewrite (writes_get _ _ _ _ _ Hw1) by done. apply Hh. }
    intros k v E. unfold db7 in E. destruct apply.
    + rewrite cf_get_put in E. destruct (decide _) as [[= ->]|_].
      * injection E as <-. by exists p, bh, ep.
      * rewrite cf_get_put, decide_False in E by done. by apply Hh6.
    + rewrite cf_get_delete in E. destruct (decide _) as [_|_]; [done|]. rewrite cf_get_delete, decide_False in E by done. by apply Hh6.
Qed.

(** The fees of the works of a block are those of their fees. *)
Lemma prover_fees_u64 snarks :
  Forall (fun s => u64 (snark_fee s)) snarks -> forall p f, snark_prover_fees snarks !! p = Some f -> fees_u64 f.
Proof.
  intros Hs. unfold snark_prover_fees.
  assert (forall m : gmap PublicKey SnarkFees, (forall p f, m !! p = Some f -> fees_u64 f) ->
    forall p f, fold_left add_prover_fee snarks m !! p = Some f -> fees_u64 f) as Hl.
  { induction Hs as [|s snarks Hs _ IH]; intros m Hm; [exact Hm|]. cbn [fold_left]. apply IH. intros p f Hf. unfold add_prover_fee in Hf.
    destruct (decide (p = snark_prover s)) as [->|Hne]; [|rewrite lookup_insert_ne in Hf by done; by apply (Hm p)].
    rewrite lookup_insert_eq in Hf. injection Hf as <-. destruct (m !! snark_prover s) as [g|] eqn:E; [|done].
    destruct (Hm _ _ E) as (? & ? & ?). split_and!; cbn; [apply wrap64_range|ints|ints]. }
  apply Hl. intros p f Hf. by rewrite lookup_empty in Hf.
Qed.

Lemma prover_fees_provers snarks p f :
  snark_prover_fees snarks !! p = Some f -> exists s, s ∈ snarks /\ snark_prover s = p.
Proof.
  unfold snark_prover_fees.
  assert (forall m : gmap PublicKey SnarkFees, is_Some (fold_left add_prover_fee snarks m !! p) ->
      is_Some (m !! p) \/ exists s, s ∈ snarks /\ snark_prover s = p) as Hl.
  { induction snarks as [|s snarks IH]; intros m Hm; [by left|]. cbn [fold_left] in Hm.
    apply IH in Hm as [Hm|(t & Ht & E)]; [|right; exists t; split; [set_solver|done]].
    destruct (decide (p = snark_prover s)) as [->|Hne]; [right; exists s; split; [set_solver|done]|].
    unfold add_prover_fee in Hm. rewrite lookup_insert_ne in Hm by done. by left. }
  intros E. destruct (Hl ∅) as [[x Hx]|Hs]; [by eexists|by rewrite lookup_empty in Hx|done].
Qed.

Lemma update_fees_loop bh e apply (olds : Olds) l db :
  Forall (fun x => pk_wf x.1 /\ fees_u64 x.2 /\ is_Some (olds !! x.1)) l -> well_typed db -> NoDup l.*1 ->
  (forall p o oe, p ∈ l.*1 -> olds !! p = Some (o, oe) -> stored_fees db p o /\ fees_u64 o /\ fees_u64 oe) ->
  exists db', foldM (update_prover_fees bh e apply olds) db l = Ok db' /\ well_typed db' /\ writes_in fee_families db db' /\
    (u32 bh -> history_ok db -> history_ok db') /\
    (forall p f o, (p, f) ∈ l -> stored_fees db p o -> stored_fees db' p (new_fees o f)) /\
    (forall q g, q ∉ l.*1 -> stored_fees db q g -> stored_fees db' q g).
Proof.
  intros Hl. revert db. induction Hl as [|[p f] l (Hp & Hf & [[o oe] Hop]) _ IH]; intros db Hdb Hnd Ho.
  { exists db. split_and!; [done|done|frame|done| |done]. intros p f o Hin. by apply not_elem_of_nil in Hin. }
  cbn [fst snd] in *. csimpl in Hnd. apply NoDup_cons in Hnd as [Hni Hnd].
  destruct (Ho p o oe) as (Hs & Hou & Hoeu); [csimpl; set_solver|done|].
  destruct (update_fees_spec bh e apply olds db p f o oe Hp Hdb Hop Hou Hoeu Hf) as (db1 & E1 & Hdb1 & Hw1 & Hs1 & Hk1 & Hh1).
  cbn [foldM]. rewrite E1. cbn [mbind res_bind].
  destruct (IH db1 Hdb1 Hnd) as (db2 & E2 & Hdb2 & Hw2 & Hh2 & Hn2 & Hk2).
  { intros q o' oe' Hq E. destruct (Ho q o' oe') as (Hs' & Hu'); [csimpl; set_solver|done|].
    split; [|done]. apply Hk1; [by intros ->|done]. }
  exists db2. split_and!; [exact E2|done|by eapply writes_in_trans|auto|..].
  - intros q g o' Hin Hs'. apply elem_of_cons in Hin as [E|Hin].
    + injection E as -> ->. rewrite (stored_fees_unique _ _ _ _ Hs' Hs). by apply Hk2.
    + apply Hn2; [done|]. apply Hk1; [|done]. intros ->. apply Hni. by apply (list_elem_of_fmap_2 fst) in Hin.
  - intros q g Hq Hs'. csimpl in Hq. apply not_elem_of_cons in Hq as [Hq1 Hq2]. apply Hk2; [done|]. by apply Hk1.
Qed.

(** What the works of a block make of the fees of a prover. *)
Definition after_works p (o : SnarkFees) (snarks : list SnarkWorkSummary) : SnarkFees :=
  match snark_prover_fees snarks !! p with Some f => new_fees o f | None => o end.

Definition works_wf (snarks : list SnarkWorkSummary) : Prop :=
  Forall (fun s => pk_wf (snark_prover s) /\ u64 (snark_fee s)) snarks.

Lemma update_snark_fees_spec bh slot snarks apply db :
  well_typed db -> history_ok db -> works_wf snarks ->
  exists db', update_snark_prover_fees bh slot snarks apply db = Ok db' /\ well_typed db' /\ writes_in fee_families db db' /\
    (u32 bh -> history_ok db') /\ (forall p o, stored_fees db p o -> stored_fees db' p (after_works p o snarks)).
Proof.
  intros Hdb Hh Hs. apply Forall_and in Hs as [Hpk Hu]. unfold update_snark_prover_fees.
  set (e := slot / MAINNET_EPOCH_SLOT_COUNT). set (o := match apply with SnarkApply => None | SnarkUnapply => Some bh end).
  destruct (old_fees_loop e o db snarks ∅ db Hdb Hh Hpk) as (olds & db1 & E1 & Hdb1 & Hw1 & Ho1 & Hm1);
    [frame|intros p x y Hx; by rewrite lookup_empty in Hx|].
  rewrite E1. cbn [mbind res_bind fst snd]. destruct (fees_frame db db1 Hw1) as [Hk1 Hh1].
  pose proof (prover_iter_perm (snark_prover_fees snarks)) as Hperm.
  destruct (update_fees_loop bh e apply olds (prover_iter (snark_prover_fees snarks)) db1) as (db2 & E2 & Hdb2 & Hw2 & Hh2 & Hn2 & Hk2).
  - rewrite Hperm. apply Forall_forall. intros [p f] Hin%elem_of_map_to_list. cbn [fst snd].
    destruct (prover_fees_provers _ _ _ Hin) as (s & Hs & <-). rewrite Forall_forall in Hpk. split; [by apply Hpk|].
    split; [by eapply prover_fees_u64|]. apply Hm1. right. by exists s.
  - done.
  - rewrite Hperm. apply NoDup_fst_map_to_list.
  - intros p x y _. apply Ho1.
  - exists db2. split_and!; [exact E2|done| |auto|].
    + eapply writes_in_trans; [apply (subset_families _ fee_families _ _ Hw1); done|done].
    + intros p x Hx%Hk1. unfold after_works. destruct (snark_prover_fees snarks !! p) as [f|] eqn:Hf.
      * apply (Hn2 p f); [rewrite Hperm; by apply elem_of_map_to_list|done].
      * apply Hk2; [|done]. rewrite Hperm. intros ([q g] & Eq & Hin%elem_of_map_to_list)%list_elem_of_fmap. cbn in Eq. subst. congruence.
Qed.

(** ** Properties *)

(** Unapplying the SNARK work of a block does to the fees of its provers what applying it does: their total is the old
    one and the fees of the work, and their highest and lowest fees take those of the work in;
    so a reorganisation counts the fees of the blocks that it takes off the best chain again. *)
Theorem unapplied_snark_fees_are_added bh slot snarks apply db :
  well_typed db -> history_ok db -> Forall (fun s => pk_wf (snark_prover s) /\ u64 (snark_fee s)) snarks ->
  exists db', update_snark_prover_fees bh slot snarks apply db = Ok db' /\
    (forall p f o, snark_prover_fees snarks !! p = Some f -> stored_fees db p o -> stored_fees db' p (new_fees o f)) /\
    (forall p o, snark_prover_fees snarks !! p = None -> stored_fees db p o -> stored_fees db' p o).
Proof.
  intros Hdb Hh Hs. destruct (update_snark_fees_spec bh slot snarks apply db Hdb Hh Hs) as (db' & E & _ & _ & _ & Hf).
  exists db'. split; [done|]. split.
  - intros p f o Ep Ho%Hf. unfold after_works in Ho. by rewrite Ep in Ho.
  - intros p o Ep Ho%Hf. unfold after_works in Ho. by rewrite Ep in Ho.
Qed.

(** ** The blocks of a reorganisation *)

Definition num_works (us : list SnarkUpdate) : Z := Z.of_nat (length (concat (su_works <$> us))).
Definition updates_wf (us : list SnarkUpdate) : Prop := Forall (fun u => works_wf (su_works u) /\ u32 (su_blockchain_length u)) us.

Definition after_blocks_works p (o : SnarkFees) (us : list SnarkUpdate) : SnarkFees := fold_left (after_works p) (su_works <$> us) o.

Lemma canonical_count_put n db : u32 n -> get_snarks_total_canonical_count (cf_put default_cf TOTAL_NUM_CANONICAL_SNARKS_KEY (u32_be n) db) = Ok n.
Proof.
  intros Hn. unfold get_snarks_total_canonical_count, expect_u32. rewrite cf_get_put, decide_True by done.
  by rewrite u32_from_be_bytes_be.
Qed.

(** The loop over the blocks: the count of works follows [count] and the fees take in those of the works. *)
Lemma snark_blocks_loop apply (change : Z -> Db -> res Db) (count : Z -> Z -> Z) us n db :
  (forall k m d, u32 m -> get_snarks_total_canonical_count d = Ok k -> u32 (count k m) ->
     change m d = Ok (cf_put default_cf TOTAL_NUM_CANONICAL_SNARKS_KEY (u32_be (count k m)) d)) ->
  (forall k vs, us = k ++ vs -> u32 (fold_left (fun n u => count n (Z.of_nat (length (su_works u)))) k n)) ->
  Forall (fun u => Z.of_nat (length (su_works u)) <= U32_MAX) us ->
  well_typed db -> history_ok db -> updates_wf us -> get_snarks_total_canonical_count db = Ok n ->
  exists db', foldM (fun db u => db ← change (wrap32 (Z.of_nat (length (su_works u)))) db;
      update_snark_prover_fees (su_blockchain_length u) (su_global_slot_since_genesis u) (su_works u) apply db) db us = Ok db' /\
    well_typed db' /\ history_ok db' /\ kept fee_families [TOTAL_NUM_CANONICAL_SNARKS_KEY] db db' /\
    get_snarks_total_canonical_count db' = Ok (fold_left (fun n u => count n (Z.of_nat (length (su_works u)))) us n) /\
    (forall p o, stored_fees db p o -> stored_fees db' p (after_blocks_works p o us)).
Proof.
  intros Hch. revert n db. induction us as [|u us IH]; intros n db Hn Hlen Hdb Hh Hus En; [by exists db|].
  apply Forall_cons in Hlen as [Hlen1 Hlen]. apply Forall_cons in Hus as [[Hw Hbh] Hus].
  pose proof (Hn [u] us eq_refl) as Hn1. cbn [fold_left] in Hn1. cbn [foldM].
  rewrite wrap32_id by ints. rewrite (Hch n) by (done || ints). cbn [mbind res_bind].
  set (db1 := cf_put _ _ _ db).
  assert (well_typed db1) as Hdb1 by (apply well_typed_put; [by apply has_type_u32|done]).
  assert (writes_in [default_cf] db db1) as Hwd by (unfold db1; frame).
  assert (history_ok db1) as Hh1 by (intros k v E; rewrite (writes_get _ _ _ _ _ Hwd) in E by done; by apply Hh).
  destruct (update_snark_fees_spec (su_blockchain_length u) (su_global_slot_since_genesis u) (su_works u) apply db1 Hdb1 Hh1 Hw)
    as (db2 & -> & Hdb2 & Hw2 & Hh2 & Hf2). cbn [mbind res_bind].
  destruct (IH (count n (Z.of_nat (length (su_works u)))) db2) as (db3 & -> & Hdb3 & Hh3 & Hk3 & E3 & Hf3); [|done|done|auto|done|..].
  { intros k vs E. apply (Hn (u :: k) vs). by rewrite E. }
  { unfold get_snarks_total_canonical_count, expect_u32. rewrite (writes_get _ _ _ _ _ Hw2) by done. by apply canonical_count_put. }
  exists db3. split_and!; [done|done|done| |done|].
  - eapply kept_trans; [|eapply kept_trans; [by apply kept_writes|exact Hk3]].
    by apply kept_put.
  - intros p o (t & m & k & E1 & E2 & E4 & ->). apply Hf3, Hf2. exists t, m, k.
    unfold get_snark_prover_total_fees, get_snark_prover_max_fee, get_snark_prover_min_fee, get_fee, u64_at in *.
    by rewrite !(writes_get _ _ _ _ _ Hwd) by done.
Qed.

Lemma num_works_cons u us : num_works (u :: us) = Z.of_nat (length (su_works u)) + num_works us.
Proof. unfold num_works. cbn [fmap list_fmap concat]. rewrite length_app. lia. Qed.
Lemma num_works_app us vs : num_works (us ++ vs) = num_works us + num_works vs.
Proof. unfold num_works. rewrite fmap_app, concat_app, length_app. lia. Qed.
Lemma num_works_each us : num_works us <= U32_MAX -> Forall (fun u => Z.of_nat (length (su_works u)) <= U32_MAX) us.
Proof.
  induction us as [|u us IH]; [constructor|]. rewrite num_works_cons. intros Hn. unfold num_works in Hn. constructor; [lia|]. apply IH. unfold num_works. lia.
Qed.
Lemma count_sub us n : fold_left (fun n u => n - Z.of_nat (length (su_works u))) us n = n - num_works us.
Proof. revert n. induction us as [|u us IH]; intros n; [unfold num_works; cbn; lia|]. cbn [fold_left]. rewrite IH, num_works_cons. lia. Qed.
Lemma count_add us n : fold_left (fun n u => n + Z.of_nat (length (su_works u))) us n = n + num_works us.
Proof. revert n. induction us as [|u us IH]; intros n; [unfold num_works; cbn; lia|]. cbn [fold_left]. rewrite IH, num_works_cons. lia. Qed.

(** The count of canonical works follows a reorganisation; the fees of both the blocks left and the new ones are added. *)
Lemma update_snarks_spec applied unapplied n db :
  well_typed db -> history_ok db -> updates_wf applied -> updates_wf unapplied -> 0 <= n ->
  get_snarks_total_canonical_count db = Ok (n + num_works unapplied) ->
  n + num_works unapplied <= U32_MAX -> n + num_works applied <= U32_MAX ->
  exists db', update_snarks (mkUpdate applied unapplied) db = Ok db' /\ well_typed db' /\ history_ok db' /\
    kept fee_families [TOTAL_NUM_CANONICAL_SNARKS_KEY] db db' /\
    get_snarks_total_canonical_count db' = Ok (n + num_works applied) /\
    (forall p o, stored_fees db p o -> stored_fees db' p (after_blocks_works p o (unapplied ++ applied))).
Proof.
  intros Hdb Hh Ha Hu Hn En Hle1 Hle2. unfold update_snarks. cbn [up_apply up_unapply].
  destruct (snark_blocks_loop SnarkUnapply decrement_snarks_total_canonical_count Z.sub unapplied (n + num_works unapplied) db)
    as (db1 & -> & Hdb1 & Hh1 & Hk1 & E1 & Hf1); [..|done|done|done|done|].
  { intros k m d Hm Ek Hkm. unfold decrement_snarks_total_canonical_count. rewrite Ek. cbn [mbind res_bind].
    unfold saturating_sub. by rewrite Z.max_r by ints. }
  { intros k vs E. rewrite count_sub, E, num_works_app. rewrite E, num_works_app in Hle1. unfold num_works in *. ints. }
  { apply num_works_each. lia. }
  cbn [mbind res_bind]. rewrite count_sub in E1.
  destruct (snark_blocks_loop SnarkApply increment_snarks_total_canonical_count Z.add applied n db1)
    as (db2 & -> & Hdb2 & Hh2 & Hk2 & E2 & Hf2); [..|done|done|done|rewrite E1; f_equal; lia|].
  { intros k m d Hm Ek Hkm. unfold increment_snarks_total_canonical_count. rewrite Ek. cbn [mbind res_bind]. by rewrite wrap32_id. }
  { intros k vs E. rewrite count_add. rewrite E, num_works_app in Hle2. unfold num_works in *. ints. }
  { apply num_works_each. lia. }
  rewrite count_add in E2. exists db2. split_and!; [done|done|done|by eapply kept_trans|done|].
  intros p o Ho. unfold after_blocks_works. rewrite fmap_app, fold_left_app. by apply Hf2, Hf1.
Qed.
End Fees.

(** * Examples *)

Section Examples.
#[local] Existing Instances map_db map_db_spec.
#[local] Instance prover_fees_json : Json SnarkFees := countable_json.
#[local] Instance provers_iter : ProverIter.
Proof. by exists map_to_list. Defined.

(** A work that is unapplied in an empty store leaves its fee. *)
Lemma unapplied_snark_fees_are_added_witness :
  exists db', update_snark_prover_fees 2 3 [mkSnark 5 pk_example] SnarkUnapply (∅ : Db) = Ok db' /\
    stored_fees db' pk_example (mkSnarkFees 5 5 5).
Proof.
  destruct (unapplied_snark_fees_are_added 2 3 [mkSnark 5 pk_example] SnarkUnapply (∅ : Db)) as (db' & E & Hn & _).
  - apply empty_well_typed.
  - intros k v Hk. cbn in Hk. by rewrite lookup_empty in Hk.
  - apply Forall_singleton. split; [exact pk_example_wf|vm_compute; split; discriminate].
  - exists db'. split; [exact E|].
    apply (Hn pk_example (mkSnarkFees 5 5 5) (mkSnarkFees 0 0 U64_MAX)); [reflexivity|].
    exists None, None, None. split_and!; reflexivity.
Defined.
End Examples.
