(* ===== verification/BestLedger.v ===== *)
(** The best ledger kept in the database (src/rust/src/store/best_ledger_store_impl.rs): the accounts of the chain of the best
    tip, by token account and by balance, with the views of zkapp accounts, and their update when the best tip moves. *)

From S2P Require Import Prelude Bytes Base StoreKeys Command AccountDiff Account Coinbase Precomputed LedgerDiff Ledger BlockOrder ColumnFamilies Db Events Codes Schema BlockIndex ZkappStore.

(** A token account. *)
Notation AccountKey := (PublicKey * TokenAddress)%type.

(** The order in which a hash map of token accounts yields its entries. *)
Class DiffIter := {
  diff_iter : gmap AccountKey (list AccountDiff) -> list (AccountKey * list AccountDiff);
  diff_iter_perm m : diff_iter m ≡ₚ map_to_list m
}.

(** Diffs per token account. *)
Definition aggregate_diff (m : gmap AccountKey (list AccountDiff)) (d : AccountDiff) : gmap AccountKey (list AccountDiff) :=
  let key := (public_key d, token_address d) in
  match m !! key with
  | Some diffs => <[key := diffs ++ [d]]> (delete key m)
  | None => <[key := [d]]> m
  end.
Definition aggregate_token_account_diffs (diffs : list AccountDiff) : gmap AccountKey (list AccountDiff) :=
  fold_left aggregate_diff diffs ∅.

(** The token accounts a block creates. *)
Definition update_token_accounts (new_pk_balances : NewBalances) : gset AccountKey :=
  list_to_set (map_to_list new_pk_balances ≫= fun e => (fun t => (e.1, t.1)) <$> map_to_list e.2).

(** [as i32] and 32-bit signed arithmetic *)
Definition as_i32 (z : Z) : Z := let w := wrap32 z in if w <? 2147483648 then w else w - 4294967296.

Notation DbAccountUpdate := (DbUpdate (list AccountDiff * gset AccountKey)).

Section Store.
Context `{Speedb} `{Json Account} `{Json string} `{Json LedgerDiff}.
Implicit Types (db : Db) (pk : PublicKey) (token : TokenAddress).

(** * Accounts *)

Definition get_best_account db pk token : res (option Account) :=
  key ← best_account_key token pk;
  map_res (fun bytes => expect (from_json bytes)) (cf_get db best_ledger_accounts_cf key).

Definition get_best_account_display db pk token : res (option Account) :=
  a ← get_best_account db pk token; Ok (option_map display a).

(** Removing an account needs to know its balance; [before] is whether it is a zkapp account, and its balance. *)
Definition remove_best_account pk token (before : option (bool * Z)) db : res Db :=
  match before with
  | Some (zkapp, balance) =>
    account_key ← best_account_key token pk;
    sort_key ← best_account_sort_key token balance pk;
    let db := cf_delete best_ledger_accounts_cf account_key db in
    let db := cf_delete best_ledger_accounts_balance_sort_cf sort_key db in
    Ok (if zkapp then
          let db := cf_delete zkapp_best_ledger_accounts_cf account_key db in
          cf_delete zkapp_best_ledger_accounts_balance_sort_cf sort_key db
        else db)
  | None => Ok db
  end.

(** The old place in the views by balance is removed. *)
Definition delete_stale pk token (before : option (bool * Z)) db : res Db :=
  match before with
  | Some (zkapp, balance) =>
    sort_key ← best_account_sort_key token balance pk;
    let db := cf_delete best_ledger_accounts_balance_sort_cf sort_key db in
    Ok (if zkapp then cf_delete zkapp_best_ledger_accounts_balance_sort_cf sort_key db else db)
  | None => Ok db
  end.

Definition update_best_account pk token (before : option (bool * Z)) (after : option Account) db : res Db :=
  match after with
  | None => remove_best_account pk token before db
  | Some after =>
    db ← delete_stale pk token before db;
    account_key ← best_account_key token pk;
    sort_key ← best_account_sort_key token (acct_balance after) pk;
    let db := cf_put best_ledger_accounts_cf account_key (to_json after) db in
    let db := cf_put best_ledger_accounts_balance_sort_cf sort_key (to_json after) db in
    Ok (if is_zkapp_account after then
          let db := cf_put zkapp_best_ledger_accounts_cf account_key (to_json after) db in
          cf_put zkapp_best_ledger_accounts_balance_sort_cf sort_key (to_json after) db
        else db)
  end.

(** * Delegations *)

Definition get_num_pk_delegations db pk : res Z := get_u32 db best_ledger_accounts_num_delegations_cf (pk_key pk).
Definition get_pk_delegation db pk (idx : Z) : res (option PublicKey) :=
  key ← pk_index_key pk idx; and_then_ok pk_from_bytes (cf_get db best_ledger_accounts_delegations_cf key).

Definition add_pk_delegate pk (delegate : PublicKey) db : res Db :=
  num ← get_num_pk_delegations db pk;
  let db := cf_put best_ledger_accounts_num_delegations_cf (pk_key pk) (succ_u32 num) db in
  key ← pk_index_key pk num;
  Ok (cf_put best_ledger_accounts_delegations_cf key (pk_key delegate) db).

Definition remove_pk_delegate pk db : res Db :=
  idx ← get_num_pk_delegations db pk;
  if 0 <? idx then
    let db := cf_put best_ledger_accounts_num_delegations_cf (pk_key pk) (u32_be (idx - 1)) db in
    key ← pk_index_key pk (idx - 1);
    Ok (cf_delete best_ledger_accounts_delegations_cf key db)
  else Ok db.

(** * The number of accounts *)

Definition get_num_accounts db : res (option Z) := opt_u32 db default_cf TOTAL_NUM_ACCOUNTS_KEY.

Definition update_num_accounts (adjust : Z) db : res Db :=
  match adjust ?= 0 with
  | Eq => Ok db
  | Gt => old ← ok_flatten (get_num_accounts db);
          Ok (cf_put default_cf TOTAL_NUM_ACCOUNTS_KEY (u32_be (saturating_add32 (default 0 old) (Z.abs adjust))) db)
  | Lt => old ← ok_flatten (get_num_accounts db);
          Ok (cf_put default_cf TOTAL_NUM_ACCOUNTS_KEY (u32_be (saturating_sub (default 0 old) (Z.abs adjust))) db)
  end.

(** * Blocks applied and unapplied *)

(** One diff of the token account, which also touches other stores. *)
Definition unapply_best_diff pk token (s : Account * Db) (diff : AccountDiff) : res (Account * Db) :=
  let '(after, db) := s in
  match diff with
  | DPayment d | DFeeTransfer d | DFeeTransferViaCoinbase d => Ok (payment_unapply after d, db)
  | DCoinbase d => Ok (coinbase_unapply after d, db)
  | DDelegation d => db ← remove_pk_delegate pk db; Ok (delegation_unapply after d, db)
  | DFailedTransactionNonce d => Ok (failed_transaction_unapply after d, db)
  | DZkappActions d =>
    r ← remove_actions pk token (wrap32 (Z.of_nat (length (ad_actions d)))) db; Ok (after, r.2)
  | DZkappEvents d =>
    r ← remove_events pk token (wrap32 (Z.of_nat (length (ed_events d)))) db; Ok (after, r.2)
  | DZkapp _ => Panic
  | _ => Ok (after, db)
  end.

Definition apply_best_diff (s : Account * Db) (diff : AccountDiff) : res (Account * Db) :=
  let '(after, db) := s in
  match diff with
  | DPayment d | DFeeTransfer d | DFeeTransferViaCoinbase d => Ok (payment after d, db)
  | DCoinbase d => Ok (coinbase after (cd_amount d), db)
  | DDelegation d => Ok (delegation after (delegate_to d) (dd_nonce d), db)
  | DFailedTransactionNonce d => Ok (failed_transaction after (fd_nonce d), db)
  | DZkappState d => a ← zkapp_state after d; Ok (a, db)
  | DZkappPermissions d => Ok (zkapp_permissions after d, db)
  | DZkappVerificationKey d => Ok (zkapp_verification_key after d, db)
  | DZkappUri d => Ok (zkapp_uri_apply after d, db)
  | DZkappTokenSymbol d => Ok (zkapp_token_symbol after d, db)
  | DZkappTiming d => Ok (zkapp_timing after d, db)
  | DZkappVotingFor d => Ok (zkapp_voting_for after d, db)
  | DZkappIncrementNonce d => Ok (zkapp_nonce after d, db)
  | DZkappAccountCreationFee d => a ← zkapp_account_creation after d; Ok (a, db)
  | DZkappActions d => r ← add_actions (ad_public_key d) (ad_token d) (ad_actions d) db; Ok (after, r.2)
  | DZkappEvents d => r ← add_events (ed_public_key d) (ed_token d) (ed_events d) db; Ok (after, r.2)
  | DZkapp _ => Panic
  end.

(** The diffs of one token account: the account, or an empty one, is read, changed and written back. *)
Definition update_token_account (step : PublicKey -> TokenAddress -> Account * Db -> AccountDiff -> res (Account * Db))
    db (e : AccountKey * list AccountDiff) : res Db :=
  let '((pk, token), diffs) := e in
  before ← get_best_account db pk token;
  let before_values := option_map (fun a => (is_zkapp_account a, acct_balance a)) before in
  s ← foldM (step pk token) (default (account_empty pk token) before, db) diffs;
  update_best_account pk token before_values (Some s.1) s.2.

Context `{DiffIter}.

Definition unapply_best_block db (b : list AccountDiff * gset AccountKey) : res Db :=
  db ← foldM (update_token_account unapply_best_diff) db (diff_iter (aggregate_token_account_diffs b.1));
  foldM (fun db key => update_best_account key.1 key.2 None None db) db (elements b.2).

Definition apply_best_block db (b : list AccountDiff * gset AccountKey) : res Db :=
  foldM (update_token_account (fun _ _ => apply_best_diff)) db (diff_iter (aggregate_token_account_diffs b.1)).

(** Newly applied accounts less the unapplied ones. *)
Definition adjust_accounts (updates : DbAccountUpdate) : Z :=
  let count b := as_i32 (Z.of_nat (size (snd b))) in
  let apply_acc := fold_left (fun acc b => as_i32 (acc + count b)) (up_apply updates) 0 in
  fold_left (fun acc b => as_i32 (acc - count b)) (up_unapply updates) apply_acc.

Definition update_best_accounts (updates : DbAccountUpdate) db : res Db :=
  db ← update_num_accounts (adjust_accounts updates) db;
  db ← foldM unapply_best_block db (up_unapply updates);
  foldM apply_best_block db (up_apply updates).

(** What a block does to accounts, nothing when its diff is not there. *)
Definition block_account_updates db (u : BlockUpdate) : res (list (list AccountDiff * gset AccountKey)) :=
  diff ← expect (get_block_ledger_diff db (bu_state_hash u));
  Ok (match diff with
      | Some d => [(concat (ld_account_diffs d), update_token_accounts (ld_new_pk_balances d))]
      | None => []
      end).

Definition update_block_best_accounts (blocks : DbBlockUpdate) db : res Db :=
  apply ← mapM (block_account_updates db) (up_apply blocks);
  unapply ← mapM (block_account_updates db) (up_unapply blocks);
  update_best_accounts (mkUpdate (concat apply) (concat unapply)) db.

(** * Iterators and the ledger *)

Definition best_ledger_account_balance_iterator db (mode : IteratorMode) :=
  iterator_cf db best_ledger_accounts_balance_sort_cf mode.
Definition zkapp_best_ledger_account_balance_iterator db (mode : IteratorMode) :=
  iterator_cf db zkapp_best_ledger_accounts_balance_sort_cf mode.

Definition build_best_ledger db : res (option Ledger) :=
  height ← get_best_block_height db;
  hash ← get_best_block_hash db;
  match height, hash with
  | Some _, Some _ =>
    accounts ← foldM (fun accounts e => a ← from_json (snd e); Ok (<[acct_public_key a := a]> accounts))
      (∅ : TokenLedger) (best_ledger_account_balance_iterator db IterEnd);
    Ok (Some (from_mina_ledger accounts))
  | _, _ => Ok None
  end.
End Store.

(** * Diffs per token account *)

Lemma aggregate_lookup ds m pk token :
  (fold_left aggregate_diff ds m) !! (pk, token) =
  match m !! (pk, token) with
  | Some l => Some (l ++ diffs_of pk token ds)
  | None => match diffs_of pk token ds with [] => None | l => Some l end
  end.
Proof.
  revert m. induction ds as [|d ds IH]; intros m; cbn [fold_left].
  { unfold diffs_of. rewrite filter_nil. destruct (m !! (pk, token)); [by rewrite app_nil_r|done]. }
  rewrite IH. unfold diffs_of, aggregate_diff. rewrite filter_cons. fold (key_of d).
  destruct (decide (key_of d = (pk, token))) as [E|Hne].
  - rewrite E. destruct (m !! (pk, token)) as [l|]; rewrite lookup_insert_eq; [by rewrite <- app_assoc|done].
  - assert (aggregate_diff m d !! (pk, token) = m !! (pk, token)) as Hm.
    { unfold aggregate_diff. fold (key_of d).
      destruct (m !! key_of d); rewrite lookup_insert_ne by done; [by rewrite lookup_delete_ne|done]. }
    unfold aggregate_diff in Hm. fold (key_of d) in Hm. by rewrite Hm.
Qed.

Lemma aggregate_spec ds pk token l :
  aggregate_token_account_diffs ds !! (pk, token) = Some l <-> l = diffs_of pk token ds /\ l <> [].
Proof.
  unfold aggregate_token_account_diffs. rewrite aggregate_lookup, lookup_empty.
  destruct (diffs_of pk token ds); naive_solver.
Qed.

(** * Unapplying keeps accounts well formed *)

Lemma nonce_unapply_wf o n : u32 n -> from_option u32 True (nonce_unapply o n).
Proof. intros Hn. unfold nonce_unapply. case_bool_decide; [done|]. apply nonce_sub_range; [done|lia]. Qed.

Lemma with_nonce_opt_wf a o : account_wf a -> from_option u32 True o -> account_wf (with_nonce o a).
Proof. intros (Hb & _ & Hz) Ho. by destruct a. Qed.

(** What a diff does to the account it is applied to, or unapplied from, in the store. *)
Definition best_unapply (a : Account) (d : AccountDiff) : res Account :=
  o ← unapply_account_diff a d false; expect_some o.
Definition best_apply (a : Account) (d : AccountDiff) : res Account :=
  match d with DZkappActions _ => Ok a | _ => apply_account_diff a d end.

(** A change that keeps the account well formed, its key, and its being a zkapp account. *)
Definition good_change (a a' : Account) : Prop :=
  account_wf a' /\ acct_public_key a' = acct_public_key a /\ (is_zkapp_account a = true -> is_zkapp_account a' = true).

Lemma payment_unapply_wf a d :
  account_wf a -> u64 (pd_amount d) /\ update_type_wf (update_type d) -> account_wf (payment_unapply a d).
Proof.
  intros Ha [Hd Hu]. unfold payment_unapply. destruct (update_type d) as [[n|]|]; simpl in *.
  - apply with_nonce_opt_wf; [|by apply nonce_unapply_wf]. apply with_balance_wf; [done|]. intros. apply amount_add_range.
  - apply with_nonce_opt_wf; [|apply Ha]. apply with_balance_wf; [done|]. intros. apply amount_add_range.
  - apply with_balance_wf; [done|]. intros. apply amount_sub_range; [done|]. apply Hd.
Qed.

Lemma best_unapply_ok a d : account_wf a -> diff_ok d -> exists a', best_unapply a d = Ok a' /\ good_change a a'.
Proof.
  intros Ha [Hd Hz]. unfold best_unapply, good_change.
  assert (forall p, u64 (pd_amount p) /\ update_type_wf (update_type p) -> good_change a (payment_unapply a p)) as Hp.
  { intros p Hpw. split; [by apply payment_unapply_wf|]. unfold payment_unapply. by destruct (update_type p), a. }
  destruct d; simpl in *; try done; eexists; (split; [reflexivity|]); try (by split); try (by apply Hp).
  - split; [|by destruct a]. apply with_nonce_opt_wf; [by destruct a|by apply nonce_unapply_wf].
  - split; [|by destruct a]. apply with_balance_wf; [done|]. intros. apply amount_sub_range; [done|]. apply Hd.
  - split; [|by destruct a]. apply with_nonce_opt_wf; [done|].
    destruct (_ >? _); [|done]. apply nonce_sub_range; [done|lia].
Qed.

Lemma apply_keeps_zkapp a d a' : apply_account_diff a d = Ok a' -> is_zkapp_account a = true -> is_zkapp_account a' = true.
Proof.
  assert (forall p, is_zkapp_account (payment a p) = is_zkapp_account a) as Hp.
  { intros p. unfold payment. by destruct (update_type p), a. }
  destruct d; cbn [apply_account_diff]; intros E Hz; try (injection E as <-); try (by rewrite ?Hp; destruct a); try done.
  all: try (apply bind_Ok in E as (? & _ & [= <-]); by destruct a).
Qed.

Lemma best_apply_ok a d :
  account_wf a -> acct_public_key a = public_key d -> diff_ok d -> exists a', best_apply a d = Ok a' /\ good_change a a'.
Proof.
  intros Ha Hpk Hd. unfold good_change.
  destruct (apply_account_diff_ok a d Ha (proj1 Hd) (diff_ok_applicable a d Hpk Hd)) as (a' & E & Hwf & Hk & _).
  assert (exists a', apply_account_diff a d = Ok a' /\ good_change a a') as Hex.
  { exists a'. split; [done|]. split; [done|]. split; [done|]. by apply (apply_keeps_zkapp a d). }
  destruct d; try exact Hex. by exists a.
Qed.

(** * The accounts in the database *)

(** The key of an account in a view by balance. *)
Definition balance_key (token : TokenAddress) (b : Z) (pk : PublicKey) : list Z :=
  as_bytes (token_str token) ++ u64_be b ++ pk_key pk.

Lemma best_account_key_ok token pk : token_wf token -> pk_wf pk -> best_account_key token pk = Ok (token_pk token pk).
Proof. intros Ht Hpk. unfold best_account_key. by unfold_key. Qed.
Lemma best_account_sort_key_ok token b pk :
  token_wf token -> pk_wf pk -> best_account_sort_key token b pk = Ok (balance_key token b pk).
Proof. intros Ht Hpk. unfold best_account_sort_key. by unfold_key. Qed.

Lemma token_bytes_inj s t (x y : list Z) :
  token_wf s -> token_wf t -> as_bytes (token_str s) ++ x = as_bytes (token_str t) ++ y -> s = t /\ x = y.
Proof.
  intros Hs Ht E. apply app_inj_1 in E as [E ->]; [|by rewrite !token_wf_len].
  apply as_bytes_inj in E. destruct s, t. simpl in E. by subst.
Qed.
Lemma token_pk_inj s t p q : token_wf s -> token_wf t -> token_pk s p = token_pk t q -> (p, s) = (q, t).
Proof. intros Hs Ht E. apply token_bytes_inj in E as [-> E]; [|done..]. apply pk_key_inj in E as ->. done. Qed.
Lemma balance_key_inj s t a b p q :
  token_wf s -> token_wf t -> u64 a -> u64 b -> balance_key s a p = balance_key t b q -> (p, s) = (q, t) /\ a = b.
Proof.
  intros Hs Ht Ha Hb E. apply token_bytes_inj in E as [-> E]; [|done..].
  apply app_inj_1 in E as [E E']; [|by rewrite !length_u64_be]. apply pk_key_inj in E' as ->. split; [done|].
  pose proof (u64_from_be_bytes_be a Ha) as E1. rewrite E, u64_from_be_bytes_be in E1 by done. congruence.
Qed.

(** The account at a balance, and the account as a zkapp account. *)
Definition at_balance (b : Z) (o : option Account) : option Account :=
  match o with Some a => if decide (acct_balance a = b) then Some a else None | None => None end.
Definition zkapp_only (o : option Account) : option Account :=
  match o with Some a => if is_zkapp_account a then Some a else None | None => None end.

(** Accounts by token account. *)
Notation Accounts := (PublicKey -> TokenAddress -> option Account).
Implicit Types (get : Accounts).

Definition accounts_wf get : Prop :=
  forall pk token a, get pk token = Some a -> acct_public_key a = pk /\ account_wf a.
Definition set_account get (pk : PublicKey) (token : TokenAddress) (a : Account) : Accounts :=
  fun pk' token' => if decide ((pk', token') = (pk, token)) then Some a else get pk' token'.

Section Accounts.
Context `{SpeedbSpec} `{JsonSpec Account}.
Implicit Types (db : Db) (pk : PublicKey) (token : TokenAddress) (a : Account).

(** The four views of the accounts. *)
Record best_accounts db get : Prop := {
  ba_account pk token : pk_wf pk -> token_wf token ->
    cf_get db best_ledger_accounts_cf (token_pk token pk) = to_json <$> get pk token;
  ba_zkapp pk token : pk_wf pk -> token_wf token ->
    cf_get db zkapp_best_ledger_accounts_cf (token_pk token pk) = to_json <$> zkapp_only (get pk token);
  ba_balance pk token b : pk_wf pk -> token_wf token -> u64 b ->
    cf_get db best_ledger_accounts_balance_sort_cf (balance_key token b pk) = to_json <$> at_balance b (get pk token);
  ba_zkapp_balance pk token b : pk_wf pk -> token_wf token -> u64 b ->
    cf_get db zkapp_best_ledger_accounts_balance_sort_cf (balance_key token b pk) =
      to_json <$> at_balance b (zkapp_only (get pk token))
}.

Definition account_families : list string :=
  [best_ledger_accounts_cf; best_ledger_accounts_balance_sort_cf; zkapp_best_ledger_accounts_cf;
   zkapp_best_ledger_accounts_balance_sort_cf].

Lemma best_accounts_frame cfs db db' get :
  writes_in cfs db db' -> forallb (fun cf => negb (family_in cfs cf)) account_families = true ->
  best_accounts db get -> best_accounts db' get.
Proof.
  intros Hw Hd Hb. assert (forall cf k, cf ∈ account_families -> cf_get db' cf k = cf_get db cf k) as Hg.
  { intros cf k Hcf. apply (writes_get _ _ _ _ _ Hw). rewrite forallb_forall in Hd.
    apply negb_true_iff, Hd. by apply list_elem_of_In. }
  split; intros; rewrite Hg by (by apply family_in_elem); by apply Hb.
Qed.

Lemma get_best_account_eq db get pk token :
  best_accounts db get -> pk_wf pk -> token_wf token -> get_best_account db pk token = Ok (get pk token).
Proof.
  intros Hb Hpk Ht. unfold get_best_account. rewrite best_account_key_ok by done. cbn [mbind res_bind].
  rewrite (ba_account _ _ Hb) by done. destruct (get pk token); [|done]. cbn [fmap option_fmap option_map map_res].
  by rewrite json_roundtrip.
Qed.

(** The old values of an account. *)
Notation values o := (option_map (fun a => (is_zkapp_account a, acct_balance a)) o).

(** The writes of an update: the old place by balance is cleared, then the new account is put at its places. *)
Lemma update_best_account_ok db pk token before a :
  pk_wf pk -> token_wf token ->
  update_best_account pk token before (Some a) db = Ok (
    let stale := match before with
                 | Some (z, b) => Delete best_ledger_accounts_balance_sort_cf (balance_key token b pk) ::
                     (if z : bool then [Delete zkapp_best_ledger_accounts_balance_sort_cf (balance_key token b pk)] else [])
                 | None => []
                 end in
    write (stale ++
      [Put best_ledger_accounts_cf (token_pk token pk) (to_json a);
       Put best_ledger_accounts_balance_sort_cf (balance_key token (acct_balance a) pk) (to_json a)] ++
      (if is_zkapp_account a then
         [Put zkapp_best_ledger_accounts_cf (token_pk token pk) (to_json a);
          Put zkapp_best_ledger_accounts_balance_sort_cf (balance_key token (acct_balance a) pk) (to_json a)] else [])) db).
Proof.
  intros Hpk Ht. unfold update_best_account, delete_stale.
  destruct before as [[z b]|]; rewrite ?best_account_sort_key_ok by done; cbn [mbind res_bind];
    rewrite best_account_key_ok by done; cbn [mbind res_bind];
    [destruct z|]; by destruct (is_zkapp_account a).
Qed.

(** The last write of a batch to a key, by families and keys that are known to differ. *)
Ltac last_writes :=
  cbn [app last_write op_cf op_key op_value];
  repeat first
    [ rewrite decide_True by congruence
    | rewrite decide_False by (first [done | congruence]) ].

(** Writing an account changes the four views at this account only. *)
Lemma update_best_account_spec db get pk token a :
  best_accounts db get -> accounts_wf get -> pk_wf pk -> token_wf token -> u64 (acct_balance a) ->
  (forall old, get pk token = Some old -> is_zkapp_account old = true -> is_zkapp_account a = true) ->
  exists db', update_best_account pk token (values (get pk token)) (Some a) db = Ok db' /\
    writes_in account_families db db' /\ best_accounts db' (set_account get pk token a).
Proof.
  intros Hb Hwf Hpk Ht Hbal Hz. rewrite update_best_account_ok by done. eexists. split; [reflexivity|].
  assert (forall old, get pk token = Some old -> u64 (acct_balance old)) as Hold by (intros old E; by apply (Hwf _ _ _ E)).
  assert (forall pk' token', token_wf token' -> (pk', token') <> (pk, token) -> token_pk token' pk' <> token_pk token pk) as Hk1
    by (intros pk' token' Ht' Hne E; by apply token_pk_inj in E).
  assert (forall pk' token' b b', token_wf token' -> u64 b -> u64 b' -> (pk', token', b) <> (pk, token, b') ->
    balance_key token' b pk' <> balance_key token b' pk) as Hk2
    by (intros pk' token' b b' Ht' Hub Hub' Hne E; apply balance_key_inj in E as [? ?]; [congruence|done..]).
  split.
  { eexists. split; [reflexivity|]. destruct (get pk token) as [old|]; cbn [option_map]; [destruct (is_zkapp_account old)|];
      destruct (is_zkapp_account a); cbn [app]; repeat constructor; by apply family_in_elem. }
  assert (forall pk' token' (b : Z), (pk', token') <> (pk, token) -> forall b', (pk', token', b) <> (pk, token, b')) as Hne3
    by congruence.
  split; [intros pk' token' Hpk' Ht'|intros pk' token' Hpk' Ht'|intros pk' token' b Hpk' Ht' Hub|intros pk' token' b Hpk' Ht' Hub];
    unfold set_account; rewrite write_get;
    destruct (decide ((pk', token') = (pk, token))) as [E|Hne];
    (destruct (get pk token) as [old|] eqn:Eo; cbn [option_map];
      [pose proof (Hold old eq_refl) as Ho; pose proof (Hz old eq_refl) as Hzo; destruct (is_zkapp_account old) eqn:Ezo|]);
    try (rewrite (Hzo eq_refl) in * );
    destruct (is_zkapp_account a) eqn:Eza; cbn [app].
  all: try (pose proof (Hk1 pk' token' Ht' Hne); last_writes; by apply Hb).
  all: try (pose proof (Hk2 pk' token' b _ Ht' Hub Hbal (Hne3 _ _ b Hne _));
            try (pose proof (Hk2 pk' token' b _ Ht' Hub Ho (Hne3 _ _ b Hne _))); last_writes; by apply Hb).
  all: injection E as -> ->.
  all: try (by specialize (Hzo eq_refl)).
  all: try (last_writes; rewrite ?(ba_zkapp _ _ Hb), ?Eo by done; cbn; by rewrite ?Eza, ?Ezo).
  all: destruct (decide (acct_balance a = b)) as [<-|Hab];
    [|pose proof (Hk2 pk token b _ Ht' Hub Hbal ltac:(congruence))].
  all: try (last_writes; rewrite ?(ba_zkapp_balance _ _ Hb), ?Eo by done; cbn; rewrite ?Eza, ?Ezo; cbn;
            by rewrite ?decide_True by done).
  all: try (destruct (decide (acct_balance old = b)) as [<-|Hob];
    [|pose proof (Hk2 pk token b _ Ht' Hub Ho ltac:(congruence))]).
  all: last_writes; rewrite ?(ba_balance _ _ Hb), ?(ba_zkapp_balance _ _ Hb), ?Eo by done; cbn; rewrite ?Eza, ?Ezo; cbn;
    by rewrite ?decide_False by done.
Qed.
End Accounts.

(** * Blocks *)

(** The accounts after the diffs of a block, each token account on its own. *)
Definition after_block (f : Account -> AccountDiff -> res Account) (ds : list AccountDiff) get : Accounts :=
  fun pk token =>
    match diffs_of pk token ds with
    | [] => get pk token
    | mine => match foldM f (default (account_empty pk token) (get pk token)) mine with Ok a => Some a | _ => None end
    end.

(** The families that diffs write to besides those of the accounts. *)
Definition side_families : list string :=
  [zkapp_actions_cf; zkapp_actions_pk_num_cf; zkapp_events_cf; zkapp_events_pk_num_cf;
   best_ledger_accounts_num_delegations_cf; best_ledger_accounts_delegations_cf].

Section Blocks.
Context `{SpeedbSpec} `{JsonSpec Account} `{Json string} `{DiffIter}.
Variables (step : PublicKey -> TokenAddress -> Account * Db -> AccountDiff -> res (Account * Db))
  (change : Account -> AccountDiff -> res Account) (good : AccountDiff -> Prop).
Hypothesis Hchange : forall a d, account_wf a -> acct_public_key a = public_key d -> good d ->
  exists a', change a d = Ok a' /\ good_change a a'.
Hypothesis Hstep : forall a db d a', good d -> well_typed db -> acct_public_key a = public_key d -> change a d = Ok a' ->
  exists db', step (public_key d) (token_address d) (a, db) d = Ok (a', db') /\
    writes_in side_families db db' /\ well_typed db'.
Hypothesis Hkeys : forall d, good d -> pk_wf (public_key d) /\ token_wf (token_address d).
Implicit Types (db : Db) (pk : PublicKey) (token : TokenAddress) (a : Account).

Lemma diffs_loop pk token ds a db :
  Forall (fun d => key_of d = (pk, token) /\ good d) ds -> account_wf a -> acct_public_key a = pk -> well_typed db ->
  exists a' db', foldM change a ds = Ok a' /\ foldM (step pk token) (a, db) ds = Ok (a', db') /\
    good_change a a' /\ writes_in side_families db db' /\ well_typed db'.
Proof.
  intros Hds. revert a db. induction Hds as [|d ds [Hk Hd] _ IH]; intros a db Ha Hpk Hdb.
  { exists a, db. split; [done|]. split; [done|]. split; [by split|]. split; [apply writes_in_refl|done]. }
  injection Hk as Hk1 Hk2. destruct (Hchange a d Ha) as (a1 & E1 & Ha1 & Hp1 & Hz1); [congruence|done|].
  destruct (Hstep a db d a1 Hd Hdb) as (db1 & E2 & Hw1 & Hdb1); [congruence|done|].
  rewrite Hk1, Hk2 in E2. destruct (IH a1 db1 Ha1) as (a' & db' & E3 & E4 & (Ha' & Hp' & Hz') & Hw' & Hdb'); [congruence|done|].
  exists a', db'. cbn [foldM]. rewrite E1, E2. cbn [mbind res_bind]. split; [done|]. split; [done|].
  split; [split; [done|]; split; [congruence|auto]|]. split; [|done]. by eapply writes_in_trans.
Qed.

Lemma account_type cf k v : cf ∈ account_families -> has_type (value_type cf k) v.
Proof. intros Hcf. unfold account_families in Hcf. set_unfold in Hcf. by destruct Hcf as [->|[->|[->|[->|[]]]]]. Qed.

Lemma update_token_account_spec db get pk token ds :
  best_accounts db get -> accounts_wf get -> well_typed db -> pk_wf pk -> token_wf token ->
  Forall (fun d => key_of d = (pk, token) /\ good d) ds ->
  exists a db', foldM change (default (account_empty pk token) (get pk token)) ds = Ok a /\
    update_token_account step db ((pk, token), ds) = Ok db' /\ well_typed db' /\
    best_accounts db' (set_account get pk token a) /\ accounts_wf (set_account get pk token a) /\
    writes_in (account_families ++ side_families) db db'.
Proof.
  intros Hb Hwf Hdb Hpk Ht Hds. unfold update_token_account. rewrite (get_best_account_eq db get) by done.
  cbn [mbind res_bind]. set (before := default (account_empty pk token) (get pk token)).
  assert (account_wf before /\ acct_public_key before = pk) as [Hbw Hbp].
  { unfold before. destruct (get pk token) as [old|] eqn:Eo; [|split; [apply account_empty_wf|done]].
    split; by apply (Hwf _ _ _ Eo). }
  destruct (diffs_loop pk token ds before db Hds Hbw Hbp Hdb) as (a & db1 & E1 & E2 & (Ha & Hap & Haz) & Hw1 & Hdb1).
  rewrite E2. cbn [mbind res_bind fst snd].
  assert (best_accounts db1 get) as Hb1 by (by apply (best_accounts_frame side_families db)).
  destruct (update_best_account_spec db1 get pk token a Hb1 Hwf Hpk Ht) as (db' & E3 & Hw3 & Hb3); [apply Ha| |].
  { intros old Eo Hz. apply Haz. unfold before. by rewrite Eo. }
  exists a, db'. split; [done|]. split; [exact E3|]. split.
  { destruct Hw3 as (batch & -> & Hf). apply well_typed_write; [|done]. apply (Forall_impl _ _ _ Hf).
    intros [cf k v|] Hcf; [|done]. by apply account_type. }
  split; [done|]. split.
  { intros pk' token' a' E. unfold set_account in E. destruct (decide _) as [[= -> ->]|]; [|by apply Hwf in E].
    injection E as <-. split; [congruence|done]. }
  eapply writes_in_trans; (eapply subset_families; [eassumption|reflexivity]).
Qed.

Lemma entries_loop es db get :
  NoDup es.*1 -> best_accounts db get -> accounts_wf get -> well_typed db ->
  Forall (fun e => pk_wf e.1.1 /\ token_wf e.1.2 /\ Forall (fun d => key_of d = e.1 /\ good d) e.2) es ->
  exists db' get', foldM (update_token_account step) db es = Ok db' /\ well_typed db' /\
    best_accounts db' get' /\ accounts_wf get' /\ writes_in (account_families ++ side_families) db db' /\
    (forall key ds, (key, ds) ∈ es -> exists a,
       foldM change (default (account_empty key.1 key.2) (get key.1 key.2)) ds = Ok a /\ get' key.1 key.2 = Some a) /\
    (forall key, key ∉ es.*1 -> get' key.1 key.2 = get key.1 key.2).
Proof.
  intros Hnd Hb Hwf Hdb Hes. revert db get Hnd Hb Hwf Hdb.
  induction Hes as [|[[pk token] ds] es (Hpk & Ht & Hds) _ IH]; intros db get Hnd Hb Hwf Hdb.
  { exists db, get. split; [done|]. do 3 (split; [done|]). split; [apply writes_in_refl|].
    split; [|done]. by intros key ds Hin%elem_of_nil. }
  cbn [fst snd] in *. apply NoDup_cons in Hnd as [Hni Hnd]. cbn [fst] in Hni.
  destruct (update_token_account_spec db get pk token ds) as (a & db1 & E1 & E2 & Hdb1 & Hb1 & Hwf1 & Hw1); [done..|].
  destruct (IH db1 _ Hnd Hb1 Hwf1 Hdb1) as (db' & get' & E3 & Hdb' & Hb' & Hwf' & Hw' & Hin & Hout).
  exists db', get'. cbn [foldM]. rewrite E2. cbn [mbind res_bind].
  split; [done|]. do 3 (split; [done|]). split; [by eapply writes_in_trans|].
  assert (forall key, key <> (pk, token) -> set_account get pk token a key.1 key.2 = get key.1 key.2) as Hother.
  { intros [p t] Hne. unfold set_account. by rewrite decide_False. }
  split.
  - intros key ds' [[= -> ->]|Hk]%elem_of_cons.
    + exists a. split; [done|]. rewrite (Hout _ Hni). unfold set_account. by rewrite decide_True.
    + destruct (Hin _ _ Hk) as (a' & E & E'). exists a'. split; [|done]. rewrite <- E. do 2 f_equal. symmetry.
      apply Hother. intros ->. apply Hni. apply list_elem_of_fmap. by exists ((pk, token), ds').
  - intros key Hk. cbn [fmap list_fmap fst] in Hk. apply not_elem_of_cons in Hk as [Hne Hk]. rewrite Hout by done. by apply Hother.
Qed.

Lemma best_accounts_ext db get get' :
  best_accounts db get -> (forall pk token, get' pk token = get pk token) -> best_accounts db get'.
Proof. intros Hb He. split; intros; rewrite He; by apply Hb. Qed.

(** The diffs of a block change each token account on its own, in whatever order the accounts come. *)
Lemma block_diffs_spec ds db get :
  best_accounts db get -> accounts_wf get -> well_typed db -> Forall good ds ->
  exists db', foldM (update_token_account step) db (diff_iter (aggregate_token_account_diffs ds)) = Ok db' /\
    well_typed db' /\ best_accounts db' (after_block change ds get) /\ accounts_wf (after_block change ds get) /\
    writes_in (account_families ++ side_families) db db'.
Proof.
  intros Hb Hwf Hdb Hds. set (m := aggregate_token_account_diffs ds).
  assert (forall e, e ∈ diff_iter m <-> m !! e.1 = Some e.2) as Hm.
  { intros [k l]. rewrite (diff_iter_perm m). apply elem_of_map_to_list. }
  destruct (entries_loop (diff_iter m) db get) as (db' & get' & E & Hdb' & Hb' & Hwf' & Hw' & Hin & Hout); [|done..| |].
  { rewrite (diff_iter_perm m). apply NoDup_fst_map_to_list. }
  { apply Forall_forall. intros [[pk token] l] He. apply Hm in He. cbn [fst snd] in *.
    apply aggregate_spec in He as [-> Hne].
    assert (Forall (fun d => key_of d = (pk, token) /\ good d) (diffs_of pk token ds)) as Hf.
    { apply Forall_forall. intros d Hd. apply list_elem_of_filter in Hd as [Hk Hd]. split; [done|].
      rewrite Forall_forall in Hds. auto. }
    destruct (diffs_of pk token ds) as [|d l]; [done|]. pose proof (Forall_inv Hf) as [Hk Hd].
    injection Hk as <- <-. destruct (Hkeys d Hd). done. }
  assert (forall pk token, after_block change ds get pk token = get' pk token) as He.
  { intros pk token. unfold after_block. destruct (diffs_of pk token ds) as [|d l] eqn:Ed.
    - symmetry. apply (Hout (pk, token)). intros ([[p t] l] & E' & Hk)%list_elem_of_fmap. cbn [fst] in E'.
      injection E' as <- <-. apply Hm in Hk. cbn [fst snd] in Hk. apply aggregate_spec in Hk as [-> ?]. congruence.
    - destruct (Hin (pk, token) (d :: l)) as (a & E1 & E2); [|cbn [fst snd] in *; by rewrite E1].
      apply Hm. apply aggregate_spec. by rewrite Ed. }
  exists db'. split; [done|]. split; [done|]. split; [by apply (best_accounts_ext db' get')|]. split; [|done].
  intros pk token a. rewrite He. apply Hwf'.
Qed.
End Blocks.

(** Diffs that can be applied, and unapplied: keys have their length, and no actions or events are unapplied. *)
Definition keys_wf (d : AccountDiff) : Prop := pk_wf (public_key d) /\ token_wf (token_address d).
Definition good_apply (d : AccountDiff) : Prop :=
  diff_ok d /\ keys_wf d /\
  match d with DZkappActions d => token_wf (ad_token d) | DZkappEvents d => token_wf (ed_token d) | _ => True end.
Definition good_unapply (d : AccountDiff) : Prop :=
  diff_ok d /\ keys_wf d /\ match d with DZkappActions _ | DZkappEvents _ => False | _ => True end.

Section Steps.
Context `{SpeedbSpec} `{JsonSpec Account} `{Json string}.
Implicit Types (db : Db) (pk : PublicKey) (token : TokenAddress) (a : Account).

Lemma add_items_total items_cf num_cf pk token added db :
  pk_wf pk -> token_wf token -> well_typed db -> items_cf <> num_cf ->
  (forall k, value_type num_cf k = TU32) -> (forall k, value_type items_cf k = TAny) ->
  exists n db', add_items items_cf num_cf token_pk_index_key token_pk_key pk token added db = Ok (n, db') /\
    writes_in [items_cf; num_cf] db db' /\ well_typed db'.
Proof.
  intros Hpk Ht Hdb Hne Hn Hi. unfold add_items, get_num_items, opt_u32. rewrite token_pk_key_ok by done. cbn [mbind res_bind].
  destruct (map_u32_typed db num_cf (token_pk token pk) Hdb (Hn _)) as (o & -> & Ho). cbn [mbind res_bind].
  assert (u32 (default 0 o)) as Hu by (destruct o; cbn; [by apply Ho|ints]). clear Ho. revert Hu. generalize (default 0 o) as n.
  assert (forall added n db, u32 n -> well_typed db -> exists n' db', 
    foldM (fun s item => db ← set_item items_cf token_pk_index_key pk token item s.1 s.2; Ok (wrap32 (s.1 + 1), db)) (n, db) added
      = Ok (n', db') /\ u32 n' /\ writes_in [items_cf; num_cf] db db' /\ well_typed db') as Hl.
  { clear - Hpk Ht Hi H0. induction added as [|x added IH]; intros n db Hu Hdb.
    { exists n, db. split; [done|]. split; [done|]. split; [apply writes_in_refl|done]. }
    cbn [foldM fst snd]. rewrite set_item_ok by done. cbn [mbind res_bind].
    destruct (IH (wrap32 (n + 1)) (cf_put items_cf (token_pk_index token pk n) (to_json x) db)) as (n' & db' & E & Hu' & Hw & Hdb').
    { apply u32_wrap32. } { apply well_typed_put; [by rewrite Hi|done]. }
    exists n', db'. split; [done|]. split; [done|]. split; [|done].
    eapply writes_in_trans; [|exact Hw]. apply writes_in_put. set_solver. }
  intros n Hu. destruct (Hl added n db Hu Hdb) as (n' & db' & E & Hu' & Hw & Hdb'). rewrite E. cbn [mbind res_bind fst snd].
  do 2 eexists. split; [reflexivity|]. split.
  - eapply writes_in_trans; [exact Hw|]. apply writes_in_put. set_solver.
  - apply well_typed_put; [|done]. rewrite Hn. by apply has_type_u32.
Qed.

Lemma remove_pk_delegate_ok pk db :
  pk_wf pk -> well_typed db ->
  exists db', remove_pk_delegate pk db = Ok db' /\ writes_in side_families db db' /\ well_typed db'.
Proof.
  intros Hpk Hdb. unfold remove_pk_delegate, get_num_pk_delegations.
  destruct (get_u32_typed db best_ledger_accounts_num_delegations_cf (pk_key pk) Hdb eq_refl) as (n & Hn & ->). cbn [mbind res_bind].
  destruct (0 <? n) eqn:E; [|exists db; split; [done|]; split; [apply writes_in_refl|done]].
  rewrite pk_index_key_ok by done. cbn [mbind res_bind]. eexists. split; [reflexivity|].
  split; [unfold side_families; frame|]. apply well_typed_delete, well_typed_put; [|done]. apply has_type_u32. ints.
Qed.

Lemma apply_best_diff_spec a db d a' :
  good_apply d -> well_typed db -> acct_public_key a = public_key d -> best_apply a d = Ok a' ->
  exists db', apply_best_diff (a, db) d = Ok (a', db') /\ writes_in side_families db db' /\ well_typed db'.
Proof.
  intros (_ & [Hpk _] & Ht) Hdb Hk E.
  assert (writes_in side_families db db) as Hrefl by apply writes_in_refl.
  destruct d; cbn [best_apply apply_account_diff apply_best_diff public_key] in *; try (injection E as <-); try (by exists db).
  - exists db. rewrite bool_decide_eq_true_2 in E by done. injection E as <-. done.
  - exists db. rewrite E. done.
  - destruct (add_items_total zkapp_actions_cf zkapp_actions_pk_num_cf _ _ (ad_actions d) db Hpk Ht Hdb) as (n & db' & E & Hw & Hdb'); [done..|].
    exists db'. assert (add_actions (ad_public_key d) (ad_token d) (ad_actions d) db = Ok (n, db')) as -> by exact E. split; [done|]. split; [|done].
    by apply (subset_families _ _ _ _ Hw).
  - destruct (add_items_total zkapp_events_cf zkapp_events_pk_num_cf _ _ (ed_events d) db Hpk Ht Hdb) as (n & db' & E & Hw & Hdb'); [done..|].
    exists db'. assert (add_events (ed_public_key d) (ed_token d) (ed_events d) db = Ok (n, db')) as -> by exact E. split; [done|]. split; [|done].
    by apply (subset_families _ _ _ _ Hw).
  - exists db. rewrite E. done.
Qed.

Lemma unapply_best_diff_spec a db d a' :
  good_unapply d -> well_typed db -> acct_public_key a = public_key d -> best_unapply a d = Ok a' ->
  exists db', unapply_best_diff (public_key d) (token_address d) (a, db) d = Ok (a', db') /\
    writes_in side_families db db' /\ well_typed db'.
Proof.
  intros (_ & [Hpk _] & Ht) Hdb Hk E.
  assert (writes_in side_families db db) as Hrefl by apply writes_in_refl.
  destruct d; unfold best_unapply in E; cbn [unapply_account_diff unapply_best_diff public_key mbind res_bind expect_some] in *;
    try (injection E as <-); try (by exists db); try done.
  destruct (remove_pk_delegate_ok (delegator d) db Hpk Hdb) as (db' & E & Hw & Hdb'). exists db'. rewrite E. done.
Qed.
End Steps.

(** * Reorganisations *)

Definition after_blocks (f : Account -> AccountDiff -> res Account) (bs : list (list AccountDiff)) get : Accounts :=
  fold_left (fun get ds => after_block f ds get) bs get.

(** The diffs of a block in one list, and the number of token accounts it creates. *)
Definition block_diffs (d : LedgerDiff) : list AccountDiff := concat (ld_account_diffs d).
Definition created (d : LedgerDiff) : Z := Z.of_nat (size (update_token_accounts (ld_new_pk_balances d))).
Definition clamp32 (z : Z) : Z := Z.max 0 (Z.min U32_MAX z).

Lemma as_i32_id z : -2147483648 <= z < 2147483648 -> as_i32 z = z.
Proof.
  unfold as_i32, wrap32. intros Hz.
  assert (z mod 4294967296 = z \/ z mod 4294967296 = z + 4294967296) as Hm.
  { destruct (Z.lt_ge_cases z 0); [right|left; apply Z.mod_small; lia]. symmetry. apply (Z.mod_unique z _ (-1)); lia. }
  destruct (z mod 4294967296 <? 2147483648) eqn:E; [apply Z.ltb_lt in E|apply Z.ltb_ge in E]; lia.
Qed.

Lemma created_nonneg ds : 0 <= sumZ (created <$> ds).
Proof. apply sumZ_nonneg. apply Forall_fmap, Forall_true. intros d. unfold created. simpl. lia. Qed.

(** No overflow: the number of accounts changes by those created less those no longer created. *)
Lemma adjust_accounts_eq applied unapplied :
  sumZ (created <$> applied) + sumZ (created <$> unapplied) < 2147483648 ->
  adjust_accounts (mkUpdate ((fun d => (block_diffs d, update_token_accounts (ld_new_pk_balances d))) <$> applied)
                            ((fun d => (block_diffs d, update_token_accounts (ld_new_pk_balances d))) <$> unapplied)) =
  sumZ (created <$> applied) - sumZ (created <$> unapplied).
Proof.
  intros Hb. unfold adjust_accounts. cbn [up_apply up_unapply].
  set (u := fun d => (block_diffs d, update_token_accounts (ld_new_pk_balances d))).
  assert (forall ds acc, 0 <= acc -> acc + sumZ (created <$> ds) < 2147483648 ->
    fold_left (fun acc b => as_i32 (acc + as_i32 (Z.of_nat (size b.2)))) (u <$> ds) acc = acc + sumZ (created <$> ds)) as H1.
  { induction ds as [|d ds IH]; intros acc Ha Hs; [cbn; lia|]. rewrite !fmap_cons, sumZ_cons in *. cbn [fold_left].
    pose proof (created_nonneg ds). change (Z.of_nat (size (u d).2)) with (created d).
    assert (0 <= created d) by (unfold created; lia).
    rewrite (as_i32_id (created d)), as_i32_id by lia. rewrite IH by lia. lia. }
  assert (forall ds acc, acc < 2147483648 -> -2147483648 <= acc - sumZ (created <$> ds) ->
    sumZ (created <$> ds) < 2147483648 ->
    fold_left (fun acc b => as_i32 (acc - as_i32 (Z.of_nat (size b.2)))) (u <$> ds) acc = acc - sumZ (created <$> ds)) as H2.
  { induction ds as [|d ds IH]; intros acc Ha Hs Hsm; [cbn; lia|]. rewrite !fmap_cons, sumZ_cons in *. cbn [fold_left].
    pose proof (created_nonneg ds). change (Z.of_nat (size (u d).2)) with (created d).
    assert (0 <= created d) by (unfold created; lia).
    rewrite (as_i32_id (created d)), as_i32_id by lia. rewrite IH by lia. lia. }
  pose proof (created_nonneg applied). pose proof (created_nonneg unapplied).
  rewrite H1 by lia. rewrite H2; lia.
Qed.

Section Reorgs.
Context `{SpeedbSpec} `{JsonSpec Account} `{Json string} `{JsonSpec LedgerDiff} `{DiffIter}.
Implicit Types (db : Db) (pk : PublicKey) (token : TokenAddress) (a : Account).

Lemma apply_blocks_loop bs db get :
  best_accounts db get -> accounts_wf get -> well_typed db -> Forall (fun b => Forall good_apply b.1) bs ->
  exists db', foldM apply_best_block db bs = Ok db' /\ well_typed db' /\
    best_accounts db' (after_blocks best_apply bs.*1 get) /\ accounts_wf (after_blocks best_apply bs.*1 get) /\
    writes_in (account_families ++ side_families) db db'.
Proof.
  intros Hb Hwf Hdb Hbs. revert db get Hb Hwf Hdb. induction Hbs as [|b bs Hd _ IH]; intros db get Hb Hwf Hdb.
  { exists db. do 4 (split; [done|]). apply writes_in_refl. }
  destruct (block_diffs_spec (fun _ _ => apply_best_diff) best_apply good_apply) with (ds := b.1) (db := db) (get := get)
    as (db1 & E1 & Hdb1 & Hb1 & Hwf1 & Hw1); [|intros; by apply apply_best_diff_spec|by intros d (_ & Hk & _)|done..|].
  { intros a d Ha Hk (Hok & _). by apply best_apply_ok. }
  destruct (IH db1 _ Hb1 Hwf1 Hdb1) as (db' & E & Hdb' & Hb' & Hwf' & Hw').
  exists db'. cbn [foldM].
  change (apply_best_block db b) with (foldM (update_token_account (fun _ _ => apply_best_diff)) db (diff_iter (aggregate_token_account_diffs b.1))). rewrite E1. do 4 (split; [done|]). by eapply writes_in_trans.
Qed.

Lemma unapply_blocks_loop bs db get :
  best_accounts db get -> accounts_wf get -> well_typed db -> Forall (fun b => Forall good_unapply b.1) bs ->
  exists db', foldM unapply_best_block db bs = Ok db' /\ well_typed db' /\
    best_accounts db' (after_blocks best_unapply bs.*1 get) /\ accounts_wf (after_blocks best_unapply bs.*1 get) /\
    writes_in (account_families ++ side_families) db db'.
Proof.
  intros Hb Hwf Hdb Hbs. revert db get Hb Hwf Hdb. induction Hbs as [|b bs Hd _ IH]; intros db get Hb Hwf Hdb.
  { exists db. do 4 (split; [done|]). apply writes_in_refl. }
  destruct (block_diffs_spec unapply_best_diff best_unapply good_unapply) with (ds := b.1) (db := db) (get := get)
    as (db1 & E1 & Hdb1 & Hb1 & Hwf1 & Hw1); [|intros; by apply unapply_best_diff_spec|by intros d (_ & Hk & _)|done..|].
  { intros a d Ha Hk (Hok & _). by apply best_unapply_ok. }
  destruct (IH db1 _ Hb1 Hwf1 Hdb1) as (db' & E & Hdb' & Hb' & Hwf' & Hw').
  exists db'. cbn [foldM].
  replace (unapply_best_block db b) with (Ok db1); [by do 4 (split; [done|]); eapply writes_in_trans|].
  unfold unapply_best_block. rewrite E1. cbn [mbind res_bind].
  assert (forall (l : list AccountKey) db, foldM (fun db key => update_best_account key.1 key.2 None None db) db l = Ok db) as ->
    by (by induction l).
  done.
Qed.

Lemma update_num_accounts_spec adjust n db :
  well_typed db -> get_u32 db default_cf TOTAL_NUM_ACCOUNTS_KEY = Ok n -> Z.abs adjust < 2147483648 ->
  exists db', update_num_accounts adjust db = Ok db' /\ well_typed db' /\ writes_in [default_cf] db db' /\
    get_u32 db' default_cf TOTAL_NUM_ACCOUNTS_KEY = Ok (clamp32 (n + adjust)).
Proof.
  intros Hdb En Ha. unfold update_num_accounts.
  destruct (get_u32_typed db default_cf TOTAL_NUM_ACCOUNTS_KEY Hdb eq_refl) as (n' & Hn & En').
  assert (n' = n) as -> by congruence.
  assert (exists o, ok_flatten (get_num_accounts db) = Ok o /\ default 0 o = n) as (o & Eo & Ed).
  { unfold get_num_accounts, opt_u32. unfold get_u32 in En. destruct (cf_get db default_cf _) as [v|]; cbn [map_res].
    - rewrite En. by exists (Some n).
    - exists None. split; [done|]. cbn. congruence. }
  assert (forall m, u32 m -> m = clamp32 (n + adjust) -> exists db',
    Ok (cf_put default_cf TOTAL_NUM_ACCOUNTS_KEY (u32_be m) db) = Ok db' /\ well_typed db' /\ writes_in [default_cf] db db' /\
    get_u32 db' default_cf TOTAL_NUM_ACCOUNTS_KEY = Ok (clamp32 (n + adjust))) as Hput.
  { intros m Hm <-. eexists. split; [reflexivity|]. split; [apply well_typed_put; [by apply has_type_u32|done]|].
    split; [apply writes_in_put; set_solver|]. unfold get_u32. get_put. by apply from_be_bytes_u32. }
  unfold clamp32 in *. destruct (Z.compare_spec adjust 0) as [->|Hlt|Hgt].
  - exists db. split; [done|]. split; [done|]. split; [apply writes_in_refl|]. rewrite En. f_equal. ints.
  - rewrite Eo. cbn [mbind res_bind]. rewrite Ed. apply Hput; ints.
  - rewrite Eo. cbn [mbind res_bind]. rewrite Ed. apply Hput; ints.
Qed.

(** The blocks of an update have these ledger diffs. *)
Lemma update_num_accounts_touches adjust db : touches [] [TOTAL_NUM_ACCOUNTS_KEY] (update_num_accounts adjust db) db.
Proof.
  unfold update_num_accounts. destruct (adjust ?= 0); [apply touches_ok|..]; apply touches_pure; intros o; by apply touches_put.
Qed.

Definition stored_diffs db (us : list BlockUpdate) (ds : list LedgerDiff) : Prop :=
  Forall2 (fun u d => cf_get db block_ledger_diff_cf (sh_key (bu_state_hash u)) = Some (to_json d)) us ds.

Notation account_update := (fun d => (block_diffs d, update_token_accounts (ld_new_pk_balances d))).

Lemma stored_updates db us ds :
  stored_diffs db us ds -> exists ls, mapM (block_account_updates db) us = Ok ls /\ concat ls = account_update <$> ds.
Proof.
  intros Hs. induction Hs as [|u d us ds Hd _ (ls & E & El)]; [by exists []|].
  assert (block_account_updates db u = Ok [account_update d]) as Eu.
  { unfold block_account_updates, get_block_ledger_diff. rewrite Hd. cbn [and_then_ok]. by rewrite json_roundtrip. }
  exists ([account_update d] :: ls). cbn [mapM]. rewrite Eu. cbn [mbind res_bind]. rewrite E. cbn [mbind res_bind concat].
  split; [done|]. by rewrite El.
Qed.

Lemma update_block_best_accounts_spec db get blocks applied unapplied n :
  best_accounts db get -> accounts_wf get -> well_typed db ->
  stored_diffs db (up_apply blocks) applied -> stored_diffs db (up_unapply blocks) unapplied ->
  Forall good_apply (concat (block_diffs <$> applied)) -> Forall good_unapply (concat (block_diffs <$> unapplied)) ->
  sumZ (created <$> applied) + sumZ (created <$> unapplied) < 2147483648 ->
  get_u32 db default_cf TOTAL_NUM_ACCOUNTS_KEY = Ok n ->
  let get' := after_blocks best_apply (block_diffs <$> applied) (after_blocks best_unapply (block_diffs <$> unapplied) get) in
  exists db', update_block_best_accounts blocks db = Ok db' /\ well_typed db' /\ best_accounts db' get' /\ accounts_wf get' /\
    get_u32 db' default_cf TOTAL_NUM_ACCOUNTS_KEY = Ok (clamp32 (n + sumZ (created <$> applied) - sumZ (created <$> unapplied))) /\
    kept (account_families ++ side_families) [TOTAL_NUM_ACCOUNTS_KEY] db db'.
Proof.
  intros Hb Hwf Hdb Hsa Hsu Hga Hgu Hc En get'. unfold update_block_best_accounts, update_best_accounts.
  destruct (stored_updates db _ _ Hsa) as (la & -> & Ela). destruct (stored_updates db _ _ Hsu) as (lu & -> & Elu).
  cbn [mbind res_bind]. rewrite Ela, Elu, adjust_accounts_eq by done. cbn [up_apply up_unapply].
  pose proof (created_nonneg applied). pose proof (created_nonneg unapplied).
  destruct (update_num_accounts_spec (sumZ (created <$> applied) - sumZ (created <$> unapplied)) n db Hdb En)
    as (db1 & E1 & Hdb1 & Hw1 & En1); [lia|]. pose proof (update_num_accounts_touches _ _ _ E1) as Hk1. rewrite E1. cbn [mbind res_bind].
  assert (best_accounts db1 get) as Hb1 by (by apply (best_accounts_frame [default_cf] db)).
  assert (forall (P : AccountDiff -> Prop) ds, Forall P (concat (block_diffs <$> ds)) ->
    Forall (fun b => Forall P b.1) (account_update <$> ds)) as HF.
  { intros P ds HP. apply Forall_fmap. rewrite Forall_concat, Forall_fmap in HP. exact HP. }
  assert (forall ds, (account_update <$> ds).*1 = block_diffs <$> ds) as Hfst
    by (intros ds; rewrite <- list_fmap_compose; done).
  destruct (unapply_blocks_loop (account_update <$> unapplied) db1 get) as (db2 & -> & Hdb2 & Hb2 & Hwf2 & Hw2); [auto..|].
  cbn [mbind res_bind]. rewrite Hfst in Hb2, Hwf2.
  destruct (apply_blocks_loop (account_update <$> applied) db2 _ Hb2 Hwf2 Hdb2) as (db3 & -> & Hdb3 & Hb3 & Hwf3 & Hw3); [auto|].
  rewrite Hfst in Hb3, Hwf3. exists db3. do 4 (split; [done|]). split.
  - rewrite (writes_get_u32 _ _ _ _ _ Hw3), (writes_get_u32 _ _ _ _ _ Hw2), En1 by done. do 2 f_equal. lia.
  - eapply kept_trans; [by eapply kept_weaken|]. eapply kept_trans; apply kept_writes; (eapply subset_families; [eassumption|reflexivity]).
Qed.

(** When the best tip moves, every account of the best ledger becomes what unapplying the diffs of the blocks left and
    then applying those of the new blocks makes of it, each token account on its own and in the order of the diffs, starting
    from an empty account when there is none; this holds for any order in which the accounts of a block are visited, for
    the accounts, the zkapp accounts and their views by balance alike, and the number of accounts follows. *)
Theorem best_ledger_follows_reorg db get blocks applied unapplied n :
  best_accounts db get -> accounts_wf get -> well_typed db ->
  stored_diffs db (up_apply blocks) applied -> stored_diffs db (up_unapply blocks) unapplied ->
  Forall good_apply (concat (block_diffs <$> applied)) -> Forall good_unapply (concat (block_diffs <$> unapplied)) ->
  sumZ (created <$> applied) + sumZ (created <$> unapplied) < 2147483648 ->
  get_u32 db default_cf TOTAL_NUM_ACCOUNTS_KEY = Ok n ->
  let get' := after_blocks best_apply (block_diffs <$> applied) (after_blocks best_unapply (block_diffs <$> unapplied) get) in
  exists db', update_block_best_accounts blocks db = Ok db' /\ best_accounts db' get' /\
    (forall pk token, pk_wf pk -> token_wf token -> get_best_account db' pk token = Ok (get' pk token)) /\
    get_u32 db' default_cf TOTAL_NUM_ACCOUNTS_KEY =
      Ok (clamp32 (n + sumZ (created <$> applied) - sumZ (created <$> unapplied))).
Proof.
  intros Hb Hwf Hdb Hsa Hsu Hga Hgu Hc En get'.
  destruct (update_block_best_accounts_spec db get blocks applied unapplied n) as (db' & E & _ & Hb' & _ & En' & _); [done..|].
  exists db'. do 2 (split; [done|]). split; [|done]. intros. by apply get_best_account_eq.
Qed.

Lemma Forall_diffs_of (P : AccountDiff -> Prop) pk token ds : Forall P ds -> Forall P (diffs_of pk token ds).
Proof. rewrite !Forall_forall. intros HP d Hd. apply list_elem_of_filter in Hd as [_ Hd]. auto. Qed.

(** ** The ledger of the blocks *)

Definition no_actions (d : AccountDiff) : bool := match d with DZkappActions _ => false | _ => true end.

Lemma best_apply_same ds a : Forall (fun d => no_actions d = true) ds -> foldM best_apply a ds = foldM apply_account_diff a ds.
Proof.
  intros Hds. revert a. induction Hds as [|d ds Hd _ IH]; intros a; [done|]. cbn [foldM].
  replace (best_apply a d) with (apply_account_diff a d) by (by destruct d). destruct (apply_account_diff a d); [apply IH|done..].
Qed.

(** Without actions, the accounts after a block are those of the ledger after the block. *)
Lemma after_block_ledger l d :
  ledger_wf l -> Forall good_apply (block_diffs d) -> Forall (fun d => no_actions d = true) (block_diffs d) ->
  exists l', ledger_apply_diff l d = Ok l' /\ ledger_wf l' /\
    forall pk token, after_block best_apply (block_diffs d) (get_account l) pk token = get_account l' pk token.
Proof.
  intros Hl Hd Hn. destruct (foldM_ledger_ok (block_diffs d) l Hl) as (l' & E & Hl' & Hs).
  { apply (Forall_impl _ _ _ Hd). by intros x (Hx & _). }
  exists l'. split; [done|]. split; [done|]. intros pk token. destruct (Hs pk token) as (H7 & H8 & H9).
  assert (Forall (fun d => no_actions d = true) (diffs_of pk token (block_diffs d))) as Hn' by (by apply Forall_diffs_of).
  unfold after_block. destruct (diffs_of pk token (block_diffs d)) as [|x mine]; [symmetry; by apply H8|].
  rewrite best_apply_same by done. fold (account_or_empty l pk token). rewrite H7. symmetry. by apply H9.
Qed.

Lemma after_block_ext f ds get1 get2 :
  (forall pk token, get1 pk token = get2 pk token) -> forall pk token, after_block f ds get1 pk token = after_block f ds get2 pk token.
Proof. intros He pk token. unfold after_block. by rewrite He. Qed.
Lemma after_blocks_ext f bs get1 get2 :
  (forall pk token, get1 pk token = get2 pk token) -> forall pk token, after_blocks f bs get1 pk token = after_blocks f bs get2 pk token.
Proof.
  revert get1 get2. induction bs as [|ds bs IH]; intros get1 get2 He; [done|]. cbn [after_blocks fold_left].
  apply IH. by apply after_block_ext.
Qed.

Lemma after_blocks_ledger ds l :
  ledger_wf l -> Forall good_apply (concat (block_diffs <$> ds)) ->
  Forall (fun d => no_actions d = true) (concat (block_diffs <$> ds)) ->
  exists l', foldM ledger_apply_diff l ds = Ok l' /\ ledger_wf l' /\
    forall pk token, after_blocks best_apply (block_diffs <$> ds) (get_account l) pk token = get_account l' pk token.
Proof.
  revert l. induction ds as [|d ds IH]; intros l Hl Hg Hn; [by exists l|].
  rewrite fmap_cons in *. cbn [concat] in Hg, Hn. apply Forall_app in Hg as [Hg1 Hg2]. apply Forall_app in Hn as [Hn1 Hn2].
  destruct (after_block_ledger l d Hl Hg1 Hn1) as (l1 & E1 & Hl1 & He1).
  destruct (IH l1 Hl1 Hg2 Hn2) as (l' & E & Hl' & He). exists l'. cbn [foldM]. rewrite E1. do 2 (split; [done|]).
  intros pk token. rewrite <- He. cbn [after_blocks fold_left]. by apply after_blocks_ext.
Qed.

(** C11: The best ledger kept in the database refines the ledger: when the best tip moves up a chain of blocks without zkapp
    actions, the database that held the accounts of a ledger holds those of the ledger with the diffs of the blocks applied
    in order, both by account and by balance. *)
Theorem best_ledger_refines_ledger db l us applied n :
  best_accounts db (get_account l) -> ledger_wf l -> well_typed db -> stored_diffs db us applied ->
  Forall good_apply (concat (block_diffs <$> applied)) ->
  Forall (fun d => no_actions d = true) (concat (block_diffs <$> applied)) ->
  sumZ (created <$> applied) < 2147483648 -> get_u32 db default_cf TOTAL_NUM_ACCOUNTS_KEY = Ok n ->
  exists db' l', update_block_best_accounts (mkUpdate us []) db = Ok db' /\ foldM ledger_apply_diff l applied = Ok l' /\
    best_accounts db' (get_account l') /\
    (forall pk token, pk_wf pk -> token_wf token -> get_best_account db' pk token = Ok (get_account l' pk token)) /\
    get_u32 db' default_cf TOTAL_NUM_ACCOUNTS_KEY = Ok (clamp32 (n + sumZ (created <$> applied))).
Proof.
  intros Hb Hl Hdb Hs Hg Hn Hc En. destruct (after_blocks_ledger applied l Hl Hg Hn) as (l' & E' & Hl' & He).
  destruct (update_block_best_accounts_spec db (get_account l) (mkUpdate us []) applied [] n) as (db' & E & _ & Hb' & _ & En' & _);
    [done..|by constructor|done|by constructor|rewrite Z.add_0_r; done|done|].
  exists db', l'. do 2 (split; [done|]). assert (best_accounts db' (get_account l')) as Hb2.
  { apply (best_accounts_ext db' _ _ Hb'). intros pk token. symmetry. apply He. }
  split; [done|]. split; [intros; by apply get_best_account_eq|]. rewrite En'. cbn [fmap list_fmap sumZ foldr]. by rewrite Z.sub_0_r.
Qed.

(** ** Accounts of unapplied blocks *)

Lemma best_unapply_all ds a :
  account_wf a -> Forall good_unapply ds -> exists a', foldM best_unapply a ds = Ok a'.
Proof.
  intros Ha Hds. revert a Ha. induction Hds as [|d ds [Hd _] _ IH]; intros a Ha; [by exists a|].
  destruct (best_unapply_ok a d Ha Hd) as (a1 & E & Ha1 & _). cbn [foldM]. rewrite E. cbn [mbind res_bind]. by apply IH.
Qed.

(** Unapplying a block does not remove the accounts it created: each of them with a diff in the block is still in the
    best ledger, although the number of accounts is lowered by the number of accounts created, since the removal is called
    without the account's old values and does nothing. *)
Theorem created_accounts_remain db get u d n pk token :
  best_accounts db get -> accounts_wf get -> well_typed db -> stored_diffs db [u] [d] ->
  Forall good_unapply (block_diffs d) -> created d < 2147483648 -> get_u32 db default_cf TOTAL_NUM_ACCOUNTS_KEY = Ok n ->
  (pk, token) ∈ update_token_accounts (ld_new_pk_balances d) -> diffs_of pk token (block_diffs d) <> [] ->
  pk_wf pk -> token_wf token ->
  exists db' a, update_block_best_accounts (mkUpdate [] [u]) db = Ok db' /\ get_best_account db' pk token = Ok (Some a) /\
    get_u32 db' default_cf TOTAL_NUM_ACCOUNTS_KEY = Ok (clamp32 (n - created d)).
Proof.
  intros Hb Hwf Hdb Hs Hg Hc En Hin Hne Hpk Ht.
  destruct (update_block_best_accounts_spec db get (mkUpdate [] [u]) [] [d] n) as (db' & E & _ & Hb' & _ & En' & _);
    [done..|by constructor|done|by constructor|cbn; by rewrite app_nil_r|cbn; lia|done|].
  assert (account_wf (default (account_empty pk token) (get pk token))) as Ha.
  { destruct (get pk token) as [a|] eqn:Ea; [by apply (Hwf _ _ _ Ea)|apply account_empty_wf]. }
  destruct (best_unapply_all (diffs_of pk token (block_diffs d)) _ Ha) as (a & Ea); [by apply Forall_diffs_of|].
  exists db', a. split; [done|]. rewrite (get_best_account_eq db' _ pk token Hb') by done.
  cbn [fmap list_fmap after_blocks fold_left]. split.
  - unfold after_block. destruct (diffs_of pk token (block_diffs d)); [done|]. by rewrite Ea.
  - rewrite En'. cbn. do 2 f_equal. lia.
Qed.
End Reorgs.

(** * Examples *)

Definition diff_example : LedgerDiff :=
  mkLedgerDiff 2 sh_default lh_default None [pk_example] {[pk_example := {[token_default := 5]}]}
    [[DPayment (mkPaymentDiff Credit pk_example 5 token_default)]].
Definition update_example : BlockUpdate := mkBlockUpdate sh_default 2 3.

Section Examples.
#[local] Existing Instances map_db map_db_spec.
#[local] Instance account_json : Json Account := countable_json.
#[local] Instance string_json : Json string := countable_json.
#[local] Instance ledger_diff_json : Json LedgerDiff := countable_json.
#[local] Instance diffs_in_order : DiffIter := {| diff_iter := map_to_list; diff_iter_perm m := Permutation_refl _ |}.

(** A store with the diff of one block. *)
Definition best_example : Db := cf_put block_ledger_diff_cf (sh_key sh_default) (to_json diff_example) (∅ : Db).

Lemma best_example_get cf k : cf_get best_example cf k = if decide ((cf, k) = (block_ledger_diff_cf, sh_key sh_default)) then Some (to_json diff_example) else None.
Proof. unfold best_example. rewrite cf_get_put. by destruct (decide _). Qed.
Lemma best_example_typed : well_typed best_example.
Proof. apply well_typed_put; [done|apply empty_well_typed]. Qed.
Lemma best_example_accounts : best_accounts best_example (get_account ∅).
Proof. split; intros; by rewrite best_example_get, decide_False. Qed.
Lemma best_example_stored : stored_diffs best_example [update_example] [diff_example].
Proof. constructor; [by rewrite best_example_get, decide_True|constructor]. Qed.
Lemma empty_ledger_wf : ledger_wf ∅.
Proof. by intros pk token a E. Qed.
Lemma token_default_wf : token_wf token_default.
Proof. split; vm_compute; reflexivity. Qed.
Lemma payment_example_ok : diff_ok (DPayment (mkPaymentDiff Credit pk_example 5 token_default)) /\
  keys_wf (DPayment (mkPaymentDiff Credit pk_example 5 token_default)).
Proof. split; [split; [split; [split; vm_compute; discriminate|done]|done]|]. split; [apply pk_example_wf|apply token_default_wf]. Qed.

Lemma best_ledger_follows_reorg_witness :
  exists db' a, update_block_best_accounts (mkUpdate [update_example] []) best_example = Ok db' /\
    get_best_account db' pk_example token_default = Ok (Some a) /\ acct_balance a = 5.
Proof.
  destruct (best_ledger_follows_reorg best_example (get_account ∅) (mkUpdate [update_example] []) [diff_example] [] 0)
    as (db' & E & _ & Hg & _).
  - exact best_example_accounts.
  - exact empty_ledger_wf.
  - exact best_example_typed.
  - exact best_example_stored.
  - constructor.
  - apply Forall_singleton. split; [apply payment_example_ok|]. split; [apply payment_example_ok|done].
  - constructor.
  - vm_compute. reflexivity.
  - reflexivity.
  - exists db'. eexists. split; [exact E|]. split; [exact (Hg _ _ pk_example_wf token_default_wf)|]. reflexivity.
Defined.

Lemma best_ledger_refines_ledger_witness :
  exists db' l', update_block_best_accounts (mkUpdate [update_example] []) best_example = Ok db' /\
    ledger_apply_diff ∅ diff_example = Ok l' /\
    get_best_account db' pk_example token_default = Ok (get_account l' pk_example token_default).
Proof.
  destruct (best_ledger_refines_ledger best_example ∅ [update_example] [diff_example] 0) as (db' & l' & E & El & _ & Hg & _).
  - exact best_example_accounts.
  - exact empty_ledger_wf.
  - exact best_example_typed.
  - exact best_example_stored.
  - apply Forall_singleton. split; [apply payment_example_ok|]. split; [apply payment_example_ok|done].
  - by apply Forall_singleton.
  - vm_compute. reflexivity.
  - reflexivity.
  - exists db', l'. split; [exact E|]. split; [|exact (Hg _ _ pk_example_wf token_default_wf)].
    cbn [foldM] in El. destruct (ledger_apply_diff ∅ diff_example); [exact El|done..].
Defined.

Lemma created_accounts_remain_witness :
  exists db' a, update_block_best_accounts (mkUpdate [] [update_example]) best_example = Ok db' /\
    get_best_account db' pk_example token_default = Ok (Some a).
Proof.
  destruct (created_accounts_remain best_example (get_account ∅) update_example diff_example 0 pk_example token_default)
    as (db' & a & E & Hg & _).
  - exact best_example_accounts.
  - exact empty_ledger_wf.
  - exact best_example_typed.
  - exact best_example_stored.
  - apply Forall_singleton. split; [apply payment_example_ok|]. split; [apply payment_example_ok|done].
  - vm_compute. reflexivity.
  - reflexivity.
  - vm_compute. reflexivity.
  - vm_compute. discriminate.
  - exact pk_example_wf.
  - exact token_default_wf.
  - exists db', a. split; [exact E|exact Hg].
Defined.
End Examples.
