(* ===== verification/StagedStore.v ===== *)
(** Staged ledgers (src/rust/src/store/staged_ledger_store_impl.rs, and [get_best_ledger] of best_ledger_store_impl.rs): the
    accounts of the ledgers that are stored, at a few blocks only; the ledger of another block is computed from the one
    stored at an ancestor and the diffs of the blocks since. *)

From S2P Require Import Prelude Sorting Bytes Base StoreKeys AccountDiff Account Coinbase Precomputed LedgerDiff Ledger ColumnFamilies Db Events Codes Schema BlockIndex ZkappStore Canonicity BestLedger.

(** The orders in which the hash maps of a ledger yield their entries. *)
Class LedgerIter := {
  token_iter : Ledger -> list (TokenAddress * TokenLedger);
  token_iter_perm l : token_iter l ≡ₚ map_to_list l;
  account_iter : TokenLedger -> list (PublicKey * Account);
  account_iter_perm tl : account_iter tl ≡ₚ map_to_list tl
}.

(** Every account of a ledger, token by token. *)
Definition ledger_entries `{LedgerIter} (l : Ledger) : list (TokenAddress * PublicKey * Account) :=
  concat ((fun e => (fun a => (e.1, a.1, a.2)) <$> account_iter e.2) <$> token_iter l).

Definition MAINNET_GENESIS_LEDGER_HASH : string := "jx7buQVWFLsXTtzRgSxbYcT8EYLS8KCZbLrfDcJxMtyy4thw2Ee".
Definition HARDFORK_GENESIS_LEDGER_HASH : string := "jwNw4qb6tnNhpQNxiMLem9WumxZTwmbSx3fYXW4FP3hZRkoQJSE".

Section Store.
Context `{Speedb} `{Json Account} `{Json LedgerDiff} `{Json (list StateHash)} `{Json IndexerEvent} `{LedgerIter}.
Implicit Types (db : Db) (h : StateHash) (pk : PublicKey) (token : TokenAddress).

(** * Accounts *)

Definition get_pk_min_staged_ledger_block db pk : res (option Z) := opt_u32 db staged_ledger_accounts_min_block_cf (pk_key pk).
Definition set_pk_min_staged_ledger_block pk (block_height : Z) db : Db :=
  cf_put staged_ledger_accounts_min_block_cf (pk_key pk) (u32_be block_height) db.

Definition set_staged_account_raw_bytes pk token h (balance block_height : Z) (account_serde_bytes : list Z) db : res Db :=
  min ← get_pk_min_staged_ledger_block db pk;
  let db := if block_height <? default U32_MAX min then set_pk_min_staged_ledger_block pk block_height db else db in
  key ← staged_account_key h token pk;
  let db := cf_put staged_ledger_accounts_cf key account_serde_bytes db in
  sort_key ← staged_account_balance_sort_key h token balance pk;
  Ok (cf_put staged_ledger_account_balance_sort_cf sort_key account_serde_bytes db).

Definition set_staged_account pk token h (block_height : Z) (account : Account) db : res Db :=
  set_staged_account_raw_bytes pk token h (acct_balance account) block_height (to_json account) db.

(** The walk from a block to the closest ancestor at which the account is stored; the blocks on the way, in the order in
    which their diffs are applied. *)
Fixpoint walk_to_account (fuel : nat) pk token h (blocks : list StateHash) db : option (res (StateHash * list StateHash)) :=
  match fuel with
  | O => None
  | S fuel =>
    match staged_account_key h token pk with
    | Ok key =>
      match cf_get db staged_ledger_accounts_cf key with
      | Some _ => Some (Ok (h, blocks))
      | None =>
        match get_block_parent_hash db h with
        | Ok (Some parent) => walk_to_account fuel pk token parent (h :: blocks) db
        | Ok None | Err => Some Err
        | Panic => Some Panic
        end
      end
    | Err => Some Err
    | Panic => Some Panic
    end
  end.

Definition apply_block_diff db (a : Account) h : res Account :=
  diff ← ok_flatten (get_block_ledger_diff db h);
  match diff with Some diff => account_apply_ledger_diff a diff | None => Ok a end.

Definition read_staged_account db pk token h : res Account :=
  key ← staged_account_key h token pk;
  a ← and_then_ok from_json (cf_get db staged_ledger_accounts_cf key);
  expect_some a.

(** Whether the account is in a ledger at the height of the block or below. *)
Definition staged_low_enough db pk h : res bool :=
  min ← get_pk_min_staged_ledger_block db pk;
  match min with
  | Some min => height ← get_block_height db h;
                Ok (match height with Some height => negb (height <? min) | None => true end)
  | None => Ok false
  end.

Definition get_staged_account (fuel : nat) db pk token h : option (res (option Account)) :=
  match staged_low_enough db pk h with
  | Ok false => Some (Ok None)
  | Ok true =>
    found ← walk_to_account fuel pk token h [] db;
    Some ('(h, blocks) ← found; a ← read_staged_account db pk token h; a ← foldM (apply_block_diff db) a blocks; Ok (Some a))
  | Err => Some Err
  | Panic => Some Panic
  end.

Definition get_staged_account_display (fuel : nat) db pk token h : option (res (option Account)) :=
  a ← get_staged_account fuel db pk token h; Some (a ← a; Ok (option_map display a)).

Definition get_staged_account_block_height (fuel : nat) db pk token (block_height : Z) : option (res (option Account)) :=
  match get_canonical_hash_at_height db block_height with
  | Ok (Some h) => get_staged_account fuel db pk token h
  | Ok None | Err => Some Err
  | Panic => Some Panic
  end.

(** * Ledgers *)

Definition get_block_staged_ledger_hash db h : res (option LedgerHash) :=
  map_res (fun bytes => expect (lh_from_bytes bytes)) (cf_get db block_staged_ledger_hash_cf (sh_key h)).
Definition get_staged_ledger_block_state_hash db (ledger_hash : LedgerHash) : res (option StateHash) :=
  map_res (fun bytes => expect (sh_from_bytes bytes)) (cf_get db staged_ledger_hash_to_block_cf (as_bytes (lh_str ledger_hash))).

(** Whether the ledger of the block is new, and that it is stored from now on. *)
Definition add_staged_ledger_hash h db : bool * Db :=
  match cf_get db staged_ledgers_persisted_cf (sh_key h) with
  | Some _ => (false, db)
  | None => (true, cf_put staged_ledgers_persisted_cf (sh_key h) [] db)
  end.

Definition new_ledger_event h (blockchain_length : Z) (ledger_hash : LedgerHash) db : res Db :=
  '(_, db) ← add_event (EventDb (DbLedger (NewLedger h blockchain_length ledger_hash))) db; Ok db.

(** The event of a ledger that is new: those of the genesis blocks have no block. *)
Definition announce_ledger h db : res Db :=
  let mainnet := bool_decide (sh_str h = MAINNET_GENESIS_PREV_STATE_HASH) in
  let hardfork := bool_decide (sh_str h = HARDFORK_GENESIS_PREV_STATE_HASH) in
  let '(new_mainnet, db) := if mainnet then add_staged_ledger_hash h db else (false, db) in
  if new_mainnet then new_ledger_event h 0 (mkLh MAINNET_GENESIS_LEDGER_HASH) db
  else
    let '(new_hardfork, db) := if hardfork then add_staged_ledger_hash h db else (false, db) in
    if new_hardfork then new_ledger_event h (HARDFORK_GENESIS_BLOCKCHAIN_LENGTH - 1) (mkLh HARDFORK_GENESIS_LEDGER_HASH) db
    else
      ledger_hash ← get_block_staged_ledger_hash db h;
      match ledger_hash with
      | Some ledger_hash =>
        let '(is_new, db) := add_staged_ledger_hash h db in
        if is_new then height ← get_block_height db h; height ← expect_some height; new_ledger_event h height ledger_hash db
        else Ok db
      | None => if mainnet || hardfork then Ok db else Err
      end.

Definition add_staged_accounts h (ledger : Ledger) (block_height : Z) db : res Db :=
  foldM (fun db e => set_staged_account e.1.2 e.1.1 h block_height e.2 db) db (ledger_entries ledger).

Definition add_staged_ledger_at_state_hash h (ledger : Ledger) (block_height : Z) db : res Db :=
  db ← add_staged_accounts h ledger block_height db;
  db ← announce_ledger h db;
  Ok (cf_put staged_ledgers_persisted_cf (sh_key h) [] db).

Definition add_genesis_ledger h (genesis_ledger : Ledger) (height : Z) db : res Db :=
  known_prev ← get_known_genesis_prev_state_hashes db;
  let db := if bool_decide (h ∈ known_prev) then db
            else cf_put default_cf KNOWN_GENESIS_PREV_STATE_HASHES_KEY (to_json (known_prev ++ [h])) db in
  db ← foldM (fun db e => update_best_account e.1.2 e.1.1 None (Some e.2) db) db (ledger_entries genesis_ledger);
  add_staged_ledger_at_state_hash h genesis_ledger height db.

(** ** Reading a ledger *)

(** From the last key of the ledger, in reverse, the walk overshoots its tokens. *)
Definition staged_ledger_account_balance_iterator db h (direction : Direction) : list (list Z * list Z) :=
  iterator_cf db staged_ledger_account_balance_sort_cf
    (match direction with
     | Forward => IterFromForward (sh_key h)
     | Reverse => IterFromReverse (sh_key h ++ token_upper_bound ++ as_bytes "C")
     end).

Fixpoint insert_accounts h (entries : list (list Z * list Z)) (ledger : Ledger) : res Ledger :=
  match entries with
  | [] => Ok ledger
  | (key, value) :: entries =>
    split ← split_staged_account_balance_sort_key key;
    match split with
    | Some (key_state_hash, token, _, _) =>
      if bool_decide (key_state_hash <> h) then Ok ledger
      else account ← expect (from_json value); insert_accounts h entries (insert_account ledger account token)
    | None => Panic
    end
  end.

Definition build_staged_ledger db h : res (option Ledger) :=
  ledger ← insert_accounts h (staged_ledger_account_balance_iterator db h Reverse) ∅; Ok (Some ledger).

(** The walk from a block to the closest ancestor whose ledger is stored, with the diffs on the way in the order in which
    they are applied; no ledger when a block is missing.  When the parent is missing the walk does not move. *)
Fixpoint walk_to_ledger (fuel : nat) h (diffs : list LedgerDiff) db : option (res (option (StateHash * list LedgerDiff))) :=
  match fuel with
  | O => None
  | S fuel =>
    match cf_get db staged_ledgers_persisted_cf (sh_key h) with
    | Some _ => Some (Ok (Some (h, diffs)))
    | None =>
      match get_block_ledger_diff db h with
      | Ok (Some diff) =>
        match get_block_parent_hash db h with
        | Ok (Some parent) => walk_to_ledger fuel parent (diff :: diffs) db
        | Ok None | Err => walk_to_ledger fuel h (diff :: diffs) db
        | Panic => Some Panic
        end
      | Ok None => Some (Ok None)
      | Err => Some Err
      | Panic => Some Panic
      end
    end
  end.

Definition memoize_ledger h (ledger : Ledger) db : res Db :=
  height ← get_block_height db h;
  match height with Some height => add_staged_ledger_at_state_hash h ledger height db | None => Err end.

Definition ledger_from_ancestor h (memoize : bool) db (found : option (StateHash * list LedgerDiff)) : res (option Ledger * Db) :=
  match found with
  | Some (ancestor, diffs) =>
    ledger ← ok_flatten (build_staged_ledger db ancestor);
    match ledger with
    | Some ledger =>
      ledger ← ledger_apply_diff ledger (append_vec diffs);
      db ← if memoize then memoize_ledger h ledger db else Ok db;
      Ok (Some ledger, db)
    | None => Ok (None, db)
    end
  | None => Ok (None, db)
  end.

Definition get_staged_ledger_at_state_hash (fuel : nat) h (memoize : bool) db : option (res (option Ledger * Db)) :=
  found ← walk_to_ledger fuel h [] db; Some (found ← found; ledger_from_ancestor h memoize db found).

Definition get_staged_ledger_at_ledger_hash (fuel : nat) (ledger_hash : LedgerHash) (memoize : bool) db : option (res (option Ledger * Db)) :=
  match and_then_ok sh_from_bytes (cf_get db staged_ledger_hash_to_block_cf (as_bytes (lh_str ledger_hash))) with
  | Ok (Some h) => get_staged_ledger_at_state_hash fuel h memoize db
  | Ok None => Some (Ok (None, db))
  | Err => Some Err
  | Panic => Some Panic
  end.

Definition get_staged_ledger_at_block_height (fuel : nat) (height : Z) (memoize : bool) db : option (res (option Ledger * Db)) :=
  match get_canonical_hash_at_height db height with
  | Ok (Some h) => get_staged_ledger_at_state_hash fuel h memoize db
  | Ok None => Some (Ok (None, db))
  | Err => Some Err
  | Panic => Some Panic
  end.

(** The best ledger, stored at the best block on request; that the block has no staged ledger hash, which shows only after
    the accounts were written, is ignored. *)
Definition get_best_ledger (memoize : bool) db : res (option Ledger * Db) :=
  ledger ← build_best_ledger db;
  match ledger with
  | Some ledger =>
    hash ← ok_flatten (get_best_block_hash db);
    height ← ok_flatten (get_best_block_height db);
    match hash, height with
    | Some h, Some height =>
      if memoize then
        match add_staged_accounts h ledger height db with
        | Ok db =>
          match announce_ledger h db with
          | Ok db => Ok (Some ledger, cf_put staged_ledgers_persisted_cf (sh_key h) [] db)
          | Err => Ok (Some ledger, db)
          | Panic => Panic
          end
        | Err => Ok (Some ledger, db)
        | Panic => Panic
        end
      else Ok (Some ledger, db)
    | _, _ => Ok (Some ledger, db)
    end
  | None => Ok (None, db)
  end.
End Store.

(** * Keys *)

Definition staged_key (h : StateHash) (token : TokenAddress) (pk : PublicKey) : list Z := sh_key h ++ token_pk token pk.
Definition staged_sort_key (h : StateHash) (token : TokenAddress) (b : Z) (pk : PublicKey) : list Z := sh_key h ++ balance_key token b pk.

Lemma staged_account_key_ok h token pk : sh_wf h -> token_wf token -> pk_wf pk -> staged_account_key h token pk = Ok (staged_key h token pk).
Proof. intros Hh Ht Hpk. unfold staged_account_key. by unfold_key. Qed.
Lemma staged_sort_key_ok h token b pk :
  sh_wf h -> token_wf token -> pk_wf pk -> staged_account_balance_sort_key h token b pk = Ok (staged_sort_key h token b pk).
Proof. intros Hh Ht Hpk. unfold staged_account_balance_sort_key. by unfold_key. Qed.

Lemma split_sort_key h token b pk :
  sh_wf h -> token_wf token -> u64 b -> pk_wf pk ->
  split_staged_account_balance_sort_key (staged_sort_key h token b pk) = Ok (Some (h, token, b, pk)).
Proof.
  intros Hh Ht Hb Hpk. unfold split_staged_account_balance_sort_key, staged_sort_key, balance_key, sh_key, pk_key.
  rewrite bool_decide_eq_true_2 by (rewrite !length_app, length_u64_be, (pk_wf_len pk), (sh_wf_len h), (token_wf_len token) by done; reflexivity).
  by read_key.
Qed.

Lemma sh_bytes_inj g h (x y : list Z) : sh_wf g -> sh_wf h -> sh_key g ++ x = sh_key h ++ y -> g = h /\ x = y.
Proof.
  intros Hg Hh E. apply app_inj_1 in E as [E ->]; [|unfold sh_key; by rewrite !sh_wf_len]. by apply sh_key_inj in E.
Qed.

(** Every token is below the bound, which is no string. *)
Lemma below_bytes l : Forall byte_ok l -> lex_compare l (replicate (length l) 255) <> Gt.
Proof.
  induction 1 as [|b l Hb _ IH]; [done|]. cbn. unfold byte_ok in Hb. destruct (Z.compare_spec b 255); [done|done|lia].
Qed.
Lemma token_below_bound token (x y : list Z) :
  token_wf token -> lex_compare (as_bytes (token_str token) ++ x) (token_upper_bound ++ y) = Lt.
Proof.
  intros [Hlen Hs]. assert (length (as_bytes (token_str token)) = TokenAddress_LEN) as Hl by (by apply token_wf_len).
  unfold token_upper_bound. rewrite lex_compare_app by (by rewrite length_replicate). rewrite <- Hl.
  pose proof (below_bytes _ (as_bytes_ok (token_str token))) as Hc.
  destruct (lex_compare _ _) eqn:E; [|done|done]. apply lex_compare_eq in E. exfalso. unfold rust_string in Hs. rewrite Hl in E. rewrite E in Hs.
  vm_compute in Hs. discriminate.
Qed.

(** * Reading a stored ledger *)

(** No token of a ledger is without accounts. *)
Definition ledger_full (l : Ledger) : Prop := forall token tl, l !! token = Some tl -> tl <> ∅.
(** Accounts are stored under their own key, and the keys and balances fit. *)
Definition ledger_keys (l : Ledger) : Prop :=
  forall pk token a, get_account l pk token = Some a -> acct_public_key a = pk /\ pk_wf pk /\ token_wf token /\ u64 (acct_balance a).

Lemma get_account_insert l a token pk token' :
  get_account (insert_account l a token) pk token' =
    if decide (token' = token /\ pk = acct_public_key a) then Some a else get_account l pk token'.
Proof.
  unfold get_account, get_token_ledger, insert_account.
  destruct (decide (token' = token)) as [->|Hne].
  - destruct (l !! token) as [tl|] eqn:E; rewrite lookup_insert_eq; cbn [mbind option_bind].
    + destruct (decide (pk = acct_public_key a)) as [->|Hp].
      * rewrite decide_True by done. by rewrite lookup_insert_eq.
      * rewrite decide_False by tauto. by rewrite lookup_insert_ne.
    + destruct (decide (pk = acct_public_key a)) as [->|Hp].
      * rewrite decide_True by done. apply lookup_singleton_eq.
      * rewrite decide_False by tauto. by apply lookup_singleton_ne.
  - rewrite decide_False by tauto. by destruct (l !! token); rewrite lookup_insert_ne.
Qed.
Lemma insert_account_full l a token : ledger_full l -> ledger_full (insert_account l a token).
Proof.
  intros Hf t tl. unfold insert_account. destruct (l !! token) as [tl0|] eqn:E;
    (destruct (decide (t = token)) as [->|Hne]; [rewrite lookup_insert_eq|rewrite lookup_insert_ne by done]); try apply Hf; intros [= <-];
    intros E'; apply (f_equal (lookup (acct_public_key a))) in E'; by rewrite ?lookup_insert_eq, ?lookup_singleton_eq, lookup_empty in E'.
Qed.
Lemma ledger_full_ext l l' : ledger_full l -> ledger_full l' -> (forall pk token, get_account l pk token = get_account l' pk token) -> l = l'.
Proof.
  intros Hf Hf' He. apply map_eq. intros token. unfold get_account, get_token_ledger in He.
  assert (forall l1 l2 : Ledger, ledger_full l1 -> (forall pk token, (tl ← l1 !! token; tl !! pk) = (tl ← l2 !! token; tl !! pk)) ->
    forall tl, l1 !! token = Some tl -> exists tl', l2 !! token = Some tl' /\ tl = tl') as Hone.
  { intros l1 l2 Hf1 He' tl Etl. destruct (map_choose tl (Hf1 _ _ Etl)) as (pk & a & Ea).
    pose proof (He' pk token) as E. rewrite Etl in E. cbn in E. rewrite Ea in E. destruct (l2 !! token) as [tl'|] eqn:Etl'; [|done].
    exists tl'. split; [done|]. apply map_eq. intros q. specialize (He' q token). by rewrite Etl, Etl' in He'. }
  destruct (l !! token) as [tl|] eqn:E.
  - destruct (Hone l l' Hf He tl E) as (tl' & -> & ->). done.
  - destruct (l' !! token) as [tl'|] eqn:E'; [|done]. destruct (Hone l' l Hf' (fun pk t => eq_sym (He pk t)) tl' E') as (tl & E2 & _). congruence.
Qed.

Section Read.
Context `{SpeedbSpec} `{JsonSpec Account}.
Implicit Types (db : Db) (h : StateHash) (pk : PublicKey) (token : TokenAddress) (l : Ledger) (a : Account).

(** An entry of the view by balance, and all of them. *)
Definition sort_entry h (e : TokenAddress * Account) : list Z * list Z :=
  (staged_sort_key h e.1 (acct_balance e.2) (acct_public_key e.2), to_json e.2).
Definition entry_wf (e : TokenAddress * Account) : Prop := token_wf e.1 /\ pk_wf (acct_public_key e.2) /\ u64 (acct_balance e.2).
Definition staged_ok db : Prop :=
  forall k v, cf_get db staged_ledger_account_balance_sort_cf k = Some v -> exists h e, sh_wf h /\ entry_wf e /\ (k, v) = sort_entry h e.

(** The accounts of the ledger at a block. *)
Record staged db h (get : Accounts) : Prop := {
  sg_account pk token : pk_wf pk -> token_wf token -> cf_get db staged_ledger_accounts_cf (staged_key h token pk) = to_json <$> get pk token;
  sg_balance pk token b : pk_wf pk -> token_wf token -> u64 b ->
    cf_get db staged_ledger_account_balance_sort_cf (staged_sort_key h token b pk) = to_json <$> at_balance b (get pk token)
}.

Definition insert_entry l (e : TokenAddress * Account) : Ledger := insert_account l e.2 e.1.

Lemma insert_accounts_eq h es rest l :
  sh_wf h -> Forall entry_wf es ->
  (forall e, head rest = Some e -> exists g x, sh_wf g /\ g <> h /\ entry_wf x /\ e = sort_entry g x) ->
  insert_accounts h ((sort_entry h <$> es) ++ rest) l = Ok (fold_left insert_entry es l).
Proof.
  intros Hh Hes Hrest. revert l. induction Hes as [|[token a] es (Ht & Hpk & Hb) _ IH]; intros l.
  - cbn [fmap list_fmap app fold_left]. destruct rest as [|e rest]; [done|]. destruct (Hrest e eq_refl) as (g & [t x] & Hg & Hne & (Ht & Hpk & Hb) & ->).
    cbn [insert_accounts sort_entry fst snd]. rewrite split_sort_key by done. cbn [mbind res_bind]. by rewrite bool_decide_true.
  - cbn [fmap list_fmap app fold_left insert_accounts sort_entry fst snd]. rewrite split_sort_key by done. cbn [mbind res_bind].
    rewrite bool_decide_false by (by intros Hn). rewrite json_roundtrip. cbn [expect mbind res_bind]. apply IH.
Qed.

Lemma inserted_accounts es l pk token :
  (forall e, e ∈ es -> forall e', e' ∈ es -> e.1 = e'.1 -> acct_public_key e.2 = acct_public_key e'.2 -> e.2 = e'.2) ->
  get_account (fold_left insert_entry es l) pk token =
    match List.find (fun e => bool_decide (token = e.1 /\ pk = acct_public_key e.2)) es with
    | Some e => Some e.2
    | None => get_account l pk token
    end.
Proof.
  revert l. induction es as [|e es IH]; intros l Hu; [done|]. cbn [fold_left List.find].
  rewrite IH by (intros x Hx y Hy; apply Hu; by right). unfold insert_entry. rewrite get_account_insert.
  destruct (List.find _ es) as [x|] eqn:Ef.
  - apply find_some in Ef as [Hin Hx]. apply list_elem_of_In in Hin. apply bool_decide_eq_true in Hx as [-> ->].
    destruct (bool_decide _) eqn:Eb; [|done]. apply bool_decide_eq_true in Eb as [E1 E2]. f_equal. symmetry. apply Hu; [by left|by right|done|done].
  - destruct (decide _) as [Hd|Hd]; [by rewrite bool_decide_true|by rewrite bool_decide_false].
Qed.

(** The entries of a ledger are the last ones up to the bound. *)
Definition of_hash h (e : list Z * list Z) : bool := bool_decide (take StateHash_LEN e.1 = sh_key h).
Lemma of_hash_entry g h e : sh_wf g -> of_hash h (sort_entry g e) = bool_decide (g = h).
Proof.
  intros Hg. unfold of_hash, sort_entry, staged_sort_key. cbn [fst]. rewrite take_app_length' by (unfold sh_key; by rewrite sh_wf_len).
  apply bool_decide_ext. split; [apply sh_key_inj|by intros ->].
Qed.

Lemma entry_below_bound g h e :
  sh_wf g -> sh_wf h -> entry_wf e ->
  key_leb (sh_key h ++ token_upper_bound ++ as_bytes "C") (sort_entry g e) = true <-> g = h \/ lex_compare (sh_key g) (sh_key h) = Lt.
Proof.
  intros Hg Hh (Ht & _). unfold key_leb, sort_entry, staged_sort_key, balance_key. cbn [fst].
  rewrite lex_compare_app by (unfold sh_key; by rewrite !sh_wf_len). rewrite token_below_bound by done.
  destruct (lex_compare (sh_key g) (sh_key h)) eqn:E; cbn [then_with].
  - apply lex_compare_eq, sh_key_inj in E as ->. split; [by left|done].
  - split; [by right|done].
  - split; [done|]. intros [->|]; [|done]. by rewrite lex_compare_refl in E.
Qed.

Lemma decode_entries h es :
  Forall (fun e => exists x, entry_wf x /\ e = sort_entry h x) es -> exists xs, Forall entry_wf xs /\ es = sort_entry h <$> xs.
Proof.
  induction 1 as [|e es (x & Hx & ->) _ (xs & Hxs & ->)]; [by exists []|]. exists (x :: xs). split; [by constructor|done].
Qed.
Lemma sort_entry_inj h x y : sh_wf h -> entry_wf x -> entry_wf y -> sort_entry h x = sort_entry h y -> x = y.
Proof.
  destruct x as [t a], y as [t' a']. intros Hh (Ht & _ & Hb) (Ht' & _ & Hb') E. unfold sort_entry, staged_sort_key in E. cbn [fst snd] in *.
  injection E as E Ej. apply sh_bytes_inj in E as [_ E]; [|done|done]. apply balance_key_inj in E as [[= Ep ->] Eb]; [|done..].
  apply (f_equal from_json) in Ej. rewrite !json_roundtrip in Ej. congruence.
Qed.

Section Entries.
Context (db : Db) (Hok : staged_ok db) (h : StateHash) (Hh : sh_wf h).
Notation all := (cf_entries db staged_ledger_account_balance_sort_cf).
Notation low := (List.filter (key_leb (sh_key h ++ token_upper_bound ++ as_bytes "C")) all).

Lemma entry_all e : e ∈ all -> exists g x, sh_wf g /\ entry_wf x /\ e = sort_entry g x.
Proof. destruct e as [k v]. intros He. apply cf_entries_get in He. destruct (Hok k v He) as (g & x & Hg & Hx & E). by exists g, x. Qed.
Lemma elem_of_low e : e ∈ low <-> e ∈ all /\ key_leb (sh_key h ++ token_upper_bound ++ as_bytes "C") e = true.
Proof. by rewrite list_elem_of_In, filter_In, list_elem_of_In. Qed.

Lemma low_split : low = List.filter (fun e => negb (of_hash h e)) low ++ List.filter (of_hash h) low.
Proof.
  apply (sorted_split key_lt).
  - apply sorted_filter, cf_entries_sorted.
  - intros x y Hxy Hyx. unfold key_lt in *. rewrite lex_compare_antisym, Hxy in Hyx. done.
  - intros x y Hx Hy Qx Qy. apply elem_of_low in Hx as [Hx _], Hy as [Hy Hyb].
    destruct (entry_all x Hx) as (g & ex & Hg & Hex & ->). destruct (entry_all y Hy) as (g' & ey & Hg' & Hey & ->).
    rewrite of_hash_entry in Qx, Qy by done. apply bool_decide_eq_true in Qx as ->. apply bool_decide_eq_false in Qy.
    apply entry_below_bound in Hyb as [->|Hlt]; [done| |done..]. unfold key_lt, sort_entry, staged_sort_key. cbn [fst].
    rewrite lex_compare_app by (unfold sh_key; by rewrite !sh_wf_len). by rewrite Hlt.
Qed.

(** The walk in reverse yields the entries of the block first. *)
Lemma reverse_entries :
  exists es rest, staged_ledger_account_balance_iterator db h Reverse = (sort_entry h <$> es) ++ rest /\ Forall entry_wf es /\
    (forall e, head rest = Some e -> exists g x, sh_wf g /\ g <> h /\ entry_wf x /\ e = sort_entry g x) /\
    (forall e, e ∈ es <-> entry_wf e /\ cf_get db staged_ledger_account_balance_sort_cf (sort_entry h e).1 = Some (sort_entry h e).2).
Proof.
  destruct (decode_entries h (rev (List.filter (of_hash h) low))) as (es & Hes & Ees).
  { apply Forall_forall. intros e He. apply list_elem_of_In, in_rev, filter_In in He as [He Hq]. apply list_elem_of_In, elem_of_low in He as [He _].
    destruct (entry_all e He) as (g & x & Hg & Hx & ->). rewrite of_hash_entry in Hq by done. apply bool_decide_eq_true in Hq as ->. by exists x. }
  exists es, (rev (List.filter (fun e => negb (of_hash h e)) low)). split_and!.
  - unfold staged_ledger_account_balance_iterator. cbn [iterator_cf]. rewrite low_split at 1. by rewrite rev_app_distr, Ees.
  - done.
  - intros e He. apply head_Some_elem_of in He. apply list_elem_of_In, in_rev, filter_In in He as [He Hq].
    apply list_elem_of_In, elem_of_low in He as [He _]. destruct (entry_all e He) as (g & x & Hg & Hx & ->).
    rewrite of_hash_entry in Hq by done. apply negb_true_iff, bool_decide_eq_false in Hq. by exists g, x.
  - intros e. rewrite <- cf_entries_get. replace ((sort_entry h e).1, (sort_entry h e).2) with (sort_entry h e) by (by destruct (sort_entry h e)).
    rewrite Forall_forall in Hes. split.
    + intros Hin. split; [by apply Hes|]. apply (list_elem_of_fmap_2 (sort_entry h)) in Hin. rewrite <- Ees in Hin.
      apply list_elem_of_In, in_rev, filter_In in Hin as [Hin _]. by apply list_elem_of_In, elem_of_low in Hin as [Hin _].
    + intros [Hwf Hin]. assert (sort_entry h e ∈ sort_entry h <$> es) as Hf.
      { rewrite <- Ees. apply list_elem_of_In, in_rev. rewrite rev_involutive. apply filter_In. split; [|by rewrite of_hash_entry, bool_decide_true].
        apply list_elem_of_In, elem_of_low. split; [done|]. apply entry_below_bound; [done|done|done|by left]. }
      apply list_elem_of_fmap in Hf as (x & E & Hx). apply sort_entry_inj in E as ->; auto.
Qed.
End Entries.

Lemma staged_entries db h l e :
  staged db h (get_account l) -> ledger_keys l ->
  entry_wf e /\ cf_get db staged_ledger_account_balance_sort_cf (sort_entry h e).1 = Some (sort_entry h e).2 <->
    get_account l (acct_public_key e.2) e.1 = Some e.2.
Proof.
  intros Hs Hk. destruct e as [token a]. unfold sort_entry. cbn [fst snd]. split.
  - intros [(Ht & Hpk & Hb) E]. cbn [fst snd] in *. rewrite (sg_balance _ _ _ Hs) in E by done. unfold at_balance in E.
    destruct (get_account l _ token) as [x|]; [|done]. cbn in E. destruct (decide _); [|done]. cbn in E. injection E as E.
    apply (f_equal from_json) in E. rewrite !json_roundtrip in E. congruence.
  - intros Ea. destruct (Hk _ _ _ Ea) as (_ & Hpk & Ht & Hb). split; [done|]. rewrite (sg_balance _ _ _ Hs) by done. rewrite Ea.
    cbn. by rewrite decide_True.
Qed.

(** A stored ledger is read back. *)
Lemma build_staged_ledger_eq db h l :
  staged_ok db -> staged db h (get_account l) -> ledger_keys l -> ledger_full l -> sh_wf h -> build_staged_ledger db h = Ok (Some l).
Proof.
  intros Hok Hs Hk Hf Hh. unfold build_staged_ledger. destruct (reverse_entries db Hok h Hh) as (es & rest & -> & Hes & Hrest & Hin).
  assert (forall e, e ∈ es <-> get_account l (acct_public_key e.2) e.1 = Some e.2) as Hget by (intros e; rewrite Hin; by apply staged_entries).
  rewrite insert_accounts_eq by done. cbn [mbind res_bind]. do 2 f_equal. apply ledger_full_ext; [|done|].
  - assert (forall l, ledger_full l -> ledger_full (fold_left insert_entry es l)) as Hfull; [|apply Hfull; by intros t tl Ht; rewrite lookup_empty in Ht].
    clear. induction es as [|e es IH]; intros l Hl; [done|]. cbn [fold_left]. by apply IH, insert_account_full.
  - intros pk token. rewrite inserted_accounts.
    + destruct (List.find _ es) as [[t a]|] eqn:Ef.
      * apply find_some in Ef as [He Hb]. apply bool_decide_eq_true in Hb as [-> ->]. apply list_elem_of_In, Hget in He. cbn [fst snd] in *. by rewrite He.
      * destruct (get_account l pk token) as [a|] eqn:Ea; [|done]. destruct (Hk _ _ _ Ea) as (Ep & _).
        pose proof (find_none _ _ Ef (token, a)) as Hn. cbn in Hn. rewrite bool_decide_true in Hn by done.
        assert ((token, a) ∈ es) as Hin' by (apply Hget; cbn; by rewrite Ep). discriminate Hn. by apply list_elem_of_In.
    + intros [t a] Ha [t' a'] Ha' E1 E2. cbn [fst snd] in *. subst t'. apply Hget in Ha, Ha'. cbn [fst snd] in *. rewrite E2 in Ha. congruence.
Qed.
End Read.

(** * Storing a ledger *)

Definition set_entry (get : Accounts) (e : TokenAddress * PublicKey * Account) : Accounts := set_account get e.1.2 e.1.1 e.2.
Definition part_of (get : Accounts) (l : Ledger) : Prop := forall pk token a, get pk token = Some a -> get_account l pk token = Some a.

Lemma ledger_entries_spec `{LedgerIter} l token pk a : (token, pk, a) ∈ ledger_entries l <-> get_account l pk token = Some a.
Proof.
  unfold ledger_entries, get_account, get_token_ledger. rewrite list_elem_of_In, in_concat. split.
  - intros (es & Hes & He). apply list_elem_of_In, list_elem_of_fmap in Hes as ([t tl] & -> & Ht). rewrite (token_iter_perm l) in Ht.
    apply elem_of_map_to_list in Ht. apply list_elem_of_In, list_elem_of_fmap in He as ([p x] & [= -> -> ->] & Hp). cbn [snd] in Hp.
    rewrite (account_iter_perm tl) in Hp. apply elem_of_map_to_list in Hp. rewrite Ht. exact Hp.
  - destruct (l !! token) as [tl|] eqn:E; [|done]. cbn. intros Ea. eexists. split.
    + apply list_elem_of_In, list_elem_of_fmap. exists (token, tl). split; [done|]. rewrite (token_iter_perm l). by apply elem_of_map_to_list.
    + apply list_elem_of_In, list_elem_of_fmap. exists (pk, a). split; [done|]. cbn [snd]. rewrite (account_iter_perm tl). by apply elem_of_map_to_list.
Qed.

Lemma set_entries_spec es l get :
  (forall e, e ∈ es -> get_account l e.1.2 e.1.1 = Some e.2) -> part_of get l ->
  part_of (fold_left set_entry es get) l /\ (forall e, e ∈ es -> fold_left set_entry es get e.1.2 e.1.1 = Some e.2) /\
  (forall pk token a, get pk token = Some a -> fold_left set_entry es get pk token = Some a).
Proof.
  revert get. induction es as [|e es IH]; intros get Hes Hp; [split_and!; [done| |done]; intros e He; by apply not_elem_of_nil in He|].
  pose proof (Hes e ltac:(by left)) as He. cbn [fold_left].
  assert (forall pk token a, set_entry get e pk token = Some a -> get_account l pk token = Some a) as Hp'.
  { intros pk token a. unfold set_entry, set_account. destruct (decide _) as [[= -> ->]|_]; [congruence|apply Hp]. }
  destruct (IH (set_entry get e)) as (H1 & H2 & H3); [intros x Hx; apply Hes; by right|done|]. split_and!; [done| |].
  - intros x Hx. apply elem_of_cons in Hx as [->|Hx]; [|by apply H2]. apply H3. unfold set_entry, set_account. by rewrite decide_True.
  - intros pk token a Ea. apply H3. unfold set_entry, set_account. destruct (decide _) as [[= -> ->]|_]; [|done]. apply Hp in Ea. congruence.
Qed.

Definition staged_families : list string :=
  [staged_ledger_accounts_min_block_cf; staged_ledger_accounts_cf; staged_ledger_account_balance_sort_cf].

Section Add.
Context `{SpeedbSpec} `{JsonSpec Account} `{LedgerIter}.
Implicit Types (db : Db) (h g : StateHash) (pk : PublicKey) (token : TokenAddress) (l : Ledger) (a : Account).

Lemma staged_key_inj g h s t p q :
  sh_wf g -> sh_wf h -> token_wf s -> token_wf t -> staged_key g s p = staged_key h t q -> g = h /\ (p, s) = (q, t).
Proof. intros Hg Hh Hs Ht E. apply sh_bytes_inj in E as [-> E]; [|done..]. split; [done|]. by apply token_pk_inj. Qed.
Lemma staged_sort_key_inj g h s t x y p q :
  sh_wf g -> sh_wf h -> token_wf s -> token_wf t -> u64 x -> u64 y -> staged_sort_key g s x p = staged_sort_key h t y q ->
  g = h /\ (p, s) = (q, t) /\ x = y.
Proof. intros Hg Hh Hs Ht Ha Hb E. apply sh_bytes_inj in E as [-> E]; [|done..]. split; [done|]. by apply balance_key_inj. Qed.

(** The account at its key, and among the accounts by balance. *)
Definition put_staged h token a db : Db :=
  cf_put staged_ledger_account_balance_sort_cf (staged_sort_key h token (acct_balance a) (acct_public_key a)) (to_json a)
    (cf_put staged_ledger_accounts_cf (staged_key h token (acct_public_key a)) (to_json a) db).

Lemma put_staged_balance h token a db g t b p :
  sh_wf h -> entry_wf (token, a) -> sh_wf g -> token_wf t -> u64 b ->
  cf_get (put_staged h token a db) staged_ledger_account_balance_sort_cf (staged_sort_key g t b p) =
    if decide (g = h /\ (p, t) = (acct_public_key a, token) /\ b = acct_balance a) then Some (to_json a)
    else cf_get db staged_ledger_account_balance_sort_cf (staged_sort_key g t b p).
Proof.
  intros Hh (Ht & Hpk & Hb) Hg Ht' Hb'. unfold put_staged. rewrite cf_get_put. destruct (decide (g = h /\ _)) as [(-> & [= -> ->] & ->)|Hne]; [by rewrite decide_True|].
  rewrite decide_False by (intros [= E]; apply Hne; by apply staged_sort_key_inj in E). by rewrite cf_get_put, decide_False.
Qed.
Lemma put_staged_account h token a db g t p :
  sh_wf h -> entry_wf (token, a) -> sh_wf g -> token_wf t ->
  cf_get (put_staged h token a db) staged_ledger_accounts_cf (staged_key g t p) =
    if decide (g = h /\ (p, t) = (acct_public_key a, token)) then Some (to_json a) else cf_get db staged_ledger_accounts_cf (staged_key g t p).
Proof.
  intros Hh (Ht & Hpk & Hb) Hg Ht'. unfold put_staged. rewrite cf_get_put, decide_False by done. rewrite cf_get_put.
  destruct (decide (g = h /\ _)) as [(-> & [= -> ->])|Hne]; [by rewrite decide_True|].
  by rewrite decide_False by (intros [= E]; apply Hne; by apply staged_key_inj in E).
Qed.

Lemma put_staged_spec h token a db get :
  sh_wf h -> entry_wf (token, a) -> staged_ok db -> staged db h get -> (forall x, get (acct_public_key a) token = Some x -> x = a) ->
  staged_ok (put_staged h token a db) /\ staged (put_staged h token a db) h (set_account get (acct_public_key a) token a) /\
  (forall g get', sh_wf g -> g <> h -> staged db g get' -> staged (put_staged h token a db) g get').
Proof.
  intros Hh Hwf Hok Hs Hsame. split_and!.
  - intros k v E. unfold put_staged in E. rewrite cf_get_put in E. destruct (decide _) as [[= ->]|_]; [injection E as <-; by exists h, (token, a)|].
    rewrite cf_get_put, decide_False in E by done. by apply Hok.
  - split; intros p t.
    + intros Hp Ht'. rewrite put_staged_account by done. unfold set_account.
      destruct (decide ((p, t) = (acct_public_key a, token))) as [E|E]; [by rewrite decide_True|]. rewrite decide_False by tauto. by apply Hs.
    + intros b Hp Ht' Hb'. rewrite put_staged_balance by done. unfold set_account.
      destruct (decide ((p, t) = (acct_public_key a, token))) as [[= -> ->]|E]; [|rewrite decide_False by tauto; by apply Hs].
      cbn [at_balance]. destruct (decide (acct_balance a = b)) as [<-|Hne]; [by rewrite decide_True|].
      rewrite decide_False by naive_solver. rewrite (sg_balance _ _ _ Hs) by done.
      destruct (get (acct_public_key a) token) as [x|] eqn:Ex; [|done]. rewrite (Hsame x eq_refl). cbn. by rewrite decide_False.
  - intros g get' Hg Hne Hs'. split; intros.
    + rewrite put_staged_account, decide_False by (done || tauto). by apply Hs'.
    + rewrite put_staged_balance, decide_False by (done || tauto). by apply Hs'.
Qed.

Lemma staged_frame cfs db db' h get :
  writes_in cfs db db' -> family_in cfs staged_ledger_accounts_cf = false -> family_in cfs staged_ledger_account_balance_sort_cf = false ->
  staged db h get -> staged db' h get.
Proof.
  intros Hw H1' H2' Hs. split; intros.
  - rewrite (writes_get _ _ _ _ _ Hw H1'). by apply (sg_account _ _ _ Hs).
  - rewrite (writes_get _ _ _ _ _ Hw H2'). by apply (sg_balance _ _ _ Hs).
Qed.
Lemma staged_ok_frame cfs db db' :
  writes_in cfs db db' -> family_in cfs staged_ledger_account_balance_sort_cf = false -> staged_ok db -> staged_ok db'.
Proof. intros Hw H1' Hok k v E. rewrite (writes_get _ _ _ _ _ Hw) in E by done. by apply Hok. Qed.

Lemma set_staged_account_spec token a h n db get :
  well_typed db -> sh_wf h -> entry_wf (token, a) -> u32 n -> staged_ok db -> staged db h get ->
  (forall x, get (acct_public_key a) token = Some x -> x = a) ->
  exists db', set_staged_account (acct_public_key a) token h n a db = Ok db' /\ well_typed db' /\ writes_in staged_families db db' /\
    staged_ok db' /\ staged db' h (set_account get (acct_public_key a) token a) /\
    (forall g get', sh_wf g -> g <> h -> staged db g get' -> staged db' g get').
Proof.
  intros Hdb Hh Hwf Hn Hok Hs Hsame. pose proof Hwf as (Ht & Hpk & _). cbn [fst snd] in Ht, Hpk.
  unfold set_staged_account, set_staged_account_raw_bytes, get_pk_min_staged_ledger_block, opt_u32.
  destruct (map_u32_typed db staged_ledger_accounts_min_block_cf (pk_key (acct_public_key a)) Hdb eq_refl) as (o & -> & _). cbn [mbind res_bind].
  rewrite staged_account_key_ok, staged_sort_key_ok by done. cbn [mbind res_bind]. set (db1 := if n <? _ then _ else db).
  assert (well_typed db1 /\ writes_in [staged_ledger_accounts_min_block_cf] db db1) as [Hdb1 Hw1].
  { unfold db1. destruct (n <? _); [|split; [done|frame]]. split; [apply well_typed_put; [by apply has_type_u32|done]|unfold set_pk_min_staged_ledger_block; frame]. }
  fold (put_staged h token a db1).
  destruct (put_staged_spec h token a db1 get) as (H1' & H2' & H3'); [done|done|by eapply staged_ok_frame|by eapply staged_frame|done|].
  eexists. split_and!; [done|by do 2 (apply well_typed_put; [done|])| |done|done|].
  - do 2 (apply writes_then_put; [|done]). by eapply subset_families.
  - intros g get' Hg Hne Hs'. apply H3'; [done|done|]. by eapply staged_frame.
Qed.

Lemma add_staged_accounts_spec l h n db :
  well_typed db -> sh_wf h -> ledger_keys l -> u32 n -> staged_ok db -> staged db h (fun _ _ => None) ->
  exists db', add_staged_accounts h l n db = Ok db' /\ well_typed db' /\ writes_in staged_families db db' /\ staged_ok db' /\
    staged db' h (get_account l) /\ (forall g get', sh_wf g -> g <> h -> staged db g get' -> staged db' g get').
Proof.
  intros Hdb Hh Hk Hn Hok Hs. unfold add_staged_accounts.
  assert (forall (es : list (TokenAddress * PublicKey * Account)) (get : Accounts) db, (forall e, e ∈ es -> get_account l e.1.2 e.1.1 = Some e.2) -> part_of get l -> well_typed db -> staged_ok db -> staged db h get ->
    exists db', foldM (fun db e => set_staged_account e.1.2 e.1.1 h n e.2 db) db es = Ok db' /\ well_typed db' /\ writes_in staged_families db db' /\
      staged_ok db' /\ staged db' h (fold_left set_entry es get) /\ (forall g get', sh_wf g -> g <> h -> staged db g get' -> staged db' g get')) as Hloop.
  { induction es as [|[[t p] a] es IH]; intros get d He Hp Hd Hokd Hsd; [exists d; split_and!; [done|done|frame|done|done|done]|].
    pose proof (He (t, p, a) ltac:(by left)) as Ea. cbn [fst snd] in Ea. destruct (Hk _ _ _ Ea) as (<- & Hpk & Ht & Hb).
    destruct (set_staged_account_spec t a h n d get) as (d1 & E1 & Hd1 & Hw1 & Hok1 & Hs1 & Ho1); [done..| |].
    { intros x Hx. apply Hp in Hx. congruence. }
    cbn [foldM fst snd]. rewrite E1. cbn [mbind res_bind].
    destruct (IH (set_entry get (t, acct_public_key a, a)) d1) as (d2 & E2 & Hd2 & Hw2 & Hok2 & Hs2 & Ho2); [..|done|done|done|].
    { intros e Hin. apply He. by right. }
    { intros q s x. unfold set_entry, set_account. cbn [fst snd]. destruct (decide _) as [[= -> ->]|_]; [intros [= <-]; done|apply Hp]. }
    exists d2. split_and!; [done|done|by eapply writes_in_trans|done|done|]. intros g get' Hg Hne Hs'. apply Ho2; auto. }
  assert (forall e, e ∈ ledger_entries l -> get_account l e.1.2 e.1.1 = Some e.2) as He by (intros [[t p] a] Hin; by apply ledger_entries_spec).
  destruct (Hloop (ledger_entries l) (fun _ _ => None) db) as (db' & E & Hdb' & Hw & Hok' & Hs' & Ho); [done|done|done|done|done|].
  exists db'. split_and!; [done|done|done|done| |done].
  destruct (set_entries_spec (ledger_entries l) l (fun _ _ => None) He ltac:(done)) as (Hp & Hin & _).
  assert (forall pk token, fold_left set_entry (ledger_entries l) (fun _ _ => None) pk token = get_account l pk token) as Eget.
  { intros pk token. destruct (get_account l pk token) as [a|] eqn:Ea.
    - by apply ledger_entries_spec, Hin in Ea.
    - destruct (fold_left _ _ _ pk token) as [a|] eqn:Ef; [|done]. apply Hp in Ef. congruence. }
  split; intros; rewrite <- Eget; by apply Hs'.
Qed.
End Add.

(** * Ledgers of blocks *)

Definition announce_families : list string := [staged_ledgers_persisted_cf; events_cf; default_cf].

Section Ledgers.
Context `{SpeedbSpec} `{JsonSpec Account} `{Json LedgerDiff} `{Json IndexerEvent} `{LedgerIter}.
Implicit Types (db : Db) (h g : StateHash) (l : Ledger) (ds : list LedgerDiff).

(** The staged ledger hash and the height of the block are known, or it is the parent of a genesis block. *)
Definition known_ledger db h : Prop :=
  match cf_get db block_staged_ledger_hash_cf (sh_key h) with
  | Some bytes => exists lh n, bytes = as_bytes (lh_str lh) /\ lh_wf lh /\ get_block_height db h = Ok (Some n)
  | None => sh_str h = MAINNET_GENESIS_PREV_STATE_HASH \/ sh_str h = HARDFORK_GENESIS_PREV_STATE_HASH
  end.

Lemma new_ledger_event_step h n lh db : well_typed db -> typed_step announce_families (new_ledger_event h n lh db) db.
Proof.
  intros Hdb. unfold new_ledger_event. destruct (add_event_typed (EventDb (DbLedger (NewLedger h n lh))) db Hdb) as (z & db' & -> & Hdb' & Hw).
  cbn [mbind res_bind]. exists db'. split_and!; [done|done|]. by eapply subset_families.
Qed.
Lemma add_ledger_hash_step h db :
  well_typed db -> exists b db', add_staged_ledger_hash h db = (b, db') /\ well_typed db' /\ writes_in announce_families db db'.
Proof.
  intros Hdb. unfold add_staged_ledger_hash. destruct (cf_get db _ _); do 2 eexists; (split; [done|]); split; [done|frame|by apply well_typed_put|frame].
Qed.
Lemma maybe_ledger_hash_step (c : bool) h db :
  well_typed db -> exists b db', (if c then add_staged_ledger_hash h db else (false, db)) = (b, db') /\ well_typed db' /\ writes_in announce_families db db'.
Proof. intros Hdb. destruct c; [by apply add_ledger_hash_step|]. exists false, db. split_and!; [done|done|frame]. Qed.

Lemma announce_ledger_step h db : well_typed db -> known_ledger db h -> typed_step announce_families (announce_ledger h db) db.
Proof.
  intros Hdb Hk. unfold announce_ledger. set (c1 := bool_decide _). set (c2 := bool_decide (sh_str h = HARDFORK_GENESIS_PREV_STATE_HASH)).
  destruct (maybe_ledger_hash_step c1 h db Hdb) as (b1 & db1 & -> & Hdb1 & Hw1).
  destruct b1; [apply (typed_step_then _ _ db1); [done|by apply new_ledger_event_step]|].
  destruct (maybe_ledger_hash_step c2 h db1 Hdb1) as (b2 & db2 & -> & Hdb2 & Hw2).
  pose proof (writes_in_trans _ _ _ _ Hw1 Hw2) as Hw. apply (typed_step_then _ _ db2); [done|].
  destruct b2; [by apply new_ledger_event_step|]. unfold get_block_staged_ledger_hash. rewrite (writes_get _ _ _ _ _ Hw) by done.
  unfold known_ledger in Hk. destruct (cf_get db block_staged_ledger_hash_cf _) as [bytes|]; cbn [map_res].
  - destruct Hk as (lh & n & -> & Hlh & En). rewrite lh_from_bytes_as_bytes by done. cbn [expect mbind res_bind].
    destruct (add_ledger_hash_step h db2 Hdb2) as (b3 & db3 & -> & Hdb3 & Hw3). apply (typed_step_then _ _ db3); [done|].
    destruct b3; [|by apply typed_step_ok]. unfold get_block_height, opt_u32 in *.
    rewrite (writes_get _ _ _ _ _ Hw3), (writes_get _ _ _ _ _ Hw) by done. rewrite En. cbn [mbind res_bind expect_some]. by apply new_ledger_event_step.
  - cbn [mbind res_bind]. assert (c1 || c2 = true) as -> by (unfold c1, c2; rewrite orb_true_iff, !bool_decide_eq_true; done). by apply typed_step_ok.
Qed.

(** No other ledger becomes stored. *)
Lemma add_ledger_hash_persisted h db b db' k :
  add_staged_ledger_hash h db = (b, db') -> k <> sh_key h -> cf_get db' staged_ledgers_persisted_cf k = cf_get db staged_ledgers_persisted_cf k.
Proof.
  unfold add_staged_ledger_hash. destruct (cf_get db _ _); intros [= <- <-] Hk; [done|]. by rewrite cf_get_put, decide_False by congruence.
Qed.
Lemma new_ledger_event_persisted h n lh db db' k :
  new_ledger_event h n lh db = Ok db' -> cf_get db' staged_ledgers_persisted_cf k = cf_get db staged_ledgers_persisted_cf k.
Proof.
  unfold new_ledger_event, add_event. destruct (get_next_seq_num db) as [z| |]; cbn [mbind res_bind]; [|done..]. intros [= <-].
  by rewrite !cf_get_put, !decide_False.
Qed.
Lemma announce_ledger_persisted h db db' k :
  announce_ledger h db = Ok db' -> k <> sh_key h -> cf_get db' staged_ledgers_persisted_cf k = cf_get db staged_ledgers_persisted_cf k.
Proof.
  intros E Hk. unfold announce_ledger in E. set (c1 := bool_decide _) in E. set (c2 := bool_decide (sh_str h = HARDFORK_GENESIS_PREV_STATE_HASH)) in E.
  assert (forall (c : bool) d b d', (if c then add_staged_ledger_hash h d else (false, d)) = (b, d') ->
    cf_get d' staged_ledgers_persisted_cf k = cf_get d staged_ledgers_persisted_cf k) as Hstep.
  { intros c d b d' Es. destruct c; [by eapply add_ledger_hash_persisted|congruence]. }
  destruct (if c1 then _ else _) as [b1 db1] eqn:E1. rewrite <- (Hstep _ _ _ _ E1). destruct b1; [by eapply new_ledger_event_persisted|].
  destruct (if c2 then _ else _) as [b2 db2] eqn:E2. rewrite <- (Hstep _ _ _ _ E2). destruct b2; [by eapply new_ledger_event_persisted|].
  inv_ok E. destruct v as [lh|]; [|destruct (c1 || c2); [congruence|done]]. destruct (add_staged_ledger_hash h db2) as [b3 db3] eqn:E3.
  rewrite <- (add_ledger_hash_persisted _ _ _ _ k E3 Hk). destruct b3; [|congruence]. inv_ok E. inv_ok E. by eapply new_ledger_event_persisted.
Qed.

Lemma add_staged_ledger_spec l h n db :
  well_typed db -> sh_wf h -> ledger_keys l -> u32 n -> staged_ok db -> staged db h (fun _ _ => None) -> known_ledger db h ->
  exists db', add_staged_ledger_at_state_hash h l n db = Ok db' /\ well_typed db' /\ writes_in (staged_families ++ announce_families) db db' /\
    staged_ok db' /\ staged db' h (get_account l) /\ is_Some (cf_get db' staged_ledgers_persisted_cf (sh_key h)) /\
    (forall g get', sh_wf g -> g <> h -> staged db g get' -> staged db' g get') /\
    (forall g, g <> h -> cf_get db' staged_ledgers_persisted_cf (sh_key g) = cf_get db staged_ledgers_persisted_cf (sh_key g)).
Proof.
  intros Hdb Hh Hk Hn Hok Hs Hkn. unfold add_staged_ledger_at_state_hash.
  destruct (add_staged_accounts_spec l h n db) as (db1 & -> & Hdb1 & Hw1 & Hok1 & Hs1 & Ho1); [done..|]. cbn [mbind res_bind].
  destruct (announce_ledger_step h db1 Hdb1) as (db2 & E2 & Hdb2 & Hw2).
  { unfold known_ledger, get_block_height, opt_u32 in *. by rewrite !(writes_get _ _ _ _ _ Hw1) by done. }
  rewrite E2. cbn [mbind res_bind]. set (db3 := cf_put _ _ _ db2). assert (writes_in announce_families db1 db3) as Hw3 by (unfold db3; frame).
  exists db3. split_and!; [done|by apply well_typed_put| |by eapply staged_ok_frame|by eapply staged_frame| | |].
  - eapply writes_in_trans; (eapply subset_families; [eassumption|reflexivity]).
  - unfold db3. rewrite cf_get_put, decide_True by done. by eexists.
  - intros g get' Hg Hne Hs'. eapply staged_frame; [exact Hw3|done|done|]. by apply Ho1.
  - intros g Hne. assert (sh_key g <> sh_key h) as Hkey by (by intros Eg%sh_key_inj). unfold db3. rewrite cf_get_put, decide_False by congruence.
    rewrite (announce_ledger_persisted _ _ _ _ E2 Hkey). by rewrite (writes_get _ _ _ _ _ Hw1).
Qed.

(** ** The ledger of a block whose ledger is not stored *)

(** The blocks from [h] down to, and without, [g] have no stored ledger; they and their diffs, oldest first. *)
Inductive unstored db : StateHash -> list (StateHash * LedgerDiff) -> StateHash -> Prop :=
| unstored_nil h : unstored db h [] h
| unstored_cons h parent d bs g :
    cf_get db staged_ledgers_persisted_cf (sh_key h) = None -> get_block_ledger_diff db h = Ok (Some d) ->
    get_block_parent_hash db h = Ok (Some parent) -> unstored db parent bs g -> unstored db h (bs ++ [(h, d)]) g.

Lemma walk_to_ledger_eq db h bs g fuel acc :
  unstored db h bs g -> is_Some (cf_get db staged_ledgers_persisted_cf (sh_key g)) -> (length bs < fuel)%nat ->
  walk_to_ledger fuel h acc db = Some (Ok (Some (g, bs.*2 ++ acc))).
Proof.
  intros Hu [v Hg]. revert fuel acc. induction Hu as [h|h parent d bs g Hn Ed Ep _ IH]; intros fuel acc Hf; (destruct fuel as [|fuel]; [lia|]);
    cbn [walk_to_ledger].
  - by rewrite Hg.
  - rewrite Hn, Ed, Ep. rewrite length_app in Hf. cbn [length] in Hf. rewrite IH by (done || lia). by rewrite fmap_app, <- app_assoc.
Qed.

Lemma append_vec_diffs ds : concat (ld_account_diffs (append_vec ds)) = concat (block_diffs <$> ds).
Proof.
  destruct ds as [|d ds _] using rev_ind; [done|]. destruct (append_vec_spec ds d) as (-> & _). unfold block_diffs.
  induction (ds ++ [d]) as [|x xs IH]; [done|]. cbn [fmap list_fmap concat]. by rewrite concat_app, IH.
Qed.
Lemma apply_append_vec l ds : ledger_apply_diff l (append_vec ds) = foldM ledger_apply_diff l ds.
Proof.
  unfold ledger_apply_diff at 1. rewrite append_vec_diffs. revert l. induction ds as [|d ds IH]; intros l; [done|].
  cbn [fmap list_fmap concat foldM]. rewrite foldM_app. unfold ledger_apply_diff, block_diffs. destruct (foldM _ l _) as [l1| |]; [apply IH|done|done].
Qed.

Lemma ledger_keys_apply (ds : list AccountDiff) l l' :
  ledger_wf l -> ledger_keys l -> Forall good_apply ds -> foldM ledger_apply_account_diff l ds = Ok l' -> ledger_wf l' /\ ledger_keys l'.
Proof.
  intros Hl Hk Hg E. destruct (foldM_ledger_ok ds l Hl) as (l1 & E1 & Hl1 & Hs); [eapply Forall_impl; [exact Hg|]; by intros d (Hd & _)|].
  assert (l1 = l') as -> by congruence. split; [done|]. intros pk token a Ea. destruct (Hl1 _ _ _ Ea) as [Epk (Hb & _)].
  assert (pk_wf pk /\ token_wf token) as [Hpk Ht]; [|done]. destruct (Hs pk token) as (_ & Hsame & _).
  destruct (diffs_of pk token ds) as [|d rest] eqn:Ed.
  - rewrite (Hsame eq_refl) in Ea. by destruct (Hk _ _ _ Ea) as (_ & Hpk & Ht & _).
  - assert (d ∈ diffs_of pk token ds) as Hd by (rewrite Ed; by left). unfold diffs_of in Hd. apply list_elem_of_filter in Hd as [Hkey Hd].
    rewrite Forall_forall in Hg. destruct (Hg d Hd) as (_ & (Hpk & Ht) & _). unfold key_of in Hkey. injection Hkey as <- <-. done.
Qed.
Lemma ledger_full_apply (ds : list AccountDiff) l l' : ledger_full l -> foldM ledger_apply_account_diff l ds = Ok l' -> ledger_full l'.
Proof.
  revert l. induction ds as [|d ds IH]; intros l Hf E; [by injection E as <-|]. cbn [foldM] in E. inv_ok E. apply (IH v); [|done]. clear E IH.
  unfold ledger_apply_account_diff in E0. inv_ok E0. injection E0 as <-. unfold insert_account, remove_account.
  intros t tl Et Ee. subst tl. destruct (decide (t = token_address d)) as [->|Hne].
  - destruct (alter _ _ l !! token_address d) as [tl|]; rewrite lookup_insert_eq in Et; apply (inj Some) in Et;
      apply (f_equal (lookup (acct_public_key v0))) in Et; by rewrite ?lookup_insert_eq, ?lookup_singleton_eq, lookup_empty in Et.
  - assert (l !! t = Some ∅) as El; [|by apply (Hf t ∅)].
    destruct (alter _ _ l !! token_address d) as [tl|]; rewrite lookup_insert_ne, lookup_alter_ne in Et by done; done.
Qed.

(** C12: A ledger that is stored at a block is read back from the view of its accounts by balance, whatever is stored at other
    blocks, is found at once when the ledger of the block is asked for, and leaves the ledgers of other blocks as they
    were. *)
Theorem staged_ledger_stored l h n db :
  well_typed db -> sh_wf h -> ledger_keys l -> ledger_full l -> u32 n -> staged_ok db -> staged db h (fun _ _ => None) -> known_ledger db h ->
  exists db', add_staged_ledger_at_state_hash h l n db = Ok db' /\ staged_ok db' /\ build_staged_ledger db' h = Ok (Some l) /\
    get_staged_ledger_at_state_hash 1 h false db' = Some (Ok (Some l, db')) /\
    (forall g l', sh_wf g -> g <> h -> ledger_keys l' -> ledger_full l' -> staged db g (get_account l') -> build_staged_ledger db' g = Ok (Some l')).
Proof.
  intros Hdb Hh Hk Hf Hn Hok Hs Hkn. destruct (add_staged_ledger_spec l h n db) as (db' & E & Hdb' & _ & Hok' & Hs' & Hp & Ho & _); [done..|].
  exists db'. pose proof (build_staged_ledger_eq db' h l Hok' Hs' Hk Hf Hh) as Eb. split_and!; [done|done|done| |].
  - unfold get_staged_ledger_at_state_hash. rewrite (walk_to_ledger_eq db' h [] h 1 []) by (done || constructor || lia).
    cbn [mbind option_bind res_bind fmap list_fmap app ledger_from_ancestor]. by rewrite Eb.
  - intros g l' Hg Hne Hk' Hf' Hs2. apply build_staged_ledger_eq; auto.
Qed.

(** C10: The ledger of a block whose ledger is not stored is that of the closest ancestor that has one with the diffs of the
    blocks between applied in order, one block after the other; asking for it to be kept stores it at the block, and the
    ledger of the block is then the same again. *)
Theorem staged_ledger_of_block db h bs g l n fuel :
  well_typed db -> staged_ok db -> unstored db h bs g -> is_Some (cf_get db staged_ledgers_persisted_cf (sh_key g)) ->
  staged db g (get_account l) -> ledger_wf l -> ledger_keys l -> ledger_full l -> sh_wf g -> sh_wf h ->
  Forall good_apply (concat (block_diffs <$> bs.*2)) -> (length bs < fuel)%nat -> known_ledger db h -> staged db h (fun _ _ => None) ->
  get_block_height db h = Ok (Some n) -> u32 n ->
  exists l' db', foldM ledger_apply_diff l (bs.*2) = Ok l' /\ get_staged_ledger_at_state_hash fuel h false db = Some (Ok (Some l', db)) /\
    get_staged_ledger_at_state_hash fuel h true db = Some (Ok (Some l', db')) /\ build_staged_ledger db' h = Ok (Some l') /\
    get_staged_ledger_at_state_hash 1 h false db' = Some (Ok (Some l', db')).
Proof.
  intros Hdb Hok Hu Hp Hs Hl Hk Hf Hg Hh Hd Hfuel Hkn Hnone En Hn.
  destruct (foldM_ledger_ok (concat (block_diffs <$> bs.*2)) l Hl) as (l' & E' & _); [eapply Forall_impl; [exact Hd|]; by intros d (Hd' & _)|].
  assert (ledger_apply_diff l (append_vec bs.*2) = Ok l') as Ea by (unfold ledger_apply_diff; by rewrite append_vec_diffs).
  destruct (ledger_keys_apply _ _ _ Hl Hk Hd E') as [_ Hk']. pose proof (ledger_full_apply _ _ _ Hf E') as Hf'.
  destruct (add_staged_ledger_spec l' h n db) as (db' & E & Hdb' & _ & Hok' & Hs' & Hp' & _); [done..|]. exists l', db'.
  pose proof (build_staged_ledger_eq db' h l' Hok' Hs' Hk' Hf' Hh) as Eb.
  unfold get_staged_ledger_at_state_hash. rewrite (walk_to_ledger_eq db h bs g fuel []) by done. rewrite app_nil_r.
  cbn [mbind option_bind res_bind ledger_from_ancestor]. rewrite (build_staged_ledger_eq db g l) by done. cbn [ok_flatten mbind res_bind]. rewrite Ea.
  cbn [mbind res_bind]. unfold memoize_ledger. rewrite En. cbn [mbind res_bind]. rewrite E. cbn [mbind res_bind]. split_and!; [|done|done|done|].
  - by rewrite <- apply_append_vec.
  - rewrite (walk_to_ledger_eq db' h [] h 1 []) by (done || constructor || lia).
    cbn [mbind option_bind res_bind fmap list_fmap app ledger_from_ancestor]. by rewrite Eb.
Qed.

(** A block with a diff and without a parent, and without a stored ledger, is not left: the walk does not end. *)
Lemma ledger_walk_stuck db h d fuel acc :
  cf_get db staged_ledgers_persisted_cf (sh_key h) = None -> get_block_ledger_diff db h = Ok (Some d) -> get_block_parent_hash db h = Ok None ->
  walk_to_ledger fuel h acc db = None.
Proof.
  intros Hn Ed Ep. revert acc. induction fuel as [|fuel IH]; intros acc; [done|]. cbn [walk_to_ledger]. by rewrite Hn, Ed, Ep.
Qed.

(** ** Accounts of blocks *)

Lemma walk_to_account_eq db pk token h bs g fuel acc v :
  unstored db h bs g -> sh_wf g -> token_wf token -> pk_wf pk ->
  (forall b d, (b, d) ∈ bs -> sh_wf b /\ cf_get db staged_ledger_accounts_cf (staged_key b token pk) = None) ->
  cf_get db staged_ledger_accounts_cf (staged_key g token pk) = Some v -> (length bs < fuel)%nat ->
  walk_to_account fuel pk token h acc db = Some (Ok (g, bs.*1 ++ acc)).
Proof.
  intros Hu Hg Ht Hpk Hn Ev. revert fuel acc. induction Hu as [h|h parent d bs g _ _ Ep _ IH]; intros fuel acc Hf; (destruct fuel as [|fuel]; [lia|]);
    cbn [walk_to_account].
  - rewrite staged_account_key_ok by done. by rewrite Ev.
  - destruct (Hn h d) as [Hh En]; [set_solver|]. rewrite staged_account_key_ok by done. rewrite En, Ep. rewrite length_app in Hf. cbn [length] in Hf.
    rewrite IH by (done || lia || (intros b d' Hb; apply (Hn b d'); set_solver)). by rewrite fmap_app, <- app_assoc.
Qed.

Lemma apply_block_diffs_eq db h bs g a : unstored db h bs g -> foldM (apply_block_diff db) a (bs.*1) = foldM account_apply_ledger_diff a (bs.*2).
Proof.
  intros Hu. revert a. induction Hu as [h|h parent d bs g _ Ed _ _ IH]; intros a; [done|]. rewrite !fmap_app, !foldM_app, IH.
  destruct (foldM account_apply_ledger_diff a bs.*2) as [a1| |]; [|done..]. cbn [mbind res_bind fmap list_fmap foldM fst snd].
  unfold apply_block_diff. by rewrite Ed.
Qed.

Lemma account_of_ledger ds l pk token :
  ledger_wf l -> Forall diff_ok (concat (block_diffs <$> ds)) ->
  Forall (fun d => public_key d = pk -> token_address d = token) (concat (block_diffs <$> ds)) ->
  exists l', foldM ledger_apply_diff l ds = Ok l' /\
    foldM account_apply_ledger_diff (account_or_empty l pk token) ds = Ok (account_or_empty l' pk token) /\
    (is_Some (get_account l pk token) -> is_Some (get_account l' pk token)).
Proof.
  revert l. induction ds as [|d ds IH]; intros l Hl Hd Ht; [by exists l|]. cbn [fmap list_fmap concat] in Hd, Ht.
  apply Forall_app in Hd as [Hd1 Hd2]. apply Forall_app in Ht as [Ht1 Ht2].
  destruct (staged_account_mixes_tokens l pk token Hl) as [Hone _]. destruct (Hone d Hd1 Ht1) as (l1 & E1 & Ea1).
  destruct (foldM_ledger_ok (block_diffs d) l Hl Hd1) as (l1' & E1' & Hl1 & Hs). assert (l1' = l1) as -> by (unfold ledger_apply_diff, block_diffs in *; congruence).
  destruct (IH l1 Hl1 Hd2 Ht2) as (l' & E' & Ea' & Hsome). exists l'. cbn [foldM]. rewrite E1, Ea1. cbn [mbind res_bind]. split_and!; [done|done|].
  intros Hsl. apply Hsome. destruct (Hs pk token) as (_ & Hsame & Hnew). destruct (decide (diffs_of pk token (block_diffs d) = [])) as [En|En];
    [by rewrite Hsame|rewrite Hnew by done; by eexists].
Qed.

(** C13: The account of a block that is computed from the closest ancestor at which it is stored, with the diffs of its public
    key in the blocks between, is the account of the ledger of the block, when the key has no diffs of other tokens
    there. *)
Theorem staged_account_of_block db h bs g l pk token a fuel :
  unstored db h bs g -> staged db g (get_account l) -> ledger_wf l -> get_account l pk token = Some a -> sh_wf g -> pk_wf pk -> token_wf token ->
  (forall b d, (b, d) ∈ bs -> sh_wf b /\ cf_get db staged_ledger_accounts_cf (staged_key b token pk) = None) ->
  Forall diff_ok (concat (block_diffs <$> bs.*2)) ->
  Forall (fun d => public_key d = pk -> token_address d = token) (concat (block_diffs <$> bs.*2)) ->
  staged_low_enough db pk h = Ok true -> (length bs < fuel)%nat ->
  exists l' a', foldM ledger_apply_diff l (bs.*2) = Ok l' /\ get_account l' pk token = Some a' /\
    get_staged_account fuel db pk token h = Some (Ok (Some a')).
Proof.
  intros Hu Hs Hl Ea Hg Hpk Ht Hn Hd Htok Hlow Hf. destruct (account_of_ledger (bs.*2) l pk token Hl Hd Htok) as (l' & E' & Eacc & [a' Ea']); [by rewrite Ea|].
  exists l', a'. split_and!; [done|done|]. pose proof (sg_account _ _ _ Hs pk token Hpk Ht) as Ev. rewrite Ea in Ev. cbn in Ev.
  unfold get_staged_account. rewrite Hlow. rewrite (walk_to_account_eq db pk token h bs g fuel [] (to_json a)) by done. rewrite app_nil_r.
  cbn [mbind option_bind res_bind]. unfold read_staged_account. rewrite staged_account_key_ok by done. cbn [mbind res_bind]. rewrite Ev.
  cbn [and_then_ok]. rewrite json_roundtrip. cbn [mbind res_bind expect_some]. rewrite (apply_block_diffs_eq db h bs g) by done.
  unfold account_or_empty in Eacc. rewrite Ea, Ea' in Eacc. cbn [default from_option id] in Eacc. by rewrite Eacc.
Qed.
End Ledgers.

(** * Examples *)

Section Examples.
#[local] Existing Instances map_db map_db_spec countable_json.
#[local] Instance ledger_in_order : LedgerIter :=
  {| token_iter := map_to_list; token_iter_perm l := Permutation_refl _; account_iter := map_to_list; account_iter_perm l := Permutation_refl _ |}.

Definition genesis_parent : StateHash := mkSh MAINNET_GENESIS_PREV_STATE_HASH.
Lemma sh_default_wf : sh_wf sh_default.
Proof. vm_compute. done. Qed.
Lemma default_not_genesis : sh_default <> genesis_parent.
Proof. intros E. apply (f_equal sh_str) in E. vm_compute in E. discriminate E. Qed.
Definition staged_ledger_example : Ledger := insert_account ∅ (account_empty pk_example token_default) token_default.

Lemma staged_example_get pk token a :
  get_account staged_ledger_example pk token = Some a -> pk = pk_example /\ token = token_default /\ a = account_empty pk_example token_default.
Proof.
  unfold staged_ledger_example. rewrite get_account_insert. destruct (decide _) as [[-> ->]|_]; [by intros [= <-]|done].
Qed.
Lemma staged_example_ok : ledger_wf staged_ledger_example /\ ledger_keys staged_ledger_example /\ ledger_full staged_ledger_example.
Proof.
  split_and!.
  - intros pk token a (-> & -> & ->)%staged_example_get. split; [done|apply account_empty_wf].
  - intros pk token a (-> & -> & ->)%staged_example_get. split_and!; [done|apply pk_example_wf|apply token_default_wf|vm_compute; split; discriminate].
  - unfold staged_ledger_example. apply (insert_account_full ∅). intros t tl Ht. by rewrite lookup_empty in Ht.
Qed.

(** A block on the parent of the genesis block, which credits the account. *)
Definition staged_block : Db :=
  cf_put block_ledger_diff_cf (sh_key sh_default) (to_json diff_example)
    (cf_put block_parent_hash_cf (sh_key sh_default) (sh_key genesis_parent)
      (cf_put block_height_cf (sh_key sh_default) (u32_be 2)
        (cf_put block_staged_ledger_hash_cf (sh_key sh_default) (as_bytes (lh_str lh_default)) (∅ : Db)))).

Definition staged_block_families : list string := [block_ledger_diff_cf; block_parent_hash_cf; block_height_cf; block_staged_ledger_hash_cf].

Lemma staged_block_typed : well_typed staged_block /\ writes_in staged_block_families (∅ : Db) staged_block.
Proof.
  split; [|unfold staged_block; frame]. apply well_typed_put; [done|]. apply well_typed_put; [exists genesis_parent; reflexivity|].
  apply well_typed_put; [apply has_type_u32; vm_compute; split; discriminate|]. apply well_typed_put; [done|apply empty_well_typed].
Qed.

Lemma staged_example_stored :
  exists db, add_staged_ledger_at_state_hash genesis_parent staged_ledger_example 0 staged_block = Ok db /\ well_typed db /\ staged_ok db /\
    staged db genesis_parent (get_account staged_ledger_example) /\ is_Some (cf_get db staged_ledgers_persisted_cf (sh_key genesis_parent)) /\
    writes_in (staged_families ++ announce_families) staged_block db /\ staged db sh_default (fun _ _ => None) /\
    cf_get db staged_ledgers_persisted_cf (sh_key sh_default) = None.
Proof.
  destruct staged_block_typed as [Hdb Hw]. destruct staged_example_ok as (_ & Hk & _).
  assert (forall cf k, family_in staged_block_families cf = false -> cf_get staged_block cf k = None) as Hnone.
  { intros cf k Hcf. rewrite (writes_get _ _ _ _ _ Hw Hcf). cbn. by rewrite lookup_empty. }
  assert (forall h, staged staged_block h (fun _ _ => None)) as Hempty by (intros h; split; intros; by rewrite Hnone).
  destruct (add_staged_ledger_spec staged_ledger_example genesis_parent 0 staged_block) as (db & E & Hdb' & Hw' & Hok & Hs & Hp & Ho & Hpers).
  - exact Hdb.
  - vm_compute. done.
  - exact Hk.
  - vm_compute. split; discriminate.
  - intros k v E. by rewrite Hnone in E.
  - apply Hempty.
  - unfold known_ledger. vm_compute. by left.
  - exists db. split_and!; [exact E|exact Hdb'|exact Hok|exact Hs|exact Hp|exact Hw'| |].
    { apply (Ho sh_default (fun _ _ => None)); [exact sh_default_wf|exact default_not_genesis|apply Hempty]. }
    rewrite (Hpers sh_default default_not_genesis). by apply Hnone.
Qed.

Lemma staged_example_path db :
  writes_in (staged_families ++ announce_families) staged_block db -> cf_get db staged_ledgers_persisted_cf (sh_key sh_default) = None ->
  unstored db sh_default [(sh_default, diff_example)] genesis_parent.
Proof.
  intros Hw Hn. apply (unstored_cons db sh_default genesis_parent diff_example []); [done| | |constructor].
  - unfold get_block_ledger_diff. rewrite (writes_get _ _ _ _ _ Hw) by done. unfold staged_block. get_put. cbn [and_then_ok]. by rewrite json_roundtrip.
  - unfold get_block_parent_hash. rewrite (writes_get _ _ _ _ _ Hw) by done. unfold staged_block. get_put. reflexivity.
Qed.

Lemma staged_ledger_stored_witness :
  exists db', add_staged_ledger_at_state_hash genesis_parent staged_ledger_example 0 (∅ : Db) = Ok db' /\
    get_staged_ledger_at_state_hash 1 genesis_parent false db' = Some (Ok (Some staged_ledger_example, db')).
Proof.
  destruct staged_example_ok as (_ & Hk & Hf).
  destruct (staged_ledger_stored staged_ledger_example genesis_parent 0 (∅ : Db)) as (db' & E & _ & _ & Eg & _).
  - apply empty_well_typed.
  - vm_compute. done.
  - exact Hk.
  - exact Hf.
  - vm_compute. split; discriminate.
  - intros k v E. cbn in E. by rewrite lookup_empty in E.
  - split; intros; cbn; by rewrite lookup_empty.
  - unfold known_ledger. vm_compute. by left.
  - exists db'. split; [exact E|exact Eg].
Defined.

Lemma staged_example_balance :
  (l ← foldM ledger_apply_diff staged_ledger_example [diff_example]; Ok (acct_balance <$> get_account l pk_example token_default)) = Ok (Some 5).
Proof. vm_compute. reflexivity. Qed.

Lemma staged_ledger_of_block_witness :
  exists db l' db' a, get_staged_ledger_at_state_hash 2 sh_default true db = Some (Ok (Some l', db')) /\
    get_account l' pk_example token_default = Some a /\ acct_balance a = 5.
Proof.
  destruct staged_example_stored as (db & _ & Hdb & Hok & Hs & Hp & Hw & Hnone & Hn). destruct staged_example_ok as (Hl & Hk & Hf).
  destruct (staged_ledger_of_block db sh_default [(sh_default, diff_example)] genesis_parent staged_ledger_example 2 2)
    as (l' & db' & El & _ & Eg & _).
  - exact Hdb.
  - exact Hok.
  - exact (staged_example_path db Hw Hn).
  - exact Hp.
  - exact Hs.
  - exact Hl.
  - exact Hk.
  - exact Hf.
  - vm_compute. done.
  - vm_compute. done.
  - destruct payment_example_ok as [H1 H2]. apply Forall_singleton. split; [exact H1|]. split; [exact H2|exact I].
  - cbn. lia.
  - unfold known_ledger, get_block_height, opt_u32. rewrite !(writes_get _ _ _ _ _ Hw) by done. unfold staged_block. get_put.
    exists lh_default, 2. split_and!; [done|vm_compute; done|reflexivity].
  - exact Hnone.
  - unfold get_block_height, opt_u32. rewrite (writes_get _ _ _ _ _ Hw) by done. unfold staged_block. get_put. reflexivity.
  - vm_compute. split; discriminate.
  - pose proof staged_example_balance as Eb. cbn [fmap list_fmap snd] in El. rewrite El in Eb. cbn [mbind res_bind] in Eb. injection Eb as Eb.
    destruct (get_account l' pk_example token_default) as [a|] eqn:Ea; [|discriminate Eb]. exists db, l', db', a.
    split; [exact Eg|]. split; [exact Ea|]. by injection Eb.
Defined.

Lemma staged_account_of_block_witness :
  exists db a, get_staged_account 2 (cf_put staged_ledger_accounts_min_block_cf (pk_key pk_example) (u32_be 0) db) pk_example token_default sh_default =
    Some (Ok (Some a)) /\ acct_balance a = 5.
Proof.
  destruct staged_example_stored as (db & _ & Hdb & Hok & Hs & Hp & Hw & Hnone & Hn). destruct staged_example_ok as (Hl & Hk & Hf).
  set (db1 := cf_put staged_ledger_accounts_min_block_cf (pk_key pk_example) (u32_be 0) db).
  assert (writes_in [staged_ledger_accounts_min_block_cf] db db1) as Hw1 by (unfold db1; frame).
  assert (writes_in (staged_families ++ announce_families) staged_block db1) as Hw2 by (eapply writes_in_trans; [exact Hw|by eapply subset_families]).
  destruct (staged_account_of_block db1 sh_default [(sh_default, diff_example)] genesis_parent staged_ledger_example pk_example token_default
    (account_empty pk_example token_default) 2) as (l' & a' & El & Ea & Eg).
  - apply staged_example_path; [exact Hw2|]. by rewrite (writes_get _ _ _ _ _ Hw1).
  - exact (staged_frame _ _ _ _ _ Hw1 eq_refl eq_refl Hs).
  - exact Hl.
  - vm_compute. reflexivity.
  - vm_compute. done.
  - apply pk_example_wf.
  - apply token_default_wf.
  - intros b d [= -> ->]%list_elem_of_singleton. split; [vm_compute; done|]. rewrite (writes_get _ _ _ _ _ Hw1) by done.
    exact (sg_account _ _ _ Hnone pk_example token_default pk_example_wf token_default_wf).
  - destruct payment_example_ok as [H1 _]. by apply Forall_singleton.
  - by apply Forall_singleton.
  - assert (get_pk_min_staged_ledger_block db1 pk_example = Ok (Some 0)) as Emin.
    { unfold get_pk_min_staged_ledger_block, opt_u32, db1. rewrite cf_get_put, decide_True by done. reflexivity. }
    assert (get_block_height db1 sh_default = Ok (Some 2)) as En.
    { unfold get_block_height, opt_u32. rewrite (writes_get _ _ _ _ _ Hw2) by done. unfold staged_block. get_put. reflexivity. }
    unfold staged_low_enough. rewrite Emin. cbn [mbind res_bind]. rewrite En. reflexivity.
  - cbn. lia.
  - exists db, a'. split; [exact Eg|]. pose proof staged_example_balance as Eb. cbn [fmap list_fmap snd] in El. rewrite El in Eb.
    cbn [mbind res_bind] in Eb. rewrite Ea in Eb. by injection Eb.
Defined.
End Examples.
