(* ===== verification/BlockStore.v ===== *)
(** Adding blocks to the store and making a block the best tip (src/rust/src/store/block_store_impl.rs), the operations that
    put the stores together: [add_block] writes the indices of a block, its commands and its SNARK work, [set_best_block]
    moves the canonical chain and all that depends on it. *)

From S2P Require Import Prelude Sorting Bytes Base StoreKeys Command AccountDiff Account Coinbase Precomputed Signed LedgerDiff BlockOrder InternalCommand Branch WitnessTree ColumnFamilies Db Events Schema BlockIndex Usernames InternalStore CommandStore Canonicity SnarkStore SnarkLists BestLedger.

Section Store.
Context `{Speedb} `{Decimal} `{HashMapIter} `{Blake2b} `{TxnHasher} `{SortBy BlockComparison} `{SortBy StateHash}.
Context `{Json PrecomputedBlock} `{Json LedgerDiff} `{Json PcbVersion} `{Json BlockComparison} `{Json (list Z)}.
Context `{Json (list StateHash)} `{Json UsernameUpdate} `{Json (list UserCommandWithStatus)} `{Json SignedCommandWithData}.
Context `{Json (list SignedCommandWithData)} `{Json DbInternalCommandWithData} `{Json SnarkWorkSummary}.
Context `{Json SnarkWorkSummaryWithStateHash} `{Json SnarkFees} `{Json IndexerEvent} `{Json Account} `{Json string}.
Implicit Types (db : Db) (h : StateHash) (pk : PublicKey) (block : PrecomputedBlock).

(** * Adding a block *)

Definition set_block_ledger_diff_batch h (diff : LedgerDiff) : WriteBatch := [Put block_ledger_diff_cf (sh_key h) (to_json diff)].
Definition set_block_staged_ledger_hash_batch h (ledger_hash : LedgerHash) : WriteBatch :=
  [Put staged_ledger_hash_to_block_cf (as_bytes (lh_str ledger_hash)) (sh_key h);
   Put block_staged_ledger_hash_cf (sh_key h) (as_bytes (lh_str ledger_hash))].

(** The genesis blocks are their own genesis. *)
Definition genesis_of block : StateHash :=
  if is_genesis_hash (state_hash block) then state_hash block else genesis_state_hash block.

(** The indices of a block that are written in one batch, before those of its commands. *)
Definition indices_list block (num_block_bytes : Z) (diff : LedgerDiff) (production pair creator receiver : WriteBatch)
    (height_key slot_key : list Z) (at_pks at_height at_slot : WriteBatch) : WriteBatch :=
  let h := state_hash block in
  [Put blocks_state_hash_cf (sh_key h) []; Put blocks_cf (sh_key h) (u64_be num_block_bytes ++ to_json block)] ++
  set_block_ledger_diff_batch h diff ++ set_block_epoch_batch h (epoch_count block) ++ production ++
  set_block_height_batch h (blockchain_length block) ++ set_block_global_slot_batch h (global_slot_since_genesis block) ++
  set_block_parent_hash_batch h (previous_state_hash block) ++ set_block_date_time_batch h (timestamp block) ++
  set_block_staged_ledger_hash_batch h (staged_ledger_hash block) ++
  set_block_genesis_state_hash_batch h (genesis_of block) ++ pair ++ creator ++ receiver ++
  [Put blocks_height_sort_cf height_key []; Put blocks_global_slot_sort_cf slot_key []] ++
  at_pks ++ at_height ++ at_slot ++ set_block_version_batch h (version block).

Definition block_indices_batch block (num_block_bytes : Z) (diff : LedgerDiff) (production : WriteBatch) db : res WriteBatch :=
  let h := state_hash block in
  let height := blockchain_length block in
  let slot := global_slot_since_genesis block in
  pair ← set_block_height_global_slot_pair_batch db height slot;
  creator ← set_block_creator_batch block;
  receiver ← set_coinbase_receiver_batch block;
  height_key ← block_height_key height h;
  slot_key ← block_global_slot_key slot h;
  pks ← all_public_keys block;
  at_pks ← mapM (fun pk => add_block_at_public_key_batch db pk h) pks;
  at_height ← add_block_at_height_batch db h height;
  at_slot ← add_block_at_slot_batch db h slot;
  Ok (indices_list block num_block_bytes diff production pair creator receiver height_key slot_key (concat at_pks) at_height at_slot).

Definition get_num_block_bytes db : res Z :=
  match cf_get db default_cf NUM_BLOCK_BYTES_PROCESSED with
  | Some bytes => expect (u64_from_be_bytes bytes)
  | None => Ok 0
  end.

(** A block that is there already is left alone. *)
Definition add_block block (num_block_bytes : Z) db : res (option DbEvent * Db) :=
  let h := state_hash block in
  match cf_get db blocks_state_hash_cf (sh_key h) with
  | Some _ => Ok (None, db)
  | None =>
    diff ← from_precomputed block;
    production ← increment_block_production_count_batch db block;
    let db := set_block_comparison_batch h (comparison_of block) db in
    indices ← block_indices_batch block num_block_bytes diff production db;
    '(user, db) ← add_user_commands_batch block db;
    '(internal, db) ← add_internal_commands_batch block db;
    let db := write (indices ++ user ++ internal) db in
    db ← add_epoch_slots_produced (epoch_count block) (global_slot_since_genesis block mod MAINNET_EPOCH_SLOT_COUNT)
           (block_creator block) db;
    db ← add_snark_work block db;
    bytes_processed ← get_num_block_bytes db;
    let db := cf_put default_cf NUM_BLOCK_BYTES_PROCESSED (u64_be (wrap64 (bytes_processed + num_block_bytes))) db in
    let db_event := DbBlock (NewBlock h (blockchain_length block)) in
    '(_, db) ← add_event (EventDb db_event) db;
    Ok (Some db_event, db)
  end.

(** * Lists of blocks *)

(** [block_cmp]: canonical blocks first, then the better ones. *)
Definition listed_cmp db (a b : StateHash) : res comparison :=
  a_canonicity ← ok_flatten (get_block_canonicity db a);
  b_canonicity ← ok_flatten (get_block_canonicity db b);
  a_cmp ← expect (get_block_comparison db a); a_cmp ← expect_some a_cmp;
  b_cmp ← expect (get_block_comparison db b); b_cmp ← expect_some b_cmp;
  Ok (match a_canonicity, b_canonicity with
      | Some Canonical, _ => Lt
      | _, Some Canonical => Gt
      | _, _ => block_comparison_cmp a_cmp b_cmp
      end).

Definition get_blocks_at_height db (blockchain_length : Z) : res (list StateHash) :=
  num ← get_num_blocks_at_height db blockchain_length;
  blocks ← read_hashes (block_num_key blockchain_length) blocks_at_height_cf db 0 (Z.to_nat num);
  sort_by (listed_cmp db) blocks.
Definition get_blocks_at_slot db (slot : Z) : res (list StateHash) :=
  num ← get_num_blocks_at_slot db slot;
  blocks ← read_hashes (block_num_key slot) blocks_at_global_slot_cf db 0 (Z.to_nat num);
  sort_by (listed_cmp db) blocks.
Definition get_blocks_at_public_key db pk : res (list StateHash) :=
  num ← get_num_blocks_at_public_key db pk;
  blocks ← read_hashes (pk_index_key pk) blocks_cf db 0 (Z.to_nat num);
  sort_by (listed_cmp db) blocks.

(** Blocks with the given parent. *)
Fixpoint children_among db h (blocks : list StateHash) : res (list StateHash) :=
  match blocks with
  | [] => Ok []
  | b :: blocks =>
    parent ← ok_flatten (get_block_parent_hash db b);
    rest ← children_among db h blocks;
    Ok (if bool_decide (parent = Some h) then b :: rest else rest)
  end.
Definition get_block_children db h : res (list StateHash) :=
  height ← get_block_height db h;
  match height with
  | Some height =>
    blocks ← get_blocks_at_height db (wrap32 (height + 1));
    children ← children_among db h blocks;
    sort_by (listed_cmp db) children
  | None => Err
  end.

(** * The best block *)

Context `{DiffIter} `{ProverIter} `{UsernameIter}.

(** All that follows the best chain, in order. *)
Definition update_stores (blocks : DbBlockUpdate) db : res Db :=
  db ← update_block_canonicities blocks db;
  db ← update_block_best_accounts blocks db;
  db ← update_block_snarks blocks db;
  db ← update_block_usernames blocks db;
  db ← update_internal_commands blocks db;
  update_user_commands blocks db.

Definition record_best_block h db : res Db :=
  let db := cf_put default_cf BEST_TIP_STATE_HASH_KEY (sh_key h) db in
  height ← get_block_height db h;
  match height with
  | Some n => '(_, db) ← add_event (EventDb (DbBlock (NewBestTip h n))) db; Ok db
  | None => Ok db
  end.

Definition set_best_block (fuel : nat) h db : option (res Db) :=
  match get_best_block_hash db with
  | Ok (Some old) =>
    if bool_decide (old = h) then Some (Ok db)
    else
      blocks ← reorg_blocks fuel db old h;
      Some (blocks ← blocks; db ← update_stores blocks db; record_best_block h db)
  | Ok None => Some (record_best_block h db)
  | Err => Some Err
  | Panic => Some Panic
  end.
End Store.

(** * Typed batches *)

Definition batch_ok `{Speedb} (cfs : list string) (b : WriteBatch) : Prop :=
  Forall (fun w => typed_op w /\ family_in cfs (op_cf w) = true) b.

Definition count_batch_families : list string :=
  [block_production_pk_epoch_cf; block_production_pk_total_cf; block_production_epoch_cf; default_cf;
   block_production_pk_supercharged_epoch_cf; block_production_pk_supercharged_total_cf; block_production_supercharged_epoch_cf].
Definition pair_families : list string := [block_global_slot_to_heights_cf; block_height_to_global_slots_cf].
Definition creator_families : list string := [block_creator_cf; block_creator_height_sort_cf; block_creator_slot_sort_cf].
Definition receiver_families : list string := [block_coinbase_receiver_cf; block_coinbase_height_sort_cf; block_coinbase_slot_sort_cf].
Definition at_pk_families : list string := [blocks_pk_count_cf; blocks_cf].
Definition index_families : list string :=
  [blocks_state_hash_cf; blocks_cf; block_ledger_diff_cf; block_epoch_cf] ++ count_batch_families ++
  [block_height_cf; block_global_slot_cf; block_parent_hash_cf; block_date_time_cf; staged_ledger_hash_to_block_cf;
   block_staged_ledger_hash_cf; block_genesis_state_hash_cf] ++ pair_families ++ creator_families ++ receiver_families ++
  [blocks_height_sort_cf; blocks_global_slot_sort_cf] ++ at_pk_families ++
  [blocks_at_height_cf; blocks_at_global_slot_cf; block_version_cf].

Section Typed.
Context `{SpeedbSpec} `{Decimal} `{HashMapIter} `{Blake2b} `{TxnHasher} `{SortBy BlockComparison}.
Context `{Json PrecomputedBlock} `{Json LedgerDiff} `{Json PcbVersion} `{Json BlockComparison} `{JsonSpec (list Z)}.
Context `{Json (list StateHash)} `{Json UsernameUpdate} `{Json (list UserCommandWithStatus)} `{Json SignedCommandWithData}.
Context `{Json (list SignedCommandWithData)} `{Json DbInternalCommandWithData} `{Json SnarkWorkSummary}.
Context `{Json SnarkWorkSummaryWithStateHash} `{Json SnarkFees} `{Json IndexerEvent}.
Implicit Types (db : Db) (h : StateHash) (pk : PublicKey) (block : PrecomputedBlock).

Lemma batch_ok_nil cfs : batch_ok cfs [].
Proof. constructor. Qed.
Lemma batch_ok_cons cfs cf k v b :
  has_type (value_type cf k) v -> family_in cfs cf = true -> batch_ok cfs b -> batch_ok cfs (Put cf k v :: b).
Proof. intros Hv Hcf Hb. by constructor. Qed.
Lemma batch_ok_weaken cfs cfs' b : batch_ok cfs b -> forallb (family_in cfs') cfs = true -> batch_ok cfs' b.
Proof.
  intros Hb Hs. eapply Forall_impl; [exact Hb|]. intros w [Ht Hw]. split; [done|]. apply family_in_elem in Hw.
  rewrite forallb_forall in Hs. by apply Hs, list_elem_of_In.
Qed.
Lemma batch_ok_outside cfs b cf k : batch_ok cfs b -> family_in cfs cf = false -> last_write b cf k = None.
Proof. intros Hb. apply last_write_outside. eapply Forall_impl; [exact Hb|]. by intros w [_ Hw]. Qed.
Lemma batch_ok_typed cfs b : batch_ok cfs b -> Forall typed_op b.
Proof. intros Hb. eapply Forall_impl; [exact Hb|]. by intros w [Ht _]. Qed.
Lemma batch_ok_app cfs a b : batch_ok cfs a -> batch_ok cfs b -> batch_ok cfs (a ++ b).
Proof. intros Ha Hb. by apply Forall_app. Qed.

Lemma has_type_sh h : sh_wf h -> has_type THash (sh_key h).
Proof. intros Hh. exists h. by apply sh_from_bytes_as_bytes. Qed.
Lemma has_type_pk pk : pk_wf pk -> has_type TKey (pk_key pk).
Proof. intros Hpk. exists pk. by apply pk_from_bytes_as_bytes. Qed.
Lemma has_type_succ n : has_type TU32 (succ_u32 n).
Proof. apply has_type_u32, u32_wrap32. Qed.

Lemma and_then_json {A} `{JsonSpec A} (o : option (list Z)) : exists r : option A, and_then_ok from_json o = Ok r.
Proof.
  destruct o as [l|]; [|by exists None]. cbn [and_then_ok]. pose proof (json_no_panic l). destruct (from_json l); [by eexists|by exists None|done].
Qed.
End Typed.

(** Writes of typed values to families of the list. *)
Ltac batch :=
  repeat first
    [ apply batch_ok_nil
    | apply batch_ok_cons; [first [exact I|exact (has_type_succ _)|by apply (has_type_u32 _)|by apply (has_type_sh _)
        |by apply (has_type_pk _)]|reflexivity|]
    | apply batch_ok_app
    | assumption ].

Section Indices.
Context `{SpeedbSpec} `{Decimal} `{HashMapIter} `{Blake2b} `{TxnHasher} `{SortBy BlockComparison}.
Context `{Json PrecomputedBlock} `{Json LedgerDiff} `{Json PcbVersion} `{Json BlockComparison} `{JsonSpec (list Z)}.
Implicit Types (db : Db) (h : StateHash) (pk : PublicKey) (block : PrecomputedBlock).

(** Read a counter of a well-typed store. *)
Ltac read_count :=
  match goal with
  | Hdb : well_typed ?db |- context [get_u32 ?db ?cf ?k] =>
    let n := fresh "n" in let Hn := fresh "Hn" in let E := fresh "E" in
    destruct (get_u32_typed db cf k Hdb eq_refl) as (n & Hn & E); rewrite E; cbn [mbind res_bind]
  end.

Lemma production_batch_ok block coinbase db :
  well_typed db -> pk_wf (block_creator block) -> coinbase_from_precomputed block = Ok coinbase ->
  exists b, increment_block_production_count_batch db block = Ok b /\ batch_ok count_batch_families b.
Proof.
  intros Hdb Hpk Ec. unfold increment_block_production_count_batch, get_block_production_pk_epoch_count, get_block_production_pk_total_count,
    get_block_production_epoch_count, get_block_production_total_count, get_block_production_pk_supercharged_epoch_count,
    get_block_production_pk_supercharged_total_count, get_block_production_supercharged_epoch_count, get_block_production_supercharged_total_count.
  rewrite !or_current_epoch_some by done.
  repeat first [progress cbn [mbind res_bind]|rewrite u32_prefix_key_ok by done|read_count]. rewrite Ec. cbn [mbind res_bind].
  destruct (cb_supercharge coinbase); (eexists; split; [done|batch]).
Qed.

Lemma pair_batch_ok height slot db :
  exists b, set_block_height_global_slot_pair_batch db height slot = Ok b /\ batch_ok pair_families b.
Proof.
  unfold set_block_height_global_slot_pair_batch, get_block_heights_from_global_slot, get_block_global_slots_from_height.
  destruct (and_then_json (A := list Z) (cf_get db block_global_slot_to_heights_cf (u32_be slot))) as (o1 & ->). cbn [mbind res_bind].
  destruct (and_then_json (A := list Z) (cf_get db block_height_to_global_slots_cf (u32_be height))) as (o2 & ->). cbn [mbind res_bind].
  eexists. split; [done|]. apply batch_ok_app; [destruct (add_sorted height _)|destruct (add_sorted slot _)]; batch.
Qed.

Lemma block_creator_batch_ok block :
  sh_wf (state_hash block) -> pk_wf (block_creator block) ->
  exists k1 k2, let b := [Put block_creator_cf (sh_key (state_hash block)) (pk_key (block_creator block));
    Put block_creator_height_sort_cf k1 []; Put block_creator_slot_sort_cf k2 []] in
    set_block_creator_batch block = Ok b /\ batch_ok creator_families b.
Proof.
  intros Hh Hpk. unfold set_block_creator_batch, pk_block_sort_key. unfold_key. cbn [mbind res_bind]. do 2 eexists. split; [done|]. batch.
Qed.
Lemma coinbase_receiver_batch_ok block :
  sh_wf (state_hash block) -> pk_wf (coinbase_receiver block) ->
  exists k1 k2, set_coinbase_receiver_batch block = Ok
      [Put block_coinbase_receiver_cf (sh_key (state_hash block)) (pk_key (coinbase_receiver block));
       Put block_coinbase_height_sort_cf k1 []; Put block_coinbase_slot_sort_cf k2 []] /\
    batch_ok receiver_families
      [Put block_coinbase_receiver_cf (sh_key (state_hash block)) (pk_key (coinbase_receiver block));
       Put block_coinbase_height_sort_cf k1 []; Put block_coinbase_slot_sort_cf k2 []].
Proof.
  intros Hh Hpk. unfold set_coinbase_receiver_batch, pk_block_sort_key. unfold_key. cbn [mbind res_bind]. do 2 eexists. split; [done|]. batch.
Qed.

(** A place in a list of hashes is longer than its counter's key. *)
Lemma has_type_listed cf n i h : cf ∈ list_families -> sh_wf h -> has_type (value_type cf (u32_be n ++ u32_be i)) (sh_key h).
Proof.
  intros Hcf Hh. assert (bool_decide (length (u32_be n ++ u32_be i) = U32_LEN) = false) as E.
  { apply bool_decide_eq_false. rewrite length_app, !length_u32_be. done. }
  revert E. generalize (u32_be n ++ u32_be i). intros k E. unfold list_families in Hcf. repeat (apply elem_of_cons in Hcf as [->|Hcf]); [| |by apply not_elem_of_nil in Hcf];
    (change (has_type (if bool_decide (length k = U32_LEN) then TU32 else THash) (sh_key h)); rewrite E; by apply has_type_sh).
Qed.
Lemma has_type_list_count cf n i : cf ∈ list_families -> has_type (value_type cf (u32_be n)) (succ_u32 i).
Proof.
  intros Hcf. unfold list_families in Hcf. repeat (apply elem_of_cons in Hcf as [->|Hcf]); [| |by apply not_elem_of_nil in Hcf]; apply has_type_succ.
Qed.

Lemma block_num_key_ok n i : block_num_key n i = Ok (u32_be n ++ u32_be i).
Proof. unfold block_num_key. by unfold_key. Qed.

Lemma at_height_batch_ok h n db :
  well_typed db -> sh_wf h -> exists i, get_u32 db blocks_at_height_cf (u32_be n) = Ok i /\
    let b := [Put blocks_at_height_cf (u32_be n) (succ_u32 i); Put blocks_at_height_cf (u32_be n ++ u32_be i) (sh_key h)] in
    add_block_at_height_batch db h n = Ok b /\ batch_ok [blocks_at_height_cf] b.
Proof.
  intros Hdb Hh. unfold add_block_at_height_batch, get_num_blocks_at_height. read_count. rewrite block_num_key_ok. cbn [mbind res_bind].
  eexists. split_and!; [done|done|]. apply batch_ok_cons; [apply has_type_list_count; set_solver|done|].
  apply batch_ok_cons; [apply has_type_listed; [set_solver|done]|done|constructor].
Qed.
Lemma at_slot_batch_ok h n db :
  well_typed db -> sh_wf h -> exists i, get_u32 db blocks_at_global_slot_cf (u32_be n) = Ok i /\
    let b := [Put blocks_at_global_slot_cf (u32_be n) (succ_u32 i); Put blocks_at_global_slot_cf (u32_be n ++ u32_be i) (sh_key h)] in
    add_block_at_slot_batch db h n = Ok b /\ batch_ok [blocks_at_global_slot_cf] b.
Proof.
  intros Hdb Hh. unfold add_block_at_slot_batch, get_num_blocks_at_slot. read_count. rewrite block_num_key_ok. cbn [mbind res_bind].
  eexists. split_and!; [done|done|]. apply batch_ok_cons; [apply has_type_list_count; set_solver|done|].
  apply batch_ok_cons; [apply has_type_listed; [set_solver|done]|done|constructor].
Qed.
Lemma at_public_key_batch_ok pk h db :
  well_typed db -> pk_wf pk ->
  exists n b, get_u32 db blocks_pk_count_cf (pk_key pk) = Ok n /\ add_block_at_public_key_batch db pk h = Ok b /\
    b = [Put blocks_pk_count_cf (pk_key pk) (succ_u32 n); Put blocks_cf (pk_index pk n) (sh_key h)] /\ batch_ok at_pk_families b.
Proof.
  intros Hdb Hpk. unfold add_block_at_public_key_batch, get_num_blocks_at_public_key. read_count. rewrite pk_index_key_ok by done. cbn [mbind res_bind].
  do 2 eexists. split_and!; [done|done|done|]. batch.
Qed.
End Indices.

(** * Commands, SNARK work and slots of a block *)

Definition user_families : list string :=
  [user_commands_per_block_cf; block_user_command_counts_cf; usernames_per_block_cf] ++ command_families ++ pk_families.

Definition internal_batch_families : list string := [internal_commands_block_num_cf; default_cf] ++ internal_families.

Definition snark_families : list string := block_snark_counts_cf :: block_snark_families ++ prover_families.

Definition slot_families : list string :=
  [block_epoch_slots_produced_cf; block_epoch_slots_produced_count_cf; block_pk_epoch_slots_produced_cf;
   block_pk_epoch_slots_produced_count_cf].

Lemma family_in_app a b cf : family_in (a ++ b) cf = family_in a cf || family_in b cf.
Proof. apply existsb_app. Qed.

Section Parts.
Context `{SpeedbSpec} `{Decimal} `{HashMapIter} `{TxnHasher} `{SortBy BlockComparison}.
Context `{Json BlockComparison} `{Json (list StateHash)} `{Json UsernameUpdate} `{Json (list UserCommandWithStatus)}.
Context `{Json SignedCommandWithData} `{Json (list SignedCommandWithData)} `{Json DbInternalCommandWithData}.
Context `{JsonSpec SnarkWorkSummary} `{JsonSpec SnarkWorkSummaryWithStateHash} `{Json SnarkFees} `{Json IndexerEvent}.
Implicit Types (db : Db) (h : StateHash) (pk : PublicKey) (block : PrecomputedBlock).

(** ** User commands *)

Lemma add_user_commands_fold block th sorted cmds b0 db :
  well_typed db -> sh_wf (state_hash block) -> u32 (global_slot_since_genesis block) ->
  (forall c, c ∈ cmds -> storable block th sorted db c) ->
  exists bs db', foldM (add_user_command block) (b0, db) cmds = Ok (b0 ++ concat bs, db') /\ well_typed db' /\
    writes_in count_families db db' /\ Forall2 (fun c b => command_batch block th (sorted c) c b) cmds bs.
Proof.
  intros Hdb Hh Hslot. revert b0 db Hdb. induction cmds as [|c cmds IH]; intros b0 db Hdb Hc.
  - exists [], db. cbn [foldM concat]. rewrite app_nil_r. split_and!; [done|done|frame|constructor].
  - cbn [foldM]. destruct (get_u32_typed db default_cf TOTAL_NUM_USER_COMMANDS_KEY Hdb eq_refl) as (n1 & _ & E1).
    destruct (get_u32_typed db default_cf TOTAL_NUM_APPLIED_USER_COMMANDS_KEY Hdb eq_refl) as (n2 & _ & E2).
    destruct (get_u32_typed db default_cf TOTAL_NUM_FAILED_USER_COMMANDS_KEY Hdb eq_refl) as (n3 & _ & E3).
    destruct (add_user_command_spec block th sorted c b0 db n1 n2 n3 Hdb Hh Hslot ltac:(apply Hc; by left) ltac:(by split_and!))
      as (b & db1 & -> & Hdb1 & Hw1 & _ & Hb). cbn [mbind res_bind].
    destruct (IH (b0 ++ b) db1 Hdb1) as (bs & db2 & -> & Hdb2 & Hw2 & Hbs).
    { intros d Hd. apply (storable_frame count_families _ _ _ db); [done|done|done|]. apply Hc. by right. }
    exists (b :: bs), db2. cbn [concat]. rewrite <- app_assoc. split_and!; [done|done|frame|by constructor].
Qed.

Lemma add_pk_commands_ok block th cmds db pk :
  well_typed db -> (forall c, c ∈ cmds -> hash_signed_command (signed_of c) = Ok (th c)) ->
  exists b, add_pk_commands block cmds db pk = Ok b /\ batch_ok user_families b.
Proof.
  intros Hdb Hc. unfold add_pk_commands, get_pk_num_user_commands_blocks, opt_u32.
  destruct (map_u32_typed db user_commands_pk_num_cf (pk_key pk) Hdb eq_refl) as (o & -> & _). cbn [mbind res_bind].
  rewrite (mapM_with_data block th).
  - cbn [mbind res_bind]. eexists. split; [done|]. destruct (data_of block th <$> _); batch.
  - intros c Hin. apply Hc. apply list_elem_of_In, filter_In in Hin as [Hin _]. by apply list_elem_of_In.
Qed.

Lemma mapM_batches {A} cfs (g : A -> res WriteBatch) l :
  (forall a, a ∈ l -> exists b, g a = Ok b /\ batch_ok cfs b) -> exists bs, mapM g l = Ok bs /\ batch_ok cfs (concat bs).
Proof.
  induction l as [|a l IH]; intros Hg; [exists []; split; [done|constructor]|]. cbn [mapM].
  destruct (Hg a ltac:(by left)) as (b & -> & Hb). cbn [mbind res_bind].
  destruct IH as (bs & -> & Hbs); [intros; apply Hg; by right|]. cbn [mbind res_bind]. exists (b :: bs). split; [done|]. cbn. by apply batch_ok_app.
Qed.

Lemma command_batches_ok block th sorted cmds bs :
  Forall2 (fun c b => command_batch block th (sorted c) c b) cmds bs -> batch_ok user_families (concat bs).
Proof.
  apply concat_Forall2. intros c b Hb. pose proof (cb_typed _ _ _ _ _ Hb) as Ht. pose proof (cb_families _ _ _ _ _ Hb) as Hf.
  rewrite Forall_forall in Ht, Hf. apply Forall_forall. intros w Hw. split; [by apply Ht|]. unfold user_families.
  rewrite family_in_app, family_in_app. rewrite (Hf w Hw). by rewrite orb_true_r.
Qed.

Lemma add_user_commands_ok block cmds updates th sorted db :
  commands block = Ok cmds -> username_updates block = Ok updates -> well_typed db -> sh_wf (state_hash block) ->
  u32 (global_slot_since_genesis block) -> (forall c, c ∈ cmds -> storable block th sorted db c) ->
  exists b db', add_user_commands_batch block db = Ok (b, db') /\ batch_ok user_families b /\ well_typed db' /\ writes_in count_families db db'.
Proof.
  intros Ec Eu Hdb Hh Hslot Hst. unfold add_user_commands_batch, set_block_user_commands_batch. rewrite Ec, Eu. cbn [mbind res_bind].
  unfold set_block_user_commands_count_batch, set_block_username_updates_batch. cbn [app].
  match goal with |- context [foldM _ (?b0, db) _] => destruct (add_user_commands_fold block th sorted cmds b0 db Hdb Hh Hslot Hst)
    as (bs & db1 & -> & Hdb1 & Hw & Hbs) end. cbn [mbind res_bind fst snd].
  destruct (all_command_public_keys_spec block cmds Ec) as (pks & -> & _). cbn [mbind res_bind].
  destruct (mapM_batches user_families (add_pk_commands block cmds db1) pks) as (bs' & -> & Hbs').
  { intros pk _. apply (add_pk_commands_ok block th); [done|]. intros c Hc. by apply (Hst c). }
  cbn [mbind res_bind]. do 2 eexists. split; [done|]. split_and!; [|done|done]. apply batch_ok_app; [|done].
  apply batch_ok_app; [|by eapply command_batches_ok]. apply batch_ok_cons; [exact I|done|].
  apply batch_ok_cons; [apply (has_type_u32 _), u32_wrap32|done|]. batch.
Qed.

(** ** Internal commands *)

Lemma add_internal_command_typed block db n c :
  well_typed db -> sh_wf (state_hash block) -> pk_wf (recipient c) -> typed_step internal_families (add_internal_command block db (n, c)) db.
Proof.
  intros Hdb Hh Hpk. unfold add_internal_command. cbn [fst snd].
  apply typed_step_bind.
  { destruct (internal_counts_spec c (epoch_count block) db Hdb Hpk) as (db1 & E & Hdb1 & Hw).
    apply (typed_step_weaken [internal_commands_pk_epoch_cf; internal_commands_pk_total_cf; internal_commands_epoch_cf]); [by exists db1|done]. }
  intros db1 Hdb1. apply typed_step_bind.
  { destruct (set_block_internal_command_spec block (Z.of_nat n) c db1 Hdb1 Hh) as (db2 & E & Hdb2 & Hw & _).
    apply (typed_step_weaken block_command_families); [by exists db2|done]. }
  intros db2 Hdb2. apply typed_step_bind.
  { unfold set_pk_internal_command, get_pk_num_internal_commands, opt_u32.
    destruct (map_u32_typed db2 internal_commands_pk_num_cf (pk_key (recipient c)) Hdb2 eq_refl) as (o & -> & _). cbn [mbind res_bind].
    change (internal_command_pk_key (recipient c) (default 0 o)) with (pk_index_key (recipient c) (default 0 o)).
    rewrite pk_index_key_ok by done. cbn [mbind res_bind]. eexists. split_and!; [done| |frame].
    apply well_typed_put; [apply has_type_succ|]. by apply well_typed_put. }
  intros db3 Hdb3. unfold internal_commmand_pk_sort_key. unfold_key. cbn [mbind res_bind].
  eexists. split_and!; [done|repeat (apply well_typed_put; [done|]); done|frame].
Qed.

Lemma add_internal_commands_ok block cmds db :
  with_data_from_precomputed block = Ok cmds -> well_typed db -> sh_wf (state_hash block) ->
  Forall (fun c => pk_wf (recipient c)) cmds ->
  exists b db', add_internal_commands_batch block db = Ok (b, db') /\ batch_ok [block_internal_command_counts_cf] b /\ well_typed db' /\
    writes_in internal_batch_families db db'.
Proof.
  intros Ec Hdb Hh Hpks. unfold add_internal_commands_batch. rewrite Ec. cbn [mbind res_bind].
  set (num := wrap32 (Z.of_nat (length cmds))). assert (u32 num) as Hnum by apply u32_wrap32.
  assert (typed_step internal_batch_families (db ← increment_internal_commands_total_count num
      (cf_put internal_commands_block_num_cf (sh_key (state_hash block)) (u32_be num) db);
    foldM (add_internal_command block) db (enumerate cmds)) db) as (db' & E & Hdb' & Hw).
  { apply (typed_step_then _ _ (cf_put internal_commands_block_num_cf (sh_key (state_hash block)) (u32_be num) db)); [frame|].
    assert (well_typed (cf_put internal_commands_block_num_cf (sh_key (state_hash block)) (u32_be num) db)) as Hdb1.
    { apply well_typed_put; [by apply (has_type_u32 _)|done]. }
    apply typed_step_bind.
    - destruct (add_count_typed default_cf TOTAL_NUM_FEE_TRANSFERS_KEY num _ Hdb1 eq_refl) as (n & _ & E & Hw).
      unfold increment_internal_commands_total_count. rewrite E. eexists. split_and!; [done|done|frame].
    - intros db2 Hdb2. apply typed_step_foldM; [done|]. intros db3 [i c] Hc Hdb3.
      apply (typed_step_weaken internal_families); [|done]. apply add_internal_command_typed; [done|done|].
      rewrite Forall_forall in Hpks. apply Hpks. unfold enumerate in Hc. by apply elem_of_zip_r in Hc. }
  exists (set_block_internal_commands_count_batch (state_hash block) num), db'.
  split_and!; [|apply batch_ok_cons; [by apply (has_type_u32 _)|done|constructor]|done|done].
  destruct (increment_internal_commands_total_count num _) as [d| |]; [|done|done]. cbn [mbind res_bind] in E |- *. by rewrite E.
Qed.

(** ** SNARK work *)

Lemma add_prover_snark_typed block pk n db e :
  well_typed db -> pk_wf pk -> sw_prover e.2 = pk -> typed_step snark_families (add_prover_snark block pk n db e) db.
Proof.
  intros Hdb Hpk Hs. unfold add_prover_snark. rewrite prover_sort_key_ok by done. cbn [mbind res_bind].
  destruct (cf_get db _ _); [by apply typed_step_ok|]. rewrite pk_index_key_ok by done. cbn [mbind res_bind].
  unfold set_snark_by_prover_block_height, set_snark_by_prover_global_slot. cbn [without_state_hash snark_prover]. rewrite Hs.
  rewrite !prover_sort_key_ok by done. cbn [mbind res_bind]. rewrite ?prover_sort_key_ok by done. cbn [mbind res_bind].
  match goal with |- context [increment_snarks_counts ?x ?e ?d] => set (db1 := d); set (sn := x) end.
  assert (well_typed db1) as Hdb1 by (repeat (apply well_typed_put; [done|]); done).
  destruct (get_u32_typed db1 snarks_pk_total_cf (pk_key (snark_prover sn)) Hdb1 eq_refl) as (m & _ & Em).
  destruct (snark_counts_spec sn (epoch_count block) db1 m Hdb1) as (db2 & E2 & Hdb2 & Hw2 & _); [by unfold sn; cbn; rewrite Hs|done|].
  exists db2. split_and!; [exact E2|done|]. eapply writes_in_trans; [|eapply subset_families; [exact Hw2|done]]. unfold db1. frame.
Qed.

Lemma add_snark_work_typed block works provers db :
  completed_works block = Ok works -> prover_keys block = Ok provers -> well_typed db -> sh_wf (state_hash block) ->
  Forall pk_wf provers -> Z.of_nat (length works) <= U32_MAX -> typed_step snark_families (add_snark_work block db) db.
Proof.
  intros Ew Ep Hdb Hh Hpks Hlen. unfold add_snark_work. rewrite Ew. cbn [mbind res_bind].
  destruct (prover_keys_spec block works Ew) as (provers' & Ep' & _ & Hin). assert (provers' = provers) as -> by congruence.
  rewrite Forall_forall in Hpks. unfold set_block_snarks_count.
  set (db0 := cf_put block_snark_counts_cf _ _ db). apply (typed_step_then _ _ db0); [unfold db0; frame|].
  assert (well_typed db0) as Hdb0 by (apply well_typed_put; [apply (has_type_u32 _), u32_wrap32|done]).
  destruct (add_block_snarks_loop block works 0 ∅ db0 Hdb0 Hh) as (m & db1 & E1 & Hdb1 & Hw1 & _); [|done|].
  { apply Forall_forall. intros s Hs. by apply Hpks, Hin. }
  unfold enumerate. rewrite E1. cbn [mbind res_bind snd]. rewrite Ep. cbn [mbind res_bind].
  apply (typed_step_then _ _ db1); [by eapply subset_families|]. apply typed_step_foldM; [done|].
  intros db2 pk Hpk Hdb2. unfold add_prover_snarks, get_snarks_pk_total_count. rewrite expect_u32_eq by done.
  destruct (get_u32_typed db2 snarks_pk_total_cf (pk_key pk) Hdb2 eq_refl) as (n & _ & ->). cbn [mbind res_bind].
  apply typed_step_foldM; [done|]. intros db3 [i s] Hs Hdb3. apply add_prover_snark_typed; [done|by apply Hpks|]. cbn [snd].
  unfold enumerate in Hs. apply elem_of_zip_r in Hs. pose proof (works_of_prover pk (with_state_hash (state_hash block) <$> works)) as Hw.
  rewrite Forall_forall in Hw. by apply Hw.
Qed.

(** ** Slots and events *)

Lemma add_epoch_slots_typed epoch slot pk db :
  well_typed db -> pk_wf pk -> typed_step slot_families (add_epoch_slots_produced epoch slot pk db) db.
Proof.
  intros Hdb Hpk. unfold add_epoch_slots_produced. rewrite block_num_key_ok. cbn [mbind res_bind]. apply typed_step_bind.
  - destruct (cf_get db block_epoch_slots_produced_cf _); [by apply typed_step_ok|].
    match goal with |- context [get_epoch_slots_produced_count ?d _] => set (db1 := d) end.
    assert (well_typed db1) as Hdb1 by (by apply well_typed_put).
    unfold get_epoch_slots_produced_count. rewrite or_current_epoch_some by done. cbn [mbind res_bind].
    count block_epoch_slots_produced_count_cf (u32_be epoch). eexists. split_and!; [done|done|unfold db1; frame].
  - intros db' Hdb'. unfold epoch_pk_num_key. unfold_key. cbn [mbind res_bind].
    destruct (cf_get db' block_pk_epoch_slots_produced_cf _); [by apply typed_step_ok|].
    match goal with |- context [get_pk_epoch_slots_produced_count ?d _ _] => set (db1 := d) end.
    assert (well_typed db1) as Hdb1 by (by apply well_typed_put).
    unfold get_pk_epoch_slots_produced_count, epoch_pk_key. rewrite or_current_epoch_some by done. cbn [mbind res_bind]. unfold_key. cbn [mbind res_bind].
    count block_pk_epoch_slots_produced_count_cf (u32_be epoch ++ as_bytes (pk_str pk)). eexists. split_and!; [done|done|unfold db1; frame].
Qed.

End Parts.

(** * Adding a block *)

(** A block whose keys and hashes have their form and whose data can be computed. *)
Record valid_block `{Speedb} `{Decimal} `{HashMapIter} `{Blake2b} `{TxnHasher} `{SortBy BlockComparison} `{Json BlockComparison}
    `{Json (list StateHash)} (block : PrecomputedBlock) th sorted (db : Db) : Prop := {
  vb_diff : exists diff, from_precomputed block = Ok diff;
  vb_usernames : exists updates, username_updates block = Ok updates;
  vb_internal : exists cmds, with_data_from_precomputed block = Ok cmds /\ Forall (fun c => pk_wf (recipient c)) cmds;
  vb_works works : completed_works block = Ok works -> Z.of_nat (length works) <= U32_MAX;
  vb_hash : sh_wf (state_hash block);
  vb_previous : sh_wf (previous_state_hash block);
  vb_genesis : sh_wf (genesis_of block);
  vb_height : u32 (blockchain_length block);
  vb_slot : u32 (global_slot_since_genesis block);
  vb_epoch : u32 (epoch_count block);
  vb_keys pks : all_public_keys block = Ok pks -> Forall pk_wf pks;
  (** the blocks that contain its commands can be sorted *)
  vb_storable cmds c : commands block = Ok cmds -> c ∈ cmds ->
    storable block th sorted (set_block_comparison_batch (state_hash block) (comparison_of block) db) c
}.

(** Read what the indices have just written. *)
Ltac compute_index :=
  unfold indices_list; cbv zeta;
  cbn [last_write app op_cf op_key op_value set_block_ledger_diff_batch set_block_epoch_batch set_block_height_batch
    set_block_global_slot_batch set_block_parent_hash_batch set_block_date_time_batch set_block_staged_ledger_hash_batch
    set_block_genesis_state_hash_batch set_block_version_batch];
  repeat first [rewrite decide_False by (intros E'; discriminate E')|rewrite decide_True by done|rewrite decide_False by congruence].

Section Adding.
Context `{SpeedbSpec} `{Decimal} `{HashMapIter} `{Blake2b} `{TxnHasher} `{SortBy BlockComparison}.
Context `{JsonSpec PrecomputedBlock} `{JsonSpec LedgerDiff} `{JsonSpec PcbVersion} `{JsonSpec BlockComparison} `{JsonSpec (list Z)}.
Context `{Json (list StateHash)} `{Json UsernameUpdate} `{Json (list UserCommandWithStatus)} `{Json SignedCommandWithData}.
Context `{Json (list SignedCommandWithData)} `{Json DbInternalCommandWithData} `{JsonSpec SnarkWorkSummary}.
Context `{JsonSpec SnarkWorkSummaryWithStateHash} `{Json SnarkFees} `{Json IndexerEvent}.
Implicit Types (db : Db) (h : StateHash) (pk : PublicKey) (block : PrecomputedBlock).

(** What a diff is computed from. *)
Lemma from_precomputed_parts block diff :
  from_precomputed block = Ok diff ->
  exists cmds works coinbase, commands block = Ok cmds /\ completed_works block = Ok works /\ coinbase_from_precomputed block = Ok coinbase.
Proof.
  unfold from_precomputed, from_precomputed_unexpanded. destruct (commands_pre_diff block) as [pre| |]; [|done|done]. cbn [mbind res_bind].
  destruct (commands_post_diff block) as [post| |]; [|done|done]. cbn [mbind res_bind].
  destruct (completed_works block) as [works| |]; [|done|done]. cbn [mbind res_bind].
  destruct (commands block) as [cmds| |]; [|done|done]. cbn [mbind res_bind].
  destruct (mapM command_diffs cmds) as [txns| |]; [|done|done]. cbn [mbind res_bind].
  destruct (coinbase_from_precomputed block) as [coinbase| |]; [|done|done]. by exists cmds, works, coinbase.
Qed.

Lemma all_public_keys_spec block cmds works :
  commands block = Ok cmds -> completed_works block = Ok works ->
  exists pks provers, all_public_keys block = Ok pks /\ prover_keys block = Ok provers /\ NoDup pks /\
    (forall pk, pk ∈ consensus_public_keys block -> pk ∈ pks) /\ (forall pk, pk ∈ provers -> pk ∈ pks).
Proof.
  intros Ec Ew. unfold all_public_keys. destruct (all_command_public_keys_spec block cmds Ec) as (l & -> & _ & Hm). cbn [mbind res_bind].
  destruct (prover_keys_spec block works Ew) as (provers & -> & _ & _). cbn [mbind res_bind]. eexists _, provers. split; [done|]. split; [done|].
  destruct (sort_pks_spec (add_keys (list_to_set l) provers)) as (_ & Hnd & Hs). split; [exact Hnd|].
  split; intros pk Hpk; apply Hs; unfold add_keys; rewrite elem_of_union, !elem_of_list_to_set; [left; apply Hm; by left|by right].
Qed.

(** The batch of the indices: its own writes, and the parts that are read from the store. *)
Record indices_ok block n diff db (b : WriteBatch) : Prop := {
  io_parts : exists production pair k1 k2 receiver hk sk at_pks i j,
    b = indices_list block n diff production pair
          [Put block_creator_cf (sh_key (state_hash block)) (pk_key (block_creator block)); Put block_creator_height_sort_cf k1 [];
           Put block_creator_slot_sort_cf k2 []] receiver hk sk at_pks
          [Put blocks_at_height_cf (u32_be (blockchain_length block)) (succ_u32 i);
           Put blocks_at_height_cf (u32_be (blockchain_length block) ++ u32_be i) (sh_key (state_hash block))]
          [Put blocks_at_global_slot_cf (u32_be (global_slot_since_genesis block)) (succ_u32 j);
           Put blocks_at_global_slot_cf (u32_be (global_slot_since_genesis block) ++ u32_be j) (sh_key (state_hash block))] /\
    batch_ok count_batch_families production /\ batch_ok pair_families pair /\ batch_ok receiver_families receiver /\
    batch_ok at_pk_families at_pks /\ Forall (fun w => op_cf w = blocks_cf -> length (op_key w) = 59%nat) at_pks /\
    get_u32 db blocks_at_height_cf (u32_be (blockchain_length block)) = Ok i /\
    get_u32 db blocks_at_global_slot_cf (u32_be (global_slot_since_genesis block)) = Ok j;
  io_ok : batch_ok index_families b;
  io_receiver k : last_write b block_coinbase_receiver_cf k =
    if decide (sh_key (state_hash block) = k) then Some (Some (pk_key (coinbase_receiver block))) else None
}.

Lemma at_pks_ok pks h db :
  well_typed db -> Forall pk_wf pks ->
  exists bs, mapM (fun pk => add_block_at_public_key_batch db pk h) pks = Ok bs /\ batch_ok at_pk_families (concat bs) /\
    Forall (fun w => op_cf w = blocks_cf -> length (op_key w) = 59%nat) (concat bs).
Proof.
  intros Hdb Hpks. induction Hpks as [|pk pks Hpk _ (bs & E & Hb & Hl)]; [exists []; split_and!; [done|constructor|constructor]|]. cbn [mapM].
  destruct (at_public_key_batch_ok pk h db Hdb Hpk) as (n & b & _ & -> & Eb & Hbo). cbn [mbind res_bind]. rewrite E. cbn [mbind res_bind].
  exists (b :: bs). split_and!; [done|cbn; by apply batch_ok_app|]. cbn. apply Forall_app. split; [|done]. subst b.
  constructor; [done|]. constructor; [|constructor]. intros _. cbn [op_key]. unfold pk_index, pk_key. by rewrite length_app, pk_wf_len, length_u32_be by done.
Qed.

Lemma block_indices_ok block th sorted n diff production db0 db cmds works :
  well_typed db -> valid_block block th sorted db0 -> commands block = Ok cmds -> completed_works block = Ok works ->
  batch_ok count_batch_families production ->
  exists b, block_indices_batch block n diff production db = Ok b /\ indices_ok block n diff db b.
Proof.
  intros Hdb [_ _ _ _ Hh Hprev Hgen Hhgt Hslot Hep Hkeys _] Ec Ew Hprod.
  destruct (all_public_keys_spec block cmds works Ec Ew) as (pks & provers & Ep & _ & _ & Hin & _).
  specialize (Hkeys pks Ep). pose proof Hkeys as Hk. rewrite Forall_forall in Hk.
  assert (pk_wf (block_creator block)) as Hcr by (apply Hk, Hin; unfold consensus_public_keys; set_solver).
  assert (pk_wf (coinbase_receiver block)) as Hrc by (apply Hk, Hin; unfold consensus_public_keys; set_solver).
  unfold block_indices_batch. destruct (pair_batch_ok (blockchain_length block) (global_slot_since_genesis block) db) as (pair & -> & Hpair).
  cbn [mbind res_bind]. destruct (block_creator_batch_ok block Hh Hcr) as (k1 & k2 & -> & Hcreator). cbn [mbind res_bind].
  destruct (coinbase_receiver_batch_ok block Hh Hrc) as (k3 & k4 & -> & Hrec). cbn [mbind res_bind].
  unfold block_height_key, block_global_slot_key. unfold_key. cbn [mbind res_bind]. rewrite Ep. cbn [mbind res_bind].
  destruct (at_pks_ok pks (state_hash block) db Hdb Hkeys) as (bs & -> & Hbs & Hlen). cbn [mbind res_bind].
  destruct (at_height_batch_ok (state_hash block) (blockchain_length block) db Hdb Hh) as (i & Ei & -> & Hah). cbn [mbind res_bind].
  destruct (at_slot_batch_ok (state_hash block) (global_slot_since_genesis block) db Hdb Hh) as (j & Ej & -> & Has). cbn [mbind res_bind].
  eexists. split; [reflexivity|]. split; [do 10 eexists; split; [reflexivity|]; by split_and!| |].
  2:{ intros k. unfold indices_list. cbv zeta. rewrite !last_write_app.
    rewrite (batch_ok_outside _ production _ _ Hprod), (batch_ok_outside _ pair _ _ Hpair), (batch_ok_outside _ (concat bs) _ _ Hbs) by done.
    compute_index. destruct (decide (sh_key (state_hash block) = k)) as [E|Hne].
    - by rewrite decide_True by congruence.
    - rewrite decide_False by congruence. by repeat (rewrite decide_False by (intros E; discriminate E)). }
  unfold indices_list, set_block_ledger_diff_batch, set_block_epoch_batch, set_block_height_batch, set_block_global_slot_batch,
    set_block_parent_hash_batch, set_block_date_time_batch, set_block_staged_ledger_hash_batch, set_block_genesis_state_hash_batch, set_block_version_batch.
  cbv zeta. repeat apply batch_ok_app; try (eapply batch_ok_weaken; [eassumption|reflexivity]); batch.
Qed.

Definition later_families : list string := slot_families ++ snark_families ++ [default_cf; events_cf].

(** The stores in the course of [add_block], and the batches that are written in one go. *)
Record add_steps block n db diff (b ub ib : WriteBatch) (dbu db2 db4 db5 db3 : Db) : Prop := {
  as_diff : from_precomputed block = Ok diff;
  as_indices : indices_ok block n diff (set_block_comparison_batch (state_hash block) (comparison_of block) db) b;
  as_user : add_user_commands_batch block (set_block_comparison_batch (state_hash block) (comparison_of block) db) = Ok (ub, dbu);
  as_user_ok : batch_ok user_families ub;
  as_user_writes : writes_in count_families (set_block_comparison_batch (state_hash block) (comparison_of block) db) dbu;
  as_internal : add_internal_commands_batch block dbu = Ok (ib, db2);
  as_internal_ok : batch_ok [block_internal_command_counts_cf] ib;
  as_internal_writes : writes_in internal_batch_families dbu db2;
  as_slots : writes_in slot_families (write (b ++ ub ++ ib) db2) db4;
  as_slots_typed : well_typed db4;
  as_snark : add_snark_work block db4 = Ok db5;
  as_snark_writes : writes_in snark_families db4 db5;
  as_later : writes_in [default_cf; events_cf] db5 db3;
  as_typed : well_typed db3;
  as_add : add_block block n db = Ok (Some (DbBlock (NewBlock (state_hash block) (blockchain_length block))), db3)
}.

Lemma add_block_steps block th sorted n db :
  well_typed db -> valid_block block th sorted db -> cf_get db blocks_state_hash_cf (sh_key (state_hash block)) = None ->
  exists diff b ub ib dbu db2 db4 db5 db3, add_steps block n db diff b ub ib dbu db2 db4 db5 db3.
Proof.
  intros Hdb Hv Hnew. pose proof Hv as [[diff Ed] [updates Eu] [icmds [Ei Hi]] Hworks Hh _ _ _ Hslot _ Hkeys Hst].
  destruct (from_precomputed_parts block diff Ed) as (cmds & works & coinbase & Ec & Ew & Ecb).
  destruct (all_public_keys_spec block cmds works Ec Ew) as (pks & provers & Ep & Epr & _ & Hin & Hinp).
  specialize (Hkeys pks Ep). rewrite Forall_forall in Hkeys. specialize (Hworks works Ew).
  assert (pk_wf (block_creator block)) as Hcr by (apply Hkeys, Hin; unfold consensus_public_keys; set_solver).
  destruct (production_batch_ok block coinbase db Hdb Hcr Ecb) as (production & Epd & Hprod).
  set (db1 := set_block_comparison_batch (state_hash block) (comparison_of block) db) in *.
  assert (well_typed db1) as Hdb1 by (by apply well_typed_put).
  destruct (block_indices_ok block th sorted n diff production db db1 cmds works Hdb1 Hv Ec Ew Hprod) as (b & Eb & Hb).
  destruct (add_user_commands_ok block cmds updates th sorted db1 Ec Eu Hdb1 Hh Hslot) as (ub & dbu & Eub & Hub & Hdbu & Hwu); [by intros; apply (Hst cmds)|].
  destruct (add_internal_commands_ok block icmds dbu Ei Hdbu Hh Hi) as (ib & db2 & Eib & Hib & Hdb2 & Hwi).
  set (dbw := write (b ++ ub ++ ib) db2). assert (well_typed dbw) as Hdbw.
  { apply well_typed_write; [|done]. repeat apply Forall_app_2; eapply batch_ok_typed; [apply Hb|done|done]. }
  destruct (add_epoch_slots_typed (epoch_count block) (global_slot_since_genesis block mod MAINNET_EPOCH_SLOT_COUNT) _ dbw Hdbw Hcr)
    as (db4 & E4 & Hdb4 & Hw4).
  destruct (add_snark_work_typed block works provers db4 Ew Epr Hdb4 Hh) as (db5 & E5 & Hdb5 & Hw5); [apply Forall_forall; auto|done|].
  assert (exists m, get_num_block_bytes db5 = Ok m) as (m & Em).
  { unfold get_num_block_bytes. destruct (cf_get db5 default_cf NUM_BLOCK_BYTES_PROCESSED) as [v|] eqn:E; [|by eexists].
    apply Hdb5 in E. destruct E as (z & Hz & ->). rewrite u64_from_be_bytes_be by done. by eexists. }
  set (db6 := cf_put default_cf NUM_BLOCK_BYTES_PROCESSED (u64_be (wrap64 (m + n))) db5).
  assert (well_typed db6) as Hdb6 by (apply well_typed_put; [apply (has_type_u64 _), wrap64_range|done]).
  destruct (add_event_typed (EventDb (DbBlock (NewBlock (state_hash block) (blockchain_length block)))) db6 Hdb6) as (z & db7 & E7 & Hdb7 & Hw7).
  exists diff, b, ub, ib, dbu, db2, db4, db5, db7. split; try done.
  - eapply writes_in_trans; [|eapply subset_families; [exact Hw7|reflexivity]]. unfold db6. frame.
  - unfold add_block. rewrite Hnew, Ed. cbn [mbind res_bind]. rewrite Epd. cbn [mbind res_bind]. fold db1. rewrite Eb. cbn [mbind res_bind]. rewrite Eub.
    cbn [mbind res_bind]. rewrite Eib. cbn [mbind res_bind]. fold dbw. rewrite E4. cbn [mbind res_bind]. rewrite E5. cbn [mbind res_bind].
    rewrite Em. cbn [mbind res_bind]. fold db6. by rewrite E7.
Qed.

Lemma add_block_spec block th sorted n db :
  well_typed db -> valid_block block th sorted db -> cf_get db blocks_state_hash_cf (sh_key (state_hash block)) = None ->
  exists diff b ub ib db2 db3,
    let db1 := set_block_comparison_batch (state_hash block) (comparison_of block) db in
    from_precomputed block = Ok diff /\ indices_ok block n diff db1 b /\ batch_ok user_families ub /\
    batch_ok [block_internal_command_counts_cf] ib /\ writes_in (count_families ++ internal_batch_families) db1 db2 /\
    add_block block n db = Ok (Some (DbBlock (NewBlock (state_hash block) (blockchain_length block))), db3) /\
    well_typed db3 /\ writes_in later_families (write (b ++ ub ++ ib) db2) db3.
Proof.
  intros Hdb Hv Hnew. destruct (add_block_steps block th sorted n db Hdb Hv Hnew) as (diff & b & ub & ib & dbu & db2 & db4 & db5 & db3 & []).
  exists diff, b, ub, ib, db2, db3. split_and!; try done.
  - eapply writes_in_trans; (eapply subset_families; [eassumption|reflexivity]).
  - eapply writes_in_trans; [eapply subset_families; [eassumption|reflexivity]|]. eapply writes_in_trans; (eapply subset_families; [eassumption|reflexivity]).
Qed.

(** Families that only the indices write to. *)
Definition only_index (cf : string) : bool :=
  forallb (fun fs => negb (family_in fs cf))
    [later_families; user_families; [block_internal_command_counts_cf]; count_families; internal_batch_families; [block_comparison_cf]].

Lemma added_get block db db1 db2 db3 b ub ib cf k :
  db1 = set_block_comparison_batch (state_hash block) (comparison_of block) db ->
  batch_ok user_families ub -> batch_ok [block_internal_command_counts_cf] ib ->
  writes_in (count_families ++ internal_batch_families) db1 db2 -> writes_in later_families (write (b ++ ub ++ ib) db2) db3 ->
  only_index cf = true ->
  cf_get db3 cf k = match last_write b cf k with Some o => o | None => cf_get db cf k end.
Proof.
  intros -> Hub Hib Hw2 Hw3 Hcf. unfold only_index in Hcf. cbn [forallb] in Hcf. rewrite !andb_true_iff, !negb_true_iff in Hcf.
  destruct Hcf as (Hl & Hu & Hi & Hc & Hib' & Hcmp & _). rewrite (writes_get _ _ _ _ _ Hw3 Hl), write_get, !last_write_app.
  rewrite (batch_ok_outside _ ib _ _ Hib Hi), (batch_ok_outside _ ub _ _ Hub Hu).
  rewrite (writes_get _ _ _ cf k Hw2) by (by rewrite family_in_app, Hc, Hib'). unfold set_block_comparison_batch. rewrite cf_get_put, decide_False; [done|].
  intros [= -> _]. cbn in Hcmp. done.
Qed.

(** The value written by the indices to a family of their own. *)
Lemma index_write block n diff db b cf k v :
  indices_ok block n diff db b ->
  forallb (fun fs => negb (family_in fs cf)) [count_batch_families; pair_families; creator_families; receiver_families; at_pk_families;
    [blocks_at_height_cf; blocks_at_global_slot_cf]] = true ->
  last_write (indices_list block n diff [] [] [] [] [] [] [] [] []) cf k = v ->
  family_in [blocks_height_sort_cf; blocks_global_slot_sort_cf] cf = false -> last_write b cf k = v.
Proof.
  intros [(production & pair & k1 & k2 & receiver & hk & sk & at_pks & i & j & -> & Hprod & Hpair & Hrec & Hpks & _) _] Hcf <- Hsort.
  cbn [forallb] in Hcf. rewrite !andb_true_iff, !negb_true_iff in Hcf. destruct Hcf as (H1' & H2' & H3' & H4' & H5' & H6' & _).
  unfold indices_list. cbv zeta. rewrite !last_write_app.
  rewrite (batch_ok_outside _ production _ _ Hprod H1'), (batch_ok_outside _ pair _ _ Hpair H2'), (batch_ok_outside _ receiver _ _ Hrec H4'),
    (batch_ok_outside _ at_pks _ _ Hpks H5').
  rewrite (last_write_outside creator_families [Put block_creator_cf _ _; _; _]) by (done || by repeat constructor).
  rewrite (last_write_outside [blocks_at_height_cf; blocks_at_global_slot_cf] [Put blocks_at_height_cf _ _; _]) by (done || by repeat constructor).
  rewrite (last_write_outside [blocks_at_height_cf; blocks_at_global_slot_cf] [Put blocks_at_global_slot_cf _ _; _]) by (done || by repeat constructor).
  rewrite !(last_write_outside [blocks_height_sort_cf; blocks_global_slot_sort_cf] [Put blocks_height_sort_cf _ _; _]) by (done || by repeat constructor).
  done.
Qed.

Lemma sh_key_not_pk h k : sh_wf h -> length k = 59%nat -> sh_key h <> k.
Proof. intros Hh Hk <-. unfold sh_key in Hk. by rewrite sh_wf_len in Hk. Qed.

(** The entry of a block by its hash, apart from the lists of public keys in the same family. *)
Lemma index_block block n diff db b h :
  indices_ok block n diff db b -> sh_wf h ->
  last_write b blocks_cf (sh_key h) =
    if decide (sh_key (state_hash block) = sh_key h) then Some (Some (u64_be n ++ to_json block)) else None.
Proof.
  intros [(production & pair & k1 & k2 & receiver & hk & sk & at_pks & i & j & -> & Hprod & Hpair & Hrec & Hpks & Hlen & _) _] Hh.
  unfold indices_list. cbv zeta. rewrite !last_write_app.
  rewrite (batch_ok_outside _ production _ _ Hprod), (batch_ok_outside _ pair _ _ Hpair), (batch_ok_outside _ receiver _ _ Hrec) by done.
  rewrite (last_write_none at_pks).
  2:{ eapply Forall_impl; [exact Hlen|]. intros w Hw [= Ecf Ek]. specialize (Hw Ecf). apply (sh_key_not_pk h (op_key w) Hh Hw). done. }
  cbn [last_write app op_cf op_key op_value set_block_ledger_diff_batch set_block_epoch_batch set_block_height_batch set_block_global_slot_batch
    set_block_parent_hash_batch set_block_date_time_batch set_block_staged_ledger_hash_batch set_block_genesis_state_hash_batch set_block_version_batch].
  repeat (rewrite decide_False by (intros E; discriminate E)).
  destruct (decide (sh_key (state_hash block) = sh_key h)) as [E|Hne].
  - rewrite decide_True by congruence. done.
  - rewrite decide_False by congruence. by rewrite decide_False by (intros E; discriminate E).
Qed.

Lemma last_write_creator block n diff db b k :
  indices_ok block n diff db b ->
  last_write b block_creator_cf k = if decide (sh_key (state_hash block) = k) then Some (Some (pk_key (block_creator block))) else None.
Proof.
  intros [(production & pair & k1 & k2 & receiver & hk & sk & at_pks & i & j & -> & Hprod & Hpair & Hrec & Hpks & _) _].
  unfold indices_list. cbv zeta. rewrite !last_write_app.
  rewrite (batch_ok_outside _ production _ _ Hprod), (batch_ok_outside _ pair _ _ Hpair), (batch_ok_outside _ receiver _ _ Hrec),
    (batch_ok_outside _ at_pks _ _ Hpks) by done.
  cbn [last_write app op_cf op_key op_value set_block_ledger_diff_batch set_block_epoch_batch set_block_height_batch set_block_global_slot_batch
    set_block_parent_hash_batch set_block_date_time_batch set_block_staged_ledger_hash_batch set_block_genesis_state_hash_batch set_block_version_batch].
  repeat (rewrite decide_False by (intros E; discriminate E)).
  destruct (decide (sh_key (state_hash block) = k)) as [E|Hne].
  - by rewrite decide_True by congruence.
  - rewrite decide_False by congruence. by repeat (rewrite decide_False by (intros E; discriminate E)).
Qed.

(** ** Blocks at a height and at a slot *)

Definition num_index (n i : Z) : list Z := u32_be n ++ u32_be i.
Lemma num_index_not_count n m i : num_index n i <> u32_be m.
Proof. intros E%(f_equal length). unfold num_index in E. by rewrite length_app, !length_u32_be in E. Qed.
Lemma num_index_inj n m i j : u32 n -> u32 m -> u32 i -> u32 j -> num_index n i = num_index m j -> n = m /\ i = j.
Proof.
  intros Hn Hm Hi Hj E. apply app_inj_1 in E as [E1 E2]; [|by rewrite !length_u32_be]. split; by apply u32_be_inj.
Qed.

(** The hashes listed at a height or a slot. *)
Definition listed (cf : string) (n : Z) : Db -> list StateHash -> Prop := numbered sh_key cf (u32_be n) cf (num_index n).

Lemma read_hashes_eq cf n db l :
  listed cf n db l -> Forall sh_wf l -> read_hashes (block_num_key n) cf db 0 (length l) = Ok l.
Proof.
  intros Hl Hwf. rewrite Forall_lookup in Hwf. assert (forall k m, drop m l = k -> read_hashes (block_num_key n) cf db m (length k) = Ok k) as Hk;
    [|by apply Hk].
  induction k as [|h k IH]; intros m Hm; [done|]. cbn [length read_hashes]. rewrite block_num_key_ok. cbn [mbind res_bind].
  assert (l !! m = Some h) as Hh by (rewrite <- (Nat.add_0_r m), <- lookup_drop, Hm; done).
  pose proof (nl_entry _ _ _ _ _ _ _ Hl m h Hh) as E. unfold num_index in E. rewrite E. unfold sh_key.
  rewrite sh_from_bytes_as_bytes by (by apply (Hwf m)). cbn [mbind res_bind]. rewrite (IH (S m)); [done|].
  apply (drop_S l h m) in Hh. congruence.
Qed.

(** A hash appended to its list, and the other lists of the family left alone. *)
Lemma listed_snoc cf n i h db db' l :
  get_u32 db cf (u32_be n) = Ok i -> u32 n -> listed cf n db l -> Z.of_nat (length l) < U32_MAX ->
  (forall k, cf_get db' cf k = match last_write [Put cf (u32_be n) (succ_u32 i); Put cf (num_index n i) (sh_key h)] cf k with
                               | Some o => o | None => cf_get db cf k end) ->
  listed cf n db' (l ++ [h]) /\ forall m k, u32 m -> m <> n -> listed cf m db k -> listed cf m db' k.
Proof.
  intros Ei Hn Hl Hlt Hg. pose proof (nl_count _ _ _ _ _ _ _ Hl) as Ec. assert (i = Z.of_nat (length l)) as -> by congruence.
  cbn [last_write op_cf op_key op_value] in Hg.
  assert (forall (k k' : list Z), k <> k' -> (cf, k) <> (cf, k')) as Hpair by (intros; congruence). split.
  - apply (numbered_snoc _ _ _ _ _ db); [done|done|..].
    + rewrite Hg, decide_False, decide_True by (done || apply Hpair, num_index_not_count). done.
    + rewrite Hg, decide_True by done. done.
    + intros j Hj. rewrite Hg. rewrite decide_False by (apply Hpair; intros E; apply num_index_inj in E as [_ E]; [lia|done|done|ints|ints]).
      rewrite decide_False by (apply Hpair; intros E; symmetry in E; by apply num_index_not_count in E). done.
  - intros m k Hm Hne Hk. apply (numbered_same _ _ _ _ _ db); [done|..].
    + rewrite Hg. rewrite decide_False by apply Hpair, num_index_not_count.
      rewrite decide_False by (apply Hpair; intros E; apply u32_be_inj in E; congruence). done.
    + intros j. rewrite Hg. rewrite decide_False by (apply Hpair; intros E; apply app_inj_1 in E as [E _]; [|by rewrite !length_u32_be];
        apply u32_be_inj in E; congruence).
      rewrite decide_False by (apply Hpair; intros E; symmetry in E; by apply num_index_not_count in E). done.
Qed.

Lemma last_write_listed block n diff db b cf k :
  indices_ok block n diff db b -> cf ∈ list_families ->
  exists i, get_u32 db cf (u32_be (if String.eqb cf blocks_at_height_cf then blockchain_length block else global_slot_since_genesis block)) = Ok i /\
    let m := if String.eqb cf blocks_at_height_cf then blockchain_length block else global_slot_since_genesis block in
    last_write b cf k = last_write [Put cf (u32_be m) (succ_u32 i); Put cf (num_index m i) (sh_key (state_hash block))] cf k.
Proof.
  intros [(production & pair & k1 & k2 & receiver & hk & sk & at_pks & i & j & -> & Hprod & Hpair & Hrec & Hpks & _ & Ei & Ej) _] Hcf.
  unfold list_families in Hcf. apply elem_of_cons in Hcf as [->|Hcf]; [exists i|apply elem_of_cons in Hcf as [->|Hcf]; [exists j|by apply not_elem_of_nil in Hcf]];
    (split; [done|]); cbn [String.eqb]; unfold indices_list; cbv zeta; rewrite !last_write_app;
    rewrite (batch_ok_outside _ production _ _ Hprod), (batch_ok_outside _ pair _ _ Hpair), (batch_ok_outside _ receiver _ _ Hrec),
      (batch_ok_outside _ at_pks _ _ Hpks) by done.
  - rewrite (last_write_outside [blocks_at_global_slot_cf] [Put blocks_at_global_slot_cf _ _; _]) by (done || by repeat constructor).
    rewrite (last_write_outside [block_version_cf] (set_block_version_batch _ _)) by (done || by repeat constructor).
    change (Put blocks_at_height_cf (u32_be (blockchain_length block) ++ u32_be i) _) with
      (Put blocks_at_height_cf (num_index (blockchain_length block) i) (sh_key (state_hash block))).
    change (if String.eqb blocks_at_height_cf blocks_at_height_cf then blockchain_length block else global_slot_since_genesis block) with (blockchain_length block).
    destruct (last_write [Put blocks_at_height_cf _ _; _] _ _); [done|]. by compute_index.
  - rewrite (last_write_outside [block_version_cf] (set_block_version_batch _ _)) by (done || by repeat constructor).
    change (Put blocks_at_global_slot_cf (u32_be (global_slot_since_genesis block) ++ u32_be j) _) with
      (Put blocks_at_global_slot_cf (num_index (global_slot_since_genesis block) j) (sh_key (state_hash block))).
    change (if String.eqb blocks_at_global_slot_cf blocks_at_height_cf then blockchain_length block else global_slot_since_genesis block) with (global_slot_since_genesis block).
    destruct (last_write [Put blocks_at_global_slot_cf _ _; _] _ _); [done|]. by compute_index.
Qed.

Context `{SortBy StateHash}.

(** A new block is appended to the blocks of its height and of its slot, and to no other: the getters sort what
    was listed there with the block at the end. *)
Theorem block_listed block th sorted n db at_height at_slot :
  well_typed db -> valid_block block th sorted db -> cf_get db blocks_state_hash_cf (sh_key (state_hash block)) = None ->
  listed blocks_at_height_cf (blockchain_length block) db at_height ->
  listed blocks_at_global_slot_cf (global_slot_since_genesis block) db at_slot ->
  Forall sh_wf at_height -> Forall sh_wf at_slot -> Z.of_nat (length at_height) < U32_MAX -> Z.of_nat (length at_slot) < U32_MAX ->
  exists event db', add_block block n db = Ok (event, db') /\
    get_blocks_at_height db' (blockchain_length block) = sort_by (listed_cmp db') (at_height ++ [state_hash block]) /\
    get_blocks_at_slot db' (global_slot_since_genesis block) = sort_by (listed_cmp db') (at_slot ++ [state_hash block]) /\
    (forall m l, u32 m -> m <> blockchain_length block -> listed blocks_at_height_cf m db l -> Forall sh_wf l ->
       get_blocks_at_height db' m = sort_by (listed_cmp db') l) /\
    (forall m l, u32 m -> m <> global_slot_since_genesis block -> listed blocks_at_global_slot_cf m db l -> Forall sh_wf l ->
       get_blocks_at_slot db' m = sort_by (listed_cmp db') l).
Proof.
  intros Hdb Hv Hnew Hl1 Hl2 Hwf1 Hwf2 Hlt1 Hlt2.
  destruct (add_block_spec block th sorted n db Hdb Hv Hnew) as (diff & b & ub & ib & db2 & db3 & Ed & Hi & Hub & Hib & Hw2 & Ea & Hdb3 & Hw3).
  set (db1 := set_block_comparison_batch (state_hash block) (comparison_of block) db) in *.
  pose proof (fun cf k => added_get block db db1 db2 db3 b ub ib cf k eq_refl Hub Hib Hw2 Hw3) as Hget.
  destruct Hv as [_ _ _ _ Hh _ _ Hhgt Hslot _ _ _].
  assert (forall cf k, cf <> block_comparison_cf -> get_u32 db1 cf k = get_u32 db cf k) as H1'.
  { intros cf k Hne. unfold db1, set_block_comparison_batch, get_u32. by rewrite cf_get_put, decide_False by congruence. }
  assert (forall m l, listed blocks_at_height_cf m db3 l -> Forall sh_wf l -> get_blocks_at_height db3 m = sort_by (listed_cmp db3) l) as Hgh.
  { intros m l Hl Hwf. unfold get_blocks_at_height, get_num_blocks_at_height. rewrite (nl_count _ _ _ _ _ _ _ Hl). cbn [mbind res_bind].
    by rewrite Nat2Z.id, read_hashes_eq by done. }
  assert (forall m l, listed blocks_at_global_slot_cf m db3 l -> Forall sh_wf l -> get_blocks_at_slot db3 m = sort_by (listed_cmp db3) l) as Hgs.
  { intros m l Hl Hwf. unfold get_blocks_at_slot, get_num_blocks_at_slot. rewrite (nl_count _ _ _ _ _ _ _ Hl). cbn [mbind res_bind].
    by rewrite Nat2Z.id, read_hashes_eq by done. }
  destruct (last_write_listed block n diff db1 b blocks_at_height_cf [] Hi ltac:(set_solver)) as (i & Ei & _).
  destruct (last_write_listed block n diff db1 b blocks_at_global_slot_cf [] Hi ltac:(set_solver)) as (j & Ej & _).
  rewrite H1' in Ei, Ej by done.
  destruct (listed_snoc blocks_at_height_cf (blockchain_length block) i (state_hash block) db db3 at_height Ei Hhgt Hl1 Hlt1) as (L1 & O1).
  { intros k. rewrite Hget by done. destruct (last_write_listed block n diff db1 b blocks_at_height_cf k Hi ltac:(set_solver)) as (i' & Ei' & ->).
    rewrite H1' in Ei' by done. assert (i' = i) as -> by congruence. done. }
  destruct (listed_snoc blocks_at_global_slot_cf (global_slot_since_genesis block) j (state_hash block) db db3 at_slot Ej Hslot Hl2 Hlt2) as (L2 & O2).
  { intros k. rewrite Hget by done. destruct (last_write_listed block n diff db1 b blocks_at_global_slot_cf k Hi ltac:(set_solver)) as (j' & Ej' & ->).
    rewrite H1' in Ej' by done. assert (j' = j) as -> by congruence. done. }
  do 2 eexists. split; [exact Ea|]. split_and!.
  - apply Hgh; [done|]. apply Forall_app; split; [done|by apply Forall_singleton].
  - apply Hgs; [done|]. apply Forall_app; split; [done|by apply Forall_singleton].
  - intros m l Hm Hne Hl. apply Hgh. by apply O1.
  - intros m l Hm Hne Hl. apply Hgs. by apply O2.
Qed.
End Adding.

(** * Examples *)

Section Examples.
#[local] Existing Instances map_db map_db_spec countable_json one_txn insertion_sort_by whole_decimal digest_example untagged_json.

Definition coinbase_transaction (_ : UserCommandWithStatus) : TxnHash := txn_v2_example.

(** A block with a coinbase and nothing else. *)
Lemma coinbase_block_valid (sorted : UserCommandWithStatus -> list BlockComparison) :
  valid_block coinbase_block coinbase_transaction sorted (∅ : Db).
Proof.
  split.
  - eexists. vm_compute. reflexivity.
  - eexists. vm_compute. reflexivity.
  - eexists. split; [vm_compute; reflexivity|]. apply Forall_singleton, pk_example_wf.
  - intros works E. vm_compute in E. injection E as <-. vm_compute. discriminate.
  - vm_compute. done.
  - vm_compute. done.
  - vm_compute. done.
  - vm_compute; split; (discriminate || reflexivity).
  - vm_compute; split; (discriminate || reflexivity).
  - vm_compute; split; (discriminate || reflexivity).
  - intros pks E. vm_compute in E. injection E as <-. repeat constructor; apply pk_example_wf.
  - intros cmds c E Hc. vm_compute in E. injection E as <-. by apply not_elem_of_nil in Hc.
Qed.

Lemma block_listed_witness :
  exists event db', add_block coinbase_block 100 (∅ : Db) = Ok (event, db') /\ get_blocks_at_height db' 2 = Ok [sh_default].
Proof.
  destruct (block_listed coinbase_block coinbase_transaction (fun _ => []) 100 (∅ : Db) [] [] empty_well_typed (coinbase_block_valid _))
    as (event & db' & E & Eh & _).
  - reflexivity.
  - apply numbered_nil. reflexivity.
  - apply numbered_nil. reflexivity.
  - constructor.
  - constructor.
  - reflexivity.
  - reflexivity.
  - exists event, db'. split; [exact E|]. exact Eh.
Defined.
End Examples.
