(* ===== verification/BestTip.v ===== *)
(** The stores follow the best tip (src/rust/src/store/block_store_impl.rs, [set_best_block]): the invariant that ties what
    is kept about the best chain to the blocks of that chain, and that making a block the best one keeps it. *)

From S2P Require Import Prelude Sorting Bytes Base StoreKeys Command AccountDiff Account Coinbase Precomputed Signed LedgerDiff BlockOrder InternalCommand Branch WitnessTree ColumnFamilies Db Events Codes BlockCodes Schema BlockIndex Usernames InternalStore CommandStore Canonicity Reorg SnarkStore SnarkLists ProverFees BestLedger BlockStore.

(** * Counts that follow the blocks *)

Section Counts.
Context `{SpeedbSpec} `{Json DbInternalCommandWithData} `{Json (list UserCommandWithStatus)} `{UsernameIter}.
Implicit Types (db : Db) (us : list BlockUpdate).

Lemma sub_count_typed cf key decr db :
  well_typed db -> value_type cf key = TU32 -> 0 <= decr ->
  exists n, get_u32 db cf key = Ok n /\ sub_count cf key decr db = Ok (cf_put cf key (u32_be (saturating_sub n decr)) db) /\
    well_typed (cf_put cf key (u32_be (saturating_sub n decr)) db).
Proof.
  intros Hdb Ht Hd. destruct (get_u32_typed db cf key Hdb Ht) as (n & Hn & E). exists n. unfold sub_count. rewrite E.
  split_and!; [done|done|]. apply well_typed_put; [|done]. rewrite Ht. apply has_type_u32. unfold saturating_sub. ints.
Qed.
Lemma add_count_step cf key incr db : well_typed db -> value_type cf key = TU32 -> typed_step [cf] (add_count cf key incr db) db.
Proof.
  intros Hdb Ht. destruct (add_count_typed cf key incr db Hdb Ht) as (n & _ & -> & Hdb'). eexists. split_and!; [done|done|].
  apply writes_in_put. by left.
Qed.
Lemma sub_count_step cf key decr db : well_typed db -> value_type cf key = TU32 -> 0 <= decr -> typed_step [cf] (sub_count cf key decr db) db.
Proof.
  intros Hdb Ht Hd. destruct (sub_count_typed cf key decr db Hdb Ht Hd) as (n & _ & -> & Hdb'). eexists. split_and!; [done|done|].
  apply writes_in_put. by left.
Qed.
Lemma add_count_touches key incr db : touches [] [key] (add_count default_cf key incr db) db.
Proof. apply touches_pure. intros n. apply touches_put. unfold in_scope. cbn. by rewrite bool_decide_true. Qed.
Lemma sub_count_touches key decr db : touches [] [key] (sub_count default_cf key decr db) db.
Proof. apply touches_pure. intros n. apply touches_put. unfold in_scope. cbn. by rewrite bool_decide_true. Qed.
Lemma wrap32_nonneg z : 0 <= wrap32 z.
Proof. pose proof (u32_wrap32 z). ints. Qed.

(** ** User commands *)

Definition user_keys : list (list Z) :=
  [TOTAL_NUM_CANONICAL_USER_COMMANDS_KEY; TOTAL_NUM_APPLIED_CANONICAL_USER_COMMANDS_KEY; TOTAL_NUM_FAILED_CANONICAL_USER_COMMANDS_KEY].

Lemma update_user_commands_touches blocks db : touches [] user_keys (update_user_commands blocks db) db.
Proof.
  apply touches_bind; [|intros db1]; apply touches_foldM; intros db2 u; apply touches_pure; intros [cmds|]; try apply touches_ok;
    (apply touches_bind; [|intros db3; apply touches_bind; [|intros db4]]); intros db' E; eapply kept_weaken;
    [eapply sub_count_touches, E|done|done|eapply sub_count_touches, E|done|done|eapply sub_count_touches, E|done|done
    |eapply add_count_touches, E|done|done|eapply add_count_touches, E|done|done|eapply add_count_touches, E|done|done].
Qed.

Lemma update_user_commands_typed blocks db :
  well_typed db -> (forall u, u ∈ up_unapply blocks ++ up_apply blocks -> exists cmds, get_block_user_commands db (bu_state_hash u) = Ok (Some cmds)) ->
  typed_step [default_cf] (update_user_commands blocks db) db.
Proof.
  intros Hdb Hg.
  assert (forall f us db, (forall db u cmds, well_typed db -> get_block_user_commands db (bu_state_hash u) = Ok (Some cmds) -> typed_step [default_cf] (f db u) db) ->
    well_typed db -> (forall u, u ∈ us -> exists cmds, get_block_user_commands db (bu_state_hash u) = Ok (Some cmds)) ->
    typed_step [default_cf] (foldM f db us) db) as Hloop.
  { intros f us. induction us as [|u us IH]; intros d Hf Hd Hu; [by apply typed_step_ok|]. cbn [foldM].
    destruct (Hu u) as (cmds & Eu); [by left|]. destruct (Hf d u cmds Hd Eu) as (d1 & -> & Hd1 & Hw1). cbn [mbind res_bind].
    apply (typed_step_then _ _ d1); [done|]. apply IH; [done|done|]. intros v Hv. unfold get_block_user_commands.
    rewrite (writes_get _ _ _ _ _ Hw1) by done. apply Hu. by right. }
  unfold update_user_commands.
  destruct (Hloop unapply_block_commands (up_unapply blocks) db) as (db1 & -> & Hdb1 & Hw1); [|done|intros u Hu; apply Hg; set_solver|].
  { intros d u cmds Hd Eu. unfold unapply_block_commands. rewrite Eu. cbn [ok_flatten mbind res_bind].
    repeat (apply typed_step_bind; [|intros; try assumption]); try (apply sub_count_step; [done|done|apply wrap32_nonneg]). }
  cbn [mbind res_bind]. apply (typed_step_then _ _ db1); [done|]. apply Hloop; [|done|].
  { intros d u cmds Hd Eu. unfold apply_block_commands. rewrite Eu. cbn [ok_flatten mbind res_bind].
    repeat (apply typed_step_bind; [|intros; try assumption]); try (by apply add_count_step). }
  intros u Hu. unfold get_block_user_commands. rewrite (writes_get _ _ _ _ _ Hw1) by done. apply Hg. set_solver.
Qed.

(** ** Internal commands *)

Lemma get_internal_commands_agree db db' h :
  agree [block_internal_command_counts_cf; internal_commands_cf] [] db db' -> get_internal_commands db' h = get_internal_commands db h.
Proof.
  intros Ha. unfold get_internal_commands, get_block_internal_commands_count, opt_u32, get_block_internal_command. rewrite Ha by done.
  destruct (map_res _ _) as [[num|]| |]; cbn [mbind res_bind]; [|done..]. apply mapM_res_ext. intros i _. unfold internal_commmand_block_key.
  destruct (build_key _); cbn [mbind res_bind]; [by rewrite Ha|done..].
Qed.

Context (g : BlockUpdate -> list DbInternalCommandWithData).
Definition num_commands us : Z := Z.of_nat (length (concat (g <$> us))).

Lemma num_commands_cons u us : num_commands (u :: us) = Z.of_nat (length (g u)) + num_commands us.
Proof. unfold num_commands. cbn [fmap list_fmap concat]. rewrite length_app. lia. Qed.
Lemma num_commands_nonneg us : 0 <= num_commands us.
Proof. unfold num_commands. lia. Qed.

Lemma unapply_internal_loop us n db :
  well_typed db -> (forall u, u ∈ us -> get_internal_commands db (bu_state_hash u) = Ok (g u)) -> 0 <= n -> n + num_commands us <= U32_MAX ->
  get_canonical_internal_commands_count db = Ok (n + num_commands us) ->
  exists db', foldM (fun db u => cmds ← get_internal_commands db (bu_state_hash u);
      decrement_canonical_internal_commands_count (wrap32 (Z.of_nat (length cmds))) db) db us = Ok db' /\ well_typed db' /\
    kept [] [TOTAL_NUM_CANONICAL_FEE_TRANSFERS_KEY] db db' /\ get_canonical_internal_commands_count db' = Ok n.
Proof.
  intros Hdb Hg Hn Hb Ec. revert db Hdb Hg Ec. induction us as [|u us IH]; intros db Hdb Hg Ec.
  { exists db. split_and!; [done|done|done|]. rewrite Ec. f_equal. unfold num_commands. cbn. lia. }
  rewrite num_commands_cons in Hb, Ec. pose proof (num_commands_nonneg us). cbn [foldM]. rewrite Hg by (by left). cbn [mbind res_bind].
  unfold decrement_canonical_internal_commands_count, get_canonical_internal_commands_count in *.
  rewrite wrap32_id, (sub_count_eq _ _ _ _ _ Ec) by ints. cbn [mbind res_bind].
  set (m := n + _ - _). assert (m = n + num_commands us) as Em by (unfold m; lia). set (db1 := cf_put _ _ _ db).
  assert (kept [] [TOTAL_NUM_CANONICAL_FEE_TRANSFERS_KEY] db db1) as Hk1 by (by apply kept_put).
  destruct (IH ltac:(lia) db1) as (db2 & E2 & Hdb2 & Hk2 & Ec2).
  - apply well_typed_put; [|done]. apply has_type_u32. ints.
  - intros v Hv. rewrite (get_internal_commands_agree db) by carry. apply Hg. by right.
  - unfold db1. rewrite get_u32_put by ints. by rewrite Em.
  - exists db2. split_and!; [exact E2|done|by eapply kept_trans|done].
Qed.

Lemma apply_internal_loop us n db :
  well_typed db -> (forall u, u ∈ us -> get_internal_commands db (bu_state_hash u) = Ok (g u)) -> 0 <= n -> n + num_commands us <= U32_MAX ->
  get_canonical_internal_commands_count db = Ok n ->
  exists db', foldM (fun db u => cmds ← get_internal_commands db (bu_state_hash u);
      increment_canonical_internal_commands_count (wrap32 (Z.of_nat (length cmds))) db) db us = Ok db' /\ well_typed db' /\
    kept [] [TOTAL_NUM_CANONICAL_FEE_TRANSFERS_KEY] db db' /\ get_canonical_internal_commands_count db' = Ok (n + num_commands us).
Proof.
  revert n db. induction us as [|u us IH]; intros n db Hdb Hg Hn Hb Ec.
  { exists db. split_and!; [done|done|done|]. rewrite Ec. f_equal. unfold num_commands. cbn. lia. }
  rewrite num_commands_cons in *. pose proof (num_commands_nonneg us). cbn [foldM]. rewrite Hg by (by left). cbn [mbind res_bind].
  unfold increment_canonical_internal_commands_count, get_canonical_internal_commands_count in *.
  rewrite wrap32_id, (add_count_eq _ _ _ _ _ Ec) by ints. cbn [mbind res_bind]. set (db1 := cf_put _ _ _ db).
  assert (kept [] [TOTAL_NUM_CANONICAL_FEE_TRANSFERS_KEY] db db1) as Hk1 by (by apply kept_put).
  destruct (IH (n + Z.of_nat (length (g u))) db1) as (db2 & E2 & Hdb2 & Hk2 & Ec2).
  - apply well_typed_put; [|done]. apply has_type_u32. ints.
  - intros v Hv. rewrite (get_internal_commands_agree db) by carry. apply Hg. by right.
  - lia.
  - lia.
  - unfold db1. by rewrite get_u32_put by ints.
  - exists db2. split_and!; [exact E2|done|by eapply kept_trans|]. rewrite Ec2. f_equal. lia.
Qed.

Lemma update_internal_spec blocks n db :
  well_typed db -> (forall u, u ∈ up_unapply blocks ++ up_apply blocks -> get_internal_commands db (bu_state_hash u) = Ok (g u)) -> 0 <= n ->
  n + num_commands (up_unapply blocks) <= U32_MAX -> n + num_commands (up_apply blocks) <= U32_MAX ->
  get_canonical_internal_commands_count db = Ok (n + num_commands (up_unapply blocks)) ->
  exists db', update_internal_commands blocks db = Ok db' /\ well_typed db' /\ kept [] [TOTAL_NUM_CANONICAL_FEE_TRANSFERS_KEY] db db' /\
    get_canonical_internal_commands_count db' = Ok (n + num_commands (up_apply blocks)).
Proof.
  intros Hdb Hg Hn Hu Ha Ec. unfold update_internal_commands.
  destruct (unapply_internal_loop (up_unapply blocks) n db) as (db1 & -> & Hdb1 & Hk1 & E1); [done|set_solver|done..|]. cbn [mbind res_bind].
  destruct (apply_internal_loop (up_apply blocks) n db1) as (db2 & -> & Hdb2 & Hk2 & E2); [done| |done..|].
  { intros u Hu'. rewrite (get_internal_commands_agree db) by carry. apply Hg. set_solver. }
  exists db2. split_and!; [done|done|by eapply kept_trans|done].
Qed.

(** ** Usernames *)

Definition username_families : list string := [username_pk_num_cf; username_pk_index_cf].

Lemma unapply_username_typed db pk : well_typed db -> pk_wf pk -> typed_step username_families (unapply_username db pk) db.
Proof.
  intros Hdb Hpk. unfold unapply_username, get_pk_num_username_updates, opt_u32.
  destruct (map_u32_typed db username_pk_num_cf (pk_key pk) Hdb eq_refl) as (o & -> & Ho). cbn [mbind res_bind].
  destruct o as [num|]; [|by apply typed_step_ok]. rewrite pk_index_key_ok by done. cbn [mbind res_bind]. specialize (Ho num eq_refl).
  destruct (Z.eqb_spec num 0); (eexists; split_and!; [done| |frame]); apply well_typed_delete; [by apply well_typed_delete|].
  apply well_typed_put; [|done]. apply has_type_u32. ints.
Qed.
Lemma apply_username_typed db pk name : well_typed db -> pk_wf pk -> typed_step username_families (apply_username db (pk, name)) db.
Proof.
  intros Hdb Hpk. unfold apply_username, get_pk_num_username_updates, opt_u32. cbn [fst snd].
  destruct (map_u32_typed db username_pk_num_cf (pk_key pk) Hdb eq_refl) as (o & -> & Ho). cbn [mbind res_bind].
  rewrite pk_index_key_ok by done. cbn [mbind res_bind]. eexists. split_and!; [done| |frame].
  apply well_typed_put; [done|]. apply well_typed_put; [|done]. apply has_type_u32. destruct o; [apply u32_wrap32|ints].
Qed.

Lemma update_usernames_typed (us vs : list UsernameUpdate) db :
  well_typed db -> Forall wf_updates us -> Forall wf_updates vs -> typed_step username_families (update_usernames (mkUpdate us vs) db) db.
Proof.
  intros Hdb Hu Hv. rewrite Forall_forall in Hu, Hv.
  assert (forall m, wf_updates m -> forall e, e ∈ username_iter m -> pk_wf e.1) as Hm.
  { intros m Hm [pk n] He. rewrite (username_iter_perm m) in He. apply elem_of_map_to_list in He. apply Hm. by eexists. }
  apply typed_step_bind; [|intros db1 Hdb1]; (apply typed_step_foldM; [done|]); intros db2 m Hin Hdb2; (apply typed_step_foldM; [done|]);
    intros db3 a Ha Hdb3.
  - apply list_elem_of_fmap in Ha as (e & -> & He). apply unapply_username_typed; [done|]. by apply (Hm m); [apply Hv|].
  - destruct a as [pk n]. apply apply_username_typed; [done|]. by apply (Hm m (Hu m Hin) (pk, n)).
Qed.
End Counts.

(** * What the stores say about the best chain *)

(** What the store keeps of a block, by its hash. *)
Record BlockContents := mkContents {
  bc_diff : LedgerDiff;
  bc_works : list SnarkWorkSummary;
  bc_names : UsernameUpdate;
  bc_user : list UserCommandWithStatus;
  bc_internal : list DbInternalCommandWithData
}.

Definition contents_wf (c : BlockContents) : Prop := works_wf (bc_works c) /\ wf_updates (bc_names c).

Definition content_families : list string :=
  [block_ledger_diff_cf; block_snark_counts_cf; snarks_cf; usernames_per_block_cf; user_commands_per_block_cf;
   block_internal_command_counts_cf; internal_commands_cf].

Section View.
Context `{SpeedbSpec} `{JsonSpec Account} `{JsonSpec LedgerDiff} `{Json SnarkWorkSummary} `{JsonSpec SnarkFees} `{JsonSpec UsernameUpdate}.
Context `{Json (list UserCommandWithStatus)} `{Json DbInternalCommandWithData} `{JsonSpec IndexerEvent} `{Json (list StateHash)} `{Json string}.
Context `{Json SnarkWorkSummaryWithStateHash}.
Context `{DiffIter} `{ProverIter} `{UsernameIter}.
Implicit Types (db : Db) (h : StateHash) (pk : PublicKey) (s : Stored) (l chain : list Stored).

Record holds db h (c : BlockContents) : Prop := {
  ho_diff : cf_get db block_ledger_diff_cf (sh_key h) = Some (to_json (bc_diff c));
  ho_works : get_block_snark_work db h = Ok (Some (bc_works c));
  ho_names : get_block_username_updates db h = Ok (Some (bc_names c));
  ho_user : get_block_user_commands db h = Ok (Some (bc_user c));
  ho_internal : get_internal_commands db h = Ok (bc_internal c)
}.

Lemma get_block_snark_work_agree db db' h :
  agree [block_snark_counts_cf; snarks_cf] [] db db' -> get_block_snark_work db' h = get_block_snark_work db h.
Proof.
  intros Ha. unfold get_block_snark_work, get_block_snarks_count. rewrite Ha by done.
  destruct (map_res _ _) as [[num|]| |]; cbn [mbind res_bind]; [|done..]. f_equal. apply mapM_res_ext. intros i _.
  destruct (block_index_key _ _); cbn [mbind res_bind]; [by rewrite Ha|done..].
Qed.

Lemma agree_subset cfs keys cfs' db db' : agree cfs keys db db' -> forallb (family_in cfs) cfs' = true -> agree cfs' [] db db'.
Proof.
  intros Ha Hs cf k Hk. apply Ha. unfold in_scope in *. apply orb_true_iff in Hk as [Hk|Hk]; [|by destruct (String.eqb _ _)].
  apply family_in_elem, list_elem_of_In in Hk. rewrite forallb_forall in Hs. by rewrite Hs.
Qed.

Lemma holds_agree db db' h c : agree content_families [] db db' -> holds db h c -> holds db' h c.
Proof.
  intros Ha []. split.
  - by rewrite Ha.
  - by rewrite (get_block_snark_work_agree db) by (by eapply agree_subset).
  - unfold get_block_username_updates. by rewrite Ha.
  - unfold get_block_user_commands. by rewrite Ha.
  - by rewrite (get_internal_commands_agree db) by (by eapply agree_subset).
Qed.

Lemma canonical_agree db db' l : agree canonicity_families [] db db' -> well_typed db' -> canonical db l -> canonical db' l.
Proof.
  intros Ha Hdb' Hc. pose proof (ca_production _ _ Hc) as Hp. pose proof (pr_typed _ _ Hp) as Hdb. split.
  - split; [done|apply Hp| | |].
    + intros pk e Hpk He. rewrite pk_epoch_count_eq by done. rewrite (agree_u32 _ _ _ _ _ _ Ha) by done.
      rewrite <- pk_epoch_count_eq by done. by apply Hp.
    + intros pk Hpk. unfold get_block_production_pk_canonical_total_count. rewrite (agree_u32 _ _ _ _ _ _ Ha) by done. by apply Hp.
    + intros e He. rewrite epoch_count_eq by done. rewrite (agree_u32 _ _ _ _ _ _ Ha) by done. rewrite <- epoch_count_eq by done. by apply Hp.
  - intros n Hn. rewrite Ha by done. by apply Hc.
  - intros n Hn. rewrite Ha by done. by apply Hc.
Qed.

Lemma best_accounts_agree db db' get : agree account_families [] db db' -> best_accounts db get -> best_accounts db' get.
Proof. intros Ha Hb. split; intros; rewrite Ha by done; by apply Hb. Qed.

Lemma all_names_agree db db' f : agree username_families [] db db' -> all_names db f -> all_names db' f.
Proof. intros Ha Hf pk Hpk. apply (names_frame db); [by apply Hf|by rewrite Ha|]. intros i _. by rewrite Ha. Qed.

Definition fee_reads : list string :=
  [snark_prover_fees_cf; snark_prover_max_fee_cf; snark_prover_min_fee_cf; snark_prover_fees_epoch_historical_cf].
Lemma stored_fees_agree db db' p f : agree fee_reads [] db db' -> stored_fees db p f -> stored_fees db' p f.
Proof.
  intros Ha (t & m & n & E1 & E2 & E3 & ->). exists t, m, n.
  unfold get_snark_prover_total_fees, get_snark_prover_max_fee, get_snark_prover_min_fee, get_fee, u64_at in *. by rewrite !Ha.
Qed.
Lemma history_agree db db' : agree fee_reads [] db db' -> history_ok db -> history_ok db'.
Proof. intros Ha Hh k v E. rewrite Ha in E by done. by apply Hh. Qed.

Lemma canonical_counts_agree db db' cmds : agree [] user_keys db db' -> canonical_counts db cmds -> canonical_counts db' cmds.
Proof.
  intros Ha Hc. unfold canonical_counts, get_canonical_user_commands_count, get_applied_canonical_user_commands_count,
    get_failed_canonical_user_commands_count in *. by rewrite !(agree_u32 _ _ _ _ _ _ Ha).
Qed.

Lemma event_log_agree db db' es : agree [events_cf] [NEXT_EVENT_SEQ_NUM_KEY] db db' -> event_log db es -> event_log db' es.
Proof.
  intros Ha Hl. split; [|apply Hl|].
  - unfold get_next_seq_num. rewrite (agree_u32 _ _ _ _ _ _ Ha) by done. apply Hl.
  - intros i e Hi. rewrite Ha by done. by apply Hl.
Qed.

(** ** The invariant *)

Context (content : StateHash -> BlockContents).
Notation held s := (content (st_hash s)).

(** The names a key has taken on the chain, oldest first. *)
Definition chain_names chain (k : PublicKey) : list string := omap (fun s => bc_names (held s) !! k) (rev chain).
Definition chain_works chain : list SnarkWorkSummary := concat ((fun s => bc_works (held s)) <$> chain).
Definition chain_user chain : list UserCommandWithStatus := concat ((fun s => bc_user (held s)) <$> chain).
Definition chain_internal chain : list DbInternalCommandWithData := concat ((fun s => bc_internal (held s)) <$> chain).

(** The stores are those of the chain, its tip first: its blocks are the canonical ones, the names and the counts are those
    of its blocks; the best ledger and the fees of provers are the given ones. *)
Record best_view db chain (get : Accounts) (accounts : Z) (fees : PublicKey -> SnarkFees) (es : list IndexerEvent) : Prop := {
  bv_tip : get_best_block_hash db = Ok (st_hash <$> head chain);
  bv_canonical : canonical db chain;
  bv_accounts : best_accounts db get;
  bv_accounts_wf : accounts_wf get;
  bv_num_accounts : get_u32 db default_cf TOTAL_NUM_ACCOUNTS_KEY = Ok accounts;
  bv_history : history_ok db;
  bv_fees p : stored_fees db p (fees p);
  bv_works : get_snarks_total_canonical_count db = Ok (Z.of_nat (length (chain_works chain)));
  bv_names : all_names db (chain_names chain);
  bv_internal : get_canonical_internal_commands_count db = Ok (Z.of_nat (length (chain_internal chain)));
  bv_user : canonical_counts db (chain_user chain);
  bv_events : event_log db es
}.

(** The counts of a chain fit. *)
Definition chain_bounded chain : Prop :=
  Z.of_nat (length (chain_works chain)) <= U32_MAX /\ Z.of_nat (length (chain_internal chain)) <= U32_MAX /\
  Z.of_nat (length (chain_user chain)) <= U32_MAX.

(** ** The steps *)

(** The blocks of a move from the blocks [la] to the blocks [lb], both tip first. *)
Definition moved (la lb : list Stored) : DbBlockUpdate := mkUpdate (update_of <$> rev lb) (update_of <$> la).
Definition all_hold db l : Prop := forall s, s ∈ l -> holds db (st_hash s) (held s) /\ contents_wf (held s) /\ u32 (st_length s).

Lemma in_moved la lb s : s ∈ la ++ rev lb -> s ∈ la ++ lb.
Proof. rewrite !elem_of_app. intros [Hs|Hs]; [by left|right]. by apply list_elem_of_In, in_rev, list_elem_of_In. Qed.
Lemma all_hold_agree db db' l : agree content_families [] db db' -> all_hold db l -> all_hold db' l.
Proof. intros Ha Hl s Hs. destruct (Hl s Hs) as (Hh & Hw). split; [by apply (holds_agree db)|done]. Qed.

Lemma concat_rev_perm {A} (f : Stored -> list A) l : concat (f <$> rev l) ≡ₚ concat (f <$> l).
Proof.
  induction l as [|s l IH]; [done|]. cbn [rev]. rewrite fmap_app, concat_app, IH. cbn [fmap list_fmap concat]. rewrite app_nil_r. apply Permutation_app_comm.
Qed.

Lemma concat_move {A} (f : Stored -> list A) la lb base :
  (Z.of_nat (length (concat (f <$> la ++ base))) = Z.of_nat (length (concat (f <$> base))) + Z.of_nat (length (concat (f <$> la)))) /\
  Z.of_nat (length (concat (f <$> rev lb))) = Z.of_nat (length (concat (f <$> lb))).
Proof.
  split.
  - rewrite fmap_app, concat_app, length_app. lia.
  - by rewrite concat_rev_perm.
Qed.

Definition snark_update s : SnarkUpdate := mkSnarkUpdate (st_hash s) (st_length s) (st_slot s) (bc_works (held s)).
Definition fees_after (la lb : list Stored) (fees : PublicKey -> SnarkFees) (p : PublicKey) : SnarkFees :=
  fold_left (after_works p) ((fun s => bc_works (held s)) <$> la ++ rev lb) (fees p).

Lemma snark_updates_read db l : all_hold db l -> mapM (block_snark_update db) (update_of <$> l) = Ok (snark_update <$> l).
Proof.
  intros Hl. rewrite mapM_res_fmap. apply mapM_all. intros s Hs. destruct (Hl s Hs) as (Hh & _).
  unfold block_snark_update. cbn [bu_state_hash update_of]. by rewrite (ho_works _ _ _ Hh).
Qed.
Lemma snark_updates_wf db l : all_hold db l -> updates_wf (snark_update <$> l).
Proof. intros Hl. apply Forall_fmap, Forall_forall. intros s Hs. destruct (Hl s Hs) as (_ & [Hw _] & Hu). by split. Qed.
Lemma num_works_updates l : num_works (snark_update <$> l) = Z.of_nat (length (chain_works l)).
Proof. unfold num_works, chain_works. by rewrite <- list_fmap_compose. Qed.

Lemma snarks_move la lb base db fees :
  well_typed db -> all_hold db (la ++ lb) -> history_ok db -> (forall p, stored_fees db p (fees p)) ->
  Z.of_nat (length (chain_works (la ++ base))) <= U32_MAX -> Z.of_nat (length (chain_works (lb ++ base))) <= U32_MAX ->
  get_snarks_total_canonical_count db = Ok (Z.of_nat (length (chain_works (la ++ base)))) ->
  exists db', update_block_snarks (moved la lb) db = Ok db' /\ well_typed db' /\ history_ok db' /\
    kept fee_families [TOTAL_NUM_CANONICAL_SNARKS_KEY] db db' /\
    get_snarks_total_canonical_count db' = Ok (Z.of_nat (length (chain_works (lb ++ base)))) /\
    (forall p, stored_fees db' p (fees_after la lb fees p)).
Proof.
  intros Hdb Hl Hh Hf Hb1 Hb2 Ec. unfold chain_works in *.
  destruct (concat_move (fun s => bc_works (held s)) la lb base) as [E1 E3]. destruct (concat_move (fun s => bc_works (held s)) lb lb base) as [E2 _].
  assert (all_hold db la) as Hla by (intros s Hs; apply Hl; set_solver).
  assert (all_hold db (rev lb)) as Hlb by (intros s Hs; apply Hl, in_moved; set_solver).
  unfold update_block_snarks, moved. cbn [up_apply up_unapply]. rewrite !snark_updates_read by done. cbn [mbind res_bind].
  destruct (update_snarks_spec (snark_update <$> rev lb) (snark_update <$> la) (Z.of_nat (length (concat ((fun s => bc_works (held s)) <$> base)))) db)
    as (db' & E & Hdb' & Hh' & Hk & En & Hf'); rewrite ?num_works_updates; unfold chain_works; [done|done|by eapply snark_updates_wf|by eapply snark_updates_wf|lia| |lia|lia|].
  { rewrite Ec. f_equal. lia. }
  exists db'. split_and!; [done|done|done|done|rewrite En, num_works_updates; unfold chain_works; f_equal; lia|].
  intros p. specialize (Hf' p _ (Hf p)). unfold after_blocks_works in Hf'. rewrite fmap_app, <- !list_fmap_compose, <- fmap_app in Hf'. exact Hf'.
Qed.

Lemma names_move la lb base db :
  well_typed db -> all_hold db (la ++ lb) -> all_names db (chain_names (la ++ base)) -> Z.of_nat (length (la ++ lb ++ base)) <= U32_MAX ->
  exists db', update_block_usernames (moved la lb) db = Ok db' /\ well_typed db' /\ kept username_families [] db db' /\
    all_names db' (chain_names (lb ++ base)).
Proof.
  intros Hdb Hl Hn Hb.
  assert (forall l, (forall s, s ∈ l -> s ∈ la ++ lb) -> mapM (block_username_updates db) (update_of <$> l) = Ok ((fun s => bc_names (held s)) <$> l)) as Hread.
  { intros l Hin. rewrite mapM_res_fmap. apply mapM_all. intros s Hs. destruct (Hl s (Hin s Hs)) as (Hh & _).
    unfold block_username_updates. cbn [bu_state_hash update_of]. by rewrite (ho_names _ _ _ Hh). }
  assert (forall s, s ∈ rev lb -> s ∈ la ++ lb) as Hrev by (intros s Hs; apply in_moved; set_solver).
  assert (forall l, (forall s, s ∈ l -> s ∈ la ++ lb) -> Forall wf_updates ((fun s => bc_names (held s)) <$> l)) as Hwf.
  { intros l Hin. apply Forall_fmap, Forall_forall. intros s Hs. by destruct (Hl s (Hin s Hs)) as (_ & [_ Hw] & _). }
  unfold update_block_usernames, moved. cbn [up_apply up_unapply]. rewrite !Hread by (done || set_solver). cbn [mbind res_bind].
  set (us := _ <$> rev lb). set (vs := _ <$> la).
  destruct (update_usernames_spec us vs db (chain_names (la ++ base))) as (db' & E & Hn'); [by apply Hwf|apply Hwf; set_solver|done| |].
  { intros k _. unfold us. rewrite length_fmap, length_rev. unfold chain_names.
    pose proof (length_omap_le (fun s => bc_names (held s) !! k) (rev (la ++ base))) as Hle. rewrite length_rev in Hle.
    rewrite !length_app in *. lia. }
  destruct (update_usernames_typed us vs db Hdb) as (db2 & E2 & Hdb2 & Hw2); [by apply Hwf|apply Hwf; set_solver|].
  assert (db2 = db') as -> by congruence. exists db'. split_and!; [done|done|by apply kept_writes|].
  apply (all_names_ext _ _ _ Hn'). intros k. unfold reorg_names, chain_names, us, vs. rewrite !list_omap_fmap, !rev_app_distr, !omap_app.
  rewrite length_app. replace (length (omap (fun s => bc_names (held s) !! k) (rev la))) with (length (omap (fun s => bc_names (held s) !! k) la))
    by (apply Permutation_length; by rewrite <- Permutation_rev).
  rewrite Nat.add_sub. by rewrite take_app_length.
Qed.

Lemma internal_move la lb base db :
  well_typed db -> all_hold db (la ++ lb) -> Z.of_nat (length (chain_internal (la ++ base))) <= U32_MAX ->
  Z.of_nat (length (chain_internal (lb ++ base))) <= U32_MAX ->
  get_canonical_internal_commands_count db = Ok (Z.of_nat (length (chain_internal (la ++ base)))) ->
  exists db', update_internal_commands (moved la lb) db = Ok db' /\ well_typed db' /\ kept [] [TOTAL_NUM_CANONICAL_FEE_TRANSFERS_KEY] db db' /\
    get_canonical_internal_commands_count db' = Ok (Z.of_nat (length (chain_internal (lb ++ base)))).
Proof.
  intros Hdb Hl Hb1 Hb2 Ec. unfold chain_internal in *.
  destruct (concat_move (fun s => bc_internal (held s)) la lb base) as [E1 E3]. destruct (concat_move (fun s => bc_internal (held s)) lb lb base) as [E2 _].
  set (g := fun u : BlockUpdate => bc_internal (content (bu_state_hash u))).
  assert (forall l, num_commands g (update_of <$> l) = Z.of_nat (length (concat ((fun s => bc_internal (held s)) <$> l)))) as Hnum
    by (intros l; unfold num_commands; by rewrite <- list_fmap_compose).
  destruct (update_internal_spec g (moved la lb) (Z.of_nat (length (concat ((fun s => bc_internal (held s)) <$> base)))) db)
    as (db' & E & Hdb' & Hk & En); cbn [moved up_apply up_unapply]; rewrite ?Hnum; [done| |lia|lia|lia| |].
  - intros u Hu. unfold moved in Hu. cbn [up_apply up_unapply] in Hu. rewrite <- fmap_app in Hu. apply list_elem_of_fmap in Hu as (s & -> & Hs).
    assert (s ∈ la ++ lb) as Hs' by (by apply in_moved).
    destruct (Hl s Hs') as (Hh & _). apply (ho_internal _ _ _ Hh).
  - rewrite Ec. f_equal. lia.
  - exists db'. split_and!; [done|done|done|]. rewrite En. cbn [moved up_apply]. rewrite Hnum. f_equal. lia.
Qed.

Lemma canonical_counts_perm db (k l : list UserCommandWithStatus) : k ≡ₚ l -> canonical_counts db k -> canonical_counts db l.
Proof.
  intros Hp. assert (forall P : UserCommandWithStatus -> bool, length (List.filter P k) = length (List.filter P l)) as Hf.
  { intros P. induction Hp as [|x k l _ IH|x y l|k l m _ IH1 _ IH2]; cbn [List.filter]; [done| | |congruence].
    - destruct (P x); cbn [length]; congruence.
    - by destruct (P x), (P y). }
  unfold canonical_counts, num_applied, num_failed in *. by rewrite <- !Hf, <- Hp.
Qed.

Lemma user_move la lb base db :
  well_typed db -> all_hold db (la ++ lb) -> Z.of_nat (length (chain_user (la ++ base))) <= U32_MAX ->
  Z.of_nat (length (chain_user (lb ++ base))) <= U32_MAX -> canonical_counts db (chain_user (la ++ base)) ->
  exists db', update_user_commands (moved la lb) db = Ok db' /\ well_typed db' /\ kept [] user_keys db db' /\
    canonical_counts db' (chain_user (lb ++ base)).
Proof.
  intros Hdb Hl Hb1 Hb2 Hc. unfold chain_user in *. set (g := fun u : BlockUpdate => bc_user (content (bu_state_hash u))).
  assert (forall l, concat (g <$> (update_of <$> l)) = concat ((fun s => bc_user (held s)) <$> l)) as Hg by (intros l; by rewrite <- list_fmap_compose).
  assert (concat ((fun s => bc_user (held s)) <$> rev lb) ≡ₚ concat ((fun s => bc_user (held s)) <$> lb)) as Hp
    by apply concat_rev_perm.
  assert (forall u, u ∈ up_unapply (moved la lb) ++ up_apply (moved la lb) -> get_block_user_commands db (bu_state_hash u) = Ok (Some (g u))) as Hread.
  { intros u Hu. unfold moved in Hu. cbn [up_apply up_unapply] in Hu. rewrite <- fmap_app in Hu. apply list_elem_of_fmap in Hu as (s & -> & Hs).
    assert (s ∈ la ++ lb) as Hs' by (by apply in_moved).
    destruct (Hl s Hs') as (Hh & _). apply (ho_user _ _ _ Hh). }
  destruct (update_user_commands_spec g (moved la lb) (concat ((fun s => bc_user (held s)) <$> base)) db) as (db' & E & Hc');
    cbn [moved up_apply up_unapply]; rewrite ?Hg; [done| | | |].
  - by rewrite <- concat_app, <- fmap_app.
  - by rewrite <- concat_app, <- fmap_app.
  - by rewrite Hp, <- concat_app, <- fmap_app.
  - destruct (update_user_commands_typed (moved la lb) db Hdb) as (db2 & E2 & Hdb2 & _); [intros u Hu; eexists; by apply Hread|].
    assert (db2 = db') as -> by congruence. exists db'. split_and!; [done|done|by apply (update_user_commands_touches _ _ _ E)|].
    cbn [moved up_apply] in Hc'. rewrite Hg in Hc'. rewrite fmap_app, concat_app. eapply canonical_counts_perm; [|exact Hc']. by rewrite Hp.
Qed.

Definition diffs_of_blocks l : list LedgerDiff := (fun s => bc_diff (held s)) <$> l.
Definition accounts_after (la lb : list Stored) (get : Accounts) : Accounts :=
  after_blocks best_apply (block_diffs <$> diffs_of_blocks (rev lb)) (after_blocks best_unapply (block_diffs <$> diffs_of_blocks la) get).
Definition num_accounts_after (la lb : list Stored) (n : Z) : Z :=
  clamp32 (n + sumZ (created <$> diffs_of_blocks lb) - sumZ (created <$> diffs_of_blocks la)).

Lemma accounts_move la lb db get n :
  well_typed db -> all_hold db (la ++ lb) -> best_accounts db get -> accounts_wf get -> get_u32 db default_cf TOTAL_NUM_ACCOUNTS_KEY = Ok n ->
  (forall s, s ∈ lb -> Forall good_apply (block_diffs (bc_diff (held s)))) ->
  (forall s, s ∈ la -> Forall good_unapply (block_diffs (bc_diff (held s)))) ->
  sumZ (created <$> diffs_of_blocks lb) + sumZ (created <$> diffs_of_blocks la) < 2147483648 ->
  exists db', update_block_best_accounts (moved la lb) db = Ok db' /\ well_typed db' /\
    kept (account_families ++ side_families) [TOTAL_NUM_ACCOUNTS_KEY] db db' /\ best_accounts db' (accounts_after la lb get) /\
    accounts_wf (accounts_after la lb get) /\ get_u32 db' default_cf TOTAL_NUM_ACCOUNTS_KEY = Ok (num_accounts_after la lb n).
Proof.
  intros Hdb Hl Hb Hwf En Ha Hu Hc.
  assert (sumZ (created <$> diffs_of_blocks (rev lb)) = sumZ (created <$> diffs_of_blocks lb)) as Erev
    by (apply sumZ_perm; unfold diffs_of_blocks; by rewrite <- Permutation_rev).
  assert (forall l, (forall s, s ∈ l -> s ∈ la ++ lb) -> stored_diffs db (update_of <$> l) (diffs_of_blocks l)) as Hs.
  { intros l Hin. apply Forall2_fmap, Forall2_same_length_lookup. split; [done|]. intros i x y Hx Hy. assert (x = y) as -> by congruence.
    apply list_elem_of_lookup_2, Hin in Hx. destruct (Hl _ Hx) as (Hh & _). apply (ho_diff _ _ _ Hh). }
  assert (forall (P : AccountDiff -> Prop) l, (forall s, s ∈ l -> Forall P (block_diffs (bc_diff (held s)))) ->
    Forall P (concat (block_diffs <$> diffs_of_blocks l))) as HP.
  { intros P l HP. apply Forall_concat, Forall_fmap, Forall_fmap, Forall_forall. exact HP. }
  destruct (update_block_best_accounts_spec db get (moved la lb) (diffs_of_blocks (rev lb)) (diffs_of_blocks la) n)
    as (db' & E & Hdb' & Hb' & Hwf' & En' & Hk); [done|done|done|apply Hs; intros s ?; apply in_moved; set_solver|apply Hs; set_solver| |by apply HP|lia|done|].
  { apply HP. intros s Hin. apply Ha. by apply list_elem_of_In, in_rev, list_elem_of_In. }
  exists db'. split_and!; [done|done|done|done|done|]. rewrite En', Erev. done.
Qed.

(** ** The best tip *)

(** A move of the best tip from the blocks [la] to the blocks [lb] above [c], as high or one block higher. *)
Record best_move db (la lb : list Stored) c lc : Prop := {
  mv_fork : fork db la lb c lc;
  mv_new : lb <> [];
  mv_length : (length lb <= S (length la))%nat;
  mv_holds s : s ∈ la ++ lb -> holds db (st_hash s) (held s) /\ contents_wf (held s);
  mv_apply s : s ∈ lb -> Forall good_apply (block_diffs (bc_diff (held s)));
  mv_unapply s : s ∈ la -> Forall good_unapply (block_diffs (bc_diff (held s)));
  mv_created : sumZ (created <$> diffs_of_blocks lb) + sumZ (created <$> diffs_of_blocks la) < 2147483648;
  mv_old_bound : chain_bounded (la ++ c :: lc);
  mv_new_bound : chain_bounded (lb ++ c :: lc);
  mv_bound : Z.of_nat (length (la ++ lb ++ c :: lc)) <= U32_MAX
}.

(** The new tip is another block. *)
Lemma new_tip db la lb c lc : fork db la lb c lc -> lb <> [] -> st_hash (top la c) <> st_hash (top lb c).
Proof.
  intros Hf Hne E. destruct lb as [|y lb]; [done|]. cbn [top hd] in E. destruct la as [|x la]; cbn [top hd] in E.
  - pose proof (chain_height _ _ _ 0 y (fo_new _ _ _ _ _ Hf) eq_refl) as Hh. cbn [length] in Hh.
    pose proof (fo_stored _ _ _ _ _ Hf) as Hst. rewrite Forall_forall in Hst.
    pose proof (so_length _ _ (Hst c ltac:(set_solver))) as E1. pose proof (so_length _ _ (Hst y ltac:(set_solver))) as E2.
    rewrite E in E1. assert (st_length c = st_length y) by congruence. lia.
  - by apply (fo_apart _ _ _ _ _ Hf x y); [left|left|].
Qed.

Definition tip_keys : list (list Z) := [BEST_TIP_STATE_HASH_KEY; NEXT_EVENT_SEQ_NUM_KEY].

Lemma record_best_block_spec h n db es :
  well_typed db -> sh_wf h -> get_block_height db h = Ok (Some n) -> event_log db es -> Z.of_nat (length es) < U32_MAX ->
  exists db', record_best_block h db = Ok db' /\ well_typed db' /\ kept [events_cf] tip_keys db db' /\
    get_best_block_hash db' = Ok (Some h) /\ event_log db' (es ++ [EventDb (DbBlock (NewBestTip h n))]).
Proof.
  intros Hdb Hh En Hlog Hlt. unfold record_best_block. set (db1 := cf_put _ _ _ db).
  assert (well_typed db1) as Hdb1 by (apply well_typed_put; [by apply has_type_sh|done]).
  assert (kept [] [BEST_TIP_STATE_HASH_KEY] db db1) as Hk1 by (by apply kept_put).
  assert (get_block_height db1 h = Ok (Some n)) as ->.
  { unfold get_block_height, opt_u32 in *. by rewrite (Hk1 block_height_cf) by done. }
  cbn [mbind res_bind].
  destruct (add_db_event db1 es (DbBlock (NewBestTip h n))) as (db2 & -> & Hlog2 & E2); [|done|].
  { apply (event_log_agree db); [carry|done]. }
  cbn [mbind res_bind write fold_left] in *. exists db2. split; [done|].
  assert (kept [events_cf] [NEXT_EVENT_SEQ_NUM_KEY] db1 db2) as Hk2 by (rewrite E2; eapply kept_trans; by apply kept_put).
  split_and!; [|eapply kept_trans; by eapply kept_weaken| |done].
  - rewrite E2. apply well_typed_put; [apply has_type_u32; ints|]. by apply well_typed_put.
  - unfold get_best_block_hash. rewrite (Hk2 default_cf) by done. unfold db1. get_put. cbn [and_then_ok].
    unfold sh_key. by rewrite sh_from_bytes_as_bytes.
Qed.

Lemma works_count_agree db db' : agree [] [TOTAL_NUM_CANONICAL_SNARKS_KEY] db db' -> get_snarks_total_canonical_count db' = get_snarks_total_canonical_count db.
Proof. intros Ha. unfold get_snarks_total_canonical_count, expect_u32. by rewrite Ha. Qed.
Lemma internal_count_agree db db' :
  agree [] [TOTAL_NUM_CANONICAL_FEE_TRANSFERS_KEY] db db' -> get_canonical_internal_commands_count db' = get_canonical_internal_commands_count db.
Proof. intros Ha. by apply (agree_u32 _ _ _ _ _ _ Ha). Qed.
Lemma block_height_agree db db' h : agree [block_height_cf] [] db db' -> get_block_height db' h = get_block_height db h.
Proof. intros Ha. unfold get_block_height, opt_u32. by rewrite Ha. Qed.

Lemma set_best_block_eq fuel old h blocks db1 db2 db3 db4 db5 db6 db7 db :
  get_best_block_hash db = Ok (Some old) -> old <> h -> reorg_blocks fuel db old h = Some (Ok blocks) ->
  update_block_canonicities blocks db = Ok db1 -> update_block_best_accounts blocks db1 = Ok db2 -> update_block_snarks blocks db2 = Ok db3 ->
  update_block_usernames blocks db3 = Ok db4 -> update_internal_commands blocks db4 = Ok db5 -> update_user_commands blocks db5 = Ok db6 ->
  record_best_block h db6 = Ok db7 -> set_best_block fuel h db = Some (Ok db7).
Proof.
  intros Eold Hne Er E1 E2 E3 E4 E5 E6 E7. unfold set_best_block, update_stores. rewrite Eold, bool_decide_false by done.
  rewrite Er. cbn [mbind option_bind res_bind]. do 6 (first [rewrite E1|rewrite E2|rewrite E3|rewrite E4|rewrite E5|rewrite E6]; cbn [mbind res_bind]).
  by rewrite E7.
Qed.

(** The families that a move of the best tip writes to, and its keys of the default family. *)
Definition move_families : list string :=
  canonicity_families ++ account_families ++ side_families ++ fee_families ++ username_families ++ [events_cf].
Definition move_keys : list (list Z) :=
  TOTAL_NUM_ACCOUNTS_KEY :: TOTAL_NUM_CANONICAL_SNARKS_KEY :: TOTAL_NUM_CANONICAL_FEE_TRANSFERS_KEY :: user_keys ++ tip_keys.

(** The move, with what it leaves alone. *)
Lemma best_tip_moves db la lb c lc get n fees es fuel :
  best_view db (la ++ c :: lc) get n fees es -> best_move db la lb c lc -> Z.of_nat (length es) < U32_MAX ->
  (length la <= fuel)%nat ->
  let tip := top lb c in
  exists db', set_best_block fuel (st_hash tip) db = Some (Ok db') /\ kept move_families move_keys db db' /\
    best_view db' (lb ++ c :: lc) (accounts_after la lb get) (num_accounts_after la lb n) (fees_after la lb fees)
      (es ++ [EventDb (DbBlock (NewBestTip (st_hash tip) (st_length tip)))]).
Proof.
  intros Hv Hm Hes Hfuel tip. pose proof (mv_fork _ _ _ _ _ Hm) as Hf. pose proof (new_tip _ _ _ _ _ Hf (mv_new _ _ _ _ _ Hm)) as Hne.
  pose proof (fo_stored _ _ _ _ _ Hf) as Hst. rewrite Forall_forall in Hst.
  assert (tip ∈ la ++ lb ++ c :: lc) as Hin by (unfold tip; destruct lb; cbn; set_solver). pose proof (Hst tip Hin) as Htip.
  destruct (reorg_canonical _ _ _ _ _ fuel Hf (mv_length _ _ _ _ _ Hm) Hfuel) as ([ap un] & db1 & Er & Eun & Eap & E1 & Hw1 & Hca1).
  cbn [up_apply up_unapply] in Eun, Eap. subst. change (mkUpdate (update_of <$> rev lb) (update_of <$> la)) with (moved la lb) in *.
  pose proof (pr_typed _ _ (ca_production _ _ Hca1)) as Hdb1. pose proof (kept_writes _ [] _ _ Hw1) as K1.
  assert (all_hold db (la ++ lb)) as Hl.
  { intros s Hs. destruct (mv_holds _ _ _ _ _ Hm s Hs) as [Hh Hw]. split_and!; [done|done|]. apply (so_wf _ _ (Hst s ltac:(set_solver))). }
  destruct (mv_old_bound _ _ _ _ _ Hm) as (B1 & B2 & B3). destruct (mv_new_bound _ _ _ _ _ Hm) as (B4 & B5 & B6). destruct Hv.
  destruct (accounts_move la lb db1 get n) as (db2 & E2 & Hdb2 & K2 & Hb2 & Hwf2 & En2);
    [done|apply (all_hold_agree db); [carry|done]|apply (best_accounts_agree db); [carry|done]|done| |apply Hm|apply Hm|apply Hm|].
  { by rewrite (agree_u32 [] [TOTAL_NUM_ACCOUNTS_KEY] db) by (carry || done). }
  destruct (snarks_move la lb (c :: lc) db2 fees) as (db3 & E3 & Hdb3 & Hh3 & K3 & En3 & Hf3);
    [done|apply (all_hold_agree db); [carry|done]|apply (history_agree db); [carry|done]| |done|done| |].
  { intros p. apply (stored_fees_agree db); [carry|done]. }
  { by rewrite (works_count_agree db) by carry. }
  destruct (names_move la lb (c :: lc) db3) as (db4 & E4 & Hdb4 & K4 & Hn4);
    [done|apply (all_hold_agree db); [carry|done]|apply (all_names_agree db); [carry|done]|apply Hm|].
  destruct (internal_move la lb (c :: lc) db4) as (db5 & E5 & Hdb5 & K5 & En5); [done|apply (all_hold_agree db); [carry|done]|done|done| |].
  { by rewrite (internal_count_agree db) by carry. }
  destruct (user_move la lb (c :: lc) db5) as (db6 & E6 & Hdb6 & K6 & Hc6);
    [done|apply (all_hold_agree db); [carry|done]|done|done|apply (canonical_counts_agree db); [carry|done]|].
  destruct (record_best_block_spec (st_hash tip) (st_length tip) db6 es) as (db7 & E7 & Hdb7 & K7 & Et7 & Hlog7);
    [done|apply (so_wf _ _ Htip)| |apply (event_log_agree db); [carry|done]|done|].
  { rewrite (block_height_agree db) by carry. apply (so_length _ _ Htip). }
  exists db7. split; [|split].
  - eapply (set_best_block_eq fuel (st_hash (top la c)) _ (moved la lb) db1 db2 db3 db4 db5 db6); try done.
    rewrite bv_tip0. by destruct la.
  - do 6 (eapply kept_trans; [by eapply kept_weaken; [eassumption|reflexivity..]|]). by eapply kept_weaken; [eassumption|reflexivity..].
  - split; [|apply (canonical_agree db1); [carry|done|done]|apply (best_accounts_agree db2); [carry|done]|done| |apply (history_agree db3); [carry|done]
      | | |apply (all_names_agree db4); [carry|done]| |apply (canonical_counts_agree db6); [carry|done]|done].
    + rewrite Et7. unfold tip. by destruct lb.
    + by rewrite (agree_u32 [] [TOTAL_NUM_ACCOUNTS_KEY] db2) by (carry || done).
    + intros p. apply (stored_fees_agree db3); [carry|done].
    + by rewrite (works_count_agree db3) by carry.
    + by rewrite (internal_count_agree db5) by carry.
Qed.

(** C1: Making the tip of a chain that is as high or one block higher the best block moves all the stores to that chain,
    when the blocks of both chains are stored with what they hold, the counts of the stores fit their 32 bits and the
    blocks left hold no diff of zkapp actions or events (unapplying one asserts that the MINA account of its key has as
    many stored, also when it was applied to another token, so that such a move may panic): the blocks of the chain
    become the canonical ones, the best ledger is what unapplying the blocks left and applying the new ones
    makes of it, the names of public keys and the counts of commands and SNARK work are those of the new chain, the
    fees of the provers take in the works of all these blocks, and the new tip is recorded and announced. *)
Theorem stores_follow_best_tip db la lb c lc get n fees es fuel :
  best_view db (la ++ c :: lc) get n fees es -> best_move db la lb c lc -> Z.of_nat (length es) < U32_MAX ->
  (length la <= fuel)%nat ->
  let tip := top lb c in
  exists db', set_best_block fuel (st_hash tip) db = Some (Ok db') /\
    best_view db' (lb ++ c :: lc) (accounts_after la lb get) (num_accounts_after la lb n) (fees_after la lb fees)
      (es ++ [EventDb (DbBlock (NewBestTip (st_hash tip) (st_length tip)))]).
Proof.
  intros Hv Hm Hes Hfuel. destruct (best_tip_moves db la lb c lc get n fees es fuel Hv Hm Hes Hfuel) as (db' & E & _ & Hv'). by exists db'.
Qed.
End View.

(** * Examples *)

Section TipExamples.
#[local] Existing Instances map_db map_db_spec countable_json untagged_json.
#[local] Instance tip_diff_iter : DiffIter := {| diff_iter := map_to_list; diff_iter_perm m := Permutation_refl _ |}.
#[local] Instance tip_prover_iter : ProverIter := {| prover_iter := map_to_list; prover_iter_perm m := Permutation_refl _ |}.
#[local] Instance tip_username_iter : UsernameIter := {| username_iter := map_to_list; username_iter_perm m := Permutation_refl _ |}.

(** Blocks of which one credits an account. *)
Definition content_example (h : StateHash) : BlockContents :=
  mkContents (if bool_decide (h = st_hash ex_b1) then diff_example else ledger_diff_default) [] ∅ [] [].

Definition put_contents (h : StateHash) (db : Db) : Db :=
  cf_put block_ledger_diff_cf (sh_key h) (to_json (bc_diff (content_example h)))
    (cf_put block_snark_counts_cf (sh_key h) (u32_be 0)
      (cf_put usernames_per_block_cf (sh_key h) (to_json (∅ : UsernameUpdate))
        (cf_put user_commands_per_block_cf (sh_key h) (to_json ([] : list UserCommandWithStatus)) db))).

Definition put_families : list string :=
  [block_ledger_diff_cf; block_snark_counts_cf; usernames_per_block_cf; user_commands_per_block_cf].

Lemma put_contents_typed hs db :
  well_typed db -> well_typed (foldr put_contents db hs) /\ writes_in put_families db (foldr put_contents db hs).
Proof.
  intros Hdb. induction hs as [|h hs [IH1 IH2]]; [split; [done|frame]|]. cbn [foldr]. unfold put_contents at 1 3. split; [|frame].
  apply well_typed_put; [done|]. apply well_typed_put; [by exists 0; vm_compute|]. by do 2 (apply well_typed_put; [done|]).
Qed.

Lemma put_contents_get hs db h :
  h ∈ hs -> let db' := foldr put_contents db hs in
  cf_get db' block_ledger_diff_cf (sh_key h) = Some (to_json (bc_diff (content_example h))) /\
  cf_get db' block_snark_counts_cf (sh_key h) = Some (u32_be 0) /\
  cf_get db' usernames_per_block_cf (sh_key h) = Some (to_json (∅ : UsernameUpdate)) /\
  cf_get db' user_commands_per_block_cf (sh_key h) = Some (to_json ([] : list UserCommandWithStatus)).
Proof.
  induction hs as [|h' hs IH]; intros Hh; [by apply not_elem_of_nil in Hh|]. cbn [foldr]. unfold put_contents at 1 3 5 7.
  destruct (decide (h = h')) as [->|Hne]; [get_put; done|]. apply elem_of_cons in Hh as [->|Hh]; [done|].
  assert (sh_key h <> sh_key h') as Hk by (by intros E%sh_key_inj). destruct (IH Hh) as (E1 & E2 & E3 & E4).
  rewrite !cf_get_put. repeat (rewrite decide_False by congruence). done.
Qed.

(** The store of the example: the blocks of a fork, of which the lower ones are the best chain. *)
Definition tip_store (db : Db) : Db :=
  cf_put default_cf BEST_TIP_STATE_HASH_KEY (sh_key (st_hash ex_a1)) (foldr put_contents db (st_hash <$> [ex_a1; ex_b2; ex_b1])).

Definition tip_families : list string := default_cf :: put_families.

Lemma tip_store_spec db :
  well_typed db -> writes_in (block_families ++ canonicity_families) (∅ : Db) db ->
  well_typed (tip_store db) /\ writes_in tip_families db (tip_store db) /\
  (forall cf k, family_in (tip_families ++ block_families ++ canonicity_families) cf = false -> cf_get (tip_store db) cf k = None) /\
  (forall k, k <> BEST_TIP_STATE_HASH_KEY -> cf_get (tip_store db) default_cf k = None).
Proof.
  intros Hdb Hw. destruct (put_contents_typed (st_hash <$> [ex_a1; ex_b2; ex_b1]) db Hdb) as [Hdb1 Hw1]. unfold tip_store.
  set (db1 := foldr put_contents db _) in *.
  assert (writes_in tip_families db (cf_put default_cf BEST_TIP_STATE_HASH_KEY (sh_key (st_hash ex_a1)) db1)) as Hw2.
  { apply writes_then_put; [|done]. by eapply subset_families. }
  split_and!; [apply well_typed_put; [|done]; apply has_type_sh; vm_compute; done|done| |].
  - intros cf k Hcf. unfold family_in in Hcf. rewrite existsb_app in Hcf. apply orb_false_iff in Hcf as [Hc1 Hc2].
    rewrite (writes_get _ _ _ _ _ Hw2 Hc1), (writes_get _ _ _ _ _ Hw Hc2). cbn. by rewrite lookup_empty.
  - intros k Hk. rewrite cf_get_put, decide_False by congruence. rewrite (writes_get _ _ _ _ _ Hw1), (writes_get _ _ _ _ _ Hw) by done.
    cbn. by rewrite lookup_empty.
Qed.

Lemma tip_store_holds db h :
  well_typed db -> writes_in (block_families ++ canonicity_families) (∅ : Db) db ->
  h ∈ st_hash <$> [ex_a1; ex_b2; ex_b1] -> holds (tip_store db) h (content_example h).
Proof.
  intros Hdb Hw Hh. destruct (tip_store_spec db Hdb Hw) as (_ & _ & Hnone & _).
  destruct (put_contents_get _ db h Hh) as (E1 & E2 & E3 & E4). set (db1 := foldr put_contents db _) in *.
  assert (forall cf k, cf <> default_cf -> cf_get (tip_store db) cf k = cf_get db1 cf k) as Hg
    by (intros cf k Hne; unfold tip_store; by rewrite cf_get_put, decide_False by congruence).
  split.
  - by rewrite Hg.
  - unfold get_block_snark_work, get_block_snarks_count. rewrite Hg, E2 by done. reflexivity.
  - unfold get_block_username_updates. rewrite Hg, E3 by done. cbn [and_then_ok]. by rewrite json_roundtrip.
  - unfold get_block_user_commands. rewrite Hg, E4 by done. cbn [and_then_ok]. by rewrite json_roundtrip.
  - unfold get_internal_commands, get_block_internal_commands_count, opt_u32. by rewrite Hnone.
Qed.

Lemma tip_store_view db :
  writes_in (block_families ++ canonicity_families) (∅ : Db) db -> canonical db [ex_a1; ex_c] ->
  best_view content_example (tip_store db) [ex_a1; ex_c] (fun _ _ => None) 0 (fun _ => mkSnarkFees 0 0 U64_MAX) [].
Proof.
  intros Hw Hca. pose proof (pr_typed _ _ (ca_production _ _ Hca)) as Hdb.
  destruct (tip_store_spec db Hdb Hw) as (Hdb' & Hw' & Hnone & Hdef).
  assert (forall k, k <> BEST_TIP_STATE_HASH_KEY -> get_u32 (tip_store db) default_cf k = Ok 0) as Hcount by (intros k Hk; unfold get_u32; by rewrite Hdef).
  split.
  - unfold get_best_block_hash, tip_store. rewrite cf_get_put, decide_True by done. cbn [and_then_ok]. reflexivity.
  - apply (canonical_agree db); [|done|done]. apply (kept_agree tip_families []); [by apply kept_writes|reflexivity].
  - split; intros; by rewrite Hnone.
  - by intros pk token a E.
  - by apply Hcount.
  - intros k v E. by rewrite Hnone in E.
  - intros p. exists None, None, None. unfold get_snark_prover_total_fees, get_snark_prover_max_fee, get_snark_prover_min_fee, get_fee, u64_at.
    by rewrite !Hnone.
  - unfold get_snarks_total_canonical_count, expect_u32. by rewrite Hdef.
  - intros pk Hpk. assert (chain_names content_example [ex_a1; ex_c] pk = []) as -> by reflexivity. split; [|vm_compute; discriminate|intros i m Hi; by rewrite lookup_nil in Hi].
    unfold get_pk_num_username_updates, opt_u32. by rewrite Hnone.
  - by apply Hcount.
  - split_and!; by apply Hcount.
  - split; [by apply Hcount|vm_compute; discriminate|intros i e Hi; by rewrite lookup_nil in Hi].
Qed.

Lemma stores_follow_best_tip_witness :
  exists db db', set_best_block 1 (st_hash ex_b2) db = Some (Ok db') /\ get_best_block_hash db' = Ok (Some (st_hash ex_b2)) /\
    exists a, get_best_account db' pk_example token_default = Ok (Some a) /\ acct_balance a = 5.
Proof.
  destruct fork_example as (db & Hw & Hf & _). pose proof (fo_canonical _ _ _ _ _ Hf) as Hca. cbn [app] in Hca.
  pose proof (pr_typed _ _ (ca_production _ _ Hca)) as Hdb. destruct (tip_store_spec db Hdb Hw) as (Hdb' & Hw' & Hnone & _).
  destruct (stores_follow_best_tip content_example (tip_store db) [ex_a1] [ex_b2; ex_b1] ex_c [] (fun _ _ => None) 0
    (fun _ => mkSnarkFees 0 0 U64_MAX) [] 1) as (db' & E & Hv).
  - by apply tip_store_view.
  - split.
    + destruct Hf. split; try done.
      * eapply Forall_impl; [exact fo_stored|]. intros s Hs. by eapply stored_frame; [exact Hw'|reflexivity|].
      * apply (canonical_agree db); [|done|done]. apply (kept_agree tip_families []); [by apply kept_writes|reflexivity].
    + done.
    + cbn. lia.
    + intros s Hs. split; [|split; [constructor|by intros k [v Hk]]]. apply tip_store_holds; [done|done|]. by apply list_elem_of_fmap_2.
    + intros s Hs. apply elem_of_cons in Hs as [->|Hs%list_elem_of_singleton]; [constructor|subst s].
      change (block_diffs _) with (block_diffs diff_example). apply Forall_singleton. destruct payment_example_ok. by split_and!.
    + intros s Hs%list_elem_of_singleton. subst s. constructor.
    + vm_compute. reflexivity.
    + split_and!; vm_compute; discriminate.
    + split_and!; vm_compute; discriminate.
    + vm_compute. discriminate.
  - vm_compute. reflexivity.
  - cbn. lia.
  - exists (tip_store db), db'. split; [exact E|]. split; [exact (bv_tip _ _ _ _ _ _ _ Hv)|].
    pose proof (get_best_account_eq _ _ pk_example token_default (bv_accounts _ _ _ _ _ _ _ Hv) pk_example_wf token_default_wf) as Ea.
    destruct (accounts_after _ _ _ _ _ _) as [a|] eqn:Eg in Ea; vm_compute in Eg; [|discriminate Eg]. exists a. split; [exact Ea|].
    injection Eg as <-. reflexivity.
Defined.
End TipExamples.
