(* ===== verification/Staking.v ===== *)
(** Staking ledgers (src/rust/src/ledger/staking/mod.rs and permissions.rs): the accounts of an epoch and the
    aggregation of the stake they delegate. *)

From S2P Require Import Prelude Bytes Base StoreKeys Command AccountDiff Precomputed BlockOrder Rose Branch WitnessTree ColumnFamilies Db Events.

(** * Data *)

Inductive StakingPermission := SpSignature | SpProof.

Record StakingPermissions := mkStakingPermissions {
  sp_stake : bool;
  sp_edit_state : StakingPermission;
  sp_send : StakingPermission;
  sp_set_delegate : StakingPermission;
  sp_set_permissions : StakingPermission;
  sp_set_verification_key : StakingPermission
}.

Record StakingAccount := mkStakingAccount {
  sa_pk : PublicKey;
  sa_balance : Z;
  sa_delegate : PublicKey;
  sa_username : option string;
  sa_token : option Z;
  sa_permissions : StakingPermissions;
  sa_receipt_chain_hash : string;
  sa_voting_for : StateHash;
  sa_nonce : option Nonce;
  sa_timing : option Timing;
  sa_zkapp : option ZkappAccount
}.

Record StakingLedger := mkStakingLedger {
  sl_epoch : Z;
  sl_network : Network;
  sl_ledger_hash : LedgerHash;
  sl_total_currency : Z;
  sl_genesis_state_hash : StateHash;
  sl_staking_ledger : gmap PublicKey StakingAccount
}.

Record TimingJson := mkTimingJson {
  tj_initial_minimum_balance : string;
  tj_cliff_time : string;
  tj_cliff_amount : string;
  tj_vesting_period : string;
  tj_vesting_increment : string
}.

Record StakingAccountJson := mkStakingAccountJson {
  sj_pk : PublicKey;
  sj_balance : string;
  sj_delegate : PublicKey;
  sj_username : option string;
  sj_token : string;
  sj_permissions : StakingPermissions;
  sj_receipt_chain_hash : string;
  sj_voting_for : StateHash;
  sj_nonce : option string;
  sj_timing : option TimingJson
}.

Record EpochStakeDelegation := mkDelegation {
  esd_pk : PublicKey;
  count_delegates : option Z;
  total_delegated : option Z;
  delegates : gset PublicKey
}.
Definition delegation_default : EpochStakeDelegation := mkDelegation pk_default None None ∅.

Record AggregatedEpochStakeDelegations := mkAggregated {
  ag_epoch : Z;
  ag_network : Network;
  ag_ledger_hash : LedgerHash;
  ag_genesis_state_hash : StateHash;
  ag_delegations : gmap PublicKey EpochStakeDelegation;
  ag_total_delegations : Z
}.

(** The orders in which the hash maps yield their entries. *)
Class StakingIter := {
  staking_iter : gmap PublicKey StakingAccount -> list (PublicKey * StakingAccount);
  staking_iter_perm m : staking_iter m ≡ₚ map_to_list m;
  delegation_iter : gmap PublicKey (option EpochStakeDelegation) -> list (PublicKey * option EpochStakeDelegation);
  delegation_iter_perm m : delegation_iter m ≡ₚ map_to_list m
}.

(** * Accounts of a ledger file *)

Section Parse.
Context `{Decimal} `{StakingIter}.

Definition timing_of_json (t : TimingJson) : res Timing :=
  cliff_time ← expect (parse_uint U64_MAX (tj_cliff_time t));
  vesting_period ← expect (parse_uint U64_MAX (tj_vesting_period t));
  initial_minimum_balance ← expect (amount_from_str (tj_initial_minimum_balance t));
  cliff_amount ← expect (amount_from_str (tj_cliff_amount t));
  vesting_increment ← expect (amount_from_str (tj_vesting_increment t));
  Ok (mkTiming cliff_time vesting_period cliff_amount vesting_increment initial_minimum_balance).

Definition staking_account_of_json (value : StakingAccountJson) : res StakingAccount :=
  token ← expect (parse_uint U64_MAX (sj_token value));
  nonce ← map_res (fun n => expect (nonce_from_str n)) (sj_nonce value);
  balance ← expect (amount_from_str (sj_balance value));
  timing ← map_res timing_of_json (sj_timing value);
  Ok (mkStakingAccount (sj_pk value) balance (sj_delegate value) (sj_username value) (Some token) (sj_permissions value)
        (sj_receipt_chain_hash value) (sj_voting_for value) nonce timing None).

(** The network, the epoch and the hash in the stem of a file name. *)
Definition split_ledger_path (stem : string) : res (Network * Z * LedgerHash) :=
  '(epoch, hash) ← extract_height_and_hash stem;
  r ← expect_some (find_byte dash (as_bytes stem));
  hash ← expect (lh_new hash);
  Ok (network_from_str (string_of_bytes r.1), epoch, hash).

(** A ledger of the accounts read from a file. *)
Definition staking_ledger_of_file (stem : string) (accounts : list StakingAccountJson) (genesis_state_hash : StateHash)
  : res StakingLedger :=
  accounts ← mapM (fun acct => a ← staking_account_of_json acct; Ok (sj_pk acct, a)) accounts;
  let staking_ledger : gmap PublicKey StakingAccount := fold_left (fun m e => <[e.1 := e.2]> m) accounts ∅ in
  '(network, epoch, ledger_hash) ← split_ledger_path stem;
  let total_currency := fold_left (fun acc a => wrap64 (acc + sa_balance a)) (snd <$> staking_iter staking_ledger) 0 in
  Ok (mkStakingLedger epoch network ledger_hash total_currency genesis_state_hash staking_ledger).
End Parse.

(** * Aggregation of delegations *)

(** [None]: the key has delegated to another one. *)
Notation Delegations := (gmap PublicKey (option EpochStakeDelegation)).

Definition aggregate_account (delegations : Delegations) (e : PublicKey * StakingAccount) : Delegations :=
  let '(pk, staking_account) := e in
  let balance := sa_balance staking_account in
  let delegate := sa_delegate staking_account in
  let delegations := if bool_decide (pk <> delegate) then <[pk := None]> delegations else delegations in
  match delegations !! delegate with
  | None => <[delegate := Some (mkDelegation delegate (Some 1) (Some balance) {[pk]})]> delegations
  | Some None => <[delegate := None]> delegations
  | Some (Some (mkDelegation delegate' count total ds)) =>
    let delegations := <[delegate := Some (mkDelegation delegate (Some 1) (Some balance) {[pk]})]> delegations in
    <[delegate' := Some (mkDelegation delegate' (option_map (fun acc => wrap32 (acc + 1)) count)
                           (option_map (fun acc => wrap64 (acc + balance)) total) ({[pk]} ∪ ds))]> delegations
  end.

Definition add_delegation (acc : Z) (e : PublicKey * option EpochStakeDelegation) : Z :=
  wrap64 (acc + match e.2 with Some d => default 0 (total_delegated d) | None => 0 end).

Section Aggregate.
Context `{StakingIter}.

Definition aggregate_delegations (l : StakingLedger) : AggregatedEpochStakeDelegations :=
  let delegations := fold_left aggregate_account (staking_iter (sl_staking_ledger l)) ∅ in
  let total_delegations := fold_left add_delegation (delegation_iter delegations) 0 in
  mkAggregated (sl_epoch l) (sl_network l) (sl_ledger_hash l) (sl_genesis_state_hash l)
    (default delegation_default <$> delegations) total_delegations.
End Aggregate.

(** * What is aggregated *)

Notation AccountEntry := (PublicKey * StakingAccount)%type.
Implicit Types (es : list AccountEntry) (d : PublicKey).

(** The account of the key delegates to another key. *)
Definition away (e : AccountEntry) : bool := bool_decide (e.1 <> sa_delegate e.2).
Definition delegates_away es d : bool := existsb (fun e => bool_decide (e.1 = d) && away e) es.
Definition delegators es d : list AccountEntry := List.filter (fun e => bool_decide (sa_delegate e.2 = d)) es.
Definition stake es : Z := sumZ ((fun e => sa_balance e.2) <$> es).

(** The stake of some delegators. *)
Definition taken d (ds : list AccountEntry) : EpochStakeDelegation :=
  mkDelegation d (Some (wrap32 (Z.of_nat (length ds)))) (Some (wrap64 (stake ds))) (list_to_set ds.*1).
Definition taken_by d (ds : list AccountEntry) : option (option EpochStakeDelegation) :=
  match ds with [] => None | _ :: _ => Some (Some (taken d ds)) end.
(** A key that delegates its stake to another one takes none; the others take that of their delegators. *)
Definition delegation_of es d : option (option EpochStakeDelegation) :=
  if delegates_away es d then Some None
  else taken_by d (delegators es d).

Lemma delegates_away_snoc es e d : delegates_away (es ++ [e]) d = delegates_away es d || bool_decide (e.1 = d) && away e.
Proof. unfold delegates_away. rewrite existsb_app. cbn. by rewrite orb_false_r. Qed.
Lemma delegators_snoc es e d :
  delegators (es ++ [e]) d = delegators es d ++ if bool_decide (sa_delegate e.2 = d) then [e] else [].
Proof. unfold delegators. rewrite List.filter_app. cbn. by destruct (bool_decide _). Qed.
Lemma stake_snoc es e : stake (es ++ [e]) = stake es + sa_balance e.2.
Proof. unfold stake. rewrite fmap_app, sumZ_app. cbn. lia. Qed.
Lemma wrap32_add_l a b : wrap32 (wrap32 a + b) = wrap32 (a + b).
Proof. unfold wrap32. apply Zplus_mod_idemp_l. Qed.

Lemma taken_one d e : u64 (sa_balance e.2) -> taken d [e] = mkDelegation d (Some 1) (Some (sa_balance e.2)) {[e.1]}.
Proof.
  intros Hb. unfold taken, stake. cbn. by rewrite Z.add_0_r, wrap64_id, union_empty_r_L.
Qed.
Lemma taken_snoc d ds e :
  taken d (ds ++ [e]) =
    mkDelegation d (option_map (fun acc => wrap32 (acc + 1)) (count_delegates (taken d ds)))
      (option_map (fun acc => wrap64 (acc + sa_balance e.2)) (total_delegated (taken d ds))) ({[e.1]} ∪ delegates (taken d ds)).
Proof.
  unfold taken. cbn [count_delegates total_delegated delegates option_map]. rewrite stake_snoc, wrap64_add_l, wrap32_add_l, length_app.
  rewrite fmap_app, list_to_set_app_L. cbn. rewrite union_empty_r_L, (comm_L (∪)). do 3 f_equal. lia.
Qed.
(** One more delegator. *)
Lemma delegation_step ds d e :
  u64 (sa_balance e.2) ->
  match taken_by d ds with
  | None => Some (Some (mkDelegation d (Some 1) (Some (sa_balance e.2)) {[e.1]}))
  | Some None => Some None
  | Some (Some (mkDelegation d' count total set)) =>
    if decide (d = d') then
      Some (Some (mkDelegation d' (option_map (fun acc => wrap32 (acc + 1)) count) (option_map (fun acc => wrap64 (acc + sa_balance e.2)) total) ({[e.1]} ∪ set)))
    else Some (Some (mkDelegation d (Some 1) (Some (sa_balance e.2)) {[e.1]}))
  end = taken_by d (ds ++ [e]).
Proof.
  intros Hb. destruct ds as [|x ds]; [cbn [app taken_by]; by rewrite taken_one|]. cbn [taken taken_by]. rewrite decide_True by done.
  pose proof (taken_snoc d (x :: ds) e) as Et. cbn [app taken_by] in Et |- *. by rewrite Et.
Qed.

Definition holds (m : Delegations) es : Prop := forall d, m !! d = delegation_of es d.

(** The map an account is added to, with the key's own entry withdrawn when it delegates away. *)
Lemma aggregate_account_lookup m e d :
  aggregate_account m e !! d =
    let m' := if away e then <[e.1 := None]> m else m in
    if decide (d = sa_delegate e.2) then
      match m' !! d with
      | None => Some (Some (mkDelegation d (Some 1) (Some (sa_balance e.2)) {[e.1]}))
      | Some None => Some None
      | Some (Some (mkDelegation d' count total ds)) =>
        if decide (d = d') then
          Some (Some (mkDelegation d' (option_map (fun acc => wrap32 (acc + 1)) count) (option_map (fun acc => wrap64 (acc + sa_balance e.2)) total) ({[e.1]} ∪ ds)))
        else Some (Some (mkDelegation d (Some 1) (Some (sa_balance e.2)) {[e.1]}))
      end
    else match m' !! sa_delegate e.2 with
         | Some (Some (mkDelegation d' count total ds)) =>
           if decide (d = d') then
             Some (Some (mkDelegation d' (option_map (fun acc => wrap32 (acc + 1)) count) (option_map (fun acc => wrap64 (acc + sa_balance e.2)) total) ({[e.1]} ∪ ds)))
           else m' !! d
         | _ => m' !! d
         end.
Proof.
  destruct e as [pk a]. unfold aggregate_account, away. cbn [fst snd]. set (m' := if bool_decide _ then _ else m). cbn zeta.
  destruct (decide (d = sa_delegate a)) as [->|Hne].
  - destruct (m' !! sa_delegate a) as [[[d' c t ds]|]|]; rewrite ?lookup_insert_eq; [|done..].
    destruct (decide (sa_delegate a = d')) as [->|Hd]; [by rewrite lookup_insert_eq|]. by rewrite lookup_insert_ne, lookup_insert_eq.
  - destruct (m' !! sa_delegate a) as [[[d' c t ds]|]|]; rewrite ?(lookup_insert_ne _ (sa_delegate a)) by done; [|done..].
    destruct (decide (d = d')) as [->|Hd]; [by rewrite lookup_insert_eq|]. by rewrite !lookup_insert_ne by done.
Qed.

Lemma aggregate_holds m es e :
  holds m es -> u64 (sa_balance e.2) -> e.1 ∉ es.*1 -> holds (aggregate_account m e) (es ++ [e]).
Proof.
  intros Hm Hb Hn d. rewrite aggregate_account_lookup. cbn zeta.
  assert (delegates_away es e.1 = false) as Hself.
  { apply not_true_is_false. intros Ha. apply existsb_exists in Ha as (x & Hx & Hq). apply andb_prop in Hq as [Hq _].
    apply bool_decide_eq_true in Hq. apply Hn. rewrite <- Hq. apply list_elem_of_fmap_2. by apply list_elem_of_In. }
  set (m' := if away e then _ else m).
  assert (forall k, m' !! k = if bool_decide (e.1 = k) && away e then Some None else delegation_of es k) as Hm'.
  { intros k. unfold m'. destruct (away e); [|by rewrite andb_false_r]. rewrite andb_true_r. destruct (bool_decide_reflect (e.1 = k)) as [->|Hk].
    - by rewrite lookup_insert_eq.
    - by rewrite lookup_insert_ne. }
  rewrite !Hm'. unfold delegation_of. rewrite !delegates_away_snoc, delegators_snoc.
  assert (away e = bool_decide (e.1 <> sa_delegate e.2)) as Ea by done.
  destruct (decide (d = sa_delegate e.2)) as [->|Hd].
  - rewrite (bool_decide_eq_true_2 (sa_delegate e.2 = sa_delegate e.2)) by done.
    destruct (bool_decide_reflect (e.1 = sa_delegate e.2)) as [E|E].
    + rewrite Ea, (bool_decide_eq_false_2 (e.1 <> _)) by tauto. rewrite orb_false_r. cbn [andb]. rewrite E in Hself. rewrite Hself. exact (delegation_step (delegators es (sa_delegate e.2)) (sa_delegate e.2) e Hb).
    + cbn [andb orb]. rewrite orb_false_r. destruct (delegates_away es (sa_delegate e.2)); [done|]. exact (delegation_step (delegators es (sa_delegate e.2)) (sa_delegate e.2) e Hb).
  - rewrite (bool_decide_eq_false_2 (sa_delegate e.2 = d)) by (by intros E; apply Hd). rewrite app_nil_r.
    assert (bool_decide (e.1 = sa_delegate e.2) && away e = false) as -> .
    { rewrite Ea. destruct (bool_decide_reflect (e.1 = sa_delegate e.2)) as [E|E]; [|done]. by rewrite bool_decide_eq_false_2 by tauto. }
    destruct (delegates_away es (sa_delegate e.2)) eqn:Ew.
    + by destruct (bool_decide _ && away e), (delegates_away es d).
    + destruct (delegators es (sa_delegate e.2)) as [|x ds].
      * by destruct (bool_decide _ && away e), (delegates_away es d).
      * cbn [taken_by taken]. rewrite decide_False by done. by destruct (bool_decide _ && away e), (delegates_away es d).
Qed.

(** For every order of the accounts. *)
Lemma aggregate_all es :
  NoDup es.*1 -> Forall (fun e => u64 (sa_balance e.2)) es -> holds (fold_left aggregate_account es ∅) es.
Proof.
  induction es as [|e es IH] using rev_ind; intros Hn Hb; [intros d; apply lookup_empty|]. rewrite fold_left_app. cbn [fold_left].
  rewrite fmap_app in Hn. apply NoDup_app in Hn as (Hn & Hd & _). apply Forall_app in Hb as [Hb He]. apply Forall_inv in He.
  apply aggregate_holds; [by apply IH|exact He|]. intros Hin. apply (Hd _ Hin). by left.
Qed.

Lemma delegates_away_perm es es' d : es ≡ₚ es' -> delegates_away es d = delegates_away es' d.
Proof.
  intros Hp. apply eq_true_iff_eq. unfold delegates_away. rewrite !existsb_exists. by setoid_rewrite <- list_elem_of_In; setoid_rewrite Hp.
Qed.
Lemma delegators_perm es es' d : es ≡ₚ es' -> delegators es d ≡ₚ delegators es' d.
Proof.
  intros Hp. unfold delegators. induction Hp as [|x l l' _ IH|x y l|l1 l2 l3 _ IH1 _ IH2]; cbn [List.filter].
  - done.
  - destruct (bool_decide _); by rewrite IH.
  - destruct (bool_decide _), (bool_decide _); try done. apply perm_swap.
  - by rewrite IH1.
Qed.
Lemma taken_perm d ds ds' : ds ≡ₚ ds' -> taken d ds = taken d ds'.
Proof.
  intros Hp. unfold taken, stake. rewrite (Permutation_length Hp). rewrite (sumZ_perm _ _ (fmap_Permutation _ _ _ Hp)).
  f_equal. apply set_eq. intros x. rewrite !elem_of_list_to_set. by rewrite Hp.
Qed.
Lemma delegation_of_perm es es' d : es ≡ₚ es' -> delegation_of es d = delegation_of es' d.
Proof.
  intros Hp. unfold delegation_of. rewrite (delegates_away_perm _ _ d Hp). destruct (delegates_away es' d); [done|].
  pose proof (delegators_perm _ _ d Hp) as Hd. unfold taken_by. destruct (delegators es d) as [|x ds], (delegators es' d) as [|y ds'].
  - done.
  - by apply Permutation_nil_cons in Hd.
  - symmetry in Hd. by apply Permutation_nil_cons in Hd.
  - by rewrite (taken_perm d _ _ Hd).
Qed.

(** ** The total *)

(** The stake that is counted: that of the accounts whose delegate keeps its own. *)
Definition counted es : Z := stake (List.filter (fun e => negb (delegates_away es (sa_delegate e.2))) es).

Lemma stake_perm es es' : es ≡ₚ es' -> stake es = stake es'.
Proof. intros Hp. unfold stake. by rewrite (sumZ_perm _ _ (fmap_Permutation _ _ _ Hp)). Qed.

Lemma sumZ_zero {A} (f : A -> Z) l : (forall x, x ∈ l -> f x = 0) -> sumZ (f <$> l) = 0.
Proof.
  induction l as [|x l IH]; intros Hf; [done|]. rewrite fmap_cons, sumZ_cons, (Hf x) by (by left).
  rewrite IH; [done|]. intros y Hy. apply Hf. by right.
Qed.
Lemma sumZ_add {A} (f g : A -> Z) l : sumZ ((fun x => f x + g x) <$> l) = sumZ (f <$> l) + sumZ (g <$> l).
Proof. induction l as [|x l IH]; [done|]. rewrite !fmap_cons, !sumZ_cons, IH. lia. Qed.
Lemma sumZ_one {A} `{EqDecision A} (l : list A) (a : A) (v : Z) :
  NoDup l -> a ∈ l -> sumZ ((fun x => if decide (a = x) then v else 0) <$> l) = v.
Proof.
  induction 1 as [|x l Hx Hn IH]; intros Ha; [by apply not_elem_of_nil in Ha|]. rewrite fmap_cons, sumZ_cons.
  destruct (decide (a = x)) as [->|Hne].
  - rewrite (sumZ_zero _ l); [lia|]. intros y Hy. rewrite decide_False; [done|]. by intros ->.
  - rewrite IH; [lia|]. apply elem_of_cons in Ha as [->|Ha]; done.
Qed.

(** Summing the stake per delegate is summing the stake. *)
Lemma stake_by_delegate (keep : PublicKey -> bool) (ks : list PublicKey) es :
  NoDup ks -> (forall e, e ∈ es -> keep (sa_delegate e.2) = true -> sa_delegate e.2 ∈ ks) ->
  sumZ ((fun k => if keep k then stake (delegators es k) else 0) <$> ks) = stake (List.filter (fun e => keep (sa_delegate e.2)) es).
Proof.
  intros Hn. induction es as [|e es IH]; intros Hks.
  - rewrite sumZ_zero; [done|]. intros k _. by destruct (keep k).
  - transitivity (sumZ ((fun k => (if decide (sa_delegate e.2 = k) then if keep (sa_delegate e.2) then sa_balance e.2 else 0 else 0) +
                                  (if keep k then stake (delegators es k) else 0)) <$> ks)).
    { f_equal. apply list_fmap_ext. intros i k _. unfold delegators. cbn [List.filter].
      destruct (decide (sa_delegate e.2 = k)) as [<-|Hne].
      - rewrite bool_decide_true by done. by destruct (keep _).
      - rewrite bool_decide_false by done. by destruct (keep _). }
    rewrite sumZ_add, IH by (intros x Hx; apply Hks; by right). cbn [List.filter]. destruct (keep (sa_delegate e.2)) eqn:Ek.
    + rewrite sumZ_one by (done || (apply Hks; [by left|done])). done.
    + rewrite sumZ_zero; [done|]. intros k _. by destruct (decide _).
Qed.

Lemma add_delegations_sum l acc :
  fold_left add_delegation l (wrap64 acc) =
    wrap64 (acc + sumZ ((fun e => match e.2 with Some x => default 0 (total_delegated x) | None => 0 end) <$> l)).
Proof.
  revert acc. induction l as [|e l IH]; intros acc; [by rewrite Z.add_0_r|]. cbn [fold_left]. rewrite fmap_cons, sumZ_cons.
  unfold add_delegation at 2. rewrite wrap64_add_l, IH. f_equal. lia.
Qed.

Lemma sumZ_wrap64 {A} (f : A -> Z) (l : list A) : wrap64 (sumZ ((fun x => wrap64 (f x)) <$> l)) = wrap64 (sumZ (f <$> l)).
Proof.
  induction l as [|x l IH]; [done|]. rewrite !fmap_cons, !sumZ_cons, wrap64_add_l. rewrite <- wrap64_add_r, IH, wrap64_add_r. done.
Qed.

Lemma delegate_known es e : e ∈ es -> is_Some (delegation_of es (sa_delegate e.2)).
Proof.
  intros He. unfold delegation_of. destruct (delegates_away _ _); [by eexists|].
  assert (e ∈ delegators es (sa_delegate e.2)) as Hin.
  { unfold delegators. rewrite list_elem_of_In, filter_In, <- list_elem_of_In, bool_decide_eq_true. done. }
  destruct (delegators es _); [by apply not_elem_of_nil in Hin|by eexists].
Qed.
(** Every account has an entry, its own or as its own delegate. *)
Lemma account_known es e : e ∈ es -> is_Some (delegation_of es e.1).
Proof.
  intros He. destruct (decide (e.1 = sa_delegate e.2)) as [->|Hne]; [by apply delegate_known|].
  unfold delegation_of. assert (delegates_away es e.1 = true) as ->; [|by eexists].
  apply existsb_exists. exists e. split; [by apply list_elem_of_In|]. unfold away. by rewrite !bool_decide_true.
Qed.

(** The entries of a map of delegations add up to the stake that is counted. *)
Lemma total_counted (m : Delegations) es (l : list (PublicKey * option EpochStakeDelegation)) :
  holds m es -> l ≡ₚ map_to_list m -> fold_left add_delegation l 0 = wrap64 (counted es).
Proof.
  intros Hm Hl. change 0 with (wrap64 0). rewrite add_delegations_sum, Z.add_0_l, (sumZ_perm _ _ (fmap_Permutation _ _ _ Hl)).
  unfold counted. rewrite <- (stake_by_delegate (fun k => negb (delegates_away es k)) (map_to_list m).*1).
  - rewrite <- (sumZ_wrap64 (fun k => if negb (delegates_away es k) then _ else _)). do 2 f_equal. rewrite <- list_fmap_compose. apply list_fmap_ext. intros i [k v] Hi. cbn [compose fst snd].
    apply list_elem_of_lookup_2, elem_of_map_to_list in Hi. rewrite Hm in Hi. unfold delegation_of in Hi.
    destruct (delegates_away es k); [by injection Hi as <-|]. cbn [negb]. unfold taken_by in Hi.
    destruct (delegators es k) as [|x ds]; [discriminate|]. injection Hi as <-. done.
  - apply NoDup_fst_map_to_list.
  - intros e He _. destruct (delegate_known es e He) as [v Hv]. rewrite <- Hm in Hv. apply elem_of_map_to_list in Hv.
    by apply (list_elem_of_fmap_2 fst) in Hv.
Qed.

Lemma stake_filter (keep : AccountEntry -> bool) es :
  Forall (fun e => u64 (sa_balance e.2)) es -> 0 <= stake (List.filter keep es) <= stake es.
Proof.
  induction 1 as [|e l He _ IH]; [done|]. unfold stake in *. cbn [List.filter]. destruct (keep e); rewrite ?fmap_cons, ?sumZ_cons; ints.
Qed.
Lemma counted_bounds es : Forall (fun e => u64 (sa_balance e.2)) es -> 0 <= counted es <= stake es.
Proof. apply stake_filter. Qed.

(** The aggregates of a ledger, whatever the order of its accounts. *)
Lemma aggregated_delegations `{StakingIter} (l : StakingLedger) :
  (forall pk a, sl_staking_ledger l !! pk = Some a -> u64 (sa_balance a)) ->
  let es := map_to_list (sl_staking_ledger l) in
  (forall d, ag_delegations (aggregate_delegations l) !! d = default delegation_default <$> delegation_of es d) /\
  (forall pk a, sl_staking_ledger l !! pk = Some a -> is_Some (ag_delegations (aggregate_delegations l) !! pk)) /\
  ag_total_delegations (aggregate_delegations l) = wrap64 (counted es).
Proof.
  intros Hb es. set (m := fold_left aggregate_account (staking_iter (sl_staking_ledger l)) ∅).
  pose proof (staking_iter_perm (sl_staking_ledger l)) as Hp.
  assert (Forall (fun e => u64 (sa_balance e.2)) es) as Hes.
  { apply Forall_forall. intros [k a] Hin. apply elem_of_map_to_list in Hin. by eapply Hb. }
  assert (holds m es) as Hm.
  { intros d. unfold es. rewrite <- (delegation_of_perm _ _ d Hp). apply aggregate_all; [|by rewrite Hp].
    rewrite (fmap_Permutation fst _ _ Hp). apply NoDup_fst_map_to_list. }
  assert (forall d, ag_delegations (aggregate_delegations l) !! d = default delegation_default <$> delegation_of es d) as Hd.
  { intros d. cbn. rewrite lookup_fmap. fold m. by rewrite Hm. }
  split_and!; [done| |].
  - intros pk a Ha. rewrite Hd. apply elem_of_map_to_list in Ha. apply (account_known es) in Ha as [v Hv]. cbn in Hv. rewrite Hv. by eexists.
  - cbn. apply (total_counted m); [done|apply delegation_iter_perm].
Qed.

(** C15: whatever the order in which the accounts of a staking ledger are visited, every key that its account delegates away
    has an empty aggregate, every other delegate the number, the total stake and the set of its delegators; every account
    has an entry, and the total counts the stake of the accounts whose delegate does not delegate away itself. *)
Theorem aggregation_per_delegate `{StakingIter} (l : StakingLedger) :
  (forall pk a, sl_staking_ledger l !! pk = Some a -> u64 (sa_balance a)) ->
  let es := map_to_list (sl_staking_ledger l) in
  (forall d, ag_delegations (aggregate_delegations l) !! d = default delegation_default <$> delegation_of es d) /\
  (forall pk a, sl_staking_ledger l !! pk = Some a -> is_Some (ag_delegations (aggregate_delegations l) !! pk)) /\
  ag_total_delegations (aggregate_delegations l) = wrap64 (counted es) /\
  (stake es <= U64_MAX -> 0 <= ag_total_delegations (aggregate_delegations l) <= stake es).
Proof.
  intros Hb es. destruct (aggregated_delegations l Hb) as (Hd & Hk & Ht). split_and!; [done|done|done|]. intros Hs. rewrite Ht.
  assert (0 <= counted es <= stake es) as Hc.
  { apply counted_bounds, Forall_forall. intros [k a] Hin. apply elem_of_map_to_list in Hin. by eapply Hb. }
  fold es. rewrite wrap64_id by ints. done.
Qed.

(** * Examples *)

Section Examples.

Definition key_order : StakingIter.
Proof. by refine {| staking_iter := map_to_list; delegation_iter := map_to_list |}. Defined.
#[local] Existing Instance key_order.

Definition staking_permissions_example : StakingPermissions :=
  mkStakingPermissions true SpSignature SpSignature SpSignature SpSignature SpSignature.
Definition staking_account_example (pk : PublicKey) (balance : Z) (delegate : PublicKey) : StakingAccount :=
  mkStakingAccount pk balance delegate None (Some 1) staking_permissions_example "" sh_default None None None.

(** The first account keeps its stake, the second delegates to the first, the third to the second. *)
Definition staking_ledger_example : StakingLedger :=
  let a := pk_example in let b := pk_default in let c := mkPk "B62qre3erTHfzQckNuibViWQGyyKwZseztqrjPZBv6SQF384Rg6ESAy" in
  mkStakingLedger 42 Mainnet lh_default 1110 sh_default
    (<[a := staking_account_example a 1000 a]> (<[b := staking_account_example b 100 a]> {[c := staking_account_example c 10 b]})).

Lemma staking_example_range pk a : sl_staking_ledger staking_ledger_example !! pk = Some a -> u64 (sa_balance a).
Proof.
  intros E. cbn in E. repeat (apply lookup_insert_Some in E as [[<- <-]|[_ E]]; [cbn; ints|]). apply lookup_singleton_Some in E as [<- <-]. cbn. ints.
Qed.

Lemma aggregation_per_delegate_witness :
  ag_total_delegations (aggregate_delegations staking_ledger_example) = 1100 /\
  total_delegated <$> ag_delegations (aggregate_delegations staking_ledger_example) !! pk_example = Some (Some 1100) /\
  total_delegated <$> ag_delegations (aggregate_delegations staking_ledger_example) !! pk_default = Some None.
Proof.
  destruct (aggregation_per_delegate staking_ledger_example staking_example_range) as (Hd & _ & Ht & _).
  split_and!; [rewrite Ht; vm_compute; reflexivity|rewrite Hd; vm_compute; reflexivity|rewrite Hd; vm_compute; reflexivity].
Defined.
End Examples.
