(* ===== verification/StakingStore.v ===== *)
(** Staking ledgers in the database (src/rust/src/store/staking_ledger_store_impl.rs): the accounts of an epoch and the
    stake delegated to them, by key, by balance and by stake. *)

From S2P Require Import Prelude Sorting Bytes Base StoreKeys Command AccountDiff Precomputed BlockOrder ColumnFamilies Db Events Codes Schema BlockIndex Staking.

Record StakingAccountWithEpochDelegation := mkWithDelegation {
  wd_account : StakingAccount;
  wd_delegation : EpochStakeDelegation
}.

Section Store.
Context `{Speedb} `{Json StakingAccount} `{Json EpochStakeDelegation} `{Json StakingAccountWithEpochDelegation} `{Json IndexerEvent}.
Context `{StakingIter}.
Implicit Types (db : Db) (pk : PublicKey) (ledger_hash : LedgerHash) (genesis_state_hash : StateHash) (epoch : Z).

(** The genesis hash given, or else that of the best block. *)
Definition genesis_or_best db (genesis_state_hash : option StateHash) : res StateHash :=
  best_block_genesis_hash ← get_best_block_genesis_hash db;
  expect_some (match genesis_state_hash with Some g => Some g | None => best_block_genesis_hash end).

(** * Ledgers of an epoch *)

Definition get_epoch db ledger_hash : res (option Z) :=
  opt_u32 db staking_ledger_hash_to_epoch_cf (as_bytes (lh_str ledger_hash)).

Definition get_staking_ledger_hash_by_epoch db epoch (genesis_state_hash : option StateHash) : res (option LedgerHash) :=
  g ← genesis_or_best db genesis_state_hash;
  key ← staking_ledger_epoch_key_prefix g epoch;
  map_res (fun bytes => expect (lh_from_bytes bytes)) (cf_get db staking_ledger_epoch_to_hash_cf key).

Definition set_staking_ledger_hash_epoch_pair ledger_hash epoch (genesis_state_hash : option StateHash) db : res Db :=
  g ← genesis_or_best db genesis_state_hash;
  key ← staking_ledger_epoch_key_prefix g epoch;
  let db := cf_put staking_ledger_epoch_to_hash_cf key (as_bytes (lh_str ledger_hash)) db in
  Ok (cf_put staking_ledger_hash_to_epoch_cf (as_bytes (lh_str ledger_hash)) (u32_be epoch) db).

Definition set_staking_ledger_hash_genesis_pair ledger_hash genesis_state_hash db : Db :=
  cf_put staking_ledger_genesis_hash_cf (as_bytes (lh_str ledger_hash)) (sh_key genesis_state_hash) db.
Definition get_genesis_state_hash db ledger_hash : res (option StateHash) :=
  map_res (fun bytes => expect (sh_from_bytes bytes)) (cf_get db staking_ledger_genesis_hash_cf (as_bytes (lh_str ledger_hash))).

Definition set_total_currency ledger_hash (total_currency : Z) db : Db :=
  cf_put staking_ledger_total_currency_cf (as_bytes (lh_str ledger_hash)) (u64_be total_currency) db.
Definition get_total_currency db ledger_hash : res (option Z) :=
  and_then_ok u64_from_be_bytes (cf_get db staking_ledger_total_currency_cf (as_bytes (lh_str ledger_hash))).

Definition get_staking_ledger_accounts_count_epoch db epoch genesis_state_hash : res Z :=
  key ← staking_ledger_epoch_key_prefix genesis_state_hash epoch; get_u32 db staking_ledger_accounts_count_epoch_cf key.
Definition set_staking_ledger_accounts_count_epoch epoch genesis_state_hash (count : Z) db : res Db :=
  key ← staking_ledger_epoch_key_prefix genesis_state_hash epoch;
  Ok (cf_put staking_ledger_accounts_count_epoch_cf key (u32_be count) db).

(** * Accounts of a ledger *)

Definition get_staking_account db pk epoch (genesis_state_hash : option StateHash) : res (option StakingAccount) :=
  ledger_hash ← get_staking_ledger_hash_by_epoch db epoch genesis_state_hash;
  match ledger_hash with
  | Some ledger_hash =>
    g ← genesis_or_best db genesis_state_hash;
    key ← staking_ledger_account_key g epoch ledger_hash pk;
    and_then_ok from_json (cf_get db staking_ledger_accounts_cf key)
  | None => Ok None
  end.

Definition set_staking_account pk epoch ledger_hash genesis_state_hash (a : StakingAccountWithEpochDelegation) db : res Db :=
  key ← staking_ledger_account_key genesis_state_hash epoch ledger_hash pk;
  let db := cf_put staking_ledger_accounts_cf key (to_json (wd_account a)) db in
  key ← staking_ledger_account_key genesis_state_hash epoch ledger_hash pk;
  let db := cf_put staking_delegations_cf key (to_json (wd_delegation a)) db in
  let account_serde_bytes := to_json a in
  key ← staking_ledger_sort_key epoch (sa_balance (wd_account a)) pk;
  let db := cf_put staking_ledger_balance_sort_cf key account_serde_bytes db in
  key ← staking_ledger_sort_key epoch (default 0 (total_delegated (wd_delegation a))) pk;
  Ok (cf_put staking_ledger_stake_sort_cf key account_serde_bytes db).

Definition get_epoch_delegations db pk epoch (genesis_state_hash : option StateHash) : res (option EpochStakeDelegation) :=
  g ← genesis_or_best db genesis_state_hash;
  ledger_hash ← get_staking_ledger_hash_by_epoch db epoch (Some g);
  ledger_hash ← expect_some ledger_hash;
  key ← staking_ledger_account_key g epoch ledger_hash pk;
  map_res (fun bytes => expect (from_json bytes)) (cf_get db staking_delegations_cf key).

(** * Adding a ledger *)

Definition add_staking_accounts (l : StakingLedger) ledger_hash genesis_state_hash db : res Db :=
  let aggregated_delegations := aggregate_delegations l in
  foldM (fun db e =>
    delegation ← expect_some (ag_delegations aggregated_delegations !! e.1);
    set_staking_account e.1 (sl_epoch l) ledger_hash genesis_state_hash (mkWithDelegation e.2 delegation) db)
    db (staking_iter (sl_staking_ledger l)).

Definition staking_ledger_events epoch ledger_hash genesis_state_hash db : res Db :=
  '(_, db) ← add_event (EventDb (DbStakingLedger (NewStakingLedger epoch ledger_hash genesis_state_hash))) db;
  '(_, db) ← add_event (EventDb (DbStakingLedger (AggregateDelegations epoch genesis_state_hash))) db;
  Ok db.

Definition add_staking_ledger (l : StakingLedger) genesis_state_hash db : res Db :=
  let epoch := sl_epoch l in
  key ← staking_ledger_epoch_key genesis_state_hash epoch (sl_ledger_hash l);
  let is_new := match cf_get db staking_ledger_persisted_cf key with Some _ => false | None => true end in
  let db := if is_new then cf_put staking_ledger_persisted_cf key [] db else db in
  let ledger_hash := sl_ledger_hash l in
  db ← set_staking_ledger_hash_epoch_pair ledger_hash epoch (Some genesis_state_hash) db;
  let db := set_staking_ledger_hash_genesis_pair ledger_hash genesis_state_hash db in
  let db := set_total_currency ledger_hash (sl_total_currency l) db in
  db ← set_staking_ledger_accounts_count_epoch epoch genesis_state_hash (wrap32 (Z.of_nat (size (sl_staking_ledger l)))) db;
  db ← add_staking_accounts l ledger_hash genesis_state_hash db;
  if is_new then staking_ledger_events epoch ledger_hash genesis_state_hash db else Ok db.

(** * Iterators *)

Definition epoch_iterator (cf : string) db epoch (direction : Direction) : res (list (list Z * list Z)) :=
  fstart ← staking_ledger_sort_key epoch 0 pk_lower_bound;
  rstart ← staking_ledger_sort_key epoch U64_MAX pk_upper_bound;
  Ok (iterator_cf db cf (match direction with Forward => IterFromForward fstart | Reverse => IterFromReverse rstart end)).
Definition staking_ledger_account_balance_iterator db epoch (direction : Direction) : res (list (list Z * list Z)) :=
  epoch_iterator staking_ledger_balance_sort_cf db epoch direction.
Definition staking_ledger_account_stake_iterator db epoch (direction : Direction) : res (list (list Z * list Z)) :=
  epoch_iterator staking_ledger_stake_sort_cf db epoch direction.
Definition staking_ledger_epoch_iterator db (mode : IteratorMode) : list (list Z * list Z) :=
  iterator_cf db staking_ledger_persisted_cf mode.

(** * Reading a ledger *)

Fixpoint read_staking_accounts db epoch (genesis_state_hash : option StateHash) (entries : list (list Z * list Z))
    (staking_ledger : gmap PublicKey StakingAccount) : res (gmap PublicKey StakingAccount) :=
  match entries with
  | [] => Ok staking_ledger
  | (key, _) :: entries =>
    '(key_epoch, balance, pk) ← split_staking_ledger_sort_key key;
    if key_epoch =? epoch then
      account ← get_staking_account db pk epoch genesis_state_hash;
      account ← expect_some account;
      if sa_balance account =? balance then read_staking_accounts db epoch genesis_state_hash entries (<[pk := account]> staking_ledger)
      else Panic
    else Ok staking_ledger
  end.

Definition build_staking_ledger db epoch (genesis_state_hash : option StateHash) : res (option StakingLedger) :=
  ledger_hash ← get_staking_ledger_hash_by_epoch db epoch genesis_state_hash;
  match ledger_hash with
  | Some ledger_hash =>
    network ← get_current_network db;
    total_currency ← get_total_currency db ledger_hash;
    genesis_hash ← get_genesis_state_hash db ledger_hash;
    match total_currency, genesis_hash with
    | Some total_currency, Some genesis_hash =>
      if match genesis_state_hash with Some g => bool_decide (genesis_hash = g) | None => true end then
        entries ← staking_ledger_account_balance_iterator db epoch Reverse;
        staking_ledger ← read_staking_accounts db epoch genesis_state_hash entries ∅;
        Ok (Some (mkStakingLedger epoch network ledger_hash total_currency genesis_hash staking_ledger))
      else Panic
    | _, _ => Ok None
    end
  | None => Ok None
  end.

Fixpoint read_delegations db epoch genesis_state_hash (entries : list (list Z * list Z))
    (s : gmap PublicKey EpochStakeDelegation * Z) : res (gmap PublicKey EpochStakeDelegation * Z) :=
  match entries with
  | [] => Ok s
  | (key, _) :: entries =>
    '(key_epoch, stake, pk) ← split_staking_ledger_sort_key key;
    if key_epoch =? epoch then
      account ← get_epoch_delegations db pk epoch (Some genesis_state_hash);
      account ← match account with Some a => Ok a | None => Err end;
      total ← match total_delegated account with
              | Some total_delegated => if stake =? total_delegated then Ok (wrap64 (s.2 + total_delegated)) else Panic
              | None => Ok s.2
              end;
      read_delegations db epoch genesis_state_hash entries (<[pk := account]> s.1, total)
    else Ok s
  end.

Definition build_aggregated_delegations db epoch (genesis_state_hash : option StateHash) : res (option AggregatedEpochStakeDelegations) :=
  ledger_hash ← get_staking_ledger_hash_by_epoch db epoch genesis_state_hash;
  match ledger_hash with
  | Some ledger_hash =>
    network ← get_current_network db;
    genesis_state_hash ← get_genesis_state_hash db ledger_hash;
    match genesis_state_hash with
    | Some genesis_state_hash =>
      entries ← staking_ledger_account_stake_iterator db epoch Reverse;
      '(delegations, total_delegations) ← read_delegations db epoch genesis_state_hash entries (∅, 0);
      Ok (Some (mkAggregated epoch network ledger_hash genesis_state_hash delegations total_delegations))
    | None => Ok None
    end
  | None => Ok None
  end.

Definition get_staking_ledger db ledger_hash (epoch : option Z) (genesis_state_hash : option StateHash) : res (option StakingLedger) :=
  match epoch with
  | None =>
    epoch ← get_epoch db ledger_hash;
    match epoch with Some epoch => build_staking_ledger db epoch genesis_state_hash | None => Ok None end
  | Some epoch =>
    l ← ok_flatten (build_staking_ledger db epoch genesis_state_hash);
    match l with
    | Some l => Ok (if bool_decide (sl_ledger_hash l = ledger_hash) then Some l else None)
    | None => Ok None
    end
  end.
End Store.

(** * Ledger files

    The stem of a file name holds the epoch and the hash of its ledger; what is read from the file is a parameter. *)

Section Files.
Context `{Speedb} `{Json StakingAccount} `{Json EpochStakeDelegation} `{Json StakingAccountWithEpochDelegation} `{Json IndexerEvent}.
Context `{StakingIter} `{Decimal} (read_accounts : string -> res (list StakingAccountJson)).
Implicit Types (db : Db) (stem : string).

Definition extract_epoch_hash stem : res (Z * LedgerHash) :=
  '(epoch, hash) ← extract_height_and_hash stem; hash ← expect (lh_new hash); Ok (epoch, hash).

Definition parse_file stem (genesis_state_hash : StateHash) : res StakingLedger :=
  accounts ← read_accounts stem; staking_ledger_of_file stem accounts genesis_state_hash.

(** The ledger of a file is added unless the store has it. *)
Definition process_staking_ledger stem (genesis_state_hash : StateHash) (staking_ledgers : gmap Z LedgerHash) db
  : res (gmap Z LedgerHash * Db) :=
  '(epoch, hash) ← extract_epoch_hash stem;
  known ← get_staking_ledger_hash_by_epoch db epoch None;
  if bool_decide (known <> Some hash) then
    l ← parse_file stem genesis_state_hash;
    db ← add_staking_ledger l genesis_state_hash db;
    Ok (<[sl_epoch l := sl_ledger_hash l]> staking_ledgers, db)
  else Ok (staking_ledgers, db).

Definition ledger_missing (store : option Db) stem : res bool :=
  match store with
  | Some db =>
    '(epoch, hash) ← extract_epoch_hash stem;
    known ← get_staking_ledger_hash_by_epoch db epoch None;
    Ok (bool_decide (known <> Some hash))
  | None => Ok true
  end.

(** The next ledger that is not in the store, or the next one without a store, and the files after it. *)
Fixpoint next_ledger (store : option Db) (ledger_paths : list string) : res (option StakingLedger * list string) :=
  match ledger_paths with
  | [] => Ok (None, [])
  | next_path :: ledger_paths =>
    missing ← ledger_missing store next_path;
    if (missing : bool) then l ← parse_file next_path (mkSh MAINNET_GENESIS_HASH); Ok (Some l, ledger_paths)
    else next_ledger store ledger_paths
  end.
End Files.

(** * Keys *)

Definition epoch_key (g : StateHash) (epoch : Z) : list Z := sh_key g ++ u32_be epoch.
Definition account_key (g : StateHash) (epoch : Z) (lh : LedgerHash) (pk : PublicKey) : list Z :=
  sh_key g ++ u32_be epoch ++ as_bytes (lh_str lh) ++ pk_key pk.
Definition amount_key (epoch amount : Z) (pk : PublicKey) : list Z := u32_be epoch ++ u64_be amount ++ pk_key pk.

Lemma epoch_key_ok g epoch : sh_wf g -> staking_ledger_epoch_key_prefix g epoch = Ok (epoch_key g epoch).
Proof. intros Hg. unfold staking_ledger_epoch_key_prefix. by unfold_key. Qed.
Lemma account_key_ok g epoch lh pk :
  sh_wf g -> lh_wf lh -> pk_wf pk -> staking_ledger_account_key g epoch lh pk = Ok (account_key g epoch lh pk).
Proof. intros Hg Hl Hp. unfold staking_ledger_account_key. by unfold_key. Qed.
Lemma amount_key_ok epoch amount pk : pk_wf pk -> staking_ledger_sort_key epoch amount pk = Ok (amount_key epoch amount pk).
Proof. intros Hp. unfold staking_ledger_sort_key. by unfold_key. Qed.
Lemma ledger_key_ok g epoch lh :
  sh_wf g -> lh_wf lh -> staking_ledger_epoch_key g epoch lh = Ok (epoch_key g epoch ++ as_bytes (lh_str lh)).
Proof.
  intros Hg Hl. unfold staking_ledger_epoch_key. rewrite epoch_key_ok by done. cbn [mbind res_bind].
  assert (length (epoch_key g epoch) = (StateHash_LEN + U32_LEN)%nat) as Hlen.
  { unfold epoch_key, sh_key. by rewrite length_app, length_u32_be, (sh_wf_len g). }
  rewrite build_key_ok by (unfold f_lh; keylen). unfold f_lh. cbn [fmap list_fmap snd concat]. by rewrite app_nil_r.
Qed.

Lemma split_amount_key epoch amount pk :
  u32 epoch -> u64 amount -> pk_wf pk -> split_staking_ledger_sort_key (amount_key epoch amount pk) = Ok (epoch, amount, pk).
Proof.
  intros He Ha Hp. unfold split_staking_ledger_sort_key, amount_key, pk_key.
  rewrite bool_decide_eq_true_2 by (rewrite !length_app, length_u64_be, length_u32_be, (pk_wf_len pk) by done; reflexivity).
  by read_key.
Qed.
Lemma amount_key_inj e1 a1 p1 e2 a2 p2 :
  u32 e1 -> u64 a1 -> pk_wf p1 -> u32 e2 -> u64 a2 -> pk_wf p2 -> amount_key e1 a1 p1 = amount_key e2 a2 p2 -> e1 = e2 /\ a1 = a2 /\ p1 = p2.
Proof.
  intros He1 Ha1 Hp1 He2 Ha2 Hp2 E. apply (f_equal split_staking_ledger_sort_key) in E. rewrite !split_amount_key in E by done. by injection E.
Qed.
Lemma amount_key_order e1 a1 p1 e2 a2 p2 :
  u32 e1 -> u64 a1 -> pk_wf p1 -> u32 e2 -> u64 a2 -> pk_wf p2 ->
  lex_compare (amount_key e1 a1 p1) (amount_key e2 a2 p2) = then_with (e1 ?= e2) (then_with (a1 ?= a2) (pk_compare p1 p2)).
Proof. intros. unfold amount_key, pk_key. by lex_key. Qed.
Lemma account_key_inj g epoch lh p1 p2 : account_key g epoch lh p1 = account_key g epoch lh p2 -> p1 = p2.
Proof. unfold account_key. intros E. apply app_inv_head, app_inv_head, app_inv_head in E. by apply pk_key_inj in E. Qed.

(** * The entries of an epoch *)

Notation AmountEntry := (Z * PublicKey * list Z)%type.
Definition amount_entry (epoch : Z) (x : AmountEntry) : list Z * list Z := (amount_key epoch x.1.1 x.1.2, x.2).
Definition amount_wf (x : AmountEntry) : Prop := u64 x.1.1 /\ pk_wf x.1.2.
Lemma pk_upper_bound_wf : pk_wf pk_upper_bound.
Proof. split; vm_compute; reflexivity. Qed.
Lemma pk_lower_bound_wf : pk_wf pk_lower_bound.
Proof. split; vm_compute; reflexivity. Qed.

Section Epoch.
Context `{SpeedbSpec} (cf : string).
Implicit Types (db : Db) (epoch : Z).

(** Every key of the family is made of an epoch, an amount and a public key. *)
Definition amounts_ok db : Prop :=
  forall k v, cf_get db cf k = Some v -> exists epoch x, u32 epoch /\ amount_wf x /\ (k, v) = amount_entry epoch x.

Context (db : Db) (Hok : amounts_ok db) (epoch : Z) (Hepoch : u32 epoch).
Context (Hlow : forall a pk v, u64 a -> pk_wf pk -> cf_get db cf (amount_key epoch a pk) = Some v -> a < U64_MAX).
Notation bound := (amount_key epoch U64_MAX pk_upper_bound).
Notation low := (List.filter (key_leb bound) (cf_entries db cf)).
Definition of_epoch (e : list Z * list Z) : bool := bool_decide (take U32_LEN e.1 = u32_be epoch).

Lemma of_epoch_entry e x : u32 e -> of_epoch (amount_entry e x) = (e =? epoch).
Proof.
  intros He. unfold of_epoch, amount_entry, amount_key. cbn [fst]. rewrite take_app_length' by (by rewrite length_u32_be).
  destruct (Z.eqb_spec e epoch) as [->|Hne]; [by apply bool_decide_eq_true|]. apply bool_decide_eq_false. intros E.
  apply Hne. apply (f_equal u32_from_be_bytes) in E. rewrite !u32_from_be_bytes_be in E by done. by injection E.
Qed.
Lemma entry_amount e : e ∈ cf_entries db cf -> exists epoch' x, u32 epoch' /\ amount_wf x /\ e = amount_entry epoch' x.
Proof. destruct e as [k v]. intros He. apply cf_entries_get in He. by apply Hok. Qed.
Lemma elem_of_below e : e ∈ low <-> e ∈ cf_entries db cf /\ key_leb bound e = true.
Proof. by rewrite list_elem_of_In, filter_In, list_elem_of_In. Qed.
Lemma below_bound e x :
  u32 e -> amount_wf x -> amount_entry e x ∈ cf_entries db cf -> key_leb bound (amount_entry e x) = true <-> e <= epoch.
Proof.
  intros He [Ha Hp] Hin. unfold key_leb, amount_entry. cbn [fst]. pose proof pk_upper_bound_wf. assert (u64 U64_MAX) by ints.
  rewrite amount_key_order by done. destruct (Z.compare_spec e epoch) as [->|Hlt|Hgt]; cbn [then_with]; [|split; [lia|done]|split; [done|lia]].
  apply cf_entries_get, Hlow in Hin; [|done|done]. assert ((x.1.1 ?= U64_MAX) = Lt) as -> by (by apply Z.compare_lt_iff). split; [lia|done].
Qed.

Lemma below_split : low = List.filter (fun e => negb (of_epoch e)) low ++ List.filter of_epoch low.
Proof.
  apply (sorted_split key_lt).
  - apply sorted_filter, cf_entries_sorted.
  - intros x y Hxy Hyx. unfold key_lt in *. rewrite lex_compare_antisym, Hxy in Hyx. done.
  - intros x y Hx Hy Qx Qy. apply elem_of_below in Hx as [Hx _], Hy as [Hy Hyb].
    destruct (entry_amount x Hx) as (e1 & x1 & He1 & Hx1 & ->). destruct (entry_amount y Hy) as (e2 & x2 & He2 & Hx2 & ->).
    rewrite of_epoch_entry in Qx, Qy by done. apply Z.eqb_eq in Qx as ->. apply Z.eqb_neq in Qy.
    apply below_bound in Hyb; [|done|done|done]. unfold key_lt, amount_entry. cbn [fst]. destruct Hx1, Hx2.
    rewrite amount_key_order by done. destruct (Z.compare_spec e2 epoch); [lia|done|lia].
Qed.

Lemma decode_amounts es :
  Forall (fun e => exists x, amount_wf x /\ e = amount_entry epoch x) es -> exists xs, Forall amount_wf xs /\ es = amount_entry epoch <$> xs.
Proof.
  induction 1 as [|e es (x & Hx & ->) _ (xs & Hxs & ->)]; [by exists []|]. exists (x :: xs). split; [by constructor|done].
Qed.

Lemma entries_nodup : NoDup (cf_entries db cf).
Proof.
  pose proof (cf_entries_sorted db cf) as Hs. induction Hs as [|e es _ IH Hf]; [constructor|]. constructor; [|done].
  intros Hin. rewrite Forall_forall in Hf. specialize (Hf e Hin). unfold key_lt in Hf. by rewrite lex_compare_refl in Hf.
Qed.

(** The walk in reverse yields the entries of the epoch first, each once. *)
Lemma reverse_epoch :
  exists xs rest, epoch_iterator cf db epoch Reverse = Ok ((amount_entry epoch <$> xs) ++ rest) /\ Forall amount_wf xs /\ NoDup xs /\
    (forall e, head rest = Some e -> exists epoch' x, u32 epoch' /\ epoch' <> epoch /\ amount_wf x /\ e = amount_entry epoch' x) /\
    (forall x, amount_wf x -> x ∈ xs <-> cf_get db cf (amount_key epoch x.1.1 x.1.2) = Some x.2).
Proof.
  destruct (decode_amounts (rev (List.filter of_epoch low))) as (xs & Hxs & Exs).
  { apply Forall_forall. intros e He. apply list_elem_of_In, in_rev, filter_In in He as [He Hq]. apply list_elem_of_In, elem_of_below in He as [He _].
    destruct (entry_amount e He) as (e1 & x & He1 & Hx & ->). rewrite of_epoch_entry in Hq by done. apply Z.eqb_eq in Hq as ->. by exists x. }
  exists xs, (rev (List.filter (fun e => negb (of_epoch e)) low)). split_and!.
  - unfold epoch_iterator. rewrite !amount_key_ok by (apply pk_upper_bound_wf || apply pk_lower_bound_wf). cbn [mbind res_bind iterator_cf].
    rewrite below_split at 1. by rewrite rev_app_distr, Exs.
  - done.
  - apply (NoDup_fmap_1 (amount_entry epoch)). rewrite <- Exs. apply NoDup_ListNoDup, NoDup_rev, List.NoDup_filter, List.NoDup_filter, NoDup_ListNoDup, entries_nodup.
  - intros e He. apply head_Some_elem_of in He. apply list_elem_of_In, in_rev, filter_In in He as [He Hq].
    apply list_elem_of_In, elem_of_below in He as [He _]. destruct (entry_amount e He) as (e1 & x & He1 & Hx & ->).
    rewrite of_epoch_entry in Hq by done. apply negb_true_iff, Z.eqb_neq in Hq. by exists e1, x.
  - intros x Hwf. rewrite <- cf_entries_get. change (amount_key epoch x.1.1 x.1.2, x.2) with (amount_entry epoch x). split.
    + intros Hin. apply (list_elem_of_fmap_2 (amount_entry epoch)) in Hin. rewrite <- Exs in Hin.
      apply list_elem_of_In, in_rev, filter_In in Hin as [Hin _]. by apply list_elem_of_In, elem_of_below in Hin as [Hin _].
    + intros Hin. assert (amount_entry epoch x ∈ amount_entry epoch <$> xs) as Hf.
      { rewrite <- Exs. apply list_elem_of_In, in_rev. rewrite rev_involutive. apply filter_In. split; [|by rewrite of_epoch_entry, Z.eqb_refl].
        apply list_elem_of_In, elem_of_below. split; [done|]. apply below_bound; [done|done|done|lia]. }
      apply list_elem_of_fmap in Hf as (y & E & Hy). rewrite Forall_forall in Hxs. destruct (Hxs y Hy), Hwf, x as [[a p] v], y as [[a' p'] v'].
      pose proof (f_equal fst E) as Ek. pose proof (f_equal snd E) as Ev. cbn [amount_entry fst snd] in *. apply amount_key_inj in Ek as (_ & -> & ->); [|done..]. by rewrite Ev.
Qed.
End Epoch.

(** * Adding a ledger *)

Notation StakeEntry := (PublicKey * StakingAccountWithEpochDelegation)%type.
Definition staked_amount (w : StakingAccountWithEpochDelegation) : Z := default 0 (total_delegated (wd_delegation w)).
Definition stake_entry_wf (x : StakeEntry) : Prop := pk_wf x.1 /\ u64 (sa_balance (wd_account x.2)) /\ u64 (staked_amount x.2).

Section Add.
Context `{SpeedbSpec} `{JsonSpec StakingAccount} `{JsonSpec EpochStakeDelegation} `{Json StakingAccountWithEpochDelegation} `{Json IndexerEvent}.
Context `{StakingIter}.
Implicit Types (db : Db) (g : StateHash) (lh : LedgerHash) (epoch : Z) (l : StakingLedger) (x : StakeEntry).

Definition account_ops g epoch lh x : WriteBatch :=
  [Put staking_ledger_accounts_cf (account_key g epoch lh x.1) (to_json (wd_account x.2));
   Put staking_delegations_cf (account_key g epoch lh x.1) (to_json (wd_delegation x.2));
   Put staking_ledger_balance_sort_cf (amount_key epoch (sa_balance (wd_account x.2)) x.1) (to_json x.2);
   Put staking_ledger_stake_sort_cf (amount_key epoch (staked_amount x.2) x.1) (to_json x.2)].

(** The accounts with the stake delegated to them. *)
Definition staked_accounts l : list StakeEntry :=
  (fun e => (e.1, mkWithDelegation e.2 (default delegation_default (ag_delegations (aggregate_delegations l) !! e.1)))) <$>
    staking_iter (sl_staking_ledger l).

Definition header_ops g l : WriteBatch :=
  [Put staking_ledger_epoch_to_hash_cf (epoch_key g (sl_epoch l)) (as_bytes (lh_str (sl_ledger_hash l)));
   Put staking_ledger_hash_to_epoch_cf (as_bytes (lh_str (sl_ledger_hash l))) (u32_be (sl_epoch l));
   Put staking_ledger_genesis_hash_cf (as_bytes (lh_str (sl_ledger_hash l))) (sh_key g);
   Put staking_ledger_total_currency_cf (as_bytes (lh_str (sl_ledger_hash l))) (u64_be (sl_total_currency l));
   Put staking_ledger_accounts_count_epoch_cf (epoch_key g (sl_epoch l)) (u32_be (wrap32 (Z.of_nat (size (sl_staking_ledger l)))))].

Definition persisted_ops (is_new : bool) g l : WriteBatch :=
  if is_new then [Put staking_ledger_persisted_cf (epoch_key g (sl_epoch l) ++ as_bytes (lh_str (sl_ledger_hash l))) []] else [].
Definition ledger_ops (is_new : bool) g l : WriteBatch :=
  persisted_ops is_new g l ++ header_ops g l ++ concat (account_ops g (sl_epoch l) (sl_ledger_hash l) <$> staked_accounts l).

(** What is stored about a ledger is well formed. *)
Record staking_wf l : Prop := {
  sw_epoch : u32 (sl_epoch l);
  sw_hash : lh_wf (sl_ledger_hash l);
  sw_total : u64 (sl_total_currency l);
  sw_account pk a : sl_staking_ledger l !! pk = Some a -> pk_wf pk /\ u64 (sa_balance a)
}.

Lemma set_staking_account_eq x g epoch lh db :
  sh_wf g -> lh_wf lh -> pk_wf x.1 -> set_staking_account x.1 epoch lh g x.2 db = Ok (write (account_ops g epoch lh x) db).
Proof. intros Hg Hl Hp. unfold set_staking_account. by rewrite account_key_ok, !amount_key_ok by done. Qed.

Lemma in_staking_iter l e : e ∈ staking_iter (sl_staking_ledger l) <-> sl_staking_ledger l !! e.1 = Some e.2.
Proof. rewrite (staking_iter_perm _). destruct e. apply elem_of_map_to_list. Qed.

Lemma add_staking_accounts_eq l g db :
  staking_wf l -> sh_wf g ->
  add_staking_accounts l (sl_ledger_hash l) g db =
    Ok (write (concat (account_ops g (sl_epoch l) (sl_ledger_hash l) <$> staked_accounts l)) db).
Proof.
  intros Hl Hg. destruct (aggregated_delegations l) as (_ & Hk & _); [intros pk a Ha; by eapply (sw_account l Hl)|].
  unfold add_staking_accounts, staked_accounts.
  assert (Forall (fun e => pk_wf e.1 /\ is_Some (ag_delegations (aggregate_delegations l) !! e.1)) (staking_iter (sl_staking_ledger l))) as Hall.
  { apply Forall_forall. intros e He. apply in_staking_iter in He. split; [by eapply (sw_account l Hl)|by eapply Hk]. }
  revert db. induction Hall as [|e es [Hp [d Hd]] _ IH]; intros db; [done|].
  cbn [foldM fmap list_fmap concat]. rewrite Hd. cbn [expect_some mbind res_bind default].
  rewrite (set_staking_account_eq (e.1, mkWithDelegation e.2 d)) by (done || apply (sw_hash l Hl)). cbn [mbind res_bind]. rewrite write_app. apply IH.
Qed.

Lemma genesis_of_best db g : well_typed db -> genesis_or_best db (Some g) = Ok g.
Proof.
  intros Hdb. unfold genesis_or_best, get_best_block_genesis_hash, of_best_block, get_best_block_hash.
  destruct (from_hash_typed db default_cf BEST_TIP_STATE_HASH_KEY Hdb eq_refl) as ([h|] & ->); cbn [mbind res_bind]; [|done].
  unfold get_block_genesis_state_hash. by destruct (from_hash_typed db block_genesis_state_hash_cf (sh_key h) Hdb eq_refl) as (o & ->).
Qed.

Definition is_new_ledger l g db : bool :=
  match cf_get db staking_ledger_persisted_cf (epoch_key g (sl_epoch l) ++ as_bytes (lh_str (sl_ledger_hash l))) with Some _ => false | None => true end.

Lemma add_staking_ledger_eq l g db :
  well_typed db -> staking_wf l -> sh_wf g ->
  add_staking_ledger l g db =
    let db1 := write (ledger_ops (is_new_ledger l g db) g l) db in
    if is_new_ledger l g db then staking_ledger_events (sl_epoch l) (sl_ledger_hash l) g db1 else Ok db1.
Proof.
  intros Hdb Hl Hg. unfold add_staking_ledger. rewrite ledger_key_ok by (done || apply (sw_hash l Hl)). cbn [mbind res_bind].
  fold (is_new_ledger l g db). cbn zeta. unfold ledger_ops. rewrite !write_app. set (db1 := if is_new_ledger l g db then _ else db).
  assert (db1 = write (persisted_ops (is_new_ledger l g db) g l) db) as Edb1 by (unfold db1, persisted_ops; by destruct (is_new_ledger l g db)).
  assert (well_typed db1) as Hdb1 by (unfold db1; destruct (is_new_ledger l g db); [by apply well_typed_put|done]).
  unfold set_staking_ledger_hash_epoch_pair. rewrite genesis_of_best by done. cbn [mbind res_bind]. rewrite epoch_key_ok by done. cbn [mbind res_bind].
  unfold set_staking_ledger_accounts_count_epoch. rewrite epoch_key_ok by done. cbn [mbind res_bind]. rewrite <- Edb1.
  rewrite add_staking_accounts_eq by done. cbn [mbind res_bind]. done.
Qed.

(** ** What is stored *)

Lemma staked_elem l pk w :
  (pk, w) ∈ staked_accounts l <->
    sl_staking_ledger l !! pk = Some (wd_account w) /\ wd_delegation w = default delegation_default (ag_delegations (aggregate_delegations l) !! pk).
Proof.
  unfold staked_accounts. rewrite list_elem_of_fmap. setoid_rewrite in_staking_iter. split.
  - intros ([k a] & [= -> ->] & Ha). done.
  - intros [Ha Hd]. exists (pk, wd_account w). split; [|done]. cbn [fst snd]. rewrite <- Hd. by destruct w.
Qed.
Lemma staked_nodup l : NoDup (staked_accounts l).*1.
Proof.
  unfold staked_accounts. rewrite <- list_fmap_compose. rewrite (fmap_Permutation _ _ _ (staking_iter_perm (sl_staking_ledger l))).
  apply (NoDup_fst_map_to_list (sl_staking_ledger l)).
Qed.
Lemma delegation_range es d : u64 (default 0 (total_delegated (default delegation_default (default delegation_default <$> delegation_of es d)))).
Proof.
  unfold delegation_of. destruct (delegates_away es d); [cbn; ints|]. unfold taken_by. destruct (delegators es d); [cbn; ints|]. cbn. apply wrap64_range.
Qed.
Lemma staked_wf l x : staking_wf l -> x ∈ staked_accounts l -> stake_entry_wf x.
Proof.
  intros Hl Hx. destruct x as [pk w]. apply staked_elem in Hx as [Ha Hd]. destruct (sw_account l Hl _ _ Ha) as [Hp Hb].
  split_and!; [done|done|]. unfold staked_amount. cbn [snd]. rewrite Hd.
  destruct (aggregated_delegations l) as (-> & _); [intros k a Hk; by eapply (sw_account l Hl)|]. apply delegation_range.
Qed.

Lemma family_ledger cf b g l :
  family cf (ledger_ops b g l) = family cf (persisted_ops b g l) ++ family cf (header_ops g l) ++
    concat ((fun x => family cf (account_ops g (sl_epoch l) (sl_ledger_hash l) x)) <$> staked_accounts l).
Proof. unfold ledger_ops. rewrite !family_app, family_concat, <- list_fmap_compose. done. Qed.
Lemma concat_nils {A B} (xs : list A) : concat ((fun _ => []) <$> xs) = ([] : list B).
Proof. induction xs as [|x xs IH]; [done|]. exact IH. Qed.
Lemma concat_singles {A B} (f : A -> B) (xs : list A) : concat ((fun a => [f a]) <$> xs) = f <$> xs.
Proof. induction xs as [|a xs IH]; [done|]. cbn [fmap list_fmap concat app]. f_equal. exact IH. Qed.

(** Families of the header have one entry each. *)
Lemma header_get cf k v b g l db :
  family cf (persisted_ops b g l) = [] -> family cf (header_ops g l) = [Put cf k v] ->
  (forall x, family cf (account_ops g (sl_epoch l) (sl_ledger_hash l) x) = []) -> cf_get (write (ledger_ops b g l) db) cf k = Some v.
Proof.
  intros E1 E2 E3. rewrite write_get, last_write_family, family_ledger, E1, E2.
  rewrite (list_fmap_ext _ (fun _ => []) (staked_accounts l)) by (intros; apply E3). rewrite concat_nils. cbn. by rewrite decide_True.
Qed.
(** The others, one entry per account. *)
Lemma accounts_get cf (key : StakeEntry -> list Z) (val : StakeEntry -> list Z) b g l db :
  family cf (persisted_ops b g l) = [] -> family cf (header_ops g l) = [] ->
  (forall x, family cf (account_ops g (sl_epoch l) (sl_ledger_hash l) x) = [Put cf (key x) (val x)]) ->
  (forall x y, x ∈ staked_accounts l -> y ∈ staked_accounts l -> key x = key y -> x.1 = y.1) ->
  (forall x, x ∈ staked_accounts l -> cf_get (write (ledger_ops b g l) db) cf (key x) = Some (val x)) /\
  (forall k, (forall x, x ∈ staked_accounts l -> key x <> k) -> cf_get (write (ledger_ops b g l) db) cf k = cf_get db cf k).
Proof.
  intros E1 E2 E3 Hinj.
  assert (forall k, last_write (ledger_ops b g l) cf k = last_write ((fun e => Put cf e.1 e.2) <$> ((fun x => (key x, val x)) <$> staked_accounts l)) cf k) as Ew.
  { intros k. rewrite last_write_family, family_ledger, E1, E2. rewrite (list_fmap_ext _ (fun x => [Put cf (key x) (val x)]) (staked_accounts l)) by (intros; apply E3).
    rewrite concat_singles, <- list_fmap_compose. done. }
  split.
  - intros x Hx. rewrite write_get, Ew. rewrite (last_write_puts cf _ (key x) (val x)); [done| |by apply (list_elem_of_fmap_2 (fun x => (key x, val x)))].
    rewrite <- list_fmap_compose. pose proof (staked_nodup l) as Hn. revert Hn Hinj. clear. generalize (staked_accounts l) as xs.
    induction xs as [|x xs IH]; intros Hn Hinj; [constructor|]. cbn [fmap list_fmap] in *. apply NoDup_cons in Hn as [Hx Hn]. apply NoDup_cons. split.
    + intros Hin. apply list_elem_of_fmap in Hin as (y & E & Hy). apply Hx. rewrite (Hinj x y); [by apply list_elem_of_fmap_2|by left|by right|exact E].
    + apply IH; [done|]. intros y z Hy Hz. apply Hinj; by right.
  - intros k Hk. rewrite write_get, Ew, last_write_no_put; [done|]. rewrite <- list_fmap_compose. intros Hin.
    apply list_elem_of_fmap in Hin as (x & E & Hx). by apply (Hk x Hx).
Qed.

(** The entries of an epoch by some amount. *)
Definition amounts_of (amount : StakingAccountWithEpochDelegation -> Z) (cf : string) l db : Prop :=
  forall y : AmountEntry, amount_wf y ->
    cf_get db cf (amount_key (sl_epoch l) y.1.1 y.1.2) = Some y.2 <->
    exists w, (y.1.2, w) ∈ staked_accounts l /\ y.1.1 = amount w /\ y.2 = to_json w.
(** No ledger of the epoch. *)
Definition epoch_fresh (cf : string) epoch db : Prop := forall a pk, u64 a -> pk_wf pk -> cf_get db cf (amount_key epoch a pk) = None.

(** The entries after adding a ledger: those of its accounts, and those before. *)
Lemma amounts_written amount cf b g l db :
  staking_wf l -> (forall x, x ∈ staked_accounts l -> u64 (amount x.2)) ->
  family cf (persisted_ops b g l) = [] -> family cf (header_ops g l) = [] ->
  (forall x, family cf (account_ops g (sl_epoch l) (sl_ledger_hash l) x) = [Put cf (amount_key (sl_epoch l) (amount x.2) x.1) (to_json x.2)]) ->
  (forall pk w, (pk, w) ∈ staked_accounts l -> cf_get (write (ledger_ops b g l) db) cf (amount_key (sl_epoch l) (amount w) pk) = Some (to_json w)) /\
  (forall k, cf_get (write (ledger_ops b g l) db) cf k = cf_get db cf k \/
     exists pk w, (pk, w) ∈ staked_accounts l /\ k = amount_key (sl_epoch l) (amount w) pk /\ cf_get (write (ledger_ops b g l) db) cf k = Some (to_json w)) /\
  (forall a pk, u64 a -> pk_wf pk -> (forall w, (pk, w) ∈ staked_accounts l -> amount w <> a) ->
     cf_get (write (ledger_ops b g l) db) cf (amount_key (sl_epoch l) a pk) = cf_get db cf (amount_key (sl_epoch l) a pk)).
Proof.
  intros Hl Ha E1 E2 E3. pose proof (sw_epoch l Hl) as He.
  assert (forall x, x ∈ staked_accounts l -> pk_wf x.1) as Hp by (intros x Hx; by apply (staked_wf l x Hl)).
  destruct (accounts_get cf _ _ b g l db E1 E2 E3) as [Hin Hout].
  { intros x y Hx Hy E. apply amount_key_inj in E as (_ & _ & ->); auto. }
  split_and!.
  - intros pk w Hx. exact (Hin (pk, w) Hx).
  - intros k. destruct (decide (k ∈ (fun x => amount_key (sl_epoch l) (amount x.2) x.1) <$> staked_accounts l)) as [Hd|Hd].
    + right. apply list_elem_of_fmap in Hd as ([p w] & -> & Hx). exists p, w. split_and!; [done|done|exact (Hin (p, w) Hx)].
    + left. apply Hout. intros x Hx E. apply Hd. rewrite <- E. by apply (list_elem_of_fmap_2 (fun x => amount_key (sl_epoch l) (amount x.2) x.1)).
  - intros a pk Hwa Hwp Hne. apply Hout. intros [p w] Hx E. pose proof (Ha _ Hx) as Hax. pose proof (Hp _ Hx) as Hpx. cbn [fst snd] in *.
    apply amount_key_inj in E as (_ & E & ->); [|done..]. by apply (Hne w).
Qed.

Lemma amounts_added amount cf b g l db :
  staking_wf l -> (forall x, x ∈ staked_accounts l -> u64 (amount x.2)) ->
  family cf (persisted_ops b g l) = [] -> family cf (header_ops g l) = [] ->
  (forall x, family cf (account_ops g (sl_epoch l) (sl_ledger_hash l) x) = [Put cf (amount_key (sl_epoch l) (amount x.2) x.1) (to_json x.2)]) ->
  amounts_ok cf db ->
  amounts_ok cf (write (ledger_ops b g l) db) /\
  (epoch_fresh cf (sl_epoch l) db -> amounts_of amount cf l (write (ledger_ops b g l) db)).
Proof.
  intros Hl Ha E1 E2 E3 Hok. pose proof (sw_epoch l Hl) as He. destruct (amounts_written amount cf b g l db Hl Ha E1 E2 E3) as (Hin & Hk & _).
  assert (forall x, x ∈ staked_accounts l -> pk_wf x.1) as Hp by (intros x Hx; by apply (staked_wf l x Hl)).
  split.
  - intros k v Ek. destruct (Hk k) as [Eo|(p & w & Hx & -> & Ew)]; [rewrite Eo in Ek; by apply Hok|]. rewrite Ew in Ek. injection Ek as <-.
    exists (sl_epoch l), (amount w, p, to_json w). split_and!; [done|split; [exact (Ha _ Hx)|exact (Hp _ Hx)]|done].
  - intros Hf [[a pk] v] [Hwa Hwp]. cbn [fst snd] in *. split; [|intros (w & Hx & -> & ->); by apply Hin]. intros Ek.
    destruct (Hk (amount_key (sl_epoch l) a pk)) as [Eo|(p & w & Hx & E & Ew)]; [by rewrite Eo, Hf in Ek|].
    pose proof (Ha _ Hx) as Hax. pose proof (Hp _ Hx) as Hpx. cbn [fst snd] in *. apply amount_key_inj in E as (_ & -> & ->); [|done..].
    rewrite Ew in Ek. injection Ek as <-. by exists w.
Qed.

Record header_stored db g l : Prop := {
  hs_hash : cf_get db staking_ledger_epoch_to_hash_cf (epoch_key g (sl_epoch l)) = Some (as_bytes (lh_str (sl_ledger_hash l)));
  hs_epoch : cf_get db staking_ledger_hash_to_epoch_cf (as_bytes (lh_str (sl_ledger_hash l))) = Some (u32_be (sl_epoch l));
  hs_genesis : cf_get db staking_ledger_genesis_hash_cf (as_bytes (lh_str (sl_ledger_hash l))) = Some (sh_key g);
  hs_total : cf_get db staking_ledger_total_currency_cf (as_bytes (lh_str (sl_ledger_hash l))) = Some (u64_be (sl_total_currency l));
  hs_count : cf_get db staking_ledger_accounts_count_epoch_cf (epoch_key g (sl_epoch l)) =
               Some (u32_be (wrap32 (Z.of_nat (size (sl_staking_ledger l)))))
}.
Record epoch_stored db g l : Prop := {
  es_header : header_stored db g l;
  es_account x : x ∈ staked_accounts l ->
    cf_get db staking_ledger_accounts_cf (account_key g (sl_epoch l) (sl_ledger_hash l) x.1) = Some (to_json (wd_account x.2));
  es_delegation x : x ∈ staked_accounts l ->
    cf_get db staking_delegations_cf (account_key g (sl_epoch l) (sl_ledger_hash l) x.1) = Some (to_json (wd_delegation x.2));
  es_balance_ok : amounts_ok staking_ledger_balance_sort_cf db;
  es_balance : amounts_of (fun w => sa_balance (wd_account w)) staking_ledger_balance_sort_cf l db;
  es_stake_ok : amounts_ok staking_ledger_stake_sort_cf db;
  es_stake : amounts_of staked_amount staking_ledger_stake_sort_cf l db
}.

Lemma header_written b g l db : header_stored (write (ledger_ops b g l) db) g l.
Proof. split; apply header_get; by destruct b. Qed.
Lemma ledger_stored b g l db :
  staking_wf l -> amounts_ok staking_ledger_balance_sort_cf db -> amounts_ok staking_ledger_stake_sort_cf db ->
  epoch_fresh staking_ledger_balance_sort_cf (sl_epoch l) db -> epoch_fresh staking_ledger_stake_sort_cf (sl_epoch l) db ->
  epoch_stored (write (ledger_ops b g l) db) g l.
Proof.
  intros Hl Hb Hs Fb Fs.
  destruct (amounts_added (fun w => sa_balance (wd_account w)) staking_ledger_balance_sort_cf b g l db) as [Hbok Hbal];
    [done|intros x Hx; by apply (staked_wf l x Hl)|by destruct b|done|done|done|]. specialize (Hbal Fb).
  destruct (amounts_added staked_amount staking_ledger_stake_sort_cf b g l db) as [Hsok Hst];
    [done|intros x Hx; by apply (staked_wf l x Hl)|by destruct b|done|done|done|]. specialize (Hst Fs).
  assert (forall x y : StakeEntry, account_key g (sl_epoch l) (sl_ledger_hash l) x.1 = account_key g (sl_epoch l) (sl_ledger_hash l) y.1 -> x.1 = y.1) as Hinj
    by (intros x y; apply account_key_inj).
  split; [by apply header_written| | |done|done|done|done].
  - apply (accounts_get staking_ledger_accounts_cf (fun x => account_key g (sl_epoch l) (sl_ledger_hash l) x.1)); [by destruct b|done|done|auto].
  - apply (accounts_get staking_delegations_cf (fun x => account_key g (sl_epoch l) (sl_ledger_hash l) x.1)); [by destruct b|done|done|auto].
Qed.

(** ** Events *)

Lemma events_step epoch lh g db :
  well_typed db -> exists db', staking_ledger_events epoch lh g db = Ok db' /\ well_typed db' /\ kept [events_cf] [NEXT_EVENT_SEQ_NUM_KEY] db db'.
Proof.
  assert (forall e db, well_typed db -> exists n db', add_event (EventDb e) db = Ok (n, db') /\ well_typed db' /\ kept [events_cf] [NEXT_EVENT_SEQ_NUM_KEY] db db') as Hadd.
  { intros e d Hd. destruct (add_event_typed (EventDb e) d Hd) as (n & d' & E & Hd' & _). exists n, d'. split_and!; [done|done|].
    unfold add_event in E. inv_ok E. injection E as _ <-. eapply kept_trans; by apply kept_put. }
  intros Hdb. unfold staking_ledger_events.
  destruct (Hadd (DbStakingLedger (NewStakingLedger epoch lh g)) db Hdb) as (n1 & db1 & -> & Hdb1 & Hk1). cbn [mbind res_bind].
  destruct (Hadd (DbStakingLedger (AggregateDelegations epoch g)) db1 Hdb1) as (n2 & db2 & -> & Hdb2 & Hk2). cbn [mbind res_bind].
  exists db2. split_and!; [done|done|by eapply kept_trans].
Qed.

Lemma stored_kept db db' g l : kept [events_cf] [NEXT_EVENT_SEQ_NUM_KEY] db db' -> epoch_stored db g l -> epoch_stored db' g l.
Proof.
  intros Hk Hs. assert (forall cf, cf <> events_cf -> cf <> default_cf -> forall k, cf_get db' cf k = cf_get db cf k) as Hget.
  { intros cf H1' H2' k. apply Hk. unfold in_scope. cbn [family_in existsb]. rewrite (proj2 (String.eqb_neq cf events_cf)), (proj2 (String.eqb_neq cf default_cf)) by done. done. }
  destruct Hs; split; intros; rewrite ?Hget by done; auto.
  - destruct es_header0; split; by rewrite Hget.
  - intros k v E. rewrite Hget in E by done. by eapply es_balance_ok0.
  - intros y Hy. rewrite Hget by done. by apply es_balance0.
  - intros k v E. rewrite Hget in E by done. by eapply es_stake_ok0.
  - intros y Hy. rewrite Hget by done. by apply es_stake0.
Qed.

Lemma ledger_ops_typed b g l db : staking_wf l -> sh_wf g -> well_typed db -> well_typed (write (ledger_ops b g l) db).
Proof.
  intros Hl Hg Hdb. apply well_typed_write; [|done]. unfold ledger_ops. rewrite !Forall_app. split_and!.
  - destruct b; [by repeat constructor|constructor].
  - repeat constructor; unfold typed_op; cbn -[u32_be u64_be].
    + apply (has_type_u32 _), (sw_epoch l Hl).
    + exists g. by apply sh_from_bytes_as_bytes.
    + apply (has_type_u64 _), (sw_total l Hl).
    + apply (has_type_u32 _), u32_wrap32.
  - apply Forall_concat, Forall_fmap, Forall_forall. intros x _. by repeat constructor.
Qed.

(** Adding a ledger writes its entries and, if it is new, two events. *)
Lemma add_staking_ledger_spec l g db :
  well_typed db -> staking_wf l -> sh_wf g ->
  exists db', add_staking_ledger l g db = Ok db' /\ well_typed db' /\
    kept [events_cf] [NEXT_EVENT_SEQ_NUM_KEY] (write (ledger_ops (is_new_ledger l g db) g l) db) db'.
Proof.
  intros Hdb Hl Hg. rewrite add_staking_ledger_eq by done. cbn zeta. pose proof (ledger_ops_typed (is_new_ledger l g db) g l db Hl Hg Hdb) as Hdb1.
  destruct (is_new_ledger l g db) eqn:En; [by apply events_step|]. eexists. split_and!; [done|done|apply kept_refl].
Qed.

Lemma current_network_kept db db' g l b :
  kept [events_cf] [NEXT_EVENT_SEQ_NUM_KEY] (write (ledger_ops b g l) db) db' -> get_current_network db' = get_current_network db.
Proof.
  intros Hk. assert (forall cf, family cf (persisted_ops b g l) = [] -> family cf (header_ops g l) = [] ->
    (forall x, family cf (account_ops g (sl_epoch l) (sl_ledger_hash l) x) = []) -> forall k, cf_get (write (ledger_ops b g l) db) cf k = cf_get db cf k) as Hget.
  { intros cf E1 E2 E3 k. rewrite write_get, last_write_family, family_ledger, E1, E2.
    rewrite (list_fmap_ext _ (fun _ => []) (staked_accounts l)) by (intros; apply E3). by rewrite concat_nils. }
  unfold get_current_network, get_chain_id, get_network. rewrite (Hk default_cf CHAIN_ID_KEY) by reflexivity.
  rewrite Hget by (done || by destruct b). destruct (expect_some (cf_get db default_cf CHAIN_ID_KEY) ≫= chain_id_from_bytes) as [c| |]; [|done..]. cbn [mbind res_bind].
  rewrite (Hk chain_id_to_network_cf) by reflexivity. by rewrite Hget by (done || by destruct b).
Qed.

(** ** Reading it back *)

Section Header.
Context (db : Db) (g : StateHash) (l : StakingLedger).
Context (Hdb : well_typed db) (Hl : staking_wf l) (Hg : sh_wf g) (Hh : header_stored db g l).
Notation epoch := (sl_epoch l).

Lemma stored_hash : get_staking_ledger_hash_by_epoch db epoch (Some g) = Ok (Some (sl_ledger_hash l)).
Proof.
  unfold get_staking_ledger_hash_by_epoch. rewrite genesis_of_best by done. cbn [mbind res_bind]. rewrite epoch_key_ok by done. cbn [mbind res_bind].
  rewrite (hs_hash _ _ _ Hh). cbn [map_res]. by rewrite lh_from_bytes_as_bytes by apply (sw_hash l Hl).
Qed.
Lemma stored_genesis : get_genesis_state_hash db (sl_ledger_hash l) = Ok (Some g).
Proof. unfold get_genesis_state_hash. rewrite (hs_genesis _ _ _ Hh). cbn [map_res]. unfold sh_key. by rewrite sh_from_bytes_as_bytes. Qed.
Lemma stored_total : get_total_currency db (sl_ledger_hash l) = Ok (Some (sl_total_currency l)).
Proof. unfold get_total_currency. rewrite (hs_total _ _ _ Hh). cbn [and_then_ok]. by rewrite u64_from_be_bytes_be by apply (sw_total l Hl). Qed.
Lemma stored_epoch : get_epoch db (sl_ledger_hash l) = Ok (Some epoch).
Proof. unfold get_epoch, opt_u32. rewrite (hs_epoch _ _ _ Hh). cbn [map_res]. by rewrite from_be_bytes_u32 by apply (sw_epoch l Hl). Qed.

End Header.

Section Read.
Context (db : Db) (g : StateHash) (l : StakingLedger).
Context (Hdb : well_typed db) (Hl : staking_wf l) (Hg : sh_wf g) (Hs : epoch_stored db g l).
Notation epoch := (sl_epoch l).
Notation other := (fun e : list Z * list Z => exists epoch' y, u32 epoch' /\ epoch' <> epoch /\ amount_wf y /\ e = amount_entry epoch' y).

Lemma stored_account x : x ∈ staked_accounts l -> get_staking_account db x.1 epoch (Some g) = Ok (Some (wd_account x.2)).
Proof.
  intros Hx. unfold get_staking_account. rewrite (stored_hash db g l) by (done || apply Hs). cbn [mbind res_bind]. rewrite genesis_of_best by done. cbn [mbind res_bind].
  rewrite account_key_ok by (done || apply (sw_hash l Hl) || by apply (staked_wf l x Hl)). cbn [mbind res_bind].
  rewrite (es_account _ _ _ Hs) by done. cbn [and_then_ok]. by rewrite json_roundtrip.
Qed.
Lemma stored_delegation x : x ∈ staked_accounts l -> get_epoch_delegations db x.1 epoch (Some g) = Ok (Some (wd_delegation x.2)).
Proof.
  intros Hx. unfold get_epoch_delegations. rewrite genesis_of_best by done. cbn [mbind res_bind]. rewrite (stored_hash db g l) by (done || apply Hs). cbn [mbind res_bind expect_some].
  rewrite account_key_ok by (done || apply (sw_hash l Hl) || by apply (staked_wf l x Hl)). cbn [mbind res_bind].
  rewrite (es_delegation _ _ _ Hs) by done. cbn [map_res]. by rewrite json_roundtrip.
Qed.

Lemma read_accounts_eq ys rest m :
  Forall amount_wf ys -> (forall e, head rest = Some e -> other e) ->
  (forall y, y ∈ ys -> exists w, (y.1.2, w) ∈ staked_accounts l /\ y.1.1 = sa_balance (wd_account w)) ->
  exists m', read_staking_accounts db epoch (Some g) ((amount_entry epoch <$> ys) ++ rest) m = Ok m' /\
    forall k, m' !! k = if decide (k ∈ ys.*1.*2) then sl_staking_ledger l !! k else m !! k.
Proof.
  intros Hys Hrest. revert m. induction Hys as [|[[a pk] v] ys [Ha Hp] _ IH]; intros m Hin.
  - exists m. split; [|intros k; by rewrite decide_False by apply not_elem_of_nil]. cbn [fmap list_fmap app].
    destruct rest as [|e rest]; [done|]. destruct (Hrest e eq_refl) as (e' & y & He' & Hne & [Hya Hyp] & ->).
    cbn [read_staking_accounts amount_entry]. rewrite split_amount_key by done. cbn [mbind res_bind]. by rewrite (proj2 (Z.eqb_neq e' epoch)).
  - cbn [fst snd] in *. destruct (Hin (a, pk, v) ltac:(by left)) as (w & Hw & Ew). cbn [fst snd] in *.
    pose proof (sw_epoch l Hl). pose proof (stored_account (pk, w) Hw) as Eacc. cbn [fst snd] in Eacc.
    destruct (IH (<[pk := wd_account w]> m)) as (m' & E & Hm'); [intros y Hy; apply Hin; by right|]. exists m'. split.
    + cbn [fmap list_fmap app read_staking_accounts amount_entry fst snd]. rewrite split_amount_key by done. cbn [mbind res_bind].
      rewrite Z.eqb_refl, Eacc. cbn [mbind res_bind expect_some]. by rewrite Ew, Z.eqb_refl.
    + intros k. rewrite Hm'. cbn [fmap list_fmap fst snd]. apply staked_elem in Hw as [Hw _]. destruct (decide (k = pk)) as [->|Hne].
      * rewrite lookup_insert_eq, (decide_True (P := pk ∈ pk :: _)) by (by left). rewrite Hw. by destruct (decide _).
      * rewrite lookup_insert_ne by done. destruct (decide (k ∈ _)) as [Hk|Hk]; [by rewrite decide_True by (by right)|].
        by rewrite decide_False by (rewrite elem_of_cons; tauto).
Qed.

Lemma read_delegations_eq ys rest m t :
  Forall amount_wf ys -> (forall e, head rest = Some e -> other e) ->
  (forall y, y ∈ ys -> exists w, (y.1.2, w) ∈ staked_accounts l /\ y.1.1 = staked_amount w) ->
  exists m', read_delegations db epoch g ((amount_entry epoch <$> ys) ++ rest) (m, wrap64 t) = Ok (m', wrap64 (t + sumZ ys.*1.*1)) /\
    forall k, m' !! k = if decide (k ∈ ys.*1.*2) then Some (default delegation_default (ag_delegations (aggregate_delegations l) !! k)) else m !! k.
Proof.
  intros Hys Hrest. revert m t. induction Hys as [|[[a pk] v] ys [Ha Hp] _ IH]; intros m t Hin.
  - exists m. split; [|intros k; by rewrite decide_False by apply not_elem_of_nil]. cbn [fmap list_fmap app sumZ foldr]. rewrite Z.add_0_r.
    destruct rest as [|e rest]; [done|]. destruct (Hrest e eq_refl) as (e' & y & He' & Hne & [Hya Hyp] & ->).
    cbn [read_delegations amount_entry]. rewrite split_amount_key by done. cbn [mbind res_bind]. by rewrite (proj2 (Z.eqb_neq e' epoch)).
  - cbn [fst snd] in *. destruct (Hin (a, pk, v) ltac:(by left)) as (w & Hw & Ew). cbn [fst snd] in *.
    pose proof (sw_epoch l Hl). pose proof (stored_delegation (pk, w) Hw) as Eacc. cbn [fst snd] in Eacc.
    destruct (IH (<[pk := wd_delegation w]> m) (t + a)) as (m' & E & Hm'); [intros y Hy; apply Hin; by right|]. exists m'. split.
    + cbn [fmap list_fmap app read_delegations amount_entry fst snd]. rewrite split_amount_key by done. cbn [mbind res_bind].
      rewrite Z.eqb_refl, Eacc. cbn [mbind res_bind]. rewrite sumZ_cons, Z.add_assoc, <- E. unfold staked_amount in Ew.
      destruct (total_delegated (wd_delegation w)) as [z|]; cbn [default] in Ew; subst a; cbn [mbind res_bind fst snd].
      * rewrite Z.eqb_refl. cbn [mbind res_bind]. by rewrite wrap64_add_l.
      * by rewrite Z.add_0_r.
    + intros k. rewrite Hm'. cbn [fmap list_fmap fst snd]. apply staked_elem in Hw as [Hw Hd]. destruct (decide (k = pk)) as [->|Hne].
      * rewrite lookup_insert_eq, (decide_True (P := pk ∈ pk :: _)) by (by left). rewrite Hd. by destruct (decide _).
      * rewrite lookup_insert_ne by done. destruct (decide (k ∈ _)) as [Hk|Hk]; [by rewrite decide_True by (by right)|].
        by rewrite decide_False by (rewrite elem_of_cons; tauto).
Qed.
End Read.

(** The entries of the epoch are those of the accounts. *)
Lemma amounts_walk amount cf db l :
  (forall x, x ∈ staked_accounts l -> stake_entry_wf x /\ u64 (amount x.2) /\ amount x.2 < U64_MAX) -> u32 (sl_epoch l) ->
  amounts_ok cf db -> amounts_of amount cf l db ->
  exists ys rest, epoch_iterator cf db (sl_epoch l) Reverse = Ok ((amount_entry (sl_epoch l) <$> ys) ++ rest) /\ Forall amount_wf ys /\
    (forall e, head rest = Some e -> exists epoch' y, u32 epoch' /\ epoch' <> sl_epoch l /\ amount_wf y /\ e = amount_entry epoch' y) /\
    ys ≡ₚ (fun x => (amount x.2, x.1, to_json x.2)) <$> staked_accounts l.
Proof.
  intros Hwf He Hok Hof. destruct (reverse_epoch cf db Hok (sl_epoch l) He) as (ys & rest & Eit & Hys & Hnd & Hrest & Hin).
  { intros a pk v Ha Hp E. destruct (proj1 (Hof (a, pk, v) (conj Ha Hp)) E) as (w & Hw & Ea & _). cbn [fst snd] in *. rewrite Ea. by apply (Hwf _ Hw). }
  exists ys, rest. split_and!; [done|done|done|]. apply NoDup_Permutation; [done| |].
  - apply (NoDup_fmap_1 (fun y : AmountEntry => y.1.2)). rewrite <- list_fmap_compose. apply (staked_nodup l).
  - intros y. split.
    + intros Hy. pose proof Hys as Hys'. rewrite Forall_forall in Hys'. pose proof (Hys' y Hy) as Hwy. apply (Hin y Hwy), (Hof y Hwy) in Hy as (w & Hw & Ea & Ev).
      apply list_elem_of_fmap. exists (y.1.2, w). split; [|done]. destruct y as [[a p] v]. cbn [fst snd] in *. by rewrite Ea, Ev.
    + intros Hy. apply list_elem_of_fmap in Hy as (x & -> & Hx). destruct (Hwf x Hx) as ((Hp & _) & Ha & _).
      assert (amount_wf (amount x.2, x.1, to_json x.2)) as Hwy by done. apply (Hin _ Hwy), (Hof _ Hwy). exists x.2. cbn [fst snd]. split_and!; [by destruct x|done|done].
Qed.

(** Small enough to be below the start of the iterators. *)
Lemma staked_low l x :
  staking_wf l -> stake (map_to_list (sl_staking_ledger l)) < U64_MAX -> x ∈ staked_accounts l ->
  stake_entry_wf x /\ sa_balance (wd_account x.2) < U64_MAX /\ staked_amount x.2 < U64_MAX.
Proof.
  intros Hl Hlt Hx. split; [by apply (staked_wf l x Hl)|]. destruct x as [pk w]. cbn [snd]. apply staked_elem in Hx as [Ha Hd].
  set (es := map_to_list (sl_staking_ledger l)) in *.
  assert (forall k a, sl_staking_ledger l !! k = Some a -> u64 (sa_balance a)) as Hb by (intros k a Hk; by eapply (sw_account l Hl)).
  assert (Forall (fun e => u64 (sa_balance e.2)) es) as Hes.
  { apply Forall_forall. intros [k a] Hin. apply elem_of_map_to_list in Hin. by eapply Hb. }
  split.
  - pose proof (stake_filter (fun e => bool_decide (e.1 = pk)) es Hes) as Hf. pose proof (Hb _ _ Ha) as Hw.
    assert (sa_balance (wd_account w) <= stake (List.filter (fun e => bool_decide (e.1 = pk)) es)); [|lia].
    apply elem_of_map_to_list in Ha. fold es in Ha. revert Ha Hes. clear. induction es as [|e es IH]; intros Hin Hes; [by apply not_elem_of_nil in Hin|].
    apply Forall_cons in Hes as [He Hes]. cbn [List.filter]. apply elem_of_cons in Hin as [<-|Hin].
    + cbn [fst]. rewrite bool_decide_true by done. unfold stake. rewrite fmap_cons, sumZ_cons. pose proof (stake_filter (fun e => bool_decide (e.1 = pk)) es Hes). unfold stake in *. cbn [snd]. lia.
    + specialize (IH Hin Hes). destruct (bool_decide _); [|done]. unfold stake in *. rewrite fmap_cons, sumZ_cons. unfold u64 in He. lia.
  - unfold staked_amount. rewrite Hd. destruct (aggregated_delegations l Hb) as (-> & _). unfold delegation_of. destruct (delegates_away _ pk); [cbn; ints|].
    unfold taken_by. destruct (delegators _ pk) as [|e ds] eqn:Ed; [cbn; ints|]. cbn -[wrap64 stake].
    pose proof (stake_filter (fun e => bool_decide (sa_delegate e.2 = pk)) es Hes) as Hf. unfold delegators in Ed. fold es in Ed. rewrite Ed in Hf.
    rewrite wrap64_id by ints. lia.
Qed.

(** Every delegate has an account in the ledger. *)
Definition delegates_known l : Prop := forall pk a, sl_staking_ledger l !! pk = Some a -> is_Some (sl_staking_ledger l !! sa_delegate a).

Lemma staked_total l :
  staking_wf l -> delegates_known l ->
  wrap64 (sumZ ((fun x => staked_amount x.2) <$> staked_accounts l)) = ag_total_delegations (aggregate_delegations l).
Proof.
  intros Hl Hk. destruct (aggregated_delegations l) as (Hd & _ & ->); [intros k a Ha; by eapply (sw_account l Hl)|]. set (es := map_to_list (sl_staking_ledger l)) in *.
  unfold staked_accounts. rewrite <- list_fmap_compose, (sumZ_perm _ _ (fmap_Permutation _ _ _ (staking_iter_perm (sl_staking_ledger l)))). fold es.
  unfold counted. rewrite <- (stake_by_delegate (fun k => negb (delegates_away es k)) es.*1).
  - rewrite <- (sumZ_wrap64 (fun k => if negb (delegates_away es k) then _ else _)). do 2 f_equal. rewrite <- list_fmap_compose. apply list_fmap_ext.
    intros i e _. unfold staked_amount. cbn [compose snd wd_delegation]. rewrite Hd. unfold delegation_of. destruct (delegates_away es e.1); [done|].
    unfold taken_by. by destruct (delegators es e.1).
  - apply NoDup_fst_map_to_list.
  - intros [k a] He _. apply elem_of_map_to_list, Hk in He as [b Hb]. apply elem_of_map_to_list in Hb. by apply (list_elem_of_fmap_2 fst) in Hb.
Qed.

Lemma delegations_of_ledger l k :
  staking_wf l -> delegates_known l ->
  ag_delegations (aggregate_delegations l) !! k =
    if decide (k ∈ (staked_accounts l).*1) then Some (default delegation_default (ag_delegations (aggregate_delegations l) !! k)) else None.
Proof.
  intros Hl Hk. destruct (aggregated_delegations l) as (Hd & Hs & _); [intros p a Ha; by eapply (sw_account l Hl)|]. set (es := map_to_list (sl_staking_ledger l)) in *.
  destruct (decide _) as [Hin|Hin].
  - apply list_elem_of_fmap in Hin as ([p w] & -> & Hin). apply staked_elem in Hin as [Ha _]. cbn [fst]. by destruct (Hs _ _ Ha) as [d ->].
  - assert (sl_staking_ledger l !! k = None) as En.
    { apply eq_None_not_Some. intros [a Ha]. apply Hin. apply (list_elem_of_fmap_2 fst _ (k, mkWithDelegation a (default delegation_default (ag_delegations (aggregate_delegations l) !! k)))).
      by apply staked_elem. }
    rewrite Hd. unfold delegation_of. assert (delegates_away es k = false) as ->.
    { apply not_true_is_false. intros E. apply existsb_exists in E as ([p a] & Hp & E). apply andb_prop in E as [E _]. apply bool_decide_eq_true in E. cbn in E. subst p.
      apply list_elem_of_In, elem_of_map_to_list in Hp. congruence. }
    unfold taken_by. destruct (delegators es k) as [|[p a] ds] eqn:Ed; [done|].
    assert ((p, a) ∈ delegators es k) as Hp by (rewrite Ed; by left). apply list_elem_of_In, filter_In in Hp as [Hp E]. apply bool_decide_eq_true in E. cbn in E.
    apply list_elem_of_In, elem_of_map_to_list, Hk in Hp as [b Hb]. congruence.
Qed.

(** The ledger as it is read: on the network of the store and with the genesis hash it was added under. *)
Definition read_as net g l : StakingLedger :=
  mkStakingLedger (sl_epoch l) net (sl_ledger_hash l) (sl_total_currency l) g (sl_staking_ledger l).

Lemma build_ledger_eq db g net l :
  well_typed db -> staking_wf l -> sh_wf g -> epoch_stored db g l -> get_current_network db = Ok net ->
  stake (map_to_list (sl_staking_ledger l)) < U64_MAX ->
  build_staking_ledger db (sl_epoch l) (Some g) = Ok (Some (read_as net g l)).
Proof.
  intros Hdb Hl Hg Hs Hn Hlt. unfold build_staking_ledger. rewrite (stored_hash db g l) by (done || apply Hs). cbn [mbind res_bind]. rewrite Hn. cbn [mbind res_bind].
  rewrite (stored_total db g l), (stored_genesis db g l) by (done || apply Hs). cbn [mbind res_bind]. rewrite bool_decide_true by done.
  destruct (amounts_walk (fun w => sa_balance (wd_account w)) staking_ledger_balance_sort_cf db l) as (ys & rest & Eit & Hys & Hrest & Hp);
    [|apply (sw_epoch l Hl)|apply Hs|apply Hs|].
  { intros x Hx. destruct (staked_low l x Hl Hlt Hx) as (Hw & Hb & _). split_and!; [done|apply Hw|done]. }
  unfold staking_ledger_account_balance_iterator. rewrite Eit. cbn [mbind res_bind].
  destruct (read_accounts_eq db g l Hdb Hl Hg Hs ys rest ∅) as (m & -> & Hm); [done|done| |].
  { intros y Hy. rewrite Hp in Hy. apply list_elem_of_fmap in Hy as ([p w] & -> & Hx). by exists w. }
  cbn [mbind res_bind]. unfold read_as. do 3 f_equal. apply map_eq. intros k. rewrite Hm. destruct (decide (k ∈ _)) as [_|Hk]; [done|].
  rewrite lookup_empty. symmetry. apply eq_None_not_Some. intros [a Ha]. apply Hk. rewrite Hp, <- !list_fmap_compose.
  apply list_elem_of_fmap. exists (k, mkWithDelegation a (default delegation_default (ag_delegations (aggregate_delegations l) !! k))). split; [done|by apply staked_elem].
Qed.

Lemma build_delegations_eq db g net l :
  well_typed db -> staking_wf l -> sh_wf g -> epoch_stored db g l -> get_current_network db = Ok net ->
  stake (map_to_list (sl_staking_ledger l)) < U64_MAX -> delegates_known l ->
  build_aggregated_delegations db (sl_epoch l) (Some g) = Ok (Some (aggregate_delegations (read_as net g l))).
Proof.
  intros Hdb Hl Hg Hs Hn Hlt Hk. unfold build_aggregated_delegations. rewrite (stored_hash db g l) by (done || apply Hs). cbn [mbind res_bind]. rewrite Hn. cbn [mbind res_bind].
  rewrite (stored_genesis db g l) by (done || apply Hs). cbn [mbind res_bind].
  destruct (amounts_walk staked_amount staking_ledger_stake_sort_cf db l) as (ys & rest & Eit & Hys & Hrest & Hp);
    [|apply (sw_epoch l Hl)|apply Hs|apply Hs|].
  { intros x Hx. destruct (staked_low l x Hl Hlt Hx) as (Hw & _ & Hb). split_and!; [done|apply Hw|done]. }
  unfold staking_ledger_account_stake_iterator. rewrite Eit. cbn [mbind res_bind]. change 0 with (wrap64 0).
  destruct (read_delegations_eq db g l Hdb Hl Hg Hs ys rest ∅ 0) as (m & -> & Hm); [done|done| |].
  { intros y Hy. rewrite Hp in Hy. apply list_elem_of_fmap in Hy as ([p w] & -> & Hx). by exists w. }
  cbn [mbind res_bind]. rewrite Z.add_0_l. do 2 f_equal. unfold aggregate_delegations at 1. cbn [read_as sl_epoch sl_network sl_ledger_hash sl_genesis_state_hash sl_staking_ledger].
  f_equal.
  - apply map_eq. intros k. rewrite Hm. etransitivity; [|symmetry; exact (delegations_of_ledger l k Hl Hk)].
    assert (k ∈ ys.*1.*2 <-> k ∈ (staked_accounts l).*1) as Hiff by (rewrite Hp, <- !list_fmap_compose; done).
    destruct (decide (k ∈ ys.*1.*2)), (decide (k ∈ (staked_accounts l).*1)); [done|tauto|tauto|apply lookup_empty].
  - rewrite (sumZ_perm _ ((fun x => staked_amount x.2) <$> staked_accounts l)); [exact (staked_total l Hl Hk)|]. rewrite Hp, <- !list_fmap_compose. done.
Qed.

(** C16: a staking ledger that is the first of its epoch can be added; it is read back as it was, by epoch and by hash, on the
    network of the store and with the genesis hash it was added under, with the number of its accounts; and when every
    delegate has an account, the delegations read back are the aggregated ones. *)
Theorem staking_ledger_stored l g net db :
  well_typed db -> staking_wf l -> sh_wf g -> get_current_network db = Ok net ->
  amounts_ok staking_ledger_balance_sort_cf db -> amounts_ok staking_ledger_stake_sort_cf db ->
  epoch_fresh staking_ledger_balance_sort_cf (sl_epoch l) db -> epoch_fresh staking_ledger_stake_sort_cf (sl_epoch l) db ->
  stake (map_to_list (sl_staking_ledger l)) < U64_MAX ->
  exists db', add_staking_ledger l g db = Ok db' /\ well_typed db' /\
    build_staking_ledger db' (sl_epoch l) (Some g) = Ok (Some (read_as net g l)) /\
    get_staking_ledger db' (sl_ledger_hash l) None (Some g) = Ok (Some (read_as net g l)) /\
    (forall pk a, sl_staking_ledger l !! pk = Some a -> get_staking_account db' pk (sl_epoch l) (Some g) = Ok (Some a)) /\
    get_staking_ledger_accounts_count_epoch db' (sl_epoch l) g = Ok (wrap32 (Z.of_nat (size (sl_staking_ledger l)))) /\
    (delegates_known l ->
     build_aggregated_delegations db' (sl_epoch l) (Some g) = Ok (Some (aggregate_delegations (read_as net g l)))).
Proof.
  intros Hdb Hl Hg Hn Hb Hs Fb Fs Hlt. destruct (add_staking_ledger_spec l g db Hdb Hl Hg) as (db' & E & Hdb' & Hk).
  assert (epoch_stored db' g l) as Hst by (eapply stored_kept; [exact Hk|by apply ledger_stored]).
  assert (get_current_network db' = Ok net) as Hn' by (by rewrite (current_network_kept _ _ _ _ _ Hk)).
  pose proof (build_ledger_eq db' g net l Hdb' Hl Hg Hst Hn' Hlt) as Eb.
  exists db'. split_and!; [done|done|done| | | |intros Hkn; by apply build_delegations_eq].
  - unfold get_staking_ledger. by rewrite (stored_epoch db' g l) by (done || apply Hst).
  - intros pk a Ha. set (w := mkWithDelegation a (default delegation_default (ag_delegations (aggregate_delegations l) !! pk))).
    exact (stored_account db' g l Hdb' Hl Hg Hst (pk, w) (proj2 (staked_elem l pk w) (conj Ha eq_refl))).
  - unfold get_staking_ledger_accounts_count_epoch. rewrite epoch_key_ok by done. cbn [mbind res_bind]. unfold get_u32.
    rewrite (hs_count _ _ _ (es_header _ _ _ Hst)). by rewrite from_be_bytes_u32 by apply u32_wrap32.
Qed.

(** ** Ledgers of one epoch on two chains *)

Lemma read_account_total db g epoch lh pk :
  well_typed db -> sh_wf g -> lh_wf lh -> pk_wf pk -> get_staking_ledger_hash_by_epoch db epoch (Some g) = Ok (Some lh) ->
  exists o, get_staking_account db pk epoch (Some g) = Ok o /\
    (cf_get db staking_ledger_accounts_cf (account_key g epoch lh pk) = None -> o = None).
Proof.
  intros Hdb Hg Hlh Hp Eh. unfold get_staking_account. rewrite Eh. cbn [mbind res_bind]. rewrite genesis_of_best by done. cbn [mbind res_bind].
  rewrite account_key_ok by done. cbn [mbind res_bind]. destruct (cf_get db _ _) as [v|]; [|by exists None]. cbn [and_then_ok].
  destruct (from_json v) as [a| |] eqn:E; [by exists (Some a)|by exists None|by apply json_no_panic in E].
Qed.

Lemma read_accounts_panic db g epoch lh ys rest m :
  well_typed db -> sh_wf g -> lh_wf lh -> u32 epoch -> get_staking_ledger_hash_by_epoch db epoch (Some g) = Ok (Some lh) ->
  Forall amount_wf ys -> (exists y, y ∈ ys /\ forall a, get_staking_account db y.1.2 epoch (Some g) = Ok (Some a) -> sa_balance a <> y.1.1) ->
  read_staking_accounts db epoch (Some g) ((amount_entry epoch <$> ys) ++ rest) m = Panic.
Proof.
  intros Hdb Hg Hlh He Eh Hys (y & Hy & Hbad). revert m. induction Hys as [|z ys [Ha Hp] _ IH]; intros m; [by apply not_elem_of_nil in Hy|].
  cbn [fmap list_fmap app read_staking_accounts amount_entry]. rewrite split_amount_key by done. cbn [mbind res_bind]. rewrite Z.eqb_refl.
  destruct (read_account_total db g epoch lh z.1.2) as ([a|] & Ea & _); [done..| |]; rewrite Ea; cbn [mbind res_bind expect_some]; [|done].
  destruct (Z.eqb_spec (sa_balance a) z.1.1) as [E|_]; [|done]. apply elem_of_cons in Hy as [->|Hy]; [by apply Hbad in Ea|by apply IH].
Qed.

Lemma header_kept db db' g l : kept [events_cf] [NEXT_EVENT_SEQ_NUM_KEY] db db' -> header_stored db g l -> header_stored db' g l.
Proof. intros Hk Hh. destruct Hh; split; by rewrite Hk. Qed.

(** An entry of the epoch that is not an account of the ledger is in the way. *)
Lemma build_ledger_panics db g l net pk a v :
  well_typed db -> staking_wf l -> sh_wf g -> header_stored db g l -> get_current_network db = Ok net ->
  amounts_ok staking_ledger_balance_sort_cf db ->
  (forall a pk v, u64 a -> pk_wf pk -> cf_get db staking_ledger_balance_sort_cf (amount_key (sl_epoch l) a pk) = Some v -> a < U64_MAX) ->
  u64 a -> pk_wf pk -> cf_get db staking_ledger_balance_sort_cf (amount_key (sl_epoch l) a pk) = Some v ->
  (forall acct, get_staking_account db pk (sl_epoch l) (Some g) = Ok (Some acct) -> sa_balance acct <> a) ->
  build_staking_ledger db (sl_epoch l) (Some g) = Panic.
Proof.
  intros Hdb Hl Hg Hh Hn Hok Hlow Ha Hp Hv Hbad. pose proof (stored_hash db g l Hdb Hl Hg Hh) as Eh. unfold build_staking_ledger. rewrite Eh. cbn [mbind res_bind].
  rewrite Hn. cbn [mbind res_bind]. rewrite (stored_total db g l), (stored_genesis db g l) by done. cbn [mbind res_bind]. rewrite bool_decide_true by done.
  destruct (reverse_epoch staking_ledger_balance_sort_cf db Hok (sl_epoch l) (sw_epoch l Hl) Hlow) as (ys & rest & Eit & Hys & _ & _ & Hin).
  unfold staking_ledger_account_balance_iterator. rewrite Eit. cbn [mbind res_bind].
  rewrite (read_accounts_panic db g (sl_epoch l) (sl_ledger_hash l)); [done|done|done|apply (sw_hash l Hl)|apply (sw_epoch l Hl)|done|done|].
  exists (a, pk, v). split; [by apply Hin|exact Hbad].
Qed.

Lemma accounts_written b g l db :
  sh_wf g ->
  (forall pk a, sl_staking_ledger l !! pk = Some a ->
     cf_get (write (ledger_ops b g l) db) staking_ledger_accounts_cf (account_key g (sl_epoch l) (sl_ledger_hash l) pk) = Some (to_json a)) /\
  (forall pk, sl_staking_ledger l !! pk = None ->
     cf_get (write (ledger_ops b g l) db) staking_ledger_accounts_cf (account_key g (sl_epoch l) (sl_ledger_hash l) pk) =
       cf_get db staking_ledger_accounts_cf (account_key g (sl_epoch l) (sl_ledger_hash l) pk)) /\
  (forall g' epoch lh pk, sh_wf g' -> g' <> g ->
     cf_get (write (ledger_ops b g l) db) staking_ledger_accounts_cf (account_key g' epoch lh pk) =
       cf_get db staking_ledger_accounts_cf (account_key g' epoch lh pk)).
Proof.
  intros Hg. destruct (accounts_get staking_ledger_accounts_cf (fun x => account_key g (sl_epoch l) (sl_ledger_hash l) x.1)
    (fun x => to_json (wd_account x.2)) b g l db) as [Hin Hout]; [by destruct b|done|done|intros x y _ _; apply account_key_inj|].
  split_and!.
  - intros pk a Ha. set (w := mkWithDelegation a (default delegation_default (ag_delegations (aggregate_delegations l) !! pk))).
    exact (Hin (pk, w) (proj2 (staked_elem l pk w) (conj Ha eq_refl))).
  - intros pk Hn. apply Hout. intros [p w] Hx E. apply account_key_inj in E. cbn [fst] in E. subst p. apply staked_elem in Hx as [Hx _]. congruence.
  - intros g' epoch lh pk Hg' Hne. apply Hout. intros x _ E. unfold account_key in E. apply app_inj_1 in E as [E _]; [|unfold sh_key; by rewrite !sh_wf_len].
    by apply sh_key_inj in E.
Qed.

(** the order by balance does not know the genesis block: after the ledgers of one epoch on two chains are added, the second
    cannot be read any more when an account of the first is not in the second with the same balance. *)
Theorem ledgers_of_two_chains_clash l1 l2 g1 g2 net db pk a :
  well_typed db -> staking_wf l1 -> staking_wf l2 -> sh_wf g1 -> sh_wf g2 -> g1 <> g2 -> sl_epoch l1 = sl_epoch l2 ->
  get_current_network db = Ok net ->
  amounts_ok staking_ledger_balance_sort_cf db -> amounts_ok staking_ledger_stake_sort_cf db ->
  epoch_fresh staking_ledger_balance_sort_cf (sl_epoch l1) db -> epoch_fresh staking_ledger_stake_sort_cf (sl_epoch l1) db ->
  stake (map_to_list (sl_staking_ledger l1)) < U64_MAX -> stake (map_to_list (sl_staking_ledger l2)) < U64_MAX ->
  sl_staking_ledger l1 !! pk = Some a -> (forall b, sl_staking_ledger l2 !! pk = Some b -> sa_balance b <> sa_balance a) ->
  cf_get db staking_ledger_accounts_cf (account_key g2 (sl_epoch l2) (sl_ledger_hash l2) pk) = None ->
  exists db1 db2, add_staking_ledger l1 g1 db = Ok db1 /\
    build_staking_ledger db1 (sl_epoch l1) (Some g1) = Ok (Some (read_as net g1 l1)) /\
    add_staking_ledger l2 g2 db1 = Ok db2 /\ build_staking_ledger db2 (sl_epoch l2) (Some g2) = Panic.
Proof.
  intros Hdb Hl1 Hl2 Hg1 Hg2 Hne Hep Hn Hb Hs Fb Fs Hlt1 Hlt2 Ha Hdiff Hfree.
  destruct (add_staking_ledger_spec l1 g1 db Hdb Hl1 Hg1) as (db1 & E1 & Hdb1 & Hk1).
  assert (epoch_stored db1 g1 l1) as Hst by (eapply stored_kept; [exact Hk1|by apply ledger_stored]).
  assert (get_current_network db1 = Ok net) as Hn1 by (by rewrite (current_network_kept _ _ _ _ _ Hk1)).
  destruct (add_staking_ledger_spec l2 g2 db1 Hdb1 Hl2 Hg2) as (db2 & E2 & Hdb2 & Hk2).
  exists db1, db2. split_and!; [done|by apply build_ledger_eq|done|].
  set (b2 := is_new_ledger l2 g2 db1) in *. set (d := write (ledger_ops b2 g2 l2) db1) in *.
  assert (forall k, cf_get db2 staking_ledger_balance_sort_cf k = cf_get d staking_ledger_balance_sort_cf k) as Hget by (intros k; by apply Hk2).
  destruct (amounts_written (fun w => sa_balance (wd_account w)) staking_ledger_balance_sort_cf b2 g2 l2 db1) as (_ & Hsplit & Hold);
    [done|intros x Hx; by apply (staked_wf l2 x Hl2)|by destruct b2|done|done|]. fold d in Hsplit, Hold.
  destruct (amounts_added (fun w => sa_balance (wd_account w)) staking_ledger_balance_sort_cf b2 g2 l2 db1) as [Hok2 _];
    [done|intros x Hx; by apply (staked_wf l2 x Hl2)|by destruct b2|done|done|apply Hst|]. fold d in Hok2.
  destruct (sw_account l1 Hl1 _ _ Ha) as [Hp Hba]. set (w1 := mkWithDelegation a (default delegation_default (ag_delegations (aggregate_delegations l1) !! pk))).
  assert ((pk, w1) ∈ staked_accounts l1) as Hw1 by (by apply staked_elem).
  apply (build_ledger_panics db2 g2 l2 net pk (sa_balance a) (to_json w1)).
  - done.
  - done.
  - done.
  - eapply header_kept; [exact Hk2|apply header_written].
  - by rewrite (current_network_kept _ _ _ _ _ Hk2).
  - intros k v Ev. rewrite Hget in Ev. by apply Hok2.
  - intros b p v Hb' Hp' Ev. rewrite Hget in Ev. destruct (Hsplit (amount_key (sl_epoch l2) b p)) as [Eo|(q & w & Hw & Ek & _)].
    + rewrite Eo, <- Hep in Ev. apply (es_balance _ _ _ Hst (b, p, v) (conj Hb' Hp')) in Ev as (w & Hw & Eb & _). cbn [fst snd] in Eb. rewrite Eb.
      by apply (staked_low l1 (p, w) Hl1 Hlt1 Hw).
    + destruct (staked_low l2 (q, w) Hl2 Hlt2 Hw) as ((Hq & Hqb & _) & Hlow & _). cbn [fst snd] in *.
      apply amount_key_inj in Ek as (_ & -> & _); [done|apply (sw_epoch l2 Hl2)|done|done|apply (sw_epoch l2 Hl2)|done|done].
  - done.
  - done.
  - rewrite Hget, Hold; [|done|done|].
    + rewrite <- Hep. apply (es_balance _ _ _ Hst (sa_balance a, pk, to_json w1) (conj Hba Hp)). by exists w1.
    + intros w Hw. apply staked_elem in Hw as [Hw _]. by apply (Hdiff _ Hw).
  - intros acct Ex Exb. destruct (accounts_written b2 g2 l2 db1 Hg2) as (Hin & Hno & _). fold d in Hin, Hno.
    destruct (accounts_written (is_new_ledger l1 g1 db) g1 l1 db Hg1) as (_ & _ & Hother).
    unfold get_staking_account in Ex. rewrite (stored_hash db2 g2 l2) in Ex by (done || (eapply header_kept; [exact Hk2|apply header_written])).
    cbn [mbind res_bind] in Ex. rewrite genesis_of_best in Ex by done. cbn [mbind res_bind] in Ex.
    rewrite account_key_ok in Ex by (done || apply (sw_hash l2 Hl2)). cbn [mbind res_bind] in Ex. rewrite (Hk2 staking_ledger_accounts_cf) in Ex by done.
    destruct (sl_staking_ledger l2 !! pk) as [b|] eqn:Eb.
    + rewrite (Hin _ _ Eb) in Ex. cbn [and_then_ok] in Ex. rewrite json_roundtrip in Ex. injection Ex as <-. by apply (Hdiff b).
    + rewrite (Hno _ Eb), (Hk1 staking_ledger_accounts_cf), Hother, Hfree in Ex by (done || by intros E; apply Hne). done.
Qed.
End Add.

(** * Examples *)

Global Instance StakingPermission_eqd : EqDecision StakingPermission.
Proof. solve_decision. Defined.
Global Instance StakingPermission_code : Countable StakingPermission.
Proof.
  refine (inj_countable' (fun c => match c with SpSignature => true | SpProof => false end)
    (fun b : bool => if b then SpSignature else SpProof) _). by intros [].
Defined.
Global Instance StakingPermissions_eqd : EqDecision StakingPermissions.
Proof. solve_decision. Defined.
Global Instance StakingPermissions_code : Countable StakingPermissions.
Proof.
  refine (inj_countable' (fun r => (sp_stake r, sp_edit_state r, sp_send r, sp_set_delegate r, sp_set_permissions r, sp_set_verification_key r))
    (fun '(x0, x1, x2, x3, x4, x5) => mkStakingPermissions x0 x1 x2 x3 x4 x5) _). by intros [].
Defined.
Global Instance StakingAccount_eqd : EqDecision StakingAccount.
Proof. solve_decision. Defined.
Global Instance StakingAccount_code : Countable StakingAccount.
Proof.
  refine (inj_countable' (fun r => (sa_pk r, sa_balance r, sa_delegate r, sa_username r, sa_token r, sa_permissions r, sa_receipt_chain_hash r,
      sa_voting_for r, sa_nonce r, sa_timing r, sa_zkapp r))
    (fun '(x0, x1, x2, x3, x4, x5, x6, x7, x8, x9, x10) => mkStakingAccount x0 x1 x2 x3 x4 x5 x6 x7 x8 x9 x10) _). by intros [].
Defined.
Global Instance EpochStakeDelegation_eqd : EqDecision EpochStakeDelegation.
Proof. solve_decision. Defined.
Global Instance EpochStakeDelegation_code : Countable EpochStakeDelegation.
Proof.
  refine (inj_countable' (fun r => (esd_pk r, count_delegates r, total_delegated r, delegates r))
    (fun '(x0, x1, x2, x3) => mkDelegation x0 x1 x2 x3) _). by intros [].
Defined.
Global Instance WithDelegation_eqd : EqDecision StakingAccountWithEpochDelegation.
Proof. solve_decision. Defined.
Global Instance WithDelegation_code : Countable StakingAccountWithEpochDelegation.
Proof.
  refine (inj_countable' (fun r => (wd_account r, wd_delegation r)) (fun '(x0, x1) => mkWithDelegation x0 x1) _). by intros [].
Defined.

Section Examples.
#[local] Existing Instances map_db map_db_spec countable_json key_order.

Definition mainnet_store : Db := set_chain_id_for_network chain_id_example Mainnet (∅ : Db).
Definition other_genesis : StateHash := mkSh HARDFORK_GENESIS_HASH.
(** The same epoch after the hard fork, without the third account. *)
Definition forked_ledger_example : StakingLedger :=
  mkStakingLedger 42 Mainnet lh_default 1100 sh_default
    (<[pk_example := staking_account_example pk_example 1000 pk_example]> {[pk_default := staking_account_example pk_default 100 pk_example]}).
Definition third_key : PublicKey := mkPk "B62qre3erTHfzQckNuibViWQGyyKwZseztqrjPZBv6SQF384Rg6ESAy".

Lemma mainnet_store_typed : well_typed mainnet_store.
Proof. apply well_typed_put; [done|]. apply well_typed_put; [done|]. apply empty_well_typed. Qed.
Lemma mainnet_store_get cf k : cf <> chain_id_to_network_cf -> cf <> default_cf -> cf_get mainnet_store cf k = None.
Proof. intros H1 H2. unfold mainnet_store, set_chain_id_for_network. by rewrite !cf_get_put, !decide_False by congruence. Qed.

Lemma staking_example_wf : staking_wf staking_ledger_example.
Proof.
  split; [cbn; ints|vm_compute; done|cbn; ints|]. intros pk a E. cbn in E.
  repeat (apply lookup_insert_Some in E as [[<- <-]|[_ E]]; [split; [split; vm_compute; reflexivity|cbn; ints]|]).
  apply lookup_singleton_Some in E as [<- <-]. split; [split; vm_compute; reflexivity|cbn; ints].
Qed.
Lemma forked_example_wf : staking_wf forked_ledger_example.
Proof.
  split; [cbn; ints|vm_compute; done|cbn; ints|]. intros pk a E. cbn in E.
  apply lookup_insert_Some in E as [[<- <-]|[_ E]]; [split; [split; vm_compute; reflexivity|cbn; ints]|].
  apply lookup_singleton_Some in E as [<- <-]. split; [split; vm_compute; reflexivity|cbn; ints].
Qed.
Lemma staking_example_known : delegates_known staking_ledger_example.
Proof.
  intros pk a E. cbn in E. repeat (apply lookup_insert_Some in E as [[<- <-]|[_ E]]; [vm_compute; by eexists|]).
  apply lookup_singleton_Some in E as [<- <-]. vm_compute. by eexists.
Qed.

Lemma staking_ledger_stored_witness :
  exists db', add_staking_ledger staking_ledger_example sh_default mainnet_store = Ok db' /\
    build_staking_ledger db' 42 (Some sh_default) = Ok (Some staking_ledger_example) /\
    build_aggregated_delegations db' 42 (Some sh_default) = Ok (Some (aggregate_delegations staking_ledger_example)).
Proof.
  destruct (staking_ledger_stored staking_ledger_example sh_default Mainnet mainnet_store) as (db' & E & _ & Eb & _ & _ & _ & Ea).
  - exact mainnet_store_typed.
  - exact staking_example_wf.
  - vm_compute. done.
  - vm_compute. reflexivity.
  - intros k v E. by rewrite mainnet_store_get in E.
  - intros k v E. by rewrite mainnet_store_get in E.
  - intros a pk _ _. by apply mainnet_store_get.
  - intros a pk _ _. by apply mainnet_store_get.
  - vm_compute. reflexivity.
  - exists db'. split; [exact E|]. split; [exact Eb|exact (Ea staking_example_known)].
Defined.

Lemma ledgers_of_two_chains_clash_witness :
  exists db1 db2, add_staking_ledger staking_ledger_example sh_default mainnet_store = Ok db1 /\
    add_staking_ledger forked_ledger_example other_genesis db1 = Ok db2 /\ build_staking_ledger db2 42 (Some other_genesis) = Panic.
Proof.
  destruct (ledgers_of_two_chains_clash staking_ledger_example forked_ledger_example sh_default other_genesis Mainnet mainnet_store
    third_key (staking_account_example third_key 10 pk_default)) as (db1 & db2 & E1 & _ & E2 & Ep).
  - exact mainnet_store_typed.
  - exact staking_example_wf.
  - exact forked_example_wf.
  - vm_compute. done.
  - vm_compute. done.
  - discriminate.
  - reflexivity.
  - vm_compute. reflexivity.
  - intros k v E. by rewrite mainnet_store_get in E.
  - intros k v E. by rewrite mainnet_store_get in E.
  - intros a pk _ _. by apply mainnet_store_get.
  - intros a pk _ _. by apply mainnet_store_get.
  - vm_compute. reflexivity.
  - vm_compute. reflexivity.
  - vm_compute. reflexivity.
  - intros b E. vm_compute in E. discriminate.
  - by apply mainnet_store_get.
  - exists db1, db2. split; [exact E1|]. split; [exact E2|exact Ep].
Defined.
End Examples.
