(* ===== verification/BinProt.v ===== *)
(** The binary format of the blocks of the first chain (src/rust/src/protocol/bin_prot): the writers and readers of
    its basic values, and the serializer and the deserializer as serde drives them on the values of a type. *)

From S2P Require Import Prelude Bytes.

(** * Basic values

    A reader takes bytes from the front of its input; the end of the input is an error. *)

Notation reader A := (list Z -> res (A * list Z)).

Definition CODE_NEG_INT8 : Z := 255.
Definition CODE_INT16 : Z := 254.
Definition CODE_INT32 : Z := 253.
Definition CODE_INT64 : Z := 252.

Definition ISIZE_MAX : Z := 9223372036854775807.

Definition read_exact (n : nat) : reader (list Z) := fun l =>
  if (length l <? n)%nat then Err else Ok (take n l, drop n l).
Definition read_u8 : reader Z := fun l => match l with b :: l => Ok (b, l) | [] => Err end.

(** Little-endian integers of [n] bytes, and their value as a signed integer. *)
Definition signed (n : nat) (z : Z) : Z := if z <? 2 ^ (8 * Z.of_nat n - 1) then z else z - 256 ^ Z.of_nat n.
Definition read_le (n : nat) : reader Z := fun l => '(b, l) ← read_exact n l; Ok (of_le_bytes b, l).
Definition read_signed (n : nat) : reader Z := fun l => '(z, l) ← read_le n l; Ok (signed n z, l).

(** [FromPrimitive] of a type that holds the integers of a range. *)
Definition from_primitive (range : Z * Z) (z : Z) (l : list Z) : res (Z * list Z) :=
  if (range.1 <=? z) && (z <=? range.2) then Ok (z, l) else Err.

(** ** Writers (write_ext.rs) *)

Definition bin_write_unit : list Z := [0].
Definition bin_write_bool (b : bool) : list Z := [if b then 1 else 0].
(** [c as u8] *)
Definition bin_write_char (c : Z) : list Z := [c mod 256].

Definition bin_write_integer (n : Z) : list Z :=
  if 0 <=? n then
    if n <? 128 then [n mod 256]
    else if n <? 32768 then CODE_INT16 :: le_bytes 2 n
    else if n <? 2147483648 then CODE_INT32 :: le_bytes 4 n
    else CODE_INT64 :: le_bytes 8 n
  else
    if -128 <=? n then CODE_NEG_INT8 :: le_bytes 1 n
    else if -32768 <=? n then CODE_INT16 :: le_bytes 2 n
    else if -2147483648 <=? n then CODE_INT32 :: le_bytes 4 n
    else CODE_INT64 :: le_bytes 8 n.

Definition bin_write_nat0 (n : Z) : list Z :=
  if n <? 128 then [n mod 256]
  else if n <? 65536 then CODE_INT16 :: le_bytes 2 n
  else if n <? 4294967296 then CODE_INT32 :: le_bytes 4 n
  else CODE_INT64 :: le_bytes 8 n.

Definition bin_write_variant_index (i : Z) : list Z := [i mod 256].
(** [i << 1 | 1] of a [u32] *)
Definition bin_write_polyvar_tag (i : Z) : list Z := le_bytes 4 (wrap32 (Z.shiftl i 1 + 1)).

(** ** Readers (read_ext.rs) *)

Definition bin_read_unit : reader unit := fun l =>
  '(b, l) ← read_u8 l; if b =? 0 then Ok (tt, l) else Err.
Definition bin_read_bool : reader bool := fun l =>
  '(b, l) ← read_u8 l; if b =? 0 then Ok (false, l) else if b =? 1 then Ok (true, l) else Err.
Definition bin_read_char : reader Z := read_u8.

Definition bin_read_integer (range : Z * Z) : reader Z := fun l =>
  '(byte0, l) ← read_u8 l;
  if byte0 =? CODE_INT16 then '(z, l) ← read_signed 2 l; from_primitive range z l
  else if byte0 =? CODE_INT32 then '(z, l) ← read_signed 4 l; from_primitive range z l
  else if byte0 =? CODE_INT64 then '(z, l) ← read_signed 8 l; from_primitive range z l
  else if byte0 =? CODE_NEG_INT8 then '(z, l) ← read_signed 1 l; from_primitive range z l
  else if 128 <? byte0 then Err
  else from_primitive range byte0 l.

Definition bin_read_nat0 (range : Z * Z) : reader Z := fun l =>
  '(byte0, l) ← read_u8 l;
  if byte0 =? CODE_INT16 then '(z, l) ← read_le 2 l; from_primitive range z l
  else if byte0 =? CODE_INT32 then '(z, l) ← read_le 4 l; from_primitive range z l
  else if byte0 =? CODE_INT64 then '(z, l) ← read_le 8 l; from_primitive range z l
  else if 128 <? byte0 then Err
  else from_primitive range byte0 l.

Definition bin_read_variant_index : reader Z := read_u8.
Definition bin_read_polyvar_tag : reader Z := fun l => '(z, l) ← read_le 4 l; Ok (Z.shiftr z 1, l).

(** The buffer is allocated before its bytes are read: a length above [isize::MAX] is a panic. *)
Definition bin_read_bytes : reader (list Z) := fun l =>
  '(len, l) ← bin_read_nat0 (0, U64_MAX) l;
  if ISIZE_MAX <? len then Panic else read_exact (Z.to_nat len) l.
Definition bin_read_string : reader (list Z) := fun l =>
  '(bytes, l) ← bin_read_bytes l; if utf8_valid bytes then Ok (bytes, l) else Err.

(** ** Hashes of variant names (polyvar/caml_hash_variant.rs)

    The arithmetic of [u32] wraps, as in the production build. *)

Definition caml_hash_variant (label : string) : Z :=
  fold_left (fun accu byte => wrap32 (wrap32 (223 * accu) + byte)) (as_bytes label) 0.

(** * Values of types

    What serde calls for the types of the repository: structs are tuples of their fields, and a variant has any number of fields. *)

Inductive ty :=
| TyBool
| TyI8 | TyI16 | TyI32 | TyI64
| TyU8 | TyU16 | TyU32 | TyU64
| TyChar
| TyString
| TyOption (t : ty)
| TyUnit
| TyNewtype (t : ty)
| TySeq (t : ty)
| TyTuple (ts : list ty)
| TyEnum (name : string) (variants : list (string * list ty)).

Inductive val :=
| VBool (b : bool)
| VInt (z : Z)
| VChar (c : Z)
| VString (bytes : list Z)
| VOption (o : option val)
| VUnit
| VSeq (vs : list val)
| VTuple (vs : list val)
| VVariant (index : nat) (vs : list val).

(** ** The serializer (ser.rs) *)

Definition write_variant_index_or_tag (name variant : string) (index : Z) : list Z :=
  if String.eqb name "Polyvar" then bin_write_polyvar_tag (caml_hash_variant variant)
  else if index <? 256 then bin_write_variant_index index
  else bin_write_polyvar_tag index.

(** [v as i64] of a [u64]. *)
Definition u64_as_i64 (v : Z) : Z := signed 8 v.

(** [Err] for values that are not of the type. *)
Fixpoint serialize (t : ty) (v : val) {struct t} : res (list Z) :=
  let fix fields (ts : list ty) (vs : list val) {struct ts} : res (list Z) :=
    match ts, vs with
    | [], [] => Ok []
    | t :: ts, v :: vs => b ← serialize t v; bs ← fields ts vs; Ok (b ++ bs)
    | _, _ => Err
    end in
  match t, v with
  | TyBool, VBool b => Ok (bin_write_bool b)
  | (TyI8 | TyI16 | TyI32 | TyI64 | TyU16 | TyU32), VInt z => Ok (bin_write_integer z)
  | TyU8, VInt z => Ok [z]
  | TyU64, VInt z => Ok (bin_write_integer (u64_as_i64 z))
  | TyChar, VChar c => Ok (bin_write_char c)
  | TyString, VString bytes => Ok (bin_write_nat0 (Z.of_nat (length bytes)) ++ bytes)
  | TyOption t, VOption None => Ok bin_write_unit
  | TyOption t, VOption (Some v) => b ← serialize t v; Ok (1 :: b)
  | TyUnit, VUnit => Ok bin_write_unit
  | TyNewtype t, v => serialize t v
  | TySeq t, VSeq vs =>
    bs ← mapM (serialize t) vs; Ok (bin_write_nat0 (Z.of_nat (length vs)) ++ concat bs)
  | TyTuple ts, VTuple vs => fields ts vs
  | TyEnum name variants, VVariant index vs =>
    (fix variant (variants : list (string * list ty)) (i : nat) {struct variants} : res (list Z) :=
       match variants, i with
       | (variant_name, ts) :: _, O =>
         b ← fields ts vs; Ok (write_variant_index_or_tag name variant_name (Z.of_nat index) ++ b)
       | _ :: variants, S i => variant variants i
       | [], _ => Err
       end) variants index
  | _, _ => Err
  end.

(** ** The deserializer (de.rs) *)

Definition int_range (t : ty) : Z * Z :=
  match t with
  | TyI8 => (-128, 127)
  | TyI16 => (-32768, 32767)
  | TyI32 => (-2147483648, 2147483647)
  | TyI64 => (-9223372036854775808, 9223372036854775807)
  | TyU8 => (0, 255)
  | TyU16 => (0, 65535)
  | TyU32 => (0, U32_MAX)
  | _ => (0, U64_MAX)
  end.

(** [SeqAccess] of a list: a number of elements. *)
Fixpoint read_elements {A} (read : reader A) (n : nat) : reader (list A) := fun l =>
  match n with
  | O => Ok ([], l)
  | S n => '(a, l) ← read l; '(rest, l) ← read_elements read n l; Ok (a :: rest, l)
  end.

Definition is_ascii (s : string) : bool := forallb (fun b => b <? 128) (as_bytes s).

(** The first variant of the hash, among those with an ASCII name. *)
Fixpoint find_variant (hash : Z) (names : list string) (index : Z) : option Z :=
  match names with
  | [] => None
  | name :: names => if caml_hash_variant name =? hash then Some index else find_variant hash names (index + 1)
  end.
Definition polyvar_index (hash : Z) (names : list string) : res Z :=
  match find_variant hash (List.filter is_ascii names) 0 with Some index => Ok (index mod 256) | None => Err end.

(** The index of the variant, from its tag or as it is. *)
Definition read_variant (name : string) (names : list string) : reader Z := fun l =>
  if String.eqb name "Polyvar" then '(hash, l) ← bin_read_polyvar_tag l; index ← polyvar_index hash names; Ok (index, l)
  else bin_read_variant_index l.

Fixpoint deserialize (t : ty) {struct t} : reader val := fun l =>
  let fix fields (ts : list ty) (l : list Z) {struct ts} : res (list val * list Z) :=
    match ts with
    | [] => Ok ([], l)
    | t :: ts => '(v, l) ← deserialize t l; '(vs, l) ← fields ts l; Ok (v :: vs, l)
    end in
  match t with
  | TyBool => '(b, l) ← bin_read_bool l; Ok (VBool b, l)
  | TyI8 | TyI16 | TyI32 | TyI64 | TyU16 | TyU32 | TyU64 => '(z, l) ← bin_read_integer (int_range t) l; Ok (VInt z, l)
  | TyU8 => '(z, l) ← read_u8 l; Ok (VInt z, l)
  | TyChar => '(c, l) ← bin_read_char l; Ok (VChar c, l)
  | TyString => '(s, l) ← bin_read_string l; Ok (VString s, l)
  | TyOption t =>
    '(some, l) ← bin_read_bool l;
    if (some : bool) then '(v, l) ← deserialize t l; Ok (VOption (Some v), l) else Ok (VOption None, l)
  | TyUnit => '(_, l) ← bin_read_unit l; Ok (VUnit, l)
  | TyNewtype t => deserialize t l
  | TySeq t => '(len, l) ← bin_read_nat0 (0, U64_MAX) l; '(vs, l) ← read_elements (deserialize t) (Z.to_nat len) l; Ok (VSeq vs, l)
  | TyTuple ts => '(vs, l) ← fields ts l; Ok (VTuple vs, l)
  | TyEnum name variants =>
    '(index, l) ← read_variant name variants.*1 l;
    (fix variant (variants : list (string * list ty)) (i : nat) {struct variants} : res (val * list Z) :=
       match variants, i with
       | (_, ts) :: _, O => '(vs, l) ← fields ts l; Ok (VVariant (Z.to_nat index) vs, l)
       | _ :: variants, S i => variant variants i
       | [], _ => Err
       end) variants (Z.to_nat index)
  end.

(** ** Whole inputs *)

Definition to_writer (t : ty) (v : val) : res (list Z) := serialize t v.
Definition from_reader (t : ty) (l : list Z) : res val := '(v, _) ← deserialize t l; Ok v.

(** * Basic values round trip *)

Lemma read_exact_app (l1 l2 : list Z) n : length l1 = n -> read_exact n (l1 ++ l2) = Ok (l1, l2).
Proof.
  intros <-. unfold read_exact. rewrite length_app. destruct (Nat.ltb_spec (length l1 + length l2) (length l1)); [lia|].
  by rewrite take_app_length, drop_app_length.
Qed.
Lemma read_le_app n z rest : read_le n (le_bytes n z ++ rest) = Ok (z mod 256 ^ Z.of_nat n, rest).
Proof. unfold read_le. rewrite read_exact_app by apply length_le_bytes. cbn [mbind res_bind]. by rewrite of_le_bytes_le_bytes. Qed.

Lemma signed_mod n z : - 2 ^ (8 * Z.of_nat (S n) - 1) <= z < 2 ^ (8 * Z.of_nat (S n) - 1) -> signed (S n) (z mod 256 ^ Z.of_nat (S n)) = z.
Proof.
  intros Hz. unfold signed. set (h := 2 ^ (8 * Z.of_nat (S n) - 1)) in *.
  assert (256 ^ Z.of_nat (S n) = 2 * h) as Eh.
  { unfold h. change 256 with (2 ^ 8). rewrite <- Z.pow_mul_r by lia. rewrite <- Z.pow_succ_r by lia. f_equal. lia. }
  assert (0 < h) by (unfold h; apply Z.pow_pos_nonneg; lia). clearbody h.
  rewrite Eh. destruct (Z.ltb_spec (z mod (2 * h)) h) as [Hl|Hl].
  - destruct (Z.le_gt_cases 0 z) as [H0|H0]; [apply Z.mod_small; lia|].
    rewrite <- (Z.mod_add z 1 (2 * h)), Z.mod_small in Hl by lia. lia.
  - destruct (Z.le_gt_cases 0 z) as [H0|H0]; [rewrite Z.mod_small in Hl by lia; lia|].
    rewrite <- (Z.mod_add z 1 (2 * h)), Z.mod_small by lia. lia.
Qed.
Lemma read_signed_app n z rest :
  - 2 ^ (8 * Z.of_nat (S n) - 1) <= z < 2 ^ (8 * Z.of_nat (S n) - 1) -> read_signed (S n) (le_bytes (S n) z ++ rest) = Ok (z, rest).
Proof. intros Hz. unfold read_signed. rewrite read_le_app. cbn [mbind res_bind]. by rewrite signed_mod. Qed.

(** An integer is read back if it fits the type it is read into. *)
Lemma integer_read range z rest :
  - 2 ^ 63 <= z < 2 ^ 63 -> bin_read_integer range (bin_write_integer z ++ rest) = from_primitive range z rest.
Proof.
  intros Hz. unfold bin_write_integer, bin_read_integer.
  repeat (match goal with |- context [if ?a <=? ?b then _ else _] => destruct (Z.leb_spec a b) | |- context [if ?a <? ?b then _ else _] => destruct (Z.ltb_spec a b) end;
          try (exfalso; lia)); cbn [app read_u8 mbind res_bind]; unfold CODE_INT16, CODE_INT32, CODE_INT64, CODE_NEG_INT8; cbn [Z.eqb Pos.eqb];
    try (rewrite read_signed_app by (cbn; lia); reflexivity).
  rewrite Z.mod_small by lia.
  repeat (match goal with |- context [?a =? ?b] => destruct (Z.eqb_spec a b); [lia|] end). destruct (Z.ltb_spec 128 z); [lia|done].
Qed.
Lemma nat0_read range z rest : u64 z -> bin_read_nat0 range (bin_write_nat0 z ++ rest) = from_primitive range z rest.
Proof.
  unfold u64, U64_MAX. intros Hz. unfold bin_write_nat0, bin_read_nat0.
  repeat (match goal with |- context [if ?a <? ?b then _ else _] => destruct (Z.ltb_spec a b) end; try (exfalso; lia));
    cbn [app read_u8 mbind res_bind]; unfold CODE_INT16, CODE_INT32, CODE_INT64; cbn [Z.eqb Pos.eqb];
    try (rewrite read_le_app, Z.mod_small by (cbn; lia); reflexivity).
  rewrite Z.mod_small by lia.
  repeat (match goal with |- context [?a =? ?b] => destruct (Z.eqb_spec a b); [lia|] end). destruct (Z.ltb_spec 128 z); [lia|done].
Qed.

(** The highest bit of a tag is lost. *)
Lemma polyvar_tag_read i rest : u32 i -> bin_read_polyvar_tag (bin_write_polyvar_tag i ++ rest) = Ok (i mod 2147483648, rest).
Proof.
  unfold u32, U32_MAX. intros Hi. unfold bin_read_polyvar_tag, bin_write_polyvar_tag. rewrite read_le_app. cbn [mbind res_bind]. do 2 f_equal.
  unfold wrap32. change (256 ^ Z.of_nat 4) with 4294967296. rewrite Z.mod_mod by lia. rewrite Z.shiftl_mul_pow2, Z.shiftr_div_pow2 by lia.
  change (2 ^ 1) with 2. replace (i * 2 + 1) with (1 + i * 2) by lia.
  pose proof (Z.div_mod i 2147483648 ltac:(lia)) as Hd. pose proof (Z.mod_pos_bound i 2147483648 ltac:(lia)).
  set (q := i / 2147483648) in *. set (r := i mod 2147483648) in *.
  replace ((1 + i * 2) mod 4294967296) with (1 + 2 * r).
  - replace (1 + 2 * r) with (1 + r * 2) by lia. rewrite Z.div_add by lia. change (1 / 2) with 0. lia.
  - rewrite Hd. replace (1 + (2147483648 * q + r) * 2) with (1 + 2 * r + q * 4294967296) by lia. rewrite Z.mod_add by lia. symmetry. apply Z.mod_small. lia.
Qed.

(** * Values round trip *)

(** ** Fields and variants on their own *)

Fixpoint serialize_fields (ts : list ty) (vs : list val) : res (list Z) :=
  match ts, vs with
  | [], [] => Ok []
  | t :: ts, v :: vs => b ← serialize t v; bs ← serialize_fields ts vs; Ok (b ++ bs)
  | _, _ => Err
  end.
Fixpoint deserialize_fields (ts : list ty) (l : list Z) : res (list val * list Z) :=
  match ts with
  | [] => Ok ([], l)
  | t :: ts => '(v, l) ← deserialize t l; '(vs, l) ← deserialize_fields ts l; Ok (v :: vs, l)
  end.

Lemma serialize_tuple ts vs : serialize (TyTuple ts) (VTuple vs) = serialize_fields ts vs.
Proof.
  cbn [serialize]. revert vs. induction ts as [|t ts IH]; intros vs; [done|]. destruct vs as [|v vs]; [done|]. cbn [serialize_fields].
  destruct (serialize t v); [|done..]. cbn [mbind res_bind]. by rewrite IH.
Qed.
Lemma deserialize_tuple ts l : deserialize (TyTuple ts) l = ('(vs, l) ← deserialize_fields ts l; Ok (VTuple vs, l)).
Proof.
  reflexivity.
Qed.
Lemma serialize_variant name variants index vs :
  serialize (TyEnum name variants) (VVariant index vs) =
    match variants !! index with
    | Some (variant_name, ts) => b ← serialize_fields ts vs; Ok (write_variant_index_or_tag name variant_name (Z.of_nat index) ++ b)
    | None => Err
    end.
Proof.
  cbn [serialize]. set (i := index) at 2 3. generalize i. intros k. revert k. induction variants as [|[n ts] variants IH]; intros [|k]; [done..| |].
  - reflexivity.
  - exact (IH k).
Qed.
Lemma deserialize_variant name variants l :
  deserialize (TyEnum name variants) l =
    ('(index, l) ← read_variant name variants.*1 l;
     match variants !! Z.to_nat index with
     | Some (_, ts) => '(vs, l) ← deserialize_fields ts l; Ok (VVariant (Z.to_nat index) vs, l)
     | None => Err
     end).
Proof.
  cbn [deserialize]. destruct (read_variant name variants.*1 l) as [[index l']| |]; [|done..]. cbn [mbind res_bind].
  set (i := Z.to_nat index) at 2 3. generalize i. intros k. revert k. induction variants as [|[n ts] variants IH]; intros [|k]; [done..| |].
  - reflexivity.
  - exact (IH k).
Qed.

(** ** The values that survive *)

(** Names of variants with hashes that tell them apart in 31 bits. *)
Definition hashes_ok (names : list string) : bool :=
  forallb is_ascii names && forallb (fun n => caml_hash_variant n <? 2147483648) names &&
  bool_decide (NoDup (caml_hash_variant <$> names)) && (length names <=? 256)%nat.

Definition fits (range : Z * Z) (z : Z) : bool := (range.1 <=? z) && (z <=? range.2).

(** Values of a type: 64 bit integers below [2^63], characters of one byte, enums that are indexed by a byte or whose hashes
    are good. *)
Fixpoint representable (t : ty) (v : val) {struct t} : bool :=
  let fix fields (ts : list ty) (vs : list val) {struct ts} : bool :=
    match ts, vs with
    | [], [] => true
    | t :: ts, v :: vs => representable t v && fields ts vs
    | _, _ => false
    end in
  match t, v with
  | TyBool, VBool _ => true
  | (TyI8 | TyI16 | TyI32 | TyI64 | TyU8 | TyU16 | TyU32), VInt z => fits (int_range t) z
  | TyU64, VInt z => fits (0, 9223372036854775807) z
  | TyChar, VChar c => fits (0, 255) c
  | TyString, VString bytes => utf8_valid bytes && (Z.of_nat (length bytes) <=? ISIZE_MAX)
  | TyOption _, VOption None => true
  | TyOption t, VOption (Some v) => representable t v
  | TyUnit, VUnit => true
  | TyNewtype t, v => representable t v
  | TySeq t, VSeq vs => forallb (representable t) vs && (Z.of_nat (length vs) <=? U64_MAX)
  | TyTuple ts, VTuple vs => fields ts vs
  | TyEnum name variants, VVariant index vs =>
    (if String.eqb name "Polyvar" then hashes_ok variants.*1 else (index <? 256)%nat) &&
    (fix variant (variants : list (string * list ty)) (i : nat) {struct variants} : bool :=
       match variants, i with
       | (_, ts) :: _, O => fields ts vs
       | _ :: variants, S i => variant variants i
       | [], _ => false
       end) variants index
  | _, _ => false
  end.

Fixpoint representable_fields (ts : list ty) (vs : list val) : bool :=
  match ts, vs with
  | [], [] => true
  | t :: ts, v :: vs => representable t v && representable_fields ts vs
  | _, _ => false
  end.
Lemma representable_tuple ts vs : representable (TyTuple ts) (VTuple vs) = representable_fields ts vs.
Proof. reflexivity. Qed.
Lemma representable_variant name variants index vs :
  representable (TyEnum name variants) (VVariant index vs) =
    (if String.eqb name "Polyvar" then hashes_ok variants.*1 else (index <? 256)%nat) &&
    match variants !! index with Some (_, ts) => representable_fields ts vs | None => false end.
Proof.
  cbn [representable]. f_equal. generalize index at 1 2. intros k. revert k. induction variants as [|[n ts] variants IH]; intros [|k]; [done..| |].
  - reflexivity.
  - exact (IH k).
Qed.

(** Induction on types, with the types of fields at hand. *)
Fixpoint ty_nested_ind (P : ty -> Prop) (Hbase : forall t, match t with TyOption _ | TyNewtype _ | TySeq _ | TyTuple _ | TyEnum _ _ => True | _ => P t end)
  (Hopt : forall t, P t -> P (TyOption t)) (Hnew : forall t, P t -> P (TyNewtype t)) (Hseq : forall t, P t -> P (TySeq t))
  (Htup : forall ts, Forall P ts -> P (TyTuple ts)) (Henum : forall name variants, Forall (fun x => Forall P x.2) variants -> P (TyEnum name variants))
  (t : ty) {struct t} : P t :=
  let rec := ty_nested_ind P Hbase Hopt Hnew Hseq Htup Henum in
  let all := fix all (ts : list ty) : Forall P ts :=
    match ts with [] => Forall_nil_2 P | t :: ts => Forall_cons_2 P t ts (rec t) (all ts) end in
  match t with
  | TyOption t => Hopt t (rec t)
  | TyNewtype t => Hnew t (rec t)
  | TySeq t => Hseq t (rec t)
  | TyTuple ts => Htup ts (all ts)
  | TyEnum name variants =>
    Henum name variants ((fix each (vs : list (string * list ty)) : Forall (fun x => Forall P x.2) vs :=
      match vs with [] => Forall_nil_2 _ | x :: vs => Forall_cons_2 _ x vs (all x.2) (each vs) end) variants)
  | t => Hbase t
  end.

Lemma find_hash_at names i n index :
  NoDup (caml_hash_variant <$> names) -> names !! i = Some n -> find_variant (caml_hash_variant n) names index = Some (index + Z.of_nat i).
Proof.
  revert i index. induction names as [|m names IH]; intros i index Hn Hi; [done|]. rewrite fmap_cons in Hn. apply NoDup_cons in Hn as [Hm Hn]. cbn [find_variant].
  destruct i as [|i]; cbn in Hi.
  - injection Hi as ->. rewrite Z.eqb_refl. f_equal. lia.
  - destruct (Z.eqb_spec (caml_hash_variant m) (caml_hash_variant n)) as [E|_].
    + exfalso. apply Hm. rewrite E. apply list_elem_of_fmap_2. by apply list_elem_of_lookup_2 in Hi.
    + rewrite (IH i (index + 1) Hn Hi). f_equal. lia.
Qed.
Lemma caml_hash_range label : u32 (caml_hash_variant label).
Proof.
  unfold caml_hash_variant. assert (forall l acc, u32 acc -> u32 (fold_left (fun accu byte => wrap32 (wrap32 (223 * accu) + byte)) l acc)) as H.
  { induction l as [|b l IH]; intros acc Ha; [done|]. cbn [fold_left]. apply IH, wrap32_range. }
  apply H. ints.
Qed.
Lemma read_tag_of_variant names i n rest :
  hashes_ok names = true -> names !! i = Some n ->
  read_variant "Polyvar" names (write_variant_index_or_tag "Polyvar" n (Z.of_nat i) ++ rest) = Ok (Z.of_nat i, rest).
Proof.
  unfold hashes_ok. rewrite !andb_true_iff, !forallb_forall, bool_decide_eq_true, Nat.leb_le. intros (((Ha & Hh) & Hn) & Hl) Hi.
  unfold read_variant, write_variant_index_or_tag. cbn [String.eqb Ascii.eqb Bool.eqb]. rewrite polyvar_tag_read by apply caml_hash_range. cbn [mbind res_bind].
  pose proof (list_elem_of_lookup_2 _ _ _ Hi) as Hin. apply list_elem_of_In, Hh, Z.ltb_lt in Hin. pose proof (caml_hash_range n) as Hr. unfold u32 in Hr.
  rewrite Z.mod_small by lia. unfold polyvar_index. rewrite (forallb_filter_id is_ascii) by (by apply forallb_forall).
  rewrite (find_hash_at names i n 0 Hn Hi), Z.add_0_l. cbn [mbind res_bind]. apply lookup_lt_Some in Hi. by rewrite Z.mod_small by lia.
Qed.

(** The value is written, and read back in front of anything. *)
Definition survives (t : ty) (v : val) : Prop :=
  exists bytes, serialize t v = Ok bytes /\ forall rest, deserialize t (bytes ++ rest) = Ok (v, rest).

Lemma fields_survive ts vs :
  Forall (fun t => forall v, representable t v = true -> survives t v) ts -> representable_fields ts vs = true ->
  exists bytes, serialize_fields ts vs = Ok bytes /\ forall rest, deserialize_fields ts (bytes ++ rest) = Ok (vs, rest).
Proof.
  intros Hts. revert vs. induction Hts as [|t ts Ht _ IH]; intros [|v vs] Hr; try done; [by exists []|].
  cbn in Hr. apply andb_prop in Hr as [Hv Hvs]. destruct (Ht v Hv) as (b & Eb & Db). destruct (IH vs Hvs) as (bs & Ebs & Dbs).
  exists (b ++ bs). cbn [serialize_fields deserialize_fields]. rewrite Eb, Ebs. split; [done|]. intros rest.
  rewrite <- app_assoc, Db. cbn [mbind res_bind]. by rewrite Dbs.
Qed.
Lemma elements_survive t vs :
  (forall v, representable t v = true -> survives t v) -> forallb (representable t) vs = true ->
  exists bs, mapM (serialize t) vs = Ok bs /\ length bs = length vs /\
    forall rest, read_elements (deserialize t) (length vs) (concat bs ++ rest) = Ok (vs, rest).
Proof.
  intros Ht. induction vs as [|v vs IH]; intros Hr; [by exists []|]. cbn in Hr. apply andb_prop in Hr as [Hv Hvs].
  destruct (Ht v Hv) as (b & Eb & Db). destruct (IH Hvs) as (bs & Ebs & Hl & Dbs). exists (b :: bs). cbn [mapM]. rewrite Eb, Ebs. split; [done|].
  split; [cbn; by rewrite Hl|]. intros rest. cbn [length read_elements concat]. rewrite <- app_assoc, Db. cbn [mbind res_bind]. by rewrite Dbs.
Qed.

Lemma fits_read range z rest : fits range z = true -> from_primitive range z rest = Ok (z, rest).
Proof. unfold fits, from_primitive. by intros ->. Qed.
Lemma fits_iff lo hi z : fits (lo, hi) z = true <-> lo <= z <= hi.
Proof. unfold fits. cbn [fst snd]. by rewrite andb_true_iff, !Z.leb_le. Qed.
Lemma integer_survives (range : Z * Z) z rest :
  -9223372036854775808 <= range.1 -> range.2 <= 9223372036854775807 -> fits range z = true -> bin_read_integer range (bin_write_integer z ++ rest) = Ok (z, rest).
Proof. intros Hlo Hhi Hf. pose proof Hf as Hr. destruct range. apply fits_iff in Hr. cbn in *. rewrite integer_read by lia. by apply fits_read. Qed.
Lemma length_read n l rest : Z.of_nat n <= U64_MAX -> bin_read_nat0 (0, U64_MAX) (bin_write_nat0 (Z.of_nat n) ++ l ++ rest) = Ok (Z.of_nat n, l ++ rest).
Proof. intros Hn. rewrite nat0_read by ints. apply fits_read, fits_iff. lia. Qed.

Definition small_int (t : ty) : bool :=
  match t with TyI8 | TyI16 | TyI32 | TyI64 | TyU16 | TyU32 => true | _ => false end.
Lemma small_int_survives t v : small_int t = true -> representable t v = true -> survives t v.
Proof.
  intros Ht Hr. destruct v as [b|z|c|s|o| |vs|vs|index vs]; try (by destruct t). exists (bin_write_integer z). split; [by destruct t|]. intros rest.
  assert (deserialize t (bin_write_integer z ++ rest) = ('(z, l) ← bin_read_integer (int_range t) (bin_write_integer z ++ rest); Ok (VInt z, l))) as -> by (by destruct t).
  assert (fits (int_range t) z = true) as Hf by (by destruct t).
  rewrite integer_survives by (done || (destruct t; first [discriminate Ht|cbn; unfold U32_MAX; lia])). done.
Qed.
Lemma u64_survives z : fits (0, 9223372036854775807) z = true -> survives TyU64 (VInt z).
Proof.
  intros Hf. apply fits_iff in Hf. eexists. split; [reflexivity|]. intros rest. cbn [deserialize]. unfold u64_as_i64, signed.
  destruct (Z.ltb_spec z (2 ^ (8 * Z.of_nat 8 - 1))) as [_|Hl]; [|cbn in Hl; lia]. rewrite integer_read by (cbn; lia).
  rewrite fits_read; [done|]. apply fits_iff. cbn. unfold U64_MAX. lia.
Qed.
Lemma string_survives s : utf8_valid s && (Z.of_nat (length s) <=? ISIZE_MAX) = true -> survives TyString (VString s).
Proof.
  intros Hr. apply andb_prop in Hr as [Hu Hl]. apply Z.leb_le in Hl. eexists. split; [reflexivity|]. intros rest. cbn [deserialize]. unfold bin_read_string, bin_read_bytes.
  rewrite <- app_assoc, length_read by (unfold ISIZE_MAX, U64_MAX in *; lia). cbn [mbind res_bind]. destruct (Z.ltb_spec ISIZE_MAX (Z.of_nat (length s))); [lia|].
  rewrite Nat2Z.id, read_exact_app by done. cbn [mbind res_bind]. by rewrite Hu.
Qed.

Lemma base_survives t v :
  match t with TyOption _ | TyNewtype _ | TySeq _ | TyTuple _ | TyEnum _ _ => True | _ => representable t v = true -> survives t v end.
Proof.
  destruct t; try exact I; try (apply small_int_survives; reflexivity); intros Hr; destruct v as [b|z|c|s|o| |vs|vs|index vs]; try discriminate Hr.
  - exists (bin_write_bool b). split; [reflexivity|]. intros rest. by destruct b.
  - exists [z]. split; reflexivity.
  - by apply u64_survives.
  - exists (bin_write_char c). split; [reflexivity|]. intros rest. apply fits_iff in Hr. unfold bin_write_char. cbn. by rewrite Z.mod_small by lia.
  - by apply string_survives.
  - exists bin_write_unit. split; reflexivity.
Qed.

Lemma representable_survives t v : representable t v = true -> survives t v.
Proof.
  revert v. pattern t. apply ty_nested_ind; clear t; [intros t|intros t IH|intros t IH|intros t IH|intros ts IH|intros name variants IH].
  - pose proof (base_survives t) as H. destruct t; first [exact I|exact H].
  - intros v Hr. destruct v as [| | | |[v|]| | | |]; try discriminate.
    + destruct (IH v Hr) as (b & E & D). exists (1 :: b). cbn [serialize]. rewrite E. split; [done|]. intros rest. cbn. by rewrite D.
    + by exists [0].
  - exact IH.
  - intros v Hr. destruct v as [| | | | | |vs| |]; try discriminate. cbn in Hr. apply andb_prop in Hr as [Hvs Hl]. apply Z.leb_le in Hl.
    destruct (elements_survive t vs IH Hvs) as (bs & E & _ & D). eexists. cbn [serialize]. rewrite E. split; [reflexivity|]. intros rest. cbn [deserialize].
    rewrite <- app_assoc, length_read by done. cbn [mbind res_bind]. rewrite Nat2Z.id, D. done.
  - intros v Hr. destruct v as [| | | | | | |vs|]; try discriminate. rewrite representable_tuple in Hr. destruct (fields_survive ts vs IH Hr) as (b & E & D).
    exists b. rewrite serialize_tuple. split; [done|]. intros rest. by rewrite deserialize_tuple, D.
  - intros v Hr. destruct v as [| | | | | | | |index vs]; try discriminate. rewrite representable_variant in Hr. apply andb_prop in Hr as [Hn Hr].
    destruct (variants !! index) as [[n ts]|] eqn:Ev; [|done]. pose proof (list_elem_of_lookup_2 _ _ _ Ev) as Hin. rewrite Forall_forall in IH.
    destruct (fields_survive ts vs (IH _ Hin) Hr) as (b & E & D). unfold survives. rewrite serialize_variant, Ev, E. eexists. split; [reflexivity|].
    intros rest. rewrite deserialize_variant, <- app_assoc.
    assert (read_variant name variants.*1 (write_variant_index_or_tag name n (Z.of_nat index) ++ b ++ rest) = Ok (Z.of_nat index, b ++ rest)) as ->.
    { destruct (String.eqb_spec name "Polyvar") as [->|Hne].
      - apply read_tag_of_variant; [done|]. by rewrite list_lookup_fmap, Ev.
      - apply Nat.ltb_lt in Hn. unfold read_variant, write_variant_index_or_tag. rewrite (proj2 (String.eqb_neq name "Polyvar") Hne).
        destruct (Z.ltb_spec (Z.of_nat index) 256); [|lia]. cbn. by rewrite Z.mod_small by lia. }
    cbn [mbind res_bind]. rewrite Nat2Z.id, Ev, D. done.
Qed.

(** C17: a value of any type built from integers, strings, options, lists, records and enums, within the limits of the format, is
    written without error, and the bytes are read back as the same value, whatever follows them. *)
Theorem bin_prot_roundtrip t v :
  representable t v = true ->
  exists bytes, to_writer t v = Ok bytes /\ from_reader t bytes = Ok v /\ forall rest, deserialize t (bytes ++ rest) = Ok (v, rest).
Proof.
  intros Hr. destruct (representable_survives t v Hr) as (bytes & E & D).
  exists bytes. split_and!; [done| |done]. unfold from_reader. pose proof (D []) as D0. rewrite app_nil_r in D0. by rewrite D0.
Qed.

(** A record of a list, a polymorphic variant and an enum. *)
Lemma bin_prot_roundtrip_witness :
  let t := TyTuple [TySeq TyI32; TyEnum "Polyvar" [("One"%string, []); ("Two"%string, [TyU64])]; TyEnum "E" [("A"%string, []); ("B"%string, [TyOption TyString])]] in
  let v := VTuple [VSeq [VInt (-70000); VInt 300; VInt 5]; VVariant 1 [VInt 4294967296]; VVariant 1 [VOption (Some (VString [104; 105]))]] in
  exists bytes, to_writer t v = Ok bytes /\ from_reader t bytes = Ok v /\ forall rest, deserialize t (bytes ++ rest) = Ok (v, rest).
Proof. intros t v. apply bin_prot_roundtrip. vm_compute. reflexivity. Defined.

(** ** The values that do not *)

Lemma upper_u64_refused z rest : 2 ^ 63 <= z <= U64_MAX -> exists bytes, serialize TyU64 (VInt z) = Ok bytes /\ deserialize TyU64 (bytes ++ rest) = Err.
Proof.
  unfold U64_MAX. intros Hz. eexists. split; [reflexivity|]. cbn [deserialize]. unfold u64_as_i64, signed.
  destruct (Z.ltb_spec z (2 ^ (8 * Z.of_nat 8 - 1))) as [Hl|_]; [cbn in Hl; lia|]. change (256 ^ Z.of_nat 8) with 18446744073709551616.
  rewrite integer_read by (cbn in *; lia). unfold from_primitive. cbn [int_range fst snd].
  destruct (Z.leb_spec 0 (z - 18446744073709551616)); [lia|done].
Qed.
Lemma wide_char_changed c rest :
  256 <= c -> exists bytes c', serialize TyChar (VChar c) = Ok bytes /\ deserialize TyChar (bytes ++ rest) = Ok (VChar c', rest) /\ c' <> c.
Proof.
  intros Hc. exists (bin_write_char c), (c mod 256). split_and!; [done..|]. pose proof (Z.mod_pos_bound c 256 ltac:(lia)). lia.
Qed.
Lemma find_hash_none hash names index : (forall n, n ∈ names -> caml_hash_variant n <> hash) -> find_variant hash names index = None.
Proof.
  revert index. induction names as [|n names IH]; intros index H; [done|]. cbn [find_variant].
  destruct (Z.eqb_spec (caml_hash_variant n) hash) as [E|_]; [by destruct (H n ltac:(set_solver))|]. apply IH. set_solver.
Qed.
Lemma wide_hash_refused variants i n ts vs rest :
  variants !! i = Some (n, ts) -> 2147483648 <= caml_hash_variant n ->
  (forall m, m ∈ variants.*1 -> caml_hash_variant m <> caml_hash_variant n - 2147483648) ->
  representable_fields ts vs = true ->
  exists bytes, serialize (TyEnum "Polyvar" variants) (VVariant i vs) = Ok bytes /\ deserialize (TyEnum "Polyvar" variants) (bytes ++ rest) = Err.
Proof.
  intros Ei Hh Hno Hr. assert (Forall (fun t => forall v, representable t v = true -> survives t v) ts) as Hts by (apply Forall_forall; intros t _; apply representable_survives).
  destruct (fields_survive ts vs Hts Hr) as (b & E & _). rewrite serialize_variant, Ei, E. eexists. split; [reflexivity|].
  rewrite deserialize_variant, <- app_assoc. unfold read_variant, write_variant_index_or_tag. cbn [String.eqb Ascii.eqb Bool.eqb].
  pose proof (caml_hash_range n) as Hn. rewrite polyvar_tag_read by done. unfold u32, U32_MAX in Hn. cbn [mbind res_bind]. unfold polyvar_index.
  replace (caml_hash_variant n mod 2147483648) with (caml_hash_variant n - 2147483648)
    by (rewrite <- (Z.mod_add _ (-1) 2147483648), Z.mod_small by lia; lia).
  rewrite find_hash_none; [done|]. intros m Hm. apply Hno. apply list_elem_of_In in Hm. apply List.filter_In in Hm as [Hm _]. by apply list_elem_of_In.
Qed.

(** what the format loses.  A [u64] of the upper half is written, and what is written is refused; a character above one byte is
    read back as another; and a polymorphic variant whose hash needs 32 bits is refused when no other variant has the 31 bits that
    are left of it. *)
Theorem bin_prot_lossy :
  (forall z rest, 2 ^ 63 <= z <= U64_MAX -> exists bytes, serialize TyU64 (VInt z) = Ok bytes /\ deserialize TyU64 (bytes ++ rest) = Err) /\
  (forall c rest, 256 <= c -> exists bytes c', serialize TyChar (VChar c) = Ok bytes /\ deserialize TyChar (bytes ++ rest) = Ok (VChar c', rest) /\ c' <> c) /\
  (forall variants i n ts vs rest,
    variants !! i = Some (n, ts) -> 2147483648 <= caml_hash_variant n ->
    (forall m, m ∈ variants.*1 -> caml_hash_variant m <> caml_hash_variant n - 2147483648) ->
    representable_fields ts vs = true ->
    exists bytes, serialize (TyEnum "Polyvar" variants) (VVariant i vs) = Ok bytes /\ deserialize (TyEnum "Polyvar" variants) (bytes ++ rest) = Err).
Proof. split_and!; [exact upper_u64_refused|exact wide_char_changed|exact wide_hash_refused]. Qed.

(** A variant called "Three". *)
Lemma bin_prot_lossy_witness :
  (exists bytes, serialize TyU64 (VInt 9223372036854775808) = Ok bytes /\ deserialize TyU64 (bytes ++ []) = Err) /\
  (exists bytes, serialize (TyEnum "Polyvar" [("Three"%string, [])]) (VVariant 0 []) = Ok bytes /\ deserialize (TyEnum "Polyvar" [("Three"%string, [])]) (bytes ++ []) = Err).
Proof.
  split.
  - apply bin_prot_lossy. vm_compute. split; discriminate.
  - apply (proj2 (proj2 bin_prot_lossy) _ 0%nat "Three"%string [] []); [reflexivity|vm_compute; discriminate| |reflexivity].
    intros m Hm. apply list_elem_of_singleton in Hm as ->. vm_compute. discriminate.
Defined.
