(* ===== verification/Parser.v ===== *)
(** The block parser (src/rust/src/block/parser.rs): the files of a directory in the order in which they are ingested, deep
    canonical blocks first, then the recent and the orphaned ones, and the parsing of a file
    (src/rust/src/block/precomputed/mod.rs, [parse_file]).  The file system and the JSON of a block are interfaces. *)

From S2P Require Import Prelude Bytes Base Command AccountDiff Account Coinbase Precomputed BlockOrder Discovery Events.

(** * Files *)

(** Sizes and contents of files, and the values in the JSON of a block.  The network, the hash and the length in the header of
    a parsed value are not used. *)
Class BlockDisk := {
  file_len : Path -> option Z;
  read_file : Path -> res (list Z);
  json_v1 : list Z -> res (BlockHeader * DiffV1 * option DiffV1);
  json_v2 : list Z -> res (BlockHeader * list (option DiffV2) * list (Z * AccountAccessedV2) * list ((PublicKey * TokenAddress) * string))
}.

Record BlockFileContents := mkContentsOf {
  bf_network : string;
  bf_blockchain_length : Z;
  bf_state_hash : StateHash;
  bf_contents : list Z
}.

(** The network, the hash and the length come from the name of the file. *)
Definition named (f : BlockFileContents) (h : BlockHeader) : BlockHeader :=
  {| bh_network := bf_network f;
     bh_state_hash := bf_state_hash f;
     bh_blockchain_length := bf_blockchain_length f;
     bh_scheduled_time := bh_scheduled_time h;
     bh_previous_state_hash := bh_previous_state_hash h;
     bh_staged_ledger_hash := bh_staged_ledger_hash h;
     bh_genesis_state_hash := bh_genesis_state_hash h;
     bh_timestamp := bh_timestamp h;
     bh_total_currency := bh_total_currency h;
     bh_block_creator := bh_block_creator h;
     bh_block_stake_winner := bh_block_stake_winner h;
     bh_coinbase_receiver := bh_coinbase_receiver h;
     bh_supercharge_coinbase := bh_supercharge_coinbase h;
     bh_global_slot_since_genesis := bh_global_slot_since_genesis h;
     bh_epoch_count := bh_epoch_count h;
     bh_last_vrf_output := bh_last_vrf_output h |}.

(** The chains: the versions of their blocks, by the hash of their genesis block. *)
Definition MAINNET_CHAIN_ID : string := "5f704cc0c82e0ed70e873f0893d7e06f148524e3f0bdae2afb02e7819a0c24d1".
Definition HARDFORK_CHAIN_ID : string := "a7351abc7ddf2ea92d1b38cc8e636c271c1dfd2c081c637f62ebc2af34eb7cc1".
Definition ChainData : gmap StateHash (PcbVersion * ChainId) :=
  {[mkSh MAINNET_GENESIS_HASH := (V1, mkChainId MAINNET_CHAIN_ID); mkSh HARDFORK_GENESIS_HASH := (V2, mkChainId HARDFORK_CHAIN_ID)]}.

Inductive ParsedBlock :=
| Recent (b : PrecomputedBlock)
| DeepCanonical (b : PrecomputedBlock)
| OrphanedBlock (b : PrecomputedBlock).

Definition block_of_parsed (p : ParsedBlock) : PrecomputedBlock :=
  match p with DeepCanonical b | OrphanedBlock b | Recent b => b end.

Record BlockParser := mkParser {
  pa_blocks_processed : Z;
  pa_total_num_blocks : Z;
  pa_num_recent_blocks : Z;
  pa_num_deep_canonical_blocks : Z;
  pa_bytes_processed : Z;
  pa_total_num_bytes : Z;
  pa_deep_canonical_bytes : Z;
  pa_version : PcbVersion;
  pa_canonical_paths : list Path;
  pa_recent_paths : list Path;
  pa_orphaned_paths : list Path
}.

(** What is left to read. *)
Record BlockParserPaths := mkPaths {
  pp_canonical_paths : list Path;
  pp_recent_paths : list Path;
  pp_orphaned_paths : list Path
}.
Definition parser_paths (p : BlockParser) : BlockParserPaths :=
  mkPaths (pa_canonical_paths p) (pa_recent_paths p) (pa_orphaned_paths p).

(** [sort_by_cached_key] is stable; the keys of fewer than two elements are not computed. *)
Fixpoint insert_keyed {A} (k : Z) (a : A) (l : list (Z * A)) : list (Z * A) :=
  match l with
  | [] => [(k, a)]
  | e :: l' => if k <=? e.1 then (k, a) :: l else e :: insert_keyed k a l'
  end.
Definition sort_by_cached_key {A} (key : A -> res Z) (l : list A) : res (list A) :=
  if (length l <? 2)%nat then Ok l
  else keyed ← mapM (fun a => k ← key a; Ok (k, a)) l;
       Ok (foldr (fun e acc => insert_keyed e.1 e.2 acc) [] keyed).*2.

Fixpoint retain {A} (keep : A -> res bool) (l : list A) : res (list A) :=
  match l with
  | [] => Ok []
  | a :: l => k ← keep a; l' ← retain keep l; Ok (if k : bool then a :: l' else l')
  end.

Section Parser.
Context `{BlockFiles} `{BlockDisk}.

Definition from_file_contents (f : BlockFileContents) (v : PcbVersion) : res PrecomputedBlock :=
  match v with
  | V1 => '(h, pre, post) ← json_v1 (bf_contents f); Ok (PcbV1 (named f h) pre post)
  | V2 => '(h, diff, accessed, created) ← json_v2 (bf_contents f); Ok (PcbV2 (named f h) diff accessed created)
  end.

Definition parse_block_file (path : Path) (v : PcbVersion) : res PrecomputedBlock :=
  '(network, blockchain_length, state_hash) ← extract_network_height_hash (path_stem path);
  contents ← read_file path;
  from_file_contents (mkContentsOf network blockchain_length state_hash contents) v.

(** The size of a file that is gone is a panic. *)
Definition file_size (path : Path) : res Z := expect_some (file_len path).
Definition sum_sizes (paths : list Path) : res Z := foldM (fun acc p => n ← file_size p; Ok (wrap64 (acc + n))) 0 paths.
(** Files that cannot be read are skipped. *)
Definition calculate_total_size (paths : list Path) : Z :=
  fold_left (fun acc p => match file_len p with Some n => wrap64 (acc + n) | None => acc end) paths 0.

(** * Parsers *)

(** All the files as recent ones, in the order they are given. *)
Definition parser_empty (paths : list Path) : res BlockParser :=
  total_num_bytes ← sum_sizes paths;
  Ok {| pa_total_num_bytes := total_num_bytes;
        pa_bytes_processed := 0;
        pa_blocks_processed := 0;
        pa_version := V1;
        pa_deep_canonical_bytes := 0;
        pa_num_deep_canonical_blocks := 0;
        pa_num_recent_blocks := wrap32 (Z.of_nat (length paths));
        pa_total_num_blocks := wrap32 (Z.of_nat (length paths));
        pa_canonical_paths := [];
        pa_recent_paths := paths;
        pa_orphaned_paths := [] |}.

(** The files of the directory, [None] if it does not exist. *)
Definition new_length_sorted_filtered (dir : option (list Path)) (v : PcbVersion) (min_length max_length : option Z) : res BlockParser :=
  match dir with
  | Some paths =>
    total_num_bytes ← sum_sizes paths;
    paths ← match min_length with
            | Some min => retain (fun p => h ← path_height p; Ok (min <? h)) paths
            | None => Ok paths
            end;
    paths ← match max_length with
            | Some max => retain (fun p => h ← path_height p; Ok (h <? max)) paths
            | None => Ok paths
            end;
    paths ← sort_by_cached_key path_height paths;
    Ok {| pa_version := v;
          pa_total_num_bytes := total_num_bytes;
          pa_bytes_processed := 0;
          pa_blocks_processed := 0;
          pa_deep_canonical_bytes := 0;
          pa_num_deep_canonical_blocks := 0;
          pa_num_recent_blocks := wrap32 (Z.of_nat (length paths));
          pa_total_num_blocks := wrap32 (Z.of_nat (length paths));
          pa_canonical_paths := [];
          pa_recent_paths := paths;
          pa_orphaned_paths := [] |}
  | None => parser_empty []
  end.
Definition new_length_sorted_min_filtered (dir : option (list Path)) (v : PcbVersion) (min_length_filter : option Z) : res BlockParser :=
  new_length_sorted_filtered dir v min_length_filter None.

(** When discovery fails, all the files are recent. *)
Definition with_canonical_chain_discovery (fuel : nat) (dir : option (list Path)) (v : PcbVersion) (canonical_threshold : Z)
    (do_not_ingest_orphan_blocks : bool) (reporting_freq : Z) : option (res BlockParser) :=
  match dir with
  | Some paths =>
    found ← discovery fuel canonical_threshold reporting_freq paths;
    Some (match found with
          | Ok (canonical_paths, recent_paths, orphaned_paths) =>
            deep_canonical_bytes ← sum_sizes canonical_paths;
            let total_num_bytes :=
              if do_not_ingest_orphan_blocks
              then wrap64 (calculate_total_size canonical_paths + calculate_total_size recent_paths)
              else calculate_total_size paths in
            let total_num_blocks :=
              if do_not_ingest_orphan_blocks then (length canonical_paths + length recent_paths)%nat else length paths in
            Ok {| pa_version := v;
                  pa_total_num_bytes := total_num_bytes;
                  pa_bytes_processed := 0;
                  pa_blocks_processed := 0;
                  pa_deep_canonical_bytes := deep_canonical_bytes;
                  pa_num_deep_canonical_blocks := wrap32 (Z.of_nat (length canonical_paths));
                  pa_num_recent_blocks := wrap32 (Z.of_nat (length recent_paths));
                  pa_total_num_blocks := wrap32 (Z.of_nat total_num_blocks);
                  pa_canonical_paths := canonical_paths;
                  pa_recent_paths := recent_paths;
                  pa_orphaned_paths := if do_not_ingest_orphan_blocks then [] else orphaned_paths |}
          | Err => parser_empty paths
          | Panic => Panic
          end)
  | None => Some Err
  end.

(** * Reading blocks *)

Definition set_paths (canonical recent orphaned : list Path) (p : BlockParser) : BlockParser :=
  {| pa_blocks_processed := pa_blocks_processed p; pa_total_num_blocks := pa_total_num_blocks p;
     pa_num_recent_blocks := pa_num_recent_blocks p; pa_num_deep_canonical_blocks := pa_num_deep_canonical_blocks p;
     pa_bytes_processed := pa_bytes_processed p; pa_total_num_bytes := pa_total_num_bytes p;
     pa_deep_canonical_bytes := pa_deep_canonical_bytes p; pa_version := pa_version p;
     pa_canonical_paths := canonical; pa_recent_paths := recent; pa_orphaned_paths := orphaned |}.
Definition count_parsed (v : PcbVersion) (block_bytes : Z) (p : BlockParser) : BlockParser :=
  {| pa_blocks_processed := wrap32 (pa_blocks_processed p + 1); pa_total_num_blocks := pa_total_num_blocks p;
     pa_num_recent_blocks := pa_num_recent_blocks p; pa_num_deep_canonical_blocks := pa_num_deep_canonical_blocks p;
     pa_bytes_processed := wrap64 (pa_bytes_processed p + block_bytes); pa_total_num_bytes := pa_total_num_bytes p;
     pa_deep_canonical_bytes := pa_deep_canonical_bytes p; pa_version := v;
     pa_canonical_paths := pa_canonical_paths p; pa_recent_paths := pa_recent_paths p; pa_orphaned_paths := pa_orphaned_paths p |}.

(** The version of the block is that of the chain it belongs to; a chain that is not known is a panic. *)
Definition consume_block (path : Path) (designation : PrecomputedBlock -> ParsedBlock) (p : BlockParser)
  : res (option (ParsedBlock * Z) * BlockParser) :=
  block_bytes ← file_size path;
  genesis_state_hash ← genesis_state_hash_from_path path;
  chain ← expect_some (ChainData !! genesis_state_hash);
  block ← parse_block_file path chain.1;
  Ok (Some (designation block, block_bytes), count_parsed chain.1 block_bytes p).

Definition next_block (p : BlockParser) : res (option (ParsedBlock * Z) * BlockParser) :=
  match pa_canonical_paths p, pa_recent_paths p, pa_orphaned_paths p with
  | path :: canonical, recent, orphaned => consume_block path DeepCanonical (set_paths canonical recent orphaned p)
  | [], path :: recent, orphaned => consume_block path Recent (set_paths [] recent orphaned p)
  | [], [], path :: orphaned => consume_block path OrphanedBlock (set_paths [] [] orphaned p)
  | [], [], [] => Ok (None, p)
  end.

(** Read until the block is found: at most one block per path that is left. *)
Fixpoint find_block (fuel : nat) (hash : string) (p : BlockParser) : res (PrecomputedBlock * Z * BlockParser) :=
  '(next, p) ← next_block p;
  match next with
  | None => Err
  | Some (parsed, n) =>
    let b := block_of_parsed parsed in
    if String.eqb (sh_str (state_hash b)) hash then Ok (b, n, p)
    else match fuel with O => Err | S fuel => find_block fuel hash p end
  end.
Definition get_precomputed_block (hash : string) (p : BlockParser) : res (PrecomputedBlock * Z * BlockParser) :=
  find_block (length (pa_canonical_paths p) + length (pa_recent_paths p) + length (pa_orphaned_paths p)) hash p.
End Parser.

(** * Every file is ingested *)

Section Ingest.
Context `{BlockFiles} `{BlockDisk}.
Implicit Types (p : BlockParser) (path : Path).

(** Reading blocks until there are none. *)
Fixpoint drain (fuel : nat) p : res (list (ParsedBlock * Z) * BlockParser) :=
  '(next, p) ← next_block p;
  match next with
  | None => Ok ([], p)
  | Some x => match fuel with O => Err | S fuel => '(xs, p) ← drain fuel p; Ok (x :: xs, p) end
  end.

(** A file can be ingested as a block of a known chain. *)
Definition file_of path (b : PrecomputedBlock) (n : Z) : Prop :=
  file_len path = Some n /\ exists g v, genesis_state_hash_from_path path = Ok g /\ ChainData !! g = Some v /\ parse_block_file path v.1 = Ok b.
Definition files_ok (block : Path -> PrecomputedBlock) (size : Path -> Z) (paths : list Path) : Prop :=
  Forall (fun path => file_of path (block path) (size path)) paths.

Context (block : Path -> PrecomputedBlock) (size : Path -> Z).
Notation parsed c paths := ((fun path => (c (block path), size path)) <$> paths).

Lemma consume_block_eq path c p :
  file_of path (block path) (size path) ->
  exists v, consume_block path c p = Ok (Some (c (block path), size path), count_parsed v (size path) p).
Proof.
  intros (El & g & v & Eg & Ev & Ep). exists v.1. unfold consume_block, file_size. rewrite El. cbn [expect_some mbind res_bind]. rewrite Eg. cbn [mbind res_bind].
  rewrite Ev. cbn [expect_some mbind res_bind]. by rewrite Ep.
Qed.

(** The files that are left, with what they are read as. *)
Definition queue p : list (Path * (PrecomputedBlock -> ParsedBlock)) :=
  ((fun path => (path, DeepCanonical)) <$> pa_canonical_paths p) ++ ((fun path => (path, Recent)) <$> pa_recent_paths p) ++
  ((fun path => (path, OrphanedBlock)) <$> pa_orphaned_paths p).

(** What reading [n] blocks of [bytes] bytes leaves: the totals stay. *)
Record ingested (n bytes : Z) p p' : Prop := {
  ig_blocks : pa_blocks_processed p' = wrap32 (pa_blocks_processed p + n);
  ig_bytes : pa_bytes_processed p' = wrap64 (pa_bytes_processed p + bytes);
  ig_total_blocks : pa_total_num_blocks p' = pa_total_num_blocks p;
  ig_total_bytes : pa_total_num_bytes p' = pa_total_num_bytes p
}.
Lemma ingested_trans n m a b p1 p2 p3 : ingested n a p1 p2 -> ingested m b p2 p3 -> ingested (n + m) (a + b) p1 p3.
Proof.
  intros [E1 E2 E3 E4] [F1 F2 F3 F4]. split; [|rewrite F2, E2, wrap64_add_l; f_equal; lia|congruence|congruence].
  rewrite F1, E1. unfold wrap32. rewrite Zplus_mod_idemp_l. f_equal. lia.
Qed.

Lemma next_block_spec p :
  match queue p with
  | [] => next_block p = Ok (None, p)
  | (path, c) :: q => file_of path (block path) (size path) ->
    exists p', next_block p = Ok (Some (c (block path), size path), p') /\ queue p' = q /\ ingested 1 (size path) p p'
  end.
Proof.
  unfold queue, next_block. destruct (pa_canonical_paths p) as [|x c]; [destruct (pa_recent_paths p) as [|x r]; [destruct (pa_orphaned_paths p) as [|x o]|]|];
    cbn [fmap list_fmap app]; [done|..]; intros Hx; match goal with |- context [consume_block x ?d ?q] => destruct (consume_block_eq x d q Hx) as (v & ->) end;
    eexists; (split; [reflexivity|split; [reflexivity|by split]]).
Qed.

Lemma drain_spec fuel p :
  files_ok block size (queue p).*1 -> (length (queue p) <= fuel)%nat -> u32 (pa_blocks_processed p) -> u64 (pa_bytes_processed p) ->
  exists p', drain fuel p = Ok ((fun e => (e.2 (block e.1), size e.1)) <$> queue p, p') /\
    ingested (Z.of_nat (length (queue p))) (sumZ (size <$> (queue p).*1)) p p' /\ queue p' = [].
Proof.
  revert p. induction fuel as [|fuel IH]; intros p Hok Hl Hb Hy; pose proof (next_block_spec p) as Hn; cbn [drain];
    destruct (queue p) as [|[path c] q] eqn:Eq; [|cbn in Hl; lia| |].
  1, 2: rewrite Hn; exists p; (split_and!; [done| |done]); split; [rewrite Z.add_0_r; symmetry; by apply wrap32_id|rewrite Z.add_0_r; symmetry; by apply wrap64_id|done|done].
  apply Forall_cons in Hok as [Hx Hok]. destruct (Hn Hx) as (p1 & -> & Eq1 & Hi). cbn [mbind res_bind].
  destruct (IH p1) as (p' & -> & Hi' & Eq'); rewrite ?Eq1; [done|cbn in Hl; lia|rewrite (ig_blocks _ _ _ _ Hi); apply wrap32_range|rewrite (ig_bytes _ _ _ _ Hi); apply wrap64_range|].
  exists p'. cbn [mbind res_bind]. rewrite Eq1 in *. split_and!; [done| |done]. pose proof (ingested_trans _ _ _ _ _ _ _ Hi Hi') as Ht.
  cbn [length fmap list_fmap sumZ foldr fst]. replace (Z.of_nat (S (length q))) with (1 + Z.of_nat (length q)) by lia. exact Ht.
Qed.

Lemma files_size paths path : files_ok block size paths -> path ∈ paths -> file_len path = Some (size path).
Proof. intros Hok Hin. unfold files_ok in Hok. rewrite Forall_forall in Hok. apply (Hok path Hin). Qed.
Lemma sum_sizes_eq paths : files_ok block size paths -> exists n, sum_sizes paths = Ok n.
Proof.
  intros Hok. unfold sum_sizes. generalize 0. induction Hok as [|path paths [El _] _ IH]; intros acc; [by exists acc|].
  cbn [foldM]. unfold file_size. rewrite El. cbn [expect_some mbind res_bind]. apply IH.
Qed.
Lemma total_size_eq paths : files_ok block size paths -> calculate_total_size paths = wrap64 (sumZ (size <$> paths)).
Proof.
  intros Hok. unfold calculate_total_size. assert (forall acc, u64 acc ->
    fold_left (fun acc path => match file_len path with Some n => wrap64 (acc + n) | None => acc end) paths acc = wrap64 (acc + sumZ (size <$> paths))) as Hg;
    [|by apply (Hg 0)].
  induction Hok as [|path paths [El _] _ IH]; intros acc Ha; cbn [fold_left fmap list_fmap].
  - rewrite Z.add_0_r. symmetry. by apply wrap64_id.
  - rewrite El, IH by apply wrap64_range. rewrite wrap64_add_l. f_equal. cbn [sumZ foldr]. unfold sumZ. lia.
Qed.
Lemma queue_paths p : (queue p).*1 = pa_canonical_paths p ++ pa_recent_paths p ++ pa_orphaned_paths p.
Proof. unfold queue. rewrite !fmap_app, <- !list_fmap_compose. by rewrite !list_fmap_id. Qed.

(** C26: Every block file is ingested once: with canonical chain discovery at a positive threshold, reading until there are no more
    blocks takes one step per file and gives the block of each, first those that discovery found canonical, as deep canonical
    blocks, then those it found recent and then, unless they are not wanted, the orphaned ones; the numbers of blocks and of
    bytes read are the totals announced at the start, and so are the numbers of canonical and recent blocks.  The files have
    well-formed names of distinct blocks, can be read and parsed, and are fewer than 2^32; the reporting frequency is not
    zero. *)
Theorem parser_ingests_every_file paths v threshold skip_orphans reporting_freq fuel :
  block_paths paths -> files_ok block size paths -> reporting_freq <> 0 -> 0 < threshold -> (length paths <= fuel)%nat ->
  Z.of_nat (length paths) <= U32_MAX ->
  exists p p' canonical recent orphaned,
    discovery fuel threshold reporting_freq paths = Some (Ok (canonical, recent, orphaned)) /\
    with_canonical_chain_discovery fuel (Some paths) v threshold skip_orphans reporting_freq = Some (Ok p) /\
    drain fuel p = Ok (parsed DeepCanonical canonical ++ parsed Recent recent ++ (if skip_orphans then [] else parsed OrphanedBlock orphaned), p') /\
    canonical ++ recent ++ orphaned ≡ₚ paths /\ parser_paths p' = mkPaths [] [] [] /\
    pa_blocks_processed p' = pa_total_num_blocks p /\ pa_bytes_processed p' = pa_total_num_bytes p /\
    pa_num_deep_canonical_blocks p = Z.of_nat (length canonical) /\ pa_num_recent_blocks p = Z.of_nat (length recent).
Proof.
  intros Hp Hok Hf Hth Hfuel Hlen.
  assert (exists canonical recent orphaned, discovery fuel threshold reporting_freq paths = Some (Ok (canonical, recent, orphaned)) /\
    canonical ++ recent ++ orphaned ≡ₚ paths) as (c & r & o & E & Hperm).
  { destruct paths as [|x paths]; [by exists [], [], []|].
    destruct (discovery_spec (x :: paths) threshold reporting_freq fuel) as (_ & c & r & o & E & _ & _ & _ & _ & Hperm & _); try done. by exists c, r, o. }
  assert (files_ok block size (c ++ r ++ o)) as Hcro by (unfold files_ok; by rewrite Hperm).
  apply Forall_app in Hcro as [Hc Hro]. pose proof Hro as Hro'. apply Forall_app in Hro as [Hr Ho].
  unfold with_canonical_chain_discovery. rewrite E. cbn [mbind option_bind]. destruct (sum_sizes_eq c Hc) as (n & ->). cbn [mbind res_bind].
  set (p := mkParser _ _ _ _ _ _ _ _ _ _ _). set (o' := if skip_orphans then [] else o).
  assert ((queue p).*1 = c ++ r ++ o') as Eq by apply queue_paths.
  assert (files_ok block size (c ++ r ++ o')) as Hq.
  { apply Forall_app; split; [done|]. apply Forall_app; split; [done|]. unfold o'. destruct skip_orphans; [constructor|done]. }
  assert (length (c ++ r ++ o') <= length paths)%nat as Hle.
  { rewrite <- (Permutation_length Hperm), !length_app. unfold o'. destruct skip_orphans; cbn [length]; lia. }
  destruct (drain_spec fuel p) as (p' & Ed & Hi & Eq'); [by rewrite Eq|rewrite <- (length_fmap fst), Eq; lia|done|done|].
  exists p, p', c, r, o. split; [done|]. split; [done|]. split_and!.
  - rewrite Ed. do 2 f_equal. unfold queue. rewrite !fmap_app, <- !list_fmap_compose. cbn [p pa_canonical_paths pa_recent_paths pa_orphaned_paths].
    by destruct skip_orphans.
  - done.
  - pose proof (queue_paths p') as Ep. rewrite Eq' in Ep. symmetry in Ep. apply app_nil in Ep as [E1 Ep]. apply app_nil in Ep as [E2 E3].
    unfold parser_paths. by rewrite E1, E2, E3.
  - rewrite (ig_blocks _ _ _ _ Hi), <- (length_fmap fst), Eq. cbn [p pa_blocks_processed pa_total_num_blocks]. rewrite Z.add_0_l. do 2 f_equal.
    unfold o'. rewrite <- (Permutation_length Hperm), !length_app. by destruct skip_orphans; cbn [length]; rewrite ?Nat.add_0_r.
  - rewrite (ig_bytes _ _ _ _ Hi), Eq. cbn [p pa_bytes_processed pa_total_num_bytes]. rewrite Z.add_0_l. unfold o'. destruct skip_orphans.
    + rewrite !total_size_eq, wrap64_add_l, wrap64_add_r by done. f_equal. by rewrite app_nil_r, fmap_app, sumZ_app.
    + rewrite total_size_eq by done. f_equal. apply sumZ_perm. by rewrite Hperm.
  - cbn [p pa_num_deep_canonical_blocks]. apply wrap32_id. rewrite !length_app in Hle. ints.
  - cbn [p pa_num_recent_blocks]. apply wrap32_id. rewrite !length_app in Hle. ints.
Qed.
End Ingest.

(** * Examples *)

(** The files of the example of canonical chain discovery, of the chain after the hard fork, all of 100 bytes. *)
Definition chain_files : BlockFiles :=
  {| read_head n p :=
       match list_find (fun e => e.1 = p) example_parents with
       | Some (_, (_, parent)) =>
         Ok (take n (example_head parent ++ quoted "genesis_state_hash" ++ as_bytes ":" ++ quoted HARDFORK_GENESIS_HASH))
       | None => Err
       end |}.
Definition small_files : BlockDisk :=
  {| file_len _ := Some 100;
     read_file _ := Ok [];
     json_v1 _ := Err;
     json_v2 _ := Ok (header_example, [], [], []) |}.
Definition file_block (path : Path) : PrecomputedBlock :=
  match @parse_block_file small_files path V2 with Ok b => b | _ => PcbV2 header_example [] [] [] end.

Lemma file_example path :
  bool_decide (@genesis_state_hash_from_path chain_files path = Ok (mkSh HARDFORK_GENESIS_HASH)) &&
  match @parse_block_file small_files path V2 with Ok _ => true | _ => false end = true ->
  @file_of chain_files small_files path (file_block path) 100.
Proof.
  intros [Hg Hp]%andb_true_iff. apply bool_decide_eq_true in Hg. split; [done|]. exists (mkSh HARDFORK_GENESIS_HASH), (V2, mkChainId HARDFORK_CHAIN_ID).
  split_and!; [done|vm_compute; reflexivity|]. unfold file_block. cbn [fst]. by destruct (parse_block_file path V2).
Qed.
Lemma files_example : @files_ok chain_files small_files file_block (fun _ => 100) example_paths.
Proof.
  apply Forall_forall. intros path Hin. apply file_example. apply list_elem_of_In in Hin. revert path Hin. apply forallb_forall.
  vm_compute. reflexivity.
Qed.

Lemma parser_ingests_every_file_witness :
  exists p p' canonical recent orphaned,
    @discovery chain_files 6 2 1000 example_paths = Some (Ok (canonical, recent, orphaned)) /\
    @with_canonical_chain_discovery chain_files small_files 6 (Some example_paths) V1 2 false 1000 = Some (Ok p) /\
    @drain chain_files small_files 6 p =
      Ok (((fun path => (DeepCanonical (file_block path), 100)) <$> canonical) ++ ((fun path => (Recent (file_block path), 100)) <$> recent) ++
          ((fun path => (OrphanedBlock (file_block path), 100)) <$> orphaned), p') /\
    canonical ++ recent ++ orphaned ≡ₚ example_paths /\ parser_paths p' = mkPaths [] [] [] /\
    pa_blocks_processed p' = pa_total_num_blocks p /\ pa_bytes_processed p' = pa_total_num_bytes p /\
    pa_num_deep_canonical_blocks p = Z.of_nat (length canonical) /\ pa_num_recent_blocks p = Z.of_nat (length recent).
Proof.
  apply (@parser_ingests_every_file chain_files small_files file_block (fun _ => 100) example_paths V1 2 false 1000 6).
  - apply (bool_decide_unpack _). vm_compute. exact I.
  - exact files_example.
  - discriminate.
  - lia.
  - vm_compute. lia.
  - vm_compute. discriminate.
Defined.
