(* ===== verification/Pipeline.v ===== *)
(** The indexer state over its database (src/rust/src/state/mod.rs): the initial state, the ingestion of block files, the
    pipeline that adds a block to the store and to the witness tree and moves the best tip, and the two ways a
    state is rebuilt from an existing database, [sync_from_db] and [replay_events].  Progress reports are not modelled. *)

From S2P Require Import Prelude Sorting Bytes Base StoreKeys Command AccountDiff Account Coinbase Precomputed Signed LedgerDiff Ledger BlockOrder InternalCommand Discovery Rose Branch WitnessTree ColumnFamilies Db Events Schema BlockIndex Usernames InternalStore CommandStore Canonicity SnarkStore BestLedger StagedStore BlockStore Staking StakingStore Parser.

(** * Code that can run out of fuel and fail *)

Definition fbind {A B} (m : option (res A)) (f : A -> option (res B)) : option (res B) :=
  match m with
  | Some (Ok a) => f a
  | Some Err => Some Err
  | Some Panic => Some Panic
  | None => None
  end.
Declare Scope fuel_scope.
Delimit Scope fuel_scope with fuel.
Notation "x ⇐ m ; k" := (fbind m (fun x => k)) (at level 20, m at level 100, k at level 200, right associativity) : fuel_scope.
Notation "' x ⇐ m ; k" := (fbind m (fun x => k))
  (at level 20, x pattern, m at level 100, k at level 200, right associativity) : fuel_scope.
Open Scope fuel_scope.

Lemma fbind_ok {A B} (a : A) (f : A -> option (res B)) : fbind (Some (Ok a)) f = f a.
Proof. reflexivity. Qed.

Global Instance Network_eq_dec : EqDecision Network.
Proof. solve_decision. Defined.
Global Instance StakingLedger_eq_dec : EqDecision StakingLedger.
Proof. solve_decision. Defined.
Global Instance Aggregated_eq_dec : EqDecision AggregatedEpochStakeDelegations.
Proof. solve_decision. Defined.

Section Pipeline.
Context `{IdTree} `{Speedb} `{Decimal} `{HashMapIter} `{Blake2b} `{TxnHasher} `{SortBy BlockComparison} `{SortBy StateHash}.
Context `{Json PrecomputedBlock} `{Json LedgerDiff} `{Json PcbVersion} `{Json BlockComparison} `{Json (list Z)}.
Context `{Json (list StateHash)} `{Json UsernameUpdate} `{Json (list UserCommandWithStatus)} `{Json SignedCommandWithData}.
Context `{Json (list SignedCommandWithData)} `{Json DbInternalCommandWithData} `{Json SnarkWorkSummary}.
Context `{Json SnarkWorkSummaryWithStateHash} `{Json SnarkFees} `{Json IndexerEvent} `{Json Account} `{Json string}.
Context `{Json StakingAccount} `{Json EpochStakeDelegation} `{Json StakingAccountWithEpochDelegation}.
Context `{DiffIter} `{ProverIter} `{UsernameIter} `{LedgerIter} `{StakingIter}.

(** The database is what the witness tree asks for. *)
Global Instance store_ledgers : LedgerDb :=
  {| LedgerStore := Db;
     WitnessTree.add_staged_ledger_at_state_hash := StagedStore.add_staged_ledger_at_state_hash;
     WitnessTree.get_block_ledger_diff := BlockIndex.get_block_ledger_diff |}.

(** The witness tree with the fields its handlers do not use. *)
Record Indexer := mkIndexer {
  ix_state : IndexerState;
  ix_bytes_processed : Z;
  ix_genesis_bytes : Z;
  ix_canonical_threshold : Z;
  ix_staking_ledgers : gmap Z LedgerHash
}.
Implicit Types (ix : Indexer) (st : IndexerState) (db : Db) (block : PrecomputedBlock) (h : StateHash).

Definition with_state st ix : Indexer :=
  mkIndexer st (ix_bytes_processed ix) (ix_genesis_bytes ix) (ix_canonical_threshold ix) (ix_staking_ledgers ix).
Definition with_bytes (n : Z) ix : Indexer :=
  mkIndexer (ix_state ix) n (ix_genesis_bytes ix) (ix_canonical_threshold ix) (ix_staking_ledgers ix).
Definition with_staking (m : gmap Z LedgerHash) ix : Indexer :=
  mkIndexer (ix_state ix) (ix_bytes_processed ix) (ix_genesis_bytes ix) (ix_canonical_threshold ix) m.
Definition ix_store ix : option Db := st_indexer_store (ix_state ix).
Definition set_store db st : IndexerState := set_ledgers (st_ledger st) (st_diffs_map st) (Some db) st.
Definition with_store db ix : Indexer := with_state (set_store db (ix_state ix)) ix.
Definition set_ledger (l : Ledger) st : IndexerState := set_ledgers l (st_diffs_map st) (st_indexer_store st) st.
Definition count_bytes (n : Z) ix : Indexer := with_bytes (wrap64 (ix_bytes_processed ix + n)) ix.
Definition count_blocks ix : Indexer :=
  with_state (set_blocks_processed (wrap32 (st_blocks_processed (ix_state ix) + 1)) (ix_state ix)) ix.

(** * The store *)

Definition add_block_to_store ix block (num_block_bytes : Z) (increment_blocks : bool) : res (option DbEvent * Indexer) :=
  let ix := if increment_blocks then count_bytes num_block_bytes (count_blocks ix) else ix in
  match ix_store ix with
  | Some db => '(event, db) ← add_block block num_block_bytes db; Ok (event, with_store db ix)
  | None => Ok (None, ix)
  end.

Definition add_canonical_block_to_store ix (blk : Block) (genesis : StateHash) (genesis_prev : option StateHash) : res Indexer :=
  match ix_store ix with
  | Some db =>
    db ← add_canonical_block (blk_blockchain_length blk) (blk_global_slot_since_genesis blk) (blk_state_hash blk) genesis genesis_prev db;
    Ok (with_store db ix)
  | None => Ok ix
  end.

Definition update_best_block_in_store (fuel : nat) ix h : option (res (option UsernameUpdate * Indexer)) :=
  match ix_store ix with
  | Some db =>
    db ⇐ set_best_block fuel h db;
    names ⇐ Some (get_block_username_updates db h);
    Some (Ok (names, with_store db ix))
  | None => Some (Ok (None, ix))
  end.

Definition get_block_status ix h : res (option Canonicity) :=
  match ix_store ix with Some db => get_block_canonicity db h | None => Ok None end.

Definition canonical_block_at_height ix (height : Z) : res (option PrecomputedBlock) :=
  match ix_store ix with
  | Some db =>
    match get_canonical_hash_at_height db height with
    | Ok (Some h) => b ← get_block db h; Ok (option_map fst b)
    | Panic => Panic
    | _ => Ok None
    end
  | None => Ok None
  end.

(** * The block pipeline *)

(** The names taken in the best block, in the accounts of the ledger that hold MINA. *)
Definition name_account (l : Ledger) (e : PublicKey * string) : Ledger :=
  alter (alter (with_username (Some e.2)) e.1) token_default l.

Definition block_pipeline (fuel : nat) ix block (block_bytes : Z) : option (res (bool * Indexer)) :=
  '(event, ix) ⇐ Some (add_block_to_store ix block block_bytes false);
  match event with
  | None => Some (Ok (true, ix))
  | Some db_event =>
    let ix := count_bytes block_bytes ix in
    if db_is_new_block_event db_event then
      '(added, st) ⇐ Some (add_block_to_witness_tree (ix_state ix) block true true);
      let ix := with_state st ix in
      match added.2 with
      | None => Some (Ok (true, ix))
      | Some (UpdateBestTip best_tip new_canonical_blocks) =>
        '(names, ix) ⇐ update_best_block_in_store fuel ix (blk_state_hash best_tip);
        let ledger := match names with
                      | Some names => fold_left name_account (username_iter names) (st_ledger (ix_state ix))
                      | None => st_ledger (ix_state ix)
                      end in
        let ix := with_state (set_ledger ledger (ix_state ix)) ix in
        ix ⇐ Some (foldM (fun ix blk => expect (add_canonical_block_to_store ix blk (blk_genesis_state_hash blk) None)) ix new_canonical_blocks);
        Some (Ok (true, ix))
      end
    else Some (Ok (false, ix))
  end.

(** * Ingestion of block files *)

(** One block of the loop over the deep canonical blocks.  The diffs since the last stored ledger wait in a vector; a ledger
    cadence of zero panics. *)
Definition ingest_canonical `{BlockFiles} `{BlockDisk} (fuel : nat) (num_deep_canonical_blocks : Z)
    (s : Indexer * BlockParser * list LedgerDiff) : option (res (Indexer * BlockParser * list LedgerDiff)) :=
  let '(ix, parser, ledger_diffs) := s in
  let ix := count_blocks ix in
  let blocks_processed := st_blocks_processed (ix_state ix) in
  '(next, parser) ⇐ Some (next_block parser);
  match next, ix_store ix with
  | Some (DeepCanonical block, block_bytes), Some db =>
    let h := state_hash block in
    let ix := count_bytes block_bytes ix in
    diff ⇐ Some (from_precomputed block);
    let ledger_diffs := ledger_diffs ++ [diff] in
    '(_, db) ⇐ Some (add_block block block_bytes db);
    db ⇐ set_best_block fuel h db;
    db ⇐ Some (add_canonical_block (blockchain_length block) (global_slot_since_genesis block) h (genesis_state_hash block) None db);
    '(ledger, ledger_diffs, db) ⇐ Some (
      if st_ledger_cadence (ix_state ix) =? 0 then Panic
      else if blocks_processed mod st_ledger_cadence (ix_state ix) =? 0 then
        ledger ← foldM ledger_apply_diff (st_ledger (ix_state ix)) ledger_diffs;
        db ← StagedStore.add_staged_ledger_at_state_hash h ledger (blockchain_length block) db;
        Ok (ledger, [], db)
      else Ok (st_ledger (ix_state ix), ledger_diffs, db));
    let st := set_store db (set_ledger ledger (ix_state ix)) in
    if num_deep_canonical_blocks <? blocks_processed then
      root_branch ⇐ Some (branch_new block);
      ledger ⇐ Some (ledger_apply_diff ledger diff);
      root ⇐ Some (root_block root_branch);
      let tip := mkTip (blk_state_hash root) (Branch.root root_branch) in
      let st := set_canonical_root tip (set_best_tip tip (set_ledger ledger (set_branches root_branch (st_dangling_branches st) st))) in
      Some (Ok (with_state st ix, parser, ledger_diffs))
    else Some (Ok (with_state st ix, parser, ledger_diffs))
  | _, _ => Some Err
  end.

Fixpoint ingest_loop `{BlockFiles} `{BlockDisk} (steps fuel : nat) (num_deep_canonical_blocks : Z) (s : Indexer * BlockParser * list LedgerDiff)
  : option (res (Indexer * BlockParser * list LedgerDiff)) :=
  if st_blocks_processed (ix_state s.1.1) <=? num_deep_canonical_blocks then
    match steps with
    | O => None
    | S steps => s ⇐ ingest_canonical fuel num_deep_canonical_blocks s; ingest_loop steps fuel num_deep_canonical_blocks s
    end
  else Some (Ok s).

(** The loop ends at the first file that cannot be parsed, without an error; the interrupt signal is not modelled. *)
Fixpoint add_blocks_with_time `{BlockFiles} `{BlockDisk} (steps fuel : nat) ix (parser : BlockParser) : option (res (Indexer * BlockParser)) :=
  match next_block parser with
  | Ok (Some (parsed, block_bytes), parser) =>
    match steps with
    | O => None
    | S steps =>
      ix ⇐ match parsed with
           | DeepCanonical block | Recent block => r ⇐ block_pipeline fuel ix block block_bytes; Some (Ok r.2)
           | OrphanedBlock block => Some (r ← add_block_to_store ix block block_bytes true; Ok r.2)
           end;
      add_blocks_with_time steps fuel ix parser
    end
  | Ok (None, parser) => Some (Ok (ix, parser))
  | Err => Some (Ok (ix, parser))
  | Panic => Some Panic
  end.

Definition initialize_with_canonical_chain_discovery `{BlockFiles} `{BlockDisk} (steps fuel : nat) ix (parser : BlockParser)
  : option (res (Indexer * BlockParser)) :=
  '(ix, parser) ⇐
    match ix_store ix with
    | Some _ =>
      let n := pa_num_deep_canonical_blocks parser in
      '(ix, parser, _) ⇐ ingest_loop steps fuel n (ix, parser, []);
      _ ⇐ Some (rust_assert (st_blocks_processed (ix_state ix) =? wrap32 (n + 1)));
      Some (Ok (ix, parser))
    | None => Some (Ok (ix, parser))
    end;
  add_blocks_with_time steps fuel ix parser.

(** * The initial state *)

(** [new_from_config]: the genesis block is the one of the build, with the size of its file. *)
Definition new_from_config (fuel : nat) (config : IndexerStateConfig) (canonical_threshold : Z) (chain_id : ChainId) (network : Network)
    (genesis_block : PrecomputedBlock) (genesis_bytes : Z) : option (res Indexer) :=
  let h := state_hash genesis_block in
  let prev := previous_state_hash genesis_block in
  let db := set_chain_id_for_network chain_id network (cfg_indexer_store config) in
  '(_, db) ⇐ Some (add_block genesis_block genesis_bytes db);
  db ⇐ Some (add_canonical_block (blockchain_length genesis_block) (global_slot_since_genesis genesis_block) h h (Some prev) db);
  db ⇐ Some (add_genesis_ledger prev (cfg_genesis_ledger config) (gv_blockchain_length (cfg_genesis config)) db);
  db ⇐ set_best_block fuel h db;
  root_branch ⇐ Some (new_genesis_block (block_from_precomputed genesis_block 0));
  root ⇐ Some (root_block root_branch);
  let tip := mkTip (blk_state_hash root) (Branch.root root_branch) in
  ledger ⇐ Some (apply_diff_from_precomputed (cfg_genesis_ledger config) genesis_block);
  diff ⇐ Some (from_precomputed genesis_block);
  Some (Ok {| ix_state := {| st_ledger := ledger;
                             st_diffs_map := {[h := diff]};
                             st_canonical_root := tip;
                             st_best_tip := tip;
                             st_root_branch := root_branch;
                             st_dangling_branches := [];
                             st_indexer_store := Some db;
                             st_transition_frontier_length := cfg_transition_frontier_length config;
                             st_prune_interval := cfg_prune_interval config;
                             st_canonical_update_threshold := cfg_canonical_update_threshold config;
                             st_blocks_processed := 1;
                             st_ledger_cadence := cfg_ledger_cadence config |};
              ix_bytes_processed := genesis_bytes;
              ix_genesis_bytes := genesis_bytes;
              ix_canonical_threshold := canonical_threshold;
              ix_staking_ledgers := ∅ |}).

(** * Rebuilding the state from a database *)

(** The bytes of an event after its height and kind; shorter values panic. *)
Definition event_bytes (bytes : list Z) : res IndexerEvent := l ← slice_from 5 bytes; from_json l.

(** The last best tip at the height of the root of the witness tree. *)
Fixpoint find_root_event (root_height : Z) (entries : list (list Z * list Z)) : res (option IndexerEvent) :=
  match entries with
  | [] => Ok None
  | (_, bytes) :: entries =>
    prefix ← slice_to 4 bytes;
    height ← expect (u32_from_be_bytes prefix);
    kind ← expect_some (bytes !! 4%nat);
    if (kind =? NEW_BEST_TIP_KIND) && (height =? root_height) then
      match event_bytes bytes with
      | Ok e => Ok (Some e)
      | Err => find_root_event root_height entries
      | Panic => Panic
      end
    else find_root_event root_height entries
  end.

(** The blocks of the keys that an iterator gives, without those that are skipped; a block that is not there is a panic. *)
Definition sync_blocks db (skip : Z -> StateHash -> bool) (entries : list (list Z * list Z)) : res (list PrecomputedBlock) :=
  foldM (fun blocks '(key, _) =>
    match block_u32_prefix_from_key key, state_hash_suffix key with
    | Panic, _ | Ok _, Panic | Err, Panic => Panic
    | Ok height, Ok h =>
      if skip height h then Ok blocks
      else match get_block db h with
           | Ok (Some (block, _)) => Ok (blocks ++ [block])
           | _ => Panic
           end
    | _, _ => Ok blocks
    end) [] entries.

(** The staking ledgers of the known chains. *)
Definition sync_staking_ledgers (entries : list (list Z * list Z)) : res (gmap Z LedgerHash) :=
  foldM (fun m '(key, _) =>
    '(genesis, epoch, ledger_hash) ← split_staking_ledger_epoch_key key;
    Ok (if String.eqb (sh_str genesis) MAINNET_GENESIS_HASH || String.eqb (sh_str genesis) HARDFORK_GENESIS_HASH
        then <[epoch := ledger_hash]> m else m)) ∅ entries.

(** The witness tree is rooted at the given block. *)
Definition reroot st (root : PrecomputedBlock) : res IndexerState :=
  root_branch ← branch_new root;
  blk ← root_block root_branch;
  let tip := mkTip (blk_state_hash blk) (Branch.root root_branch) in
  diff ← from_precomputed root;
  Ok (set_best_tip tip (set_canonical_root tip
        (set_ledgers (st_ledger st) (<[tip_state_hash tip := diff]> (st_diffs_map st)) (st_indexer_store st)
           (set_branches root_branch (st_dangling_branches st) st)))).

Definition sync_from_db ix : res (option Z * Indexer) :=
  db ← expect_some (ix_store ix);
  next_seq_num ← get_next_seq_num db;
  best ← get_best_block_height db;
  let best_block_height := default 0 best in
  event ← find_root_event (Z.max 1 (saturating_sub best_block_height (ix_canonical_threshold ix)))
            (event_log_iterator db (IterFromReverse (u32_be next_seq_num)));
  '(min_length_filter, blocks, staking_ledgers, st) ←
    match event with
    | Some (EventDb (DbBlock (NewBestTip h root_block_height))) =>
      found ← get_block db h;
      '(root, _) ← expect_some found;
      st ← reroot (ix_state ix) root;
      blocks ← sync_blocks db (fun height hash => (height <=? 1) || bool_decide (hash = state_hash root))
                 (blocks_height_iterator db (IterFromForward (u32_be (blockchain_length root))));
      staking_ledgers ← sync_staking_ledgers (staking_ledger_epoch_iterator db IterEnd);
      Ok (Some root_block_height, blocks, staking_ledgers, st)
    | _ =>
      blocks ← sync_blocks db (fun _ _ => false) (blocks_height_iterator db (IterFromReverse (u32_be 1)));
      Ok (None, blocks, ∅, ix_state ix)
    end;
  blocks_processed ← get_block_production_total_count db;
  bytes_processed ← match cf_get db default_cf NUM_BLOCK_BYTES_PROCESSED with
                    | Some bytes => expect (u64_from_be_bytes bytes)
                    | None => Ok (ix_genesis_bytes ix)
                    end;
  let ix := with_staking staking_ledgers (with_bytes bytes_processed (with_state (set_blocks_processed blocks_processed st) ix)) in
  st ← foldM (fun st block => r ← add_block_to_witness_tree st block false true; Ok r.2) (ix_state ix) blocks;
  Ok (min_length_filter, with_state st ix).

(** ** Replaying events *)

(** A block of an event is in the store, with its hash and its height. *)
Definition check_block db h (blockchain_length_ : Z) : res (option PrecomputedBlock) :=
  found ← get_block db h;
  match found with
  | Some (block, _) =>
    _ ← rust_assert (bool_decide (state_hash block = h));
    _ ← rust_assert (blockchain_length block =? blockchain_length_);
    height ← get_block_height db h;
    _ ← rust_assert (bool_decide (height = Some blockchain_length_));
    Ok (Some block)
  | None => Ok None
  end.

Definition replay_staking_ledger db (epoch : Z) (ledger_hash : LedgerHash) : res unit :=
  by_hash ← get_staking_ledger db ledger_hash (Some epoch) None;
  by_hash ← expect_some by_hash;
  _ ← rust_assert (sl_epoch by_hash =? epoch);
  _ ← rust_assert (bool_decide (sl_ledger_hash by_hash = ledger_hash));
  by_epoch ← build_staking_ledger db epoch (Some (sl_genesis_state_hash by_hash));
  by_epoch ← expect_some by_epoch;
  _ ← rust_assert (sl_epoch by_epoch =? epoch);
  _ ← rust_assert (bool_decide (sl_ledger_hash by_epoch = ledger_hash));
  rust_assert (bool_decide (by_epoch = by_hash)).

(** What becomes of an event: the state after it, [None] when it failed before it changed anything, and an error when the
    witness tree failed, in a state that is not modelled. *)
Definition quietly (r : res Indexer) : res (option Indexer) :=
  match r with Ok ix => Ok (Some ix) | Err => Ok None | Panic => Panic end.

Definition replay_block_event ix (e : DbBlockEvent) : res (option Indexer) :=
  db ← expect_some (ix_store ix);
  match e with
  | NewBestTip h n => quietly (block ← check_block db h n; _ ← expect_some block; Ok ix)
  | NewBlock h n =>
    match check_block db h n with
    | Ok (Some block) => r ← add_block_to_witness_tree (ix_state ix) block true true; Ok (Some (with_state r.2 ix))
    | Ok None => Panic
    | Err => match get_block db h with Err => Panic | _ => Ok None end
    | Panic => Panic
    end
  end.

Definition replay_ledger_event (fuel : nat) ix (e : DbLedgerEvent) : option (res (option Indexer)) :=
  let '(NewLedger h _ _) := e in
  db ⇐ Some (expect_some (ix_store ix));
  match get_staged_ledger_at_state_hash fuel h false db with
  | Some (Ok (Some _, db)) => Some (quietly (
      found ← get_block db h;
      match found with
      | Some (block, _) => _ ← rust_assert (bool_decide (state_hash block = h)); Ok (with_store db ix)
      | None => if String.eqb (sh_str h) MAINNET_GENESIS_PREV_STATE_HASH then Ok (with_store db ix) else Panic
      end))
  | Some (Ok (None, _)) | Some Panic => Some Panic
  | Some Err => Some (Ok None)
  | None => None
  end.

Definition replay_staking_event ix (e : DbStakingLedgerEvent) : res (option Indexer) :=
  match e with
  | NewStakingLedger epoch ledger_hash _ =>
    let ix := with_staking (<[epoch := ledger_hash]> (ix_staking_ledgers ix)) ix in
    db ← expect_some (ix_store ix);
    match replay_staking_ledger db epoch ledger_hash with Panic => Panic | _ => Ok (Some ix) end
  | AggregateDelegations epoch genesis =>
    db ← expect_some (ix_store ix);
    quietly (
      aggregated ← build_aggregated_delegations db epoch (Some genesis);
      aggregated ← expect_some aggregated;
      staking_ledger ← build_staking_ledger db epoch (Some genesis);
      staking_ledger ← expect_some staking_ledger;
      _ ← rust_assert (bool_decide (aggregated = aggregate_delegations staking_ledger));
      Ok ix)
  end.

Definition replay_canonicity_event ix (e : DbCanonicityEvent) : res (option Indexer) :=
  let '(NewCanonicalBlock h n) := e in
  db ← expect_some (ix_store ix);
  quietly (
    canonical ← get_canonical_hash_at_height db n;
    canonical ← expect_some canonical;
    _ ← rust_assert (bool_decide (canonical = h));
    block ← check_block db h n; _ ← expect_some block; Ok ix).

Definition replay_event (fuel : nat) ix (event : IndexerEvent) : option (res (option Indexer)) :=
  match event with
  | EventDb (DbBlock e) => Some (replay_block_event ix e)
  | EventDb (DbLedger e) => replay_ledger_event fuel ix e
  | EventDb (DbStakingLedger e) => Some (replay_staking_event ix e)
  | EventDb (DbCanonicity e) => Some (replay_canonicity_event ix e)
  | EventWitnessTree _ => Some Panic
  end.

(** The greatest length of a canonical block in the log. *)
Definition raise_filter (min_length_filter : option Z) (event : IndexerEvent) : option Z :=
  match event with
  | EventDb (DbCanonicity (NewCanonicalBlock _ n)) =>
    match min_length_filter with
    | Some m => if m <? n then Some n else Some m
    | None => Some n
    end
  | _ => min_length_filter
  end.

(** Values of the log that cannot be read are skipped, and an event that fails changes nothing. *)
Fixpoint replay_entries (fuel : nat) (entries : list (list Z * list Z)) (min_length_filter : option Z) ix
  : option (res (option Z * Indexer)) :=
  match entries with
  | [] => Some (Ok (min_length_filter, ix))
  | (_, bytes) :: entries =>
    match event_bytes bytes with
    | Ok event =>
      r ⇐ replay_event fuel ix event;
      replay_entries fuel entries (raise_filter min_length_filter event) (default ix r)
    | Err => replay_entries fuel entries min_length_filter ix
    | Panic => Some Panic
    end
  end.
Definition replay_events (fuel : nat) ix (state : Indexer) : option (res (option Z * Indexer)) :=
  match ix_store state with
  | Some db => replay_entries fuel (event_log_iterator db IterStart) None ix
  | None => Some (Ok (None, ix))
  end.

(** * The handlers of the running server (src/rust/src/server.rs) *)

(** [process_event] for the file of a block, after it is parsed.  An error of the pipeline is logged; the state it leaves is not
    modelled. *)
Definition process_block (fuel : nat) ix block (block_bytes : Z) : option (res Indexer) :=
  match st_diffs_map (ix_state ix) !! state_hash block with
  | Some _ => Some (Ok ix)
  | None => '(_, ix) ⇐ block_pipeline fuel ix block block_bytes; Some (Ok ix)
  end.

(** The length of the next block to fetch. *)
Definition fetch_new_blocks_length st : res Z := tip ← best_tip_block st; Ok (wrap32 (blk_blockchain_length tip + 1)).

(** The lengths of the blocks that the dangling branches wait for. *)
Definition missing_parent_lengths st : res (gset Z) :=
  foldM (fun (lengths : gset Z) d => root ← root_block d; Ok ({[saturating_sub (blk_blockchain_length root) 1]} ∪ lengths)) ∅ (st_dangling_branches st).

(** [lo..hi] *)
Definition range (lo hi : Z) : list Z := (fun i => lo + Z.of_nat i) <$> seq 0 (Z.to_nat (hi - lo)).

(** The lengths that are recovered: the missing ones, and in a batch those between them and the best tip. *)
Definition recover_missing_blocks (batch_recovery : bool) st : res (gset Z * list Z) :=
  missing ← missing_parent_lengths st;
  if bool_decide (missing = ∅) then Ok (∅, [])
  else if batch_recovery then
    tip ← best_tip_block st;
    let best_tip_length := blk_blockchain_length tip in
    match elements missing with
    | [] => Ok (missing, [])
    | m :: ms => Ok (missing, range (Z.min best_tip_length (fold_left Z.min ms m)) (Z.max best_tip_length (fold_left Z.max ms m)))
    end
  else Ok (missing, []).
End Pipeline.

(** * The ledger of the canonical root *)

Section Initial.
Context `{IdTree} `{Speedb} `{Decimal} `{HashMapIter} `{Blake2b} `{TxnHasher} `{SortBy BlockComparison}.
Context `{Json PrecomputedBlock} `{Json LedgerDiff} `{Json PcbVersion} `{Json BlockComparison} `{Json (list Z)}.
Context `{Json (list StateHash)} `{Json UsernameUpdate} `{Json (list UserCommandWithStatus)} `{Json SignedCommandWithData}.
Context `{Json (list SignedCommandWithData)} `{Json DbInternalCommandWithData} `{Json SnarkWorkSummary}.
Context `{Json SnarkWorkSummaryWithStateHash} `{Json SnarkFees} `{Json IndexerEvent} `{Json Account} `{Json string}.
Context `{DiffIter} `{ProverIter} `{UsernameIter} `{LedgerIter} `{BlockFiles} `{BlockDisk}.
Implicit Types (ix : Indexer) (block : PrecomputedBlock) (diffs : list LedgerDiff).

Lemma fbind_inv {A B} (m : option (res A)) (f : A -> option (res B)) b :
  fbind m f = Some (Ok b) -> exists a, m = Some (Ok a) /\ f a = Some (Ok b).
Proof. destruct m as [[a| |]|]; cbn; try done. by exists a. Qed.

(** One step: the block read, its diff, and the ledger. *)
Lemma ingest_canonical_inv fuel n ix parser pending ix' parser' pending' :
  ingest_canonical fuel n (ix, parser, pending) = Some (Ok (ix', parser', pending')) ->
  let k := wrap32 (st_blocks_processed (ix_state ix) + 1) in
  let c := st_ledger_cadence (ix_state ix) in
  exists block bytes diff ledger,
    next_block parser = Ok (Some (DeepCanonical block, bytes), parser') /\ from_precomputed block = Ok diff /\
    st_blocks_processed (ix_state ix') = k /\ st_ledger_cadence (ix_state ix') = c /\
    (if k mod c =? 0 then foldM ledger_apply_diff (st_ledger (ix_state ix)) (pending ++ [diff]) = Ok ledger /\ pending' = []
     else ledger = st_ledger (ix_state ix) /\ pending' = pending ++ [diff]) /\
    (if n <? k then ledger_apply_diff ledger diff = Ok (st_ledger (ix_state ix')) else st_ledger (ix_state ix') = ledger).
Proof.
  unfold ingest_canonical. intros E. apply fbind_inv in E as ([next p1] & [= En] & E). 
  destruct next as [[[b|b|b] bytes]|]; try discriminate E. destruct (ix_store _) as [db|]; [|discriminate E].
  apply fbind_inv in E as (diff & [= Ed] & E). apply fbind_inv in E as ([ev db1] & _ & E). apply fbind_inv in E as (db2 & _ & E).
  apply fbind_inv in E as (db3 & _ & E). apply fbind_inv in E as ([[ledger pend] db4] & [= El] & E).
  cbn [count_bytes count_blocks with_bytes with_state ix_state set_blocks_processed st_ledger_cadence st_blocks_processed st_ledger] in *.
  set (k := wrap32 _) in *. set (c := st_ledger_cadence _) in *.
  exists b, bytes, diff, ledger.
  assert (if k mod c =? 0 then foldM ledger_apply_diff (st_ledger (ix_state ix)) (pending ++ [diff]) = Ok ledger /\ pend = []
          else ledger = st_ledger (ix_state ix) /\ pend = pending ++ [diff]) as HL.
  { destruct (c =? 0); [discriminate El|]. destruct (k mod c =? 0); [|by injection El as <- <- _].
    destruct (foldM _ _ _) as [l| |]; try discriminate El. cbn [mbind res_bind] in El. destruct (StagedStore.add_staged_ledger_at_state_hash _ _ _ _); try discriminate El.
    cbn [mbind res_bind] in El. by injection El as <- <- _. }
  destruct (n <? k).
  - apply fbind_inv in E as (rb & _ & E). apply fbind_inv in E as (l2 & [= El2] & E). apply fbind_inv in E as (root & _ & [= <- <- <-]). done.
  - injection E as <- <- <-. done.
Qed.

(** The deep canonical blocks read from a parser, as their diffs. *)
Inductive reads : BlockParser -> list LedgerDiff -> BlockParser -> Prop :=
| reads_nil p : reads p [] p
| reads_snoc p diffs p1 block bytes diff p2 :
    reads p diffs p1 -> next_block p1 = Ok (Some (DeepCanonical block, bytes), p2) -> from_precomputed block = Ok diff ->
    reads p (diffs ++ [diff]) p2.

(** The number of diffs in the last ledger stored by the time [k] blocks are read; the genesis block is counted as well. *)
Definition in_last_ledger (cadence k : Z) : nat := Z.to_nat (cadence * ((k + 1) / cadence) - 1).

Lemma in_last_ledger_le c k : 0 < c -> 0 <= k -> (in_last_ledger c k <= Z.to_nat k)%nat.
Proof. intros Hc Hk. unfold in_last_ledger. pose proof (Z.mul_div_le (k + 1) c Hc). lia. Qed.
Lemma in_last_ledger_next c k :
  0 < c -> 0 <= k -> in_last_ledger c (k + 1) = if (k + 2) mod c =? 0 then Z.to_nat (k + 1) else in_last_ledger c k.
Proof.
  intros Hc Hk. unfold in_last_ledger. replace (k + 1 + 1) with (k + 2) by lia. destruct (Z.eqb_spec ((k + 2) mod c) 0) as [E|E].
  - rewrite <- Z_div_exact_full_2 by lia. lia.
  - do 2 f_equal. f_equal. pose proof (Z.div_mod (k + 2) c ltac:(lia)). pose proof (Z.mod_pos_bound (k + 2) c Hc).
    apply Z.div_unique with ((k + 2) mod c - 1); lia.
Qed.

Lemma ingest_loop_inv c n ledger0 p0 steps fuel ix parser pending ix' parser' pending' diffs k :
  ingest_loop steps fuel n (ix, parser, pending) = Some (Ok (ix', parser', pending')) ->
  st_blocks_processed (ix_state ix) = k + 1 -> st_ledger_cadence (ix_state ix) = c -> 0 < c -> 0 <= k < n -> n < U32_MAX ->
  reads p0 diffs parser -> Z.of_nat (length diffs) = k ->
  foldM ledger_apply_diff ledger0 (take (in_last_ledger c k) diffs) = Ok (st_ledger (ix_state ix)) -> pending = drop (in_last_ledger c k) diffs ->
  exists diffs' last, reads p0 (diffs' ++ [last]) parser' /\ Z.of_nat (length (diffs' ++ [last])) = n /\
    foldM ledger_apply_diff ledger0 (take (in_last_ledger c n) (diffs' ++ [last]) ++ [last]) = Ok (st_ledger (ix_state ix')) /\
    pending' = drop (in_last_ledger c n) (diffs' ++ [last]).
Proof.
  revert ix parser pending diffs k. induction steps as [|steps IH]; intros ix parser pending diffs k E Eb Ec Hc Hk Hn Hr Hl Ef Ep;
    cbn [ingest_loop fst] in E; rewrite Eb in E; (destruct (Z.leb_spec (k + 1) n); [|lia]); [discriminate E|].
  apply fbind_inv in E as ([[ix1 p1] pend1] & E1 & E).
  destruct (ingest_canonical_inv _ _ _ _ _ _ _ _ E1) as (block & bytes & diff & ledger & En & Ed & Eb1 & Ec1 & HL & Hend).
  rewrite Eb, Ec in *. rewrite wrap32_id in * by ints. replace (k + 1 + 1) with (k + 2) in * by lia.
  assert (reads p0 (diffs ++ [diff]) p1) as Hr1 by (by eapply reads_snoc).
  assert (Z.of_nat (length (diffs ++ [diff])) = k + 1) as Hl1 by (rewrite length_app; cbn [length]; lia).
  pose proof (in_last_ledger_le c k Hc ltac:(lia)) as Hle.
  assert (foldM ledger_apply_diff ledger0 (take (in_last_ledger c (k + 1)) (diffs ++ [diff])) = Ok ledger /\
    pend1 = drop (in_last_ledger c (k + 1)) (diffs ++ [diff])) as [Ef1 Ep1].
  { rewrite in_last_ledger_next by lia. destruct ((k + 2) mod c =? 0).
    - destruct HL as [HL ->]. rewrite take_ge, drop_ge by lia. split; [|done].
      rewrite <- (take_drop (in_last_ledger c k) diffs), <- app_assoc, foldM_app, Ef. cbn [mbind res_bind]. by rewrite <- Ep.
    - destruct HL as [-> ->]. rewrite take_app_le, drop_app_le by lia. by rewrite Ep. }
  destruct (Z.ltb_spec n (k + 2)) as [Hlast|Hmore].
  - assert (k + 1 = n) as En1 by lia. rewrite En1 in *. exists diffs, diff.
    destruct steps; cbn [ingest_loop fst] in E; rewrite Eb1 in E; (destruct (Z.leb_spec (k + 2) n); [lia|]); injection E as <- <- <-;
      (split_and!; [done|done| |done]); rewrite foldM_app, Ef1; cbn [mbind res_bind foldM]; by rewrite Hend.
  - apply (IH ix1 p1 pend1 (diffs ++ [diff]) (k + 1)); [done|lia|done|done|lia|done|done|done| |done]. by rewrite Hend.
Qed.

End Initial.
