(* ===== verification/FrontierDb.v ===== *)
(** The transition frontier over the database (src/rust/src/state/mod.rs with src/rust/src/store/staged_ledger_store_impl.rs): the
    database keeps the promise that the witness tree relies on, [LedgerDbSpec], and with it the handler of the witness tree never
    fails and keeps its invariant. *)

From S2P Require Import Prelude Sorting Bytes Base StoreKeys Command AccountDiff Account Coinbase Precomputed Signed LedgerDiff Ledger BlockOrder InternalCommand Discovery Rose Branch WitnessTree Growth Pruning Frontier ColumnFamilies Db Events Codes BlockCodes Schema BlockIndex Usernames InternalStore CommandStore Canonicity Reorg SnarkStore BestLedger StagedStore Staking StakingStore Parser Pipeline.

(** * The database takes the ledgers *)

Section Store.
Context `{SpeedbSpec} `{JsonSpec Account} `{Json LedgerDiff} `{Json (list StateHash)} `{Json IndexerEvent} `{LedgerIter}.
Implicit Types (db : Db) (h : StateHash) (l : Ledger) (a : Account).

Lemma set_staged_account_typed token a h n db :
  well_typed db -> sh_wf h -> entry_wf (token, a) -> u32 n -> typed_step staged_families (set_staged_account (acct_public_key a) token h n a db) db.
Proof.
  intros Hdb Hh Hwf Hn. pose proof Hwf as (Ht & Hpk & _). cbn [fst snd] in Ht, Hpk.
  unfold set_staged_account, set_staged_account_raw_bytes, get_pk_min_staged_ledger_block, opt_u32.
  destruct (map_u32_typed db staged_ledger_accounts_min_block_cf (pk_key (acct_public_key a)) Hdb eq_refl) as (o & -> & _). cbn [mbind res_bind].
  rewrite staged_account_key_ok, staged_sort_key_ok by done. cbn [mbind res_bind]. eexists. split; [done|].
  destruct (n <? _); (split; [repeat (apply well_typed_put; [first [by apply has_type_u32|done]|]); done|unfold set_pk_min_staged_ledger_block; frame]).
Qed.

Lemma add_staged_accounts_typed l h n db :
  well_typed db -> sh_wf h -> ledger_keys l -> u32 n -> typed_step staged_families (add_staged_accounts h l n db) db.
Proof.
  intros Hdb Hh Hk Hn. unfold add_staged_accounts.
  assert (forall e, e ∈ ledger_entries l -> get_account l e.1.2 e.1.1 = Some e.2) as He by (intros [[t p] a] Hin; by apply ledger_entries_spec).
  revert db Hdb He. induction (ledger_entries l) as [|[[t p] a] es IH]; intros db Hdb He; [by apply typed_step_ok|].
  cbn [foldM fst snd]. destruct (Hk _ _ _ (He (t, p, a) ltac:(by left))) as (Ep & Hpk & Ht & Hb). cbn [fst snd] in *.
  destruct (set_staged_account_typed t a h n db Hdb Hh) as (db1 & E1 & Hdb1 & Hw1); [by rewrite <- Ep in Hpk|done|]. rewrite Ep in E1. rewrite E1. cbn [mbind res_bind].
  apply (typed_step_then _ _ db1); [done|]. apply IH; [done|]. intros e Hin. apply He. by right.
Qed.

(** A block the database knows: its staged ledger hash and height are there. *)
Definition block_known db h : Prop := sh_wf h /\ known_ledger db h.

Lemma known_ledger_frame cfs db db' h :
  writes_in cfs db db' -> family_in cfs block_staged_ledger_hash_cf = false -> family_in cfs block_height_cf = false ->
  known_ledger db h -> known_ledger db' h.
Proof. intros Hw H1' H2'. unfold known_ledger, get_block_height, opt_u32. by rewrite !(writes_get _ _ _ _ _ Hw) by done. Qed.

Lemma add_staged_ledger_total l h n db :
  well_typed db -> block_known db h -> ledger_keys l -> u32 n ->
  exists db', StagedStore.add_staged_ledger_at_state_hash h l n db = Ok db' /\ well_typed db' /\ forall g, block_known db g -> block_known db' g.
Proof.
  intros Hdb [Hh Hkn] Hk Hn. unfold StagedStore.add_staged_ledger_at_state_hash.
  destruct (add_staged_accounts_typed l h n db Hdb Hh Hk Hn) as (db1 & -> & Hdb1 & Hw1). cbn [mbind res_bind].
  destruct (announce_ledger_step h db1 Hdb1) as (db2 & -> & Hdb2 & Hw2); [by eapply known_ledger_frame|]. cbn [mbind res_bind].
  eexists. split; [done|]. split; [by apply well_typed_put|]. intros g [Hg Hgk]. split; [done|].
  eapply (known_ledger_frame announce_families db1); [by apply writes_then_put|done|done|]. by eapply known_ledger_frame.
Qed.

(** The accounts that a diff of a block names have keys of the right form. *)
Definition diff_keys (d : AccountDiff) : Prop :=
  keys_wf d /\ match d with DZkappActions d => token_wf (ad_token d) | DZkappEvents d => token_wf (ed_token d) | _ => True end.

(** The database is what the witness tree asks for, and keeps what it promises. *)
Global Program Instance store_ledgers_spec : LedgerDbSpec :=
  {| db_ok := well_typed; db_knows := block_known; ledger_storable := ledger_keys; diff_storable := diff_keys |}.
Next Obligation.
  intros ds l l' Hl Hk Hd Hs E. apply (ledger_keys_apply ds l l' Hl Hk); [|done]. unfold good_apply. rewrite Forall_and. split; [done|].
  eapply Forall_impl; [exact Hs|]. by intros d [? ?].
Qed.
Next Obligation. intros. by apply add_staged_ledger_total. Qed.
End Store.

(** * The handler of the witness tree *)

Section Properties.
Variables (len_of : StateHash -> Z) (fork_length : Z).
Context `{IdTreeSpec} `{Blake2b} `{Decimal} `{HashMapIter}.
Context `{SpeedbSpec} `{JsonSpec Account} `{Json LedgerDiff} `{Json (list StateHash)} `{Json IndexerEvent} `{LedgerIter}.
Implicit Types (r : rose (NodeId * Block)) (st : IndexerState) (b : PrecomputedBlock) (db : Db).
Notation state_inv := (state_inv len_of fork_length).
Notation incoming_ok := (incoming_ok len_of fork_length).
Notation sequence_ok := (sequence_ok len_of fork_length).
Notation settings_ok := (settings_ok len_of fork_length).

(** The block was added to the database before. *)
Definition in_store st b : Prop := forall db, st_indexer_store st = Some db -> block_known db (state_hash b).



(** C6: From its initial state over a well-typed database the indexer processes any sequence of distinct consistent blocks that are in the database, in any order of
    arrival: the handler returns for each, the state stays well formed, and the blocks it holds
    are among the genesis block and those that arrived, each at most once. *)
Theorem blocks_always_processed config bs :
  settings_ok config -> (forall id, sequence_ok bs [Rose (id, genesis_block_of (cfg_genesis config)) []]) ->
  Forall (fun b => block_known (cfg_indexer_store config) (state_hash b)) bs ->
  exists st0 st r ds, new_without_genesis_events config = Ok st0 /\ add_blocks st0 bs = Ok st /\
    state_inv st r ds /\
    submseteq (forest (r :: ds))
      (((fun b => strip (block_from_precomputed b 0)) <$> bs) ++ [strip (genesis_block_of (cfg_genesis config))]).
Proof. intros Hset Hseq Hk. apply blocks_processed; [done|done|]. by apply Forall_fmap. Qed.

(** C7: After any sequence of distinct consistent blocks that are in the database, in any order of arrival, the best tip is a longest block of the
    root branch, and the canonical root is its tenth ancestor there, or the root of a branch of fewer than eleven levels. *)
Theorem canonical_root_ten_deep config bs :
  settings_ok config -> (forall id, sequence_ok bs [Rose (id, genesis_block_of (cfg_genesis config)) []]) ->
  Forall (fun b => block_known (cfg_indexer_store config) (state_hash b)) bs ->
  exists st0 st r tip canonical l, new_without_genesis_events config = Ok st0 /\ add_blocks st0 bs = Ok st /\
    contents (branches (st_root_branch st)) = Some r /\
    best_tip_block st = Ok tip /\ canonical_root_block st = Ok canonical /\
    (forall x, x ∈ blocks r -> blk_blockchain_length x <= blk_blockchain_length tip) /\
    ancestors (is_id (tip_node_id (st_best_tip st))) r = Some l /\
    match l !! 9%nat with
    | Some n => canonical = n.2 /\ blk_height canonical = blk_height tip - MAINNET_CANONICAL_THRESHOLD
    | None => canonical = (label r).2 /\ (rose_height r < 11)%nat
    end.
Proof.
  intros Hset Hseq Hk. destruct (blocks_processed len_of fork_length config bs Hset Hseq) as (st0 & st & r & ds & E0 & E & Hinv & _); [by apply Forall_fmap|].
  destruct (canonical_root_at len_of fork_length st r ds Hinv) as (tip & c & l & H1' & H2' & H3' & H4' & H5'). exists st0, st, r, tip, c, l.
  split_and!; try done. apply (bo_contents _ _ (to_root _ _ _ _ _ (si_tree _ _ _ _ _ Hinv))).
Qed.


(** C38: A dangling branch that waits for a block that is already there is stranded: whatever distinct blocks arrive afterwards, and in
    whatever order, its root stays the root of a dangling branch, so that none of its blocks joins the tree. *)
Theorem stranded_for_good st r ds y bs :
  state_inv st r ds -> y ∈ ds -> blk_parent_hash (label y).2 ∈ blk_state_hash <$> forest (r :: ds) ->
  sequence_ok bs (r :: ds) -> Forall (in_store st) bs ->
  exists st' r' ds' y', add_blocks st bs = Ok st' /\ state_inv st' r' ds' /\ y' ∈ ds' /\ (label y').2 = (label y).2.
Proof.
  intros Hinv Hy Hp Hseq Hb. apply (stranded_blocks len_of fork_length st r ds y bs); [done|done| |done|].
  - intros db E. destruct (si_store _ _ _ _ _ Hinv db E) as [Hdb _]. split; [done|]. apply Forall_fmap. eapply Forall_impl; [exact Hb|]. intros b Hin. by apply Hin.
  - apply Forall_forall. intros b Hin Hpb. destruct Hseq as [_ Hd _ _]. apply NoDup_app in Hd as (_ & Hd & _). apply (Hd (state_hash b)).
    + by apply list_elem_of_fmap_2.
    + by rewrite Hpb.
Qed.
End Properties.

(** * Examples *)

(** The first blocks of a chain: "g", then "p", "a", "b" and "c". *)
Definition pcb_example (hash parent : string) (len : Z) : PrecomputedBlock :=
  PcbV2 (mkHeader "mainnet" (letter_hash hash) len 0 (letter_hash parent) lh_default (mkSh MAINNET_GENESIS_HASH)
           0 0 pk_example pk_example pk_example false 0 0 [])
    [Some (mkDiffV2 [] [] (V2One None)); None] [] [].
Definition len_example (h : StateHash) : Z :=
  match list_find (fun x => h = letter_hash x) ["z"; "g"; "p"; "a"; "b"; "c"; "d"] with
  | Some (i, _) => Z.of_nat i
  | None => 100
  end.
Definition p_example := pcb_example "p" "g" 2.
Definition a_example := pcb_example "a" "p" 3.
Definition b_example := pcb_example "b" "a" 4.
Definition c_example := pcb_example "c" "b" 5.
Definition d_example := pcb_example "d" "c" 6.
Definition all_examples : list PrecomputedBlock := [p_example; a_example; b_example; c_example; d_example].

(** The trees of branches are determined by what the branches hold. *)
Lemma trees_of_branches `{IdTreeSpec} (l : list Branch) ds ts :
  Forall2 branch_ok l ds -> (fun d => contents (branches d)) <$> l = Some <$> ts -> ds = ts.
Proof.
  intros Hd. revert ts. induction Hd as [|d y l ds Hy _ IH]; intros [|t ts] E; try discriminate E; [done|]. csimpl in E. injection E as E1 E2.
  rewrite (bo_contents _ _ Hy) in E1. injection E1 as ->. f_equal. by apply IH.
Qed.

Section FrontierExamples.
#[local] Existing Instances nat_tree nat_tree_spec digest_example map_db map_db_spec countable_json whole_decimal sorted_iter.
#[local] Instance frontier_ledger_iter : LedgerIter :=
  {| token_iter := map_to_list; token_iter_perm l := Permutation_refl _; account_iter := map_to_list; account_iter_perm l := Permutation_refl _ |}.

(** A database with the staged ledger hashes and the heights of the blocks. *)
Definition put_known (e : StateHash * Z) (db : Db) : Db :=
  cf_put block_height_cf (sh_key e.1) (u32_be e.2) (cf_put block_staged_ledger_hash_cf (sh_key e.1) (as_bytes (lh_str lh_default)) db).
Definition known_example : list (StateHash * Z) := (letter_hash "g", 1) :: ((fun b => (state_hash b, blockchain_length b)) <$> all_examples).
Definition frontier_store : Db := foldr put_known ∅ known_example.

Lemma frontier_store_typed : well_typed frontier_store.
Proof.
  unfold frontier_store. assert (Forall (fun e => u32 e.2) known_example) as Hu by (repeat constructor; vm_compute; discriminate).
  induction Hu as [|e l He _ IH]; [apply empty_well_typed|]. cbn [foldr]. unfold put_known. apply well_typed_put; [by apply has_type_u32|]. by apply well_typed_put.
Qed.
Lemma frontier_store_known b : b ∈ letter_hash "g" :: (state_hash <$> all_examples) -> block_known frontier_store b.
Proof.
  intros Hb. repeat (apply elem_of_cons in Hb as [->|Hb]); [..|by apply elem_of_nil in Hb];
    (split; [split; vm_compute; reflexivity|]; unfold known_ledger;
     match goal with |- context [cf_get ?d ?cf ?k] => assert (cf_get d cf k = Some (as_bytes (lh_str lh_default))) as -> by (vm_compute; reflexivity) end;
     exists lh_default; eexists; split; [done|]; split; [split; vm_compute; reflexivity|]; vm_compute; reflexivity).
Qed.

Definition config_example : IndexerStateConfig :=
  config_new ∅ (mkGenesis (letter_hash "g") (letter_hash "z") 1 0 []) frontier_store MAINNET_TRANSITION_FRONTIER_K.

Lemma consistent_example b : b ∈ all_examples -> consistent len_example 359605 (block_from_precomputed b 0).
Proof.
  intros Hb. repeat (apply elem_of_cons in Hb as [->|Hb]); [..|by apply elem_of_nil in Hb];
    (split; [vm_compute; reflexivity|]; split; [vm_compute; reflexivity|];
     split; [vm_compute; split; [discriminate|reflexivity]|];
     split; intros E; [vm_compute in E; discriminate|vm_compute; reflexivity]).
Qed.

Lemma diffs_example b : b ∈ all_examples -> exists d, from_precomputed b = Ok d /\ diffs_ok d.
Proof.
  intros Hb. repeat (apply elem_of_cons in Hb as [->|Hb]); [..|by apply elem_of_nil in Hb];
    (eexists; split; [vm_compute; reflexivity|]; apply Forall_singleton; split; [split; [vm_compute; split; discriminate|done]|];
     split; [split; [apply pk_example_wf|apply token_default_wf]|done]).
Qed.

Lemma settings_example : settings_ok len_example 359605 config_example.
Proof.
  split; [|split; [apply ledger_wfb_wf; vm_compute; reflexivity|by intros pk token a E]|reflexivity|split; discriminate|discriminate..|].
  - split; [vm_compute; reflexivity|]. split; [vm_compute; reflexivity|].
    split; [vm_compute; split; [discriminate|reflexivity]|].
    split; intros E; [vm_compute in E; discriminate|vm_compute; reflexivity].
  - split; [apply frontier_store_typed|]. apply frontier_store_known. by left.
Qed.

Lemma sequence_example bs id :
  bs ⊆ all_examples -> NoDup ((state_hash <$> bs) ++ [letter_hash "g"]) -> (length bs <= 5)%nat ->
  sequence_ok len_example 359605 bs [Rose (id, genesis_block_of (cfg_genesis config_example)) []].
Proof.
  intros Hb Hnd Hl. split.
  - apply Forall_forall. intros b Hin. by apply consistent_example, Hb.
  - exact Hnd.
  - change (Z.of_nat (length bs + 1) <= U32_MAX). ints.
  - apply Forall_forall. intros b Hin. by apply diffs_example, Hb.
Qed.
Lemma known_examples bs : bs ⊆ all_examples -> Forall (fun b => block_known (cfg_indexer_store config_example) (state_hash b)) bs.
Proof. intros Hb. apply Forall_forall. intros b Hin. apply frontier_store_known. right. apply list_elem_of_fmap_2. by apply Hb. Qed.

Lemma blocks_always_processed_witness :
  exists st0 st, new_without_genesis_events config_example = Ok st0 /\ add_blocks st0 [c_example; a_example; b_example; p_example] = Ok st.
Proof.
  destruct (blocks_always_processed len_example 359605 config_example [c_example; a_example; b_example; p_example]) as (st0 & st & _ & _ & E0 & E & _).
  - exact settings_example.
  - intros id. apply sequence_example; [set_solver|apply (bool_decide_unpack _); vm_compute; done|cbn; lia].
  - apply known_examples. set_solver.
  - exists st0, st. split; [exact E0|exact E].
Defined.

Lemma canonical_root_ten_deep_witness :
  exists st0 st tip, new_without_genesis_events config_example = Ok st0 /\ add_blocks st0 [p_example; a_example] = Ok st /\ best_tip_block st = Ok tip.
Proof.
  destruct (canonical_root_ten_deep len_example 359605 config_example [p_example; a_example]) as (st0 & st & r & tip & c & l & E0 & E & _ & Et & _).
  - exact settings_example.
  - intros id. apply sequence_example; [set_solver|apply (bool_decide_unpack _); vm_compute; done|cbn; lia].
  - apply known_examples. set_solver.
  - exists st0, st, tip. split; [exact E0|]. split; [exact E|exact Et].
Defined.




(** The blocks "c", "a" and "b" arrive in this order: "b" is put above "c", although its parent "a" is there too; no later block joins the two. *)
Definition stranded_start : res IndexerState := st ← new_without_genesis_events config_example; add_blocks st [c_example; a_example; b_example].
Definition stranded_trees : res (option (rose (NodeId * Block)) * list (option (rose (NodeId * Block)))) :=
  st ← stranded_start; Ok (contents (branches (st_root_branch st)), (fun d => contents (branches d)) <$> st_dangling_branches st).
Definition root_example : rose (NodeId * Block) := Rose (1%nat, genesis_block_of (cfg_genesis config_example)) [].

Lemma stranded_trees_eq :
  exists t u, stranded_trees = Ok (Some root_example, [Some t; Some u]) /\ blk_state_hash (label t).2 = letter_hash "b" /\
    blk_parent_hash (label t).2 ∈ blk_state_hash <$> forest [root_example; t; u] /\
    blk_state_hash <$> forest [root_example; t; u] = letter_hash <$> ["g"; "b"; "c"; "a"].
Proof. do 2 eexists. split; [vm_compute; reflexivity|]. split; [reflexivity|]. split; [apply (bool_decide_unpack _); vm_compute; done|vm_compute; reflexivity]. Qed.

Lemma later_examples : [p_example; d_example] ⊆ all_examples.
Proof. set_solver. Qed.

Lemma stranded_for_good_witness :
  exists st st' r' ds' y', stranded_start = Ok st /\ add_blocks st [p_example; d_example] = Ok st' /\ state_inv len_example 359605 st' r' ds' /\
    y' ∈ ds' /\ blk_state_hash (label y').2 = letter_hash "b".
Proof.
  destruct (initial_inv len_example 359605 config_example settings_example) as (st0 & id & E0 & Est & Hinv0).
  destruct (add_blocks_spec len_example 359605 st0 _ [] [c_example; a_example; b_example] Hinv0) as (st & r & ds & E & Hinv & Hsub & Hgr).
  { apply sequence_example; [set_solver|apply (bool_decide_unpack _); vm_compute; done|cbn; lia]. }
  { rewrite Est. intros db [= <-]. split; [apply frontier_store_typed|]. apply Forall_fmap, known_examples. set_solver. }
  assert (stranded_start = Ok st) as Es by (unfold stranded_start; rewrite E0; exact E).
  destruct stranded_trees_eq as (t & u & Et & Hb & Hp & Hf). unfold stranded_trees in Et. rewrite Es in Et. cbn [mbind res_bind] in Et. injection Et as Er Ed.
  change (contents (branches (st_root_branch st)) = Some root_example) in Er.
  change ((fun d => contents (branches d)) <$> st_dangling_branches st = [Some t; Some u]) in Ed.
  pose proof (si_tree _ _ _ _ _ Hinv) as Hok.
  assert (r = root_example) as -> by (pose proof (bo_contents _ _ (to_root _ _ _ _ _ Hok)) as Hc; congruence).
  assert (ds = [t; u]) as -> by (by apply (trees_of_branches (st_dangling_branches st)); [apply (to_dangling _ _ _ _ _ Hok)|]).
  destruct (stranded_for_good len_example 359605 st root_example [t; u] t [p_example; d_example] Hinv) as (st' & r' & ds' & y' & E' & Hinv' & Hy & El).
  - by left.
  - exact Hp.
  - split; [apply Forall_forall; intros b Hin; by apply consistent_example, later_examples| | |apply Forall_forall; intros b Hin; by apply diffs_example, later_examples].
    + rewrite Hf. apply (bool_decide_unpack _). vm_compute. done.
    + apply (f_equal length) in Hf. rewrite length_fmap in Hf. rewrite Hf. vm_compute. discriminate.
  - apply Forall_forall. intros b Hin db Edb. destruct (Hgr ((fun b => state_hash b) <$> [p_example; d_example])) with (db := db) as [_ Hk]; [|done|].
    { rewrite Est. intros db0 [= <-]. split; [apply frontier_store_typed|]. apply Forall_fmap, known_examples, later_examples. }
    rewrite Forall_forall in Hk. apply Hk. by apply (list_elem_of_fmap_2 (fun b => state_hash b)).
  - exists st, st', r', ds', y'. split; [exact Es|]. split; [exact E'|]. split; [exact Hinv'|]. split; [exact Hy|]. rewrite El. exact Hb.
Defined.
End FrontierExamples.
