(* ===== verification/Server.v ===== *)
(** The tasks of the running server that share the state of the indexer (src/rust/src/server.rs, [parse_file] of
    src/rust/src/state/mod.rs, src/rust/src/unix_socket_server.rs): the guards of the read-write lock around the state that
    each of them takes and drops, in order, and what follows for the progress of all.  The lock is that of tokio: any number of
    readers or one writer, and a guard is dropped at the end of the scope that holds it.  A task may also wait for something
    that is not the lock, a client of the socket or a program it runs, while it holds a guard. *)

From S2P Require Import Prelude.

(** * Guards *)

(** Guards taken and dropped, and waits for a client or a program; [ends] says whether what is waited for ever happens. *)
Inductive LockOp := Read | DropRead | Write | DropWrite | Await (ends : bool).

(** A task: the guards it holds and what it has left to do. *)
Record Task := mkTask { held_reads : nat; held_write : bool; todo : list LockOp }.

Definition free_of_writers (ts : list Task) : Prop := Forall (fun t => held_write t = false) ts.
Definition free (ts : list Task) : Prop := Forall (fun t => held_write t = false /\ held_reads t = 0%nat) ts.

(** A guard is taken when those of all the tasks, this one too, allow it. *)
Inductive task_step (ts : list Task) : Task -> Task -> Prop :=
| take_read n w l : free_of_writers ts -> task_step ts (mkTask n w (Read :: l)) (mkTask (S n) w l)
| drop_read n w l : task_step ts (mkTask (S n) w (DropRead :: l)) (mkTask n w l)
| take_write n w l : free ts -> task_step ts (mkTask n w (Write :: l)) (mkTask n true l)
| drop_write n l : task_step ts (mkTask n true (DropWrite :: l)) (mkTask n false l)
| await n w l : task_step ts (mkTask n w (Await true :: l)) (mkTask n w l).

Inductive step (ts : list Task) : list Task -> Prop :=
| step_task i t t' : ts !! i = Some t -> task_step ts t t' -> step ts (<[i := t']> ts).

Definition start (ops : list LockOp) : Task := mkTask 0 false ops.

(** * The tasks *)

(** [IndexerState::parse_file]: the guard of the first line lives to the end; the one that is matched on lives as long as the match. *)
Definition parse_file_locks (version_changed has_store : bool) : list LockOp :=
  [Read] ++
  (if version_changed then
     [Write; DropWrite] ++ [Write; DropWrite] ++
     [Write] ++ (if has_store then [Read; DropRead] else []) ++ [DropWrite] ++
     [Write; DropWrite]
   else []) ++
  [DropRead].

(** [process_event], for the file of a block and for that of a staking ledger. *)
Definition block_event_locks (version_changed has_store parsed : bool) : list LockOp :=
  parse_file_locks version_changed has_store ++ (if parsed then [Write; DropWrite] else []).
Definition ledger_event_locks : list LockOp := [Read; DropRead; Write; DropWrite].

(** The programs are run, and waited for, under the guard: one for the new blocks, and one for each missing block, if any. *)
Definition fetch_new_blocks_locks (returns : bool) : list LockOp := [Read; Await returns; DropRead].
Definition recover_missing_blocks_locks (returns : list bool) : list LockOp := [Read] ++ (Await <$> returns) ++ [DropRead].
(** [run_indexer], when it is shut down. *)
Definition shutdown_locks : list LockOp := [Write; DropWrite].

(** What a client of the socket does: it sends a request and takes the answer; it hangs up, or its request or the answer to it is an error;
    it sends nothing; it does not take an answer that is too long for the buffer of the socket. *)
Inductive Client := Answered | Failing | Silent | Deaf.

(** [handle_connection]: the guard is taken before the request is waited for and lives until the answer is written; an error ends
    the loop. *)
Fixpoint handle_connection_locks (clients : list Client) : list LockOp :=
  match clients with
  | [] => []
  | Answered :: clients => [Read; Await true; Await true; DropRead] ++ handle_connection_locks clients
  | Failing :: _ => [Read; Await true; DropRead]
  | Silent :: clients => [Read; Await false; Await true; DropRead] ++ handle_connection_locks clients
  | Deaf :: clients => [Read; Await true; Await false; DropRead] ++ handle_connection_locks clients
  end.

Inductive Activity :=
| BlockEvent (version_changed has_store parsed : bool)
| LedgerEvent
| FetchNewBlocks (returns : bool)
| RecoverMissingBlocks (returns : list bool)
| Shutdown
| Connections (clients : list Client).

Definition locks (a : Activity) : list LockOp :=
  match a with
  | BlockEvent version_changed has_store parsed => block_event_locks version_changed has_store parsed
  | LedgerEvent => ledger_event_locks
  | FetchNewBlocks returns => fetch_new_blocks_locks returns
  | RecoverMissingBlocks returns => recover_missing_blocks_locks returns
  | Shutdown => shutdown_locks
  | Connections clients => handle_connection_locks clients
  end.

(** One thread of the server: its activities, one after the other. *)
Definition thread (activities : list Activity) : Task := start (activities ≫= locks).


(** * Progress *)

Definition finished (t : Task) : Prop := todo t = [].





(** ** The guard that is never dropped *)

(** The task that holds a guard and waits for the other kind, or for what never happens. *)
Definition waiting (t : Task) : Prop := exists l op, t = mkTask 1 false (op :: l) /\ (op = Write \/ op = Await false).

Lemma waiting_stuck ts i t : ts !! i = Some t -> waiting t -> forall t', ~ task_step ts t t'.
Proof.
  intros Hi (l & op & -> & [-> | ->]) t' Hs; [|by inversion Hs]. inversion Hs as [| |n w k Hf| |]; subst.
  pose proof (Forall_lookup_1 _ _ _ _ Hf Hi) as [_ Hn]. discriminate Hn.
Qed.
Lemma waiting_stays ts ts' i t :
  ts !! i = Some t -> waiting t -> free_of_writers ts -> step ts ts' -> ts' !! i = Some t /\ free_of_writers ts'.
Proof.
  intros Hi Hw Hf [j u u' Hj Hs]. destruct (decide (i = j)) as [<-|Hne].
  { assert (u = t) as -> by congruence. by destruct (waiting_stuck _ _ _ Hi Hw u'). }
  split; [by rewrite list_lookup_insert_ne|]. apply Forall_insert; [done|]. pose proof (Forall_lookup_1 _ _ _ _ Hf Hj) as Hu.
  destruct Hs as [n w l _|n w l|n w l Hfree|n l|n w l]; cbn in *; [done|done| |done|done].
  destruct Hw as (k & op & -> & _). pose proof (Forall_lookup_1 _ _ _ _ Hfree Hi) as [_ Hn]. discriminate Hn.
Qed.

(** A task that takes a read guard and then waits in vain never finishes, and once it has the guard no task changes the state. *)
Lemma waits_in_vain op l i ts0 ts :
  op = Write \/ op = Await false -> ts0 !! i = Some (mkTask 0 false (Read :: op :: l)) -> rtc step ts0 ts ->
  exists t, ts !! i = Some t /\ ~ finished t /\
    (held_reads t <> 0%nat -> forall ts', rtc step ts ts' -> ts' !! i = Some t /\ free_of_writers ts').
Proof.
  intros Hop Hi Hr. set (t0 := mkTask 0 false (Read :: op :: l)) in *. set (t1 := mkTask 1 false (op :: l)).
  assert (waiting t1) as Hw by (by exists l, op).
  assert (forall us us', rtc step us us' -> us !! i = Some t1 -> free_of_writers us -> us' !! i = Some t1 /\ free_of_writers us') as Hstay.
  { induction 1 as [|us1 us2 us3 Hs _ IH]; intros Hi' Hf'; [done|]. destruct (waiting_stays _ _ _ _ Hi' Hw Hf' Hs). by apply IH. }
  assert (ts !! i = Some t0 \/ (ts !! i = Some t1 /\ free_of_writers ts)) as [H|[H Hf]].
  { induction Hr as [ts|ts ts1 ts2 [j u u' Hj Hs] Hr IH]; [by left|].
    destruct (decide (i = j)) as [<-|Hne]; [|apply IH; by rewrite list_lookup_insert_ne].
    assert (u = t0) as -> by congruence. inversion Hs as [n w k Hf| | | |]; subst. right. apply (Hstay _ _ Hr).
    - apply list_lookup_insert_eq. by apply lookup_lt_Some in Hj.
    - by apply Forall_insert. }
  - exists t0. split_and!; [done|done|]. intros Hh. by destruct Hh.
  - exists t1. split_and!; [done|done|]. intros _ ts' Hr'. by apply (Hstay ts).
Qed.

(** A client that connects and sends nothing: its connection is never done with, and from the moment the guard is taken for it no
    task changes the state any more. *)
Theorem silent_client_blocks_writers clients rest i ts0 ts :
  ts0 !! i = Some (thread (Connections (Silent :: clients) :: rest)) -> rtc step ts0 ts ->
  exists t, ts !! i = Some t /\ ~ finished t /\
    (held_reads t <> 0%nat -> forall ts', rtc step ts ts' -> ts' !! i = Some t /\ free_of_writers ts').
Proof. intros Hi. eapply (waits_in_vain (Await false)); [by right|exact Hi]. Qed.

(** C28: The first block file of another version blocks the server for good: whatever other tasks there are and however they take their turns,
    the task that parses it never finishes, because it waits for a write guard while it holds a read guard itself; and from
    the moment it started no task changes the state any more. *)
Theorem version_change_blocks_server has_store parsed rest i ts0 ts :
  ts0 !! i = Some (thread (BlockEvent true has_store parsed :: rest)) -> rtc step ts0 ts ->
  exists t, ts !! i = Some t /\ ~ finished t /\
    (held_reads t <> 0%nat -> forall ts', rtc step ts ts' -> ts' !! i = Some t /\ free_of_writers ts').
Proof.
  intros Hi. eapply (waits_in_vain Write); [by left|exact Hi].
Qed.


Lemma version_change_blocks_server_witness :
  let ts0 := [thread [BlockEvent true true true; Shutdown]; thread [Connections [Answered]]] in
  let t := mkTask 1 false (drop 1 (locks (BlockEvent true true true) ++ locks Shutdown)) in
  rtc step ts0 [t; thread [Connections [Answered]]] /\
  forall ts', rtc step [t; thread [Connections [Answered]]] ts' -> ts' !! 0%nat = Some t /\ free_of_writers ts'.
Proof.
  intros ts0 t. assert (rtc step ts0 [t; thread [Connections [Answered]]]) as Hr.
  { apply rtc_once. apply (step_task ts0 0 (thread [BlockEvent true true true; Shutdown]) t); [reflexivity|]. constructor. repeat constructor. }
  split; [exact Hr|]. destruct (version_change_blocks_server true true [Shutdown] 0 ts0 [t; thread [Connections [Answered]]]) as (t' & Et & _ & H).
  - reflexivity.
  - exact Hr.
  - injection Et as <-. apply H. discriminate.
Defined.
