(* ===== verification/Genesis.v ===== *)
(** Genesis ledgers (src/rust/src/ledger/genesis.rs): the accounts of the JSON file of a genesis ledger, the ledger they make, and
    the constants of the protocol.  Reading and decompressing the file is not modelled. *)

From S2P Require Import Prelude Bytes Base Command AccountDiff Account Coinbase Precomputed LedgerDiff Ledger Supply Db.

(** * Data *)



Record ProtocolConstants := mkConstants {
  pc_k : option Z;
  pc_slots_per_epoch : option Z;
  pc_slots_per_sub_window : option Z;
  pc_delta : option Z;
  pc_txpool_max_size : option Z
}.

(** * Protocol constants *)

Definition MAINNET_SLOTS_PER_SUB_WINDOW : Z := 7.
Definition MAINNET_DELTA : Z := 0.
Definition MAINNET_TXPOOL_MAX_SIZE : Z := 3000.
Definition GENESIS_TRANSITION_FRONTIER_K : Z := 290.

Definition constants_default : ProtocolConstants :=
  mkConstants (Some GENESIS_TRANSITION_FRONTIER_K) (Some MAINNET_EPOCH_SLOT_COUNT) (Some MAINNET_SLOTS_PER_SUB_WINDOW) (Some MAINNET_DELTA)
    (Some MAINNET_TXPOOL_MAX_SIZE).

Definition override_with (self constants : ProtocolConstants) : ProtocolConstants :=
  mkConstants (option_or (pc_k constants) (pc_k self)) (option_or (pc_slots_per_epoch constants) (pc_slots_per_epoch self))
    (option_or (pc_slots_per_sub_window constants) (pc_slots_per_sub_window self)) (option_or (pc_delta constants) (pc_delta self))
    (option_or (pc_txpool_max_size constants) (pc_txpool_max_size self)).

(** [from_path]: the constants of the file, if there is one that can be read. *)
Definition constants_from_path (file : option (res ProtocolConstants)) : ProtocolConstants :=
  match file with Some (Ok constants) => override_with constants_default constants | _ => constants_default end.

(** * Ledgers *)

Section Genesis.
Context `{Decimal} (bs58_encode_check : Z -> list Z -> string).




End Genesis.

(** * The accounts of a genesis ledger *)

Section Accounts.
Context `{Decimal} (bs58_encode_check : Z -> list Z -> string).
Implicit Types (l : TokenLedger) (a : Account).









End Accounts.

(** * Witness *)

