(* ===== verification/Ingest.v ===== *)
(** Ingestion of a chain (src/rust/src/state/mod.rs, [initialize_with_canonical_chain_discovery]): a block that is added to the
    store, made the best block and recorded as canonical extends the chain that all the stores follow.  The file puts together
    what [add_block] writes with the invariant of the best tip. *)

From S2P Require Import Prelude Sorting Bytes Base StoreKeys Command AccountDiff Account Coinbase Precomputed Signed LedgerDiff Ledger BlockOrder InternalCommand Discovery Rose Branch WitnessTree Growth ColumnFamilies Db Events Codes BlockCodes Schema BlockIndex Usernames InternalStore CommandStore Canonicity Reorg SnarkStore SnarkLists ProverFees BestLedger StagedStore Staking StakingStore Parser Pipeline BlockStore BestTip.

(** * What adding a block leaves alone *)

(** The families that [add_block] writes to before its event, and its keys of the default family. *)
Definition add_families : list string :=
  List.filter (fun cf => negb (String.eqb cf default_cf))
    (index_families ++ user_families ++ block_internal_command_counts_cf :: count_families ++ internal_batch_families ++ slot_families ++ snark_families ++ [block_comparison_cf]).
Definition add_keys : list (list Z) :=
  [TOTAL_NUM_BLOCKS_KEY; TOTAL_NUM_BLOCKS_SUPERCHARGED_KEY; TOTAL_NUM_USER_COMMANDS_KEY; TOTAL_NUM_APPLIED_USER_COMMANDS_KEY;
   TOTAL_NUM_FAILED_USER_COMMANDS_KEY; TOTAL_NUM_FEE_TRANSFERS_KEY; TOTAL_NUM_SNARKS_KEY; NUM_BLOCK_BYTES_PROCESSED].

(** What holds of the value of a computation that returns one. *)
Definition yields {A} (Q : A -> Prop) (r : res A) : Prop := forall a, r = Ok a -> Q a.

Lemma yields_ok {A} (Q : A -> Prop) a : Q a -> yields Q (Ok a).
Proof. by intros HQ b [= <-]. Qed.
Lemma yields_bind {A B} (P : A -> Prop) (Q : B -> Prop) r (k : A -> res B) :
  yields P r -> (forall a, P a -> yields Q (k a)) -> yields Q (r ≫= k).
Proof. intros HP HQ b E. destruct r as [a| |]; [|done..]. cbn [mbind res_bind] in E. by eapply HQ; [apply HP|]. Qed.
Lemma yields_pure {A B} (Q : B -> Prop) (r : res A) (k : A -> res B) : (forall a, yields Q (k a)) -> yields Q (r ≫= k).
Proof. intros HQ. by apply (yields_bind (fun _ => True)). Qed.
Lemma yields_mapM {A B} (P : B -> Prop) (f : A -> res B) l : (forall a, yields P (f a)) -> yields (Forall P) (mapM f l).
Proof.
  intros Hf. induction l as [|a l IH]; [apply yields_ok; constructor|]. cbn [mapM]. eapply yields_bind; [apply Hf|]. intros b Hb.
  eapply yields_bind; [exact IH|]. intros bs Hbs. apply yields_ok. by constructor.
Qed.
Lemma yields_foldM {A B} (P : A -> Prop) (f : A -> B -> res A) a l :
  P a -> (forall a b, P a -> yields P (f a b)) -> yields P (foldM f a l).
Proof.
  intros Ha Hf. revert a Ha. induction l as [|b l IH]; intros a Ha; [by apply yields_ok|]. cbn [foldM]. eapply yields_bind; [by apply Hf|]. intros a' Ha'. by apply IH.
Qed.

Section Scope.
Context `{SpeedbSpec} `{Decimal} `{HashMapIter} `{Blake2b} `{TxnHasher} `{SortBy BlockComparison}.
Context `{Json PrecomputedBlock} `{Json LedgerDiff} `{Json PcbVersion} `{Json BlockComparison} `{Json (list Z)}.
Context `{Json (list StateHash)} `{Json UsernameUpdate} `{Json (list UserCommandWithStatus)} `{Json SignedCommandWithData}.
Context `{Json (list SignedCommandWithData)} `{Json DbInternalCommandWithData} `{Json SnarkWorkSummary}.
Context `{Json SnarkWorkSummaryWithStateHash} `{Json IndexerEvent}.
Implicit Types (db : Db) (block : PrecomputedBlock) (b : WriteBatch).

Notation added := (kept add_families add_keys).
Definition add_scope (cf : string) (k : list Z) : Prop := in_scope add_families add_keys cf k = true.
(** A batch of such writes. *)
Definition scoped b : Prop := Forall (fun w => add_scope (op_cf w) (op_key w)) b.

Lemma added_put cf k v db0 db : added db0 db -> add_scope cf k -> added db0 (cf_put cf k v db).
Proof. intros Ha Hs. eapply kept_trans; [exact Ha|by apply kept_put]. Qed.
Lemma added_write b db0 db : added db0 db -> scoped b -> added db0 (write b db).
Proof.
  intros Ha Hb cf k Hk. rewrite write_get, last_write_none; [by apply Ha|]. eapply Forall_impl; [exact Hb|]. intros w Hw [= <- <-].
  unfold add_scope in Hw. congruence.
Qed.
Lemma family_scope cf k : family_in add_families cf = true -> add_scope cf k.
Proof. intros Hcf. unfold add_scope, in_scope. by rewrite Hcf. Qed.
Lemma scoped_concat bs : Forall scoped bs -> scoped (concat bs).
Proof. apply Forall_concat. Qed.
Lemma scoped_app b1 b2 : scoped b1 -> scoped b2 -> scoped (b1 ++ b2).
Proof. apply Forall_app_2. Qed.
Lemma scoped_nil : scoped [].
Proof. constructor. Qed.
Lemma scoped_cons w b : add_scope (op_cf w) (op_key w) -> scoped b -> scoped (w :: b).
Proof. by constructor. Qed.

(** Every way through a computation ends in writes within the scope. *)
Ltac scope :=
  repeat first
    [ progress intros
    | apply yields_ok
    | apply yields_pure
    | apply added_put; [|reflexivity]
    | apply scoped_nil
    | apply scoped_cons; [reflexivity|]
    | apply scoped_app
    | assumption
    | match goal with |- context [if ?c then _ else _] => destruct c end ].

Lemma user_counts_scope c epoch db0 db : added db0 db -> yields (added db0) (increment_user_commands_counts c epoch db).
Proof.
  assert (forall e pk db, added db0 db -> yields (added db0) (increment_pk_counts e db pk)) as Hpk.
  { intros e pk d Hd. eapply (yields_bind (added db0)); [|intros d' Hd']; scope. }
  intros Ha. unfold increment_user_commands_counts. eapply (yields_bind (added db0)); [|intros db1 H1'].
  { unfold increment_applied_user_commands_count, increment_failed_user_commands_count, add_count. destruct (is_applied c); scope. }
  eapply (yields_bind (added db0)); [by apply Hpk|intros db2 H2']. eapply (yields_bind (added db0)); [|intros db3 H3'].
  { apply yields_foldM; [done|]. intros d r Hd. destruct (bool_decide _); [by apply Hpk|by apply yields_ok]. }
  eapply (yields_bind (added db0)); [|intros db4 H4']; scope.
Qed.

Definition scoped_pair db0 (s : WriteBatch * Db) : Prop := scoped s.1 /\ added db0 s.2.

Lemma pk_sort_scope height_cf slot_cf block c t pk :
  family_in add_families height_cf = true -> family_in add_families slot_cf = true -> yields scoped (pk_sort_batch height_cf slot_cf block c t pk).
Proof. intros H1' H2'. unfold pk_sort_batch. scope; repeat (apply scoped_cons; [by apply family_scope|]); apply scoped_nil. Qed.

Lemma add_user_command_scope block c db0 s : scoped_pair db0 s -> yields (scoped_pair db0) (add_user_command block s c).
Proof.
  destruct s as [b db]. intros [Hb Hd]. unfold add_user_command. apply yields_pure. intros t. apply yields_pure. intros key. apply yields_pure. intros data.
  eapply (yields_bind scoped); [unfold set_user_command_state_hash_batch; scope|]. intros hashes Hh.
  apply yields_pure. intros k1. apply yields_pure. intros k2. eapply (yields_bind (added db0)); [by apply user_counts_scope|]. intros db1 H1'.
  eapply (yields_bind scoped); [by apply pk_sort_scope|]. intros from Hf. eapply (yields_bind (Forall scoped)); [by apply yields_mapM; intros; apply pk_sort_scope|]. intros to Hto.
  apply scoped_concat in Hto. apply yields_ok. split; [|done]. scope.
Qed.

Lemma add_user_commands_scope block db0 db : added db0 db -> yields (scoped_pair db0) (add_user_commands_batch block db).
Proof.
  intros Hd. unfold add_user_commands_batch. apply yields_pure. intros cmds. eapply (yields_bind scoped); [unfold set_block_user_commands_batch; scope|].
  intros b1 Hb1. apply yields_pure. intros updates. eapply yields_bind; [apply (yields_foldM (scoped_pair db0))|].
  - split; [|done]. cbn [fst]. unfold set_block_user_commands_count_batch, set_block_username_updates_batch. scope.
  - intros s c Hs. by apply add_user_command_scope.
  - intros [b db1] [Hb H1']. apply yields_pure. intros pks. eapply (yields_bind (Forall scoped)).
    + apply yields_mapM. intros pk. unfold add_pk_commands. apply yields_pure. intros n. apply yields_pure. intros [|x l]; scope.
    + intros bs Hbs%scoped_concat. apply yields_ok. split; [|done]. by apply scoped_app.
Qed.

Lemma add_internal_commands_scope block db0 db : added db0 db -> yields (scoped_pair db0) (add_internal_commands_batch block db).
Proof.
  intros Hd. unfold add_internal_commands_batch. apply yields_pure. intros cmds. eapply (yields_bind (added db0)).
  { unfold increment_internal_commands_total_count, add_count. scope. }
  intros db1 H1'. eapply (yields_bind (added db0)).
  - apply yields_foldM; [done|]. intros d [i c] Hd'. unfold add_internal_command. eapply (yields_bind (added db0)).
    { unfold increment_internal_commands_counts. cbn [snd]. destruct c; [|by apply yields_ok]. eapply (yields_bind (added db0)); [scope|]. intros d1 Hd1.
      eapply (yields_bind (added db0)); [unfold increment_internal_commands_pk_total_count, add_count; scope|]. scope. }
    intros d1 Hd1. eapply (yields_bind (added db0)); [unfold set_block_internal_command; scope|]. intros d2 Hd2.
    eapply (yields_bind (added db0)); [unfold set_pk_internal_command; scope|]. scope.
  - intros db2 H2'. apply yields_ok. split; [|done]. unfold set_block_internal_commands_count_batch. scope.
Qed.

Lemma add_snark_work_scope block db0 db : added db0 db -> yields (added db0) (add_snark_work block db).
Proof.
  intros Hd. unfold add_snark_work. apply yields_pure. intros works. eapply (yields_bind (fun s => added db0 s.2)).
  - apply (yields_foldM (fun s => added db0 s.2)); [unfold set_block_snarks_count; scope|]. intros s e Hs. unfold add_block_snark. scope.
  - intros s Hs. apply yields_pure. intros provers. apply yields_foldM; [done|]. intros d pk Hd'. apply yields_pure. intros n.
    apply yields_foldM; [done|]. intros d1 e Hd1. unfold add_prover_snark. apply yields_pure. intros k. destruct (cf_get _ _ _); [by apply yields_ok|].
    apply yields_pure. intros k'. eapply (yields_bind (added db0)); [unfold set_snark_by_prover_block_height; scope|]. intros d2 Hd2.
    eapply (yields_bind (added db0)); [unfold set_snark_by_prover_global_slot; scope|]. intros d3 Hd3. unfold increment_snarks_counts.
    eapply (yields_bind (added db0)); [scope|]. intros d4 Hd4. eapply (yields_bind (added db0)); [scope|]. intros d5 Hd5.
    eapply (yields_bind (added db0)); [scope|]. scope.
Qed.

Lemma production_scope block db : yields scoped (increment_block_production_count_batch db block).
Proof. unfold increment_block_production_count_batch. scope. Qed.

Lemma block_indices_scope block n diff production db : scoped production -> yields scoped (block_indices_batch block n diff production db).
Proof.
  intros Hp. unfold block_indices_batch. eapply (yields_bind scoped).
  { unfold set_block_height_global_slot_pair_batch. scope; destruct (add_sorted _ _); scope. }
  intros pair Hpair. eapply (yields_bind scoped); [unfold set_block_creator_batch; scope|]. intros creator Hc.
  eapply (yields_bind scoped); [unfold set_coinbase_receiver_batch; scope|]. intros receiver Hr. apply yields_pure. intros hk. apply yields_pure. intros sk.
  apply yields_pure. intros pks. eapply (yields_bind (Forall scoped)); [apply yields_mapM; intros pk; unfold add_block_at_public_key_batch; scope|].
  intros at_pks Hpks%scoped_concat. eapply (yields_bind scoped); [unfold add_block_at_height_batch; scope|]. intros ah Hah.
  eapply (yields_bind scoped); [unfold add_block_at_slot_batch; scope|]. intros asl Has. apply yields_ok. unfold indices_list.
  unfold set_block_ledger_diff_batch, set_block_epoch_batch, set_block_height_batch, set_block_global_slot_batch, set_block_parent_hash_batch,
    set_block_date_time_batch, set_block_staged_ledger_hash_batch, set_block_genesis_state_hash_batch, set_block_version_batch. scope.
Qed.

Lemma add_slots_scope epoch slot pk db0 db : added db0 db -> yields (added db0) (add_epoch_slots_produced epoch slot pk db).
Proof.
  intros Hd. unfold add_epoch_slots_produced. apply yields_pure. intros k. eapply (yields_bind (added db0)); [destruct (cf_get _ _ _); scope|].
  intros db1 H1'. apply yields_pure. intros k'. destruct (cf_get _ _ _); scope.
Qed.

(** A block that is new is written within this scope, then announced. *)
Lemma add_block_scope block n db :
  cf_get db blocks_state_hash_cf (sh_key (state_hash block)) = None ->
  yields (fun r => exists db6 z, added db db6 /\
    add_event (EventDb (DbBlock (NewBlock (state_hash block) (blockchain_length block)))) db6 = Ok (z, r.2)) (add_block block n db).
Proof.
  intros Hnew. unfold add_block. rewrite Hnew. apply yields_pure. intros diff.
  eapply (yields_bind scoped); [apply production_scope|]. intros production Hp. set (db1 := set_block_comparison_batch _ _ db).
  assert (added db db1) as H1' by (unfold db1, set_block_comparison_batch; by apply added_put).
  eapply (yields_bind scoped); [by apply block_indices_scope|]. intros indices Hi.
  eapply (yields_bind (scoped_pair db)); [by apply add_user_commands_scope|]. intros [ub db2] [Hub H2'].
  eapply (yields_bind (scoped_pair db)); [by apply add_internal_commands_scope|]. intros [ib db3] [Hib H3'].
  eapply (yields_bind (added db)); [apply add_slots_scope, added_write; [done|by repeat apply scoped_app]|]. intros db4 H4'.
  eapply (yields_bind (added db)); [by apply add_snark_work_scope|]. intros db5 H5'. apply yields_pure. intros bytes.
  set (db6 := cf_put default_cf NUM_BLOCK_BYTES_PROCESSED _ db5). assert (added db db6) as H6' by (by apply added_put).
  destruct (add_event _ db6) as [[z db7]| |] eqn:E; [|done..]. cbn [mbind res_bind]. apply yields_ok. by exists db6, z.
Qed.
End Scope.

(** * The contents of a block that was added *)

Section Contents.
Context `{SpeedbSpec} `{Decimal} `{HashMapIter} `{Blake2b} `{TxnHasher} `{SortBy BlockComparison}.
Context `{JsonSpec PrecomputedBlock} `{JsonSpec LedgerDiff} `{JsonSpec PcbVersion} `{JsonSpec BlockComparison} `{JsonSpec (list Z)}.
Context `{Json (list StateHash)} `{JsonSpec UsernameUpdate} `{JsonSpec (list UserCommandWithStatus)} `{Json SignedCommandWithData}.
Context `{Json (list SignedCommandWithData)} `{InternalJson} `{JsonSpec SnarkWorkSummary}.
Context `{JsonSpec SnarkWorkSummaryWithStateHash} `{Json SnarkFees} `{Json IndexerEvent}.
Implicit Types (db : Db) (h : StateHash) (block : PrecomputedBlock) (b : WriteBatch).

(** The families are read as before. *)
Definition same (cfs : list string) db0 db : Prop := forall cf k, family_in cfs cf = true -> cf_get db cf k = cf_get db0 cf k.

Lemma same_put cfs cf k v db0 db : same cfs db0 db -> family_in cfs cf = false -> same cfs db0 (cf_put cf k v db).
Proof. intros Hs Hcf cf' k' Hk. rewrite cf_get_put, decide_False; [by apply Hs|]. intros [= -> _]. congruence. Qed.
Lemma same_refl cfs db : same cfs db db.
Proof. done. Qed.

Ltac steady :=
  repeat first
    [ progress intros
    | apply yields_ok
    | apply yields_pure
    | apply same_put; [|reflexivity]
    | apply same_refl
    | assumption
    | match goal with |- context [if ?c then _ else _] => destruct c end ].

(** ** SNARK work *)

Definition work_reads : list string := [block_snark_counts_cf; snarks_cf].

Lemma add_prover_snarks_same block works db0 db pk : same work_reads db0 db -> yields (same work_reads db0) (add_prover_snarks block works db pk).
Proof.
  intros Hs. apply yields_pure. intros n. apply yields_foldM; [done|]. intros d e Hd. unfold add_prover_snark. apply yields_pure. intros k.
  destruct (cf_get _ _ _); [by apply yields_ok|]. apply yields_pure. intros k'.
  eapply (yields_bind (same work_reads db0)); [unfold set_snark_by_prover_block_height; steady|]. intros d1 Hd1.
  eapply (yields_bind (same work_reads db0)); [unfold set_snark_by_prover_global_slot; steady|]. intros d2 Hd2. unfold increment_snarks_counts.
  do 3 (eapply (yields_bind (same work_reads db0)); [steady|intros]). steady.
Qed.

(** The works of the block are read back, whatever its provers have. *)
Lemma add_snark_work_reads block works provers db db' :
  completed_works block = Ok works -> prover_keys block = Ok provers -> well_typed db -> sh_wf (state_hash block) ->
  Forall pk_wf provers -> Z.of_nat (length works) <= U32_MAX -> add_snark_work block db = Ok db' ->
  get_block_snark_work db' (state_hash block) = Ok (Some works).
Proof.
  intros Ew Ep Hdb Hh Hpks Hlen E. unfold add_snark_work in E. rewrite Ew in E. cbn [mbind res_bind] in E.
  destruct (prover_keys_spec block works Ew) as (provers' & Ep' & _ & Hin). assert (provers' = provers) as -> by congruence.
  rewrite Forall_forall in Hpks. rewrite wrap32_id in E by ints. unfold set_block_snarks_count in E. set (db0 := cf_put block_snark_counts_cf _ _ db) in E.
  assert (well_typed db0) as Hdb0 by (apply well_typed_put; [apply (has_type_u32 _); ints|done]).
  destruct (add_block_snarks_loop block works 0 ∅ db0 Hdb0 Hh) as (m & db1 & E1 & Hdb1 & Hw1 & Hg1 & _); [|done|].
  { apply Forall_forall. intros s Hs. by apply Hpks, Hin. }
  unfold enumerate in E. rewrite E1 in E. cbn [mbind res_bind snd] in E. rewrite Ep in E. cbn [mbind res_bind] in E.
  assert (same work_reads db1 db') as Hs.
  { revert E. apply (yields_foldM (same work_reads db1)); [apply same_refl|]. intros d pk. by apply add_prover_snarks_same. }
  apply get_block_works_eq; [done|done| |].
  - rewrite Hs, (writes_get _ _ _ _ _ Hw1) by done. unfold db0. by get_put.
  - intros i s Hi. rewrite Hs by done. by apply Hg1.
Qed.

(** ** Internal commands *)

Lemma add_internal_command_reads block db i c :
  sh_wf (state_hash block) ->
  yields (fun db' => forall k, cf_get db' internal_commands_cf k =
    if decide (k = sh_index (state_hash block) (Z.of_nat i)) then Some (to_json c) else cf_get db internal_commands_cf k)
    (add_internal_command block db (i, c)).
Proof.
  intros Hh. unfold add_internal_command. cbn [fst snd]. eapply (yields_bind (same [internal_commands_cf] db)).
  { unfold increment_internal_commands_counts. destruct c; [|by apply yields_ok]. eapply (yields_bind (same [internal_commands_cf] db)); [steady|]. intros d1 Hd1.
    eapply (yields_bind (same [internal_commands_cf] db)); [unfold increment_internal_commands_pk_total_count, add_count; steady|]. steady. }
  intros db1 H1'. eapply (yields_bind (same [internal_commands_cf] (cf_put internal_commands_cf (sh_index (state_hash block) (Z.of_nat i)) (to_json c) db1))).
  { unfold set_block_internal_command. rewrite block_key_ok by done. cbn [mbind res_bind]. steady. }
  intros db2 H2'. eapply (yields_bind (same [internal_commands_cf] db2)); [unfold set_pk_internal_command; steady|]. intros db3 H3'.
  apply yields_pure. intros k1. apply yields_pure. intros k2. apply yields_ok. intros k. get_put. rewrite H3', H2' by done.
  rewrite cf_get_put, H1' by done. destruct (decide (k = _)) as [->|Hne]; [by rewrite decide_True|by rewrite decide_False by congruence].
Qed.

Lemma add_internal_loop_reads block cmds n db :
  sh_wf (state_hash block) -> Z.of_nat (n + length cmds) <= U32_MAX ->
  yields (fun db' => (forall i c, cmds !! i = Some c -> cf_get db' internal_commands_cf (sh_index (state_hash block) (Z.of_nat (n + i))) = Some (to_json c)) /\
    forall k, (forall i, (n <= i < n + length cmds)%nat -> k <> sh_index (state_hash block) (Z.of_nat i)) ->
      cf_get db' internal_commands_cf k = cf_get db internal_commands_cf k)
    (foldM (add_internal_command block) db (zip (seq n (length cmds)) cmds)).
Proof.
  intros Hh. revert n db. induction cmds as [|c cmds IH]; intros n db Hn; [by apply yields_ok|]. cbn [length seq zip zip_with foldM] in *.
  eapply yields_bind; [by apply add_internal_command_reads|]. intros db1 H1'. intros db' E.
  destruct (IH (S n) db1 ltac:(lia) db' E) as (Hg & Hk). split.
  - intros [|i] c' Hi; [|rewrite <- Nat.add_succ_comm; by apply Hg]. injection Hi as <-. rewrite Nat.add_0_r, Hk, H1', decide_True; [done|done|].
    intros i Hi E'. apply sh_index_inj in E' as [_ E']; [lia|done|done|ints|ints].
  - intros k Hne. rewrite Hk by (intros i Hi; apply Hne; lia). rewrite H1', decide_False; [done|]. apply Hne. lia.
Qed.

(** ** User commands *)

Definition user_reads : list string := [user_commands_per_block_cf; block_user_command_counts_cf; usernames_per_block_cf].
(** Writes to other families, and the hashes of blocks only at those of the transactions. *)
Definition user_write (cmds : list UserCommandWithStatus) (w : WriteOp) : Prop :=
  family_in user_reads (op_cf w) = false /\
  (op_cf w = user_command_state_hashes_cf -> exists c t, c ∈ cmds /\ hash_signed_command (signed_of c) = Ok t /\ op_key w = txn_key t).

Lemma user_write_other cmds w : family_in (user_command_state_hashes_cf :: user_reads) (op_cf w) = false -> user_write cmds w.
Proof.
  intros Hw. unfold family_in in Hw. cbn [existsb] in Hw. apply orb_false_iff in Hw as [Hne Hr]. split; [done|]. intros E. rewrite E in Hne. done.
Qed.
Lemma user_write_all cmds (b : WriteBatch) :
  forallb (fun w => negb (family_in (user_command_state_hashes_cf :: user_reads) (op_cf w))) b = true -> Forall (user_write cmds) b.
Proof. rewrite forallb_forall. intros Hb. apply Forall_forall. intros w Hw%list_elem_of_In. apply user_write_other, negb_true_iff. by apply Hb. Qed.

Lemma add_user_command_writes block cmds b db c :
  c ∈ cmds -> yields (fun s => exists rest, s.1 = b ++ rest /\ Forall (user_write cmds) rest) (add_user_command block (b, db) c).
Proof.
  intros Hc. unfold add_user_command. destruct (hash_signed_command (signed_of c)) as [t| |] eqn:Et; [|done..]. cbn [mbind res_bind].
  apply yields_pure. intros key. apply yields_pure. intros data. eapply (yields_bind (Forall (user_write cmds))).
  { unfold set_user_command_state_hash_batch. apply yields_pure. intros known. apply yields_pure. intros cmps. apply yields_pure. intros sorted. apply yields_ok.
    constructor; [by apply user_write_other|]. constructor; [|constructor]. split; [done|]. intros _. by exists c, t. }
  intros hashes Hh. apply yields_pure. intros k1. apply yields_pure. intros k2. apply yields_pure. intros db1.
  assert (forall cf1 cf2 pk, negb (family_in (user_command_state_hashes_cf :: user_reads) cf1) = true ->
    negb (family_in (user_command_state_hashes_cf :: user_reads) cf2) = true ->
    yields (Forall (user_write cmds)) (pk_sort_batch cf1 cf2 block c t pk)) as Hpk.
  { intros cf1 cf2 pk Hc1 Hc2. unfold pk_sort_batch. do 2 (apply yields_pure; intros). apply yields_ok, user_write_all. cbn [forallb op_cf]. by rewrite Hc1, Hc2. }
  eapply (yields_bind (Forall (user_write cmds))); [by apply Hpk|]. intros from Hf.
  eapply (yields_bind (Forall (Forall (user_write cmds)))); [apply yields_mapM; intros; by apply Hpk|]. intros to Hto%Forall_concat.
  apply yields_ok. eexists. split; [done|]. repeat apply Forall_app_2; [by apply user_write_all|done|by apply user_write_all|done|done].
Qed.

Lemma add_user_commands_writes block cmds updates db :
  commands block = Ok cmds -> username_updates block = Ok updates ->
  yields (fun s => exists rest, s.1 = [Put user_commands_per_block_cf (sh_key (state_hash block)) (to_json cmds);
      Put block_user_command_counts_cf (sh_key (state_hash block)) (u32_be (wrap32 (Z.of_nat (length cmds))));
      Put usernames_per_block_cf (sh_key (state_hash block)) (to_json updates)] ++ rest /\
    Forall (user_write cmds) rest) (add_user_commands_batch block db).
Proof.
  intros Ec Eu. unfold add_user_commands_batch, set_block_user_commands_batch. rewrite Ec, Eu. cbn [mbind res_bind].
  unfold set_block_user_commands_count_batch, set_block_username_updates_batch. cbn [app]. set (b0 := [Put user_commands_per_block_cf _ _; _; _]).
  assert (forall l s, (forall c, c ∈ l -> c ∈ cmds) -> (exists rest, s.1 = b0 ++ rest /\ Forall (user_write cmds) rest) ->
    yields (fun s => exists rest, s.1 = b0 ++ rest /\ Forall (user_write cmds) rest) (foldM (add_user_command block) s l)) as Hloop.
  { induction l as [|c l IH]; intros s Hin Hs; [by apply yields_ok|]. cbn [foldM]. destruct s as [b d]. destruct Hs as (rest & Eb & Hr). cbn [fst] in Eb. subst b.
    eapply yields_bind; [apply (add_user_command_writes block cmds); apply Hin; by left|]. intros s (rest' & Es & Hr'). apply IH; [intros; apply Hin; by right|].
    exists (rest ++ rest'). rewrite Es, app_assoc. split; [done|]. by apply Forall_app_2. }
  eapply yields_bind; [apply Hloop; [done|]; exists []; split; [by rewrite app_nil_r|constructor]|]. intros s (rest & Es & Hr).
  apply yields_pure. intros pks. eapply (yields_bind (Forall (Forall (user_write cmds)))).
  - apply yields_mapM. intros pk. unfold add_pk_commands. apply yields_pure. intros n. apply yields_pure. intros [|x l]; apply yields_ok; by apply user_write_all.
  - intros bs Hbs%Forall_concat. apply yields_ok. cbn [fst]. rewrite Es. exists (rest ++ concat bs). rewrite <- app_assoc. split; [done|]. by apply Forall_app_2.
Qed.

(** ** The block as a whole *)

(** What the store keeps of a block. *)
Definition contents_of block : res BlockContents :=
  diff ← from_precomputed block;
  works ← completed_works block;
  names ← username_updates block;
  user ← commands block;
  internal ← with_data_from_precomputed block;
  Ok (mkContents diff works names user (untagged <$> internal)).

Definition stored_of block : Stored :=
  mkStored (state_hash block) (previous_state_hash block) (blockchain_length block) (global_slot_since_genesis block) (block_creator block)
    (epoch_count block).

Lemma contents_of_inv block c :
  contents_of block = Ok c ->
  exists internal, from_precomputed block = Ok (bc_diff c) /\ completed_works block = Ok (bc_works c) /\ username_updates block = Ok (bc_names c) /\
    commands block = Ok (bc_user c) /\ with_data_from_precomputed block = Ok internal /\ bc_internal c = untagged <$> internal.
Proof.
  unfold contents_of. intros E. inv_ok E. inv_ok E. inv_ok E. inv_ok E. inv_ok E. injection E as <-. eexists. cbn. by split_and!.
Qed.

(** The value of a family in which only the user commands or the internal commands wrote. *)
Lemma steps_get block n db diff b ub ib dbu db2 db4 db5 db3 cf k :
  add_steps block n db diff b ub ib dbu db2 db4 db5 db3 ->
  family_in (index_families ++ later_families ++ [block_internal_command_counts_cf; block_comparison_cf] ++ count_families ++ internal_batch_families) cf = false ->
  cf_get db3 cf k = match last_write ub cf k with Some o => o | None => cf_get db cf k end.
Proof.
  intros Hs Hcf. destruct Hs. unfold later_families in Hcf. rewrite !family_in_app, !orb_false_iff in Hcf. destruct Hcf as (Hi & (Hsl & Hsn & Hde) & Hb & Hc & Hib).
  rewrite (writes_get _ _ _ _ _ as_later), (writes_get _ _ _ _ _ as_snark_writes), (writes_get _ _ _ _ _ as_slots) by done.
  rewrite write_get, !last_write_app, (batch_ok_outside _ b _ _ (io_ok _ _ _ _ _ as_indices)) by done.
  unfold family_in in Hb. cbn [existsb] in Hb. rewrite !orb_false_iff in Hb. destruct Hb as (Hb1 & Hb2 & _).
  rewrite (batch_ok_outside _ ib _ _ as_internal_ok) by (unfold family_in; cbn [existsb]; by rewrite Hb1).
  rewrite (writes_get _ _ _ _ _ as_internal_writes), (writes_get _ _ _ _ _ as_user_writes) by done. unfold set_block_comparison_batch.
  rewrite cf_get_put, decide_False; [by destruct (last_write ub cf k)|]. intros [= -> _]. by rewrite String.eqb_refl in Hb2.
Qed.

(** The value of a family of the indices. *)
Lemma steps_index block n db diff b ub ib dbu db2 db4 db5 db3 cf k :
  add_steps block n db diff b ub ib dbu db2 db4 db5 db3 -> only_index cf = true ->
  cf_get db3 cf k = match last_write b cf k with Some o => o | None => cf_get db cf k end.
Proof.
  intros Hs Hcf. destruct Hs. apply (added_get block db _ db2 db3 b ub ib cf k eq_refl); [done|done| | |done].
  - eapply writes_in_trans; (eapply subset_families; [eassumption|reflexivity]).
  - eapply writes_in_trans; [eapply subset_families; [eassumption|reflexivity]|]. eapply writes_in_trans; (eapply subset_families; [eassumption|reflexivity]).
Qed.

Lemma user_write_none cmds (rest : WriteBatch) cf k :
  Forall (user_write cmds) rest -> family_in user_reads cf = true -> last_write rest cf k = None.
Proof. intros Hr Hcf. apply last_write_none. eapply Forall_impl; [exact Hr|]. intros w [Hw _] [= Ecf _]. congruence. Qed.

(** The internal commands of the block. *)
Lemma steps_internal block n db diff b ub ib dbu db2 db4 db5 db3 internal :
  add_steps block n db diff b ub ib dbu db2 db4 db5 db3 -> with_data_from_precomputed block = Ok internal -> sh_wf (state_hash block) ->
  Z.of_nat (length internal) <= U32_MAX -> get_internal_commands db3 (state_hash block) = Ok (untagged <$> internal).
Proof.
  intros Hs Ei Hh Hlen. destruct Hs. unfold add_internal_commands_batch in as_internal. rewrite Ei in as_internal. cbn [mbind res_bind] in as_internal.
  rewrite wrap32_id in as_internal by ints. inv_ok as_internal. inv_ok as_internal. injection as_internal as <- <-.
  unfold enumerate in E0. apply add_internal_loop_reads in E0 as [Hg _]; [|done|done]. apply get_internal_commands_eq; [done|done| |].
  - rewrite (writes_get _ _ _ _ _ as_later), (writes_get _ _ _ _ _ as_snark_writes), (writes_get _ _ _ _ _ as_slots), write_get, !last_write_app by done.
    cbn [set_block_internal_commands_count_batch last_write op_cf op_key op_value]. by rewrite decide_True.
  - intros i c Hi. rewrite (writes_get _ _ _ _ _ as_later), (writes_get _ _ _ _ _ as_snark_writes), (writes_get _ _ _ _ _ as_slots), write_get, !last_write_app by done.
    rewrite (batch_ok_outside _ _ _ _ as_internal_ok), (batch_ok_outside _ ub _ _ as_user_ok), (batch_ok_outside _ b _ _ (io_ok _ _ _ _ _ as_indices)) by done.
    by apply Hg.
Qed.

Lemma add_block_holds block th sorted n db c diff b ub ib dbu db2 db4 db5 db3 :
  valid_block block th sorted db -> contents_of block = Ok c -> Z.of_nat (length (bc_internal c)) <= U32_MAX ->
  add_steps block n db diff b ub ib dbu db2 db4 db5 db3 ->
  holds db3 (state_hash block) c /\
  forall t, txn_wf t -> (forall u, u ∈ bc_user c -> hash_signed_command (signed_of u) <> Ok t) ->
    cf_get db3 user_command_state_hashes_cf (txn_key t) = cf_get db user_command_state_hashes_cf (txn_key t).
Proof.
  intros Hv Hc Hlen Hs. destruct (contents_of_inv block c Hc) as (internal & Ed & Ew & En & Eu & Ei & Ec). pose proof Hs as Hs0. destruct Hs0.
  pose proof (vb_hash _ _ _ _ Hv) as Hh. assert (diff = bc_diff c) as -> by congruence.
  destruct (add_user_commands_writes block (bc_user c) (bc_names c) _ Eu En _ as_user) as (rest & Eub & Hrest). cbn [fst] in Eub.
  split; [split|].
  - rewrite (steps_index _ _ _ _ _ _ _ _ _ _ _ _ _ _ Hs) by reflexivity.
    erewrite (index_write _ _ _ _ _ _ _ _ as_indices) by reflexivity. compute_index. done.
  - destruct (all_public_keys_spec block _ _ Eu Ew) as (pks & provers & Ep & Epr & _ & _ & Hinp).
    pose proof (vb_keys _ _ _ _ Hv pks Ep) as Hkeys. rewrite Forall_forall in Hkeys.
    rewrite <- (add_snark_work_reads block _ provers db4 db5 Ew Epr as_slots_typed Hh); [|apply Forall_forall; auto|by apply (vb_works _ _ _ _ Hv)|done].
    apply get_block_snark_work_agree. intros cf k Hcf. apply (writes_get _ _ _ _ _ as_later).
    unfold in_scope in Hcf. cbn in Hcf. destruct (String.eqb_spec cf block_snark_counts_cf) as [->|]; [done|]. destruct (String.eqb_spec cf snarks_cf) as [->|]; [done|].
    exfalso. by destruct (String.eqb cf default_cf).
  - unfold get_block_username_updates. rewrite (steps_get _ _ _ _ _ _ _ _ _ _ _ _ _ _ Hs) by reflexivity. rewrite Eub, last_write_app.
    rewrite (user_write_none _ rest _ _ Hrest) by done. cbn [last_write op_cf op_key op_value]. rewrite decide_True by done. cbn [and_then_ok]. by rewrite json_roundtrip.
  - unfold get_block_user_commands. rewrite (steps_get _ _ _ _ _ _ _ _ _ _ _ _ _ _ Hs) by reflexivity. rewrite Eub, last_write_app.
    rewrite (user_write_none _ rest _ _ Hrest) by done. cbn [last_write op_cf op_key op_value].
    rewrite decide_False, decide_False, decide_True by done. cbn [and_then_ok]. by rewrite json_roundtrip.
  - rewrite Ec in *. rewrite length_fmap in Hlen. by eapply steps_internal.
  - intros t Hwf Ht. rewrite (steps_get _ _ _ _ _ _ _ _ _ _ _ _ _ _ Hs) by reflexivity. rewrite Eub, last_write_app, last_write_none.
    + cbn [last_write op_cf op_key op_value]. by rewrite !decide_False.
    + eapply Forall_impl; [exact Hrest|]. intros w [_ Hw] [= Ecf Ek]. destruct (Hw Ecf) as (u & t' & Hu & Et & Ek').
      apply (Ht u Hu). rewrite Et. f_equal.
      pose proof (vb_storable _ _ _ _ Hv _ u Eu Hu) as [Et' Htx _ _ _]. apply txn_key_inj; congruence.
Qed.

(** ** The indices of the block and of the others *)

Ltac read_own Hs := rewrite (steps_index _ _ _ _ _ _ _ _ _ _ _ _ _ _ Hs) by reflexivity; erewrite (index_write _ _ _ _ _ _ _ _ (as_indices _ _ _ _ _ _ _ _ _ _ _ _ Hs)) by reflexivity; compute_index.
Ltac read_creator Hs := rewrite (steps_index _ _ _ _ _ _ _ _ _ _ _ _ _ _ Hs) by reflexivity; rewrite (last_write_creator _ _ _ _ _ _ (as_indices _ _ _ _ _ _ _ _ _ _ _ _ Hs)).

(** The hashes before the genesis blocks, which no block has. *)
Definition is_genesis_prev (h : StateHash) : bool :=
  String.eqb (sh_str h) MAINNET_GENESIS_PREV_STATE_HASH || String.eqb (sh_str h) HARDFORK_GENESIS_PREV_STATE_HASH.

(** The block is under its hash, and others are where they were. *)
Definition block_written block n db db' : Prop :=
  cf_get db' blocks_cf (sh_key (state_hash block)) = Some (u64_be n ++ to_json block) /\
  (forall h, sh_wf h -> h <> state_hash block -> cf_get db' blocks_cf (sh_key h) = cf_get db blocks_cf (sh_key h)).

Lemma block_written_then block n db db1 db2 : block_written block n db db1 -> agree [blocks_cf] [] db1 db2 -> block_written block n db db2.
Proof. intros [H1' H2'] Ha. split; intros; rewrite Ha by done; auto. Qed.

Lemma add_block_written block th sorted n db diff b ub ib dbu db2 db4 db5 db3 :
  valid_block block th sorted db -> add_steps block n db diff b ub ib dbu db2 db4 db5 db3 -> block_written block n db db3.
Proof.
  intros Hv Hs. destruct Hs. destruct Hv as [_ _ _ _ Hh _ _ _ _ _ _ _].
  assert (writes_in (count_families ++ internal_batch_families) (set_block_comparison_batch (state_hash block) (comparison_of block) db) db2) as Hw2
    by (eapply writes_in_trans; (eapply subset_families; [eassumption|reflexivity])).
  assert (writes_in later_families (write (b ++ ub ++ ib) db2) db3) as Hw3.
  { eapply writes_in_trans; [eapply subset_families; [eassumption|reflexivity]|]. eapply writes_in_trans; (eapply subset_families; [eassumption|reflexivity]). }
  pose proof (fun k => added_get block db _ db2 db3 b ub ib blocks_cf k eq_refl as_user_ok as_internal_ok Hw2 Hw3 eq_refl) as Hget. split.
  - rewrite Hget, (index_block _ _ _ _ _ _ as_indices Hh). by rewrite decide_True.
  - intros h Hwf Hne. rewrite Hget, (index_block _ _ _ _ _ _ as_indices Hwf). rewrite decide_False; [done|]. intros E%sh_key_inj. congruence.
Qed.

Lemma add_block_stored block th sorted n db diff b ub ib dbu db2 db4 db5 db3 :
  valid_block block th sorted db -> is_genesis_prev (state_hash block) = false -> add_steps block n db diff b ub ib dbu db2 db4 db5 db3 ->
  stored db3 (stored_of block) /\
  (forall s, st_hash s <> state_hash block -> stored db s -> stored db3 s) /\
  (forall h, h <> state_hash block -> cf_get db3 blocks_state_hash_cf (sh_key h) = cf_get db blocks_state_hash_cf (sh_key h)) /\
  cf_get db3 block_staged_ledger_hash_cf (sh_key (state_hash block)) = Some (as_bytes (lh_str (staged_ledger_hash block))).
Proof.
  intros Hv Hg Hs. apply orb_false_iff in Hg as [Hg1 Hg2]. destruct Hv as [_ _ _ _ Hh Hprev Hgen Hhgt Hslot Hep Hkeys _].
  assert (pk_wf (block_creator block)) as Hcr.
  { destruct (from_precomputed_parts block diff (as_diff _ _ _ _ _ _ _ _ _ _ _ _ Hs)) as (cmds & works & coinbase & Ec & Ew & _).
    destruct (all_public_keys_spec block cmds works Ec Ew) as (pks & provers & Ep & _ & _ & Hin & _).
    specialize (Hkeys pks Ep). rewrite Forall_forall in Hkeys. apply Hkeys, Hin. unfold consensus_public_keys. set_solver. }
  split_and!.
  - split; unfold get_block_parent_hash, get_block_height, get_block_global_slot, get_block_creator, get_block_epoch, opt_u32; cbn [stored_of st_hash st_parent st_length st_slot st_creator st_epoch].
    + read_own Hs. cbn [and_then_ok]. unfold sh_key. by rewrite sh_from_bytes_as_bytes.
    + rewrite Hg1, Hg2. read_own Hs. cbn [map_res]. by rewrite from_be_bytes_u32.
    + read_own Hs. cbn [map_res]. by rewrite from_be_bytes_u32.
    + read_creator Hs. rewrite decide_True by done. cbn [and_then_ok]. unfold pk_key. by rewrite pk_from_bytes_as_bytes.
    + read_own Hs. cbn [map_res]. by rewrite from_be_bytes_u32.
    + by split_and!.
  - intros s Hne []. assert (sh_key (state_hash block) <> sh_key (st_hash s)) as Hk by (intros E%sh_key_inj; congruence).
    unfold get_block_parent_hash, get_block_height, get_block_global_slot, get_block_creator, get_block_epoch, opt_u32 in *.
    split; unfold get_block_parent_hash, get_block_height, get_block_global_slot, get_block_creator, get_block_epoch, opt_u32; [..|done].
    + read_own Hs. done.
    + read_own Hs. done.
    + read_own Hs. done.
    + read_creator Hs. by rewrite decide_False by done.
    + read_own Hs. done.
  - intros h Hne. assert (sh_key (state_hash block) <> sh_key h) as Hk by (intros E%sh_key_inj; congruence). read_own Hs. done.
  - read_own Hs. done.
Qed.
End Contents.

(** * A chain of blocks *)

Section Chain.
Context `{SpeedbSpec} `{Decimal} `{HashMapIter} `{Blake2b} `{TxnHasher} `{SortBy BlockComparison} `{SortBy StateHash}.
Context `{JsonSpec PrecomputedBlock} `{JsonSpec LedgerDiff} `{JsonSpec PcbVersion} `{JsonSpec BlockComparison} `{JsonSpec (list Z)}.
Context `{JsonSpec (list StateHash)} `{JsonSpec UsernameUpdate} `{JsonSpec (list UserCommandWithStatus)} `{Json SignedCommandWithData}.
Context `{Json (list SignedCommandWithData)} `{InternalJson} `{JsonSpec SnarkWorkSummary}.
Context `{JsonSpec SnarkWorkSummaryWithStateHash} `{JsonSpec SnarkFees} `{JsonSpec IndexerEvent} `{JsonSpec Account} `{Json string}.
Context `{DiffIter} `{ProverIter} `{UsernameIter}.
Implicit Types (db : Db) (h : StateHash) (block : PrecomputedBlock) (s c : Stored) (lc : list Stored).
Context (content : StateHash -> BlockContents).
Notation best_view := (best_view content).

(** The operations on the store for a block of the canonical chain. *)
Definition ingest_block (fuel : nat) block (n : Z) db : option (res Db) :=
  '(_, db) ⇐ Some (add_block block n db);
  db ⇐ set_best_block fuel (state_hash block) db;
  Some (add_canonical_block (blockchain_length block) (global_slot_since_genesis block) (state_hash block) (genesis_state_hash block) None db).

(** A block whose data can be computed and has its form: a [valid_block] in every store. *)
Record sound_block block (th : UserCommandWithStatus -> TxnHash) : Prop := {
  sb_contents : contents_of block = Ok (content (state_hash block));
  sb_contents_wf : contents_wf (content (state_hash block));
  sb_works : Z.of_nat (length (bc_works (content (state_hash block)))) <= U32_MAX;
  sb_internal internal : with_data_from_precomputed block = Ok internal -> Forall (fun x => pk_wf (recipient x)) internal;
  sb_internal_bound : Z.of_nat (length (bc_internal (content (state_hash block)))) <= U32_MAX;
  sb_hash : sh_wf (state_hash block);
  sb_previous : sh_wf (previous_state_hash block);
  sb_genesis : sh_wf (genesis_of block);
  sb_height : u32 (blockchain_length block);
  sb_slot : u32 (global_slot_since_genesis block);
  sb_epoch : u32 (epoch_count block);
  sb_keys pks : all_public_keys block = Ok pks -> Forall pk_wf pks;
  sb_user u : u ∈ bc_user (content (state_hash block)) ->
    hash_signed_command (signed_of u) = Ok (th u) /\ txn_wf (th u) /\ pk_wf (sender u) /\ Forall pk_wf (receiver u);
  sb_not_genesis : is_genesis_hash (state_hash block) = false /\ is_genesis_prev (state_hash block) = false;
  sb_apply : Forall good_apply (block_diffs (bc_diff (content (state_hash block))));
  sb_created : created (bc_diff (content (state_hash block))) < 2147483648
}.

(** Its transactions are in no block of the store. *)
Definition fresh_transactions db block th : Prop :=
  forall u, u ∈ bc_user (content (state_hash block)) -> cf_get db user_command_state_hashes_cf (txn_key (th u)) = None.

Lemma sort_one (cmp : BlockComparison) : sort_comparisons [cmp] = Ok [cmp].
Proof.
  destruct block_cmp_not_an_order as (_ & Hirr & _). unfold sort_comparisons.
  destruct (sort_sorted (fun a b => Ok (block_comparison_cmp a b)) block_comparison_cmp [cmp]) as (l & E & _); [done| |].
  - split.
    + intros a b d ->%list_elem_of_singleton ->%list_elem_of_singleton. by rewrite Hirr.
    + intros a b ->%list_elem_of_singleton ->%list_elem_of_singleton. by rewrite Hirr.
    + intros a b ->%list_elem_of_singleton ->%list_elem_of_singleton. by left.
  - rewrite E. f_equal. apply sort_perm in E. by apply Permutation_singleton_r in E.
Qed.

Lemma sound_valid block th db :
  sound_block block th -> fresh_transactions db block th -> valid_block block th (fun _ => [comparison_of block]) db.
Proof.
  intros Hb Hf. destruct Hb. destruct (contents_of_inv _ _ sb_contents0) as (internal & Ed & Ew & En & Eu & Ei & Ec). split; try done.
  - by eexists.
  - by eexists.
  - exists internal. split; [done|]. by apply sb_internal0.
  - intros works E. assert (works = bc_works (content (state_hash block))) as -> by congruence. done.
  - intros cmds u E Hu. assert (cmds = bc_user (content (state_hash block))) as -> by congruence. destruct (sb_user0 u Hu) as (Eh & Ht & Hs & Hr).
    split; try done. unfold containing_blocks, get_user_command_state_hashes. unfold set_block_comparison_batch.
    rewrite cf_get_put, decide_False by done. rewrite (Hf u Hu). cbn [and_then_ok mbind res_bind default app known_comparisons].
    unfold get_block_comparison. rewrite cf_get_put, decide_True by done. cbn [and_then_ok]. rewrite json_roundtrip. cbn [ok_flatten mbind res_bind].
    apply sort_one.
Qed.

(** ** The stores of a chain *)

(** What adding blocks and ledgers writes, but for the events. *)
Definition side_scope : list string := add_families ++ staged_families ++ [staged_ledgers_persisted_cf].

(** It leaves the stores of the chain as they are. *)
Lemma side_view db db' chain get n fees es :
  best_view db chain get n fees es -> kept side_scope add_keys db db' -> well_typed db' -> best_view db' chain get n fees es.
Proof.
  intros Hv K1 Hdb'. destruct Hv. split; [|apply (canonical_agree db); [carry|done|done]|apply (best_accounts_agree db); [carry|done]|done| |apply (history_agree db); [carry|done]
    | | |apply (all_names_agree db); [carry|done]| |apply (canonical_counts_agree db); [carry|done]|apply (event_log_agree db); [carry|done]].
  - unfold get_best_block_hash. by rewrite K1.
  - by rewrite (agree_u32 [] [TOTAL_NUM_ACCOUNTS_KEY] db) by (carry || done).
  - intros p. apply (stored_fees_agree db); [carry|done].
  - by rewrite (works_count_agree db) by carry.
  - by rewrite (internal_count_agree db) by carry.
Qed.

(** So does an event, but for the log. *)
Lemma event_view db db6 db' chain get n fees es e z :
  best_view db chain get n fees es -> Z.of_nat (length es) < U32_MAX -> kept side_scope add_keys db db6 ->
  add_event (EventDb e) db6 = Ok (z, db') -> well_typed db' -> best_view db' chain get n fees (es ++ [EventDb e]).
Proof.
  intros Hv Hlt K1 E Hdb'. assert (event_log db6 es) as Hlog6 by (apply (event_log_agree db); [carry|apply (bv_events _ _ _ _ _ _ _ Hv)]).
  destruct (add_db_event db6 es e Hlog6 Hlt) as (db2 & E2 & Hlog & Edb). assert (db2 = db') as -> by congruence.
  assert (kept [events_cf] [NEXT_EVENT_SEQ_NUM_KEY] db6 db') as K2 by (rewrite Edb; cbn [write fold_left write_op]; eapply kept_trans; by apply kept_put).
  destruct Hv. split; [|apply (canonical_agree db); [carry|done|done]|apply (best_accounts_agree db); [carry|done]|done| |apply (history_agree db); [carry|done]
    | | |apply (all_names_agree db); [carry|done]| |apply (canonical_counts_agree db); [carry|done]|done].
  - unfold get_best_block_hash. by rewrite K2, K1.
  - by rewrite (agree_u32 [] [TOTAL_NUM_ACCOUNTS_KEY] db) by (carry || done).
  - intros p. apply (stored_fees_agree db); [carry|done].
  - by rewrite (works_count_agree db) by carry.
  - by rewrite (internal_count_agree db) by carry.
Qed.

(** Recording the tip as canonical changes nothing but the log. *)
Lemma add_canonical_view db s chain get n fees es genesis :
  best_view db (s :: chain) get n fees es -> stored db s -> Z.of_nat (length es) < U32_MAX ->
  exists db', add_canonical_block (st_length s) (st_slot s) (st_hash s) genesis None db = Ok db' /\
    best_view db' (s :: chain) get n fees (es ++ [EventDb (DbCanonicity (NewCanonicalBlock (st_hash s) (st_length s)))]) /\
    kept (canonicity_length_cf :: canonicity_slot_cf :: [events_cf]) [NEXT_EVENT_SEQ_NUM_KEY] db db'.
Proof.
  intros Hv Hst Hlt. destruct (so_wf _ _ Hst) as (Hh & _ & Hl & Hs & _). unfold add_canonical_block.
  rewrite (bool_decide_false (is_Some None)) by (by intros []). rewrite andb_false_r. cbv zeta. cbn [mbind res_bind].
  pose proof (bv_canonical _ _ _ _ _ _ _ Hv) as Hc. set (db1 := cf_put canonicity_slot_cf _ _ _).
  assert (forall cf k, cf_get db1 cf k = cf_get db cf k) as Hsame.
  { intros cf k. unfold db1. rewrite !cf_get_put. destruct (decide (_ = _)) as [[= -> ->]|_].
    - rewrite (ca_slot _ _ Hc) by done. cbn [List.find]. by rewrite Z.eqb_refl.
    - destruct (decide (_ = _)) as [[= -> ->]|_]; [|done]. rewrite (ca_length _ _ Hc) by done. cbn [List.find]. by rewrite Z.eqb_refl. }
  assert (kept side_scope add_keys db db1) as K1 by (intros cf k _; apply Hsame).
  assert (well_typed db1) as Hdb1 by (intros cf k v; rewrite Hsame; apply (pr_typed _ _ (ca_production _ _ Hc))).
  assert (event_log db1 es) as Hlog by (apply (event_log_agree db); [intros cf k _; apply Hsame|apply (bv_events _ _ _ _ _ _ _ Hv)]).
  destruct (add_db_event db1 es (DbCanonicity (NewCanonicalBlock (st_hash s) (st_length s))) Hlog Hlt) as (db2 & E2 & _ & Edb).
  rewrite E2. cbn [mbind res_bind snd]. exists db2. split; [done|].
  assert (well_typed db2) as Hdb2.
  { rewrite Edb. cbn [write fold_left write_op]. apply well_typed_put; [apply (has_type_u32 _); ints|]. by apply well_typed_put. }
  split; [by eapply event_view|]. eapply kept_trans; [intros cf k _; apply Hsame|]. rewrite Edb. cbn [write fold_left write_op].
  eapply kept_trans; by apply kept_put.
Qed.

Definition index_reads : list string := [block_parent_hash_cf; block_height_cf; block_global_slot_cf; block_creator_cf; block_epoch_cf].
Lemma stored_agree db db' s : agree index_reads [] db db' -> stored db s -> stored db' s.
Proof.
  intros Ha Hs. destruct Hs. unfold get_block_parent_hash, get_block_height, get_block_global_slot, get_block_creator, get_block_epoch, opt_u32 in *.
  split; unfold get_block_parent_hash, get_block_height, get_block_global_slot, get_block_creator, get_block_epoch, opt_u32; rewrite ?Ha by done; done.
Qed.

Lemma chain_bounded_tail s l : chain_bounded content (s :: l) -> chain_bounded content l.
Proof.
  unfold chain_bounded, chain_works, chain_internal, chain_user. cbn [fmap list_fmap concat]. rewrite !length_app. lia.
Qed.

(** The store of a chain, its tip first. *)
Record chain_store db chain get n fees es : Prop := {
  cs_view : best_view db chain get n fees es;
  cs_stored : Forall (stored db) chain;
  cs_chain : Reorg.chain chain
}.

(** The events of a block of the chain. *)
Definition block_events s : list IndexerEvent :=
  [EventDb (DbBlock (NewBlock (st_hash s) (st_length s))); EventDb (DbBlock (NewBestTip (st_hash s) (st_length s)));
   EventDb (DbCanonicity (NewCanonicalBlock (st_hash s) (st_length s)))].

(** A new block above the tip. *)
Record next_block_of db block th c lc : Prop := {
  nb_sound : sound_block block th;
  nb_fresh : fresh_transactions db block th;
  nb_new : cf_get db blocks_state_hash_cf (sh_key (state_hash block)) = None;
  nb_child : child_of (stored_of block) c;
  nb_hash : Forall (fun s => st_hash s <> state_hash block) (c :: lc);
  nb_bounded : chain_bounded content (stored_of block :: c :: lc);
  nb_length : Z.of_nat (length (stored_of block :: c :: lc)) <= U32_MAX
}.

Definition staged_reads : list string := [staged_ledger_accounts_cf; staged_ledger_account_balance_sort_cf].

(** What it leaves of the other blocks, of other transactions, and of the ledgers that are stored. *)
Definition others_kept block th db db' : Prop :=
  (forall h, h <> state_hash block -> cf_get db' blocks_state_hash_cf (sh_key h) = cf_get db blocks_state_hash_cf (sh_key h)) /\
  (forall t, txn_wf t -> (forall u, u ∈ bc_user (content (state_hash block)) -> th u <> t) ->
     cf_get db' user_command_state_hashes_cf (txn_key t) = cf_get db user_command_state_hashes_cf (txn_key t)) /\
  agree staged_reads [] db db'.

Lemma chain_grows block th n db c lc get num fees es :
  chain_store db (c :: lc) get num fees es -> next_block_of db block th c lc -> Z.of_nat (length es) < U32_MAX ->
  exists db' event, add_block block n db = Ok (event, db') /\
    best_view db' (c :: lc) get num fees (es ++ [EventDb (DbBlock (NewBlock (state_hash block) (blockchain_length block)))]) /\
    Forall (stored db') (stored_of block :: c :: lc) /\ holds db' (state_hash block) (content (state_hash block)) /\ others_kept block th db db' /\
    cf_get db' block_staged_ledger_hash_cf (sh_key (state_hash block)) = Some (as_bytes (lh_str (staged_ledger_hash block))) /\
    block_written block n db db'.
Proof.
  intros Hs Hb Hlt. destruct Hs, Hb. pose proof (sound_valid block th db nb_sound0 nb_fresh0) as Hv.
  assert (well_typed db) as Hdb by apply (pr_typed _ _ (ca_production _ _ (bv_canonical _ _ _ _ _ _ _ cs_view0))).
  destruct (add_block_steps block th _ n db Hdb Hv nb_new0) as (diff & b & ub & ib & dbu & db2 & db4 & db5 & db3 & Hst). pose proof Hst as Hst'. destruct Hst'.
  destruct (add_block_scope block n db nb_new0 _ as_add) as (db6 & z & K1 & E6). cbn [snd] in E6.
  destruct nb_sound0. destruct sb_not_genesis0 as [Hg Hgp].
  destruct (add_block_stored block th _ n db _ _ _ _ _ _ _ _ _ Hv Hgp Hst) as (Hs1 & Hs2 & Hs3 & Hs4).
  destruct (add_block_holds block th _ n db _ _ _ _ _ _ _ _ _ _ Hv sb_contents0 sb_internal_bound0 Hst) as (Hh1 & Hh2).
  exists db3. eexists. split; [exact as_add|]. split; [eapply event_view; [done|done|eapply kept_weaken; [exact K1|reflexivity..]|done|done]|]. split.
  { constructor; [done|]. rewrite Forall_forall in *. intros s Hin. apply Hs2; [by apply nb_hash0|by apply cs_stored0]. }
  split; [done|]. split; [|by split; [|by eapply add_block_written]]. assert (kept [events_cf] [NEXT_EVENT_SEQ_NUM_KEY] db6 db3) as K2.
  { unfold add_event in E6. destruct (get_next_seq_num db6); [|done..]. cbn [mbind res_bind] in E6. injection E6 as _ <-. eapply kept_trans; by apply kept_put. }
  split_and!; [done| |carry]. intros t Ht Hu. apply Hh2; [done|]. intros u Hin. destruct (sb_user0 u Hin) as (-> & _). intros [= E]. by apply (Hu u).
Qed.

Lemma others_kept_then block th db db1 db2 :
  others_kept block th db db1 -> agree (blocks_state_hash_cf :: user_command_state_hashes_cf :: staged_reads) [] db1 db2 -> others_kept block th db db2.
Proof.
  intros (H1' & H2' & H3') Ha. split_and!; [intros; rewrite Ha by done; auto..|]. eapply agree_trans; [exact H3'|]. by eapply agree_subset.
Qed.

(** The block becomes the tip of the chain, and all the stores follow. *)
Lemma ingest_block_step fuel block th n db c lc get num fees es :
  chain_store db (c :: lc) get num fees es -> next_block_of db block th c lc -> Z.of_nat (length es) + 3 <= U32_MAX ->
  let s := stored_of block in
  exists db', ingest_block fuel block n db = Some (Ok db') /\ others_kept block th db db' /\
    cf_get db' block_staged_ledger_hash_cf (sh_key (state_hash block)) = Some (as_bytes (lh_str (staged_ledger_hash block))) /\
    chain_store db' (s :: c :: lc) (accounts_after content [] [s] get) (num_accounts_after content [] [s] num) (fees_after content [] [s] fees)
      (es ++ block_events s) /\
    block_written block n db db'.
Proof.
  intros Hs Hb Hlt s. destruct (chain_grows block th n db c lc get num fees es Hs Hb ltac:(lia)) as (db1 & ev & E1 & Hv1 & Hst1 & Hh1 & Ho1 & Elh & Hbw).
  pose proof Hs as Hs'. destruct Hs', Hb. destruct nb_sound0. destruct sb_not_genesis0 as [Hg Hgp].
  destruct (best_tip_moves content db1 [] [s] c lc get num fees _ fuel Hv1) as (db2 & E2 & K2 & Hv2); [|rewrite length_app; cbn [length]; lia|cbn; lia|].
  { split; try done.
    - split; try done.
      + by intros x y ?%not_elem_of_nil.
      + by apply Forall_singleton.
      + cbn [length]. lia.
      + apply (bv_canonical _ _ _ _ _ _ _ Hv1).
    - by intros x ->%list_elem_of_singleton.
    - by intros x ->%list_elem_of_singleton.
    - by intros x ?%not_elem_of_nil.
    - change (created (bc_diff (content (state_hash block))) + 0 + 0 < 2147483648). lia.
    - by apply chain_bounded_tail in nb_bounded0. }
  change (st_hash (top [s] c)) with (state_hash block) in *.
  assert (Forall (stored db2) (s :: c :: lc)) as Hst2 by (eapply Forall_impl; [exact Hst1|]; intros x; apply stored_agree; carry).
  pose proof (Forall_inv Hst2) as Hs2. cbn [app] in Hv2.
  destruct (add_canonical_view db2 s (c :: lc) _ _ _ _ (genesis_state_hash block) Hv2 Hs2) as (db3 & E3 & Hv3 & K3); [rewrite !length_app; cbn [length]; lia|].
  exists db3. split_and!.
  - unfold ingest_block. rewrite E1. cbn [fbind]. rewrite E2. cbn [fbind]. by f_equal.
  - eapply others_kept_then; [exact Ho1|]. carry.
  - by rewrite (K3 block_staged_ledger_hash_cf), (K2 block_staged_ledger_hash_cf).
  - split; [by rewrite <- !app_assoc in Hv3| |done]. eapply Forall_impl; [exact Hst2|]. intros x. apply stored_agree. carry.
  - eapply block_written_then; [exact Hbw|]. carry.
Qed.

(** ** Ledgers of the blocks of the chain *)

Context `{LedgerIter}.

Lemma announce_cases h db :
  yields (fun db' => exists db6, kept [staged_ledgers_persisted_cf] [] db db6 /\
    (db' = db6 \/ exists e z, add_event (EventDb e) db6 = Ok (z, db'))) (announce_ledger h db).
Proof.
  assert (forall d b d', add_staged_ledger_hash h d = (b, d') -> kept [staged_ledgers_persisted_cf] [] d d') as Hadd.
  { intros d b d'. unfold add_staged_ledger_hash. destruct (cf_get d _ _); intros [= <- <-]; [done|by apply kept_put]. }
  assert (forall (t : bool) d b d', (if t then add_staged_ledger_hash h d else (false, d)) = (b, d') -> kept [staged_ledgers_persisted_cf] [] d d') as Hif.
  { intros [] d b d' E; [by eapply Hadd|by injection E as <- <-]. }
  assert (forall n lh d, kept [staged_ledgers_persisted_cf] [] db d -> yields (fun db' => exists db6, kept [staged_ledgers_persisted_cf] [] db db6 /\
    (db' = db6 \/ exists e z, add_event (EventDb e) db6 = Ok (z, db'))) (new_ledger_event h n lh d)) as Hnew.
  { intros n lh d Hd. unfold new_ledger_event. destruct (add_event _ d) as [[z d']| |] eqn:E; [|done..]. cbn [mbind res_bind]. apply yields_ok.
    exists d. split; [done|]. right. by do 2 eexists. }
  unfold announce_ledger. destruct (if bool_decide (sh_str h = MAINNET_GENESIS_PREV_STATE_HASH) then _ else _) as [b1 db1] eqn:E1. apply Hif in E1.
  destruct b1; [by apply Hnew|]. destruct (if bool_decide (sh_str h = HARDFORK_GENESIS_PREV_STATE_HASH) then _ else _) as [b2 db2] eqn:E2. apply Hif in E2.
  pose proof (kept_trans _ _ _ _ _ E1 E2) as E12. destruct b2; [by apply Hnew|]. apply yields_pure. intros [lh|].
  - destruct (add_staged_ledger_hash h db2) as [b3 db3] eqn:E3. apply Hadd in E3. pose proof (kept_trans _ _ _ _ _ E12 E3) as E13.
    destruct b3; [|apply yields_ok; exists db3; by split; [|left]]. do 2 (apply yields_pure; intros ?). by apply Hnew.
  - destruct (_ || _); [|done]. apply yields_ok. exists db2. by split; [|left].
Qed.

(** A ledger stored at the tip leaves the stores of the chain as they are. *)
Lemma stored_ledger_view l h m db chain get n fees es :
  best_view db chain get n fees es -> Z.of_nat (length es) < U32_MAX ->
  sh_wf h -> ledger_keys l -> u32 m -> staged_ok db -> staged db h (fun _ _ => None) -> known_ledger db h ->
  exists db' es', StagedStore.add_staged_ledger_at_state_hash h l m db = Ok db' /\ best_view db' chain get n fees (es ++ es') /\ (length es' <= 1)%nat /\
    staged_ok db' /\ (forall g get', sh_wf g -> g <> h -> staged db g get' -> staged db' g get') /\
    kept (staged_families ++ [staged_ledgers_persisted_cf; events_cf]) [NEXT_EVENT_SEQ_NUM_KEY] db db'.
Proof.
  intros Hv Hlt Hh Hk Hm Hok Hs Hkn. assert (well_typed db) as Hdb by apply (pr_typed _ _ (ca_production _ _ (bv_canonical _ _ _ _ _ _ _ Hv))).
  destruct (add_staged_ledger_spec l h m db) as (db' & E & Hdb' & _ & Hok' & _ & _ & Ho & _); [done..|]. exists db'. pose proof E as E'.
  unfold StagedStore.add_staged_ledger_at_state_hash in E'. destruct (add_staged_accounts_spec l h m db) as (db1 & E1 & Hdb1 & Hw1 & _); [done..|].
  rewrite E1 in E'. cbn [mbind res_bind] in E'. destruct (announce_ledger h db1) as [db2| |] eqn:E2; [|done..]. cbn [mbind res_bind] in E'.
  destruct (announce_cases h db1 _ E2) as (db6 & K6 & Hc). injection E' as Edb.
  assert (kept staged_families [] db db1) as K1 by (by apply kept_writes).
  assert (kept [staged_ledgers_persisted_cf] [] db2 db') as K3 by (rewrite <- Edb; by apply kept_put).
  assert (kept side_scope add_keys db db6) as K by (eapply kept_trans; [eapply kept_weaken; [exact K1|reflexivity..]|eapply kept_weaken; [exact K6|reflexivity..]]).
  assert (kept side_scope add_keys db2 db') as K' by (eapply kept_weaken; [exact K3|reflexivity..]).
  assert (kept (staged_families ++ [staged_ledgers_persisted_cf; events_cf]) [NEXT_EVENT_SEQ_NUM_KEY] db db6) as Kx
    by (eapply kept_trans; [eapply kept_weaken; [exact K1|reflexivity..]|eapply kept_weaken; [exact K6|reflexivity..]]).
  assert (kept (staged_families ++ [staged_ledgers_persisted_cf; events_cf]) [NEXT_EVENT_SEQ_NUM_KEY] db2 db') as Ky by (eapply kept_weaken; [exact K3|reflexivity..]).
  destruct Hc as [<-|(e & z & Ee)].
  - exists []. rewrite app_nil_r. split_and!; [done| |cbn; lia|done|done|by eapply kept_trans]. eapply side_view; [exact Hv| |done]. by eapply kept_trans.
  - exists [EventDb e]. destruct (announce_ledger_step h db1 Hdb1) as (db2' & E2' & Hdb2 & _).
    { unfold known_ledger, get_block_height, opt_u32 in *. by rewrite !(writes_get _ _ _ _ _ Hw1) by done. }
    assert (db2' = db2) as -> by congruence. split_and!; [done| |cbn; lia|done|done|].
    + eapply side_view; [by eapply event_view|exact K'|done].
    + eapply kept_trans; [exact Kx|]. eapply kept_trans; [|exact Ky]. unfold add_event in Ee. destruct (get_next_seq_num db6) as [m'| |]; [|done..].
      cbn [mbind res_bind] in Ee. injection Ee as _ <-. eapply kept_trans; by apply kept_put.
Qed.
End Chain.

(** * The loop over the deep canonical blocks *)

Section Loop.
Context `{IdTreeSpec} `{SpeedbSpec} `{Decimal} `{HashMapIter} `{Blake2b} `{TxnHasher} `{SortBy BlockComparison} `{SortBy StateHash}.
Context `{JsonSpec PrecomputedBlock} `{JsonSpec LedgerDiff} `{JsonSpec PcbVersion} `{JsonSpec BlockComparison} `{JsonSpec (list Z)}.
Context `{JsonSpec (list StateHash)} `{JsonSpec UsernameUpdate} `{JsonSpec (list UserCommandWithStatus)} `{Json SignedCommandWithData}.
Context `{Json (list SignedCommandWithData)} `{InternalJson} `{JsonSpec SnarkWorkSummary}.
Context `{JsonSpec SnarkWorkSummaryWithStateHash} `{JsonSpec SnarkFees} `{JsonSpec IndexerEvent} `{JsonSpec Account} `{Json string}.
Context `{DiffIter} `{ProverIter} `{UsernameIter} `{LedgerIter} `{BlockFiles} `{BlockDisk}.
Implicit Types (db : Db) (h : StateHash) (block : PrecomputedBlock) (s c : Stored) (lc : list Stored) (ix : Indexer) (l : Ledger).
Context (content : StateHash -> BlockContents).

(** ** Ledgers *)

Definition good_diff (d : LedgerDiff) : Prop := Forall good_apply (block_diffs d).
Definition good_ledger l : Prop := ledger_wf l /\ ledger_keys l.

Lemma apply_good l d : good_ledger l -> good_diff d -> exists l', ledger_apply_diff l d = Ok l' /\ good_ledger l'.
Proof.
  intros [Hl Hk] Hd. destruct (foldM_ledger_ok (block_diffs d) l Hl) as (l' & E & _).
  { eapply Forall_impl; [exact Hd|]. by intros x (Hx & _). }
  exists l'. split; [exact E|]. by apply (ledger_keys_apply (block_diffs d) l l').
Qed.
Lemma apply_all_good l ds : good_ledger l -> Forall good_diff ds -> exists l', foldM ledger_apply_diff l ds = Ok l' /\ good_ledger l'.
Proof.
  intros Hl Hds. revert l Hl. induction Hds as [|d ds Hd _ IH]; intros l Hl; [by exists l|]. cbn [foldM].
  destruct (apply_good l d Hl Hd) as (l1 & -> & Hl1). cbn [mbind res_bind]. by apply IH.
Qed.

Lemma branch_new_ok block :
  exists br, branch_new block = Ok br /\ root_block br = Ok (block_from_precomputed block 0).
Proof.
  unfold branch_new, new_genesis_block. destruct (insert_as_root_spec tree_new (block_from_precomputed block 0)) as (id & t & -> & Ho & Hct).
  rewrite (proj1 tree_new_spec) in Hct. rewrite (proj2 tree_new_spec) in Ho. cbn [mbind res_bind fst snd]. eexists. split; [done|].
  apply (root_block_eq _ (Rose (id, block_from_precomputed block 0) [])). split; [done|done|done|repeat constructor|cbn; ints].
Qed.

(** ** One block *)

Record ingesting ix db chain get num fees es (pending : list LedgerDiff) : Prop := {
  ig_store : ix_store ix = Some db;
  ig_chain : chain_store content db chain get num fees es;
  ig_cadence : 0 < st_ledger_cadence (ix_state ix);
  ig_ledger : good_ledger (st_ledger (ix_state ix));
  ig_pending : Forall good_diff pending;
  ig_staged : staged_ok db
}.

(** The indexer rooted at a block. *)
Definition rooted_at ix h : Prop :=
  (exists blk, root_block (st_root_branch (ix_state ix)) = Ok blk /\ blk_state_hash blk = h) /\
  tip_state_hash (st_canonical_root (ix_state ix)) = h /\ tip_state_hash (st_best_tip (ix_state ix)) = h.

Lemma staged_agree db db' h get : agree staged_reads [] db db' -> staged db h get -> staged db' h get.
Proof. intros Ha []. split; intros; rewrite Ha by done; auto. Qed.
Lemma staged_ok_agree db db' : agree staged_reads [] db db' -> staged_ok db -> staged_ok db'.
Proof. intros Ha Hok k v E. rewrite Ha in E by done. by apply Hok. Qed.

(** The ledger of the block, stored when its turn has come. *)
Lemma ledger_turn (k cadence : Z) l pending diff block th db0 db chain get num fees es :
  0 < cadence -> good_ledger l -> Forall good_diff (pending ++ [diff]) -> sound_block content block th -> lh_wf (staged_ledger_hash block) ->
  chain_store content db (stored_of block :: chain) get num fees es -> Z.of_nat (length es) < U32_MAX -> staged_ok db0 ->
  staged db0 (state_hash block) (fun _ _ => None) -> others_kept content block th db0 db ->
  cf_get db block_staged_ledger_hash_cf (sh_key (state_hash block)) = Some (as_bytes (lh_str (staged_ledger_hash block))) ->
  exists l' pending' db' es',
    (if cadence =? 0 then Panic
     else if k mod cadence =? 0 then
       ledger ← foldM ledger_apply_diff l (pending ++ [diff]);
       db ← StagedStore.add_staged_ledger_at_state_hash (state_hash block) ledger (blockchain_length block) db;
       Ok (ledger, [], db)
     else Ok (l, pending ++ [diff], db)) = Ok (l', pending', db') /\
    good_ledger l' /\ Forall good_diff pending' /\ chain_store content db' (stored_of block :: chain) get num fees (es ++ es') /\
    (length es' <= 1)%nat /\ staged_ok db' /\
    (forall g, sh_wf g -> g <> state_hash block -> staged db0 g (fun _ _ => None) -> staged db' g (fun _ _ => None)) /\
    agree [blocks_cf; blocks_state_hash_cf; user_command_state_hashes_cf] [] db db'.
Proof.
  intros Hc Hl Hp Hb Hlh Hcs Hlt Hok Hs (_ & _ & Ha) Elh. destruct (Z.eqb_spec cadence 0); [lia|].
  assert (staged_ok db) as Hok1 by (by apply (staged_ok_agree db0)).
  destruct (k mod cadence =? 0).
  - destruct (apply_all_good l _ Hl Hp) as (l' & -> & Hl'). cbn [mbind res_bind]. destruct Hcs. pose proof (Forall_inv cs_stored0) as Hst.
    destruct (stored_ledger_view content l' (state_hash block) (blockchain_length block) db _ get num fees es cs_view0 Hlt (sb_hash _ _ _ Hb) (proj2 Hl'))
      as (db' & es' & -> & Hv' & He & Hok' & Ho' & K); [apply Hb|done|by apply (staged_agree db0)| |].
    { unfold known_ledger. rewrite Elh. exists (staged_ledger_hash block), (blockchain_length block). split_and!; [done|done|]. apply (so_length _ _ Hst). }
    cbn [mbind res_bind]. exists l', [], db', es'. split_and!; [done|done|constructor| |done|done| |carry].
    + split; [done| |done]. eapply Forall_impl; [exact cs_stored0|]. intros x. apply stored_agree. carry.
    + intros g Hg Hne Hsg. apply Ho'; [done|done|]. by apply (staged_agree db0).
  - exists l, (pending ++ [diff]), db, []. rewrite app_nil_r. split_and!; try done.
    + cbn. lia.
    + intros g Hg Hne Hsg. by apply (staged_agree db0).
Qed.

Lemma ingest_canonical_step fuel N ix parser parser' pending block bytes th db c lc get num fees es :
  ingesting ix db (c :: lc) get num fees es pending -> next_block parser = Ok (Some (DeepCanonical block, bytes), parser') ->
  next_block_of content db block th c lc -> staged db (state_hash block) (fun _ _ => None) -> lh_wf (staged_ledger_hash block) ->
  Z.of_nat (length es) + 4 <= U32_MAX ->
  let s := stored_of block in
  let k := wrap32 (st_blocks_processed (ix_state ix) + 1) in
  exists ix' db' es' pending', ingest_canonical fuel N (ix, parser, pending) = Some (Ok (ix', parser', pending')) /\ (length es' <= 4)%nat /\
    ingesting ix' db' (s :: c :: lc) (accounts_after content [] [s] get) (num_accounts_after content [] [s] num) (fees_after content [] [s] fees)
      (es ++ es') pending' /\
    st_blocks_processed (ix_state ix') = k /\ (N < k -> rooted_at ix' (state_hash block)) /\
    (forall g, g <> state_hash block -> cf_get db' blocks_state_hash_cf (sh_key g) = cf_get db blocks_state_hash_cf (sh_key g)) /\
    (forall t, txn_wf t -> (forall u, u ∈ bc_user (content (state_hash block)) -> th u <> t) ->
       cf_get db' user_command_state_hashes_cf (txn_key t) = cf_get db user_command_state_hashes_cf (txn_key t)) /\
    (forall g, sh_wf g -> g <> state_hash block -> staged db g (fun _ _ => None) -> staged db' g (fun _ _ => None)) /\
    block_written block bytes db db'.
Proof.
  intros Hi En Hb Hs Hlh Hlt s k. destruct Hi. pose proof (nb_sound _ _ _ _ _ _ Hb) as Hsb.
  destruct (ingest_block_step content fuel block th bytes db c lc get num fees es ig_chain0 Hb ltac:(lia)) as (db1 & E1 & Ho1 & Elh & Hc1 & Hbw).
  unfold ingest_block in E1. apply fbind_inv in E1 as ([ev dba] & Ea & E1). apply fbind_inv in E1 as (dbb & Eb & Ec). injection Ea as Ea. injection Ec as Ec.
  destruct (contents_of_inv _ _ (sb_contents _ _ _ Hsb)) as (internal & Ed & _).
  assert (Forall good_diff (pending ++ [bc_diff (content (state_hash block))])) as Hp1 by (apply Forall_app_2; [done|apply Forall_singleton, Hsb]).
  destruct (ledger_turn k (st_ledger_cadence (ix_state ix)) (st_ledger (ix_state ix)) pending _ block th db db1 (c :: lc) _ _ _ _ ig_cadence0 ig_ledger0 Hp1 Hsb Hlh Hc1)
    as (l' & pending' & db2 & es' & El & Hl' & Hp' & Hc2 & He & Hok2 & Hst2 & Ha2); [rewrite length_app; cbn [length block_events]; lia|done..|].
  destruct (branch_new_ok block) as (br & Ebr & Ert). destruct (apply_good l' _ Hl' (sb_apply _ _ _ Hsb)) as (l2 & El2 & Hl2).
  rewrite <- app_assoc in Hc2. destruct Ho1 as (Hn1 & Ht1 & _).
  assert (forall g, g <> state_hash block -> cf_get db2 blocks_state_hash_cf (sh_key g) = cf_get db blocks_state_hash_cf (sh_key g)) as Hn2
    by (intros g Hg; rewrite Ha2 by done; auto).
  assert (forall t, txn_wf t -> (forall u, u ∈ bc_user (content (state_hash block)) -> th u <> t) ->
    cf_get db2 user_command_state_hashes_cf (txn_key t) = cf_get db user_command_state_hashes_cf (txn_key t)) as Ht2 by (intros t Hwf Hu; rewrite Ha2 by done; auto).
  assert (block_written block bytes db db2) as Hbw2 by (eapply block_written_then; [exact Hbw|]; by eapply agree_subset).
  eexists _, db2, (block_events s ++ es'), pending'. split.
  - unfold ingest_canonical. rewrite En. cbn [fbind]. change (ix_store (count_blocks ix)) with (ix_store ix). rewrite ig_store0. rewrite Ed. cbn [fbind].
    rewrite Ea. cbn [fbind]. rewrite Eb. cbn [fbind]. rewrite Ec. cbn [fbind].
    change (st_ledger_cadence (ix_state (count_bytes bytes (count_blocks ix)))) with (st_ledger_cadence (ix_state ix)).
    change (st_ledger (ix_state (count_bytes bytes (count_blocks ix)))) with (st_ledger (ix_state ix)).
    change (st_blocks_processed (ix_state (count_blocks ix))) with k. rewrite El. cbn [fbind]. rewrite Ebr. cbn [fbind]. rewrite El2. cbn [fbind]. rewrite Ert. cbn [fbind].
    instantiate (1 := if N <? k then _ else _). destruct (N <? k); reflexivity.
  - split; [rewrite length_app; cbn [length block_events]; lia|].
    destruct (Z.ltb_spec N k); (split; [by split|]; split; [done|]; split; [|done]); [|lia]. intros _.
    split; [exists (block_from_precomputed block 0); by split|done].
Qed.

(** ** The chain *)

(** The deep canonical blocks that the parser delivers, with the sizes of their files. *)
Inductive delivers : BlockParser -> list (PrecomputedBlock * Z) -> BlockParser -> Prop :=
| delivers_nil p : delivers p [] p
| delivers_cons p block bytes p1 blocks p2 :
    next_block p = Ok (Some (DeepCanonical block, bytes), p1) -> delivers p1 blocks p2 -> delivers p ((block, bytes) :: blocks) p2.

Definition chain_of (blocks : list PrecomputedBlock) : list Stored := rev (stored_of <$> blocks).

(** New blocks, oldest first, that continue the chain: each is the child of the one before, and no transaction is in two of them. *)
Record continues db (blocks : list PrecomputedBlock) th c lc : Prop := {
  co_sound : Forall (fun b => sound_block content b th) blocks;
  co_ledger_hash : Forall (fun b => lh_wf (staged_ledger_hash b)) blocks;
  co_chain : Reorg.chain (chain_of blocks ++ c :: lc);
  co_hashes : NoDup (st_hash <$> chain_of blocks ++ c :: lc);
  co_new : Forall (fun b => cf_get db blocks_state_hash_cf (sh_key (state_hash b)) = None) blocks;
  co_transactions : ForallOrdPairs (fun a b => forall u v, u ∈ bc_user (content (state_hash a)) -> v ∈ bc_user (content (state_hash b)) -> th u <> th v) blocks;
  co_fresh : Forall (fun b => fresh_transactions content db b th) blocks;
  co_staged : Forall (fun b => staged db (state_hash b) (fun _ _ => None)) blocks;
  co_bounded : chain_bounded content (chain_of blocks ++ c :: lc);
  co_length : Z.of_nat (length (chain_of blocks ++ c :: lc)) <= U32_MAX
}.

Lemma chain_of_cons block blocks lc : chain_of (block :: blocks) ++ lc = chain_of blocks ++ stored_of block :: lc.
Proof. unfold chain_of. cbn [fmap list_fmap rev]. by rewrite <- app_assoc. Qed.

Lemma chain_suffix (l1 l2 : list Stored) : Reorg.chain (l1 ++ l2) -> Reorg.chain l2.
Proof. induction l1 as [|s l1 IH]; [done|]. cbn [app]. intros Hc. apply IH. destruct (l1 ++ l2); [done|]. by destruct Hc. Qed.
Lemma chain_bounded_suffix (l1 l2 : list Stored) : chain_bounded content (l1 ++ l2) -> chain_bounded content l2.
Proof. induction l1 as [|s l1 IH]; [done|]. intros Hb%chain_bounded_tail. by apply IH. Qed.

(** The first of the blocks is the next one. *)
Lemma continues_next db block blocks th c lc : continues db (block :: blocks) th c lc -> next_block_of content db block th c lc.
Proof.
  intros Hco. destruct Hco. rewrite chain_of_cons in *. apply Forall_cons in co_sound0 as [Hs _], co_new0 as [Hn _], co_fresh0 as [Hf _]. split; try done.
  - apply chain_suffix in co_chain0. apply co_chain0.
  - rewrite fmap_app in co_hashes0. apply NoDup_app in co_hashes0 as (_ & _ & Hnd). cbn [fmap list_fmap] in Hnd. apply NoDup_cons in Hnd as [Hni _].
    apply Forall_forall. intros s Hin E. apply Hni. change (st_hash (stored_of block)) with (state_hash block). rewrite <- E. by apply (list_elem_of_fmap_2 st_hash (c :: lc)).
  - by apply chain_bounded_suffix in co_bounded0.
  - rewrite length_app in co_length0. lia.
Qed.

(** It is none of the others. *)
Lemma continues_distinct db block blocks th c lc : continues db (block :: blocks) th c lc -> Forall (fun b => state_hash b <> state_hash block) blocks.
Proof.
  intros Hco. destruct Hco. rewrite chain_of_cons in *. apply Forall_forall. intros b Hb E. rewrite fmap_app in co_hashes0.
  apply NoDup_app in co_hashes0 as (_ & Hd & _). apply (Hd (state_hash b)).
  - unfold chain_of. apply (list_elem_of_fmap_2 st_hash _ (stored_of b)). apply list_elem_of_In, in_rev. rewrite rev_involutive. apply list_elem_of_In.
    by apply list_elem_of_fmap_2.
  - rewrite E. by left.
Qed.

(** The others continue the chain with it. *)
Lemma continues_rest db db' block blocks th c lc :
  continues db (block :: blocks) th c lc ->
  (forall g, g <> state_hash block -> cf_get db' blocks_state_hash_cf (sh_key g) = cf_get db blocks_state_hash_cf (sh_key g)) ->
  (forall t, txn_wf t -> (forall u, u ∈ bc_user (content (state_hash block)) -> th u <> t) ->
     cf_get db' user_command_state_hashes_cf (txn_key t) = cf_get db user_command_state_hashes_cf (txn_key t)) ->
  (forall g, sh_wf g -> g <> state_hash block -> staged db g (fun _ _ => None) -> staged db' g (fun _ _ => None)) ->
  continues db' blocks th (stored_of block) (c :: lc).
Proof.
  intros Hco Hn Ht Hst. pose proof (continues_distinct _ _ _ _ _ _ Hco) as Hne. destruct Hco. rewrite chain_of_cons in *. inversion co_transactions0 as [|x xs Hpair Hpairs]; subst.
  apply Forall_cons in co_sound0 as [_ Hs], co_ledger_hash0 as [_ Hlh], co_new0 as [_ Hnew], co_fresh0 as [_ Hf], co_staged0 as [_ Hsg].
  rewrite Forall_forall in *.
  split; try done; rewrite ?Forall_forall; try done.
  - intros b Hb. rewrite Hn by (by apply Hne). by apply Hnew.
  - intros b Hb u Hu. rewrite Ht; [exact (Hf b Hb u Hu)| |].
    + by apply (sb_user _ _ _ (Hs b Hb)).
    + intros v Hv. apply (Hpair b Hb v u Hv Hu).
  - intros b Hb. apply Hst; [apply (Hs b Hb)|by apply Hne|by apply Hsg].
Qed.

(** ** The loop *)

Lemma diff_created_nonneg d : 0 <= created d.
Proof. unfold created. lia. Qed.
Lemma sum_created_nonneg (ds : list LedgerDiff) : 0 <= sumZ (created <$> ds).
Proof. induction ds as [|d ds IH]; [done|]. cbn [fmap list_fmap sumZ foldr] in *. unfold sumZ in IH. pose proof (diff_created_nonneg d). lia. Qed.

Lemma accounts_next block blocks get :
  accounts_after content [] (chain_of blocks) (accounts_after content [] [stored_of block] get) = accounts_after content [] (chain_of (block :: blocks)) get.
Proof. unfold accounts_after, chain_of. by rewrite !rev_involutive. Qed.
Lemma fees_next block blocks fees :
  fees_after content [] (chain_of blocks) (fees_after content [] [stored_of block] fees) = fees_after content [] (chain_of (block :: blocks)) fees.
Proof. unfold fees_after, chain_of. by rewrite !rev_involutive. Qed.
Lemma num_accounts_next block blocks num :
  0 <= num -> num_accounts_after content [] (chain_of blocks) (num_accounts_after content [] [stored_of block] num) =
    num_accounts_after content [] (chain_of (block :: blocks)) num.
Proof.
  intros Hn. unfold num_accounts_after, chain_of. cbn [fmap list_fmap rev].
  unfold diffs_of_blocks. rewrite fmap_app, fmap_app, sumZ_app. cbn [fmap list_fmap sumZ foldr].
  pose proof (sum_created_nonneg ((fun s => bc_diff (content (st_hash s))) <$> rev (stored_of <$> blocks))) as H1'.
  pose proof (diff_created_nonneg (bc_diff (content (state_hash block)))) as H2'. cbn [stored_of st_hash]. unfold clamp32, sumZ in *. lia.
Qed.

Lemma view_num_accounts db chain get num fees es : best_view content db chain get num fees es -> u32 num.
Proof.
  intros Hv. destruct (get_u32_typed db default_cf TOTAL_NUM_ACCOUNTS_KEY (pr_typed _ _ (ca_production _ _ (bv_canonical _ _ _ _ _ _ _ Hv))) eq_refl) as (m & Hm & E).
  pose proof (bv_num_accounts _ _ _ _ _ _ _ Hv) as E'. assert (m = num) as -> by congruence. done.
Qed.

(** All the blocks are under their hashes. *)
Definition blocks_written (blocks : list (PrecomputedBlock * Z)) db db' : Prop :=
  Forall (fun p => cf_get db' blocks_cf (sh_key (state_hash p.1)) = Some (u64_be p.2 ++ to_json p.1)) blocks /\
  (forall h, sh_wf h -> Forall (fun p => state_hash p.1 <> h) blocks -> cf_get db' blocks_cf (sh_key h) = cf_get db blocks_cf (sh_key h)).

Lemma blocks_written_cons block n blocks db db1 db2 :
  block_written block n db db1 -> blocks_written blocks db1 db2 -> sh_wf (state_hash block) -> Forall (fun p => state_hash p.1 <> state_hash block) blocks ->
  blocks_written ((block, n) :: blocks) db db2.
Proof.
  intros [H1' H2'] [H3' H4'] Hwf Hne. split.
  - constructor; [|done]. cbn [fst snd]. by rewrite H4'.
  - intros h Hh Ha. apply Forall_cons in Ha as [Hb Ha]. rewrite H4' by done. apply H2'; [done|]. intros ->. by apply Hb.
Qed.

Lemma ingest_loop_runs fuel N th blocks ix parser parser' pending db c lc get num fees es :
  ingesting ix db (c :: lc) get num fees es pending -> delivers parser blocks parser' -> continues db blocks.*1 th c lc ->
  0 <= st_blocks_processed (ix_state ix) -> st_blocks_processed (ix_state ix) + Z.of_nat (length blocks) = N + 1 -> N < U32_MAX ->
  Z.of_nat (length es) + 4 * Z.of_nat (length blocks) <= U32_MAX ->
  exists ix' db' es' pending', ingest_loop (length blocks) fuel N (ix, parser, pending) = Some (Ok (ix', parser', pending')) /\
    ingesting ix' db' (chain_of blocks.*1 ++ c :: lc) (accounts_after content [] (chain_of blocks.*1) get)
      (num_accounts_after content [] (chain_of blocks.*1) num) (fees_after content [] (chain_of blocks.*1) fees) (es ++ es') pending' /\
    (forall b, last blocks.*1 = Some b -> rooted_at ix' (state_hash b)) /\ blocks_written blocks db db'.
Proof.
  intros Hi Hd. revert ix pending db c lc get num fees es Hi.
  induction Hd as [p|p block bytes p1 blocks p2 En _ IH]; intros ix pending db c lc get num fees es Hi Hco Hk0 Hk HN Hes.
  { exists ix, db, [], pending. cbn [length ingest_loop fst] in *. destruct (Z.leb_spec (st_blocks_processed (ix_state ix)) N); [lia|]. split; [done|]. split; [|by repeat split].
    rewrite app_nil_r. replace (num_accounts_after content [] (chain_of ([] : list (PrecomputedBlock * Z)).*1) num) with num; [done|].
    pose proof (view_num_accounts _ _ _ _ _ _ (cs_view _ _ _ _ _ _ _ (ig_chain _ _ _ _ _ _ _ _ Hi))) as Hu. change (num = clamp32 (num + 0 - 0)). unfold clamp32. ints. }
  cbn [length fmap list_fmap fst] in *.
  destruct (ingest_canonical_step fuel N ix p p1 pending block bytes th db c lc get num fees es Hi En (continues_next _ _ _ _ _ _ Hco))
    as (ix1 & db1 & es1 & pending1 & E1 & He1 & Hi1 & Ek1 & Hr1 & Hn1 & Ht1 & Hs1 & Hw1);
    [by apply (Forall_inv (co_staged _ _ _ _ _ Hco))|by apply (Forall_inv (co_ledger_hash _ _ _ _ _ Hco))|lia|].
  rewrite wrap32_id in * by ints.
  destruct (IH ix1 pending1 db1 (stored_of block) (c :: lc) _ _ _ (es ++ es1) Hi1) as (ix2 & db2 & es2 & pending2 & E2 & Hi2 & Hr2 & Hw2);
    [by apply (continues_rest db)|lia|lia|lia|rewrite length_app; lia|].
  exists ix2, db2, (es1 ++ es2), pending2. split; [|split; [|split]].
  - cbn [ingest_loop fst]. destruct (Z.leb_spec (st_blocks_processed (ix_state ix)) N); [|lia]. rewrite E1. cbn [fbind]. exact E2.
  - rewrite chain_of_cons, <- accounts_next, <- fees_next, app_assoc, <- num_accounts_next; [done|].
    pose proof (view_num_accounts _ _ _ _ _ _ (cs_view _ _ _ _ _ _ _ (ig_chain _ _ _ _ _ _ _ _ Hi))). ints.
  - intros b Hb. destruct blocks as [|[b2 n2] blocks]; [|by apply Hr2]. injection Hb as <-. cbn [length ingest_loop fst] in E2.
    destruct (Z.leb_spec (st_blocks_processed (ix_state ix1)) N); [discriminate E2|]. injection E2 as <- <- <-. apply Hr1. cbn [length] in Hk. lia.
  - eapply blocks_written_cons; [exact Hw1|exact Hw2|apply (Forall_inv (co_sound _ _ _ _ _ Hco))|].
    by apply continues_distinct in Hco; rewrite Forall_fmap in Hco.
Qed.

Lemma get_block_written db block n :
  u64 n -> cf_get db blocks_cf (sh_key (state_hash block)) = Some (u64_be n ++ to_json block) -> get_block db (state_hash block) = Ok (Some (block, n)).
Proof.
  intros Hn E. unfold get_block. rewrite E, slice_from_app by keylen. cbn [mbind res_bind and_then_ok]. rewrite json_roundtrip. cbn [mbind res_bind].
  rewrite slice_to_app by keylen. cbn [mbind res_bind]. by rewrite u64_from_be_bytes_be.
Qed.

(** C2: The deep canonical blocks are ingested: when the files of the parser are those of a chain of new, well-formed blocks above the best tip, the
    loop over them ends after one step per block, however many ledgers it stores on the way; all the stores then follow the chain up to the last of the blocks,
    the best ledger with the diffs of the blocks applied to it in order, every block is read back, and the witness tree is rooted at the last. *)
Theorem canonical_chain_ingested fuel th blocks ix parser parser' db c lc get num fees es :
  ix_store ix = Some db -> chain_store content db (c :: lc) get num fees es -> staged_ok db -> good_ledger (st_ledger (ix_state ix)) ->
  st_blocks_processed (ix_state ix) = 1 -> 0 < st_ledger_cadence (ix_state ix) ->
  delivers parser blocks parser' -> continues db blocks.*1 th c lc -> blocks <> [] ->
  Z.of_nat (length es) + 4 * Z.of_nat (length blocks) <= U32_MAX ->
  exists ix' db' es' pending,
    ingest_loop (length blocks) fuel (Z.of_nat (length blocks)) (ix, parser, []) = Some (Ok (ix', parser', pending)) /\
    ix_store ix' = Some db' /\
    chain_store content db' (chain_of blocks.*1 ++ c :: lc) (accounts_after content [] (chain_of blocks.*1) get)
      (num_accounts_after content [] (chain_of blocks.*1) num) (fees_after content [] (chain_of blocks.*1) fees) (es ++ es') /\
    (forall b n, (b, n) ∈ blocks -> u64 n -> get_block db' (state_hash b) = Ok (Some (b, n))) /\
    exists b, last blocks.*1 = Some b /\ rooted_at ix' (state_hash b).
Proof.
  intros Est Hcs Hok Hl Ek Hc Hd Hco Hne Hes.
  destruct (ingest_loop_runs fuel (Z.of_nat (length blocks)) th blocks ix parser parser' [] db c lc get num fees es) as (ix' & db' & es' & pending & E & Hi & Hr & [Hw _]);
    [by split|done|done|lia|lia| |done|].
  { assert (0 < length blocks)%nat by (destruct blocks; [done|cbn; lia]). ints. }
  exists ix', db', es', pending. split; [done|]. destruct Hi. split; [done|]. split; [done|]. split.
  { intros b n Hb Hn. rewrite Forall_forall in Hw. apply get_block_written; [done|]. by apply (Hw (b, n)). }
  destruct (last blocks.*1) as [b|] eqn:El; [|by apply last_None, fmap_nil_inv in El]. exists b. split; [done|]. by apply Hr.
Qed.

(** ** The ledger of the canonical root *)

Lemma reads_unique p d1 p1 d2 p2 : reads p d1 p1 -> reads p d2 p2 -> length d1 = length d2 -> d1 = d2 /\ p1 = p2.
Proof.
  intros Hr. revert d2 p2. induction Hr as [p|p d1 p1 b1 n1 x1 p1' _ IH En1 Ed1]; intros d2 p2 Hr2 Hl; destruct Hr2 as [p|p d2 p2 b2 n2 x2 p2' Hr2 En2 Ed2];
    rewrite ?length_app in Hl; cbn [length] in Hl; [done|lia|lia|].
  destruct (IH _ _ Hr2) as [-> ->]; [lia|]. rewrite En1 in En2. injection En2 as -> -> ->. by assert (x1 = x2) as -> by congruence.
Qed.

(** The diffs of the blocks that the parser delivers. *)
Definition diffs_of (blocks : list (PrecomputedBlock * Z)) : list LedgerDiff := (fun b => bc_diff (content (state_hash b))) <$> blocks.*1.

Lemma delivers_reads p blocks p' th p0 diffs :
  delivers p blocks p' -> Forall (fun b => sound_block content b th) blocks.*1 -> reads p0 diffs p -> reads p0 (diffs ++ diffs_of blocks) p'.
Proof.
  intros Hd. revert diffs. induction Hd as [p|p block bytes p1 blocks p2 En _ IH]; intros diffs Hs Hr; [by rewrite app_nil_r|].
  cbn [fmap list_fmap fst] in Hs. apply Forall_cons in Hs as [Hb Hs]. unfold diffs_of. cbn [fmap list_fmap fst].
  rewrite cons_middle, app_assoc. apply IH; [done|]. eapply reads_snoc; [exact Hr|exact En|].
  destruct (contents_of_inv _ _ (sb_contents _ _ _ Hb)) as (_ & Ed & _). exact Ed.
Qed.

(** C29: The ledger that the state has after the deep canonical blocks are ingested: under the conditions under which the loop ends, it
    is the ledger at the start with the diffs of these blocks up to the last ledger that was stored and, once more or
    for the first time, the diff of the last block; the diffs after that stored ledger are left in the vector in which they
    wait.  It is the ledger of the last block, the canonical root, when the last ledger was stored one block before; when it
    was stored earlier the diffs between are missing, and when it was stored at the last block its diff is applied twice. *)
Theorem initial_ledger_diffs fuel th blocks ix parser parser' db c lc get num fees es :
  ix_store ix = Some db -> chain_store content db (c :: lc) get num fees es -> staged_ok db -> good_ledger (st_ledger (ix_state ix)) ->
  st_blocks_processed (ix_state ix) = 1 -> 0 < st_ledger_cadence (ix_state ix) ->
  delivers parser blocks parser' -> continues db blocks.*1 th c lc -> blocks <> [] ->
  Z.of_nat (length es) + 4 * Z.of_nat (length blocks) <= U32_MAX ->
  let k := in_last_ledger (st_ledger_cadence (ix_state ix)) (Z.of_nat (length blocks)) in
  exists ix' pending d,
    ingest_loop (length blocks) fuel (Z.of_nat (length blocks)) (ix, parser, []) = Some (Ok (ix', parser', pending)) /\
    last (diffs_of blocks) = Some d /\ (k <= length blocks)%nat /\
    foldM ledger_apply_diff (st_ledger (ix_state ix)) (take k (diffs_of blocks) ++ [d]) = Ok (st_ledger (ix_state ix')) /\
    pending = drop k (diffs_of blocks) /\
    (S k = length blocks -> foldM ledger_apply_diff (st_ledger (ix_state ix)) (diffs_of blocks) = Ok (st_ledger (ix_state ix'))).
Proof.
  intros Est Hcs Hok Hl Ek Hc Hd Hco Hne Hes k.
  assert (0 < length blocks)%nat as Hlen by (destruct blocks; [done|cbn; lia]).
  destruct (ingest_loop_runs fuel (Z.of_nat (length blocks)) th blocks ix parser parser' [] db c lc get num fees es) as (ix' & db' & es' & pending & E & _);
    [by split|done|done|lia|lia|ints|done|].
  pose proof (delivers_reads parser blocks parser' th parser [] Hd (co_sound _ _ _ _ _ Hco) (reads_nil _)) as Hr. cbn [app] in Hr.
  destruct (ingest_loop_inv (st_ledger_cadence (ix_state ix)) (Z.of_nat (length blocks)) (st_ledger (ix_state ix)) parser (length blocks) fuel ix parser []
    ix' parser' pending [] 0) as (diffs & d & Hr' & Hl' & Ef & Ep); [done|done|done|done|lia|ints|constructor|done|by rewrite take_nil|by rewrite drop_nil|].
  destruct (reads_unique _ _ _ _ _ Hr' Hr) as [Eds _]; [unfold diffs_of; rewrite !length_fmap; lia|]. rewrite Eds in *. fold k in Ef, Ep.
  exists ix', pending, d. split_and!; [done|by rewrite <- Eds, last_snoc| |done|done|].
  - pose proof (in_last_ledger_le (st_ledger_cadence (ix_state ix)) (Z.of_nat (length blocks)) Hc ltac:(lia)) as Hle. rewrite Nat2Z.id in Hle. exact Hle.
  - intros Hk. rewrite <- Ef. f_equal. rewrite <- Eds in Hl' |- *. rewrite length_app in Hl'. cbn [length] in Hl'. by rewrite take_app_length' by lia.
Qed.
End Loop.

(** * Examples *)

Section IngestExamples.
#[local] Existing Instances nat_tree nat_tree_spec map_db map_db_spec countable_json one_txn insertion_sort_by whole_decimal digest_example untagged_json sorted_iter.
#[local] Existing Instances tip_diff_iter tip_prover_iter tip_username_iter.
#[local] Instance ingest_ledger_iter : LedgerIter :=
  {| token_iter := map_to_list; token_iter_perm l := Permutation_refl _; account_iter := map_to_list; account_iter_perm l := Permutation_refl _ |}.

(** Two files, of a child of the best tip and of its child, with a coinbase each. *)
Definition ingest_paths : list Path := [example_path "12" "d"; example_path "13" "e"].
Definition ingest_header (first : bool) : BlockHeader :=
  mkHeader "mainnet" sh_default 0 0 (if first then st_hash ex_a1 else mkSh (example_hash "d")) lh_default (mkSh HARDFORK_GENESIS_HASH) 0 0 pk_example pk_example pk_example false
    (if first then 25 else 26) 0 [].
#[local] Instance ingest_heads : BlockFiles :=
  {| read_head n _ := Ok (take n (quoted "genesis_state_hash" ++ as_bytes ":" ++ quoted HARDFORK_GENESIS_HASH)) |}.
#[local] Instance ingest_files : BlockDisk :=
  {| file_len _ := Some 100;
     read_file path := Ok (if bool_decide (path = example_path "12" "d") then [0] else [1]);
     json_v1 _ := Err;
     json_v2 l := Ok (ingest_header (bool_decide (l = [0])), [Some (mkDiffV2 [] [] (V2One None)); None], [], []) |}.
Definition ingest_parser (paths : list Path) : BlockParser := mkParser 0 2 0 2 0 200 200 V2 paths [] [].

Definition ingest_blocks : list PrecomputedBlock :=
  [PcbV2 (named (mkContentsOf "mainnet" 12 (mkSh (example_hash "d")) [0]) (ingest_header true)) [Some (mkDiffV2 [] [] (V2One None)); None] [] [];
   PcbV2 (named (mkContentsOf "mainnet" 13 (mkSh (example_hash "e")) [1]) (ingest_header false)) [Some (mkDiffV2 [] [] (V2One None)); None] [] []].

Definition parser_after (p : BlockParser) : BlockParser := match next_block p with Ok (_, p) => p | _ => p end.
Lemma ingest_delivers :
  delivers (ingest_parser ingest_paths) ((fun b => (b, 100)) <$> ingest_blocks) (parser_after (parser_after (ingest_parser ingest_paths))).
Proof.
  apply (delivers_cons _ _ _ (parser_after (ingest_parser ingest_paths))); [vm_compute; reflexivity|].
  apply (delivers_cons _ _ _ (parser_after (parser_after (ingest_parser ingest_paths)))); [vm_compute; reflexivity|]. constructor.
Qed.

(** What is kept of these blocks, and of those below. *)
Definition ingest_content (h : StateHash) : BlockContents :=
  match List.find (fun b => bool_decide (state_hash b = h)) ingest_blocks with
  | Some b => match contents_of b with Ok c => c | _ => content_example h end
  | None => content_example h
  end.

Definition first_ingested : PrecomputedBlock := hd coinbase_block ingest_blocks.
Definition second_ingested : PrecomputedBlock := List.last ingest_blocks coinbase_block.
Definition is_ok {A} (r : res A) : bool := match r with Ok _ => true | _ => false end.

Lemma ingest_contents b :
  b = first_ingested \/ b = second_ingested -> contents_of b = Ok (ingest_content (state_hash b)).
Proof.
  intros Hb. assert (is_ok (contents_of b) = true) as Hok by (by destruct Hb as [-> | ->]; vm_compute).
  unfold ingest_content. assert (List.find (fun b' => bool_decide (state_hash b' = state_hash b)) ingest_blocks = Some b) as ->.
  { unfold first_ingested, second_ingested, ingest_blocks in *. destruct Hb as [-> | ->]; cbn [List.find hd List.last].
    - by rewrite bool_decide_true.
    - rewrite bool_decide_false by (vm_compute; discriminate). by rewrite bool_decide_true. }
  by destruct (contents_of b).
Qed.

Definition coinbase_diff : AccountDiff := DCoinbase (mkCoinbaseDiff pk_example MAINNET_COINBASE_REWARD).

Lemma ingest_parts b :
  b = first_ingested \/ b = second_ingested ->
  bc_names (ingest_content (state_hash b)) = ∅ /\ bc_works (ingest_content (state_hash b)) = [] /\ bc_user (ingest_content (state_hash b)) = [] /\
  length (bc_internal (ingest_content (state_hash b))) = 1%nat /\ created (bc_diff (ingest_content (state_hash b))) = 0 /\
  block_diffs (bc_diff (ingest_content (state_hash b))) = [coinbase_diff].
Proof. intros [-> | ->]; (split_and!; vm_compute; reflexivity). Qed.

Lemma ingest_sound b : b = first_ingested \/ b = second_ingested -> sound_block ingest_content b coinbase_transaction.
Proof.
  intros Hb. destruct (ingest_parts b Hb) as (En & Ew & Eu & Ei & Ec & Ed). split; rewrite ?En, ?Ew, ?Eu, ?Ei, ?Ec, ?Ed.
  - by apply ingest_contents.
  - split; rewrite ?En, ?Ew; [constructor|]. intros k. rewrite lookup_empty. by intros [].
  - vm_compute. discriminate.
  - intros l E. destruct Hb as [-> | ->]; vm_compute in E; injection E as <-; apply Forall_singleton, pk_example_wf.
  - vm_compute. discriminate.
  - destruct Hb as [-> | ->]; vm_compute; done.
  - destruct Hb as [-> | ->]; vm_compute; done.
  - destruct Hb as [-> | ->]; vm_compute; done.
  - destruct Hb as [-> | ->]; vm_compute; split; discriminate.
  - destruct Hb as [-> | ->]; vm_compute; split; discriminate.
  - destruct Hb as [-> | ->]; vm_compute; split; discriminate.
  - intros pks E. destruct Hb as [-> | ->]; vm_compute in E; injection E as <-; repeat constructor; apply pk_example_wf.
  - by intros u ?%not_elem_of_nil.
  - destruct Hb as [-> | ->]; vm_compute; done.
  - apply Forall_singleton. split_and!; [|split; [apply pk_example_wf|apply token_default_wf]|done]. split; [|done]. vm_compute. split; discriminate.
  - done.
Qed.

(** The stores of the chain that the blocks continue. *)
Lemma ingest_store db :
  writes_in (block_families ++ canonicity_families) (∅ : Db) db -> fork db [ex_a1] [ex_b2; ex_b1] ex_c [] ->
  chain_store ingest_content (tip_store db) [ex_a1; ex_c] (fun _ _ => None) 0 (fun _ => mkSnarkFees 0 0 U64_MAX) [] /\
  staged_ok (tip_store db) /\ continues ingest_content (tip_store db) ingest_blocks coinbase_transaction ex_a1 [ex_c].
Proof.
  intros Hw Hf. pose proof (fo_canonical _ _ _ _ _ Hf) as Hca. cbn [app] in Hca. pose proof (pr_typed _ _ (ca_production _ _ Hca)) as Hdb.
  destruct (tip_store_spec db Hdb Hw) as (Hdb' & Hw' & Hnone & _). split; [|split].
  - split.
    + pose proof (tip_store_view db Hw Hca) as Hv. destruct Hv. split; try done.
    + pose proof (fo_stored _ _ _ _ _ Hf) as Hst. rewrite Forall_forall in *. intros s Hs. eapply stored_frame; [exact Hw'|reflexivity|]. apply Hst. set_solver.
    + by apply (fo_old _ _ _ _ _ Hf).
  - intros k v E. by rewrite Hnone in E.
  - assert (forall P : PrecomputedBlock -> Prop, (forall b, b = first_ingested \/ b = second_ingested -> P b) -> Forall P ingest_blocks) as Hall.
    { intros P HP. constructor; [apply HP; by left|]. constructor; [apply HP; by right|constructor]. }
    split.
    + apply Hall, ingest_sound.
    + apply Hall. intros b [-> | ->]; vm_compute; done.
    + split_and!; vm_compute; done.
    + apply (bool_decide_unpack _). vm_compute. done.
    + apply Hall. intros b _. by apply Hnone.
    + assert (forall u, u ∈ bc_user (ingest_content (state_hash first_ingested)) -> False) as Hno.
      { destruct (ingest_parts first_ingested ltac:(by left)) as (_ & _ & -> & _). by intros u ?%not_elem_of_nil. }
      constructor; [|constructor; constructor]. constructor; [|constructor]. intros u v Hu _. by apply Hno in Hu.
    + apply Hall. intros b Hb u Hu. destruct (ingest_parts b Hb) as (_ & _ & Eu & _). rewrite Eu in Hu. by apply not_elem_of_nil in Hu.
    + apply Hall. intros b _. split; intros; by rewrite Hnone.
    + vm_compute. split_and!; discriminate.
    + vm_compute. discriminate.
Qed.

(** The indexer before the loop, which stores the ledger of the first block. *)
Definition ingest_start (db : Db) : Indexer :=
  mkIndexer {| st_ledger := ∅; st_diffs_map := ∅; st_canonical_root := mkTip sh_default 0%nat; st_best_tip := mkTip sh_default 0%nat;
    st_root_branch := mkBranch 0%nat tree_new; st_dangling_branches := []; st_indexer_store := Some db; st_transition_frontier_length := 290;
    st_prune_interval := 10; st_canonical_update_threshold := 5; st_blocks_processed := 1; st_ledger_cadence := 2 |} 0 0 10 ∅.

(** The two blocks are ingested, and their two coinbases are in the best ledger. *)
Lemma canonical_chain_ingested_witness :
  exists db ix' db' p pending, ingest_loop 2 0 2 (ingest_start db, ingest_parser ingest_paths, []) = Some (Ok (ix', p, pending)) /\
    ix_store ix' = Some db' /\ get_best_block_hash db' = Ok (Some (mkSh (example_hash "e"))) /\
    exists a, get_best_account db' pk_example token_default = Ok (Some a) /\ acct_balance a = 2 * MAINNET_COINBASE_REWARD.
Proof.
  destruct fork_example as (db & Hw & Hf & _). destruct (ingest_store db Hw Hf) as (Hcs & Hok & Hco).
  destruct (canonical_chain_ingested ingest_content 0 coinbase_transaction ((fun b => (b, 100)) <$> ingest_blocks) (ingest_start (tip_store db))
    (ingest_parser ingest_paths) (parser_after (parser_after (ingest_parser ingest_paths))) (tip_store db) ex_a1 [ex_c] (fun _ _ => None) 0
    (fun _ => mkSnarkFees 0 0 U64_MAX) []) as (ix' & db' & es' & pending & E & Est & Hcs' & _).
  - reflexivity.
  - exact Hcs.
  - exact Hok.
  - split; intros pk token a Ha; discriminate Ha.
  - reflexivity.
  - reflexivity.
  - exact ingest_delivers.
  - exact Hco.
  - discriminate.
  - vm_compute. discriminate.
  - exists (tip_store db), ix', db', (parser_after (parser_after (ingest_parser ingest_paths))), pending. split; [exact E|]. split; [exact Est|].
    pose proof (cs_view _ _ _ _ _ _ _ Hcs') as Hv. split; [exact (bv_tip _ _ _ _ _ _ _ Hv)|].
    pose proof (get_best_account_eq _ _ pk_example token_default (bv_accounts _ _ _ _ _ _ _ Hv) pk_example_wf token_default_wf) as Ea.
    destruct (accounts_after _ _ _ _ _ _) as [a|] eqn:Eg in Ea; vm_compute in Eg; [|discriminate Eg]. exists a. split; [exact Ea|].
    injection Eg as <-. reflexivity.
Defined.

(** With a ledger stored every ten blocks only, the first of the two coinbases is not in the ledger of the state. *)
Definition rare_start (db : Db) : Indexer :=
  mkIndexer {| st_ledger := ∅; st_diffs_map := ∅; st_canonical_root := mkTip sh_default 0%nat; st_best_tip := mkTip sh_default 0%nat;
    st_root_branch := mkBranch 0%nat tree_new; st_dangling_branches := []; st_indexer_store := Some db; st_transition_frontier_length := 290;
    st_prune_interval := 10; st_canonical_update_threshold := 5; st_blocks_processed := 1; st_ledger_cadence := 10 |} 0 0 10 ∅.

Lemma initial_ledger_diffs_witness :
  exists db ix' p pending, ingest_loop 2 0 2 (rare_start db, ingest_parser ingest_paths, []) = Some (Ok (ix', p, pending)) /\
    length pending = 2%nat /\
    option_map acct_balance (get_account (st_ledger (ix_state ix')) pk_example token_default) = Some MAINNET_COINBASE_REWARD.
Proof.
  destruct fork_example as (db & Hw & Hf & _). destruct (ingest_store db Hw Hf) as (Hcs & Hok & Hco).
  destruct (initial_ledger_diffs ingest_content 0 coinbase_transaction ((fun b => (b, 100)) <$> ingest_blocks) (rare_start (tip_store db))
    (ingest_parser ingest_paths) (parser_after (parser_after (ingest_parser ingest_paths))) (tip_store db) ex_a1 [ex_c] (fun _ _ => None) 0
    (fun _ => mkSnarkFees 0 0 U64_MAX) []) as (ix' & pending & d & E & Ed & _ & Ef & Ep & _).
  - reflexivity.
  - exact Hcs.
  - exact Hok.
  - split; intros pk token a Ha; discriminate Ha.
  - reflexivity.
  - reflexivity.
  - exact ingest_delivers.
  - exact Hco.
  - discriminate.
  - vm_compute. discriminate.
  - exists (tip_store db), ix', (parser_after (parser_after (ingest_parser ingest_paths))), pending. split; [exact E|]. split; [rewrite Ep; vm_compute; reflexivity|].
    assert (match last (diffs_of ingest_content ((fun b => (b, 100)) <$> ingest_blocks)) with
      | Some d => match foldM ledger_apply_diff (∅ : Ledger) [d] with
                  | Ok l => bool_decide (option_map acct_balance (get_account l pk_example token_default) = Some MAINNET_COINBASE_REWARD)
                  | _ => false end
      | None => false end = true) as Hc by (vm_compute; reflexivity).
    rewrite Ed in Hc. change (foldM ledger_apply_diff (∅ : Ledger) [d] = Ok (st_ledger (ix_state ix'))) in Ef. rewrite Ef in Hc.
    exact (bool_decide_eq_true_1 _ Hc).
Defined.
End IngestExamples.
