(* ===== verification/Blocks.v ===== *)
(** What a block is once it was added (src/rust/src/store/block_store_impl.rs, [add_block] and the getters by state hash): the
    blocks that can be added to a store, and all that the store gives back for the hash of one. *)

From S2P Require Import Prelude Sorting Bytes Base StoreKeys Command AccountDiff Account Coinbase Precomputed Signed LedgerDiff Ledger BlockOrder InternalCommand Discovery Rose Branch WitnessTree Growth ColumnFamilies Db Events Codes BlockCodes Schema BlockIndex Usernames InternalStore CommandStore Canonicity Reorg SnarkStore SnarkLists StagedStore BlockStore BestTip Ingest.

(** * Internal commands of any block *)

Section Internal.
Context `{Decimal} `{HashMapIter}.
Implicit Types (P : PublicKey -> Prop) (b : PrecomputedBlock).

Definition cmd_receiver (c : InternalCommand) : PublicKey :=
  match c with ICoinbase r _ | IFeeTransfer _ r _ | IFeeTransferViaCoinbase _ r _ => r end.

(** A fee transaction that credits a key with the property. *)
Definition credits P (txn : list AccountDiff) : Prop := exists f t a, fee_txn txn = Some (f, t, a) /\ P t.

Lemma add_fee_transfer_receivers P cmds s r credit debit :
  Forall (fun c => P (cmd_receiver c)) cmds -> P r -> Forall (fun c => P (cmd_receiver c)) (add_fee_transfer cmds s r credit debit).
Proof.
  intros Hc Hr. induction Hc as [|c cmds Hc Hcs IH]; [by repeat constructor|].
  destruct c; cbn [add_fee_transfer]; try (by constructor). destruct (_ && _); by constructor.
Qed.

Lemma internal_step_receivers P cmds txn :
  credits P txn -> Forall (fun c => P (cmd_receiver c)) cmds ->
  exists cmds', internal_step cmds txn = Ok cmds' /\ Forall (fun c => P (cmd_receiver c)) cmds'.
Proof.
  intros (f & t & a & Hf & Ht) Hc. unfold fee_txn in Hf.
  repeat (case_match; try done); simplify_eq/=;
    repeat match goal with H : _ && _ = true |- _ => apply andb_true_iff in H as [? ?] end;
    match goal with H : (pd_amount _ =? pd_amount _) = true |- _ => apply Z.eqb_eq in H as Ha end;
    repeat match goal with H : context [update_type ?d] |- _ => destruct (update_type d); try done end;
    cbn [mbind res_bind]; rewrite Ha, signed_amounts_cancel; cbn [Z.eqb negb]; (eexists; split; [done|]).
  - by apply add_fee_transfer_receivers.
  - apply Forall_app. split; [done|]. by apply Forall_singleton.
Qed.

Lemma fee_map_keys (P : PublicKey -> Prop) l m :
  Forall (fun e => P e.1) l -> map_Forall (fun k _ => P k) m -> map_Forall (fun k _ => P k) (fold_left fee_map_add l m).
Proof.
  intros Hl. revert m. induction Hl as [|e l He _ IH]; intros m Hm; [done|]. cbn [fold_left]. apply IH. by apply map_Forall_insert_2.
Qed.

Lemma fee_pairs_credit P (to_ from_ : PublicKey -> PublicKey) es :
  Forall (fun e => P (to_ e.1)) es -> Forall (credits P) (fee_pairs (fun k fee => fee_transfer_pair (to_ k) (from_ k) fee) es).
Proof.
  induction 1 as [|[k v] es He _ IH]; [constructor|]. unfold fee_pairs in *. csimpl. apply Forall_app. split; [|done].
  destruct (Z.gtb_spec v 0); constructor; [|constructor]. exists (from_ k), (to_ k), v. split; [|done].
  unfold fee_txn, fee_transfer_pair. cbn. rewrite Z.eqb_refl. by replace (0 <=? v) with true by lia.
Qed.

Lemma block_fees_credit P receiver pre post works :
  P receiver -> Forall (fun s => P (snark_prover s)) works -> Forall (credits P) (from_block_fees receiver pre post works).
Proof.
  intros Hr Hw. unfold from_block_fees, from_transaction_fees, transaction_fees, from_snark_fees. rewrite !Forall_app.
  split; [split; apply (fee_pairs_credit P (fun _ => receiver) id); by apply Forall_forall|].
  apply (fee_pairs_credit P id (fun _ => receiver)). rewrite hm_iter_perm. apply Forall_forall. intros [k v] Hk%elem_of_map_to_list. cbn.
  refine (fee_map_keys P _ ∅ _ (map_Forall_empty _) k v Hk). apply Forall_fmap. exact Hw.
Qed.

(** They can be computed, and are paid to the receiver of the coinbase or to a prover of the block. *)
Lemma internal_commands_total P b pre post works coinbase :
  commands_pre_diff b = Ok pre -> commands_post_diff b = Ok post -> completed_works b = Ok works -> coinbase_from_precomputed b = Ok coinbase ->
  P (coinbase_receiver b) -> Forall (fun s => P (snark_prover s)) works ->
  exists cmds, internal_from_precomputed b = Ok cmds /\ Forall (fun c => P (cmd_receiver c)) cmds.
Proof.
  intros Epre Epost Ew Ec Hr Hw. unfold internal_from_precomputed. rewrite Epre, Epost, Ew, Ec. cbn [mbind res_bind].
  pose proof (block_fees_credit P (coinbase_receiver b) pre post works Hr Hw) as Hf. set (fees := from_block_fees _ _ _ _) in *.
  assert (exists fees', (if has_fee_transfer coinbase then account_diffs_coinbase_mut coinbase fees else Ok fees) = Ok fees' /\ Forall (credits P) fees')
    as (fees' & -> & Hf').
  { destruct (has_fee_transfer coinbase) eqn:Hft; [|by exists fees]. destruct (coinbase_mut_payments coinbase fees Hft) as (fees' & E & _).
    exists fees'. split; [done|]. pose proof (coinbase_mut_fee_txn _ _ _ Hft E) as HF. clear -HF Hf.
    induction HF as [|d d' l l' Ed _ IH]; [constructor|]. apply Forall_cons in Hf as [(f & t & a & Ea & Ht) Hf]. constructor; [|by apply IH].
    exists f, t, a. by rewrite Ed. }
  cbn [mbind res_bind]. assert (forall l acc, Forall (credits P) l -> Forall (fun c => P (cmd_receiver c)) acc ->
    exists cmds, foldM internal_step acc l = Ok cmds /\ Forall (fun c => P (cmd_receiver c)) cmds) as Hloop.
  { intros l acc Hl. revert acc. induction Hl as [|txn l Ht _ IH]; intros acc Ha; [by exists acc|]. cbn [foldM].
    destruct (internal_step_receivers P acc txn Ht Ha) as (acc' & -> & Ha'). by apply IH. }
  destruct (Hloop fees' [] Hf' (Forall_nil_2 _)) as (cmds & -> & Hc). cbn [mbind res_bind]. eexists. split; [done|].
  destruct (is_coinbase_applied coinbase); [|done]. constructor; [|done]. cbn [cmd_receiver as_internal_cmd fst].
  unfold coinbase_from_precomputed in Ec. inv_ok Ec. inv_ok Ec. inv_ok Ec. by injection Ec as <-.
Qed.

Definition db_receiver (c : DbInternalCommand) : PublicKey :=
  match c with DbCoinbase _ r | DbFeeTransfer _ r | DbFeeTransferViaCoinbase _ r => r end.
Definition parts_paid P (p : DbParts) : Prop :=
  from_option (fun c => P (db_receiver c)) True (dp_coinbase p) /\ map_Forall (fun k _ => P k) (dp_fee_transfers p) /\
  map_Forall (fun _ e => P e.1) (dp_via_coinbase p).

Lemma db_step_paid P p c : parts_paid P p -> P (cmd_receiver c) -> parts_paid P (db_step p c).
Proof.
  intros (H1 & H2 & H3) Hc. destruct c as [r a|f r a|f r a]; split_and!; try done; cbn [db_step dp_fee_transfers dp_via_coinbase].
  - by apply map_Forall_insert_2.
  - apply map_Forall_insert_2; [|done]. destruct (dp_via_coinbase p !! f) as [[r' a']|] eqn:E; [|done]. apply (H3 f _ E).
Qed.

Lemma db_commands_paid P p : parts_paid P p -> Forall (fun d => P (db_receiver d)) (db_commands p).
Proof.
  intros (H1 & H2 & H3). unfold db_commands. rewrite !Forall_app. split_and!.
  - destruct (dp_coinbase p); [by apply Forall_singleton|constructor].
  - apply Forall_fmap. rewrite merge_sort_Permutation. apply Forall_fmap, Forall_forall. intros [k e] He%elem_of_map_to_list. apply (H3 k e He).
  - apply Forall_fmap. rewrite merge_sort_Permutation. apply Forall_forall. intros [k e] He%elem_of_map_to_list. apply (H2 k e He).
Qed.

Lemma with_data_total P b pre post works coinbase :
  commands_pre_diff b = Ok pre -> commands_post_diff b = Ok post -> completed_works b = Ok works -> coinbase_from_precomputed b = Ok coinbase ->
  P (coinbase_receiver b) -> Forall (fun s => P (snark_prover s)) works ->
  exists cmds, with_data_from_precomputed b = Ok cmds /\ Forall (fun c => P (recipient c)) cmds.
Proof.
  intros Epre Epost Ew Ec Hr Hw. destruct (internal_commands_total P b pre post works coinbase Epre Epost Ew Ec Hr Hw) as (cmds & E & Hc).
  unfold with_data_from_precomputed, db_from_precomputed. rewrite E. cbn [mbind res_bind]. eexists. split; [done|].
  apply (proj2 (Forall_fmap _ _ _)). unfold compose. apply (Forall_impl (fun d => P (db_receiver d))); [|by intros []].
  apply db_commands_paid. assert (parts_paid P (mkParts None ∅ ∅)) as Hp by (split_and!; [done|apply map_Forall_empty..]).
  revert Hp. generalize (mkParts None ∅ ∅) as p. clear E. induction Hc as [|c cmds Hc _ IH]; intros p Hp; [done|]. cbn [fold_left].
  by apply IH, db_step_paid.
Qed.
End Internal.

(** * Blocks that can be added *)

(** A block that has its form: its parts can be read ([block_wf]), its hashes and keys have their length, its numbers fit their
    types, and each command has a transaction hash and, when it was applied, a receiver and a readable memo. *)
Record block_ok `{Decimal} `{HashMapIter} `{TxnHasher} (block : PrecomputedBlock) : Prop := {
  bk_wf : block_wf block;
  bk_hash : sh_wf (state_hash block);
  bk_previous : sh_wf (previous_state_hash block);
  bk_genesis : sh_wf (genesis_state_hash block);
  bk_ledger : lh_wf (staged_ledger_hash block);
  bk_height : u32 (blockchain_length block);
  bk_slot : u32 (global_slot_since_genesis block);
  bk_epoch : u32 (epoch_count block);
  bk_keys pks : all_public_keys block = Ok pks -> Forall pk_wf pks;
  bk_works works : completed_works block = Ok works -> Z.of_nat (length works) <= U32_MAX;
  bk_internal cmds : with_data_from_precomputed block = Ok cmds -> Z.of_nat (length cmds) <= U32_MAX;
  bk_commands cmds c : commands block = Ok cmds -> c ∈ cmds ->
    (exists t, hash_signed_command (signed_of c) = Ok t /\ txn_wf t) /\
    (is_applied c = true -> receiver c <> [] /\ exists m, memo c = Ok m)
}.

Definition txn_hash_of `{TxnHasher} (c : UserCommandWithStatus) : TxnHash :=
  match hash_signed_command (signed_of c) with Ok t => t | _ => txn_v2_example end.

Section Addable.
Context `{SpeedbSpec} `{Decimal} `{HashMapIter} `{Blake2b} `{TxnHasher} `{SortBy BlockComparison}.
Context `{JsonSpec PrecomputedBlock} `{JsonSpec LedgerDiff} `{JsonSpec PcbVersion} `{JsonSpec BlockComparison} `{JsonSpec (list Z)}.
Context `{JsonSpec (list StateHash)} `{JsonSpec UsernameUpdate} `{JsonSpec (list UserCommandWithStatus)} `{Json SignedCommandWithData}.
Context `{Json (list SignedCommandWithData)} `{InternalJson} `{JsonSpec SnarkWorkSummary}.
Context `{JsonSpec SnarkWorkSummaryWithStateHash} `{Json SnarkFees} `{Json IndexerEvent}.
Implicit Types (db : Db) (h : StateHash) (block : PrecomputedBlock) (b : WriteBatch).

(** The comparison stored under the hash of a block is that of the block. *)
Definition own_comparisons db : Prop := forall h c, get_block_comparison db h = Ok (Some c) -> cmp_state_hash c = h.
Definition store_ok db : Prop := well_typed db /\ own_comparisons db.

(** The blocks known to contain a transaction of the block are of its version: only these can be compared. *)
Definition same_era db block : Prop :=
  forall cmds c hs h cmp, commands block = Ok cmds -> c ∈ cmds -> get_user_command_state_hashes db (txn_hash_of c) = Ok (Some hs) -> h ∈ hs ->
    get_block_comparison db h = Ok (Some cmp) -> cmp_version cmp = version block.

Definition sorted_blocks db block (c : UserCommandWithStatus) : list BlockComparison :=
  match (cmps ← containing_blocks (set_block_comparison_batch (state_hash block) (comparison_of block) db) (state_hash block) (txn_hash_of c); sort_comparisons cmps) with
  | Ok l => l | _ => [] end.

Lemma known_comparisons_total db hs : exists cmps, known_comparisons db hs = Ok cmps /\ Forall (fun c => exists h, h ∈ hs /\ get_block_comparison db h = Ok (Some c)) cmps.
Proof.
  induction hs as [|h hs (cmps & E & Hc)]; [exists []; by split|]. cbn [known_comparisons].
  assert (Forall (fun c => exists h', h' ∈ h :: hs /\ get_block_comparison db h' = Ok (Some c)) cmps) as Hc'.
  { eapply Forall_impl; [exact Hc|]. intros c (h' & Hh & Ec). exists h'. split; [by right|done]. }
  destruct (get_block_comparison db h) as [[c|]| |] eqn:Eh; cbn [ok_flatten mbind res_bind]; rewrite ?E; cbn [mbind res_bind].
  - eexists. split; [done|]. constructor; [|done]. exists h. split; [by left|done].
  - by eexists.
  - by eexists.
  - exfalso. unfold get_block_comparison in Eh. destruct (and_then_json (A:=BlockComparison) (cf_get db block_comparison_cf (sh_key h))) as (r & Er). congruence.
Qed.

(** The comparisons of the blocks that contain a transaction can be sorted, with the block that is added among them. *)
Lemma containing_sorted db block cmds c :
  own_comparisons db -> same_era db block -> commands block = Ok cmds -> c ∈ cmds ->
  let db1 := set_block_comparison_batch (state_hash block) (comparison_of block) db in
  (cmps ← containing_blocks db1 (state_hash block) (txn_hash_of c); sort_comparisons cmps) = Ok (sorted_blocks db block c).
Proof.
  intros Ho He Ec Hc db1. unfold sorted_blocks. fold db1.
  assert (forall h cmp, get_block_comparison db1 h = Ok (Some cmp) -> cmp_state_hash cmp = h /\ (cmp = comparison_of block \/ get_block_comparison db h = Ok (Some cmp))) as Hg.
  { intros h cmp. unfold get_block_comparison, db1, set_block_comparison_batch. rewrite cf_get_put. destruct (decide _) as [[= E]|Hne].
    - apply sh_key_inj in E. subst h. cbn [and_then_ok]. rewrite json_roundtrip. intros [= <-]. split; [done|by left].
    - intros E. split; [by apply (Ho h)|by right]. }
  assert (exists cmps, containing_blocks db1 (state_hash block) (txn_hash_of c) = Ok cmps /\ comparable cmps) as (cmps & E & Hcmp).
  { unfold containing_blocks, get_user_command_state_hashes, db1, set_block_comparison_batch. rewrite cf_get_put, decide_False by done.
    destruct (and_then_json (A:=list StateHash) (cf_get db user_command_state_hashes_cf (txn_key (txn_hash_of c)))) as (hs & Ehs). rewrite Ehs.
    cbn [mbind res_bind]. fold (set_block_comparison_batch (state_hash block) (comparison_of block) db). fold db1.
    destruct (known_comparisons_total db1 (default [] hs ++ [state_hash block])) as (cmps & E & Hk). exists cmps. split; [done|].
    rewrite Forall_forall in Hk. split.
    - exists (version block). intros a Ha. destruct (Hk a Ha) as (h & Hh & Ea). destruct (Hg h a Ea) as (Eh & [->|Ed]); [done|].
      apply elem_of_app in Hh as [Hh|Hh%list_elem_of_singleton].
      + destruct hs as [hs|]; [|by apply not_elem_of_nil in Hh]. by apply (He cmds c hs h a).
      + subst h. unfold get_block_comparison, db1, set_block_comparison_batch in Ea. rewrite cf_get_put, decide_True in Ea by done. cbn [and_then_ok] in Ea.
        rewrite json_roundtrip in Ea. by injection Ea as <-.
    - intros a b' Ha Hb Eab. destruct (Hk a Ha) as (h & _ & Ea), (Hk b' Hb) as (h' & _ & Eb).
      destruct (Hg h a Ea) as (<- & _), (Hg h' b' Eb) as (<- & _). congruence. }
  rewrite E. cbn [mbind res_bind]. destruct (comparable_sort cmps Hcmp) as (l & -> & _). done.
Qed.

(** Such a block is valid in every such store. *)
Lemma block_ok_valid block db : block_ok block -> own_comparisons db -> same_era db block -> valid_block block txn_hash_of (sorted_blocks db block) db.
Proof.
  intros Hb Ho He. destruct Hb.
  destruct (block_wf_parts block bk_wf0) as (pre & post & works & kinds & created & created2 & Epre & Epost & Ew & Ek & Hk & Ecr & Ecr2 & Hok).
  assert (commands block = Ok (pre ++ post)) as Ec by (unfold commands; by rewrite Epre, Epost).
  destruct (from_precomputed_total block bk_wf0) as (diff & Ed & _). destruct (from_precomputed_parts block diff Ed) as (_ & _ & coinbase & _ & _ & Ecb).
  destruct (all_public_keys_spec block _ works Ec Ew) as (pks & provers & Ep & Epr & _ & Hin & Hinp). specialize (bk_keys0 pks Ep).
  rewrite Forall_forall in bk_keys0. destruct (prover_keys_spec block works Ew) as (provers' & Epr' & _ & Hprov). assert (provers' = provers) as -> by congruence.
  assert (forall c pk, c ∈ pre ++ post -> pk ∈ command_pks c -> pk_wf pk) as Hcpk.
  { intros c pk Hc Hpk. apply bk_keys0. unfold all_public_keys in Ep. destruct (all_command_public_keys_spec block _ Ec) as (l & El & _ & Hm).
    rewrite El, Epr in Ep. cbn [mbind res_bind] in Ep. injection Ep as <-. destruct (sort_pks_spec (Precomputed.add_keys (list_to_set l) provers)) as (_ & _ & ->).
    unfold Precomputed.add_keys. apply elem_of_union_l, elem_of_list_to_set, Hm. right. by exists c. }
  split; try done.
  - by exists diff.
  - eexists. apply (proj1 (username_updates_last_wins block (pre ++ post) Ec)), Forall_forall. intros c Hc. by apply (bk_commands0 _ c Ec).
  - apply (with_data_total pk_wf block pre post works coinbase Epre Epost Ew Ecb).
    + apply bk_keys0, Hin. unfold consensus_public_keys. set_solver.
    + apply Forall_forall. intros s Hs. by apply bk_keys0, Hinp, Hprov.
  - unfold genesis_of. by destruct (is_genesis_hash _).
  - intros pks' Ep'. assert (pks' = pks) as -> by congruence. by apply Forall_forall.
  - intros cmds c Ec' Hc. assert (cmds = pre ++ post) as -> by congruence. destruct (bk_commands0 _ c Ec Hc) as [(t & Et & Ht) _].
    assert (txn_hash_of c = t) as Eh by (unfold txn_hash_of; by rewrite Et). split.
    + by rewrite Eh.
    + by rewrite Eh.
    + apply (Hcpk c); [done|]. unfold command_pks. set_solver.
    + apply Forall_forall. intros pk Hpk. apply (Hcpk c); [done|]. unfold command_pks. set_solver.
    + by apply (containing_sorted db block (pre ++ post) c).
Qed.

Lemma steps_comparison block n db diff b ub ib dbu db2 db4 db5 db3 h :
  add_steps block n db diff b ub ib dbu db2 db4 db5 db3 ->
  cf_get db3 block_comparison_cf (sh_key h) = cf_get (set_block_comparison_batch (state_hash block) (comparison_of block) db) block_comparison_cf (sh_key h).
Proof.
  intros []. rewrite (writes_get _ _ _ _ _ as_later), (writes_get _ _ _ _ _ as_snark_writes), (writes_get _ _ _ _ _ as_slots), write_get, !last_write_app by done.
  rewrite (batch_ok_outside _ ib _ _ as_internal_ok), (batch_ok_outside _ ub _ _ as_user_ok), (batch_ok_outside _ b _ _ (io_ok _ _ _ _ _ as_indices)) by done.
  by rewrite (writes_get _ _ _ _ _ as_internal_writes), (writes_get _ _ _ _ _ as_user_writes).
Qed.

(** C8: Adding a block that has its form to a well-typed store, in which every comparison is under the hash of its block, never fails,
    also when blocks are there that contain its transactions or share its height, slot or hash.  The form of a block: its parts
    can be read, its keys and hashes have their length, its numbers fit their types, and each command has a transaction hash
    and, when it was applied, a receiver and a readable memo.  The blocks known to contain one of its transactions must be of
    its version: the comparison of blocks is an order within one version only, and the sort of others may panic.  The store it
    leaves is well typed again, so that every later read of a counter, a hash or a key succeeds. *)
Theorem add_block_typed block n db :
  store_ok db -> block_ok block -> same_era db block -> exists event db', add_block block n db = Ok (event, db') /\ store_ok db'.
Proof.
  intros [Hdb Ho] Hb He. pose proof (block_ok_valid block db Hb Ho He) as Hv.
  destruct (cf_get db blocks_state_hash_cf (sh_key (state_hash block))) as [v|] eqn:E.
  - exists None, db. split; [|done]. unfold add_block. by rewrite E.
  - destruct (add_block_steps block txn_hash_of _ n db Hdb Hv E) as (diff & b & ub & ib & dbu & db2 & db4 & db5 & db3 & Hs).
    eexists _, db3. split; [apply (as_add _ _ _ _ _ _ _ _ _ _ _ _ Hs)|]. split; [apply (as_typed _ _ _ _ _ _ _ _ _ _ _ _ Hs)|].
    intros h c. unfold get_block_comparison. rewrite (steps_comparison _ _ _ _ _ _ _ _ _ _ _ _ h Hs). unfold set_block_comparison_batch.
    rewrite cf_get_put. destruct (decide _) as [[= Eh]|_]; [|apply (Ho h)]. apply sh_key_inj in Eh. subst h. cbn [and_then_ok].
    rewrite json_roundtrip. by intros [= <-].
Qed.

(** * What the hash of a block leads to *)

(** All that the store gives for the hash of a block: the block [block] of [n] bytes with the contents [c]. *)
Record block_data db h block n (c : BlockContents) : Prop := {
  bd_block : get_block db h = Ok (Some (block, n));
  bd_parent : get_block_parent_hash db h = Ok (Some (previous_state_hash block));
  (** the heights of the hashes before the genesis blocks are fixed *)
  bd_height : is_genesis_prev h = false -> get_block_height db h = Ok (Some (blockchain_length block));
  bd_time : get_block_date_time db h = Ok (Some (as_i64 (timestamp block)));
  bd_slot : get_block_global_slot db h = Ok (Some (global_slot_since_genesis block));
  bd_epoch : get_block_epoch db h = Ok (Some (epoch_count block));
  bd_genesis : get_block_genesis_state_hash db h = Ok (Some (genesis_of block));
  bd_creator : get_block_creator db h = Ok (Some (block_creator block));
  bd_receiver : get_coinbase_receiver db h = Ok (Some (coinbase_receiver block));
  bd_version : get_block_version db h = Ok (Some (version block));
  bd_comparison : get_block_comparison db h = Ok (Some (comparison_of block));
  bd_ledger : get_block_staged_ledger_hash db h = Ok (Some (staged_ledger_hash block));
  bd_diff : get_block_ledger_diff db h = Ok (Some (bc_diff c));
  bd_user : get_block_user_commands db h = Ok (Some (bc_user c));
  bd_user_count : get_block_user_commands_count db h = Ok (Some (wrap32 (Z.of_nat (length (bc_user c)))));
  bd_internal : get_internal_commands db h = Ok (bc_internal c);
  bd_works : get_block_snark_work db h = Ok (Some (bc_works c));
  bd_names : get_block_username_updates db h = Ok (Some (bc_names c))
}.

Lemma sh_index_other h h' i j : sh_wf h -> sh_wf h' -> h <> h' -> sh_index h i <> sh_index h' j.
Proof.
  intros Ha Hb Hne E. unfold sh_index in E. apply app_inj_1 in E as [E _]; [|unfold sh_key; by rewrite !sh_wf_len]. by apply sh_key_inj in E.
Qed.

(** The works of another block stay. *)
Lemma add_snark_work_other block works provers db db' h :
  completed_works block = Ok works -> prover_keys block = Ok provers -> well_typed db -> sh_wf (state_hash block) ->
  Forall pk_wf provers -> Z.of_nat (length works) <= U32_MAX -> add_snark_work block db = Ok db' -> sh_wf h -> h <> state_hash block ->
  get_block_snark_work db' h = get_block_snark_work db h.
Proof.
  intros Ew Ep Hdb Hh Hpks Hlen E Hwf Hne. unfold add_snark_work in E. rewrite Ew in E. cbn [mbind res_bind] in E.
  destruct (prover_keys_spec block works Ew) as (provers' & Ep' & _ & Hin). assert (provers' = provers) as -> by congruence.
  rewrite Forall_forall in Hpks. rewrite wrap32_id in E by ints. unfold set_block_snarks_count in E. set (db0 := cf_put block_snark_counts_cf _ _ db) in E.
  assert (well_typed db0) as Hdb0 by (apply well_typed_put; [apply (has_type_u32 _); ints|done]).
  destruct (add_block_snarks_loop block works 0 ∅ db0 Hdb0 Hh) as (m & db1 & E1 & Hdb1 & Hw1 & _ & Hk1); [|done|].
  { apply Forall_forall. intros s Hs. by apply Hpks, Hin. }
  unfold enumerate in E. rewrite E1 in E. cbn [mbind res_bind snd] in E. rewrite Ep in E. cbn [mbind res_bind] in E.
  assert (same work_reads db1 db') as Hs.
  { revert E. apply (yields_foldM (same work_reads db1)); [apply same_refl|]. intros d pk. by apply add_prover_snarks_same. }
  assert (cf_get db' block_snark_counts_cf (sh_key h) = cf_get db block_snark_counts_cf (sh_key h)) as Ec.
  { rewrite Hs, (writes_get _ _ _ _ _ Hw1) by done. unfold db0. rewrite cf_get_put, decide_False; [done|]. by intros [= E'%sh_key_inj]. }
  unfold get_block_snark_work, get_block_snarks_count. rewrite Ec. destruct (map_res _ _) as [[num|]| |]; [|done..]. cbn [mbind res_bind].
  f_equal. apply mapM_res_ext. intros i _. rewrite block_index_key_ok by done. cbn [mbind res_bind]. rewrite Hs, Hk1 by (done || intros; by apply sh_index_other).
  unfold db0. rewrite cf_get_put, decide_False; [done|]. intros E'. discriminate E'.
Qed.

(** So do its internal commands. *)
Lemma steps_internal_other block n db diff b ub ib dbu db2 db4 db5 db3 internal h :
  add_steps block n db diff b ub ib dbu db2 db4 db5 db3 -> with_data_from_precomputed block = Ok internal -> sh_wf (state_hash block) ->
  Z.of_nat (length internal) <= U32_MAX -> sh_wf h -> h <> state_hash block -> get_internal_commands db3 h = get_internal_commands db h.
Proof.
  intros Hs Ei Hh Hlen Hwf Hne. destruct Hs. unfold add_internal_commands_batch in as_internal. rewrite Ei in as_internal. cbn [mbind res_bind] in as_internal.
  rewrite wrap32_id in as_internal by ints. inv_ok as_internal. inv_ok as_internal. injection as_internal as <- <-.
  unfold enumerate in E0. apply add_internal_loop_reads in E0 as [_ Hk]; [|done|done].
  assert (forall cf k, family_in (internal_commands_cf :: block_internal_command_counts_cf :: nil) cf = true -> last_write b cf k = None /\ last_write ub cf k = None) as Hbu.
  { intros cf k Hcf. split; [apply (batch_ok_outside _ b _ _ (io_ok _ _ _ _ _ as_indices))|apply (batch_ok_outside _ ub _ _ as_user_ok)];
      apply family_in_elem in Hcf; repeat (apply elem_of_cons in Hcf as [->|Hcf]; [done|]); by apply not_elem_of_nil in Hcf. }
  assert (forall cf k, family_in (internal_commands_cf :: block_internal_command_counts_cf :: nil) cf = true ->
    cf_get (set_block_comparison_batch (state_hash block) (comparison_of block) db) cf k = cf_get db cf k) as H1'.
  { intros cf k Hcf. unfold set_block_comparison_batch. rewrite cf_get_put, decide_False; [done|]. intros [= -> _]. discriminate Hcf. }
  assert (forall k, last_write (set_block_internal_commands_count_batch (state_hash block) (Z.of_nat (length internal))) internal_commands_cf k = None) as Hli by done.
  assert (cf_get db3 block_internal_command_counts_cf (sh_key h) = cf_get db block_internal_command_counts_cf (sh_key h)) as Ec.
  { rewrite (writes_get _ _ _ _ _ as_later), (writes_get _ _ _ _ _ as_snark_writes), (writes_get _ _ _ _ _ as_slots), write_get, !last_write_app by done.
    destruct (Hbu block_internal_command_counts_cf (sh_key h) eq_refl) as [-> ->]. cbn [set_block_internal_commands_count_batch last_write op_cf op_key op_value].
    rewrite decide_False by (by intros [= E'%sh_key_inj]). rewrite (writes_get _ _ _ _ _ as_internal_writes), (writes_get _ _ _ _ _ as_user_writes) by done. by apply H1'. }
  unfold get_internal_commands, get_block_internal_commands_count, opt_u32. rewrite Ec. destruct (map_res _ _) as [[num|]| |]; [|done..]. cbn [mbind res_bind].
  apply mapM_res_ext. intros i _. unfold get_block_internal_command. rewrite block_key_ok by done. cbn [mbind res_bind].
  assert (cf_get db3 internal_commands_cf (sh_index h (Z.of_nat i)) = cf_get db internal_commands_cf (sh_index h (Z.of_nat i))) as ->; [|done].
  rewrite (writes_get _ _ _ _ _ as_later), (writes_get _ _ _ _ _ as_snark_writes), (writes_get _ _ _ _ _ as_slots), write_get, !last_write_app, Hli by done.
  destruct (Hbu internal_commands_cf (sh_index h (Z.of_nat i)) eq_refl) as [-> ->]. rewrite Hk by (intros; by apply sh_index_other).
  unfold increment_internal_commands_total_count, add_count in E. inv_ok E. injection E as <-. rewrite !cf_get_put, !decide_False by (intros E'; discriminate E').
  rewrite (writes_get _ _ _ _ _ as_user_writes) by done. by apply H1'.
Qed.

(** Reads of what the block, or another one, has in the indices. *)
Ltac own Hs := rewrite (steps_index _ _ _ _ _ _ _ _ _ _ _ _ _ _ Hs) by reflexivity;
  erewrite (index_write _ _ _ _ _ _ _ _ (as_indices _ _ _ _ _ _ _ _ _ _ _ _ Hs)) by reflexivity; compute_index.
Ltac own_creator Hs := rewrite (steps_index _ _ _ _ _ _ _ _ _ _ _ _ _ _ Hs) by reflexivity;
  rewrite (last_write_creator _ _ _ _ _ _ (as_indices _ _ _ _ _ _ _ _ _ _ _ _ Hs)).
Ltac own_receiver Hs := rewrite (steps_index _ _ _ _ _ _ _ _ _ _ _ _ _ _ Hs) by reflexivity;
  rewrite (io_receiver _ _ _ _ _ (as_indices _ _ _ _ _ _ _ _ _ _ _ _ Hs)).
Ltac getters := unfold get_block, get_block_ledger_diff, get_block_parent_hash, get_block_height, get_block_date_time, get_block_global_slot, get_block_epoch,
  get_block_genesis_state_hash, get_block_creator, get_coinbase_receiver, get_block_version, get_block_comparison, get_block_staged_ledger_hash,
  get_block_user_commands, get_block_user_commands_count, get_block_username_updates, opt_u32 in *.

Lemma as_i64_range z : -9223372036854775808 <= as_i64 z < 9223372036854775808.
Proof.
  unfold as_i64. pose proof (wrap64_range z) as [H1' H2']. unfold U64_MAX in *. cbv zeta. destruct (Z.ltb_spec (wrap64 z) 9223372036854775808); lia.
Qed.

Lemma in_scope_elem cfs cf k : in_scope cfs [] cf k = true -> cf ∈ cfs.
Proof. unfold in_scope. intros [Hcf|Hk]%orb_true_iff; [by apply family_in_elem|by destruct (String.eqb _ _)]. Qed.

Lemma valid_block_keys block th sorted db diff :
  valid_block block th sorted db -> from_precomputed block = Ok diff ->
  pk_wf (block_creator block) /\ pk_wf (coinbase_receiver block) /\
  exists works provers, completed_works block = Ok works /\ prover_keys block = Ok provers /\ Forall pk_wf provers.
Proof.
  intros Hv Ed. destruct (from_precomputed_parts block diff Ed) as (cmds & works & coinbase & Ec & Ew & _).
  destruct (all_public_keys_spec block cmds works Ec Ew) as (pks & provers & Ep & Epr & _ & Hin & Hinp).
  pose proof (vb_keys _ _ _ _ Hv pks Ep) as Hkeys. rewrite Forall_forall in Hkeys. unfold consensus_public_keys in Hin. split_and!.
  - apply Hkeys, Hin. set_solver.
  - apply Hkeys, Hin. set_solver.
  - exists works, provers. split_and!; [done|done|]. apply Forall_forall. auto.
Qed.

(** The block that was added. *)
Lemma own_data block th sorted n db c diff b ub ib dbu db2 db4 db5 db3 :
  valid_block block th sorted db -> lh_wf (staged_ledger_hash block) -> contents_of block = Ok c -> Z.of_nat (length (bc_internal c)) <= U32_MAX ->
  u64 n -> add_steps block n db diff b ub ib dbu db2 db4 db5 db3 -> block_data db3 (state_hash block) block n c.
Proof.
  intros Hv Hlh Hc Hlen Hn Hs. destruct (add_block_holds _ _ _ _ _ _ _ _ _ _ _ _ _ _ _ Hv Hc Hlen Hs) as [Hh _].
  destruct (add_block_written _ _ _ _ _ _ _ _ _ _ _ _ _ _ Hv Hs) as [Hb _].
  destruct (valid_block_keys _ _ _ _ _ Hv (as_diff _ _ _ _ _ _ _ _ _ _ _ _ Hs)) as (Hcr & Hrc & _).
  pose proof (steps_comparison _ _ _ _ _ _ _ _ _ _ _ _ (state_hash block) Hs) as Hcmp.
  destruct (contents_of_inv block c Hc) as (internal & _ & _ & En & Eu & _).
  destruct (add_user_commands_writes block (bc_user c) (bc_names c) _ Eu En _ (as_user _ _ _ _ _ _ _ _ _ _ _ _ Hs)) as (rest & Eub & Hrest). cbn [fst] in Eub.
  destruct Hv as [_ _ _ _ Hsh Hprev Hgen Hhgt Hslot Hep Hkeys _], Hh. split; try done; getters.
  - rewrite Hb. rewrite slice_from_app by keylen. cbn [mbind res_bind and_then_ok]. rewrite json_roundtrip. cbn [mbind res_bind].
    rewrite slice_to_app by keylen. cbn [mbind res_bind]. by rewrite u64_from_be_bytes_be.
  - own Hs. cbn [and_then_ok]. unfold sh_key. by rewrite sh_from_bytes_as_bytes.
  - intros [-> ->]%orb_false_iff. own Hs. cbn [map_res]. by rewrite from_be_bytes_u32.
  - own Hs. cbn [and_then_ok]. rewrite <- wrap64_as_i64. unfold u64_be. rewrite i64_from_be_bytes_be; [done|]. apply as_i64_range.
  - own Hs. cbn [map_res]. by rewrite from_be_bytes_u32.
  - own Hs. cbn [map_res]. by rewrite from_be_bytes_u32.
  - own Hs. cbn [and_then_ok]. unfold sh_key. by rewrite sh_from_bytes_as_bytes.
  - own_creator Hs. rewrite decide_True by done. cbn [and_then_ok]. unfold pk_key. by rewrite pk_from_bytes_as_bytes.
  - own_receiver Hs. rewrite decide_True by done. cbn [and_then_ok]. unfold pk_key. by rewrite pk_from_bytes_as_bytes.
  - own Hs. cbn [and_then_ok]. by rewrite json_roundtrip.
  - rewrite Hcmp. unfold set_block_comparison_batch. get_put. cbn [and_then_ok]. by rewrite json_roundtrip.
  - own Hs. cbn [map_res]. by rewrite lh_from_bytes_as_bytes.
  - rewrite ho_diff. cbn [and_then_ok]. by rewrite json_roundtrip.
  - rewrite (steps_get _ _ _ _ _ _ _ _ _ _ _ _ _ _ Hs) by reflexivity. rewrite Eub, last_write_app.
    rewrite (user_write_none _ rest _ _ Hrest) by done. cbn [last_write op_cf op_key op_value]. rewrite decide_False, decide_True by done.
    cbn [map_res]. by rewrite from_be_bytes_u32 by apply u32_wrap32.
Qed.

(** The families of the works are as they were when the works are written. *)
Lemma steps_before_snarks block n db diff b ub ib dbu db2 db4 db5 db3 cf k :
  add_steps block n db diff b ub ib dbu db2 db4 db5 db3 -> cf ∈ [block_snark_counts_cf; snarks_cf] -> cf_get db4 cf k = cf_get db cf k.
Proof.
  intros [] Hcf. assert (cf = block_snark_counts_cf \/ cf = snarks_cf) as Ecf by set_solver. clear Hcf.
  destruct Ecf as [-> | ->]; (rewrite (writes_get _ _ _ _ _ as_slots), write_get, !last_write_app by done;
    rewrite (batch_ok_outside _ b _ _ (io_ok _ _ _ _ _ as_indices)), (batch_ok_outside _ ub _ _ as_user_ok), (batch_ok_outside _ ib _ _ as_internal_ok) by done;
    rewrite (writes_get _ _ _ _ _ as_internal_writes), (writes_get _ _ _ _ _ as_user_writes) by done; unfold set_block_comparison_batch;
    rewrite cf_get_put, decide_False; [done|intros E; discriminate E]).
Qed.

(** Another block. *)
Lemma other_data block th sorted n db c diff b ub ib dbu db2 db4 db5 db3 h other m c' :
  valid_block block th sorted db -> contents_of block = Ok c -> Z.of_nat (length (bc_internal c)) <= U32_MAX ->
  add_steps block n db diff b ub ib dbu db2 db4 db5 db3 -> sh_wf h -> h <> state_hash block ->
  block_data db h other m c' -> block_data db3 h other m c'.
Proof.
  intros Hv Hc Hlen Hs Hwf Hne Hd. assert (sh_key (state_hash block) <> sh_key h) as Hk by (intros E%sh_key_inj; congruence).
  destruct (contents_of_inv block c Hc) as (internal & _ & Ew & En & Eu & Ei & Eint).
  destruct (add_block_written _ _ _ _ _ _ _ _ _ _ _ _ _ _ Hv Hs) as [_ Hb].
  destruct (valid_block_keys _ _ _ _ _ Hv (as_diff _ _ _ _ _ _ _ _ _ _ _ _ Hs)) as (_ & _ & works & provers & Ew' & Epr & Hprov).
  pose proof (steps_comparison _ _ _ _ _ _ _ _ _ _ _ _ h Hs) as Hcmp.
  destruct (add_user_commands_writes block (bc_user c) (bc_names c) _ Eu En _ (as_user _ _ _ _ _ _ _ _ _ _ _ _ Hs)) as (rest & Eub & Hrest). cbn [fst] in Eub.
  assert (forall cf, family_in user_reads cf = true -> cf_get db3 cf (sh_key h) = cf_get db cf (sh_key h)) as Hu.
  { intros cf Hcf. rewrite (steps_get _ _ _ _ _ _ _ _ _ _ _ _ _ _ Hs).
    - rewrite Eub, last_write_app, (user_write_none _ rest _ _ Hrest) by done. cbn [last_write op_cf op_key op_value].
      by rewrite !decide_False by congruence.
    - apply family_in_elem in Hcf. repeat (apply elem_of_cons in Hcf as [->|Hcf]; [done|]). by apply not_elem_of_nil in Hcf. }
  assert (get_internal_commands db3 h = get_internal_commands db h) as Hi.
  { eapply (steps_internal_other _ _ _ _ _ _ _ _ _ _ _ _ internal); [done|done|apply (vb_hash _ _ _ _ Hv)| |done|done]. rewrite Eint, length_fmap in Hlen. done. }
  assert (get_block_snark_work db3 h = get_block_snark_work db h) as Hw.
  { pose proof Hs as Hs'. destruct Hs'. transitivity (get_block_snark_work db5 h); [|transitivity (get_block_snark_work db4 h)].
    - apply get_block_snark_work_agree. intros cf k Hcf%in_scope_elem. apply (writes_get _ _ _ _ _ as_later).
      repeat (apply elem_of_cons in Hcf as [->|Hcf]; [done|]). by apply not_elem_of_nil in Hcf.
    - eapply (add_snark_work_other block works provers); try done; [apply (vb_hash _ _ _ _ Hv)|by apply (vb_works _ _ _ _ Hv)].
    - apply get_block_snark_work_agree. intros cf k Hcf%in_scope_elem. by eapply steps_before_snarks. }
  destruct Hd. split; getters; try done.
  - by rewrite Hb.
  - own Hs. done.
  - intros Hg. own Hs. by apply bd_height0.
  - own Hs. done.
  - own Hs. done.
  - own Hs. done.
  - own Hs. done.
  - own_creator Hs. by rewrite decide_False.
  - own_receiver Hs. by rewrite decide_False.
  - own Hs. done.
  - rewrite Hcmp. unfold set_block_comparison_batch. rewrite cf_get_put, decide_False by congruence. done.
  - own Hs. done.
  - own Hs. done.
  - by rewrite Hu.
  - by rewrite Hu.
  - by rewrite Hi.
  - by rewrite Hw.
  - by rewrite Hu.
Qed.

(** C9: A block that the store does not have, under the same conditions on block and store as for adding it ([block_ok], [store_ok],
    [same_era]), is added once: all that its hash leads to is read back (the block and its size, its parent, height, time,
    slot, epoch, genesis, creator, coinbase receiver, version, comparison and staged ledger hash, its ledger diff, its user
    commands and their number, its internal commands, SNARK work and usernames; the coinbase among the internal commands as a
    fee transfer of its kind), what the hashes of other blocks lead to stays, and adding a block with the same hash again
    changes nothing. *)
Theorem block_added block n db :
  store_ok db -> block_ok block -> same_era db block -> u64 n -> cf_get db blocks_state_hash_cf (sh_key (state_hash block)) = None ->
  exists c db', contents_of block = Ok c /\
    add_block block n db = Ok (Some (DbBlock (NewBlock (state_hash block) (blockchain_length block))), db') /\
    block_data db' (state_hash block) block n c /\
    (forall h other m c', sh_wf h -> h <> state_hash block -> block_data db h other m c' -> block_data db' h other m c') /\
    (forall other m, state_hash other = state_hash block -> add_block other m db' = Ok (None, db')).
Proof.
  intros [Hdb Ho] Hb He Hn Hnew. pose proof (block_ok_valid block db Hb Ho He) as Hv.
  destruct (add_block_steps block txn_hash_of _ n db Hdb Hv Hnew) as (diff & b & ub & ib & dbu & db2 & db4 & db5 & db3 & Hs).
  assert (exists c, contents_of block = Ok c /\ Z.of_nat (length (bc_internal c)) <= U32_MAX) as (c & Hc & Hlen).
  { destruct (vb_diff _ _ _ _ Hv) as [d Ed], (vb_usernames _ _ _ _ Hv) as [names En], (vb_internal _ _ _ _ Hv) as (cmds & Ei & _).
    destruct (from_precomputed_parts block d Ed) as (user & works & _ & Eu & Ew & _). unfold contents_of. rewrite Ed, Ew, En, Eu, Ei. eexists. split; [done|].
    cbn [bc_internal]. rewrite length_fmap. by apply (bk_internal _ Hb). }
  exists c, db3. split_and!; [done|apply (as_add _ _ _ _ _ _ _ _ _ _ _ _ Hs)| | |].
  - eapply own_data; [done|apply (bk_ledger _ Hb)|done..].
  - intros h other m c' Hwf Hne. by eapply other_data.
  - intros other m Eo. unfold add_block. rewrite Eo. own Hs. done.
Qed.

(** ** SNARK work *)

(** C32: The SNARK work of a block is read back from the block in order, whatever work its provers have; and when no prover of
    the block has work at its height yet, each prover's work is read back as what it was with the block's appended. *)
Theorem snark_work_stored block works provers db :
  completed_works block = Ok works -> prover_keys block = Ok provers -> well_typed db -> sh_wf (state_hash block) ->
  Forall pk_wf provers -> Z.of_nat (length works) <= U32_MAX ->
  exists db', add_snark_work block db = Ok db' /\ well_typed db' /\
    get_block_snark_work db' (state_hash block) = Ok (Some works) /\
    (forall h, sh_wf h -> h <> state_hash block -> get_block_snark_work db' h = get_block_snark_work db h) /\
    (forall f, (forall pk, pk_wf pk -> prover_works pk db (f pk)) ->
       (forall pk, pk ∈ provers -> Z.of_nat (length (f pk) + length works) <= U32_MAX) ->
       (forall pk, pk ∈ provers -> fresh_from (blockchain_length block) 0 pk db) ->
       forall pk, pk_wf pk -> get_snark_work_by_public_key db' pk = Ok (f pk ++ works_of pk (with_state_hash (state_hash block) <$> works))).
Proof.
  intros Ew Ep Hdb Hh Hpks Hlen. destruct (add_snark_work_typed block works provers db Ew Ep Hdb Hh Hpks Hlen) as (db' & E & Hdb' & _).
  exists db'. split_and!; [done|done|by apply (add_snark_work_reads block works provers db)|intros; by apply (add_snark_work_other block works provers)|].
  intros f Hf Hb Hfr pk Hpk. destruct (prover_works_grow block works provers db f Ew Ep Hdb Hh Hpks Hf Hb Hfr) as (db2 & E2 & _ & Hg).
  assert (db2 = db') as -> by congruence. by apply Hg.
Qed.
End Addable.

(** * Examples *)

Section BlockExamples.
#[local] Existing Instances map_db map_db_spec countable_json one_txn insertion_sort_by whole_decimal digest_example untagged_json sorted_iter.

(** A store in which another block contains the payment of the block. *)
Definition other_hash : StateHash := mkSh (example_hash "d").
Definition other_comparison : BlockComparison := mkComparison other_hash 2 [] V2.
Definition shared_store : Db :=
  cf_put user_command_state_hashes_cf (txn_key txn_v2_example) (to_json [other_hash])
    (cf_put block_comparison_cf (sh_key other_hash) (to_json other_comparison) (∅ : Db)).

Lemma shared_comparison h c : get_block_comparison shared_store h = Ok (Some c) -> h = other_hash /\ c = other_comparison.
Proof.
  unfold get_block_comparison, shared_store. rewrite cf_get_put, decide_False by done. rewrite cf_get_put. destruct (decide _) as [[= E%sh_key_inj]|_]; [|done].
  cbn [and_then_ok]. rewrite json_roundtrip. by intros [= <-].
Qed.

Lemma shared_store_ok : store_ok shared_store.
Proof.
  split.
  - apply well_typed_put; [exact I|]. apply well_typed_put; [exact I|]. apply empty_well_typed.
  - intros h c [-> ->]%shared_comparison. reflexivity.
Qed.

Lemma shared_store_era : same_era shared_store payment_block.
Proof. intros cmds c hs h cmp _ _ _ _ [-> ->]%shared_comparison. reflexivity. Qed.

Lemma payment_block_ok : block_ok payment_block.
Proof.
  split.
  - eexists _, _. split_and!; [reflexivity|vm_compute; reflexivity|constructor].
  - vm_compute. done.
  - vm_compute. done.
  - vm_compute. done.
  - vm_compute. done.
  - vm_compute; split; (discriminate || reflexivity).
  - vm_compute; split; (discriminate || reflexivity).
  - vm_compute; split; (discriminate || reflexivity).
  - intros pks E. vm_compute in E. injection E as <-. repeat constructor; apply pk_example_wf.
  - intros works E. vm_compute in E. injection E as <-. vm_compute. discriminate.
  - intros cmds E. vm_compute in E. injection E as <-. vm_compute. discriminate.
  - intros cmds c E Hc. injection E as <-. apply list_elem_of_singleton in Hc as ->. split.
    + exists txn_v2_example. split; [reflexivity|]. split; vm_compute; reflexivity.
    + intros _. split; [discriminate|]. eexists. vm_compute. reflexivity.
Qed.

Lemma add_block_typed_witness : exists event db', add_block payment_block 100 shared_store = Ok (event, db') /\ store_ok db'.
Proof. exact (add_block_typed payment_block 100 shared_store shared_store_ok payment_block_ok shared_store_era). Defined.

Lemma block_added_witness :
  exists db', add_block payment_block 100 shared_store = Ok (Some (DbBlock (NewBlock sh_default 2)), db') /\
    get_block db' sh_default = Ok (Some (payment_block, 100)) /\ get_block_height db' sh_default = Ok (Some 2) /\
    get_block_user_commands db' sh_default = Ok (Some [payment_example]) /\ add_block payment_block 100 db' = Ok (None, db').
Proof.
  destruct (block_added payment_block 100 shared_store shared_store_ok payment_block_ok shared_store_era) as (c & db' & Ec & E & Hd & _ & Hagain).
  - vm_compute; split; (discriminate || reflexivity).
  - reflexivity.
  - exists db'. split_and!; [exact E|exact (bd_block _ _ _ _ _ Hd)|exact (bd_height _ _ _ _ _ Hd eq_refl)| |by apply Hagain].
    change sh_default with (state_hash payment_block). rewrite (bd_user _ _ _ _ _ Hd). destruct (contents_of_inv _ _ Ec) as (_ & _ & _ & _ & Eu & _). by injection Eu as <-.
Defined.

Lemma snark_work_stored_witness :
  exists db', add_snark_work (snark_block sh_default [mkSnark 5 pk_example; mkSnark 7 pk_example]) (∅ : Db) = Ok db' /\
    get_block_snark_work db' sh_default = Ok (Some [mkSnark 5 pk_example; mkSnark 7 pk_example]) /\
    get_snark_work_by_public_key db' pk_example =
      Ok [mkSnarkWith 5 pk_example sh_default; mkSnarkWith 7 pk_example sh_default].
Proof.
  destruct (snark_work_stored (snark_block sh_default [mkSnark 5 pk_example; mkSnark 7 pk_example])
    [mkSnark 5 pk_example; mkSnark 7 pk_example] [pk_example] (∅ : Db)) as (db' & E & _ & Hb & _ & Hg).
  - reflexivity.
  - vm_compute. reflexivity.
  - apply empty_well_typed.
  - vm_compute. done.
  - apply Forall_singleton. exact pk_example_wf.
  - vm_compute. discriminate.
  - exists db'. split_and!; [exact E|exact Hb|]. refine (Hg (fun _ => []) _ _ _ pk_example pk_example_wf).
    + intros pk _. apply numbered_nil. reflexivity.
    + intros pk _. vm_compute. discriminate.
    + intros pk _ j _ _. reflexivity.
Defined.
End BlockExamples.
