(* ===== verification/Queries.v ===== *)
(** The queries of clients (src/rust/src/unix_socket_server.rs, with the commands of src/rust/src/client.rs and
    src/rust/src/store/version_store_impl.rs): what [handle_connection] answers from the stores, where it writes an answer to a
    file of the client's choice, and when it ends.  An answer is the value that is rendered as text or JSON; rendering, snapshots,
    the summary and the CSV files are not modelled. *)

From S2P Require Import Prelude Sorting Bytes Base StoreKeys Command AccountDiff Account Coinbase Precomputed Signed LedgerDiff Ledger BlockOrder InternalCommand Discovery Rose Branch WitnessTree Growth ColumnFamilies Db Events Codes BlockCodes Schema BlockIndex Usernames InternalStore CommandStore Canonicity Reorg SnarkStore SnarkLists ProverFees BestLedger StagedStore Staking StakingStore Parser Pipeline BlockStore BestTip Ingest.

(** * Commands and answers *)

Inductive AccountsCli := AccountsPublicKey (public_key : string).

Inductive Blocks :=
| BlocksStateHash (state_hash : string) (path : option string) (verbose : bool)
| BlocksBest (path : option string) (verbose : bool)
| BlocksGlobalSlot (slot : string) (path : option string) (verbose : bool)
| BlocksHeight (height : Z) (path : option string) (verbose : bool)
| BlocksPublicKey (public_key : string) (path : option string) (verbose : bool)
| BlocksChildren (state_hash : string) (path : option string) (verbose : bool).

Inductive Chain := ChainBest (num : Z) (path : option string) (start_state_hash : string) (end_state_hash : option string) (verbose : bool).

Inductive Ledgers :=
| LedgersBest (path : option string) (memoize : bool)
| LedgersHash (hash : string) (path : option string) (memoize : bool)
| LedgersHeight (height : Z) (path : option string) (memoize : bool).

Inductive StakingLedgers :=
| StakingLedgersHash (hash : string) (path : option string)
| StakingLedgersEpoch (epoch : Z) (genesis_state_hash : string) (path : option string)
| StakingLedgersDelegations (epoch : Z) (genesis_state_hash : string) (path : option string)
| StakingLedgersPublicKey (epoch : Z) (genesis_state_hash public_key : string).

Inductive Snarks :=
| SnarksStateHash (path : option string) (state_hash : string)
| SnarksPublicKey (path : option string) (public_key : string)
| SnarksTop (num : nat).

(** Without the flag for CSV. *)
Inductive Transactions :=
| TransactionsHash (hash : string) (verbose : bool)
| TransactionsPublicKey (path : option string) (public_key start_state_hash : string) (end_state_hash : option string) (verbose : bool)
| TransactionsStateHash (path : option string) (state_hash : string) (verbose : bool).

Inductive InternalCommands :=
| InternalStateHash (path : option string) (state_hash : string)
| InternalPublicKey (path : option string) (public_key : string).

Inductive ClientCli :=
| CliAccounts (c : AccountsCli)
| CliBlocks (c : Blocks)
| CliChain (c : Chain)
| CliLedgers (c : Ledgers)
| CliStakingLedgers (c : StakingLedgers)
| CliShutdown
| CliSnarks (c : Snarks)
| CliTransactions (c : Transactions)
| CliInternalCommands (c : InternalCommands)
| CliDbVersion.

Record BlockWithoutHeight := mkWithoutHeight {
  bwh_canonicity : option Canonicity;
  bwh_parent_hash : StateHash;
  bwh_state_hash : StateHash;
  bwh_blockchain_length : Z;
  bwh_global_slot_since_genesis : Z
}.
Definition with_canonicity (block : PrecomputedBlock) (canonicity : Canonicity) : BlockWithoutHeight :=
  mkWithoutHeight (Some canonicity) (previous_state_hash block) (state_hash block) (blockchain_length block) (global_slot_since_genesis block).

Record AggregatedEpochStakeDelegation := mkAggregatedDelegation {
  aed_pk : PublicKey;
  aed_epoch : Z;
  aed_network : Network;
  aed_total_stake : Z;
  aed_count_delegates : option Z;
  aed_total_delegated : option Z;
  aed_delegates : list PublicKey
}.

Record IndexerStoreVersion := mkVersion { major : Z; minor : Z; patch : Z; git_commit_sha : string }.

(** What is rendered: whole blocks when the output is verbose, and whole transactions. *)
Inductive Payload :=
| ThePcb (b : PrecomputedBlock) (c : Canonicity)
| TheBlock (b : BlockWithoutHeight)
| ThePcbs (l : list (PrecomputedBlock * Canonicity))
| TheBlocks (l : list BlockWithoutHeight)
| BlockMissing (h : StateHash)
| TheLedger (l : Ledger)
| TheStakingLedger (l : StakingLedger)
| TheDelegations (a : AggregatedEpochStakeDelegations)
| TheWork (l : list SnarkWorkSummary)
| TheProverWork (l : list SnarkWorkSummaryWithStateHash)
| TheTransactions (verbose : bool) (l : list SignedCommandWithData)
| TheBlockCommands (verbose : bool) (l : list UserCommandWithStatus)
| TheInternalCommands (l : list DbInternalCommandWithData).

(** [WrittenTo] says that the payload was written to the path. *)
Inductive Answer :=
| Shown (p : Payload)
| WrittenTo (path : string) (p : Payload)
| MustNotBeDirectory (path : string)
| TheAccount (a : Account)
| TheTop (l : list SnarkWorkTotal)
| TheDelegation (d : AggregatedEpochStakeDelegation)
| TheTransaction (verbose : bool) (d : SignedCommandWithData)
| TheVersion (v : IndexerStoreVersion)
| InvalidPublicKey (s : string)
| InvalidStateHash (s : string)
| InvalidLedgerHash (s : string)
| InvalidHash (s : string)
| AccountMissing (pk : PublicKey)
| BestTipMissing
| NotInStore (s : string)
| BestLedgerUnknown
| AheadOfChain (height best_tip_height : Z)
| NoStakingLedger (epoch : Z)
| MissingFromStakingLedger (pk : string) (epoch : Z)
| NoDelegations (epoch : Z).

(** The files of the server's machine: whether a path is a directory, and whether text can be written to it. *)
Class ClientFiles := { is_dir : string -> bool; can_write : string -> bool }.

(** The order in which the set of the delegates is read. *)
Class DelegatesIter := { delegates_iter : gset PublicKey -> list PublicKey; delegates_iter_perm s : delegates_iter s ≡ₚ elements s }.

(** * The version of the database *)

Definition MAJOR : Z := 0.
Definition MINOR : Z := 15.
Definition PATCH : Z := 4.

Definition INDEXER_STORE_VERSION_KEY : list Z := as_bytes "indexer_store_version".

Section Version.
Context `{Speedb} `{Json IndexerStoreVersion}.
(** The hash of the commit, an environment variable of the build. *)
Variable GIT_COMMIT_HASH : string.

(** The version is written once. *)
Definition set_db_version_with_git_commit (major minor patch : Z) (db : Db) : Db :=
  match cf_get db default_cf INDEXER_STORE_VERSION_KEY with
  | None => cf_put default_cf INDEXER_STORE_VERSION_KEY (to_json (mkVersion major minor patch GIT_COMMIT_HASH)) db
  | Some _ => db
  end.
Definition get_db_version (db : Db) : res IndexerStoreVersion :=
  bytes ← expect_some (cf_get db default_cf INDEXER_STORE_VERSION_KEY); expect (from_json bytes).
End Version.

(** * Answers *)

Section Answers.
Context `{Speedb} `{Decimal} `{HashMapIter} `{TxnHasher} `{SortBy BlockComparison} `{SortBy StateHash} `{LedgerIter} `{StakingIter}.
Context `{Json PrecomputedBlock} `{Json LedgerDiff} `{Json BlockComparison} `{Json (list StateHash)} `{Json (list UserCommandWithStatus)}.
Context `{Json SignedCommandWithData} `{Json (list SignedCommandWithData)} `{Json DbInternalCommandWithData} `{Json SnarkWorkSummary}.
Context `{Json SnarkWorkSummaryWithStateHash} `{Json SnarkFees} `{Json IndexerEvent} `{Json Account} `{Json StakingAccount}.
Context `{Json EpochStakeDelegation} `{Json StakingAccountWithEpochDelegation} `{Json IndexerStoreVersion} `{Json UsernameUpdate}.
Context `{ClientFiles} `{DelegatesIter}.
Implicit Types (db : Db) (h : StateHash) (path : option string) (verbose : bool).

(** ** Where an answer goes *)

(** Written to the file as it is, an error if that fails. *)
Definition write_to (path : string) (p : Payload) : res (option Answer) :=
  if can_write path then Ok (Some (WrittenTo path p)) else Err.
(** To stdout, or to a file that is no directory. *)
Definition deliver path (p : Payload) : res (option Answer) :=
  match path with
  | None => Ok (Some (Shown p))
  | Some path => if is_dir path then Ok (Some (MustNotBeDirectory path)) else write_to path p
  end.
(** To stdout or to a file, which the code writes without a look at the path. *)
Definition deliver_unchecked path (p : Payload) : res (option Answer) :=
  match path with None => Ok (Some (Shown p)) | Some path => write_to path p end.
(** As [deliver], with a failure to write ignored. *)
Definition write_ledger path (ledger : Ledger) : option Answer :=
  match path with
  | None => Some (Shown (TheLedger ledger))
  | Some path => Some (if is_dir path then MustNotBeDirectory path else WrittenTo path (TheLedger ledger))
  end.

(** ** Accounts *)

Definition accounts_public_key db (pk : string) : res (option Answer) :=
  if negb (pk_is_valid pk) then Ok (Some (InvalidPublicKey pk))
  else
    account ← get_best_account db (mkPk pk) token_default;
    Ok (Some (match account with Some account => TheAccount account | None => AccountMissing (mkPk pk) end)).

(** ** Blocks *)

Definition render_blocks verbose (l : list (PrecomputedBlock * Canonicity)) : Payload :=
  if verbose then ThePcbs l else TheBlocks ((fun '(b, c) => with_canonicity b c) <$> l).

(** One block, or the message that its canonicity is missing. *)
Definition render_block db verbose (block : PrecomputedBlock) : res Payload :=
  canonicity ← get_block_canonicity db (state_hash block);
  Ok (match canonicity with
      | Some c => if verbose then ThePcb block c else TheBlock (with_canonicity block c)
      | None => BlockMissing (state_hash block)
      end).

Definition blocks_best db path verbose : res (option Answer) :=
  best_tip ← get_best_block db;
  match best_tip with
  | Some best_tip => p ← render_block db verbose best_tip; deliver_unchecked path p
  | None => Ok (Some BestTipMissing)
  end.

Definition blocks_state_hash db (state_hash : string) path verbose : res (option Answer) :=
  if negb (sh_is_valid state_hash) then Ok (Some (InvalidStateHash state_hash))
  else
    block ← ok_flatten (get_block db (mkSh state_hash));
    match block with
    | Some (block, _) => p ← render_block db verbose block; deliver_unchecked path p
    | None => Ok (Some (NotInStore state_hash))
    end.

(** The blocks whose canonicity is known; a panic if one of them is not in the store. *)
Fixpoint listed_blocks db (hashes : list StateHash) : res (list (PrecomputedBlock * Canonicity)) :=
  match hashes with
  | [] => Ok []
  | h :: hashes =>
    canonicity ← ok_flatten (get_block_canonicity db h);
    match canonicity with
    | Some c =>
      block ← expect (get_block db h); '(block, _) ← expect_some block;
      l ← listed_blocks db hashes; Ok ((block, c) :: l)
    | None => listed_blocks db hashes
    end
  end.
Definition blocks_of db (hashes : res (list StateHash)) path verbose : res (option Answer) :=
  hashes ← hashes; l ← listed_blocks db hashes; deliver path (render_blocks verbose l).

Definition blocks_height db (height : Z) path verbose : res (option Answer) :=
  blocks_of db (get_blocks_at_height db height) path verbose.
Definition blocks_global_slot db (slot : string) path verbose : res (option Answer) :=
  slot ← parse_uint U32_MAX slot; blocks_of db (get_blocks_at_slot db slot) path verbose.
Definition blocks_public_key db (pk : string) path verbose : res (option Answer) :=
  if negb (pk_is_valid pk) then Ok (Some (InvalidPublicKey pk))
  else blocks_of db (get_blocks_at_public_key db (mkPk pk)) path verbose.
Definition blocks_children db (state_hash : string) path verbose : res (option Answer) :=
  blocks_of db (get_block_children db (mkSh state_hash)) path verbose.

(** ** The best chain *)

(** The ancestors from a block on, at most [n] of them, down to the start. *)
Fixpoint chain_back db start_state_hash (n : nat) (parent_hash : StateHash) : res (list PrecomputedBlock) :=
  match n with
  | O => Ok []
  | S n =>
    parent ← get_block db parent_hash;
    match parent with
    | Some (parent_pcb, _) =>
      if bool_decide (state_hash parent_pcb = start_state_hash) then Ok [parent_pcb]
      else l ← chain_back db start_state_hash n (previous_state_hash parent_pcb); Ok (parent_pcb :: l)
    | None => Ok []
    end
  end.

(** The blocks of a list whose canonicity is known. *)
Fixpoint known_blocks db (blocks : list PrecomputedBlock) : res (list (PrecomputedBlock * Canonicity)) :=
  match blocks with
  | [] => Ok []
  | block :: blocks =>
    canonicity ← ok_flatten (get_block_canonicity db (state_hash block));
    l ← known_blocks db blocks;
    Ok (match canonicity with Some c => (block, c) :: l | None => l end)
  end.

(** The end that was asked for, if it is a state hash, or else the best tip. *)
Definition chain_end (best_tip : PrecomputedBlock) (end_state_hash : option string) : StateHash :=
  match end_state_hash with
  | Some s => if sh_is_valid s then mkSh s else state_hash best_tip
  | None => state_hash best_tip
  end.

Definition chain_best db (num : Z) path (start_state_hash : string) (end_state_hash : option string) verbose : res (option Answer) :=
  best_tip ← get_best_block db;
  match best_tip with
  | None => Ok (Some BestTipMissing)
  | Some best_tip =>
    let end_state_hash := chain_end best_tip end_state_hash in
    if negb (sh_is_valid start_state_hash) then Ok (Some (InvalidStateHash start_state_hash))
    else
      end_block ← get_block db end_state_hash;
      start_block ← get_block db (mkSh start_state_hash);
      match end_block, start_block with
      | Some (end_block, _), Some (start_block, _) =>
        let bound := Z.min num (wrap32 (Z.max 0 (blockchain_length end_block - blockchain_length start_block) + 1)) in
        ancestors ← chain_back db (mkSh start_state_hash) (Z.to_nat (bound - 1)) (previous_state_hash end_block);
        l ← known_blocks db (end_block :: ancestors);
        deliver path (render_blocks verbose l)
      | _, _ => Ok None
      end
  end.

(** ** Ledgers *)

Definition ledgers_best db path (memoize : bool) : res (option Answer * Db) :=
  '(ledger, db) ← get_best_ledger memoize db;
  match ledger with
  | Some ledger => a ← deliver path (TheLedger ledger); Ok (a, db)
  | None => Ok (Some BestLedgerUnknown, db)
  end.

(** The ledger of a state hash or of a ledger hash. *)
Definition ledgers_hash (fuel : nat) db (hash : string) path (memoize : bool) : option (res (option Answer * Db)) :=
  let answer '(ledger, db) :=
    Some (Ok (match ledger with Some ledger => write_ledger path ledger | None => Some (NotInStore hash) end, db)) in
  if sh_is_valid hash then r ⇐ get_staged_ledger_at_state_hash fuel (mkSh hash) memoize db; answer r
  else if lh_is_valid hash then r ⇐ get_staged_ledger_at_ledger_hash fuel (mkLh hash) memoize db; answer r
  else Some (Ok (Some (InvalidHash hash), db)).

(** The ledger of the canonical block at a height; a panic if there is none. *)
Definition ledgers_height (fuel : nat) db (height : Z) path (memoize : bool) : option (res (option Answer * Db)) :=
  best_tip_height ⇐ Some (ok_flatten (get_best_block_height db));
  match best_tip_height with
  | Some best_tip_height =>
    if best_tip_height <? height then Some (Ok (Some (AheadOfChain height best_tip_height), db))
    else
      '(ledger, db) ⇐ get_staged_ledger_at_block_height fuel height memoize db;
      Some (ledger ← expect_some ledger; a ← deliver path (TheLedger ledger); Ok (a, db))
  | None => Some (Ok (Some BestTipMissing, db))
  end.

(** ** Staking ledgers *)

Definition staking_hash db (hash : string) path : res (option Answer) :=
  if lh_is_valid hash then
    ledger ← get_staking_ledger db (mkLh hash) None None;
    match ledger with Some l => deliver path (TheStakingLedger l) | None => Ok (Some (NotInStore hash)) end
  else Ok (Some (InvalidLedgerHash hash)).

Definition staking_epoch db (epoch : Z) (genesis_state_hash : string) path : res (option Answer) :=
  if negb (sh_is_valid genesis_state_hash) then Ok (Some (InvalidStateHash genesis_state_hash))
  else
    ledger ← build_staking_ledger db epoch (Some (mkSh genesis_state_hash));
    match ledger with Some l => deliver path (TheStakingLedger l) | None => Ok (Some (NoStakingLedger epoch)) end.

(** What is delegated to one key in an epoch. *)
Definition delegation_to (pk : PublicKey) (a : AggregatedEpochStakeDelegations) : AggregatedEpochStakeDelegation :=
  let d := ag_delegations a !! pk in
  mkAggregatedDelegation pk (ag_epoch a) (ag_network a) (ag_total_delegations a) (d ≫= count_delegates) (d ≫= total_delegated)
    (match d with Some d => delegates_iter (delegates d) | None => [] end).

Definition staking_public_key db (epoch : Z) (genesis_state_hash pk : string) : res (option Answer) :=
  if negb (sh_is_valid genesis_state_hash) then Ok (Some (InvalidStateHash genesis_state_hash))
  else if negb (pk_is_valid pk) then Ok (Some (InvalidPublicKey pk))
  else
    aggregated ← build_aggregated_delegations db epoch (Some (mkSh genesis_state_hash));
    Ok (Some (match aggregated with Some a => TheDelegation (delegation_to (mkPk pk) a) | None => MissingFromStakingLedger pk epoch end)).

Definition staking_delegations db (epoch : Z) (genesis_state_hash : string) path : res (option Answer) :=
  aggregated ← build_aggregated_delegations db epoch (Some (mkSh genesis_state_hash));
  match aggregated with Some a => deliver path (TheDelegations a) | None => Ok (Some (NoDelegations epoch)) end.

(** ** SNARK work *)

Definition snarks_public_key db path (pk : string) : res (option Answer) :=
  if negb (pk_is_valid pk) then Ok (Some (InvalidPublicKey pk))
  else snarks ← get_snark_work_by_public_key db (mkPk pk); deliver path (TheProverWork snarks).

(** A panic when the file cannot be written. *)
Definition snarks_state_hash db path (state_hash : string) : res (option Answer) :=
  if negb (sh_is_valid state_hash) then Ok (Some (InvalidStateHash state_hash))
  else
    snarks ← get_block_snark_work db (mkSh state_hash);
    match snarks with Some snarks => expect (deliver path (TheWork snarks)) | None => Ok None end.

Definition snarks_top db (num : nat) : res (option Answer) :=
  l ← get_top_snark_provers_by_total_fees db num; Ok (Some (TheTop l)).

(** ** Transactions *)

(** The end of the range, which the best tip replaces when it is not given; without a best tip it is an error message. *)
Definition range_end db (end_state_hash : option string) : res StateHash :=
  let raw := default "x" end_state_hash in
  if bool_decide (raw = "x") then
    best_tip ← get_best_block db;
    Ok (match best_tip with Some best_tip => state_hash best_tip | None => mkSh "Best tip block missing from store" end)
  else Ok (mkSh raw).

Definition transactions_public_key db path (pk start_state_hash : string) (end_state_hash : option string) verbose : res (option Answer) :=
  end_state_hash ← range_end db end_state_hash;
  if negb (pk_is_valid pk) then Ok (Some (InvalidPublicKey pk))
  else if negb (sh_is_valid start_state_hash) then Ok (Some (InvalidStateHash start_state_hash))
  else if negb (sh_is_valid (sh_str end_state_hash)) then Ok (Some (InvalidStateHash (sh_str end_state_hash)))
  else
    transactions ← get_user_commands_for_public_key db (mkPk pk);
    deliver path (TheTransactions verbose (default [] transactions)).

Definition transactions_hash db (hash : string) verbose : res (option Answer) :=
  hash ← txn_new hash;
  cmd ← get_user_command db hash 0;
  Ok (option_map (TheTransaction verbose) cmd).

Definition transactions_state_hash db path (state_hash : string) verbose : res (option Answer) :=
  if negb (sh_is_valid state_hash) then Ok (Some (InvalidStateHash state_hash))
  else
    cmds ← ok_flatten (get_block_user_commands db (mkSh state_hash));
    match cmds with Some cmds => expect (deliver path (TheBlockCommands verbose cmds)) | None => Ok None end.

(** ** Internal commands *)

Definition internal_public_key db path (pk : string) : res (option Answer) :=
  if negb (pk_is_valid pk) then Ok (Some (InvalidPublicKey pk))
  else cmds ← get_internal_commands_public_key db (mkPk pk) 0 U64_MAX; deliver path (TheInternalCommands cmds).
Definition internal_state_hash db path (state_hash : string) : res (option Answer) :=
  if negb (sh_is_valid state_hash) then Ok (Some (InvalidStateHash state_hash))
  else cmds ← get_internal_commands db (mkSh state_hash); deliver path (TheInternalCommands cmds).

(** * Connections *)

(** An answer from the store, which does not change. *)
Definition unchanged db (r : res (option Answer)) : option (res (option Answer * Db)) := Some (a ← r; Ok (a, db)).

(** The answer to a command other than a shutdown. *)
Definition response (fuel : nat) db (command : ClientCli) : option (res (option Answer * Db)) :=
  match command with
  | CliAccounts (AccountsPublicKey pk) => unchanged db (accounts_public_key db pk)
  | CliBlocks (BlocksBest path verbose) => unchanged db (blocks_best db path verbose)
  | CliBlocks (BlocksStateHash h path verbose) => unchanged db (blocks_state_hash db h path verbose)
  | CliBlocks (BlocksHeight height path verbose) => unchanged db (blocks_height db height path verbose)
  | CliBlocks (BlocksGlobalSlot slot path verbose) => unchanged db (blocks_global_slot db slot path verbose)
  | CliBlocks (BlocksPublicKey pk path verbose) => unchanged db (blocks_public_key db pk path verbose)
  | CliBlocks (BlocksChildren h path verbose) => unchanged db (blocks_children db h path verbose)
  | CliChain (ChainBest num path start_hash end_hash verbose) => unchanged db (chain_best db num path start_hash end_hash verbose)
  | CliLedgers (LedgersBest path memoize) => Some (ledgers_best db path memoize)
  | CliLedgers (LedgersHash hash path memoize) => ledgers_hash fuel db hash path memoize
  | CliLedgers (LedgersHeight height path memoize) => ledgers_height fuel db height path memoize
  | CliStakingLedgers (StakingLedgersHash hash path) => unchanged db (staking_hash db hash path)
  | CliStakingLedgers (StakingLedgersEpoch epoch genesis path) => unchanged db (staking_epoch db epoch genesis path)
  | CliStakingLedgers (StakingLedgersPublicKey epoch genesis pk) => unchanged db (staking_public_key db epoch genesis pk)
  | CliStakingLedgers (StakingLedgersDelegations epoch genesis path) => unchanged db (staking_delegations db epoch genesis path)
  | CliSnarks (SnarksPublicKey path pk) => unchanged db (snarks_public_key db path pk)
  | CliSnarks (SnarksStateHash path h) => unchanged db (snarks_state_hash db path h)
  | CliSnarks (SnarksTop num) => unchanged db (snarks_top db num)
  | CliTransactions (TransactionsPublicKey path pk start_hash end_hash verbose) =>
    unchanged db (transactions_public_key db path pk start_hash end_hash verbose)
  | CliTransactions (TransactionsHash hash verbose) => unchanged db (transactions_hash db hash verbose)
  | CliTransactions (TransactionsStateHash path h verbose) => unchanged db (transactions_state_hash db path h verbose)
  | CliInternalCommands (InternalPublicKey path pk) => unchanged db (internal_public_key db path pk)
  | CliInternalCommands (InternalStateHash path h) => unchanged db (internal_state_hash db path h)
  | CliDbVersion => Some (v ← get_db_version db; Ok (Some (TheVersion v), db))
  | CliShutdown => Some (Ok (None, db))
  end.

(** The loop over the connections, with the command that each of them sends, if one can be read.  It ends with the first
    error, which [?] returns, as with a shutdown; the answers up to there were sent ([None]: no response 404). *)
Fixpoint handle_connection (fuel : nat) db (connections : list (res ClientCli)) : option (list (option Answer) * res Db) :=
  match connections with
  | [] => Some ([], Ok db)
  | Err :: _ => Some ([], Err)
  | Panic :: _ => Some ([], Panic)
  | Ok CliShutdown :: _ => Some ([], Ok db)
  | Ok command :: connections =>
    match response fuel db command with
    | Some (Ok (a, db)) => '(l, r) ← handle_connection fuel db connections; Some (a :: l, r)
    | Some Err => Some ([], Err)
    | Some Panic => Some ([], Panic)
    | None => None
    end
  end.
End Answers.

(** * What the answers say *)

Section Properties.
Context `{Speedb} `{Json PrecomputedBlock} `{ClientFiles}.
Implicit Types (db : Db) (block : PrecomputedBlock) (blocks : list PrecomputedBlock).

(** The upper part of the best chain is in the store, its tip first: the blocks themselves, what is kept of each block of the
    chain and the index of the canonical blocks. *)
Definition whole_chain blocks (older : list Stored) : list Stored := (stored_of <$> blocks) ++ older.
Record chain_kept db blocks (older : list Stored) : Prop := {
  ck_tip : get_best_block_hash db = Ok (st_hash <$> head (whole_chain blocks older));
  ck_blocks : Forall (fun b => exists n, get_block db (state_hash b) = Ok (Some (b, n))) blocks;
  ck_stored : Forall (stored db) (whole_chain blocks older);
  ck_chain : chain (whole_chain blocks older);
  ck_canonical : canonical db (whole_chain blocks older)
}.

Lemma whole_lookup blocks older i b : blocks !! i = Some b -> whole_chain blocks older !! i = Some (stored_of b).
Proof. intros Hb. apply lookup_app_l_Some. by rewrite list_lookup_fmap, Hb. Qed.

Lemma ck_get db blocks older i b : chain_kept db blocks older -> blocks !! i = Some b -> exists n, get_block db (state_hash b) = Ok (Some (b, n)).
Proof. intros Hk Hi. exact (Forall_lookup_1 _ _ _ _ (ck_blocks _ _ _ Hk) Hi). Qed.

(** The heights of the chain are consecutive, and parents are the next blocks. *)
Lemma chain_step l i s t : chain l -> l !! i = Some s -> l !! S i = Some t -> child_of s t.
Proof.
  revert i. induction l as [|x l IH]; intros i Hc Hs Ht; [done|]. destruct i as [|i].
  - injection Hs as ->. destruct l as [|y l]; [done|]. injection Ht as ->. by destruct Hc.
  - by apply (IH i); [apply (chain_tail x)| |].
Qed.
Lemma chain_heights l i j s t : chain l -> l !! i = Some s -> l !! j = Some t -> (i <= j)%nat -> st_length s = st_length t + Z.of_nat (j - i).
Proof.
  intros Hc Hs Ht Hij. remember (j - i)%nat as d eqn:Ed. revert i s Hs Hij Ed. induction d as [|d IH]; intros i s Hs Hij Ed.
  - assert (i = j) as -> by lia. simplify_eq. lia.
  - destruct (lookup_lt_is_Some_2 l (S i)) as [x Hx]; [apply lookup_lt_Some in Ht; lia|].
    destruct (chain_step _ _ _ _ Hc Hs Hx) as (_ & -> & _). rewrite (IH (S i) x Hx) by lia. lia.
Qed.
Lemma kept_child db blocks older i b c : chain_kept db blocks older -> blocks !! i = Some b -> blocks !! S i = Some c -> previous_state_hash b = state_hash c.
Proof.
  intros Hk Hb Hc. apply (chain_step (whole_chain blocks older) i (stored_of b) (stored_of c) (ck_chain _ _ _ Hk)); by apply whole_lookup.
Qed.
Lemma kept_hash db blocks older i j b c :
  chain_kept db blocks older -> blocks !! i = Some b -> blocks !! j = Some c -> state_hash b = state_hash c -> b = c.
Proof.
  intros Hk Hb Hc E. destruct (ck_get _ _ _ _ _ Hk Hb) as [n Eb], (ck_get _ _ _ _ _ Hk Hc) as [m Ec]. rewrite E in Eb. congruence.
Qed.

(** The walk from a block of the chain finds the next ones, up to the start. *)
Lemma chain_back_kept db blocks older i j s n :
  chain_kept db blocks older -> blocks !! j = Some s -> (i < j)%nat -> forall b, blocks !! i = Some b ->
  chain_back db (state_hash s) n (previous_state_hash b) = Ok (take (Nat.min n (j - i)) (drop (S i) blocks)).
Proof.
  intros Hk Hs. revert i. induction n as [|n IH]; intros i Hij b Hb; [done|]. cbn [chain_back].
  destruct (lookup_lt_is_Some_2 blocks (S i)) as [c Hc]; [apply lookup_lt_Some in Hs; lia|].
  rewrite (kept_child _ _ _ _ _ _ Hk Hb Hc). destruct (ck_get _ _ _ _ _ Hk Hc) as [m ->]. cbn [mbind res_bind].
  rewrite (drop_S _ _ _ Hc). destruct (decide (S i = j)) as [Ej|Ej].
  - assert (c = s) as -> by congruence. rewrite bool_decide_true by done. replace (Nat.min (S n) (j - i)) with 1%nat by lia. done.
  - rewrite bool_decide_false.
    + rewrite (IH (S i) ltac:(lia) c Hc). cbn [mbind res_bind]. replace (Nat.min (S n) (j - i)) with (S (Nat.min n (j - S i))) by lia. done.
    + intros E. assert (c = s) as -> by exact (kept_hash _ _ _ _ _ _ _ Hk Hc Hs E).
      pose proof (chain_heights _ _ _ _ _ (ck_chain _ _ _ Hk) (whole_lookup _ _ _ _ Hc) (whole_lookup _ _ _ _ Hs) ltac:(lia)). lia.
Qed.

Lemma known_canonical db blocks older l :
  chain_kept db blocks older -> (forall b, b ∈ l -> b ∈ blocks) -> known_blocks db l = Ok ((fun b => (b, Canonical)) <$> l).
Proof.
  intros Hk. induction l as [|b l IH]; intros Hl; [done|]. cbn [known_blocks].
  pose proof (canonical_block db _ (stored_of b) (ck_canonical _ _ _ Hk) (ck_chain _ _ _ Hk) (ck_stored _ _ _ Hk)) as Hc.
  change (st_hash (stored_of b)) with (state_hash b) in Hc. rewrite Hc by (apply elem_of_app; left; apply (list_elem_of_fmap_2 stored_of), Hl; by left).
  cbn [ok_flatten mbind res_bind]. rewrite IH by (intros c Hin; apply Hl; by right). done.
Qed.

(** The end of the query: a block of the chain, or its tip when none is given. *)
Definition asks_end blocks (i : nat) (e : PrecomputedBlock) (end_state_hash : option string) : Prop :=
  match end_state_hash with Some s => s = sh_str (state_hash e) | None => i = 0%nat end.

Lemma chain_end_kept db blocks older i e tip end_state_hash :
  chain_kept db blocks older -> blocks !! i = Some e -> blocks !! 0%nat = Some tip -> asks_end blocks i e end_state_hash ->
  chain_end tip end_state_hash = state_hash e.
Proof.
  intros Hk He Ht Ha. destruct end_state_hash as [s|]; cbn [asks_end chain_end] in *; [|congruence]. subst s.
  destruct (so_wf _ _ (Forall_lookup_1 _ _ _ _ (ck_stored _ _ _ Hk) (whole_lookup _ _ _ _ He))) as ([Hwf _] & _). cbn [st_hash stored_of] in Hwf. rewrite Hwf. by destruct (state_hash e).
Qed.

Lemma best_block_kept db blocks older tip : chain_kept db blocks older -> blocks !! 0%nat = Some tip -> get_best_block db = Ok (Some tip).
Proof.
  intros Hk Ht. unfold get_best_block. rewrite (ck_tip _ _ _ Hk), head_lookup, (whole_lookup _ _ _ _ Ht). cbn [st_hash stored_of fmap option_fmap option_map mbind res_bind].
  by destruct (ck_get _ _ _ _ _ Hk Ht) as [n ->].
Qed.

Lemma kept_valid db blocks older i b : chain_kept db blocks older -> blocks !! i = Some b -> sh_is_valid (sh_str (state_hash b)) = true /\ u32 (blockchain_length b).
Proof.
  intros Hk Hb. by destruct (so_wf _ _ (Forall_lookup_1 _ _ _ _ (ck_stored _ _ _ Hk) (whole_lookup _ _ _ _ Hb))) as ([? _] & _ & ? & _).
Qed.

(** The query for the best chain is answered with the chain: asked for at most [num] blocks from one of its blocks, the tip when no end is given, down to
    another, the server shows these blocks in descending order, all of them canonical, and at least the first. *)
Lemma best_chain_answered db blocks older i j e s num end_state_hash verbose :
  chain_kept db blocks older -> blocks !! i = Some e -> blocks !! j = Some s -> (i <= j)%nat -> u32 num -> blockchain_length e < U32_MAX ->
  asks_end blocks i e end_state_hash ->
  chain_best db num None (sh_str (state_hash s)) end_state_hash verbose =
    Ok (Some (Shown (render_blocks verbose
      ((fun b => (b, Canonical)) <$> take (Nat.max 1 (Nat.min (Z.to_nat num) (S (j - i)))) (drop i blocks))))).
Proof.
  intros Hk He Hs Hij Hnum Hlen Ha. unfold chain_best.
  destruct (lookup_lt_is_Some_2 blocks 0) as [tip Ht]; [apply lookup_lt_Some in He; lia|].
  rewrite (best_block_kept _ _ _ _ Hk Ht). cbn [mbind res_bind]. rewrite (chain_end_kept _ _ _ _ _ _ _ Hk He Ht Ha).
  destruct (kept_valid _ _ _ _ _ Hk Hs) as [Hv Hus]. rewrite Hv. cbn [negb].
  destruct (ck_get _ _ _ _ _ Hk He) as [n1 ->]. cbn [mbind res_bind].
  replace (mkSh (sh_str (state_hash s))) with (state_hash s) by (by destruct (state_hash s)).
  destruct (ck_get _ _ _ _ _ Hk Hs) as [n2 ->]. cbn [mbind res_bind].
  pose proof (chain_heights _ _ _ _ _ (ck_chain _ _ _ Hk) (whole_lookup _ _ _ _ He) (whole_lookup _ _ _ _ Hs) Hij) as Hh. cbn [st_length stored_of] in Hh.
  rewrite wrap32_id by ints. replace (Z.to_nat _) with (Nat.min (Z.to_nat num) (S (j - i)) - 1)%nat by ints.
  set (n := (Nat.min _ _ - 1)%nat). assert (chain_back db (state_hash s) n (previous_state_hash e) = Ok (take n (drop (S i) blocks))) as ->.
  { destruct (decide (i = j)) as [->|Hne]; [unfold n; replace (Nat.min _ _ - 1)%nat with 0%nat by lia; done|].
    rewrite (chain_back_kept db blocks older i j s n Hk Hs ltac:(lia) e He). do 2 f_equal. lia. }
  cbn [mbind res_bind]. replace (e :: take n (drop (S i) blocks)) with (take (Nat.max 1 (Nat.min (Z.to_nat num) (S (j - i)))) (drop i blocks)).
  - rewrite (known_canonical db blocks older) by (done || intros b (k & Hb & _)%elem_of_take; rewrite lookup_drop in Hb; by eapply list_elem_of_lookup_2). done.
  - rewrite (drop_S _ _ _ He). replace (Nat.max 1 _) with (S n) by lia. done.
Qed.
End Properties.

(** ** Queries after the ingestion *)

Section Ingested.
Context `{IdTreeSpec} `{SpeedbSpec} `{Decimal} `{HashMapIter} `{Blake2b} `{TxnHasher} `{SortBy BlockComparison} `{SortBy StateHash}.
Context `{JsonSpec PrecomputedBlock} `{JsonSpec LedgerDiff} `{JsonSpec PcbVersion} `{JsonSpec BlockComparison} `{JsonSpec (list Z)}.
Context `{JsonSpec (list StateHash)} `{JsonSpec UsernameUpdate} `{JsonSpec (list UserCommandWithStatus)} `{Json SignedCommandWithData}.
Context `{Json (list SignedCommandWithData)} `{InternalJson} `{JsonSpec SnarkWorkSummary}.
Context `{JsonSpec SnarkWorkSummaryWithStateHash} `{JsonSpec SnarkFees} `{JsonSpec IndexerEvent} `{JsonSpec Account} `{Json string}.
Context `{DiffIter} `{ProverIter} `{UsernameIter} `{LedgerIter} `{BlockFiles} `{BlockDisk} `{ClientFiles}.
Context (content : StateHash -> BlockContents).
Implicit Types (db : Db) (ix : Indexer).

Lemma chain_of_whole blocks older : chain_of blocks ++ older = whole_chain (rev blocks) older.
Proof. unfold chain_of, whole_chain. f_equal. symmetry. apply map_rev. Qed.

(** The blocks of a chain that is in the stores, and can be read. *)
Lemma chain_store_kept db blocks older get num fees es :
  chain_store content db (chain_of blocks ++ older) get num fees es ->
  Forall (fun b => exists n, get_block db (state_hash b) = Ok (Some (b, n))) blocks -> chain_kept db (rev blocks) older.
Proof.
  rewrite chain_of_whole. intros Hc Hb. destruct Hc. split; try done.
  - exact (bv_tip _ _ _ _ _ _ _ cs_view).
  - by apply Forall_rev.
  - exact (bv_canonical _ _ _ _ _ _ _ cs_view).
Qed.

(** C3: What was ingested is answered: after the loop over the files of a chain of new, well-formed blocks above the best tip, a client that asks for at most [m] blocks of
    the best chain, from one of the ingested blocks, the last of them when no end is given, down to another, is shown these blocks as they were in the files, in descending order,
    all of them canonical; at least the first is shown. *)
Theorem ingested_chain_answered fuel th blocks ix parser parser' db c lc get num fees es i j e s m end_state_hash verbose :
  ix_store ix = Some db -> chain_store content db (c :: lc) get num fees es -> staged_ok db -> good_ledger (st_ledger (ix_state ix)) ->
  st_blocks_processed (ix_state ix) = 1 -> 0 < st_ledger_cadence (ix_state ix) ->
  delivers parser blocks parser' -> continues content db blocks.*1 th c lc -> Forall (fun p => u64 p.2) blocks ->
  Z.of_nat (length es) + 4 * Z.of_nat (length blocks) <= U32_MAX ->
  rev blocks.*1 !! i = Some e -> rev blocks.*1 !! j = Some s -> (i <= j)%nat -> u32 m -> blockchain_length e < U32_MAX -> asks_end (rev blocks.*1) i e end_state_hash ->
  exists ix' db' pending,
    ingest_loop (length blocks) fuel (Z.of_nat (length blocks)) (ix, parser, []) = Some (Ok (ix', parser', pending)) /\
    ix_store ix' = Some db' /\
    chain_best db' m None (sh_str (state_hash s)) end_state_hash verbose =
      Ok (Some (Shown (render_blocks verbose
        ((fun b => (b, Canonical)) <$> take (Nat.max 1 (Nat.min (Z.to_nat m) (S (j - i)))) (drop i (rev blocks.*1)))))).
Proof.
  intros Est Hcs Hok Hl Ek Hc Hd Hco Hu Hes He Hs Hij Hm Hlen Ha.
  assert (0 < length blocks)%nat as Hpos by (apply lookup_lt_Some in He; rewrite length_rev, length_fmap in He; lia).
  destruct (ingest_loop_runs content fuel (Z.of_nat (length blocks)) th blocks ix parser parser' [] db c lc get num fees es)
    as (ix' & db' & es' & pending & E & [] & _ & [Hw _]); [by split|done|done|lia|lia|ints|done|].
  exists ix', db', pending. split_and!; [done|done|]. apply (best_chain_answered db' _ (c :: lc) i j e s); try done.
  eapply chain_store_kept; [done|]. apply Forall_fmap. rewrite Forall_forall in *. intros [b n] Hb. exists n. by apply get_block_written; [apply (Hu (b, n))|apply (Hw (b, n))].
Qed.
End Ingested.

Section Failures.
Context `{Speedb} `{Decimal} `{HashMapIter} `{TxnHasher} `{SortBy BlockComparison} `{SortBy StateHash} `{LedgerIter} `{StakingIter}.
Context `{Json PrecomputedBlock} `{Json LedgerDiff} `{Json BlockComparison} `{Json (list StateHash)} `{Json (list UserCommandWithStatus)}.
Context `{Json SignedCommandWithData} `{Json (list SignedCommandWithData)} `{Json DbInternalCommandWithData} `{Json SnarkWorkSummary}.
Context `{Json SnarkWorkSummaryWithStateHash} `{Json SnarkFees} `{Json IndexerEvent} `{Json Account} `{Json StakingAccount}.
Context `{Json EpochStakeDelegation} `{Json StakingAccountWithEpochDelegation} `{Json IndexerStoreVersion} `{Json UsernameUpdate}.
Context `{ClientFiles} `{DelegatesIter}.
Implicit Types (db : Db).

(** The range of blocks that a client gives for the transactions of a key is checked and not used. *)
Lemma transactions_ignore_range db path pk start1 start2 end1 end2 verbose :
  sh_is_valid start1 = true -> sh_is_valid start2 = true -> sh_is_valid end1 = true -> sh_is_valid end2 = true ->
  transactions_public_key db path pk start1 (Some end1) verbose = transactions_public_key db path pk start2 (Some end2) verbose.
Proof.
  assert (forall e, sh_is_valid e = true -> range_end db (Some e) = Ok (mkSh e)) as Hend.
  { intros e He. unfold range_end. change (default "x" (Some e)) with e. rewrite bool_decide_false; [done|]. intros ->. discriminate He. }
  intros Hs1 Hs2 He1 He2. unfold transactions_public_key. rewrite !Hend by done. cbn [mbind res_bind sh_str]. by rewrite Hs1, Hs2, He1, He2.
Qed.

(** Queries that a client can send to a store that is in order, and how they fail: a slot that is no number, a text that is no transaction hash, the children
    of a block that is not there, a best block to be written where it cannot be, and the ledger at a height without a canonical block. *)
Inductive fails db : ClientCli -> res Db -> Prop :=
| fails_slot slot path verbose : parse_uint U32_MAX slot = Err -> fails db (CliBlocks (BlocksGlobalSlot slot path verbose)) Err
| fails_transaction hash verbose : txn_new hash = Err -> fails db (CliTransactions (TransactionsHash hash verbose)) Err
| fails_children h path verbose : get_block_height db (mkSh h) = Ok None -> fails db (CliBlocks (BlocksChildren h path verbose)) Err
| fails_directory path verbose b c :
  get_best_block db = Ok (Some b) -> get_block_canonicity db (state_hash b) = Ok c -> can_write path = false ->
  fails db (CliBlocks (BlocksBest (Some path) verbose)) Err
| fails_height height best path memoize :
  get_best_block_height db = Ok (Some best) -> height <= best -> get_canonical_hash_at_height db height = Ok None ->
  fails db (CliLedgers (LedgersHeight height path memoize)) Panic.

Lemma fails_response fuel db c r : fails db c r ->
  c <> CliShutdown /\ ((r = Err /\ response fuel db c = Some Err) \/ (r = Panic /\ response fuel db c = Some Panic)).
Proof.
  intros Hf. destruct Hf as [slot path verbose E|hash verbose E|h path verbose E|path verbose b c E1 E2 E3|height best path memoize E1 E2 E3]; (split; [done|]); cbn [response].
  - left. unfold blocks_global_slot. by rewrite E.
  - left. unfold transactions_hash. by rewrite E.
  - left. unfold blocks_children, blocks_of, get_block_children. by rewrite E.
  - left. unfold blocks_best. rewrite E1. cbn [mbind res_bind]. unfold render_block. rewrite E2. cbn [mbind res_bind]. unfold deliver_unchecked, write_to. by rewrite E3.
  - right. unfold ledgers_height. rewrite E1. cbn [ok_flatten fbind]. destruct (Z.ltb_spec best height); [lia|].
    unfold get_staged_ledger_at_block_height. by rewrite E3.
Qed.

Lemma handle_connection_then fuel db cs answers db' c rest :
  handle_connection fuel db cs = Some (answers, Ok db') -> Ok CliShutdown ∉ cs ->
  handle_connection fuel db (cs ++ Ok c :: rest) = ('(l, r) ← handle_connection fuel db' (Ok c :: rest); Some (answers ++ l, r)).
Proof.
  remember (handle_connection fuel db' (Ok c :: rest)) as k eqn:Ek. revert db answers. induction cs as [|x cs IH]; intros db answers E Hs.
  - injection E as <- <-. rewrite app_nil_l, <- Ek. by destruct k as [[l r]|].
  - apply not_elem_of_cons in Hs as [Hx Hs]. destruct x as [x| |]; [|done..]. assert (x <> CliShutdown) as Hne by (by intros ->).
    revert E. cbn [handle_connection app]. destruct x; try done;
      (destruct (response fuel db _) as [[[a db1]| |]|]; [|done..]);
      (destruct (handle_connection fuel db1 cs) as [[l r]|] eqn:E1; [|done]); cbn [mbind option_bind]; intros E; injection E as <- ->;
      rewrite (IH db1 l E1 Hs); by destruct k as [[l' r']|].
Qed.

(** C27: A query that cannot be answered ends the server: whatever was asked before, after a slot that is no number, a text that is no transaction hash, the children of
    an unknown block, a file that cannot be written or a height below the canonical chain, the loop over the connections returns the failure, and no later client is answered. *)
Theorem failing_query_ends_server fuel db cs answers db' c r rest :
  handle_connection fuel db cs = Some (answers, Ok db') -> Ok CliShutdown ∉ cs -> fails db' c r ->
  handle_connection fuel db (cs ++ Ok c :: rest) = Some (answers, r).
Proof.
  intros E Hs Hf. rewrite (handle_connection_then _ _ _ _ _ _ _ E Hs). destruct (fails_response fuel db' c r Hf) as [Hc Hr]. cbn [handle_connection].
  destruct c; try done; destruct Hr as [[-> ->]|[-> ->]]; cbn [mbind option_bind]; by rewrite app_nil_r.
Qed.
End Failures.

(** * Examples *)

Section QueryExamples.
#[local] Existing Instances map_db map_db_spec countable_json one_txn insertion_sort_by whole_decimal digest_example untagged_json sorted_iter.
#[local] Instance query_ledger_iter : LedgerIter :=
  {| token_iter := map_to_list; token_iter_perm l := Permutation_refl _; account_iter := map_to_list; account_iter_perm l := Permutation_refl _ |}.
#[local] Existing Instance key_order.
#[local] Instance no_directories : ClientFiles := {| is_dir _ := false; can_write _ := true |}.

#[local] Instance delegates_in_order : DelegatesIter := {| delegates_iter := elements; delegates_iter_perm s := Permutation_refl _ |}.
Global Instance IndexerStoreVersion_eq_dec : EqDecision IndexerStoreVersion.
Proof. solve_decision. Defined.
Global Instance IndexerStoreVersion_countable : Countable IndexerStoreVersion.
Proof.
  apply (inj_countable' (fun v => (major v, minor v, patch v, git_commit_sha v)) (fun '(a, b, c, s) => mkVersion a b c s)). by intros [].
Qed.

(** A client asks for a slot by name, and those after it are not answered. *)
Lemma failing_query_ends_server_witness :
  handle_connection 0 (∅ : Db) [Ok (CliAccounts (AccountsPublicKey "B62q")); Ok (CliBlocks (BlocksBest None false));
      Ok (CliBlocks (BlocksGlobalSlot "latest" None false)); Ok (CliBlocks (BlocksBest None false))] =
    Some ([Some (InvalidPublicKey "B62q"); Some BestTipMissing], Err).
Proof.
  apply (failing_query_ends_server 0 (∅ : Db) [Ok (CliAccounts (AccountsPublicKey "B62q")); Ok (CliBlocks (BlocksBest None false))] _ (∅ : Db)
    (CliBlocks (BlocksGlobalSlot "latest" None false)) Err [Ok (CliBlocks (BlocksBest None false))]).
  - vm_compute. reflexivity.
  - by intros [Hs|[Hs|Hs%elem_of_nil]%elem_of_cons]%elem_of_cons.
  - constructor. vm_compute. reflexivity.
Defined.
End QueryExamples.

Section IngestedExample.
#[local] Existing Instances nat_tree nat_tree_spec map_db map_db_spec countable_json one_txn insertion_sort_by whole_decimal digest_example untagged_json sorted_iter.
#[local] Existing Instances tip_diff_iter tip_prover_iter tip_username_iter ingest_ledger_iter ingest_heads ingest_files no_directories.

(** The two ingested blocks are shown, the last first. *)
Lemma ingested_chain_answered_witness :
  exists db ix' db' p pending, ingest_loop 2 0 2 (ingest_start db, ingest_parser ingest_paths, []) = Some (Ok (ix', p, pending)) /\
    ix_store ix' = Some db' /\
    chain_best db' 10 None (example_hash "d") None false =
      Ok (Some (Shown (TheBlocks [with_canonicity second_ingested Canonical; with_canonicity first_ingested Canonical]))).
Proof.
  destruct fork_example as (db & Hw & Hf & _). destruct (ingest_store db Hw Hf) as (Hcs & Hok & Hco).
  destruct (ingested_chain_answered ingest_content 0 coinbase_transaction ((fun b => (b, 100)) <$> ingest_blocks) (ingest_start (tip_store db))
    (ingest_parser ingest_paths) (parser_after (parser_after (ingest_parser ingest_paths))) (tip_store db) ex_a1 [ex_c] (fun _ _ => None) 0
    (fun _ => mkSnarkFees 0 0 U64_MAX) [] 0 1 second_ingested first_ingested 10 None false) as (ix' & db' & pending & E & Est & Ea).
  - reflexivity.
  - exact Hcs.
  - exact Hok.
  - split; intros pk token a Ha; discriminate Ha.
  - reflexivity.
  - reflexivity.
  - exact ingest_delivers.
  - exact Hco.
  - repeat constructor; vm_compute; discriminate.
  - vm_compute. discriminate.
  - reflexivity.
  - reflexivity.
  - lia.
  - ints.
  - vm_compute. reflexivity.
  - reflexivity.
  - exists (tip_store db), ix', db', (parser_after (parser_after (ingest_parser ingest_paths))), pending. split; [exact E|]. split; [exact Est|]. exact Ea.
Defined.
End IngestedExample.
